(* ===== verification/_CoqProject ===== *)
-Q . S2P
Prelude.v
Machine.v
Str.v
Text.v
Error.v
Types.v
Sharding.v
Index.v
Receipt.v
Lookup.v
NarInfo.v
Filter.v
Graph.v
Query.v
Purge.v
Gc.v
Murmur.v
Float64.v
Bloom.v
OciError.v
Flight.v
Transport.v
Endpoint.v
Auth.v
Request.v
Driver.v
Upload.v
Manifest.v
ManifestClient.v
IndexClient.v
Ghcr.v
Discovery.v
Deletion.v
Builder.v
Cli.v
Promote.v
ReadOnly.v
NixFilter.v
Nix.v
PurgeRun.v
Export.v
Capture.v
BuildRun.v
Listing.v
Task.v
Args.v
Reqwest.v
ProxyIndex.v
Proxy.v
Main.v
Worker.v
WorkerTransport.v
Edge.v
