(* ===== verification/Prelude.v ===== *)
(** * A verification of nixcache-oci: the cache rules, the OCI client and its commands and servers

    nixcache-oci is a Nix binary cache whose objects live in an OCI registry.
    Builders push NARs as blobs and describe them by index entries; the entries
    of one architecture are spread over 1024 shards, each shard is one blob, and
    a root index lists the 1024 shard descriptors under a Merkle root.  Proxies
    and edge workers read the root index, authenticate the shard a request
    needs, and answer [.narinfo] and [.nar] requests.  The builder drives [nix]:
    a session records the store before a build and captures what is new after
    it, a build worker builds and exports, promotion publishes what both left in
    receipts.  Maintenance commands list entries, purge them and collect garbage.

    ** The parts of the program and where they are modelled

    The rules of the cache are the crate [nixcache-core]
    (src/crates/nixcache-core/src); it is modelled here completely, apart from
    the JSON text of its records.  One file per component, each definition
    under the name it has in the source ([Type_method] for a method):

    - [Prelude], [Machine], [Str], [Text], [Float64]: the language and its
      standard library as far as the crate uses them: outcomes with errors and
      panics, hash maps with an unspecified iteration order, fixed-width
      integers, UTF-8 strings, lines and words, IEEE 754 doubles;
    - [Error]: error.rs, the error types and their messages;
    - [Types]: types.rs, [StoreHash], [NarDigest], [SystemArch], store paths,
      [NarInfoMeta], [OriginMetadata], [IndexEntry], their parsers, validators
      and the narinfo renderer;
    - [Sharding]: sharding.rs, Nix base32, shard ids, the canonical encoder, the
      layered Merkle tree and the hash of a shard;
    - [Index]: types.rs and sharding.rs, [ShardDescriptor],
      [ShardedArchCacheIndexData], [ShardDataPayload], the Merkle root over the
      descriptors, their validation and their difference;
    - [Receipt]: types.rs, [BuildReceipt] and its merge;
    - [Lookup]: lookup.rs, hashes and NAR names from paths and URLs;
    - [NarInfo]: narinfo.rs, the narinfo parser;
    - [Filter]: filter.rs, wildcard patterns, predicates, selectors;
    - [Graph]: the breadth-first loops of filter.rs, purge.rs and gc.rs;
    - [Query]: filter.rs, [evaluate_cache_query], the selection engine;
    - [Purge]: purge.rs, purging and pruning of GC roots;
    - [Gc]: gc.rs, garbage collection;
    - [Murmur], [Bloom]: bloom.rs, MurmurHash3 and the blocked Bloom filter.

    The client of the registry is the crate [nixcache-oci]
    (src/crates/nixcache-oci/src), on top of the core:

    - [OciError]: error.rs and the errors of the endpoint and of compression;
    - [Flight]: token/sync.rs and token.rs, the token cache with its
      single-flight registry, as tasks that interleave at lock granularity;
    - [Transport]: limits.rs, integrity.rs, transport.rs and compression.rs of
      nixcache-utils: read limits, digests, verifying and hashing streams,
      bounded reads and decompression;
    - [Endpoint]: backend/endpoint.rs and client/endpoint.rs, registry addresses,
      upload locations, URLs;
    - [Auth]: auth.rs and token.rs, challenges and the token exchange;
    - [Request]: client/request.rs, one request and its authenticated retry;
    - [Driver]: backend/kind.rs and backend/driver.rs, registries and what they
      support;
    - [Upload]: client/blob.rs, client/upload.rs and client/upload/state.rs,
      reads of blobs, pushes and the resumable chunked upload;
    - [Manifest]: manifest.rs and codec.rs, image indexes and manifests;
    - [ManifestClient]: client/manifest.rs, manifests and tags over requests;
    - [IndexClient]: client/index.rs and client/index/update.rs, sharded roots,
      shard data and the compare-and-swap updates;
    - [Ghcr]: backend/ghcr.rs, the GitHub Packages API;
    - [Discovery]: client/deletion/discovery.rs, everything the tags of a package
      reach;
    - [Deletion]: client/deletion.rs and client/deletion/operations.rs, strict
      deletion of tags, manifests, blobs and whole packages;
    - [ReadOnly]: no code of its own: what the operations that only read leave
      alone.

    On top of both, the commands of [nixcache-builder] with the arguments of
    [nixcache-cli], the proxy and the edge worker:

    - [Builder]: error.rs, the client constructors of client.rs, and the steps
      that promote.rs and purge.rs share;
    - [Cli]: nixcache-cli/src/args and the gc arguments of cli.rs: selectors,
      sizes, durations and their environment variables;
    - [Promote]: promote.rs, receipts merged into the published roots;
    - [NixFilter]: nix/filter.rs, which store paths are the builder's own;
    - [Nix]: nix/driver.rs, nix/discovery.rs and env_injector.rs, the [nix]
      commands that are run and how their output is read;
    - [PurgeRun]: purge.rs and gc.rs of the builder, both commands;
    - [Export]: nix/exporter.rs, dump, compression, upload and signatures;
    - [Capture]: nix/closure.rs, nix/resolver.rs, session/capture.rs,
      session/clean.rs and the snapshots of session/init.rs;
    - [BuildRun]: worker.rs and session/init.rs, the build and the proxy beside it;
    - [Listing]: list.rs and the list arguments;
    - [Task]: tasks over a world they share, with invariants ([triple]);
    - [Args]: the other argument groups of nixcache-cli/src/args and of cli.rs;
    - [Reqwest]: nixcache-oci-backend, the transport of the native programs;
    - [ProxyIndex]: nixcache-proxy/src/index.rs, the tiered index of the proxy;
    - [Proxy]: nixcache-proxy/src/proxy.rs, its routes and handlers;
    - [Main]: main.rs of the builder, all its commands, and main.rs of the proxy
      up to the state of its server;
    - [Worker]: store.rs, state.rs and error.rs of nixcache-worker, the store of
      the edge worker over memory, KV namespace and registry;
    - [WorkerTransport]: transport.rs of nixcache-worker, requests and redirects
      over [fetch];
    - [Edge]: lib.rs of nixcache-worker, configuration and routes.

    [Gc] calls [Purge], [Purge] calls [Query], [Query] uses [Filter] and
    [Graph]; [Index] uses [Sharding]; everything uses [Types].  [IndexClient]
    calls [ManifestClient], [Upload] and [Index]; these call [Request], which
    uses [Auth]; [Flight] is the token manager behind the interface [TokenOps]
    of [Request].  [Deletion] calls [Discovery] and [Ghcr]; [Promote] and [PurgeRun]
    call [IndexClient] through the steps of [Builder], and [PurgeRun] also [Cli],
    [Purge], [Nix] and [Deletion]; [Capture] and [BuildRun] call [Nix],
    [NixFilter] and [Export], which calls [Upload]; [Proxy] calls [ProxyIndex],
    [Edge] calls [Worker], and all read through [IndexClient].  [Reqwest] and
    [WorkerTransport] are the instances of the interface [TransportOps] of
    [Request].  [Main] calls the commands with what [Args] and [Cli] resolve, and
    is also the other side of the environment that [BuildRun] gives its proxy.

    ** How the code is modelled

    A [Result] is an [outcome]: [Ok], [Err] or [Panic]; an index out of range, a
    slice off a character boundary, an [expect] or, in builds that check it, an
    arithmetic overflow is [Panic], so "does not panic" is part of what is
    proved.  A [&mut self] method returns the new value.  A string is the list of
    its code points, [utf8] its bytes; an integer is an [N] with its bound
    written out.  A [HashMap] is a [gmap], iterated through the interface
    [HashIter] in an unspecified order: the results are proved for every order.

    What is not under src/ is an interface, a type class whose laws are the
    documented behaviour: SHA-256 ([Sha2], [Sha2Ok]: 32 bytes), RFC 3339
    timestamps ([Chrono]), the width of [usize] and overflow checking ([Build]),
    the allocator ([Alloc]), [ln] and [powi] ([LibM]), the [Debug] text of an
    origin ([DebugOrigin]), the validation limits ([IndexValidationLimits]).
    HTTP header maps ([HttpHeaders], [HttpOk]), URI parsing ([UriLib]), base64
    ([Base64]), zstd ([Zstd], [ZstdEncoder], [ZstdRoundTrip]), JSON ([Serde],
    [SerdeOk]), Unicode case ([UnicodeCase]) and the process clock ([ClockOps]).
    JSON values ([JsonValue]), DELETE requests ([DeleteOps]), [buffer_unordered],
    [try_join_all] and [join_all] ([Unordered], [JoinAll], [JoinTasks]), the
    environment, the clocks, the file system ([EnvVars], [UtcNow],
    [Instants], [DateNow], [Fs], [BackupFs]), alphabetic characters and
    date arithmetic ([UnicodeAlpha], [ChronoArith]), the upstream caches
    ([Upstream]) and the KV namespace ([KvNamespace]).  For the builder child
    processes ([Processes]), paths and directories ([FsPaths], [FsDirs]), the
    JSON of [nix] ([NixJson]), concurrent tasks ([Concurrent]), the pipe and the
    compressor of an export ([DuplexPipe], [AsyncZstd]), the proxy beside it
    ([HotRegister], [ProxyOps]), the output of a listing ([ListIo], [ListJson]);
    the HTTP client of reqwest ([ReqwestClient]), and the runtime of the worker
    ([JsHeaders], [HeaderNames], [FetchApi], [WorkerEnv], [WorkerFetch]).
    Each property that uses one has a witness with a concrete instance.

    The code of the client is asynchronous.  Where tasks share state ([Flight])
    every critical section is one step of a relation on configurations, and a
    schedule is any sequence of steps, cancellations and clock ticks included.
    Elsewhere a call is [IO W], a state monad with errors over a world [W] the
    transport acts on ([TransportOps]); what a registry does is stated by laws
    of the world ([HonestRegistry]: committed bytes hash to their digest and the
    range it reports is the data it has; [TagServer]: pages in order; [CasRegistry]: a
    conditional push succeeds only when the condition holds, and other clients
    may push at any time between two requests; [GitHubServer] and
    [DeletionRegistry]: listings and absence are true), with concrete worlds as
    witnesses.  A body stream is the list of its items.  The state of the proxy
    and of the worker is part of the world: what other tasks do to it between
    two steps is unknown but for a relation that they keep ([WorldKeeps],
    [ServerKeeps], [WorkerKeeps], [ReadsKeep]), and the operations are proved to
    keep it too.

    ** What the theorems show

    - Query, purge and collection: the engine computes exactly the closure its
      selector describes ([query_answer]), whatever the iteration order;
      protected roots and all they reach are never selected; a purge keeps and
      removes complementary sets and keeps only roots whose closure is kept;
      garbage collection deletes exactly the old unreachable entries.
    - Merkle hashes: two shards, or two complete descriptor lists, with the same
      root are equal or exhibit a SHA-256 collision; the root does not depend on
      the order of maps or descriptors; a payload that passes the checks against
      the root it was requested for is the payload that was published.
    - Index and receipts: a new index is valid, updates keep it valid, validated
      values satisfy the stated invariants, receipts merge without loss.
    - Text: what the parsers accept, exactly; rendering and reparsing a narinfo
      is the identity; patterns are glob patterns.
    - Bloom filter: it is a set of bit positions; no false negatives; the byte
      form is lossless; results agree between 32-bit and 64-bit platforms; the
      unrolled hash is MurmurHash3.

    - Tokens: at most one leader per key and generation is fetching; a refresh
      discards every older token, also one that is stored later; under a fair
      schedule a waiter is woken; secrets go only over TLS or to the local host.
    - Reads: bytes a verified stream ends on have the digest and length asked
      for; whatever the registry answers, an index and its shards read through
      [get_sharded_root] and [get_shard_data] are the published ones or exhibit
      a SHA-256 collision; decompression and collection stay within their
      limits; locations a registry sends stay on its own origin.
    - Writes: a push that returns has committed exactly the bytes of the stream
      under their digest, resumed chunks included, and always returns; an update
      by compare and swap replaces the value it was computed from.
    - Challenges, manifests, tags and codec: round trips, exactness and
      termination.
    - Deletion: the discovered plan is exactly what the tags reach, and discovery
      ends; a package deletion that reports itself complete has left no tag, no
      manifest and no blob of the plan; a tag on GHCR is deleted by deleting
      exactly the version that carries it.
    - Commands: promotion publishes every entry and root of the receipts and
      loses none of the published ones; a purge publishes for every system
      exactly the entries it had less the purged ones; a dry run changes
      nothing; without an explicit selection nothing is purged; the gc command
      is garbage collection; sizes are read exactly or refused; a listing
      reports exactly the selected entries, in order, with the sums it prints.
    - Builds: a capture records exactly the new paths of the closure that are the
      builder's own, and what it writes a promotion reads; a build records what
      it built and uploaded; an exported entry names the committed, compressed
      dump of its path; a snapshot is read back as it was recorded; no proxy is
      left running; the proxy of a session is configured as it was asked for.
    - Transports: the credentials of a request do not follow a redirect; bodies
      stay within their limits and chunks travel with their length and range.
    - Servers: whatever the registry answers and however requests interleave,
      proxy and worker serve entries and NARs authenticated through a valid root
      (the worker as far as its KV namespace is its own), or what an upstream
      cache answered; every request keeps the caches sound; in an outage the
      proxy serves from its backup.

    Some facts proved are about what the code does not do ([..._panics],
    [purged_blob_still_referenced], [wildcard_match_literal_star],
    [narinfo_drops_compression_none], [narinfo_deriver_whitespace],
    [gc_can_break_young_entries], [bloom_default_parameters],
    [scope_and_path_disagree], [list_tags_hundred_fails],
    [variant_child_not_found], [promoted_child_unreadable],
    [first_promotion_unreadable], [size_argument_wraps], [gc_reads_purge_all],
    [backup_of_capital_repo_rejected], [hot_count_counts_twice],
    [worker_rejects_capital_repo], [kv_shard_unauthenticated],
    [unknown_system_receipt_refused], [build_doubles_nix_config],
    [own_signature_needs_key], [github_output_keeps_last], [edge_ttl_wraps],
    [session_ttl_overridden], [build_proxy_has_upstream]): statements on
    concrete inputs.

    ** Loops and fuel

    [wildcard_loop] runs on [wildcard_fuel], one more than
    [|p| + |t| * (|p| + 1)] rounds, since every return to a star moves the match
    one byte on.  The graph loops get the initial queue plus the number of edges
    (and of entries, for cascades): a node is expanded at most once, so its
    edges are pushed at most once.  [layered_loop] gets the number of leaves,
    which each round at least halves (rounded up).  The theorems are about the
    functions at that fuel and include that the loop has ended.

    In the client, [chunk_fuel] is the number of PATCH attempts allowed and two;
    [push_fuel] one round per byte left, since each chunk sends at least one;
    [stream_fuel] the items left and two; [list_tags_fuel] the page limit of the
    source and one; [cas_fuel] the retries allowed and one; the challenge parser
    and [from_utf8] the length of their input, of which each round consumes some.
    [push_resumable_terminates], [list_tags_bounded] and
    [parse_www_authenticate_total] show that they suffice.  [discovery_fuel] is
    the manifest limit of the source and one ([discovery_terminates]).  The
    listing of package versions and the walk of a directory are bounded in the
    source by what the service and the file system give only, and the wait for
    the proxy of a session by a clock: their fuel is an argument, and the
    theorems are about every run that ends.  The redirects of the worker are
    bounded by the source ([MAX_REDIRECTS]).

    ** What is not modelled

    Serde's JSON text (a [Deserialize] is modelled from the filled wire record
    on), the parsing of arguments by clap, logging, the step summaries
    (summary.rs), the semaphore that bounds parallel reads, randomness, the
    binding of sockets, the serving loop and the signal handlers of the proxy,
    and the test double of the transport (mock.rs): nothing of the behaviour
    above depends on them. *)

(** ** Prelude: outcomes, iteration orders, shared lemmas and automation *)

From Stdlib Require Export NArith Lia.
From stdpp Require Export sorting.
From stdpp Require Export base numbers option list sets fin_maps gmap.

(** ** Outcomes

    A Rust function returns a value, an error ([Result::Err]) or panics
    (out-of-range indexing, [expect], slicing off a character boundary).
    [Panic] is kept apart from [Err] so that "never panics" is a statement. *)
Inductive outcome (E A : Type) : Type :=
| Ok (a : A)
| Err (e : E)
| Panic.
Arguments Ok {E A} a.
Arguments Err {E A} e.
Arguments Panic {E A}.

#[export] Instance outcome_eq_dec `{EqDecision E, EqDecision A} : EqDecision (outcome E A).
Proof. solve_decision. Defined.
#[export] Instance outcome_ret {E} : MRet (outcome E) := λ A, @Ok E A.
#[export] Instance outcome_bind {E} : MBind (outcome E) := λ A B k m,
  match m with
  | Ok a => k a
  | Err e => Err e
  | Panic => Panic
  end.
#[export] Instance outcome_fmap {E} : FMap (outcome E) := λ A B f m,
  match m with
  | Ok a => Ok (f a)
  | Err e => Err e
  | Panic => Panic
  end.

(** [Result::map_err]. *)
Definition map_err {E F A} (f : E → F) (m : outcome E A) : outcome F A :=
  match m with
  | Ok a => Ok a
  | Err e => Err (f e)
  | Panic => Panic
  end.

(** [Option::ok_or]. *)
Definition ok_or {E A} (e : E) (o : option A) : outcome E A :=
  match o with
  | Some a => Ok a
  | None => Err e
  end.

(** [Result::ok]; a panic is not turned into a value by [ok], so it only
    applies to functions that return. *)
Definition ok {E A} (m : outcome E A) : option A :=
  match m with
  | Ok a => Some a
  | _ => None
  end.

(** An operation that panics when the [option] is empty: indexing, [expect]. *)
Definition or_panic {E A} (o : option A) : outcome E A :=
  match o with
  | Some a => Ok a
  | None => Panic
  end.

(** [Result::expect]: an error becomes a panic. *)
Definition expect {E F A} (m : outcome E A) : outcome F A :=
  match m with
  | Ok a => Ok a
  | _ => Panic
  end.

(** [if cond { return Err(e) }]. *)
Definition ensure {E} (b : bool) (e : E) : outcome E unit :=
  if b then Ok tt else Err e.

(** [for x in l { f(x)?; }]. *)
Fixpoint for_each {E A} (f : A → outcome E unit) (l : list A) : outcome E unit :=
  match l with
  | [] => Ok tt
  | x :: l => _ ← f x; for_each f l
  end.

(** [for x in l { acc = f(acc, x)?; }]. *)
Fixpoint fold_m {E A B} (f : B → A → outcome E B) (acc : B) (l : list A) : outcome E B :=
  match l with
  | [] => Ok acc
  | x :: l => acc ← f acc x; fold_m f acc l
  end.

(** [l.iter().map(f).collect::<Result<Vec<_>, _>>()]. *)
Fixpoint collect_m {E A B} (f : A → outcome E B) (l : list A) : outcome E (list B) :=
  match l with
  | [] => Ok []
  | x :: l => y ← f x; ys ← collect_m f l; Ok (y :: ys)
  end.

Definition is_ok {E A} (m : outcome E A) : bool :=
  match m with Ok _ => true | _ => false end.

Definition no_panic {E A} (m : outcome E A) : Prop := m ≠ Panic.

Section outcome_lemmas.
Context {E : Type}.

Lemma bind_ok {A B} (m : outcome E A) (k : A → outcome E B) b :
  m ≫= k = Ok b ↔ ∃ a, m = Ok a ∧ k a = Ok b.
Proof. destruct m; naive_solver. Qed.

Lemma map_err_ok {F A} (f : E → F) (m : outcome E A) a :
  map_err f m = Ok a ↔ m = Ok a.
Proof. destruct m; naive_solver. Qed.

Lemma ok_or_ok {A} (e : E) (o : option A) a : ok_or e o = Ok a ↔ o = Some a.
Proof. destruct o; naive_solver. Qed.

Lemma or_panic_ok {A} (o : option A) (a : A) : @or_panic E A o = Ok a ↔ o = Some a.
Proof. destruct o; naive_solver. Qed.

Lemma ensure_ok b (e : E) u : ensure b e = Ok u ↔ b = true.
Proof. destruct b, u; naive_solver. Qed.

Lemma ok_some {A} (m : outcome E A) a : ok m = Some a ↔ m = Ok a.
Proof. destruct m; naive_solver. Qed.

Lemma for_each_ok {A} (f : A → outcome E unit) l u :
  for_each f l = Ok u ↔ Forall (λ x, f x = Ok tt) l.
Proof.
  destruct u. induction l as [|x l IH]; simpl; [by split|].
  rewrite bind_ok, Forall_cons, <-IH. split.
  - intros ([] & ? & ?); done.
  - intros [??]; eauto.
Qed.

Lemma collect_m_ok {A B} (f : A → outcome E B) l ys :
  collect_m f l = Ok ys ↔ Forall2 (λ x y, f x = Ok y) l ys.
Proof.
  revert ys. induction l as [|x l IH]; intros ys; simpl.
  - split; [intros [= <-]; constructor | by inversion 1].
  - rewrite bind_ok. split.
    + intros (y & Hy & (ys' & Hys & [= <-])%bind_ok).
      constructor; [done|]. by apply IH.
    + inversion 1 as [|? y ? ys' Hy Hys]; subst.
      exists y. split; [done|]. apply bind_ok. exists ys'. naive_solver.
Qed.

Lemma no_panic_ok {A} (a : A) : no_panic (@Ok E A a).
Proof. done. Qed.

Lemma no_panic_err {A} (e : E) : no_panic (@Err E A e).
Proof. done. Qed.

Lemma no_panic_bind {A B} (m : outcome E A) (k : A → outcome E B) :
  no_panic m → (∀ a, m = Ok a → no_panic (k a)) → no_panic (m ≫= k).
Proof. destruct m; unfold no_panic; naive_solver. Qed.

Lemma no_panic_map_err {F A} (f : E → F) (m : outcome E A) :
  no_panic m → no_panic (map_err f m).
Proof. destruct m; unfold no_panic; naive_solver. Qed.

Lemma no_panic_ensure b (e : E) : no_panic (ensure b e).
Proof. by destruct b. Qed.

Lemma no_panic_ok_or {A} (e : E) (o : option A) : no_panic (ok_or e o).
Proof. by destruct o. Qed.

Lemma no_panic_for_each {A} (f : A → outcome E unit) l :
  (∀ x, x ∈ l → no_panic (f x)) → no_panic (for_each f l).
Proof.
  induction l as [|x l IH]; intros Hf; simpl; [done|].
  apply no_panic_bind; [apply Hf; set_solver|]. intros _ _. apply IH. set_solver.
Qed.

Lemma no_panic_collect_m {A B} (f : A → outcome E B) l :
  (∀ x, x ∈ l → no_panic (f x)) → no_panic (collect_m f l).
Proof.
  induction l as [|x l IH]; intros Hf; simpl; [done|].
  apply no_panic_bind; [apply Hf; set_solver|]. intros y _.
  apply no_panic_bind; [apply IH; set_solver|]. done.
Qed.
End outcome_lemmas.

Create HintDb outcome.
#[export] Hint Resolve no_panic_ok no_panic_err no_panic_bind no_panic_map_err
  no_panic_ensure no_panic_ok_or no_panic_for_each no_panic_collect_m : outcome.

(** [inv_ok H] turns [H : m = Ok a] for a monadic [m] into the facts its steps
    give, recursively. *)
Ltac inv_ok_step :=
  match goal with
  | H : @Ok _ _ _ = Ok _ |- _ => injection H as H; subst
  | H : Err _ = Ok _ |- _ => discriminate H
  | H : Panic = Ok _ |- _ => discriminate H
  | H : mbind _ _ = Ok _ |- _ =>
      let a := fresh "a" in let H1 := fresh "Hok" in
      apply bind_ok in H as (a & H1 & H)
  | H : map_err _ _ = Ok _ |- _ => apply map_err_ok in H
  | H : ok_or _ _ = Ok _ |- _ => apply ok_or_ok in H
  | H : or_panic _ = Ok _ |- _ => apply or_panic_ok in H
  | H : ensure _ _ = Ok _ |- _ => apply ensure_ok in H
  | H : for_each _ _ = Ok _ |- _ => apply for_each_ok in H
  | u : unit |- _ => destruct u
  end.
Ltac inv_ok := repeat inv_ok_step.

(** ** Hash maps and their iteration order

    A [HashMap<K, V>] is a [gmap K V]; a [HashSet<K>] is a [gset K].  The order
    in which a hash map is iterated is unspecified, so it is an interface: any
    function that lists the bindings of a map without repetition.  Every
    theorem that takes a [HashIter] holds for every order. *)
Class HashIter := {
  hash_iter : ∀ {K V : Type} `{Countable K}, gmap K V → list (K * V);
  hash_iter_perm : ∀ {K V : Type} `{Countable K} (m : gmap K V),
    hash_iter m ≡ₚ map_to_list m }.

(** The executable instance used by the witnesses. *)
Definition map_order : HashIter := {|
  hash_iter := λ K V _ _ m, map_to_list m;
  hash_iter_perm := λ K V _ _ m, Permutation_refl (map_to_list m) |}.

(** [HashSet<K>] is [HashMap<K, ()>]: iteration, [values], [keys]. *)
Definition set_iter `{HashIter} {K} `{Countable K} (s : gset K) : list K :=
  fst <$> hash_iter (gset_to_gmap () s).
Definition map_keys `{HashIter} {K V} `{Countable K} (m : gmap K V) : list K :=
  fst <$> hash_iter m.
Definition map_values `{HashIter} {K V} `{Countable K} (m : gmap K V) : list V :=
  snd <$> hash_iter m.

Section hash_iter.
Context `{HI : HashIter} {K : Type} `{Countable K} {V : Type}.
Implicit Types m : gmap K V.

Lemma elem_of_hash_iter m k v : (k, v) ∈ hash_iter m ↔ m !! k = Some v.
Proof. by rewrite hash_iter_perm, elem_of_map_to_list. Qed.

Lemma hash_iter_length m : length (hash_iter m) = size m.
Proof. rewrite hash_iter_perm. apply length_map_to_list. Qed.

Lemma NoDup_fst_hash_iter m : NoDup (hash_iter m).*1.
Proof. rewrite hash_iter_perm. apply NoDup_fst_map_to_list. Qed.

Lemma NoDup_hash_iter m : NoDup (hash_iter m).
Proof. rewrite hash_iter_perm. apply NoDup_map_to_list. Qed.

Lemma elem_of_map_keys m k : k ∈ map_keys m ↔ is_Some (m !! k).
Proof.
  unfold map_keys. rewrite list_elem_of_fmap. split.
  - intros ([k' v] & -> & ?%elem_of_hash_iter). by eexists.
  - intros [v ?]. exists (k, v). by rewrite elem_of_hash_iter.
Qed.

Lemma elem_of_map_values m v : v ∈ map_values m ↔ ∃ k, m !! k = Some v.
Proof.
  unfold map_values. rewrite list_elem_of_fmap. split.
  - intros ([k' v'] & -> & ?%elem_of_hash_iter). by eexists.
  - intros [k ?]. exists (k, v). by rewrite elem_of_hash_iter.
Qed.

Lemma NoDup_map_keys m : NoDup (map_keys m).
Proof. apply NoDup_fst_hash_iter. Qed.

Lemma list_to_map_hash_iter m : list_to_map (hash_iter m) = m.
Proof.
  rewrite <-(list_to_map_to_list m) at 2.
  apply list_to_map_proper; [apply NoDup_fst_hash_iter | apply hash_iter_perm].
Qed.

Lemma hash_iter_empty : hash_iter (∅ : gmap K V) = [].
Proof. apply Permutation_nil. by rewrite hash_iter_perm, map_to_list_empty. Qed.
End hash_iter.

Lemma elem_of_set_iter `{HI : HashIter} {K} `{Countable K} (s : gset K) k :
  k ∈ set_iter s ↔ k ∈ s.
Proof.
  unfold set_iter. rewrite list_elem_of_fmap. split.
  - intros ([k' []] & -> & Hk%elem_of_hash_iter).
    by apply lookup_gset_to_gmap_Some in Hk as [? _].
  - intros ?. exists (k, ()). split; [done|].
    apply elem_of_hash_iter. by apply lookup_gset_to_gmap_Some.
Qed.

(** ** Sorting

    [sort] and [sort_unstable] on a totally ordered key: the result is the
    unique sorted permutation, so both are [merge_sort]. *)
Section sorting.
Context {A : Type} (R : relation A) `{!RelDecision R, !Transitive R, !Total R, !AntiSymm (=) R}.

Lemma merge_sort_perm_eq (l1 l2 : list A) :
  l1 ≡ₚ l2 → merge_sort R l1 = merge_sort R l2.
Proof.
  intros Hp. apply (Sorted_unique R); [apply Sorted_merge_sort, _..|].
  by rewrite !merge_sort_Permutation.
Qed.

Lemma elem_of_merge_sort (l : list A) x : x ∈ merge_sort R l ↔ x ∈ l.
Proof. by rewrite merge_sort_Permutation. Qed.
End sorting.

(** [Vec::dedup]: drops consecutive equal elements. *)
Fixpoint dedup `{EqDecision A} (l : list A) : list A :=
  match l with
  | [] => []
  | x :: l' =>
      match l' with
      | [] => [x]
      | y :: _ => if decide (x = y) then dedup l' else x :: dedup l'
      end
  end.

Lemma elem_of_dedup `{EqDecision A} (l : list A) x : x ∈ dedup l ↔ x ∈ l.
Proof.
  induction l as [|y [|z l] IH]; [done..|].
  change (dedup (y :: z :: l)) with
    (if decide (y = z) then dedup (z :: l) else y :: dedup (z :: l)).
  case_decide; subst; set_solver.
Qed.

(** A sorted list without neighbours that repeat has no repetition. *)
Lemma dedup_strictly_sorted `{EqDecision A} (R : relation A)
    `{!Transitive R, !AntiSymm (=) R} (l : list A) :
  StronglySorted R l → StronglySorted R (dedup l) ∧ NoDup (dedup l).
Proof.
  induction l as [|y [|z l] IH]; intros Hs.
  - split; constructor.
  - split; [repeat constructor | apply NoDup_singleton].
  - change (dedup (y :: z :: l)) with
      (if decide (y = z) then dedup (z :: l) else y :: dedup (z :: l)).
    apply StronglySorted_inv in Hs as [Hs Hy].
    destruct (IH Hs) as [IH1 IH2]. case_decide as Heq; [done|].
    assert (Hall : ∀ x, x ∈ dedup (z :: l) → R y x ∧ y ≠ x).
    { intros x Hx. rewrite elem_of_dedup in Hx. rewrite Forall_forall in Hy.
      split; [by apply Hy|]. intros <-. apply Heq, (anti_symm R).
      - apply Hy. by left.
      - apply StronglySorted_inv in Hs as [_ Hz]. rewrite Forall_forall in Hz.
        apply elem_of_cons in Hx as [->|Hx]; [apply Hy; by left | by apply Hz]. }
    split.
    + constructor; [done|]. apply Forall_forall. intros x Hx. by apply Hall.
    + constructor; [|done]. intros Hx. by apply Hall in Hx as [_ ?].
Qed.
