(* ===== verification/Machine.v ===== *)
(** * Machine: fixed-width unsigned integers and their byte encodings

    A [u8], [u16], [u32], [u64] or [usize] is an [N] below its bound; the
    wrap-around of the [wrapping_*] operations and of [<<] is written out, and
    the [checked_*] operations return [None] on overflow. *)

From S2P Require Import Prelude.

Local Open Scope N_scope.

Definition u16_bound : N := 2 ^ 16.
Definition u32_bound : N := 2 ^ 32.
Definition u64_bound : N := 2 ^ 64.

Definition wrap64 (n : N) : N := n mod u64_bound.
Definition wrapping_add (a b : N) : N := wrap64 (a + b).
Definition wrapping_mul (a b : N) : N := wrap64 (a * b).
Definition shl64 (a k : N) : N := wrap64 (N.shiftl a k).
Definition rotate_left (a k : N) : N := N.lor (shl64 a k) (N.shiftr a (64 - k)).
Definition checked_add (bound a b : N) : option N :=
  if a + b <? bound then Some (a + b) else None.
Definition checked_mul (bound a b : N) : option N :=
  if a * b <? bound then Some (a * b) else None.
Definition try_from (bound a : N) : option N :=
  if a <? bound then Some a else None.

(** What a build fixes: the width of [usize] (at least 16 bits, as the language
    guarantees), and whether [+] and [*] on an integer panic when they overflow
    (a debug build) or wrap (a release build). *)
Class Build := { usize_bits : N; overflow_checks : bool; usize_min : 16 ≤ usize_bits }.
Definition usize_bound `{Build} : N := 2 ^ usize_bits.
Definition arith `{Build} {E} (bound exact : N) : outcome E N :=
  if exact <? bound then Ok exact
  else if overflow_checks then Panic
  else Ok (exact mod bound).
Definition arith_add `{Build} {E} (bound a b : N) : outcome E N := arith bound (a + b).
Definition arith_sum `{Build} {E} (bound : N) (l : list N) : outcome E N :=
  fold_m (arith_add bound) 0 l.

(** The two usual builds on a 64-bit machine, and the WebAssembly build. *)
Program Definition debug64 : Build := {| usize_bits := 64; overflow_checks := true |}.
Solve All Obligations with done.
Program Definition release64 : Build := {| usize_bits := 64; overflow_checks := false |}.
Solve All Obligations with done.
Program Definition wasm32 : Build := {| usize_bits := 32; overflow_checks := false |}.
Solve All Obligations with done.

(** [to_le_bytes] / [to_be_bytes] of an [n]-byte integer, [from_le_bytes]. *)
Fixpoint le_bytes (n : nat) (w : N) : list N :=
  match n with
  | O => []
  | S n => w mod 256 :: le_bytes n (w / 256)
  end.
Definition be_bytes (n : nat) (w : N) : list N := reverse (le_bytes n w).
Fixpoint le_combine (bs : list N) : N :=
  match bs with
  | [] => 0
  | b :: bs => b + 256 * le_combine bs
  end.

Definition is_byte (b : N) : Prop := b < 256.

Lemma le_bytes_length n w : length (le_bytes n w) = n.
Proof. revert w. induction n; intros w; simpl; auto. Qed.

Lemma be_bytes_length n w : length (be_bytes n w) = n.
Proof. unfold be_bytes. by rewrite length_reverse, le_bytes_length. Qed.

Lemma le_bytes_byte n w : Forall is_byte (le_bytes n w).
Proof.
  revert w. induction n; intros w; simpl; constructor; auto.
  unfold is_byte. by apply N.mod_lt.
Qed.

Lemma pow256_S n : 256 ^ N.of_nat (S n) = 256 * 256 ^ N.of_nat n.
Proof. by rewrite Nat2N.inj_succ, N.pow_succ_r'. Qed.

Lemma le_combine_bytes n w : le_combine (le_bytes n w) = w mod 256 ^ N.of_nat n.
Proof.
  revert w. induction n as [|n IH]; intros w; simpl.
  - by rewrite N.mod_1_r.
  - rewrite IH. change (N.pos (Pos.of_succ_nat n)) with (N.of_nat (S n)).
    rewrite pow256_S, N.Div0.mod_mul_r. lia.
Qed.

Lemma le_bytes_combine bs :
  Forall is_byte bs → le_bytes (length bs) (le_combine bs) = bs.
Proof.
  induction 1 as [|b bs Hb _ IH]; simpl; [done|]. unfold is_byte in Hb.
  rewrite (N.mul_comm 256), N.Div0.mod_add, N.div_add, N.mod_small, N.div_small by lia.
  by rewrite N.add_0_l, IH.
Qed.

Lemma le_combine_bound bs :
  Forall is_byte bs → le_combine bs < 256 ^ N.of_nat (length bs).
Proof.
  induction 1 as [|b bs Hb _ IH]; simpl length; simpl le_combine; [done|].
  unfold is_byte in Hb. rewrite pow256_S. lia.
Qed.

Lemma le_bytes_inj n w1 w2 :
  w1 < 256 ^ N.of_nat n → w2 < 256 ^ N.of_nat n →
  le_bytes n w1 = le_bytes n w2 → w1 = w2.
Proof.
  intros H1 H2 Heq. apply (f_equal le_combine) in Heq.
  by rewrite !le_combine_bytes, !N.mod_small in Heq.
Qed.

Lemma be_bytes_inj n w1 w2 :
  w1 < 256 ^ N.of_nat n → w2 < 256 ^ N.of_nat n →
  be_bytes n w1 = be_bytes n w2 → w1 = w2.
Proof. intros H1 H2 Heq%(inj reverse). by apply le_bytes_inj in Heq. Qed.

Lemma wrap64_lt n : wrap64 n < u64_bound.
Proof. by apply N.mod_lt. Qed.

Lemma wrap64_small n : n < u64_bound → wrap64 n = n.
Proof. apply N.mod_small. Qed.

Lemma checked_add_Some bound a b c :
  checked_add bound a b = Some c ↔ c = a + b ∧ a + b < bound.
Proof. unfold checked_add. destruct (N.ltb_spec (a + b) bound); split; naive_solver lia. Qed.

Lemma checked_mul_Some bound a b c :
  checked_mul bound a b = Some c ↔ c = a * b ∧ a * b < bound.
Proof. unfold checked_mul. destruct (N.ltb_spec (a * b) bound); split; naive_solver lia. Qed.

Lemma try_from_Some bound a c : try_from bound a = Some c ↔ c = a ∧ a < bound.
Proof. unfold try_from. destruct (N.ltb_spec a bound); split; naive_solver lia. Qed.

(** [N.lor] and [N.land] of words stay words. *)
Lemma lor_bound n a b : a < 2 ^ n → b < 2 ^ n → N.lor a b < 2 ^ n.
Proof.
  intros Ha Hb. destruct (N.eq_dec (N.lor a b) 0) as [->|Hne]; [lia|].
  apply N.log2_lt_pow2; [lia|]. rewrite N.log2_lor.
  destruct (N.eq_dec a 0) as [->|?], (N.eq_dec b 0) as [->|?];
    try (rewrite N.lor_0_l in Hne || rewrite N.lor_0_r in Hne);
    repeat rewrite ?N.max_0_l, ?N.max_0_r; simpl;
    try apply N.max_lub_lt; try (apply N.log2_lt_pow2; lia); try lia.
  all: apply N.log2_lt_pow2; lia.
Qed.

(** *** Sums *)

Definition sum_N (l : list N) : N := foldr N.add 0 l.

Lemma arith_ok `{Build} {E} bound exact :
  exact < bound → @arith _ E bound exact = Ok exact.
Proof. intros Hlt. unfold arith. by rewrite (proj2 (N.ltb_lt _ _) Hlt). Qed.

Lemma arith_sum_ok `{Build} {E} bound l :
  sum_N l < bound → @arith_sum _ E bound l = Ok (sum_N l).
Proof.
  unfold arith_sum. assert (Hgen : ∀ acc, acc + sum_N l < bound →
    fold_m (arith_add bound) acc l = @Ok E _ (acc + sum_N l)).
  { induction l as [|x l IH]; intros acc Hb; simpl; [by rewrite N.add_0_r|]. simpl in Hb.
    assert (@arith_add _ E bound acc x = Ok (acc + x)) as -> by (apply arith_ok; lia).
    simpl. rewrite IH by lia. f_equal. lia. }
  intros Hl. rewrite Hgen by lia. done.
Qed.

(** The sum modulo the bound, in a build that wraps. *)
Lemma arith_sum_wraps `{Build} {E} bound l :
  overflow_checks = false → bound ≠ 0 → @arith_sum _ E bound l = Ok (sum_N l mod bound).
Proof.
  intros Hw Hb. unfold arith_sum. assert (Hgen : ∀ acc, acc < bound →
    fold_m (arith_add bound) acc l = @Ok E _ ((acc + sum_N l) mod bound)).
  { induction l as [|x l IH]; intros acc Hacc; simpl.
    { by rewrite N.add_0_r, N.mod_small. }
    assert (@arith_add _ E bound acc x = Ok ((acc + x) mod bound)) as ->.
    { unfold arith_add, arith. destruct (N.ltb_spec (acc + x) bound); [by rewrite N.mod_small|].
      by rewrite Hw. }
    simpl. rewrite IH by (by apply N.mod_lt). f_equal.
    by rewrite N.Div0.add_mod_idemp_l, N.add_assoc. }
  rewrite Hgen by lia. done.
Qed.
