(* ===== verification/Str.v ===== *)
(** * Str: Rust strings

    A [String] or [&str] is the list of its Unicode scalar values ([char]s, as
    [N]); [utf8] gives its bytes ([as_bytes]) and [str_len] its byte length
    ([len]).  The functions are the [str] methods the program calls. *)

From Stdlib Require Import Ascii.
From Stdlib Require String.
From S2P Require Import Prelude Machine.
Export String.StringSyntax.

Local Open Scope N_scope.

(** A string literal of the program (they are all ASCII). *)
Definition lit (s : String.string) : list N :=
  N_of_ascii <$> String.list_ascii_of_string s.
Arguments lit s%_string_scope.

(** ** Characters *)

(** [char::is_whitespace]: the Unicode White_Space property. *)
Definition is_whitespace (c : N) : bool :=
  ((9 <=? c) && (c <=? 13)) || (c =? 32) || (c =? 0x85) || (c =? 0xA0) || (c =? 0x1680)
  || ((0x2000 <=? c) && (c <=? 0x200A)) || (c =? 0x2028) || (c =? 0x2029)
  || (c =? 0x202F) || (c =? 0x205F) || (c =? 0x3000).

(** [char::is_control]: general category Cc. *)
Definition is_control (c : N) : bool :=
  (c <=? 31) || ((127 <=? c) && (c <=? 159)).

Definition in_range (lo hi c : N) : bool := (lo <=? c) && (c <=? hi).

(** [b'0'..=b'9'] and the like; [is_ascii_hexdigit], [is_ascii_digit]. *)
Definition is_ascii_digit (c : N) : bool := in_range 48 57 c.
Definition is_ascii_hexdigit (c : N) : bool :=
  is_ascii_digit c || in_range 97 102 c || in_range 65 70 c.
Definition is_lower_hex (c : N) : bool := is_ascii_digit c || in_range 97 102 c.
Definition is_ascii_alphanumeric (c : N) : bool :=
  is_ascii_digit c || in_range 97 122 c || in_range 65 90 c.
Definition to_ascii_lowercase_char (c : N) : N := if in_range 65 90 c then c + 32 else c.
Definition to_ascii_lowercase (s : list N) : list N := to_ascii_lowercase_char <$> s.

(** ** UTF-8 *)

Definition utf8_char (c : N) : list N :=
  if c <? 0x80 then [c]
  else if c <? 0x800 then [0xC0 + c / 64; 0x80 + c mod 64]
  else if c <? 0x10000 then [0xE0 + c / 4096; 0x80 + (c / 64) mod 64; 0x80 + c mod 64]
  else [0xF0 + c / 262144; 0x80 + (c / 4096) mod 64; 0x80 + (c / 64) mod 64; 0x80 + c mod 64].
Definition utf8 (s : list N) : list N := s ≫= utf8_char.
Definition str_len (s : list N) : nat := length (utf8 s).

(** ** Trimming, prefixes, substrings *)

Fixpoint drop_while (f : N → bool) (s : list N) : list N :=
  match s with
  | [] => []
  | c :: s' => if f c then drop_while f s' else s
  end.
Fixpoint take_while (f : N → bool) (s : list N) : list N :=
  match s with
  | [] => []
  | c :: s' => if f c then c :: take_while f s' else []
  end.
Definition trim_start (s : list N) : list N := drop_while is_whitespace s.
Definition trim_end (s : list N) : list N := reverse (trim_start (reverse s)).
Definition trim (s : list N) : list N := trim_end (trim_start s).
Definition is_empty (s : list N) : bool := match s with [] => true | _ => false end.

Fixpoint strip_prefix (p s : list N) : option (list N) :=
  match p, s with
  | [], _ => Some s
  | c :: p, d :: s => if c =? d then strip_prefix p s else None
  | _ :: _, [] => None
  end.
Definition starts_with (p s : list N) : bool :=
  match strip_prefix p s with Some _ => true | None => false end.
Definition ends_with (p s : list N) : bool := starts_with (reverse p) (reverse s).
Definition contains_char (c : N) (s : list N) : bool := existsb (N.eqb c) s.
Fixpoint contains (p s : list N) : bool :=
  starts_with p s || match s with [] => false | _ :: s => contains p s end.
Definition any_char (f : N → bool) (s : list N) : bool := existsb f s.

(** ** Splitting and joining *)

Fixpoint split_once (c : N) (s : list N) : option (list N * list N) :=
  match s with
  | [] => None
  | d :: s => if c =? d then Some ([], s)
              else '(a, b) ← split_once c s; Some (d :: a, b)
  end.
(** [str::split]: the pieces between the separators, never empty as a list. *)
Fixpoint split (c : N) (s : list N) : list (list N) :=
  match s with
  | [] => [[]]
  | d :: s => if c =? d then [] :: split c s
              else match split c s with
                   | p :: ps => (d :: p) :: ps
                   | [] => [[d]]
                   end
  end.
(** [rsplit(c).next()]: the text after the last separator. *)
Definition after_last (c : N) (s : list N) : list N :=
  reverse (take_while (λ d, negb (c =? d)) (reverse s)).
(** [split_whitespace]; [cur] is the current piece, reversed. *)
Fixpoint split_ws_from (cur s : list N) : list (list N) :=
  match s with
  | [] => if is_empty cur then [] else [reverse cur]
  | c :: s =>
      if is_whitespace c
      then if is_empty cur then split_ws_from [] s else reverse cur :: split_ws_from [] s
      else split_ws_from (c :: cur) s
  end.
Definition split_whitespace (s : list N) : list (list N) := split_ws_from [] s.
(** [lines]: [split_inclusive('\n')] with the ["\n"] and then one ["\r"]
    removed; a last piece without ["\n"] is kept as it is. *)
Definition strip_cr (l : list N) : list N :=
  match reverse l with
  | 13 :: r => reverse r
  | _ => l
  end.
Fixpoint lines_from (cur s : list N) : list (list N) :=
  match s with
  | [] => if is_empty cur then [] else [reverse cur]
  | c :: s => if c =? 10 then strip_cr (reverse cur) :: lines_from [] s
              else lines_from (c :: cur) s
  end.
Definition lines (s : list N) : list (list N) := lines_from [] s.
Fixpoint join (sep : list N) (ls : list (list N)) : list N :=
  match ls with
  | [] => []
  | [l] => l
  | l :: ls => l ++ sep ++ join sep ls
  end.

(** ** Decimal numbers: [Display] for the unsigned integers and [parse::<u64>] *)

Fixpoint dec_digits (fuel : nat) (n : N) (acc : list N) : list N :=
  match fuel with
  | O => acc
  | S fuel =>
      let acc := (48 + n mod 10) :: acc in
      if n / 10 =? 0 then acc else dec_digits fuel (n / 10) acc
  end.
Definition show_N (n : N) : list N := dec_digits (S (N.size_nat n)) n [].

Inductive ParseIntError := PieEmpty | PieInvalidDigit | PiePosOverflow.

Fixpoint parse_digits (bound acc : N) (s : list N) : outcome ParseIntError N :=
  match s with
  | [] => Ok acc
  | c :: s =>
      if is_ascii_digit c then
        match checked_mul bound acc 10 with
        | None => Err PiePosOverflow
        | Some m =>
            match checked_add bound m (c - 48) with
            | None => Err PiePosOverflow
            | Some a => parse_digits bound a s
            end
        end
      else Err PieInvalidDigit
  end.
Definition parse_u64 (s : list N) : outcome ParseIntError N :=
  match s with
  | [] => Err PieEmpty
  | [43] | [45] => Err PieInvalidDigit
  | 43 :: s => parse_digits u64_bound 0 s
  | _ => parse_digits u64_bound 0 s
  end.

(** ** Order on strings: [String: Ord] compares the bytes lexicographically. *)
Fixpoint bytes_cmp (a b : list N) : comparison :=
  match a, b with
  | [], [] => Eq
  | [], _ :: _ => Lt
  | _ :: _, [] => Gt
  | x :: a, y :: b =>
      match x ?= y with
      | Eq => bytes_cmp a b
      | c => c
      end
  end.
Definition str_le (a b : list N) : Prop := bytes_cmp (utf8 a) (utf8 b) ≠ Gt.
#[export] Instance str_le_dec : RelDecision str_le.
Proof. intros a b. unfold str_le. destruct (bytes_cmp _ _); (by left) || (right; tauto). Defined.

(** ** Facts *)

Lemma utf8_app s t : utf8 (s ++ t) = utf8 s ++ utf8 t.
Proof. unfold utf8. apply bind_app. Qed.

Lemma utf8_cons c s : utf8 (c :: s) = utf8_char c ++ utf8 s.
Proof. done. Qed.

(** UTF-8 is prefix free, so a byte sequence decodes in at most one way. *)
Lemma utf8_char_prefix_free c1 c2 r1 r2 :
  utf8_char c1 ++ r1 = utf8_char c2 ++ r2 → c1 = c2 ∧ r1 = r2.
Proof.
  unfold utf8_char.
  pose proof (N.div_mod c1 64 ltac:(done)) as H1. pose proof (N.div_mod c2 64 ltac:(done)) as H2.
  pose proof (N.div_mod (c1 / 64) 64 ltac:(done)) as H3.
  pose proof (N.div_mod (c2 / 64) 64 ltac:(done)) as H4.
  pose proof (N.div_mod (c1 / 4096) 64 ltac:(done)) as H5.
  pose proof (N.div_mod (c2 / 4096) 64 ltac:(done)) as H6.
  rewrite !N.Div0.div_div in H3, H4, H5, H6. change (64 * 64) with 4096 in *.
  change (4096 * 64) with 262144 in *.
  generalize dependent (c1 / 4096 mod 64). generalize dependent (c2 / 4096 mod 64).
  generalize dependent (c1 / 262144). generalize dependent (c2 / 262144).
  generalize dependent (c1 / 64 mod 64). generalize dependent (c2 / 64 mod 64).
  generalize dependent (c1 / 4096). generalize dependent (c2 / 4096).
  generalize dependent (c1 mod 64). generalize dependent (c2 mod 64).
  generalize dependent (c1 / 64). generalize dependent (c2 / 64). intros.
  destruct (N.ltb_spec c1 0x80), (N.ltb_spec c2 0x80), (N.ltb_spec c1 0x800),
    (N.ltb_spec c2 0x800), (N.ltb_spec c1 0x10000), (N.ltb_spec c2 0x10000);
    try (exfalso; lia); simpl in *;
    match goal with H : _ :: _ = _ :: _ |- _ => injection H; intros end;
    first [exfalso; lia | split; [lia | congruence]].
Qed.

#[export] Instance utf8_inj : Inj (=) (=) utf8.
Proof.
  intros s. induction s as [|c s IH]; intros [|d t]; rewrite ?utf8_cons; simpl.
  - done.
  - intros Heq. pose proof (f_equal length Heq) as Hl.
    rewrite length_app in Hl. unfold utf8_char in Hl.
    repeat case_match; simpl in Hl; lia.
  - intros Heq. pose proof (f_equal length Heq) as Hl.
    rewrite length_app in Hl. unfold utf8_char in Hl.
    repeat case_match; simpl in Hl; lia.
  - intros [-> Heq]%utf8_char_prefix_free. by rewrite (IH _ Heq).
Qed.

Definition is_ascii (c : N) : Prop := c < 128.

Lemma utf8_ascii s : Forall is_ascii s → utf8 s = s.
Proof.
  induction 1 as [|c s Hc _ IH]; [done|]. rewrite utf8_cons, IH.
  unfold utf8_char, is_ascii in *. by destruct (N.ltb_spec c 0x80); [|lia].
Qed.

Lemma utf8_length_ge s : (length s ≤ length (utf8 s))%nat.
Proof.
  induction s as [|c s IH]; [done|]. rewrite utf8_cons, length_app.
  unfold utf8_char. repeat case_match; simpl; lia.
Qed.

(** *** Order *)

Lemma bytes_cmp_eq a b : bytes_cmp a b = Eq ↔ a = b.
Proof.
  revert b. induction a as [|x a IH]; intros [|y b]; simpl; try done.
  destruct (N.compare_spec x y); [|split; [done|intros [= ??]; lia]..].
  subst. rewrite IH. naive_solver.
Qed.

Lemma bytes_cmp_antisym a b : bytes_cmp b a = CompOpp (bytes_cmp a b).
Proof.
  revert b. induction a as [|x a IH]; intros [|y b]; simpl; try done.
  rewrite (N.compare_antisym x y). destruct (x ?= y); simpl; auto.
Qed.

Lemma bytes_cmp_lt_trans a b c :
  bytes_cmp a b = Lt → bytes_cmp b c = Lt → bytes_cmp a c = Lt.
Proof.
  revert b c. induction a as [|x a IH]; intros [|y b] [|z c]; simpl; try done.
  destruct (x ?= y) eqn:E1, (y ?= z) eqn:E2; intros ??; try done;
    rewrite ?N.compare_eq_iff, ?N.compare_lt_iff in *; subst.
  - rewrite N.compare_refl. eauto.
  - by rewrite (proj2 (N.compare_lt_iff _ _) E2).
  - by rewrite (proj2 (N.compare_lt_iff _ _) E1).
  - by rewrite (proj2 (N.compare_lt_iff x z)) by lia.
Qed.

#[export] Instance str_le_total : Total str_le.
Proof.
  intros a b. unfold str_le. rewrite (bytes_cmp_antisym (utf8 a) (utf8 b)).
  destruct (bytes_cmp _ _); simpl; auto.
Qed.
#[export] Instance str_le_antisymm : AntiSymm (=) str_le.
Proof.
  intros a b. unfold str_le. rewrite (bytes_cmp_antisym (utf8 a) (utf8 b)).
  destruct (bytes_cmp (utf8 a) (utf8 b)) eqn:E; simpl; try done.
  intros _ _. by apply bytes_cmp_eq, utf8_inj in E.
Qed.
#[export] Instance str_le_trans : Transitive str_le.
Proof.
  intros a b c. unfold str_le.
  destruct (bytes_cmp (utf8 a) (utf8 b)) eqn:E1, (bytes_cmp (utf8 b) (utf8 c)) eqn:E2;
    try done; intros _ _.
  - apply bytes_cmp_eq in E1. rewrite E1, E2. done.
  - apply bytes_cmp_eq in E1. rewrite E1, E2. done.
  - apply bytes_cmp_eq in E2. rewrite <-E2, E1. done.
  - by rewrite (bytes_cmp_lt_trans _ _ _ E1 E2).
Qed.

(** *** Trimming *)

Lemma drop_while_app_not f s c t :
  Forall (λ d, f d = true) s → f c = false → drop_while f (s ++ c :: t) = c :: t.
Proof. induction 1 as [|d s Hd _ IH]; intros Hc; simpl; by rewrite ?Hc, ?Hd, ?IH. Qed.

Lemma drop_while_spec f s :
  ∃ p, s = p ++ drop_while f s ∧ Forall (λ c, f c = true) p ∧
    match drop_while f s with [] => True | c :: _ => f c = false end.
Proof.
  induction s as [|c s (p & Hs & Hp & Hd)]; simpl; [by exists []|].
  destruct (f c) eqn:Hc.
  - exists (c :: p). split; [by rewrite Hs at 1|]. split; [by constructor | done].
  - exists []. repeat split; [constructor | done].
Qed.

(** No whitespace at either end. *)
Definition trimmed (s : list N) : Prop :=
  match s with [] => True | c :: _ => is_whitespace c = false end ∧
  match reverse s with [] => True | c :: _ => is_whitespace c = false end.

Lemma trim_spec s : ∃ p q,
  s = p ++ trim s ++ q ∧ Forall (λ c, is_whitespace c = true) p ∧
  Forall (λ c, is_whitespace c = true) q ∧ trimmed (trim s).
Proof.
  unfold trim, trim_end, trim_start.
  destruct (drop_while_spec is_whitespace s) as (p & Hs & Hp & Hh).
  set (u := drop_while is_whitespace s) in *.
  destruct (drop_while_spec is_whitespace (reverse u)) as (q & Hu & Hq & Hl).
  set (v := drop_while is_whitespace (reverse u)) in *.
  apply (f_equal reverse) in Hu. rewrite reverse_involutive, reverse_app in Hu.
  exists p, (reverse q). rewrite <-Hu. split_and!; [done..| |].
  - by apply Forall_reverse.
  - split; [|by rewrite reverse_involutive]. rewrite Hu in Hh.
    destruct (reverse v) as [|c r]; [done|]. done.
Qed.

Lemma trimmed_trim s : trimmed (trim s).
Proof. by destruct (trim_spec s) as (? & ? & _ & _ & _ & ?). Qed.

Lemma trimmed_eq s : trimmed s → trim s = s.
Proof.
  intros [H1 H2]. unfold trim, trim_end, trim_start.
  destruct s as [|c s]; [done|]. simpl. rewrite H1.
  destruct (reverse (c :: s)) as [|d r] eqn:E; simpl.
  - apply (f_equal reverse) in E. by rewrite reverse_involutive in E.
  - rewrite H2, <-E. apply reverse_involutive.
Qed.

Lemma trim_idemp s : trim (trim s) = trim s.
Proof. apply trimmed_eq, trimmed_trim. Qed.

Lemma trim_Forall (P : N → Prop) s : Forall P s → Forall P (trim s).
Proof.
  destruct (trim_spec s) as (p & q & Hs & _). rewrite Hs at 1.
  rewrite !Forall_app. tauto.
Qed.

Lemma trimmed_no_ws s : Forall (λ c, is_whitespace c = false) s → trimmed s.
Proof.
  intros Hs. split; [destruct Hs; done|].
  destruct (reverse s) as [|c r] eqn:E; [done|].
  rewrite Forall_forall in Hs. apply Hs. apply elem_of_reverse. rewrite E. by left.
Qed.

Lemma trim_app_l p s :
  Forall (λ c, is_whitespace c = true) p → trim (p ++ s) = trim s.
Proof. intros Hp. unfold trim, trim_start. f_equal. by induction Hp as [|c p Hc _ IH]; simpl; [|rewrite Hc]. Qed.

Lemma trim_app_r s q :
  Forall (λ c, is_whitespace c = true) q → trim (s ++ q) = trim s.
Proof.
  intros Hq. unfold trim, trim_start.
  destruct (drop_while_spec is_whitespace s) as (p & Hs & Hp & Hh).
  set (u := drop_while is_whitespace s) in *. rewrite Hs, <-app_assoc.
  assert (∀ r, drop_while is_whitespace (p ++ r) = drop_while is_whitespace r) as Hdrop.
  { clear -Hp. intros r. by induction Hp as [|c p Hc _ IH]; simpl; [|rewrite Hc]. }
  rewrite Hdrop. destruct u as [|c u].
  - simpl. assert (drop_while is_whitespace q = []) as ->; [|done].
    clear -Hq. by induction Hq as [|c q Hc _ IH]; simpl; [|rewrite Hc].
  - simpl app. simpl drop_while. rewrite Hh. unfold trim_end. f_equal.
    rewrite app_comm_cons, reverse_app. unfold trim_start.
    assert (Forall (λ c, is_whitespace c = true) (reverse q)) as Hq' by (by apply Forall_reverse).
    revert Hq'. generalize (reverse q) as q'. clear.
    induction 1 as [|d q Hd _ IH]; simpl; [done|]. by rewrite Hd.
Qed.

Lemma trimmed_app p m q :
  trimmed p → trimmed q → p ≠ [] → q ≠ [] → trimmed (p ++ m ++ q).
Proof.
  intros [Hp _] [_ Hq] Hpn Hqn. split.
  - by destruct p.
  - rewrite !reverse_app, <-app_assoc.
    destruct (reverse q) as [|c r] eqn:E; [|done].
    apply (f_equal reverse) in E. by rewrite reverse_involutive in E.
Qed.

(** *** Prefixes and splitting *)

Lemma strip_prefix_Some p s r : strip_prefix p s = Some r ↔ s = p ++ r.
Proof.
  revert s. induction p as [|c p IH]; intros s; simpl; [naive_solver|].
  destruct s as [|d s]; [naive_solver|].
  destruct (N.eqb_spec c d) as [->|]; [rewrite IH; naive_solver|naive_solver].
Qed.

Lemma starts_with_true p s : starts_with p s = true ↔ ∃ r, s = p ++ r.
Proof.
  unfold starts_with. destruct (strip_prefix p s) as [r|] eqn:E.
  - apply strip_prefix_Some in E. naive_solver.
  - split; [done|]. intros [r Hr]. apply strip_prefix_Some in Hr. congruence.
Qed.

Lemma ends_with_true p s : ends_with p s = true ↔ ∃ r, s = r ++ p.
Proof.
  unfold ends_with. rewrite starts_with_true. split; intros [r Hr].
  - exists (reverse r). apply (f_equal reverse) in Hr.
    by rewrite reverse_app, !reverse_involutive in Hr.
  - exists (reverse r). by rewrite Hr, reverse_app.
Qed.

Lemma contains_char_true c s : contains_char c s = true ↔ c ∈ s.
Proof.
  unfold contains_char. rewrite existsb_exists. split.
  - intros (d & Hd%list_elem_of_In & ->%N.eqb_eq). done.
  - intros Hc. exists c. rewrite N.eqb_refl. by rewrite <-list_elem_of_In.
Qed.

Lemma contains_char_false c s : contains_char c s = false ↔ c ∉ s.
Proof. rewrite <-contains_char_true. by destruct (contains_char c s). Qed.

Lemma any_char_false f s : any_char f s = false ↔ Forall (λ c, f c = false) s.
Proof.
  unfold any_char. induction s as [|c s IH]; simpl; [done|].
  rewrite Forall_cons, <-IH, orb_false_iff. done.
Qed.

Lemma contains_true p s : contains p s = true ↔ ∃ a b, s = a ++ p ++ b.
Proof.
  induction s as [|c s IH]; simpl; rewrite orb_true_iff, starts_with_true.
  - split.
    + intros [[r Hr]|]; [|done]. exists [], r. done.
    + intros (a & b & Hs). left. destruct a; [|done]. by exists b.
  - rewrite IH. split.
    + intros [[r Hr]|(a & b & ->)]; [by exists [], r | by exists (c :: a), b].
    + intros ([|d a] & b & Hs); simplify_eq/=; [left; by exists b | right; eauto].
Qed.

Lemma split_once_app c a b : c ∉ a → split_once c (a ++ c :: b) = Some (a, b).
Proof.
  induction a as [|d a IH]; intros Hn; simpl; [by rewrite N.eqb_refl|].
  destruct (N.eqb_spec c d) as [->|]; [set_solver|].
  rewrite IH by set_solver. done.
Qed.

Lemma split_once_Some c s a b :
  split_once c s = Some (a, b) ↔ s = a ++ c :: b ∧ c ∉ a.
Proof.
  split; [|intros [-> ?]; by apply split_once_app].
  revert a b. induction s as [|d s IH]; intros a b; simpl; [done|].
  destruct (N.eqb_spec c d) as [->|Hne]; [intros [= <- <-]; split; [done|set_solver]|].
  destruct (split_once c s) as [[a' b']|]; simpl; [|done].
  intros [= <- <-]. destruct (IH a' b' eq_refl) as [-> ?]. set_solver.
Qed.

Lemma split_once_None c s : split_once c s = None ↔ c ∉ s.
Proof.
  split.
  - intros Hn Hc. apply list_elem_of_split in Hc as (a & b & ->).
    revert Hn. induction a as [|d a IH]; simpl; [by rewrite N.eqb_refl|].
    destruct (c =? d); [done|].
    destruct (split_once c (a ++ c :: b)) as [[]|]; [done|]. by intros _; apply IH.
  - intros Hn. destruct (split_once c s) as [[a b]|] eqn:E; [|done].
    apply split_once_Some in E as [-> _]. set_solver.
Qed.
