(* ===== verification/Text.v ===== *)
(** * Text: lines, words and decimal numbers read back what was written

    The facts the narinfo round trip needs about [lines], [split_whitespace],
    [join], [Display for u64] and [parse::<u64>]. *)

From S2P Require Import Prelude Machine Str.

Local Open Scope N_scope.

Definition no_ws (s : list N) : Prop := Forall (λ c, is_whitespace c = false) s.

(** ** Lines *)

Lemma strip_cr_trimmed l : trimmed l → strip_cr l = l.
Proof.
  intros [_ Ht]. unfold strip_cr. destruct (reverse l) as [|c r]; [done|].
  destruct (decide (c = 13)) as [->|Hne]; [by vm_compute in Ht|].
  destruct c as [|p]; [done|]. by do 4 (try (destruct p as [p|p|]; try done)).
Qed.

Lemma lines_from_line cur l rest :
  10 ∉ l → lines_from cur (l ++ 10 :: rest) = strip_cr (reverse cur ++ l) :: lines_from [] rest.
Proof.
  revert cur. induction l as [|c l IH]; intros cur Hn; simpl.
  - by rewrite app_nil_r.
  - destruct (N.eqb_spec c 10) as [->|]; [set_solver|]. rewrite IH by set_solver.
    by rewrite reverse_cons, <-app_assoc.
Qed.

Lemma lines_join ls : ls ≠ [] → Forall (λ l, 10 ∉ l ∧ trimmed l) ls →
  lines (join [10] ls ++ [10]) = ls.
Proof.
  unfold lines. intros Hne Hall. induction Hall as [|l ls [Hn Ht] Hall IH]; [done|].
  destruct ls as [|l' ls].
  - simpl. rewrite lines_from_line by done. by rewrite strip_cr_trimmed.
  - change (join [10] (l :: l' :: ls)) with (l ++ 10 :: join [10] (l' :: ls)).
    rewrite <-app_assoc, <-app_comm_cons, lines_from_line by done.
    rewrite strip_cr_trimmed by done. f_equal. by apply IH.
Qed.

Lemma strip_cr_subset l c : c ∈ strip_cr l → c ∈ l.
Proof.
  unfold strip_cr. destruct (reverse l) as [|d r] eqn:E; [done|].
  apply (f_equal reverse) in E. rewrite reverse_involutive, reverse_cons in E. intros Hc.
  assert (c ∈ reverse r ∨ c ∈ l) as [Hr| ]; [|rewrite E; set_solver|done].
  destruct d as [|p]; [by right|].
  by do 4 (try (destruct p as [p|p|]; try (by right))); left.
Qed.

(** No line holds a newline. *)
Lemma lines_no_newline s l : l ∈ lines s → 10 ∉ l.
Proof.
  unfold lines. assert (Hgen : ∀ cur, 10 ∉ cur → l ∈ lines_from cur s → 10 ∉ l).
  { induction s as [|c s IH]; intros cur Hcur; simpl.
    - destruct (is_empty cur); [set_solver|]. intros ->%list_elem_of_singleton.
      by rewrite elem_of_reverse.
    - destruct (N.eqb_spec c 10) as [->|Hne].
      + rewrite elem_of_cons. intros [->|Hl].
        * intros Hc%strip_cr_subset. by rewrite elem_of_reverse in Hc.
        * eapply IH; [|exact Hl]. set_solver.
      + apply IH. set_solver. }
  intros Hl. eapply Hgen; [|exact Hl]. set_solver.
Qed.

(** ** Words *)

Lemma split_ws_word cur w rest : no_ws w →
  split_ws_from cur (w ++ rest) = split_ws_from (reverse w ++ cur) rest.
Proof.
  revert cur. unfold no_ws. intros cur Hw. revert cur. induction Hw as [|c w Hc _ IH]; intros cur; [done|].
  simpl. rewrite Hc, IH, reverse_cons, <-app_assoc. done.
Qed.

Lemma is_empty_app_r (a b : list N) : a ≠ [] → is_empty (a ++ b) = false.
Proof. by destruct a. Qed.

Lemma reverse_nonempty (w : list N) : w ≠ [] → reverse w ≠ [].
Proof. intros Hne Hr. apply Hne. apply (f_equal reverse) in Hr. by rewrite reverse_involutive in Hr. Qed.

Lemma split_whitespace_join ws : Forall (λ w, w ≠ [] ∧ no_ws w) ws →
  split_whitespace (join [32] ws) = ws.
Proof.
  unfold split_whitespace. induction 1 as [|w ws [Hne Hw] Hall IH]; [done|].
  destruct ws as [|w' ws].
  - simpl join. rewrite <-(app_nil_r w) at 1. rewrite split_ws_word, app_nil_r by done. simpl.
    destruct (is_empty (reverse w)) eqn:E; [|by rewrite reverse_involutive].
    destruct (reverse w) eqn:Er; [by apply reverse_nonempty in Er | done].
  - change (join [32] (w :: w' :: ws)) with (w ++ 32 :: join [32] (w' :: ws)).
    rewrite split_ws_word, app_nil_r by done. cbn [split_ws_from].
    change (is_whitespace 32) with true. cbv iota.
    destruct (is_empty (reverse w)) eqn:E.
    { destruct (reverse w) eqn:Er; [by apply reverse_nonempty in Er | done]. }
    rewrite reverse_involutive. f_equal. exact IH.
Qed.

(** Each word is a non-empty run of non-whitespace characters of the text. *)
Lemma split_whitespace_words s w : w ∈ split_whitespace s → w ≠ [] ∧ no_ws w ∧ w ⊆ s.
Proof.
  unfold split_whitespace. assert (Hgen : ∀ cur, no_ws cur → w ∈ split_ws_from cur s →
    w ≠ [] ∧ no_ws w ∧ w ⊆ cur ++ s).
  { induction s as [|c s IH]; intros cur Hcur; simpl.
    - destruct cur as [|d cur]; simpl; [set_solver|]. intros ->%list_elem_of_singleton.
      split_and!; [by apply reverse_nonempty | by apply Forall_reverse |].
      intros x. rewrite elem_of_reverse. set_solver.
    - destruct (is_whitespace c) eqn:Hc.
      + assert (Hrest : w ∈ split_ws_from [] s → w ≠ [] ∧ no_ws w ∧ w ⊆ cur ++ c :: s).
        { intros Hw. destruct (IH [] (Forall_nil_2 _) Hw) as (? & ? & ?). set_solver. }
        destruct cur as [|d cur]; cbn [is_empty]; [done|].
        rewrite elem_of_cons. intros [->|Hw]; [|by apply Hrest].
        split_and!; [by apply reverse_nonempty | by apply Forall_reverse |].
        intros x. rewrite elem_of_reverse. set_solver.
      + intros Hw. destruct (IH (c :: cur)) as (? & ? & ?); [by constructor|done|]. set_solver. }
  intros Hw. by apply (Hgen [] (Forall_nil_2 _)).
Qed.

Lemma no_ws_split_whitespace s : s ≠ [] → no_ws s → split_whitespace s = [s].
Proof. intros Hne Hs. change s with (join [32] [s]) at 1. apply split_whitespace_join. by constructor. Qed.

(** ** Decimal numbers *)

Definition dec_value (acc : N) (ds : list N) : N := foldl (λ a c, a * 10 + (c - 48)) acc ds.
Definition is_digit (c : N) : Prop := is_ascii_digit c = true.

Lemma is_digit_range c : is_digit c ↔ 48 ≤ c ∧ c ≤ 57.
Proof. unfold is_digit, is_ascii_digit, in_range. by rewrite andb_true_iff, !N.leb_le. Qed.

Lemma dec_digits_spec fuel n acc : n < 10 ^ N.of_nat fuel → (fuel ≠ 0)%nat →
  ∃ ds, dec_digits fuel n acc = ds ++ acc ∧ ds ≠ [] ∧ Forall is_digit ds ∧ dec_value 0 ds = n.
Proof.
  revert n acc. induction fuel as [|fuel IH]; intros n acc Hn Hf; [done|]. cbn [dec_digits].
  assert (Hm : n mod 10 < 10) by (by apply N.mod_lt).
  assert (Hd : is_digit (48 + n mod 10)) by (apply is_digit_range; clear -Hm;
    generalize dependent (n mod 10); intros; lia).
  pose proof (N.div_mod n 10 ltac:(done)) as Hdm.
  destruct (N.eqb_spec (n / 10) 0) as [Hz|Hz].
  - exists [48 + n mod 10]. split_and!; [done..|by constructor|]. unfold dec_value. simpl.
    rewrite Hz in Hdm. clear -Hdm. generalize dependent (n mod 10). intros. lia.
  - rewrite Nat2N.inj_succ, N.pow_succ_r' in Hn.
    assert (n / 10 < 10 ^ N.of_nat fuel) as Hlt by (apply N.Div0.div_lt_upper_bound; lia).
    destruct fuel as [|fuel]; [simpl in Hlt; lia|].
    destruct (IH (n / 10) ((48 + n mod 10) :: acc)) as (ds & Hds & Hne & Hall & Hv); [done..|].
    exists (ds ++ [48 + n mod 10]). rewrite Hds, <-app_assoc. split_and!; [done| | |].
    + by destruct ds.
    + apply Forall_app. by split; [|constructor].
    + unfold dec_value in *. rewrite foldl_app, Hv. simpl. clear -Hdm.
      generalize dependent (n mod 10). generalize dependent (n / 10). intros. lia.
Qed.

Lemma size_nat_bound n : n < 10 ^ N.of_nat (S (N.size_nat n)).
Proof.
  assert (n < 2 ^ N.of_nat (N.size_nat n)) as H2.
  { assert (N.of_nat (N.size_nat n) = N.size n) as -> by (destruct n; simpl; [done|];
      induction p; simpl; lia). apply N.size_gt. }
  assert (2 ^ N.of_nat (N.size_nat n) ≤ 10 ^ N.of_nat (N.size_nat n)) by (by apply N.pow_le_mono_l).
  assert (10 ^ N.of_nat (N.size_nat n) ≤ 10 ^ N.of_nat (S (N.size_nat n))).
  { apply N.pow_le_mono_r; lia. }
  lia.
Qed.

Lemma show_N_spec n : show_N n ≠ [] ∧ Forall is_digit (show_N n) ∧ dec_value 0 (show_N n) = n.
Proof.
  unfold show_N. destruct (dec_digits_spec (S (N.size_nat n)) n []) as (ds & -> & ?);
    [apply size_nat_bound|done|]. by rewrite app_nil_r.
Qed.

Lemma dec_value_ge acc ds : acc ≤ dec_value acc ds.
Proof.
  revert acc. unfold dec_value. induction ds as [|c ds IH]; intros acc; simpl; [lia|].
  specialize (IH (acc * 10 + (c - 48))). lia.
Qed.

Lemma parse_digits_value bound acc ds : Forall is_digit ds → dec_value acc ds < bound →
  parse_digits bound acc ds = Ok (dec_value acc ds).
Proof.
  intros Hd. revert acc. induction Hd as [|c ds Hc _ IH]; intros acc Hb; [done|].
  cbn [parse_digits]. unfold is_digit in Hc. rewrite Hc.
  change (dec_value acc (c :: ds)) with (dec_value (acc * 10 + (c - 48)) ds) in Hb |- *.
  pose proof (dec_value_ge (acc * 10 + (c - 48)) ds) as Hge.
  rewrite (proj2 (checked_mul_Some bound acc 10 (acc * 10))) by (split; [done|lia]).
  rewrite (proj2 (checked_add_Some bound (acc * 10) (c - 48) _)) by (split; [done|lia]).
  by apply IH.
Qed.

(** [n.to_string().parse::<u64>() == Ok(n)]. *)
Lemma parse_u64_show n : n < u64_bound → parse_u64 (show_N n) = Ok n.
Proof.
  intros Hn. destruct (show_N_spec n) as (Hne & Hd & Hv).
  assert (parse_u64 (show_N n) = parse_digits u64_bound 0 (show_N n)) as ->.
  { destruct (show_N n) as [|c ds]; [done|]. apply Forall_cons in Hd as [Hc _].
    apply is_digit_range in Hc. unfold parse_u64.
    assert (c = 48 ∨ c = 49 ∨ c = 50 ∨ c = 51 ∨ c = 52 ∨ c = 53 ∨ c = 54 ∨ c = 55 ∨ c = 56 ∨ c = 57)
      as Hcases by lia.
    destruct_or! Hcases; subst; by destruct ds. }
  rewrite parse_digits_value; rewrite ?Hv; done.
Qed.

Lemma parse_u64_bound s n : parse_u64 s = Ok n → n < u64_bound.
Proof.
  assert (Hgen : ∀ s acc, acc < u64_bound → parse_digits u64_bound acc s = Ok n → n < u64_bound).
  { clear s. intros s. induction s as [|c s IH]; intros acc Ha; cbn [parse_digits]; [by intros [= <-]|].
    destruct (is_ascii_digit c); [|done]. destruct (checked_mul u64_bound acc 10) as [m|]; [|done].
    destruct (checked_add u64_bound m (c - 48)) as [a|] eqn:E; [|done].
    apply checked_add_Some in E as [-> ?]. by apply IH. }
  assert (0 < u64_bound) by done.
  unfold parse_u64. repeat case_match; try done; by apply Hgen.
Qed.

Lemma digits_no_ws ds : Forall is_digit ds → no_ws ds ∧ 10 ∉ ds.
Proof.
  intros Hd. split.
  - eapply Forall_impl; [exact Hd|]. intros c [Hl Hu]%is_digit_range. unfold is_whitespace.
    repeat (first [rewrite orb_false_iff | split]); try (apply N.eqb_neq; lia);
      try (unfold in_range; rewrite andb_false_iff, !N.leb_gt; lia).
  - rewrite Forall_forall in Hd. intros Hin%Hd. apply is_digit_range in Hin. lia.
Qed.
