(* ===== verification/Error.v ===== *)
(** * Error: the error types of nixcache-core and their messages

    [crates/nixcache-core/src/error.rs].  A [usize] or [u8] field is an [N], a
    [char] the scalar value, a [String] or [&'static str] the string.  The
    [display_*] functions are the [Display] impls that [thiserror] derives from
    the [#[error("...")]] attributes. *)

From S2P Require Import Prelude Machine Str.

Local Open Scope N_scope.

Inductive TypeError :=
| StoreHashInvalidLength (actual : N)
| StoreHashInvalidChar (char index : N)
| NarDigestMissingPrefix (raw : list N)
| NarDigestInvalidAlgorithm (algorithm : list N)
| NarDigestInvalidHexLength (actual : N)
| NarDigestInvalidHexChar (char index : N)
| NixHashInvalidAlgorithm (algorithm : list N)
| NixHashInvalidLength (expected : list N) (actual : N)
| NixHashInvalidChar (char index : N)
| InvalidStorePathFormat (raw : list N)
| InvalidNarBasename (raw : list N)
| UnknownSystemArch (raw : list N)
| OriginMissingFields
| EmptyOriginJobId.

Inductive BloomError :=
| InvalidByteLength (actual : N)
| InvalidHashCount (actual min max : N)
| InvalidFalsePositiveRate (actual min max : list N)
| InvalidBlockCount (actual : N)
| BlockCountOverflow (actual max : N)
| BlockLimitExceeded (actual limit : N)
| ArithmeticOverflow (operation : list N)
| AllocationFailed (requested : N) (details : list N)
| EntryCountOverflow (actual : N)
| InvalidStructure (num_blocks expected_words actual_words : N).

Inductive NarInfoParseError :=
| MissingRequiredField (field : list N)
| InvalidNumber (field : list N) (source : ParseIntError)
| InvalidStorePath (value : list N)
| InvalidUrl (value : list N)
| InvalidReference (value : list N)
| InvalidField (field details : list N)
| EmptyField (field : list N)
| DuplicateField (field : list N)
| InvalidHash (field : list N) (source : TypeError)
| NonPositiveSize (field : list N)
| MalformedLine (line : list N)
| EmptyContent.

Inductive CoreError :=
| TypeErr (e : TypeError)
| BloomErr (e : BloomError)
| NarInfoParseErr (e : NarInfoParseError)
| Json (details : list N)
| InvalidIndex (details : list N)
| InvalidShard (details : list N)
| InvalidEntry (details : list N)
| InvalidMerkle (details : list N)
| InvalidShardSet (details : list N)
| InvalidCanonicalDigest (field details : list N)
| LimitExceeded (target : list N) (limit actual : N)
| ReceiptOriginMismatch (hash expected actual : list N)
| InvalidReceipt (details : list N).

#[export] Instance ParseIntError_eq_dec : EqDecision ParseIntError.
Proof. solve_decision. Defined.
#[export] Instance TypeError_eq_dec : EqDecision TypeError.
Proof. solve_decision. Defined.
#[export] Instance BloomError_eq_dec : EqDecision BloomError.
Proof. solve_decision. Defined.
#[export] Instance NarInfoParseError_eq_dec : EqDecision NarInfoParseError.
Proof. solve_decision. Defined.
#[export] Instance CoreError_eq_dec : EqDecision CoreError.
Proof. solve_decision. Defined.

(** [Display for ParseIntError] of the standard library. *)
Definition display_parse_int_error (e : ParseIntError) : list N :=
  match e with
  | PieEmpty => lit "cannot parse integer from empty string"
  | PieInvalidDigit => lit "invalid digit found in string"
  | PiePosOverflow => lit "number too large to fit in target type"
  end.

Definition quoted (s : list N) : list N := lit "'" ++ s ++ lit "'".

Definition display_type_error (e : TypeError) : list N :=
  match e with
  | StoreHashInvalidLength actual =>
      lit "StoreHash length mismatch: expected 32 base32 chars, found " ++ show_N actual
  | StoreHashInvalidChar char index =>
      lit "Invalid Nix base32 character " ++ quoted [char] ++ lit " at index " ++ show_N index
  | NarDigestMissingPrefix raw =>
      lit "NarDigest missing 'sha256:' prefix in " ++ quoted raw
  | NarDigestInvalidAlgorithm algorithm =>
      lit "Unsupported NarDigest algorithm " ++ quoted algorithm
      ++ lit "; only sha256 is accepted"
  | NarDigestInvalidHexLength actual =>
      lit "NarDigest hex decode failed: expected 64 hex characters, found " ++ show_N actual
  | NarDigestInvalidHexChar char index =>
      lit "Invalid hex character " ++ quoted [char] ++ lit " in digest at index " ++ show_N index
  | NixHashInvalidAlgorithm algorithm =>
      lit "Unsupported Nix hash algorithm " ++ quoted algorithm
      ++ lit "; only sha256 is accepted"
  | NixHashInvalidLength expected actual =>
      lit "Nix hash length mismatch: expected " ++ expected ++ lit ", found " ++ show_N actual
  | NixHashInvalidChar char index =>
      lit "Invalid Nix hash character " ++ quoted [char] ++ lit " at index " ++ show_N index
  | InvalidStorePathFormat raw => lit "Invalid StorePath format: " ++ quoted raw
  | InvalidNarBasename raw => lit "Invalid NAR basename: " ++ quoted raw
  | UnknownSystemArch raw =>
      lit "Unsupported system architecture identifier: " ++ quoted raw
  | OriginMissingFields => lit "Origin metadata must contain a run ID or a non-empty job ID"
  | EmptyOriginJobId => lit "Origin job ID must not be empty"
  end.

Definition display_bloom_error (e : BloomError) : list N :=
  match e with
  | InvalidByteLength actual =>
      lit "Bloom filter byte length " ++ show_N actual
      ++ lit " is not a multiple of 64 bytes (512 bits)"
  | InvalidHashCount actual min max =>
      lit "Bloom filter hash count must be in " ++ show_N min ++ lit "..=" ++ show_N max
      ++ lit ", got " ++ show_N actual
  | InvalidFalsePositiveRate actual min max =>
      lit "Bloom filter false-positive rate must be finite and in [" ++ min ++ lit ", "
      ++ max ++ lit "], got " ++ actual
  | InvalidBlockCount actual =>
      lit "Bloom filter block count must be greater than zero, got " ++ show_N actual
  | BlockCountOverflow actual max =>
      lit "Bloom filter block count " ++ show_N actual ++ lit " exceeds u32::MAX ("
      ++ show_N max ++ lit ")"
  | BlockLimitExceeded actual limit =>
      lit "Bloom filter block count " ++ show_N actual ++ lit " exceeds the limit "
      ++ show_N limit
  | ArithmeticOverflow operation =>
      lit "Bloom filter arithmetic overflow while calculating " ++ operation
  | AllocationFailed requested details =>
      lit "Bloom filter allocation of " ++ show_N requested ++ lit " words failed: " ++ details
  | EntryCountOverflow actual =>
      lit "Bloom filter entry count overflow at " ++ show_N actual
  | InvalidStructure num_blocks expected_words actual_words =>
      lit "Bloom filter internal structure is invalid: " ++ show_N num_blocks
      ++ lit " blocks require " ++ show_N expected_words ++ lit " words, found "
      ++ show_N actual_words
  end.

Definition display_narinfo_parse_error (e : NarInfoParseError) : list N :=
  match e with
  | MissingRequiredField f => lit "Missing mandatory narinfo field: " ++ quoted f
  | InvalidNumber f source =>
      lit "Failed to parse integer field " ++ quoted f ++ lit ": "
      ++ display_parse_int_error source
  | InvalidStorePath v =>
      lit "Invalid store path format in StorePath field: " ++ quoted v
  | InvalidUrl v => lit "Invalid URL or NAR basename: " ++ quoted v
  | InvalidReference v => lit "Invalid reference: " ++ quoted v
  | InvalidField f details => lit "Invalid field " ++ quoted f ++ lit ": " ++ details
  | EmptyField f => lit "Field " ++ quoted f ++ lit " must not be empty"
  | DuplicateField f => lit "Field " ++ quoted f ++ lit " may only occur once"
  | InvalidHash f source =>
      lit "Invalid hash in field " ++ quoted f ++ lit ": " ++ display_type_error source
  | NonPositiveSize f => lit "Field " ++ quoted f ++ lit " must be greater than zero"
  | MalformedLine l => lit "Malformed narinfo line: " ++ quoted l
  | EmptyContent => lit "NarInfo content is empty or contains no valid key-value pairs"
  end.

Definition display_core_error (e : CoreError) : list N :=
  match e with
  | TypeErr e => display_type_error e
  | BloomErr e => display_bloom_error e
  | NarInfoParseErr e => display_narinfo_parse_error e
  | Json d => lit "Serialization / Deserialization error: " ++ d
  | InvalidIndex d => lit "Invalid Schema v8 root index: " ++ d
  | InvalidShard d => lit "Invalid Schema v8 shard payload: " ++ d
  | InvalidEntry d => lit "Invalid Schema v8 index entry or metadata: " ++ d
  | InvalidMerkle d => lit "Invalid Schema v8 Merkle structure: " ++ d
  | InvalidShardSet d => lit "Invalid Schema v8 shard descriptor set: " ++ d
  | InvalidCanonicalDigest field d =>
      lit "Invalid canonical digest in " ++ field ++ lit ": " ++ d
  | LimitExceeded target limit actual =>
      lit "Schema v8 " ++ target ++ lit " exceeds limit " ++ show_N limit
      ++ lit " (actual " ++ show_N actual ++ lit ")"
  | ReceiptOriginMismatch hash expected actual =>
      lit "Build receipt origin mismatch for entry " ++ hash ++ lit ": expected "
      ++ expected ++ lit ", got " ++ actual
  | InvalidReceipt d => lit "Invalid BuildReceipt: " ++ d
  end.
