(* ===== verification/Types.v ===== *)
(** * Types: the strong types of the index (crates/nixcache-core/src/types.rs)

    [StoreHash], [NarDigest], [SystemArch], the store path and hash validators,
    [NarInfoMeta], [OriginMetadata] and [IndexEntry].  A newtype over [String]
    is a record with one field; [Result<T, E>] is [outcome E T].  The [chrono]
    crate is the interface [Chrono]. *)

From stdpp Require Import finite.
From S2P Require Import Prelude Machine Str Error.

Local Open Scope N_scope.

Definition SCHEMA_VERSION_V8 : N := 8.
Definition CACHE_INDEX_VERSION : N := SCHEMA_VERSION_V8.
Definition RUN_SESSION_VERSION : N := 6.
Definition RECEIPT_VERSION : N := 7.
Definition NUM_SHARDS : nat := 1024.

(** The trait [IndexValidationLimits] as the record of its methods' values. *)
Record IndexValidationLimits := {
  max_shard_entries : N;
  max_gc_roots : N;
  max_uncompressed_bytes : N;
  max_nar_size : N }.

(** The part of [chrono] the core uses: an instant is its [Z] count of
    nanoseconds since the epoch; [parse_from_rfc3339] is [None] on a parse
    error; the two printers are [to_rfc3339] and
    [to_rfc3339_opts(SecondsFormat::Secs, true)]. *)
Class Chrono := {
  parse_from_rfc3339 : list N → option Z;
  to_rfc3339 : Z → list N;
  to_rfc3339_secs : Z → list N }.

Definition usize_len {A} (l : list A) : N := N.of_nat (length l).
Definition byte_len (s : list N) : N := N.of_nat (str_len s).

(** ** StoreHash *)

Record StoreHash := mkStoreHash { StoreHash_as_str : list N }.
#[export] Instance StoreHash_eq_dec : EqDecision StoreHash.
Proof. solve_decision. Defined.
#[export] Instance StoreHash_countable : Countable StoreHash.
Proof. apply (inj_countable' StoreHash_as_str mkStoreHash). by intros []. Defined.

(** [derive(Ord)] on the newtype: the order of the string. *)
Definition StoreHash_le (a b : StoreHash) : Prop :=
  str_le (StoreHash_as_str a) (StoreHash_as_str b).

(** ['0'..='9' | 'a'..='d' | 'f'..='n' | 'p'..='s' | 'v'..='z']. *)
Definition is_nix_base32 (c : N) : bool :=
  in_range 48 57 c || in_range 97 100 c || in_range 102 110 c || in_range 112 115 c
  || in_range 118 122 c.

(** [for (index, c) in s.chars().enumerate() { if !ok(c) { return Err(..) } }]. *)
Fixpoint check_chars {E} (good : N → bool) (err : N → N → E) (index : N) (s : list N)
    : outcome E unit :=
  match s with
  | [] => Ok tt
  | c :: s => if good c then check_chars good err (index + 1) s else Err (err c index)
  end.

Definition StoreHash_parse (s : list N) : outcome TypeError StoreHash :=
  let trimmed := trim s in
  if negb (Nat.eqb (str_len trimmed) 32)
  then Err (StoreHashInvalidLength (byte_len trimmed))
  else
    _ ← check_chars is_nix_base32 StoreHashInvalidChar 0 trimmed;
    Ok (mkStoreHash trimmed).

Definition StoreHash_default : StoreHash :=
  mkStoreHash (lit "00000000000000000000000000000000").

(** [Deserialize for StoreHash]: the string is parsed, the error is its message. *)
Definition StoreHash_deserialize (s : list N) : outcome (list N) StoreHash :=
  map_err display_type_error (StoreHash_parse s).

(** ** NarDigest *)

Record NarDigest := mkNarDigest { NarDigest_as_str : list N }.
#[export] Instance NarDigest_eq_dec : EqDecision NarDigest.
Proof. solve_decision. Defined.
#[export] Instance NarDigest_countable : Countable NarDigest.
Proof. apply (inj_countable' NarDigest_as_str mkNarDigest). by intros []. Defined.
Definition NarDigest_le (a b : NarDigest) : Prop :=
  str_le (NarDigest_as_str a) (NarDigest_as_str b).

Definition NarDigest_default : NarDigest :=
  mkNarDigest (lit "sha256:0000000000000000000000000000000000000000000000000000000000000000").

Definition NarDigest_parse (s : list N) : outcome TypeError NarDigest :=
  let trimmed := trim s in
  match split_once 58 trimmed with
  | None => Err (NarDigestMissingPrefix s)
  | Some (algo, hex) =>
      if negb (bool_decide (algo = lit "sha256"))
      then Err (NarDigestInvalidAlgorithm algo)
      else if negb (Nat.eqb (str_len hex) 64)
      then Err (NarDigestInvalidHexLength (byte_len hex))
      else
        _ ← check_chars is_ascii_hexdigit NarDigestInvalidHexChar 0 hex;
        Ok (mkNarDigest (lit "sha256:" ++ to_ascii_lowercase hex))
  end.

Definition NarDigest_new_sha256 (hex : list N) : outcome TypeError NarDigest :=
  NarDigest_parse (lit "sha256:" ++ trim hex).

Definition NarDigest_deserialize (s : list N) : outcome (list N) NarDigest :=
  map_err display_type_error (NarDigest_parse s).

(** Canonical digest text: [is_sha256], [validate_sha256]. *)
Definition is_sha256 (value : list N) : bool :=
  Nat.eqb (str_len value) 71 && starts_with (lit "sha256:") value
  && forallb is_lower_hex (drop 7 (utf8 value)).

Definition validate_sha256 (value : list N) : outcome (list N) unit :=
  if is_sha256 value then Ok tt
  else Err (lit "expected canonical sha256: followed by 64 lowercase hexadecimal characters").

(** ** SystemArch *)

Inductive SystemArch :=
| X86_64Linux | Aarch64Linux | X86_64Darwin | Aarch64Darwin | I686Linux
| Armv7lLinux | Armv6lLinux | Riscv64Linux | Aarch64Freebsd | X86_64Freebsd
| I686Freebsd | X86_64Netbsd | X86_64Openbsd | Mips64elLinux | Powerpc64leLinux
| S390xLinux | Wasm32Wasi | Unknown.

#[export] Instance SystemArch_eq_dec : EqDecision SystemArch.
Proof. solve_decision. Defined.

Definition SystemArch_VARIANTS : list SystemArch :=
  [X86_64Linux; Aarch64Linux; X86_64Darwin; Aarch64Darwin; I686Linux;
   Armv7lLinux; Armv6lLinux; Riscv64Linux; Aarch64Freebsd; X86_64Freebsd;
   I686Freebsd; X86_64Netbsd; X86_64Openbsd; Mips64elLinux; Powerpc64leLinux;
   S390xLinux; Wasm32Wasi; Unknown].

#[export] Instance SystemArch_finite : Finite SystemArch.
Proof.
  refine {| enum := SystemArch_VARIANTS |}.
  - apply (bool_decide_unpack _). vm_compute. exact I.
  - intros a. apply (bool_decide_unpack _). destruct a; vm_compute; exact I.
Defined.

Definition SystemArch_is_known (a : SystemArch) : bool :=
  match a with Unknown => false | _ => true end.

(** [SystemArch::all]. *)
Definition SystemArch_all : list SystemArch :=
  filter (λ a, a ≠ Unknown) SystemArch_VARIANTS.

Definition SystemArch_as_str (a : SystemArch) : list N :=
  match a with
  | X86_64Linux => lit "x86_64-linux"
  | Aarch64Linux => lit "aarch64-linux"
  | X86_64Darwin => lit "x86_64-darwin"
  | Aarch64Darwin => lit "aarch64-darwin"
  | I686Linux => lit "i686-linux"
  | Armv7lLinux => lit "armv7l-linux"
  | Armv6lLinux => lit "armv6l-linux"
  | Riscv64Linux => lit "riscv64-linux"
  | Aarch64Freebsd => lit "aarch64-freebsd"
  | X86_64Freebsd => lit "x86_64-freebsd"
  | I686Freebsd => lit "i686-freebsd"
  | X86_64Netbsd => lit "x86_64-netbsd"
  | X86_64Openbsd => lit "x86_64-openbsd"
  | Mips64elLinux => lit "mips64el-linux"
  | Powerpc64leLinux => lit "powerpc64le-linux"
  | S390xLinux => lit "s390x-linux"
  | Wasm32Wasi => lit "wasm32-wasi"
  | Unknown => lit "unknown"
  end.

Definition SystemArch_to_oci_platform_tuple (a : SystemArch)
    : list N * list N * option (list N) :=
  match a with
  | X86_64Linux => (lit "linux", lit "amd64", None)
  | Aarch64Linux => (lit "linux", lit "arm64", None)
  | X86_64Darwin => (lit "darwin", lit "amd64", None)
  | Aarch64Darwin => (lit "darwin", lit "arm64", None)
  | I686Linux => (lit "linux", lit "386", None)
  | Armv7lLinux => (lit "linux", lit "arm", Some (lit "v7"))
  | Armv6lLinux => (lit "linux", lit "arm", Some (lit "v6"))
  | Riscv64Linux => (lit "linux", lit "riscv64", None)
  | Aarch64Freebsd => (lit "freebsd", lit "arm64", None)
  | X86_64Freebsd => (lit "freebsd", lit "amd64", None)
  | I686Freebsd => (lit "freebsd", lit "386", None)
  | X86_64Netbsd => (lit "netbsd", lit "amd64", None)
  | X86_64Openbsd => (lit "openbsd", lit "amd64", None)
  | Mips64elLinux => (lit "linux", lit "mips64le", None)
  | Powerpc64leLinux => (lit "linux", lit "ppc64le", None)
  | S390xLinux => (lit "linux", lit "s390x", None)
  | Wasm32Wasi => (lit "wasip1", lit "wasm", None)
  | Unknown => (lit "unknown", lit "unknown", None)
  end.

(** [matches!(s, "a" | "b")] and [matches!(v, Some("a") | Some("b"))]. *)
Definition one_of (s : list N) (alts : list (list N)) : bool := bool_decide (s ∈ alts).
Definition some_one_of (v : option (list N)) (alts : list (list N)) : bool :=
  match v with Some s => one_of s alts | None => false end.

(** The arms of [from_oci], tried in order; an arm that ignores the variant has
    no third alternative list. *)
Definition SystemArch_from_oci (os architecture : list N) (variant : option (list N))
    : SystemArch :=
  let os := to_ascii_lowercase (trim os) in
  let arch := to_ascii_lowercase (trim architecture) in
  let variant := (λ v, to_ascii_lowercase (trim v)) <$> variant in
  let linux := bool_decide (os = lit "linux") in
  let darwin := bool_decide (os = lit "darwin") in
  let freebsd := bool_decide (os = lit "freebsd") in
  let netbsd := bool_decide (os = lit "netbsd") in
  let openbsd := bool_decide (os = lit "openbsd") in
  let amd64 := one_of arch [lit "amd64"; lit "x86_64"] in
  let arm64 := one_of arch [lit "arm64"; lit "aarch64"] in
  let i386 := one_of arch [lit "386"; lit "i686"; lit "i386"] in
  let arm := bool_decide (arch = lit "arm") in
  if linux && amd64 then X86_64Linux
  else if linux && arm64 then Aarch64Linux
  else if darwin && amd64 then X86_64Darwin
  else if darwin && arm64 then Aarch64Darwin
  else if linux && i386 then I686Linux
  else if (linux && arm && some_one_of variant [lit "v7"; lit "7"])
          || (linux && bool_decide (arch = lit "armv7l")) then Armv7lLinux
  else if (linux && arm && some_one_of variant [lit "v6"; lit "6"])
          || (linux && bool_decide (arch = lit "armv6l")) then Armv6lLinux
  else if linux && bool_decide (arch = lit "riscv64") then Riscv64Linux
  else if freebsd && arm64 then Aarch64Freebsd
  else if freebsd && amd64 then X86_64Freebsd
  else if freebsd && i386 then I686Freebsd
  else if netbsd && amd64 then X86_64Netbsd
  else if openbsd && amd64 then X86_64Openbsd
  else if linux && one_of arch [lit "mips64le"; lit "mips64el"] then Mips64elLinux
  else if linux && one_of arch [lit "ppc64le"; lit "powerpc64le"] then Powerpc64leLinux
  else if linux && bool_decide (arch = lit "s390x") then S390xLinux
  else if one_of os [lit "wasi"; lit "wasip1"] && one_of arch [lit "wasm"; lit "wasm32"]
       then Wasm32Wasi
  else Unknown.

(** [From<&str> for SystemArch]: the match on the trimmed string. *)
Definition SystemArch_from (s : list N) : SystemArch :=
  let t := trim s in
  let eq x := bool_decide (t = x) in
  if eq (lit "x86_64-linux") then X86_64Linux
  else if eq (lit "aarch64-linux") then Aarch64Linux
  else if eq (lit "x86_64-darwin") then X86_64Darwin
  else if eq (lit "aarch64-darwin") then Aarch64Darwin
  else if eq (lit "i686-linux") then I686Linux
  else if eq (lit "armv7l-linux") then Armv7lLinux
  else if eq (lit "armv6l-linux") then Armv6lLinux
  else if eq (lit "riscv64-linux") then Riscv64Linux
  else if eq (lit "aarch64-freebsd") then Aarch64Freebsd
  else if eq (lit "x86_64-freebsd") then X86_64Freebsd
  else if eq (lit "i686-freebsd") then I686Freebsd
  else if eq (lit "x86_64-netbsd") then X86_64Netbsd
  else if eq (lit "x86_64-openbsd") then X86_64Openbsd
  else if eq (lit "mips64el-linux") then Mips64elLinux
  else if eq (lit "powerpc64le-linux") then Powerpc64leLinux
  else if eq (lit "s390x-linux") then S390xLinux
  else if eq (lit "wasm32-wasi") then Wasm32Wasi
  else Unknown.

Definition normalize_runtime_os (os : list N) : list N :=
  if bool_decide (os = lit "macos") then lit "darwin" else os.

(** [detect_current] with [env::consts::OS] and [env::consts::ARCH] as arguments. *)
Definition SystemArch_detect_current (consts_os consts_arch : list N) : SystemArch :=
  let detected := SystemArch_from_oci (normalize_runtime_os consts_os) consts_arch None in
  if SystemArch_is_known detected then detected else Unknown.

Definition SystemArch_parse_strict (s : list N) : outcome TypeError SystemArch :=
  let arch := SystemArch_from s in
  if SystemArch_is_known arch then Ok arch else Err (UnknownSystemArch s).

(** ** Store paths, NAR basenames, Nix hashes *)

Definition bad_name_char (c : N) : bool := is_control c || is_whitespace c.

Definition validate_store_path_basename (value : list N) : outcome TypeError StoreHash :=
  match split_once 45 value with
  | None => Err (InvalidStorePathFormat value)
  | Some (hash, name) =>
      if is_empty name || contains_char 47 name || contains_char 92 name
         || any_char bad_name_char name
      then Err (InvalidStorePathFormat value)
      else StoreHash_parse hash
  end.

Definition validate_store_path (value : list N) : outcome TypeError StoreHash :=
  match strip_prefix (lit "/nix/store/") value with
  | None => Err (InvalidStorePathFormat value)
  | Some basename =>
      if is_empty basename || contains_char 47 basename || contains_char 92 basename
      then Err (InvalidStorePathFormat value)
      else validate_store_path_basename basename
  end.

Definition normalize_store_reference (value : list N) : outcome TypeError (list N) :=
  if starts_with (lit "/nix/store/") value then
    _ ← validate_store_path value;
    or_panic (strip_prefix (lit "/nix/store/") value)
  else if contains_char 47 value || contains_char 92 value
  then Err (InvalidStorePathFormat value)
  else
    _ ← validate_store_path_basename value;
    Ok value.

Definition validate_nar_basename (value : list N) : outcome TypeError unit :=
  if is_empty value
     || bool_decide (value = lit ".")
     || bool_decide (value = lit "..")
     || contains (lit "..") value
     || contains_char 47 value
     || contains_char 92 value
     || any_char bad_name_char value
  then Err (InvalidNarBasename value)
  else Ok tt.

Definition nix_hash_expected : list N :=
  lit "52 Nix base32, 64 lowercase hexadecimal, or 44 base64 characters".

Definition validate_nix_hash (value : list N) : outcome TypeError unit :=
  let parts :=
    match split_once 58 value with
    | Some (algorithm, encoded) => Some (algorithm, 58, encoded)
    | None => '(algorithm, encoded) ← split_once 45 value; Some (algorithm, 45, encoded)
    end in
  match parts with
  | None => Err (NixHashInvalidAlgorithm [])
  | Some (algorithm, separator, encoded) =>
      if negb (bool_decide (algorithm = lit "sha256"))
      then Err (NixHashInvalidAlgorithm algorithm)
      else
        let bytes := utf8 encoded in
        if (separator =? 45) && Nat.eqb (length bytes) 44
           && bool_decide (bytes !! 43%nat = Some 61)
           && forallb (λ b, is_ascii_alphanumeric b || (b =? 43) || (b =? 47)) (take 43 bytes)
        then Ok tt
        else if Nat.eqb (length bytes) 52
        then check_chars is_nix_base32 NixHashInvalidChar 0 bytes
        else if Nat.eqb (length bytes) 64 && forallb is_lower_hex bytes
        then Ok tt
        else Err (NixHashInvalidLength nix_hash_expected (usize_len bytes))
  end.

(** ** NarInfoMeta *)

Record NarInfoMeta := {
  store_path : list N;
  nar_basename : list N;
  compression : option (list N);
  file_hash : option (list N);
  file_size : option N;
  nar_hash : list N;
  references : list (list N);
  deriver : option (list N);
  signatures : list (list N);
  ca : option (list N) }.

#[export] Instance NarInfoMeta_eq_dec : EqDecision NarInfoMeta.
Proof. solve_decision. Defined.

Definition NarInfoMeta_default : NarInfoMeta := {|
  store_path := []; nar_basename := []; compression := None; file_hash := None;
  file_size := None; nar_hash := []; references := []; deriver := None;
  signatures := []; ca := None |}.

(** [if let Some(x) = o { f(x)?; }]. *)
Definition if_some {E A} (o : option A) (f : A → outcome E unit) : outcome E unit :=
  match o with Some x => f x | None => Ok tt end.
Definition some_and {A} (o : option A) (f : A → bool) : bool :=
  match o with Some x => f x | None => false end.
Definition entry_err (prefix : list N) (e : TypeError) : CoreError :=
  InvalidEntry (prefix ++ display_type_error e).

Definition NarInfoMeta_validate_structure (self : NarInfoMeta) : outcome CoreError unit :=
  _ ← map_err (entry_err (lit "StorePath: ")) (validate_store_path (store_path self));
  _ ← map_err (entry_err (lit "NAR basename: ")) (validate_nar_basename (nar_basename self));
  _ ← if_some (file_hash self) (λ fh,
        _ ← ensure (negb (is_empty fh)) (InvalidEntry (lit "FileHash must not be empty"));
        map_err (entry_err (lit "FileHash: ")) (validate_nix_hash fh));
  _ ← ensure (negb (some_and (compression self) is_empty))
        (InvalidEntry (lit "Compression must not be empty"));
  _ ← ensure (negb (some_and (ca self) is_empty)) (InvalidEntry (lit "CA must not be empty"));
  _ ← ensure (negb (bool_decide (file_size self = Some 0)))
        (InvalidEntry (lit "FileSize must be greater than zero"));
  _ ← map_err (entry_err (lit "NarHash: ")) (validate_nix_hash (nar_hash self));
  _ ← for_each (λ reference,
        _ ← map_err (entry_err (lit "reference " ++ quoted reference ++ lit ": "))
              (normalize_store_reference reference);
        Ok tt) (references self);
  if_some (deriver self) (λ d,
    normalized ← map_err (entry_err (lit "Deriver " ++ quoted d ++ lit ": "))
                   (normalize_store_reference d);
    ensure (ends_with (lit ".drv") normalized)
      (InvalidEntry (lit "Deriver " ++ quoted d ++ lit " must end with .drv"))).

Definition NarInfoMeta_store_hash (self : NarInfoMeta) : option StoreHash :=
  ok (validate_store_path (store_path self)).

Definition reference_hash (reference : list N) : outcome TypeError StoreHash :=
  normalized ← normalize_store_reference reference;
  '(hash, _) ← ok_or (InvalidStorePathFormat reference) (split_once 45 normalized);
  StoreHash_parse hash.

Definition NarInfoMeta_reference_hashes (self : NarInfoMeta)
    : outcome TypeError (list StoreHash) :=
  collect_m reference_hash (references self).

Definition opt_line (label : list N) (o : option (list N)) : list (list N) :=
  match o with Some x => [label ++ x] | None => [] end.

(** [render]: the narinfo text. *)
Definition NarInfoMeta_render (self : NarInfoMeta) (nar_size : N) : list N :=
  join [10]
    ([lit "StorePath: " ++ store_path self]
     ++ [lit "URL: nar/" ++ nar_basename self]
     ++ opt_line (lit "Compression: ") (compression self)
     ++ opt_line (lit "FileHash: ") (file_hash self)
     ++ opt_line (lit "FileSize: ") (show_N <$> file_size self)
     ++ [lit "NarHash: " ++ nar_hash self]
     ++ [lit "NarSize: " ++ show_N nar_size]
     ++ (if bool_decide (references self = []) then []
         else [lit "References: " ++ join [32] (references self)])
     ++ opt_line (lit "Deriver: ") (deriver self)
     ++ ((λ sig, lit "Sig: " ++ sig) <$> signatures self)
     ++ opt_line (lit "CA: ") (ca self))
  ++ [10].

(** ** OriginMetadata *)

Record OriginMetadata := { run_id : option N; job_id : option (list N) }.
#[export] Instance OriginMetadata_eq_dec : EqDecision OriginMetadata.
Proof. solve_decision. Defined.

Definition OriginMetadata_validate_structure (self : OriginMetadata) : outcome TypeError unit :=
  if bool_decide (run_id self = None) && bool_decide (job_id self = None)
  then Err OriginMissingFields
  else if some_and (job_id self) (λ j, is_empty (trim j))
  then Err EmptyOriginJobId
  else Ok tt.

(** ** IndexEntry *)

Record IndexEntry := {
  name : list N;
  system : option SystemArch;
  narinfo_meta : NarInfoMeta;
  nar_digest : NarDigest;
  nar_size : N;
  added : list N;
  origin : option OriginMetadata }.
#[export] Instance IndexEntry_eq_dec : EqDecision IndexEntry.
Proof. solve_decision. Defined.

Definition IndexEntry_default : IndexEntry := {|
  name := []; system := None; narinfo_meta := NarInfoMeta_default;
  nar_digest := NarDigest_default; nar_size := 0; added := []; origin := None |}.

(** [s.trim().is_empty() || DateTime::parse_from_rfc3339(s).is_err()]. *)
Definition bad_timestamp `{Chrono} (s : list N) : bool :=
  is_empty (trim s) || bool_decide (parse_from_rfc3339 s = None).

Definition IndexEntry_validate_structure `{Chrono} (self : IndexEntry)
    : outcome CoreError unit :=
  _ ← ensure (negb (is_empty (name self))) (InvalidEntry (lit "entry name must not be empty"));
  _ ← ensure (negb (some_and (system self) (λ s, negb (SystemArch_is_known s))))
        (InvalidEntry (lit "entry system must be known"));
  _ ← NarInfoMeta_validate_structure (narinfo_meta self);
  _ ← map_err (entry_err (lit "NAR digest: "))
        (NarDigest_parse (NarDigest_as_str (nar_digest self)));
  _ ← ensure (negb (nar_size self =? 0))
        (InvalidEntry (lit "NAR size must be greater than zero"));
  _ ← ensure (negb (bad_timestamp (added self)))
        (InvalidEntry (lit "added must be a valid RFC3339 timestamp"));
  if_some (origin self) (λ o, map_err TypeErr (OriginMetadata_validate_structure o)).

Definition IndexEntry_nar_basename (self : IndexEntry) : list N :=
  nar_basename (narinfo_meta self).
Definition IndexEntry_to_narinfo_string (self : IndexEntry) : list N :=
  NarInfoMeta_render (narinfo_meta self) (nar_size self).
Definition IndexEntry_store_hash (self : IndexEntry) : option StoreHash :=
  NarInfoMeta_store_hash (narinfo_meta self).

(** [Deserialize]: the wire struct is filled by serde (its nested values have
    been through their own [Deserialize]) and the value is accepted only if
    [validate_structure] passes; the error is the message of the failure. *)
Definition NarInfoMeta_deserialize (wire : NarInfoMeta) : outcome (list N) NarInfoMeta :=
  _ ← map_err display_core_error (NarInfoMeta_validate_structure wire);
  Ok wire.
Definition OriginMetadata_deserialize (wire : OriginMetadata)
    : outcome (list N) OriginMetadata :=
  _ ← map_err display_type_error (OriginMetadata_validate_structure wire);
  Ok wire.
Definition IndexEntry_deserialize `{Chrono} (wire : IndexEntry)
    : outcome (list N) IndexEntry :=
  _ ← map_err display_core_error (IndexEntry_validate_structure wire);
  Ok wire.

(** ** Facts about the character checks *)

Lemma in_range_true lo hi c : in_range lo hi c = true ↔ lo ≤ c ≤ hi.
Proof. unfold in_range. rewrite andb_true_iff, !N.leb_le. done. Qed.

Lemma check_chars_spec {E} good (err : N → N → E) index s :
  match check_chars good err index s with
  | Ok _ => Forall (λ c, good c = true) s
  | Err e => ∃ i c, e = err c (index + i) ∧ s !! N.to_nat i = Some c ∧ good c = false ∧
      Forall (λ d, good d = true) (take (N.to_nat i) s)
  | Panic => False
  end.
Proof.
  revert index. induction s as [|c s IH]; intros index; simpl; [done|].
  destruct (good c) eqn:Hc.
  - specialize (IH (index + 1)). destruct (check_chars _ _ _ s) as [?|e|].
    + by constructor.
    + destruct IH as (i & d & -> & Hi & Hd & Hall). exists (i + 1), d.
      replace (N.to_nat (i + 1)) with (S (N.to_nat i)) by lia. simpl.
      split_and!; [f_equal; lia | done | done | by constructor].
    + done.
  - exists 0, c. rewrite N.add_0_r. simpl. split_and!; [done..|constructor].
Qed.

Lemma check_chars_ok {E} good (err : N → N → E) index s u :
  check_chars good err index s = Ok u ↔ Forall (λ c, good c = true) s.
Proof.
  pose proof (check_chars_spec good err index s) as H.
  destruct u, (check_chars good err index s) as [[]|e|]; [naive_solver| |done].
  destruct H as (i & c & _ & Hi & Hc & _). split; [done|].
  intros Hall. rewrite Forall_forall in Hall.
  rewrite (Hall c) in Hc; [done|]. by eapply list_elem_of_lookup_2.
Qed.

Lemma check_chars_no_panic {E} good (err : N → N → E) index s :
  no_panic (check_chars good err index s).
Proof.
  pose proof (check_chars_spec good err index s). unfold no_panic.
  by destruct (check_chars good err index s).
Qed.
#[export] Hint Resolve check_chars_no_panic : outcome.

Lemma nix_base32_char_facts c :
  is_nix_base32 c = true →
  is_ascii c ∧ is_whitespace c = false ∧ is_control c = false ∧ c ≠ 45 ∧ c ≠ 47 ∧ c ≠ 58 ∧ c ≠ 92.
Proof.
  unfold is_nix_base32. rewrite !orb_true_iff, !in_range_true. intros Hc.
  unfold is_ascii, is_whitespace, is_control. repeat split; [lia | | | lia..].
  - repeat (rewrite orb_false_iff); repeat rewrite andb_false_iff; rewrite ?N.leb_gt, ?N.eqb_neq; lia.
  - rewrite orb_false_iff, andb_false_iff, !N.leb_gt. lia.
Qed.

(** The [StoreHash] invariant: 32 Nix base32 characters. *)
Definition valid_store_hash (s : list N) : Prop :=
  length s = 32%nat ∧ Forall (λ c, is_nix_base32 c = true) s.
#[export] Instance valid_store_hash_dec s : Decision (valid_store_hash s).
Proof. unfold valid_store_hash. apply _. Defined.

Lemma nix_base32_utf8 s : Forall (λ c, is_nix_base32 c = true) s → utf8 s = s.
Proof. intros Hs. apply utf8_ascii. eapply Forall_impl; [exact Hs|]. intros c ?. by apply nix_base32_char_facts. Qed.

Lemma nix_base32_trimmed s : Forall (λ c, is_nix_base32 c = true) s → trimmed s.
Proof. intros Hs. apply trimmed_no_ws. eapply Forall_impl; [exact Hs|]. intros c ?. by apply nix_base32_char_facts. Qed.

Lemma StoreHash_parse_ok s h :
  StoreHash_parse s = Ok h ↔ StoreHash_as_str h = trim s ∧ valid_store_hash (trim s).
Proof.
  unfold StoreHash_parse, valid_store_hash, str_len. split.
  - destruct (Nat.eqb_spec (length (utf8 (trim s))) 32) as [Hl|]; simpl; [|done].
    intros Hok. inv_ok. apply check_chars_ok in Hok0.
    rewrite nix_base32_utf8 in Hl by done. done.
  - destruct h as [h]; simpl. intros (-> & Hl & Hall).
    rewrite (nix_base32_utf8 _ Hall), Hl. simpl.
    apply bind_ok. exists (). by rewrite check_chars_ok.
Qed.

Lemma StoreHash_parse_valid s : valid_store_hash s → StoreHash_parse s = Ok (mkStoreHash s).
Proof.
  intros Hv. apply StoreHash_parse_ok. simpl.
  by rewrite trimmed_eq by (apply nix_base32_trimmed, Hv).
Qed.

Lemma StoreHash_parse_no_panic s : no_panic (StoreHash_parse s).
Proof. unfold StoreHash_parse. case_match; eauto with outcome. Qed.
#[export] Hint Resolve StoreHash_parse_no_panic : outcome.

(** *** Digests *)

Lemma hexdigit_facts c :
  is_ascii_hexdigit c = true → is_ascii c ∧ is_whitespace c = false ∧
  is_lower_hex (to_ascii_lowercase_char c) = true.
Proof.
  unfold is_ascii_hexdigit, is_lower_hex, is_ascii_digit, to_ascii_lowercase_char.
  rewrite !orb_true_iff, !in_range_true. intros Hc. unfold is_ascii, is_whitespace.
  split; [lia|]. split.
  - repeat (rewrite orb_false_iff); repeat rewrite andb_false_iff; rewrite ?N.leb_gt, ?N.eqb_neq; lia.
  - destruct (in_range 65 90 c) eqn:E.
    + apply in_range_true in E. right. lia.
    + apply not_true_iff_false in E. rewrite in_range_true in E. lia.
Qed.

Lemma lower_hex_facts c :
  is_lower_hex c = true → is_ascii_hexdigit c = true ∧ to_ascii_lowercase_char c = c.
Proof.
  unfold is_ascii_hexdigit, is_lower_hex, is_ascii_digit, to_ascii_lowercase_char.
  rewrite !orb_true_iff, !in_range_true. intros Hc. split; [tauto|].
  destruct (in_range 65 90 c) eqn:E; [|done]. apply in_range_true in E. lia.
Qed.

Lemma forallb_Forall {A} (f : A → bool) l : forallb f l = true ↔ Forall (λ x, f x = true) l.
Proof. induction l as [|x l IH]; simpl; [done|]. by rewrite andb_true_iff, Forall_cons, IH. Qed.

Lemma hexdigits_utf8 s : Forall (λ c, is_ascii_hexdigit c = true) s → utf8 s = s.
Proof. intros Hs. apply utf8_ascii. eapply Forall_impl; [exact Hs|]. intros c ?. by apply hexdigit_facts. Qed.

Lemma lower_hex_hexdigits s :
  Forall (λ c, is_lower_hex c = true) s → Forall (λ c, is_ascii_hexdigit c = true) s.
Proof. intros Hs. eapply Forall_impl; [exact Hs|]. intros c ?. by apply lower_hex_facts. Qed.

Lemma to_ascii_lowercase_hex hex :
  Forall (λ c, is_ascii_hexdigit c = true) hex →
  Forall (λ c, is_lower_hex c = true) (to_ascii_lowercase hex).
Proof.
  intros Hs. unfold to_ascii_lowercase. apply Forall_fmap. eapply Forall_impl; [exact Hs|].
  intros c ?. by apply hexdigit_facts.
Qed.

Lemma to_ascii_lowercase_lower hex :
  Forall (λ c, is_lower_hex c = true) hex → to_ascii_lowercase hex = hex.
Proof.
  induction 1 as [|c hex Hc _ IH]; [done|].
  change (to_ascii_lowercase (c :: hex)) with (to_ascii_lowercase_char c :: to_ascii_lowercase hex).
  rewrite IH. f_equal. by apply lower_hex_facts.
Qed.

Lemma utf8_lit_app (l : String.string) s :
  Forall is_ascii (lit l) → utf8 (lit l ++ s) = lit l ++ utf8 s.
Proof. intros Hl. by rewrite utf8_app, utf8_ascii. Qed.

Ltac ascii_lit := repeat constructor; unfold is_ascii; simpl; lia.

Lemma is_sha256_true v :
  is_sha256 v = true ↔
  ∃ hex, v = lit "sha256:" ++ hex ∧ length hex = 64%nat ∧ Forall (λ c, is_lower_hex c = true) hex.
Proof.
  unfold is_sha256. rewrite !andb_true_iff, Nat.eqb_eq, starts_with_true, forallb_Forall.
  unfold str_len. split.
  - intros [[Hl [hex ->]] Hx]. exists hex. rewrite utf8_lit_app in Hl, Hx by ascii_lit.
    simpl in Hx. change (drop 0 ?l) with l in Hx. rewrite length_app in Hl. simpl in Hl.
    assert (Forall (λ c, is_lower_hex c = true) hex) as Hh.
    { clear Hl. revert Hx. induction hex as [|c hex IH]; [done|].
      rewrite utf8_cons, Forall_app. intros [Hc Hx]. constructor; [|auto].
      unfold utf8_char in Hc. destruct (N.ltb_spec c 0x80); [by inversion Hc|].
      exfalso. assert (∀ b, 0x80 ≤ b → is_lower_hex b = false) as Hhi.
      { intros b Hb. unfold is_lower_hex, is_ascii_digit. apply not_true_iff_false.
        rewrite orb_true_iff, !in_range_true. lia. }
      generalize dependent (c / 64). generalize dependent (c / 4096).
      generalize dependent (c / 262144). intros q1 q2 q3 Hc.
      destruct (c <? 0x800), (c <? 0x10000); inversion Hc as [|? ? Hb ?]; subst;
        rewrite Hhi in Hb by lia; done. }
    split_and!; [done| |done].
    rewrite hexdigits_utf8 in Hl by (by apply lower_hex_hexdigits). lia.
  - intros (hex & -> & Hl & Hx). rewrite utf8_lit_app by ascii_lit.
    rewrite hexdigits_utf8 by (by apply lower_hex_hexdigits).
    rewrite length_app, Hl. split_and!; [done|by exists hex|done].
Qed.

Lemma split_sha256 hex : split_once 58 (lit "sha256:" ++ hex) = Some (lit "sha256", hex).
Proof. apply split_once_Some. split; [done|]. apply (bool_decide_unpack _). vm_compute. exact I. Qed.

Lemma trimmed_sha256 hex :
  Forall (λ c, is_ascii_hexdigit c = true) hex → hex ≠ [] → trimmed (lit "sha256:" ++ hex).
Proof.
  intros Hh Hne. apply trimmed_no_ws, Forall_app. split.
  - by repeat constructor.
  - eapply Forall_impl; [exact Hh|]. intros c ?. by apply hexdigit_facts.
Qed.

Lemma NarDigest_parse_sha256 s hex :
  trim s = lit "sha256:" ++ hex → length hex = 64%nat →
  Forall (λ c, is_ascii_hexdigit c = true) hex →
  NarDigest_parse s = Ok (mkNarDigest (lit "sha256:" ++ to_ascii_lowercase hex)).
Proof.
  intros Hs Hl Hh. unfold NarDigest_parse. rewrite Hs, split_sha256.
  rewrite bool_decide_eq_true_2 by done. unfold str_len. rewrite hexdigits_utf8, Hl by done.
  simpl. rewrite (proj2 (check_chars_ok _ _ _ _ ()) Hh). done.
Qed.

Lemma NarDigest_parse_canonical v :
  is_sha256 v = true → NarDigest_parse v = Ok (mkNarDigest v).
Proof.
  intros (hex & -> & Hl & Hh)%is_sha256_true.
  rewrite (NarDigest_parse_sha256 _ hex).
  - by rewrite to_ascii_lowercase_lower.
  - apply trimmed_eq, trimmed_sha256; [by apply lower_hex_hexdigits|by destruct hex].
  - done.
  - by apply lower_hex_hexdigits.
Qed.

Lemma NarDigest_parse_is_sha256 s d :
  NarDigest_parse s = Ok d → is_sha256 (NarDigest_as_str d) = true.
Proof.
  unfold NarDigest_parse. destruct (split_once 58 (trim s)) as [[algo hex]|]; [|done].
  case_bool_decide; simpl; [|done].
  destruct (Nat.eqb_spec (str_len hex) 64) as [Hl|]; simpl; [|done].
  intros Hok. inv_ok. apply check_chars_ok in Hok0.
  unfold str_len in Hl. rewrite hexdigits_utf8 in Hl by done.
  apply is_sha256_true. exists (to_ascii_lowercase hex). simpl.
  split_and!; [done| |by apply to_ascii_lowercase_hex].
  unfold to_ascii_lowercase. by rewrite length_fmap.
Qed.

Lemma NarDigest_parse_no_panic s : no_panic (NarDigest_parse s).
Proof. unfold NarDigest_parse. repeat case_match; eauto with outcome. Qed.
#[export] Hint Resolve NarDigest_parse_no_panic : outcome.

(** *** Store paths *)

(** A name part the validators accept. *)
Definition safe_name (s : list N) : Prop :=
  s ≠ [] ∧ 47 ∉ s ∧ 92 ∉ s ∧ Forall (λ c, bad_name_char c = false) s.

Lemma is_empty_false s : is_empty s = false ↔ s ≠ [].
Proof. by destruct s. Qed.
Lemma is_empty_true s : is_empty s = true ↔ s = [].
Proof. by destruct s. Qed.

Lemma validate_store_path_basename_ok v h :
  validate_store_path_basename v = Ok h ↔
  ∃ hash nm, v = hash ++ 45 :: nm ∧ 45 ∉ hash ∧ safe_name nm ∧ StoreHash_parse hash = Ok h.
Proof.
  unfold validate_store_path_basename, safe_name. split.
  - destruct (split_once 45 v) as [[hash nm]|] eqn:E; [|done].
    apply split_once_Some in E as [-> Hn].
    destruct (is_empty nm || _ || _ || _) eqn:Hb; [done|].
    rewrite !orb_false_iff, is_empty_false, !contains_char_false, any_char_false in Hb.
    intros Hp. exists hash, nm. tauto.
  - intros (hash & nm & -> & Hn & (H1 & H2 & H3 & H4) & Hp).
    rewrite split_once_app by done.
    apply is_empty_false in H1. apply contains_char_false in H2, H3. apply any_char_false in H4.
    by rewrite H1, H2, H3, H4.
Qed.

Lemma validate_store_path_ok v h :
  validate_store_path v = Ok h ↔
  ∃ b, v = lit "/nix/store/" ++ b ∧ 47 ∉ b ∧ 92 ∉ b ∧ validate_store_path_basename b = Ok h.
Proof.
  unfold validate_store_path. split.
  - destruct (strip_prefix _ v) as [b|] eqn:E; [|done]. apply strip_prefix_Some in E as ->.
    destruct (is_empty b || _ || _) eqn:Hb; [done|].
    rewrite !orb_false_iff, !contains_char_false in Hb. intros Hp. exists b. tauto.
  - intros (b & -> & H2 & H3 & Hp).
    rewrite (proj2 (strip_prefix_Some _ _ b)) by done.
    assert (is_empty b = false) as ->.
    { apply is_empty_false. apply validate_store_path_basename_ok in Hp as (? & ? & -> & _).
      by destruct x. }
    apply contains_char_false in H2, H3. by rewrite H2, H3.
Qed.

Lemma slash_not_nix_store n : 47 ∉ n → starts_with (lit "/nix/store/") n = false.
Proof.
  intros Hn. apply not_true_iff_false. rewrite starts_with_true.
  intros [r ->]. apply Hn. simpl. set_solver.
Qed.

Lemma normalize_store_reference_ok v n :
  normalize_store_reference v = Ok n ↔
  (v = lit "/nix/store/" ++ n ∨ v = n) ∧ 47 ∉ n ∧ 92 ∉ n ∧
  ∃ h, validate_store_path_basename n = Ok h.
Proof.
  unfold normalize_store_reference. split.
  - destruct (starts_with _ v) eqn:Hs.
    + intros Hok. inv_ok. apply validate_store_path_ok in Hok0 as (b & -> & ? & ? & ?).
      apply strip_prefix_Some in Hok. apply app_inv_head in Hok as ->. eauto 6.
    + destruct (contains_char 47 v || _) eqn:Hc; [done|].
      rewrite orb_false_iff, !contains_char_false in Hc.
      intros Hok. inv_ok. naive_solver.
  - intros (Hv & H1 & H2 & h & Hh). destruct Hv as [-> | ->].
    + rewrite (proj2 (starts_with_true _ _)) by eauto.
      apply bind_ok. exists h. rewrite validate_store_path_ok, or_panic_ok, strip_prefix_Some.
      eauto 7.
    + rewrite slash_not_nix_store by done.
      rewrite (proj2 (contains_char_false 47 n)), (proj2 (contains_char_false 92 n)) by done.
      simpl. rewrite Hh. done.
Qed.

Lemma reference_hash_ok r h :
  reference_hash r = Ok h ↔
  ∃ n, normalize_store_reference r = Ok n ∧ validate_store_path_basename n = Ok h.
Proof.
  unfold reference_hash. split.
  - intros Hok. inv_ok. destruct a0 as [hash nm]. exists a. split; [done|]. inv_ok.
    apply split_once_Some in Hok1 as [-> Hn].
    apply normalize_store_reference_ok in Hok0 as (_ & _ & _ & h' & Hh').
    apply validate_store_path_basename_ok in Hh' as (hash' & nm' & Heq & Hn' & Hs & _).
    assert (Some (hash, nm) = Some (hash', nm')) as [= <- <-].
    { rewrite <-(split_once_app 45 hash nm), Heq by done. by apply split_once_app. }
    apply validate_store_path_basename_ok. exists hash, nm. done.
  - intros (n & Hn & Hh). rewrite Hn. simpl.
    apply validate_store_path_basename_ok in Hh as (hash & nm & -> & H1 & _ & Hp).
    by rewrite split_once_app.
Qed.

Lemma normalize_idemp r n :
  normalize_store_reference r = Ok n → normalize_store_reference n = Ok n.
Proof. rewrite !normalize_store_reference_ok. naive_solver. Qed.

Lemma normalize_reference_hash r n :
  normalize_store_reference r = Ok n → ∃ h, reference_hash r = Ok h.
Proof.
  intros Hn. pose proof Hn as (_ & _ & _ & h & Hh)%normalize_store_reference_ok.
  exists h. apply reference_hash_ok. eauto.
Qed.

Lemma validate_store_path_basename_no_panic v : no_panic (validate_store_path_basename v).
Proof. unfold validate_store_path_basename. repeat case_match; eauto with outcome. Qed.
#[export] Hint Resolve validate_store_path_basename_no_panic : outcome.
Lemma validate_store_path_no_panic v : no_panic (validate_store_path v).
Proof. unfold validate_store_path. repeat case_match; eauto with outcome. Qed.
#[export] Hint Resolve validate_store_path_no_panic : outcome.

(** The [expect] in [normalize_store_reference] is never reached with [None]. *)
Lemma normalize_store_reference_no_panic v : no_panic (normalize_store_reference v).
Proof.
  unfold normalize_store_reference. destruct (starts_with _ v) eqn:Hs.
  - apply no_panic_bind; [eauto with outcome|]. intros _ _.
    apply starts_with_true in Hs as [r Hr]. by rewrite (proj2 (strip_prefix_Some _ _ r)).
  - case_match; eauto with outcome.
Qed.
#[export] Hint Resolve normalize_store_reference_no_panic : outcome.
Lemma validate_nix_hash_no_panic v : no_panic (validate_nix_hash v).
Proof. unfold validate_nix_hash. repeat case_match; eauto with outcome. Qed.
#[export] Hint Resolve validate_nix_hash_no_panic : outcome.

Lemma validate_nar_basename_ok v :
  validate_nar_basename v = Ok () ↔ safe_name v ∧ contains (lit "..") v = false ∧ v ≠ lit ".".
Proof.
  unfold validate_nar_basename, safe_name. split.
  - destruct (is_empty v || _ || _ || _ || _ || _ || _) eqn:Hb; [done|].
    rewrite !orb_false_iff, is_empty_false, !contains_char_false, any_char_false,
      !bool_decide_eq_false in Hb. tauto.
  - intros ((H1 & H2 & H3 & H4) & H5 & H6).
    apply is_empty_false in H1. apply contains_char_false in H2, H3. apply any_char_false in H4.
    rewrite H1, H2, H3, H4, H5, !bool_decide_eq_false_2; [done| |done].
    intros ->. by vm_compute in H5.
Qed.

(** *** Metadata and entries *)

Lemma if_some_ok {E A} (o : option A) (f : A → outcome E unit) u :
  if_some o f = Ok u ↔ ∀ x, o = Some x → f x = Ok ().
Proof. destruct u, o; naive_solver. Qed.

Lemma some_and_false {A} (o : option A) f :
  some_and o f = false ↔ ∀ x, o = Some x → f x = false.
Proof. destruct o; naive_solver. Qed.

Lemma no_panic_if_some {E A} (o : option A) (f : A → outcome E unit) :
  (∀ x, no_panic (f x)) → no_panic (if_some o f).
Proof. destruct o; simpl; auto. by intros. Qed.
#[export] Hint Resolve no_panic_if_some : outcome.

(** What [NarInfoMeta::validate_structure] accepts, field by field. *)
Record meta_valid (m : NarInfoMeta) : Prop := {
  mv_store_path : ∃ h, validate_store_path (store_path m) = Ok h;
  mv_basename : validate_nar_basename (nar_basename m) = Ok ();
  mv_file_hash : ∀ fh, file_hash m = Some fh → fh ≠ [] ∧ validate_nix_hash fh = Ok ();
  mv_compression : compression m ≠ Some [];
  mv_ca : ca m ≠ Some [];
  mv_file_size : file_size m ≠ Some 0;
  mv_nar_hash : validate_nix_hash (nar_hash m) = Ok ();
  mv_references : Forall (λ r, ∃ n, normalize_store_reference r = Ok n) (references m);
  mv_deriver : ∀ d, deriver m = Some d →
    ∃ n, normalize_store_reference d = Ok n ∧ ends_with (lit ".drv") n = true }.

Lemma NarInfoMeta_validate_ok m u : NarInfoMeta_validate_structure m = Ok u ↔ meta_valid m.
Proof.
  destruct u. unfold NarInfoMeta_validate_structure. split.
  - intros Hok. inv_ok.
    rewrite negb_true_iff, ?bool_decide_eq_false, ?some_and_false, ?if_some_ok in *.
    split; try (by eauto).
    + intros fh Hfh. specialize (Hok2 fh Hfh). inv_ok.
      by rewrite negb_true_iff, is_empty_false in Hok8.
    + intros Hc. by specialize (Hok3 [] Hc).
    + intros Hc. by specialize (Hok4 [] Hc).
    + eapply Forall_impl; [exact Hok7|]. intros r Hr. simpl in Hr. inv_ok. eauto.
    + intros d Hd. specialize (Hok d Hd). inv_ok. eauto.
  - intros [[h Hh] Hb Hfh Hc Hca Hfs Hnh Hrefs Hd].
    rewrite Hh, Hb. simpl.
    apply bind_ok. exists (). split.
    { apply if_some_ok. intros fh Hf. destruct (Hfh fh Hf) as [Hne Hv].
      apply is_empty_false in Hne. by rewrite Hne, Hv. }
    apply bind_ok. exists (). split.
    { apply ensure_ok, negb_true_iff, some_and_false. intros x Hx.
      apply is_empty_false. congruence. }
    apply bind_ok. exists (). split.
    { apply ensure_ok, negb_true_iff, some_and_false. intros x Hx.
      apply is_empty_false. congruence. }
    apply bind_ok. exists (). split.
    { apply ensure_ok, negb_true_iff, bool_decide_eq_false. done. }
    rewrite Hnh. simpl. apply bind_ok. exists (). split.
    { apply for_each_ok. eapply Forall_impl; [exact Hrefs|]. intros r [n Hn]. simpl. by rewrite Hn. }
    apply if_some_ok. intros d Hdd. destruct (Hd d Hdd) as (n & Hn & He).
    rewrite Hn. simpl. by apply ensure_ok.
Qed.

Lemma NarInfoMeta_validate_no_panic m : no_panic (NarInfoMeta_validate_structure m).
Proof.
  unfold NarInfoMeta_validate_structure, validate_nar_basename.
  repeat (apply no_panic_bind; [first [apply no_panic_if_some; intros; eauto 8 with outcome
    | apply no_panic_for_each; intros; eauto 8 with outcome
    | repeat case_match; eauto with outcome] | intros ? _]).
  apply no_panic_if_some. eauto 8 with outcome.
Qed.
#[export] Hint Resolve NarInfoMeta_validate_no_panic : outcome.

Lemma reference_hashes_valid m :
  meta_valid m → ∃ hs, NarInfoMeta_reference_hashes m = Ok hs ∧ length hs = length (references m).
Proof.
  intros [_ _ _ _ _ _ _ Hrefs _]. unfold NarInfoMeta_reference_hashes.
  induction Hrefs as [|r rs [n Hn] _ (hs & Hhs & Hl)]; simpl; [by exists []|].
  destruct (normalize_reference_hash _ _ Hn) as [h Hh]. rewrite Hh, Hhs. simpl.
  exists (h :: hs). simpl. by rewrite Hl.
Qed.

Section entries.
Context `{Chrono}.

(** What [IndexEntry::validate_structure] accepts. *)
Record entry_valid (e : IndexEntry) : Prop := {
  ev_name : name e ≠ [];
  ev_system : ∀ s, system e = Some s → SystemArch_is_known s = true;
  ev_meta : meta_valid (narinfo_meta e);
  ev_digest : ∃ d, NarDigest_parse (NarDigest_as_str (nar_digest e)) = Ok d;
  ev_size : nar_size e ≠ 0;
  ev_added : bad_timestamp (added e) = false;
  ev_origin : ∀ o, origin e = Some o → OriginMetadata_validate_structure o = Ok () }.

Lemma IndexEntry_validate_ok e u : IndexEntry_validate_structure e = Ok u ↔ entry_valid e.
Proof.
  destruct u. unfold IndexEntry_validate_structure. split.
  - intros Hok. inv_ok.
    rewrite negb_true_iff, ?bool_decide_eq_false, ?some_and_false, ?if_some_ok in *.
    split.
    + by apply is_empty_false.
    + intros s Hs. specialize (Hok1 s Hs). by apply negb_false_iff.
    + by eapply NarInfoMeta_validate_ok.
    + eauto.
    + by apply N.eqb_neq.
    + done.
    + intros o Ho. specialize (Hok o Ho). by inv_ok.
  - intros [Hn Hs Hm [d Hd] Hz Ha Ho].
    apply bind_ok. exists (). split; [by apply ensure_ok, negb_true_iff, is_empty_false|].
    apply bind_ok. exists (). split.
    { apply ensure_ok, negb_true_iff, some_and_false. intros s Hs'. by rewrite (Hs s). }
    apply bind_ok. exists (). split; [by apply NarInfoMeta_validate_ok|].
    rewrite Hd. simpl.
    apply bind_ok. exists (). split; [by apply ensure_ok, negb_true_iff, N.eqb_neq|].
    apply bind_ok. exists (). split; [by apply ensure_ok; rewrite Ha|].
    apply if_some_ok. intros o Ho'. by rewrite (Ho o Ho').
Qed.
Lemma IndexEntry_validate_no_panic e : no_panic (IndexEntry_validate_structure e).
Proof.
  unfold IndexEntry_validate_structure.
  repeat (apply no_panic_bind; [eauto with outcome | intros ? _]).
  apply no_panic_if_some. intros o. apply no_panic_map_err.
  unfold OriginMetadata_validate_structure. repeat case_match; eauto with outcome.
Qed.
End entries.
#[export] Hint Resolve IndexEntry_validate_no_panic : outcome.

(** ** Properties *)

(** [StoreHash::parse] on every branch.  It accepts exactly the strings that
    trim to 32 Nix base32 characters, returns the trimmed text, and accepts its
    own output unchanged; a wrong byte length is reported with that length; a
    bad character is the first one, reported with its position; it never
    panics. *)
Theorem StoreHash_parse_spec (s : list N) :
  match StoreHash_parse s with
  | Ok h => StoreHash_as_str h = trim s ∧ valid_store_hash (trim s) ∧
            StoreHash_parse (StoreHash_as_str h) = Ok h
  | Err (StoreHashInvalidLength n) => n = byte_len (trim s) ∧ n ≠ 32
  | Err (StoreHashInvalidChar c i) =>
      byte_len (trim s) = 32 ∧ trim s !! N.to_nat i = Some c ∧ is_nix_base32 c = false ∧
      Forall (λ d, is_nix_base32 d = true) (take (N.to_nat i) (trim s))
  | _ => False
  end.
Proof.
  destruct (StoreHash_parse s) as [h|e|] eqn:E.
  - pose proof E as [Hs Hv]%StoreHash_parse_ok. split_and!; [done..|].
    rewrite Hs, StoreHash_parse_valid by done. by destruct h; simpl in *; subst.
  - unfold StoreHash_parse in E. revert E.
    destruct (Nat.eqb_spec (str_len (trim s)) 32) as [Hl|Hl]; simpl.
    + pose proof (check_chars_spec is_nix_base32 StoreHashInvalidChar 0 (trim s)) as Hc.
      destruct (check_chars _ _ _ _); simpl; [done| |done]. intros [= ->].
      destruct Hc as (i & c & -> & ?). rewrite N.add_0_l. split; [|done].
      unfold byte_len. by rewrite Hl.
    + intros [= <-]. split; [done|]. unfold byte_len. lia.
  - by apply StoreHash_parse_no_panic in E.
Qed.

(** [NarDigest::parse] on every branch.  It accepts exactly the strings that
    trim to ["sha256:"] and 64 hexadecimal digits of either case, lowers the
    digits, and the result is canonical: it passes [is_sha256] and parses to
    itself, so a digest is stored in one form only. *)
Theorem NarDigest_parse_spec (s : list N) :
  match NarDigest_parse s with
  | Ok d => ∃ hex, trim s = lit "sha256:" ++ hex ∧ length hex = 64%nat ∧
      Forall (λ c, is_ascii_hexdigit c = true) hex ∧
      NarDigest_as_str d = lit "sha256:" ++ to_ascii_lowercase hex ∧
      is_sha256 (NarDigest_as_str d) = true ∧ NarDigest_parse (NarDigest_as_str d) = Ok d
  | Err (NarDigestMissingPrefix raw) => raw = s ∧ 58 ∉ trim s
  | Err (NarDigestInvalidAlgorithm algo) =>
      algo ≠ lit "sha256" ∧ ∃ hex, trim s = algo ++ 58 :: hex ∧ 58 ∉ algo
  | Err (NarDigestInvalidHexLength n) =>
      ∃ hex, trim s = lit "sha256:" ++ hex ∧ n = byte_len hex ∧ n ≠ 64
  | Err (NarDigestInvalidHexChar c i) =>
      ∃ hex, trim s = lit "sha256:" ++ hex ∧ byte_len hex = 64 ∧
        hex !! N.to_nat i = Some c ∧ is_ascii_hexdigit c = false ∧
        Forall (λ d, is_ascii_hexdigit d = true) (take (N.to_nat i) hex)
  | _ => False
  end.
Proof.
  unfold NarDigest_parse at 1. destruct (split_once 58 (trim s)) as [[algo hex]|] eqn:E.
  2: { split; [done|]. by apply split_once_None. }
  apply split_once_Some in E as [Hs Hn]. case_bool_decide as Ha; simpl; [|by eauto].
  subst algo. destruct (Nat.eqb_spec (str_len hex) 64) as [Hl|Hl]; simpl.
  2: { exists hex. unfold byte_len. split_and!; [done..|lia]. }
  pose proof (check_chars_spec is_ascii_hexdigit NarDigestInvalidHexChar 0 hex) as Hc.
  destruct (check_chars _ _ _ _) as [[]|e|]; simpl; [| |done].
  - unfold str_len in Hl. rewrite hexdigits_utf8 in Hl by done.
    assert (NarDigest_parse s = Ok (mkNarDigest (lit "sha256:" ++ to_ascii_lowercase hex)))
      as Hp by (by apply NarDigest_parse_sha256).
    apply NarDigest_parse_is_sha256 in Hp. exists hex.
    split_and!; [done..|]. by apply NarDigest_parse_canonical in Hp.
  - destruct Hc as (i & c & -> & ?). rewrite N.add_0_l. exists hex. split; [done|].
    split; [|done]. unfold byte_len. by rewrite Hl.
Qed.

(** the two external names of an architecture are faithful: for every known
    [SystemArch], reading back its Nix string and reading back its OCI platform
    tuple give the architecture itself, [parse_strict] accepts the Nix string,
    and no two known architectures share a platform tuple. *)
Theorem SystemArch_names_roundtrip (a : SystemArch) (Ha : SystemArch_is_known a = true) :
  SystemArch_from (SystemArch_as_str a) = a ∧
  SystemArch_parse_strict (SystemArch_as_str a) = Ok a ∧
  (let '(os, arch, variant) := SystemArch_to_oci_platform_tuple a in
   SystemArch_from_oci os arch variant = a) ∧
  ∀ b, SystemArch_is_known b = true →
    SystemArch_to_oci_platform_tuple a = SystemArch_to_oci_platform_tuple b → a = b.
Proof.
  split; [|split; [|split]].
  - destruct a; first [by vm_compute | done].
  - destruct a; first [by vm_compute | done].
  - destruct a; first [by vm_compute | done].
  - intros b Hb. destruct a, b; simpl; first [done | intros; exfalso; discriminate].
Qed.

Lemma SystemArch_names_roundtrip_witness :
  SystemArch_from_oci (lit "linux") (lit "arm") (Some (lit "v7")) = Armv7lLinux.
Proof. exact (proj1 (proj2 (proj2 (SystemArch_names_roundtrip Armv7lLinux eq_refl)))). Defined.

(** an entry that passes [IndexEntry::validate_structure] can be used by the
    index and the query engine: its store hash is defined and is a valid hash,
    every reference has a hash ([reference_hashes] succeeds with one hash per
    reference), its digest parses, and validation itself never panics. *)
Theorem IndexEntry_validated_usable `{Chrono} (e : IndexEntry)
    (He : IndexEntry_validate_structure e = Ok ()) :
  (∃ h, IndexEntry_store_hash e = Some h ∧ valid_store_hash (StoreHash_as_str h)) ∧
  (∃ hs, NarInfoMeta_reference_hashes (narinfo_meta e) = Ok hs ∧
     length hs = length (references (narinfo_meta e)) ∧
     Forall (λ h, valid_store_hash (StoreHash_as_str h)) hs) ∧
  (∃ d, NarDigest_parse (NarDigest_as_str (nar_digest e)) = Ok d) ∧ nar_size e ≠ 0.
Proof.
  apply IndexEntry_validate_ok in He as [_ _ Hm Hd Hz _ _]. split; [|split; [|done]].
  - destruct Hm as [[h Hh] _ _ _ _ _ _ _ _]. exists h.
    unfold IndexEntry_store_hash, NarInfoMeta_store_hash. rewrite Hh. split; [done|].
    apply validate_store_path_ok in Hh as (? & _ & _ & _ & Hb).
    apply validate_store_path_basename_ok in Hb as (? & ? & _ & _ & _ & [-> ?]%StoreHash_parse_ok).
    done.
  - destruct (reference_hashes_valid _ Hm) as (hs & Hhs & Hl). exists hs. split_and!; [done..|].
    apply collect_m_ok in Hhs. clear Hl. induction Hhs as [|r h rs hs Hr _ IH]; constructor; [|done].
    apply reference_hash_ok in Hr as (n & _ & Hb).
    apply validate_store_path_basename_ok in Hb as (? & ? & _ & _ & _ & [-> ?]%StoreHash_parse_ok).
    done.
Qed.

(** Sample values shared by the witnesses: a clock that reads timestamps of the
    form [2026-08-DDT...Z] as day [DD], and entries like those of the tests. *)
Definition sample_chrono : Chrono := {|
  parse_from_rfc3339 := λ s,
    match strip_prefix (lit "2026-08-") s with
    | Some (d1 :: d2 :: 84 :: _) =>
        if is_ascii_digit d1 && is_ascii_digit d2
        then Some (Z.of_N ((d1 - 48) * 10 + (d2 - 48))) else None
    | _ => None
    end;
  to_rfc3339 := λ z, lit "2026-08-" ++ show_N (Z.to_N z) ++ lit "T00:00:00+00:00";
  to_rfc3339_secs := λ z, lit "2026-08-" ++ show_N (Z.to_N z) ++ lit "T00:00:00Z" |}.

Definition sample_hash : list N := lit "s66mzxpvicwk07gjbjfw9izjfa797vsw".
Definition sample_entry (hash : list N) (refs : list (list N)) (day : list N) : IndexEntry := {|
  name := lit "pkg";
  system := Some X86_64Linux;
  narinfo_meta := {|
    store_path := lit "/nix/store/" ++ hash ++ lit "-pkg";
    nar_basename := lit "pkg.nar.xz";
    compression := Some (lit "xz"); file_hash := None; file_size := None;
    nar_hash := lit "sha256:0d1b50428e2194f481ad1cf387f3b8908861cf12674e1d743a6d9627fb2e2ff0";
    references := (λ r, r ++ lit "-dep") <$> refs;
    deriver := None; signatures := []; ca := None |};
  nar_digest := mkNarDigest
    (lit "sha256:0d1b50428e2194f481ad1cf387f3b8908861cf12674e1d743a6d9627fb2e2ff0");
  nar_size := 100;
  added := lit "2026-08-" ++ day ++ lit "T00:00:00Z";
  origin := None |}.

Lemma IndexEntry_validated_usable_witness :
  ∃ h, IndexEntry_store_hash (sample_entry sample_hash [sample_hash] (lit "29")) = Some h ∧
    valid_store_hash (StoreHash_as_str h).
Proof.
  apply (@IndexEntry_validated_usable sample_chrono).
  vm_compute. reflexivity.
Defined.
