(* ===== verification/Sharding.v ===== *)
(** * Sharding: shard ids, the canonical encoder and the shard Merkle tree
    (crates/nixcache-core/src/sharding.rs)

    SHA-256 (the [sha2] crate) is the interface [Sha2]: a function from bytes to
    bytes.  The tree, the encoder and the digest text are the program's own.
    The parts of the file about shard descriptors are in [Index]. *)

From S2P Require Import Prelude Machine Str Error Types.

Local Open Scope N_scope.

(** The [sha2] crate, and what it documents of its output. *)
Class Sha2 := { sha256 : list N → list N }.
Class Sha2Ok `{Sha2} := {
  sha256_length : ∀ m, length (sha256 m) = 32%nat;
  sha256_bytes : ∀ m, Forall is_byte (sha256 m) }.

(** ** Nix base32 and shard ids *)

Definition NIX_BASE32_ALPHABET : list N := lit "0123456789abcdfghijklmnpqrsvwxyz".

Definition nix_base32_val (byte : N) : outcome TypeError N :=
  if in_range 48 57 byte then Ok (byte - 48)
  else if in_range 97 100 byte then Ok (byte - 97 + 10)
  else if in_range 102 110 byte then Ok (byte - 102 + 14)
  else if in_range 112 115 byte then Ok (byte - 112 + 23)
  else if in_range 118 122 byte then Ok (byte - 118 + 27)
  else Err (StoreHashInvalidChar byte 0).

Definition nix_base32_char (val : N) : outcome TypeError N :=
  match NIX_BASE32_ALPHABET !! N.to_nat val with
  | Some b => Ok b
  | None => Err (StoreHashInvalidChar val 0)
  end.

(** [nix_base32_val(b).unwrap_or(0)]. *)
Definition base32_or_zero (b : N) : N :=
  match nix_base32_val b with Ok v => v | _ => 0 end.

(** [calculate_shard_id]; [None] is the panic of [bytes[0]] or [bytes[1]] on a
    hash of fewer than two bytes (only [new_unchecked] can build one). *)
Definition calculate_shard_id (hash : StoreHash) : option N :=
  match utf8 (StoreHash_as_str hash) with
  | b0 :: b1 :: _ => Some (N.lor (N.shiftl (base32_or_zero b0) 5) (base32_or_zero b1))
  | _ => None
  end.

Definition calculate_shard_id_from_str (s : list N) : outcome TypeError N :=
  let bytes := utf8 (trim s) in
  match bytes with
  | b0 :: b1 :: _ =>
      c0 ← nix_base32_val b0;
      c1 ← nix_base32_val b1;
      Ok (N.lor (N.shiftl c0 5) c1)
  | _ => Err (StoreHashInvalidLength (usize_len bytes))
  end.

(** [shard_id_to_prefix_bytes]: the two 5-bit digits index the 32-byte alphabet,
    so the indexing never fails and the default is never used. *)
Definition shard_id_to_prefix_bytes (shard_id : N) : list N :=
  let c0 := N.land (N.shiftr shard_id 5) 0x1F in
  let c1 := N.land shard_id 0x1F in
  [nth (N.to_nat c0) NIX_BASE32_ALPHABET 0; nth (N.to_nat c1) NIX_BASE32_ALPHABET 0].
Definition shard_id_to_prefix (shard_id : N) : list N := shard_id_to_prefix_bytes shard_id.

(** [partitioned.entry(id).or_default().insert(hash, entry)]. *)
Definition insert_in_shard {V} (m : gmap N (gmap StoreHash V)) (id : N) (h : StoreHash) (v : V)
    : gmap N (gmap StoreHash V) :=
  <[id := <[h := v]> (default ∅ (m !! id))]> m.

Definition partition_entries_by_shard `{HashIter} (entries : gmap StoreHash IndexEntry)
    : outcome CoreError (gmap N (gmap StoreHash IndexEntry)) :=
  fold_m (λ m '(h, e), id ← or_panic (calculate_shard_id h); Ok (insert_in_shard m id h e))
    ∅ (hash_iter entries).

Definition partition_hashes_by_shard (hashes : list StoreHash)
    : outcome CoreError (gmap N (list StoreHash)) :=
  fold_m (λ m h, id ← or_panic (calculate_shard_id h);
                 Ok (<[id := default [] (m !! id) ++ [h]]> m)) ∅ hashes.

(** ** The canonical encoder: each method appends to the buffer *)

Definition enc_u8 (v : N) : list N := [v].
Definition enc_u16 (v : N) : list N := be_bytes 2 v.
Definition enc_u64 (v : N) : list N := be_bytes 8 v.
Definition enc_bytes (v : list N) : list N := enc_u64 (usize_len v) ++ v.
Definition enc_string (v : list N) : list N := enc_bytes (utf8 v).
Definition enc_digest (v : list N) : list N := v.
Definition enc_option {A} (enc : A → list N) (v : option A) : list N :=
  match v with Some v => enc_u8 1 ++ enc v | None => enc_u8 0 end.
Definition enc_option_digest := enc_option enc_digest.
Definition enc_option_string := enc_option enc_string.
Definition enc_option_u64 := enc_option enc_u64.
Definition enc_string_vec (vs : list (list N)) : list N :=
  enc_u64 (usize_len vs) ++ (vs ≫= enc_string).

Arguments enc_u16 : simpl never.
Arguments enc_u64 : simpl never.
Arguments enc_bytes : simpl never.
Arguments enc_string : simpl never.
Arguments enc_option : simpl never.
Arguments enc_string_vec : simpl never.

Definition ENTRY_LEAF_DOMAIN := lit "nixcache/merkle/v8/entry-leaf".
Definition SHARD_NODE_DOMAIN := lit "nixcache/merkle/v8/shard-node".
Definition SHARD_ROOT_DOMAIN := lit "nixcache/merkle/v8/shard-root".
Definition DESCRIPTOR_LEAF_DOMAIN := lit "nixcache/merkle/v8/descriptor-leaf".
Definition ROOT_NODE_DOMAIN := lit "nixcache/merkle/v8/root-node".
Definition ROOT_ROOT_DOMAIN := lit "nixcache/merkle/v8/root-root".
Definition EMPTY_SUBTREE_DOMAIN := lit "nixcache/merkle/v8/empty-subtree".

(** ** Digests *)

(** [hex_value]; [None] is the [unreachable!] panic. *)
Definition hex_value (byte : N) : option N :=
  if in_range 48 57 byte then Some (byte - 48)
  else if in_range 97 102 byte then Some (byte - 97 + 10)
  else None.

(** [(hex_value(a) << 4) | hex_value(b)] on [u8]. *)
Definition hex_byte (a b : N) : option N :=
  x ← hex_value a; y ← hex_value b; Some (N.lor (N.shiftl x 4 mod 256) y).

(** The decoding loop, two digits a byte. *)
Fixpoint hex_decode (hex : list N) : option (list N) :=
  match hex with
  | a :: b :: hex => x ← hex_byte a b; xs ← hex_decode hex; Some (x :: xs)
  | _ => Some []
  end.

Definition canonical_digest_bytes (value field : list N) : outcome CoreError (list N) :=
  parsed ← map_err (λ e, InvalidCanonicalDigest field (display_type_error e))
             (NarDigest_parse value);
  if negb (bool_decide (NarDigest_as_str parsed = value))
  then Err (InvalidCanonicalDigest field
              (lit "digest must use the canonical lowercase sha256 form"))
  else or_panic (hex_decode (drop 7 (utf8 value))).

(** [{byte:02x}]. *)
Definition hex_digit (v : N) : N := if v <? 10 then 48 + v else 87 + v.
Definition hex_of_byte (b : N) : list N := [hex_digit (b / 16); hex_digit (b mod 16)].
Definition format_digest (digest : list N) : list N :=
  lit "sha256:" ++ (digest ≫= hex_of_byte).

#[export] Instance StoreHash_le_dec : RelDecision StoreHash_le.
Proof. unfold StoreHash_le. intros a b. apply _. Defined.

(** [hash.shard_id() != shard_id] and the other identity checks of an entry. *)
Definition validate_shard_id (shard_id : N) : outcome CoreError unit :=
  if shard_id <? N.of_nat NUM_SHARDS then Ok tt
  else Err (InvalidMerkle (lit "shard id " ++ show_N shard_id ++ lit " is out of range")).

Definition validate_entry_identity `{Chrono} (hash : StoreHash) (entry : IndexEntry)
    (shard_id : N) : outcome CoreError unit :=
  let hash_str := StoreHash_as_str hash in
  _ ← map_err (λ error, InvalidEntry (lit "map key " ++ hash_str
                 ++ lit " is not canonical: " ++ display_type_error error))
        (StoreHash_parse hash_str);
  _ ← IndexEntry_validate_structure entry;
  id ← or_panic (calculate_shard_id hash);
  _ ← ensure (id =? shard_id)
        (InvalidMerkle (lit "entry " ++ hash_str ++ lit " belongs to another shard"));
  ensure (bool_decide (IndexEntry_store_hash entry = Some hash))
    (InvalidMerkle (lit "entry " ++ hash_str ++ lit " StorePath does not match map key")).

Section merkle.
Context `{Sha2}.

(** [hash_with_encoder]: the domain string, then what the closure appends. *)
Definition domain_message (domain payload : list N) : list N := enc_string domain ++ payload.
Definition hash_with_encoder (domain payload : list N) : list N :=
  sha256 (domain_message domain payload).

(** The bytes appended for one entry, in the order of [entry_leaf_hash]. *)
Definition enc_origin (o : option OriginMetadata) : list N :=
  match o with
  | Some o => enc_u8 1 ++ enc_option_u64 (run_id o) ++ enc_option_string (job_id o)
  | None => enc_u8 0
  end.
Definition enc_meta (m : NarInfoMeta) : list N :=
  enc_string (store_path m) ++ enc_string (nar_basename m)
  ++ enc_option_string (compression m) ++ enc_option_string (file_hash m)
  ++ enc_option_u64 (file_size m) ++ enc_string (nar_hash m)
  ++ enc_string_vec (references m) ++ enc_option_string (deriver m)
  ++ enc_string_vec (signatures m) ++ enc_option_string (ca m).
Definition enc_entry (hash : StoreHash) (entry : IndexEntry) (digest : list N) : list N :=
  enc_bytes (utf8 (StoreHash_as_str hash))
  ++ enc_string (name entry)
  ++ enc_option_string (SystemArch_as_str <$> system entry)
  ++ enc_meta (narinfo_meta entry)
  ++ enc_digest digest
  ++ enc_u64 (nar_size entry)
  ++ enc_string (added entry)
  ++ enc_origin (origin entry).

Definition entry_leaf_hash (hash : StoreHash) (entry : IndexEntry)
    : outcome CoreError (list N) :=
  digest ← canonical_digest_bytes (NarDigest_as_str (nar_digest entry)) (lit "entry nar_digest");
  Ok (hash_with_encoder ENTRY_LEAF_DOMAIN (enc_entry hash entry digest)).

(** One round of the [while] loop of [layered_root]: [chunks(2)] of the level,
    each hashed with the level number and its arity. *)
Definition node_payload (level_number arity : N) (children : list N) : list N :=
  enc_u64 level_number ++ enc_u8 arity ++ children.
Fixpoint next_level (node_domain : list N) (level_number : N) (level : list (list N))
    : list (list N) :=
  match level with
  | l :: r :: rest =>
      hash_with_encoder node_domain (node_payload level_number 2 (l ++ r))
      :: next_level node_domain level_number rest
  | [l] => [hash_with_encoder node_domain (node_payload level_number 1 l)]
  | [] => []
  end.

(** [while level.len() > 1 { ... } level[0]]; the fuel bounds the rounds. *)
Fixpoint layered_loop (fuel : nat) (node_domain : list N) (level_number : N)
    (level : list (list N)) : list N :=
  match fuel, level with
  | S fuel, _ :: _ :: _ =>
      layered_loop fuel node_domain (level_number + 1)
        (next_level node_domain level_number level)
  | _, x :: _ => x
  | _, [] => []
  end.
Definition layered_root (leaves : list (list N)) (node_domain : list N) : list N :=
  match leaves with
  | [] => hash_with_encoder EMPTY_SUBTREE_DOMAIN (enc_u64 0 ++ enc_u8 0)
  | [leaf] => leaf
  | _ => layered_loop (length leaves) node_domain 1 leaves
  end.

Context `{Chrono} `{HashIter}.

Definition entry_leaf (shard_id : N) (entries : gmap StoreHash IndexEntry) (hash : StoreHash)
    : outcome CoreError (list N) :=
  entry ← or_panic (entries !! hash);
  _ ← validate_entry_identity hash entry shard_id;
  entry_leaf_hash hash entry.

Definition shard_root_payload (shard_id count : N) (subtree_root : list N) : list N :=
  enc_u16 shard_id ++ enc_bytes (shard_id_to_prefix_bytes shard_id) ++ enc_u64 count
  ++ enc_digest subtree_root.

Definition compute_shard_root_bytes (shard_id : N) (entries : gmap StoreHash IndexEntry)
    : outcome CoreError (list N) :=
  _ ← validate_shard_id shard_id;
  let sorted_hashes := merge_sort StoreHash_le (map_keys entries) in
  leaves ← collect_m (entry_leaf shard_id entries) sorted_hashes;
  let subtree_root := layered_root leaves SHARD_NODE_DOMAIN in
  Ok (hash_with_encoder SHARD_ROOT_DOMAIN
        (shard_root_payload shard_id (N.of_nat (size entries)) subtree_root)).

Definition compute_shard_merkle_hash (shard_id : N) (entries : gmap StoreHash IndexEntry)
    : outcome CoreError (list N) :=
  root ← compute_shard_root_bytes shard_id entries;
  Ok (format_digest root).
End merkle.

(** ** Facts: base32 *)

Lemma base32_val_range c v : nix_base32_val c = Ok v → v < 32 ∧ is_nix_base32 c = true.
Proof.
  unfold nix_base32_val, is_nix_base32.
  destruct (in_range 48 57 c) eqn:E1; [apply in_range_true in E1; intros [= <-]; split; [lia|done]|].
  destruct (in_range 97 100 c) eqn:E2; [apply in_range_true in E2; intros [= <-]; split; [lia|done]|].
  destruct (in_range 102 110 c) eqn:E3; [apply in_range_true in E3; intros [= <-]; split; [lia|done]|].
  destruct (in_range 112 115 c) eqn:E4; [apply in_range_true in E4; intros [= <-]; split; [lia|done]|].
  destruct (in_range 118 122 c) eqn:E5; [apply in_range_true in E5; intros [= <-]; split; [lia|done]|].
  done.
Qed.

(** Exhaustive checks over a range of small numbers. *)
Lemma N_below_forall (n : nat) (P : N → bool) :
  forallb P (N.of_nat <$> seq 0 n) = true → ∀ v, v < N.of_nat n → P v = true.
Proof.
  rewrite forallb_Forall, Forall_fmap, Forall_forall. intros Hall v Hv.
  specialize (Hall (N.to_nat v)). simpl in Hall. rewrite N2Nat.id in Hall.
  apply Hall, elem_of_seq. lia.
Qed.

Lemma base32_char_val v : v < 32 →
  ∃ c, nix_base32_char v = Ok c ∧ nix_base32_val c = Ok v ∧
       nth (N.to_nat v) NIX_BASE32_ALPHABET 0 = c.
Proof.
  intros Hv.
  assert (Hc : bool_decide (nix_base32_char v = Ok (nth (N.to_nat v) NIX_BASE32_ALPHABET 0) ∧
    nix_base32_val (nth (N.to_nat v) NIX_BASE32_ALPHABET 0) = Ok v) = true).
  { revert v Hv. apply (N_below_forall 32). vm_compute. reflexivity. }
  apply bool_decide_eq_true in Hc as [??]. eauto.
Qed.

Lemma base32_val_char c v :
  nix_base32_val c = Ok v → nth (N.to_nat v) NIX_BASE32_ALPHABET 0 = c.
Proof.
  intros Hv. destruct (base32_val_range _ _ Hv) as [_ Hc].
  apply nix_base32_char_facts in Hc as [Hc _]. unfold is_ascii in Hc.
  assert (Hb : implb (bool_decide (nix_base32_val c = Ok (base32_or_zero c)))
    (nth (N.to_nat (base32_or_zero c)) NIX_BASE32_ALPHABET 0 =? c) = true).
  { clear Hv. revert c Hc. apply (N_below_forall 128). vm_compute. reflexivity. }
  unfold base32_or_zero in Hb. rewrite Hv, bool_decide_eq_true_2 in Hb by done.
  by apply N.eqb_eq.
Qed.

Lemma base32_val_ok c : is_nix_base32 c = true → nix_base32_val c = Ok (base32_or_zero c).
Proof.
  intros Hc. pose proof Hc as [Ha _]%nix_base32_char_facts. unfold is_ascii in Ha.
  assert (Hb : implb (is_nix_base32 c)
    (bool_decide (nix_base32_val c = Ok (base32_or_zero c))) = true).
  { clear Hc. revert c Ha. apply (N_below_forall 128). vm_compute. reflexivity. }
  rewrite Hc in Hb. simpl in Hb. by apply bool_decide_eq_true in Hb.
Qed.

Lemma shard_id_digits v0 v1 : v0 < 32 → v1 < 32 →
  let id := N.lor (N.shiftl v0 5) v1 in
  id < 1024 ∧ N.land (N.shiftr id 5) 0x1F = v0 ∧ N.land id 0x1F = v1.
Proof.
  intros H0 H1.
  assert (Hb : forallb (λ v1, let id := N.lor (N.shiftl v0 5) v1 in
    (id <? 1024) && (N.land (N.shiftr id 5) 0x1F =? v0) && (N.land id 0x1F =? v1))
    (N.of_nat <$> seq 0 32) = true).
  { clear H1. revert v0 H0. apply (N_below_forall 32). vm_compute. reflexivity. }
  pose proof (N_below_forall 32 _ Hb v1 H1) as Hv. cbv beta zeta in Hv |- *.
  rewrite !andb_true_iff, N.ltb_lt, !N.eqb_eq in Hv. tauto.
Qed.

(** A valid hash has a shard, the shard of its first two characters. *)
Lemma calculate_shard_id_valid h : valid_store_hash (StoreHash_as_str h) →
  ∃ id, calculate_shard_id h = Some id ∧ id < 1024 ∧
        shard_id_to_prefix id = take 2 (StoreHash_as_str h) ∧
        calculate_shard_id_from_str (StoreHash_as_str h) = Ok id.
Proof.
  intros [Hl Hall]. unfold calculate_shard_id, calculate_shard_id_from_str.
  rewrite trimmed_eq by (by apply nix_base32_trimmed).
  rewrite nix_base32_utf8 by done.
  destruct (StoreHash_as_str h) as [|b0 [|b1 r]]; [done..|].
  inversion Hall as [|? ? Hb0 Hall']; subst. inversion Hall' as [|? ? Hb1 _]; subst.
  apply base32_val_ok in Hb0, Hb1.
  destruct (base32_val_range _ _ Hb0) as [Hr0 _], (base32_val_range _ _ Hb1) as [Hr1 _].
  destruct (shard_id_digits _ _ Hr0 Hr1) as (Hlt & Hd0 & Hd1).
  eexists. split; [done|]. split; [done|]. split.
  - unfold shard_id_to_prefix, shard_id_to_prefix_bytes. rewrite Hd0, Hd1.
    rewrite (base32_val_char b0), (base32_val_char b1) by done. done.
  - rewrite Hb0, Hb1. done.
Qed.

(** *** Partitioning *)

(** [P] holds the bindings of [M], one non-empty bucket for each shard. *)
Definition partitions {V} (P : gmap N (gmap StoreHash V)) (M : gmap StoreHash V) : Prop :=
  ∀ id, P !! id =
    let bucket := filter (λ '(h, _), calculate_shard_id h = Some id) M in
    if decide (bucket = ∅) then None else Some bucket.

Lemma insert_in_shard_partitions {V} (P : gmap N (gmap StoreHash V)) M id h v :
  partitions P M → calculate_shard_id h = Some id →
  partitions (insert_in_shard P id h v) (<[h := v]> M).
Proof.
  intros HP Hid id'. unfold insert_in_shard. destruct (decide (id = id')) as [<-|Hne].
  - rewrite lookup_insert_eq, (HP id).
    rewrite map_filter_insert_True by done. cbv zeta.
    set (B := filter _ M).
    rewrite (decide_False (P := <[h:=v]> B = ∅)) by apply insert_non_empty.
    do 2 f_equal. case_decide as He; simpl; [by rewrite He | done].
  - rewrite lookup_insert_ne by done. rewrite (HP id'). cbv zeta.
    replace (filter _ (<[h:=v]> M)) with
      (filter (λ '(h, _), calculate_shard_id h = Some id') M); [done|].
    apply map_eq. intros h'. apply option_eq. intros v'.
    rewrite !map_lookup_filter_Some. destruct (decide (h = h')) as [<-|].
    + rewrite Hid. split; intros [_ [= Hc]]; by destruct Hne.
    + by rewrite lookup_insert_ne.
Qed.

Lemma partition_fold `{HashIter} l (P : gmap N (gmap StoreHash IndexEntry)) M :
  partitions P M → Forall (λ '(h, _), is_Some (calculate_shard_id h)) l →
  ∃ P', fold_m (λ m '(h, e), id ← or_panic (calculate_shard_id h);
                             Ok (insert_in_shard m id h e)) P l = @Ok CoreError _ P' ∧
    partitions P' (foldl (λ m '(h, e), <[h := e]> m) M l).
Proof.
  revert P M. induction l as [|[h e] l IH]; intros P M HP Hl; simpl; [by exists P|].
  apply Forall_cons in Hl as [[id Hid] Hl']. rewrite Hid. simpl.
  apply IH; [|done]. by apply insert_in_shard_partitions.
Qed.

Lemma foldl_insert_iter `{HashIter} {V} (m : gmap StoreHash V) :
  foldl (λ m '(h, e), <[h := e]> m) ∅ (hash_iter m) = m.
Proof.
  assert (Hf : ∀ l : list (StoreHash * V),
    foldl (λ (m : gmap StoreHash V) '(h, e), <[h := e]> m) ∅ l = list_to_map (reverse l)).
  { intros l. rewrite <-(reverse_involutive l) at 1.
    generalize (reverse l). clear. intros l.
    induction l as [|[h e] l IH]; [done|].
    rewrite reverse_cons, foldl_app. simpl. by rewrite IH. }
  rewrite Hf. rewrite <-(list_to_map_hash_iter m) at 2. apply list_to_map_proper.
  - rewrite fmap_reverse, reverse_Permutation. apply NoDup_fst_hash_iter.
  - by rewrite reverse_Permutation.
Qed.

(** *** Hexadecimal *)

Lemma hex_value_digit a : is_lower_hex a = true →
  ∃ x, x < 16 ∧ hex_value a = Some x ∧ hex_digit x = a.
Proof.
  unfold is_lower_hex, is_ascii_digit, hex_value, hex_digit.
  destruct (in_range 48 57 a) eqn:E1; simpl.
  - intros _. apply in_range_true in E1. exists (a - 48). split; [lia|]. split; [done|].
    destruct (N.ltb_spec (a - 48) 10); lia.
  - intros E2. rewrite E2. apply in_range_true in E2. exists (a - 97 + 10).
    split; [lia|]. split; [done|]. destruct (N.ltb_spec (a - 97 + 10) 10); lia.
Qed.

Lemma hex_digit_lower x : x < 16 → is_lower_hex (hex_digit x) = true ∧ hex_value (hex_digit x) = Some x.
Proof.
  intros Hx. assert (Hb : is_lower_hex (hex_digit x) && bool_decide (hex_value (hex_digit x) = Some x) = true).
  { revert x Hx. apply (N_below_forall 16). vm_compute. reflexivity. }
  apply andb_true_iff in Hb as [? Hb]. by apply bool_decide_eq_true in Hb.
Qed.

Lemma nibbles x y : x < 16 → y < 16 →
  let b := N.lor (N.shiftl x 4 mod 256) y in b < 256 ∧ b / 16 = x ∧ b mod 16 = y.
Proof.
  intros Hx Hy.
  assert (Hb : forallb (λ y, let b := N.lor (N.shiftl x 4 mod 256) y in
    (b <? 256) && (b / 16 =? x) && (b mod 16 =? y)) (N.of_nat <$> seq 0 16) = true).
  { clear Hy. revert x Hx. apply (N_below_forall 16). vm_compute. reflexivity. }
  pose proof (N_below_forall 16 _ Hb y Hy) as Hv. cbv beta zeta in Hv |- *.
  rewrite !andb_true_iff, N.ltb_lt, !N.eqb_eq in Hv. tauto.
Qed.

Lemma hex_decode_spec n hex : length hex = (n * 2)%nat →
  Forall (λ c, is_lower_hex c = true) hex →
  ∃ bs, hex_decode hex = Some bs ∧ length bs = n ∧ Forall is_byte bs ∧ bs ≫= hex_of_byte = hex.
Proof.
  revert hex. induction n as [|n IH]; intros hex Hl Hh.
  { destruct hex; [|done]. exists []. done. }
  destruct hex as [|a [|b hex]]; [done..|]. simpl in Hl.
  inversion Hh as [|? ? Ha Hh']; subst. inversion Hh' as [|? ? Hb Hh'']; subst.
  destruct (IH hex) as (bs & Hd & Hbl & Hby & Hx); [lia|done|].
  destruct (hex_value_digit a Ha) as (x & Hx1 & Hx2 & Hx3).
  destruct (hex_value_digit b Hb) as (y & Hy1 & Hy2 & Hy3).
  destruct (nibbles x y Hx1 Hy1) as (Hlt & Hdiv & Hmod).
  cbn [hex_decode]. unfold hex_byte. rewrite Hx2, Hy2, Hd. cbn [mbind option_bind].
  eexists. split; [done|]. simpl length. rewrite Hbl. split; [done|].
  split; [by constructor|]. rewrite bind_cons, Hx.
  unfold hex_of_byte. by rewrite Hdiv, Hmod, Hx3, Hy3.
Qed.

Lemma hex_of_byte_lower b : is_byte b → Forall (λ c, is_lower_hex c = true) (hex_of_byte b).
Proof.
  unfold is_byte. intros Hb. unfold hex_of_byte.
  assert (b / 16 < 16) by (apply N.Div0.div_lt_upper_bound; lia).
  assert (b mod 16 < 16) by (by apply N.mod_lt).
  constructor; [by apply hex_digit_lower|]. constructor; [by apply hex_digit_lower|done].
Qed.

Lemma hex_of_byte_inj b1 b2 : is_byte b1 → is_byte b2 → hex_of_byte b1 = hex_of_byte b2 → b1 = b2.
Proof.
  intros H1 H2 [= Hd Hm].
  assert (∀ x y, x < 16 → y < 16 → hex_digit x = hex_digit y → x = y) as Hinj.
  { intros x y Hx Hy Heq. apply hex_digit_lower in Hx as [_ Hx], Hy as [_ Hy]. congruence. }
  unfold is_byte in *.
  apply Hinj in Hd; [|apply N.Div0.div_lt_upper_bound; lia..].
  apply Hinj in Hm; [|by apply N.mod_lt..].
  rewrite (N.div_mod b1 16), (N.div_mod b2 16) by done. by rewrite Hd, Hm.
Qed.

Lemma hex_bytes_length bs : length (bs ≫= hex_of_byte) = (length bs * 2)%nat.
Proof. induction bs as [|b bs IH]; [done|]. rewrite bind_cons, length_app, IH. simpl. lia. Qed.

Lemma hex_bytes_lower bs :
  Forall is_byte bs → Forall (λ c, is_lower_hex c = true) (bs ≫= hex_of_byte).
Proof.
  induction 1 as [|b bs Hb _ IH]; [done|]. rewrite bind_cons, Forall_app.
  split; [by apply hex_of_byte_lower|done].
Qed.

Lemma hex_bytes_inj bs1 bs2 : Forall is_byte bs1 → Forall is_byte bs2 →
  bs1 ≫= hex_of_byte = bs2 ≫= hex_of_byte → bs1 = bs2.
Proof.
  intros H1. revert bs2. induction H1 as [|b bs Hb _ IH]; intros [|c cs] H2; try done.
  rewrite !bind_cons. apply Forall_cons in H2 as [Hc H2].
  intros Heq. apply app_inj_1 in Heq as [Heq1 Heq2]; [|done].
  apply hex_of_byte_inj in Heq1; [|done..]. f_equal; auto.
Qed.

(** A 32-byte digest and its text correspond. *)
Definition digest_bytes (d : list N) : Prop := length d = 32%nat ∧ Forall is_byte d.

Lemma format_digest_canonical d : digest_bytes d → is_sha256 (format_digest d) = true.
Proof.
  intros [Hl Hb]. apply is_sha256_true. exists (d ≫= hex_of_byte).
  split; [done|]. split; [by rewrite hex_bytes_length, Hl | by apply hex_bytes_lower].
Qed.

Lemma format_digest_inj d1 d2 :
  digest_bytes d1 → digest_bytes d2 → format_digest d1 = format_digest d2 → d1 = d2.
Proof. intros [_ H1] [_ H2] Heq%app_inv_head. by apply hex_bytes_inj. Qed.

Lemma canonical_digest_bytes_ok v f d :
  canonical_digest_bytes v f = Ok d ↔ v = format_digest d ∧ digest_bytes d.
Proof.
  unfold canonical_digest_bytes. split.
  - intros Hok. inv_ok. case_bool_decide as Heq; simpl in Hok; [|done]. inv_ok.
    apply NarDigest_parse_is_sha256 in Hok0. rewrite Heq in Hok0.
    apply is_sha256_true in Hok0 as (hex & -> & Hl & Hh).
    rewrite utf8_lit_app in Hok by ascii_lit.
    rewrite hexdigits_utf8 in Hok by (by apply lower_hex_hexdigits).
    destruct (hex_decode_spec 32 hex) as (bs & Hd & Hbl & Hby & Hx); [done..|].
    change (drop 7 (lit "sha256:" ++ hex)) with hex in Hok.
    rewrite Hd in Hok. injection Hok as ->. unfold format_digest. by rewrite Hx.
  - intros [-> Hd]. pose proof (format_digest_canonical d Hd) as Hc.
    rewrite (NarDigest_parse_canonical _ Hc). cbn [map_err mbind outcome_bind NarDigest_as_str].
    rewrite bool_decide_eq_true_2 by done. cbn [negb]. destruct Hd as [Hl Hb].
    unfold format_digest. rewrite utf8_lit_app by ascii_lit.
    rewrite hexdigits_utf8 by (by apply lower_hex_hexdigits, hex_bytes_lower).
    change (drop 7 (lit "sha256:" ++ ?x)) with x.
    destruct (hex_decode_spec 32 (d ≫= hex_of_byte)) as (bs & Hd' & _ & Hby & Hx).
    { by rewrite hex_bytes_length, Hl. } { by apply hex_bytes_lower. }
    rewrite Hd'. apply hex_bytes_inj in Hx; [|done..]. by rewrite Hx.
Qed.

Lemma canonical_digest_bytes_sha256 v f :
  is_sha256 v = true → ∃ d, canonical_digest_bytes v f = Ok d.
Proof.
  intros (hex & -> & Hl & Hh)%is_sha256_true.
  destruct (hex_decode_spec 32 hex) as (bs & _ & Hbl & Hby & Hx); [done..|].
  exists bs. apply canonical_digest_bytes_ok. split; [|done].
  unfold format_digest. by rewrite Hx.
Qed.

(** The [unreachable!] of [hex_value] is unreachable. *)
Lemma canonical_digest_bytes_no_panic v f : no_panic (canonical_digest_bytes v f).
Proof.
  destruct (canonical_digest_bytes v f) eqn:E; try done. exfalso.
  unfold canonical_digest_bytes in E.
  destruct (NarDigest_parse v) as [d|e|] eqn:Hp; simpl in E; [|done|by apply NarDigest_parse_no_panic in Hp].
  case_bool_decide as Heq; simpl in E; [|done].
  apply NarDigest_parse_is_sha256 in Hp. rewrite Heq in Hp.
  apply is_sha256_true in Hp as (hex & -> & Hl & Hh).
  rewrite utf8_lit_app in E by ascii_lit.
  rewrite hexdigits_utf8 in E by (by apply lower_hex_hexdigits).
  change (drop 7 (lit "sha256:" ++ hex)) with hex in E.
  destruct (hex_decode_spec 32 hex) as (bs & Hd & _); [done..|]. by rewrite Hd in E.
Qed.
#[export] Hint Resolve canonical_digest_bytes_no_panic : outcome.

(** *** The canonical encoding is injective

    Each encoder method is self-delimiting: from an encoding followed by
    anything, the value and the rest are determined.  [P] is what the Rust type
    bounds (a [u64] below [2^64], a length that fits a [u64]). *)
Class SelfDelimiting {A} (P : A → Prop) (enc : A → list N) : Prop :=
  self_delimiting : ∀ a b ra rb, P a → P b → enc a ++ ra = enc b ++ rb → a = b ∧ ra = rb.

Definition is_u64 (v : N) : Prop := v < u64_bound.
Definition bytes_rep (v : list N) : Prop := usize_len v < u64_bound.
Definition str_rep (s : list N) : Prop := byte_len s < u64_bound.
Definition opt_rep {A} (P : A → Prop) (o : option A) : Prop :=
  match o with Some x => P x | None => True end.
Definition vec_rep (vs : list (list N)) : Prop := usize_len vs < u64_bound ∧ Forall str_rep vs.

#[export] Instance enc_u8_sd : SelfDelimiting (λ _, True) enc_u8.
Proof. intros a b ra rb _ _ [= -> ->]. done. Qed.
#[export] Instance enc_u16_sd : SelfDelimiting (λ v, v < u16_bound) enc_u16.
Proof.
  intros a b ra rb Ha Hb Heq. apply app_inj_1 in Heq as [Heq ->].
  - by apply be_bytes_inj in Heq.
  - unfold enc_u16. by rewrite !be_bytes_length.
Qed.
#[export] Instance enc_u64_sd : SelfDelimiting is_u64 enc_u64.
Proof.
  intros a b ra rb Ha Hb Heq. apply app_inj_1 in Heq as [Heq ->].
  - by apply be_bytes_inj in Heq.
  - unfold enc_u64. by rewrite !be_bytes_length.
Qed.
#[export] Instance enc_digest_sd : SelfDelimiting (λ d, length d = 32%nat) enc_digest.
Proof. intros a b ra rb Ha Hb Heq. unfold enc_digest in Heq. apply app_inj_1 in Heq; [done|congruence]. Qed.
#[export] Instance enc_bytes_sd : SelfDelimiting bytes_rep enc_bytes.
Proof.
  intros a b ra rb Ha Hb Heq. unfold enc_bytes in Heq. rewrite <-!app_assoc in Heq.
  apply (self_delimiting (P := is_u64)) in Heq as [Hl Heq]; [|done..].
  apply app_inj_1 in Heq; [done|]. unfold usize_len in Hl. lia.
Qed.
#[export] Instance enc_string_sd : SelfDelimiting str_rep enc_string.
Proof.
  intros a b ra rb Ha Hb Heq. unfold enc_string in Heq.
  apply (self_delimiting (P := bytes_rep) (enc := enc_bytes)) in Heq as [Heq ->]; [|assumption..].
  by apply (inj utf8) in Heq.
Qed.
#[export] Instance enc_option_sd {A} (P : A → Prop) enc :
  SelfDelimiting P enc → SelfDelimiting (opt_rep P) (enc_option enc).
Proof.
  intros Hsd [a|] [b|] ra rb Ha Hb; unfold enc_option; simpl; intros [= Heq]; [|done].
  apply Hsd in Heq as [-> ->]; done.
Qed.
#[export] Instance enc_string_vec_sd : SelfDelimiting vec_rep enc_string_vec.
Proof.
  intros a b ra rb [Hla Ha] [Hlb Hb] Heq. unfold enc_string_vec in Heq.
  rewrite <-!app_assoc in Heq.
  apply (self_delimiting (P := is_u64)) in Heq as [Hl Heq]; [|done..].
  unfold usize_len in Hl. apply Nat2N.inj in Hl. clear Hla Hlb.
  revert b Hl Hb Heq. induction Ha as [|x a Hx _ IH]; intros [|y b] Hl Hb Heq; try done.
  rewrite !bind_cons, <-!app_assoc in Heq. apply Forall_cons in Hb as [Hy Hb].
  apply (self_delimiting (P := str_rep)) in Heq as [-> Heq]; [|done..].
  apply IH in Heq as [-> ->]; naive_solver.
Qed.

(** What the Rust types bound in metadata, origins and entries. *)
Record meta_rep (m : NarInfoMeta) : Prop := {
  mr_store_path : str_rep (store_path m);
  mr_basename : str_rep (nar_basename m);
  mr_compression : opt_rep str_rep (compression m);
  mr_file_hash : opt_rep str_rep (file_hash m);
  mr_file_size : opt_rep is_u64 (file_size m);
  mr_nar_hash : str_rep (nar_hash m);
  mr_references : vec_rep (references m);
  mr_deriver : opt_rep str_rep (deriver m);
  mr_signatures : vec_rep (signatures m);
  mr_ca : opt_rep str_rep (ca m) }.
Definition origin_rep (o : OriginMetadata) : Prop :=
  opt_rep is_u64 (run_id o) ∧ opt_rep str_rep (job_id o).
Record entry_rep (e : IndexEntry) : Prop := {
  er_name : str_rep (name e);
  er_meta : meta_rep (narinfo_meta e);
  er_size : is_u64 (nar_size e);
  er_added : str_rep (added e);
  er_origin : opt_rep origin_rep (origin e) }.

(** Peels one self-delimiting encoder off both sides of the hypothesis [H]. *)
Ltac peel H :=
  rewrite <-?app_assoc in H;
  let E := fresh "E" in
  lazymatch type of H with
  | ?e _ ++ _ = _ => apply (self_delimiting (enc := e)) in H as [E H]; [|done..]
  end.

#[export] Instance enc_meta_sd : SelfDelimiting meta_rep enc_meta.
Proof.
  intros m1 m2 ra rb [] [] Heq. unfold enc_meta in Heq.
  do 10 peel Heq. split; [|done]. destruct m1, m2; simpl in *; congruence.
Qed.
#[export] Instance enc_origin_sd : SelfDelimiting (opt_rep origin_rep) enc_origin.
Proof.
  intros [[r1 j1]|] [[r2 j2]|] ra rb Ha Hb Heq; cbn [enc_origin run_id job_id] in *; try done.
  - destruct Ha as [??], Hb as [??]. cbn [run_id job_id] in *.
    do 3 peel Heq. by simplify_eq.
  - by injection Heq as ->.
Qed.

Lemma SystemArch_as_str_inj a b : SystemArch_as_str a = SystemArch_as_str b → a = b.
Proof. destruct a, b; first [done | intros Heq; exfalso; by apply (bool_decide_unpack _) in Heq || discriminate Heq]. Qed.

Lemma enc_entry_inj h1 e1 d1 h2 e2 d2 :
  str_rep (StoreHash_as_str h1) → str_rep (StoreHash_as_str h2) →
  entry_rep e1 → entry_rep e2 → length d1 = 32%nat → length d2 = 32%nat →
  NarDigest_as_str (nar_digest e1) = format_digest d1 →
  NarDigest_as_str (nar_digest e2) = format_digest d2 →
  enc_entry h1 e1 d1 = enc_entry h2 e2 d2 → h1 = h2 ∧ e1 = e2.
Proof.
  intros Hh1 Hh2 [] [] Hd1 Hd2 Hn1 Hn2 Heq. unfold enc_entry in Heq.
  assert (∀ s, opt_rep str_rep (SystemArch_as_str <$> s)) as Hsys by (by intros [[]|]).
  pose proof (Hsys (system e1)) as Hsys1. pose proof (Hsys (system e2)) as Hsys2.
  apply (self_delimiting (P := bytes_rep) (enc := enc_bytes)) in Heq as [Eh Heq]; [|done..].
  peel Heq. peel Heq.
  apply (self_delimiting (enc := enc_meta)) in Heq as [Em Heq]; [|done..].
  peel Heq. peel Heq. peel Heq.
  assert (origin e1 = origin e2) as Eo.
  { apply (f_equal (λ l, l ++ [])) in Heq.
    by apply (self_delimiting (enc := enc_origin)) in Heq as [? _]. }
  apply (inj utf8) in Eh. split; [destruct h1, h2; simpl in *; congruence|].
  assert (system e1 = system e2) as Es.
  { destruct (system e1), (system e2); simpl in E0; try done.
    injection E0 as E0. by apply SystemArch_as_str_inj in E0 as ->. }
  unfold enc_digest in *. destruct e1 as [? ? ? [] ? ? ?], e2 as [? ? ? [] ? ? ?].
  simpl in *. congruence.
Qed.

(** ** Collision freedom and the Merkle tree

    SHA-256 has collisions, so binding is relative: no two distinct messages
    among those actually hashed have the same digest.  The [*_messages]
    functions list the messages a computation hashes. *)
Section binding.
Context `{Sha2}.

Definition collision_free (ms : list (list N)) : Prop :=
  ∀ x y, x ∈ ms → y ∈ ms → sha256 x = sha256 y → x = y.

Lemma collision_free_subseteq ms ms' : collision_free ms → ms' ⊆ ms → collision_free ms'.
Proof. intros Hc Hs x y Hx Hy. apply Hc; by apply Hs. Qed.

(** Two distinct messages of the list with the same hash. *)
Definition collides (ms : list (list N)) : Prop :=
  ∃ x y, x ∈ ms ∧ y ∈ ms ∧ x ≠ y ∧ sha256 x = sha256 y.

Lemma collision_free_or_collides ms : collision_free ms ∨ collides ms.
Proof.
  destruct (decide (Exists (λ x, Exists (λ y, x ≠ y ∧ sha256 x = sha256 y) ms) ms)) as [Hc|Hc].
  - right. apply Exists_exists in Hc as (x & Hx & (y & Hy & ? & ?)%Exists_exists).
    by exists x, y.
  - left. intros x y Hx Hy Heq. destruct (decide (x = y)) as [|Hne]; [done|].
    destruct Hc. apply Exists_exists. exists x. split; [done|]. apply Exists_exists. by exists y.
Qed.

Fixpoint level_messages (dom : list N) (n : N) (level : list (list N)) : list (list N) :=
  match level with
  | l :: r :: rest => domain_message dom (node_payload n 2 (l ++ r)) :: level_messages dom n rest
  | [l] => [domain_message dom (node_payload n 1 l)]
  | [] => []
  end.
Fixpoint loop_messages (fuel : nat) (dom : list N) (n : N) (level : list (list N))
    : list (list N) :=
  match fuel, level with
  | S fuel, _ :: _ :: _ =>
      level_messages dom n level ++ loop_messages fuel dom (n + 1) (next_level dom n level)
  | _, _ => []
  end.
Definition layered_messages (leaves : list (list N)) (dom : list N) : list (list N) :=
  match leaves with
  | [] => [domain_message EMPTY_SUBTREE_DOMAIN (enc_u64 0 ++ enc_u8 0)]
  | [_] => []
  | _ => loop_messages (length leaves) dom 1 leaves
  end.

(** Induction two elements at a time. *)
Lemma pair_list_ind {A} (P : list A → Prop) :
  P [] → (∀ x, P [x]) → (∀ x y l, P l → P (x :: y :: l)) → ∀ l, P l.
Proof.
  intros H0 H1 H2 l. assert (P l ∧ ∀ x, P (x :: l)) as [? _]; [|done].
  induction l as [|y l [IH1 IH2]]; split; auto.
Qed.

Lemma next_level_length dom n level :
  length (next_level dom n level) = Nat.div2 (S (length level)).
Proof.
  induction level as [|x|x y level IH] using pair_list_ind; [done..|].
  simpl. rewrite IH. done.
Qed.

Lemma next_level_shrinks dom n x y level :
  (1 ≤ length (next_level dom n (x :: y :: level)) < length (x :: y :: level))%nat.
Proof.
  rewrite next_level_length. simpl length. rewrite Nat.div2_div.
  pose proof (Nat.div_mod_eq (S (S (S (length level)))) 2).
  pose proof (Nat.mod_upper_bound (S (S (S (length level)))) 2). lia.
Qed.

(** The fuel [length leaves] is enough: more fuel changes nothing. *)
Lemma layered_loop_fuel fuel fuel' dom n level :
  (length level ≤ fuel)%nat → (length level ≤ fuel')%nat →
  layered_loop fuel dom n level = layered_loop fuel' dom n level.
Proof.
  revert fuel' n level. induction fuel as [|fuel IH]; intros fuel' n level Hf Hf'.
  { destruct level; [|simpl in *; lia]. by destruct fuel'. }
  destruct level as [|x [|y level]]; [by destruct fuel'..|].
  destruct fuel' as [|fuel']; [simpl in *; lia|]. cbn [layered_loop].
  pose proof (next_level_shrinks dom n x y level). apply IH; lia.
Qed.

(** The loop runs until one node is left: the root is a level of length one. *)
Lemma layered_loop_step fuel dom n x y level :
  (length (x :: y :: level) ≤ fuel)%nat →
  layered_loop fuel dom n (x :: y :: level) =
  layered_loop fuel dom (n + 1) (next_level dom n (x :: y :: level)).
Proof.
  intros Hf. destruct fuel as [|fuel]; [simpl in Hf; lia|]. cbn [layered_loop].
  pose proof (next_level_shrinks dom n x y level).
  apply (layered_loop_fuel fuel (S fuel)); lia.
Qed.

Lemma next_level_inj dom n l1 l2 :
  length l1 = length l2 → Forall (λ d, length d = 32%nat) l1 → Forall (λ d, length d = 32%nat) l2 →
  collision_free (level_messages dom n l1 ++ level_messages dom n l2) →
  next_level dom n l1 = next_level dom n l2 → l1 = l2.
Proof.
  revert l2. induction l1 as [|x|x y l1 IH] using pair_list_ind; intros l2 Hl H1 H2 Hc Heq.
  - by destruct l2.
  - destruct l2 as [|x' [|? ?]]; try done. simpl in *. injection Heq as Heq.
    apply Hc in Heq; [|set_solver..]. by apply app_inv_head, app_inv_head, app_inv_head in Heq as ->.
  - destruct l2 as [|x' [|y' l2]]; try done. cbn [next_level level_messages] in *.
    injection Heq as Hh Heq. apply Hc in Hh; [|set_solver..].
    apply app_inv_head, app_inv_head, app_inv_head in Hh.
    rewrite !Forall_cons in H1, H2. destruct H1 as (Hx & Hy & H1), H2 as (Hx' & Hy' & H2).
    apply app_inj_1 in Hh as [-> ->]; [|congruence]. do 2 f_equal.
    apply IH; [naive_solver|done|done| |done].
    eapply collision_free_subseteq; [exact Hc|]. set_solver.
Qed.
End binding.

Section binding_ok.
Context `{Sha2Ok}.

Lemma sha256_digest_bytes m : digest_bytes (sha256 m).
Proof. split; [apply sha256_length | apply sha256_bytes]. Qed.

Lemma next_level_digests dom n level :
  Forall (λ d, length d = 32%nat) (next_level dom n level).
Proof.
  induction level as [|x|x y level IH] using pair_list_ind; simpl; [constructor| |].
  - constructor; [apply sha256_length|constructor].
  - constructor; [apply sha256_length|done].
Qed.

Lemma layered_loop_inj fuel dom n l1 l2 :
  (length l1 ≤ fuel)%nat → length l1 = length l2 → l1 ≠ [] →
  Forall (λ d, length d = 32%nat) l1 → Forall (λ d, length d = 32%nat) l2 →
  collision_free (loop_messages fuel dom n l1 ++ loop_messages fuel dom n l2) →
  layered_loop fuel dom n l1 = layered_loop fuel dom n l2 → l1 = l2.
Proof.
  revert n l1 l2. induction fuel as [|fuel IH]; intros n l1 l2 Hf Hl Hne H1 H2 Hc Heq.
  { destruct l1; [done|simpl in Hf; lia]. }
  destruct l1 as [|x [|y l1]], l2 as [|x' [|y' l2]]; try done.
  { simpl in Heq. by subst. }
  cbn [layered_loop loop_messages] in Heq, Hc.
  pose proof (next_level_shrinks dom n x y l1) as Hs.
  apply (next_level_inj dom n); [done..| |].
  - eapply collision_free_subseteq; [exact Hc|]. set_solver.
  - apply (IH (n + 1)); [lia| | |apply next_level_digests..| |done].
    + rewrite !next_level_length. by rewrite Hl.
    + intros Hn. rewrite Hn in Hs. simpl in Hs. lia.
    + eapply collision_free_subseteq; [exact Hc|]. set_solver.
Qed.

Lemma layered_root_inj dom l1 l2 :
  length l1 = length l2 →
  Forall (λ d, length d = 32%nat) l1 → Forall (λ d, length d = 32%nat) l2 →
  collision_free (layered_messages l1 dom ++ layered_messages l2 dom) →
  layered_root l1 dom = layered_root l2 dom → l1 = l2.
Proof.
  intros Hl H1 H2 Hc Heq. destruct l1 as [|x [|y l1]], l2 as [|x' [|y' l2]]; try done.
  { simpl in Heq. by subst. }
  unfold layered_root, layered_messages in Heq, Hc. rewrite <-Hl in Heq, Hc.
  by apply (layered_loop_inj _ _ _ _ _) in Heq; [..|exact Hc].
Qed.

Lemma layered_root_digest dom ls :
  Forall (λ d, length d = 32%nat) ls → length (layered_root ls dom) = 32%nat.
Proof.
  intros Hd. unfold layered_root. destruct ls as [|x [|y ls]].
  - apply sha256_length.
  - by inversion Hd.
  - assert (∀ fuel n level, level ≠ [] → Forall (λ d, length d = 32%nat) level →
      length (layered_loop fuel dom n level) = 32%nat) as Hloop; [|by apply Hloop].
    clear Hd x y ls. intros fuel. induction fuel as [|fuel IH]; intros n level Hne Hd.
    + destruct level; [done|]. by inversion Hd.
    + destruct level as [|x [|y level]]; [done|by inversion Hd|]. cbn [layered_loop].
      apply IH; [|apply next_level_digests]. cbn [next_level]. done.
Qed.
End binding_ok.

(** *** The shard root *)
Section shard_root.
Context `{Sha2} `{Chrono} `{HashIter}.

#[global] Instance StoreHash_le_total : Total StoreHash_le.
Proof. intros a b. unfold StoreHash_le. apply (total str_le). Qed.
#[global] Instance StoreHash_le_trans : Transitive StoreHash_le.
Proof. intros a b c. unfold StoreHash_le. apply (transitivity (R := str_le)). Qed.
#[global] Instance StoreHash_le_antisymm : AntiSymm (=) StoreHash_le.
Proof.
  intros [a] [b]. unfold StoreHash_le. simpl. intros Hab Hba.
  f_equal. by apply (anti_symm str_le).
Qed.

Definition sorted_keys (entries : gmap StoreHash IndexEntry) : list StoreHash :=
  merge_sort StoreHash_le (map_keys entries).

Lemma elem_of_sorted_keys entries h : h ∈ sorted_keys entries ↔ is_Some (entries !! h).
Proof. unfold sorted_keys. by rewrite elem_of_merge_sort, elem_of_map_keys. Qed.

Lemma sorted_keys_length entries : length (sorted_keys entries) = size entries.
Proof.
  unfold sorted_keys, map_keys. by rewrite merge_sort_Permutation, length_fmap, hash_iter_length.
Qed.

Definition digest_of (entry : IndexEntry) : list N :=
  match canonical_digest_bytes (NarDigest_as_str (nar_digest entry)) (lit "entry nar_digest") with
  | Ok d => d
  | _ => []
  end.
Definition entry_message (hash : StoreHash) (entry : IndexEntry) : list N :=
  domain_message ENTRY_LEAF_DOMAIN (enc_entry hash entry (digest_of entry)).
Definition key_message (entries : gmap StoreHash IndexEntry) (hash : StoreHash) : list N :=
  match entries !! hash with Some e => entry_message hash e | None => [] end.
Definition shard_leaves (entries : gmap StoreHash IndexEntry) : list (list N) :=
  (λ h, sha256 (key_message entries h)) <$> sorted_keys entries.
Definition root_message (shard_id : N) (entries : gmap StoreHash IndexEntry) : list N :=
  domain_message SHARD_ROOT_DOMAIN
    (shard_root_payload shard_id (N.of_nat (size entries))
      (layered_root (shard_leaves entries) SHARD_NODE_DOMAIN)).
(** Every message [compute_shard_root_bytes] hashes. *)
Definition shard_messages (shard_id : N) (entries : gmap StoreHash IndexEntry)
    : list (list N) :=
  (key_message entries <$> sorted_keys entries)
  ++ layered_messages (shard_leaves entries) SHARD_NODE_DOMAIN
  ++ [root_message shard_id entries].

(** The entry belongs under its key, in its shard, and is well formed. *)
Definition identity_ok (shard_id : N) (hash : StoreHash) (entry : IndexEntry) : Prop :=
  entry_valid entry ∧ calculate_shard_id hash = Some shard_id ∧
  IndexEntry_store_hash entry = Some hash ∧ is_sha256 (NarDigest_as_str (nar_digest entry)) = true.

Lemma store_hash_valid entry hash :
  IndexEntry_store_hash entry = Some hash → valid_store_hash (StoreHash_as_str hash).
Proof.
  unfold IndexEntry_store_hash, NarInfoMeta_store_hash. rewrite ok_some.
  intros (? & _ & _ & _ & Hb)%validate_store_path_ok.
  by apply validate_store_path_basename_ok in Hb as (? & ? & _ & _ & _ & [-> ?]%StoreHash_parse_ok).
Qed.

Lemma validate_entry_identity_ok hash entry shard_id u :
  validate_entry_identity hash entry shard_id = Ok u ↔
  entry_valid entry ∧ calculate_shard_id hash = Some shard_id ∧
  IndexEntry_store_hash entry = Some hash.
Proof.
  destruct u. unfold validate_entry_identity. split.
  - intros Hok. inv_ok. apply IndexEntry_validate_ok in Hok1.
    apply N.eqb_eq in Hok3 as ->. by apply bool_decide_eq_true in Hok.
  - intros (He & Hid & Hs). pose proof (store_hash_valid _ _ Hs) as Hv.
    rewrite (StoreHash_parse_valid _ Hv). cbn [map_err mbind outcome_bind].
    rewrite (proj2 (IndexEntry_validate_ok entry ()) He), Hid.
    cbn [mbind outcome_bind or_panic]. rewrite N.eqb_refl, bool_decide_eq_true_2 by done. done.
Qed.

Lemma entry_leaf_ok shard_id entries hash leaf :
  entry_leaf shard_id entries hash = Ok leaf ↔
  ∃ e, entries !! hash = Some e ∧ identity_ok shard_id hash e ∧
       leaf = sha256 (entry_message hash e).
Proof.
  unfold entry_leaf, entry_leaf_hash, identity_ok, entry_message, digest_of. split.
  - intros Hok. inv_ok. exists a. split; [done|].
    apply validate_entry_identity_ok in Hok1. rewrite Hok2. split; [|done].
    apply canonical_digest_bytes_ok in Hok2 as [Heq Hd].
    rewrite Heq. pose proof (format_digest_canonical _ Hd). tauto.
  - intros (e & He & (Hv & Hid & Hs & Hd) & ->). rewrite He. simpl.
    rewrite (proj2 (validate_entry_identity_ok hash e shard_id ())) by done.
    destruct (canonical_digest_bytes_sha256 _ (lit "entry nar_digest") Hd) as [d Hd'].
    rewrite Hd'. done.
Qed.

Lemma collect_leaves_ok shard_id entries leaves :
  collect_m (entry_leaf shard_id entries) (sorted_keys entries) = Ok leaves ↔
  map_Forall (identity_ok shard_id) entries ∧ leaves = shard_leaves entries.
Proof.
  rewrite collect_m_ok. unfold shard_leaves. split.
  - intros Hf. split.
    + intros h e He. assert (h ∈ sorted_keys entries) as Hin by (apply elem_of_sorted_keys; eauto).
      apply list_elem_of_lookup in Hin as [i Hi].
      destruct (Forall2_lookup_l _ _ _ _ _ Hf Hi) as (leaf & _ & (e' & He' & Hid & _)%entry_leaf_ok).
      congruence.
    + induction Hf as [|h leaf hs ls Hh _ IH]; [done|]. simpl.
      apply entry_leaf_ok in Hh as (e & He & _ & ->).
      rewrite IH. unfold key_message. by rewrite He.
  - intros [Hall ->]. assert (∀ h, h ∈ sorted_keys entries → is_Some (entries !! h)) as Hk
      by (intros h; apply elem_of_sorted_keys).
    revert Hk. generalize (sorted_keys entries). intros ks Hk.
    induction ks as [|h ks IH]; simpl; constructor.
    + destruct (Hk h) as [e He]; [set_solver|]. apply entry_leaf_ok. exists e.
      split; [done|]. split; [by apply Hall|]. unfold key_message. by rewrite He.
    + apply IH. set_solver.
Qed.

Lemma compute_shard_root_bytes_ok shard_id entries root :
  compute_shard_root_bytes shard_id entries = Ok root ↔
  shard_id < 1024 ∧ map_Forall (identity_ok shard_id) entries ∧
  root = sha256 (root_message shard_id entries).
Proof.
  unfold compute_shard_root_bytes, validate_shard_id. fold (sorted_keys entries).
  change (N.of_nat NUM_SHARDS) with 1024. split.
  - destruct (N.ltb_spec shard_id 1024); [|done]. intros Hok. inv_ok.
    match goal with Hc : collect_m _ _ = Ok _ |- _ => apply collect_leaves_ok in Hc as [? ->] end.
    done.
  - intros (Hid & Hall & ->). destruct (N.ltb_spec shard_id 1024); [|lia].
    cbn [mbind outcome_bind].
    rewrite (proj2 (collect_leaves_ok shard_id entries _) (conj Hall eq_refl)). done.
Qed.

Lemma compute_shard_merkle_hash_ok shard_id entries v :
  compute_shard_merkle_hash shard_id entries = Ok v ↔
  shard_id < 1024 ∧ map_Forall (identity_ok shard_id) entries ∧
  v = format_digest (sha256 (root_message shard_id entries)).
Proof.
  unfold compute_shard_merkle_hash. split.
  - intros Hok. inv_ok. by apply compute_shard_root_bytes_ok in Hok0 as (? & ? & ->).
  - intros (? & ? & ->). apply bind_ok. eexists.
    by rewrite compute_shard_root_bytes_ok.
Qed.
End shard_root.

Section shard_binding.
Context `{Sha2Ok} `{Chrono} `{HashIter}.

Lemma shard_leaves_digests entries : Forall (λ d, length d = 32%nat) (shard_leaves entries).
Proof. unfold shard_leaves. apply Forall_fmap, Forall_true. intros. apply sha256_length. Qed.

Lemma root_message_inj id1 id2 entries1 entries2 :
  id1 < 1024 → id2 < 1024 →
  N.of_nat (size entries1) < u64_bound → N.of_nat (size entries2) < u64_bound →
  root_message id1 entries1 = root_message id2 entries2 →
  id1 = id2 ∧ size entries1 = size entries2 ∧
  layered_root (shard_leaves entries1) SHARD_NODE_DOMAIN =
  layered_root (shard_leaves entries2) SHARD_NODE_DOMAIN.
Proof.
  intros Hid1 Hid2 Hs1 Hs2 Heq%app_inv_head. unfold shard_root_payload in Heq.
  apply (self_delimiting (enc := enc_u16)) in Heq as [-> Heq];
    [|unfold u16_bound; simpl; lia..].
  peel Heq. peel Heq. unfold enc_digest in Heq. split_and!; [done|lia|done].
Qed.

Lemma entry_message_inj id h1 e1 h2 e2 :
  identity_ok id h1 e1 → identity_ok id h2 e2 → entry_rep e1 → entry_rep e2 →
  entry_message h1 e1 = entry_message h2 e2 → h1 = h2 ∧ e1 = e2.
Proof.
  intros (_ & _ & Hs1 & Hd1) (_ & _ & Hs2 & Hd2) Hr1 Hr2 Heq%app_inv_head.
  unfold digest_of in Heq.
  destruct (canonical_digest_bytes_sha256 _ (lit "entry nar_digest") Hd1) as [d1 Hc1].
  destruct (canonical_digest_bytes_sha256 _ (lit "entry nar_digest") Hd2) as [d2 Hc2].
  rewrite Hc1, Hc2 in Heq.
  apply canonical_digest_bytes_ok in Hc1 as [Hn1 [Hl1 _]], Hc2 as [Hn2 [Hl2 _]].
  assert (∀ h, valid_store_hash (StoreHash_as_str h) → str_rep (StoreHash_as_str h)) as Hrep.
  { intros h [Hl Hall]. unfold str_rep, byte_len, str_len. by rewrite nix_base32_utf8, Hl. }
  apply store_hash_valid in Hs1, Hs2.
  by apply enc_entry_inj in Heq; auto.
Qed.

Lemma key_messages_inj id entries1 entries2 :
  map_Forall (identity_ok id) entries1 → map_Forall (identity_ok id) entries2 →
  map_Forall (λ _, entry_rep) entries1 → map_Forall (λ _, entry_rep) entries2 →
  key_message entries1 <$> sorted_keys entries1 = key_message entries2 <$> sorted_keys entries2 →
  entries1 = entries2.
Proof.
  intros Hi1 Hi2 Hr1 Hr2 Heq.
  assert (∀ (f g : gmap StoreHash IndexEntry) h e, map_Forall (identity_ok id) f →
    map_Forall (identity_ok id) g → map_Forall (λ _, entry_rep) f →
    map_Forall (λ _, entry_rep) g →
    key_message f <$> sorted_keys f = key_message g <$> sorted_keys g →
    f !! h = Some e → g !! h = Some e) as Hsub.
  { clear. intros f g h e Hif Hig Hrf Hrg Heq Hh.
    assert (key_message f h ∈ key_message g <$> sorted_keys g) as Hin.
    { rewrite <-Heq. apply list_elem_of_fmap_2, elem_of_sorted_keys. eauto. }
    apply list_elem_of_fmap in Hin as (h' & Hm & [e' He']%elem_of_sorted_keys).
    unfold key_message in Hm. rewrite Hh, He' in Hm.
    apply (entry_message_inj id) in Hm as [-> ->];
      [done | by apply Hif | by apply Hig | by eapply Hrf | by eapply Hrg]. }
  apply map_eq. intros h. apply option_eq. intros e. split; by eapply Hsub.
Qed.

(** Equal shard hashes come from equal shards, or from a collision. *)
Lemma shard_merkle_hash_inj id1 id2 (entries1 entries2 : gmap StoreHash IndexEntry) v
    (Hc1 : compute_shard_merkle_hash id1 entries1 = Ok v)
    (Hc2 : compute_shard_merkle_hash id2 entries2 = Ok v)
    (Hr1 : map_Forall (λ _, entry_rep) entries1) (Hr2 : map_Forall (λ _, entry_rep) entries2)
    (Hs1 : N.of_nat (size entries1) < u64_bound) (Hs2 : N.of_nat (size entries2) < u64_bound)
    (Hcf : collision_free (shard_messages id1 entries1 ++ shard_messages id2 entries2)) :
  id1 = id2 ∧ entries1 = entries2.
Proof.
  apply compute_shard_merkle_hash_ok in Hc1 as (Hid1 & Hi1 & ->), Hc2 as (Hid2 & Hi2 & Hv).
  apply format_digest_inj in Hv; [|apply sha256_digest_bytes..].
  unfold shard_messages in Hcf. apply Hcf in Hv; [|set_solver..].
  apply root_message_inj in Hv as (-> & Hsize & Hroot); [|done..]. split; [done|].
  apply layered_root_inj in Hroot; [|..|eapply collision_free_subseteq; [exact Hcf|set_solver]].
  - apply (key_messages_inj id2); [done..|]. unfold shard_leaves in Hroot.
    assert (Hinj : ∀ f g : gmap StoreHash IndexEntry, ∀ ks ls,
      collision_free ((key_message f <$> ks) ++ (key_message g <$> ls)) →
      (λ h, sha256 (key_message f h)) <$> ks = (λ h, sha256 (key_message g h)) <$> ls →
      key_message f <$> ks = key_message g <$> ls).
    { clear. intros f g ks. induction ks as [|k ks IH]; intros [|l ls] Hc; try done.
      simpl. intros [= Hh Heq]. f_equal; [apply Hc; [set_solver..|done]|].
      apply IH; [|done]. eapply collision_free_subseteq; [exact Hc|]. set_solver. }
    apply Hinj; [|done]. eapply collision_free_subseteq; [exact Hcf|]. set_solver.
  - unfold shard_leaves. by rewrite !length_fmap, !sorted_keys_length.
  - apply shard_leaves_digests.
  - apply shard_leaves_digests.
Qed.

(** the shard Merkle hash binds the shard id and every persistent field of
    every entry: if two shards (well-formed, within the machine's sizes) have
    the same hash then they have the same id and the same entries, or two
    distinct messages that were hashed on the way collide under SHA-256. *)
Theorem shard_merkle_hash_binding id1 id2 (entries1 entries2 : gmap StoreHash IndexEntry) v
    (Hc1 : compute_shard_merkle_hash id1 entries1 = Ok v)
    (Hc2 : compute_shard_merkle_hash id2 entries2 = Ok v)
    (Hr1 : map_Forall (λ _, entry_rep) entries1) (Hr2 : map_Forall (λ _, entry_rep) entries2)
    (Hs1 : N.of_nat (size entries1) < u64_bound) (Hs2 : N.of_nat (size entries2) < u64_bound) :
  (id1 = id2 ∧ entries1 = entries2) ∨
  collides (shard_messages id1 entries1 ++ shard_messages id2 entries2).
Proof.
  destruct (collision_free_or_collides
    (shard_messages id1 entries1 ++ shard_messages id2 entries2)); [left|by right].
  by eapply shard_merkle_hash_inj.
Qed.

(** [compute_shard_merkle_hash] never panics, and succeeds exactly when the
    id is below 1024 and each entry is well formed, carries a canonical digest
    and sits under its own hash in its own shard. *)
Theorem compute_shard_merkle_hash_total id (entries : gmap StoreHash IndexEntry) :
  no_panic (compute_shard_merkle_hash id entries) ∧
  (is_ok (compute_shard_merkle_hash id entries) = true ↔
   id < 1024 ∧ map_Forall (identity_ok id) entries).
Proof.
  split.
  - unfold compute_shard_merkle_hash, compute_shard_root_bytes, validate_shard_id.
    fold (sorted_keys entries). apply no_panic_bind; [|done].
    apply no_panic_bind; [by case_match|]. intros _ _.
    apply no_panic_bind; [|done]. apply no_panic_collect_m. intros h [e He]%elem_of_sorted_keys.
    unfold entry_leaf, entry_leaf_hash. rewrite He. cbn [or_panic mbind outcome_bind].
    apply no_panic_bind; [|eauto with outcome]. unfold validate_entry_identity.
    apply no_panic_bind; [eauto with outcome|]. intros h' Hp%map_err_ok.
    apply no_panic_bind; [eauto with outcome|]. intros _ _.
    apply no_panic_bind; [|eauto with outcome].
    apply StoreHash_parse_ok in Hp as [_ [Hl Hall]]. unfold calculate_shard_id.
    destruct (utf8 (StoreHash_as_str h)) as [|b0 [|b1 r]] eqn:Eu; [..|done].
    all: exfalso; pose proof (utf8_length_ge (StoreHash_as_str h)) as Hge; rewrite Eu in Hge;
      destruct (trim_spec (StoreHash_as_str h)) as (p & q & Hs & _);
      rewrite Hs, !length_app, Hl in Hge; simpl in Hge; lia.
  - destruct (compute_shard_merkle_hash id entries) as [v|e|] eqn:E; simpl.
    + apply compute_shard_merkle_hash_ok in E as (? & ? & _). naive_solver.
    + split; [done|]. intros [Hid Hall]. exfalso.
      pose proof (proj2 (compute_shard_merkle_hash_ok id entries _) (conj Hid (conj Hall eq_refl))).
      congruence.
    + split; [done|]. intros [Hid Hall]. exfalso.
      pose proof (proj2 (compute_shard_merkle_hash_ok id entries _) (conj Hid (conj Hall eq_refl))).
      congruence.
Qed.
End shard_binding.

(** ** Properties: ids, partitions, order independence, termination *)

(** a shard id and its two-character prefix are the same thing: each of the
    1024 ids is read back from its prefix, and a valid hash lies in the shard
    whose prefix is the hash's first two characters, whichever of the two
    functions computes the id. *)
Theorem shard_id_prefix_roundtrip :
  (∀ id, id < N.of_nat NUM_SHARDS →
     calculate_shard_id_from_str (shard_id_to_prefix id) = Ok id) ∧
  (∀ h, valid_store_hash (StoreHash_as_str h) →
     ∃ id, calculate_shard_id h = Some id ∧ id < N.of_nat NUM_SHARDS ∧
       calculate_shard_id_from_str (StoreHash_as_str h) = Ok id ∧
       shard_id_to_prefix id = take 2 (StoreHash_as_str h)).
Proof.
  split.
  - intros id Hid.
    assert (Hb : bool_decide (calculate_shard_id_from_str (shard_id_to_prefix id) = Ok id) = true).
    { revert id Hid. apply (N_below_forall NUM_SHARDS). vm_compute. reflexivity. }
    by apply bool_decide_eq_true in Hb.
  - intros h Hv. destruct (calculate_shard_id_valid h Hv) as (id & ? & ? & ? & ?). by exists id.
Qed.

(** partitioning loses nothing and invents nothing, whatever the iteration
    order: with valid keys it returns, the bucket of each shard holds exactly
    the entries whose hash lies in that shard, no bucket is empty, and every
    bucket key is below 1024. *)
Theorem partition_entries_lossless `{HashIter} (entries : gmap StoreHash IndexEntry)
    (Hv : map_Forall (λ h _, valid_store_hash (StoreHash_as_str h)) entries) :
  ∃ P, partition_entries_by_shard entries = Ok P ∧
    (∀ h e, entries !! h = Some e ↔
       ∃ id bucket, P !! id = Some bucket ∧ calculate_shard_id h = Some id ∧ bucket !! h = Some e) ∧
    (∀ id bucket, P !! id = Some bucket → id < N.of_nat NUM_SHARDS ∧ bucket ≠ ∅ ∧
       map_Forall (λ h _, calculate_shard_id h = Some id) bucket).
Proof.
  destruct (partition_fold (hash_iter entries) ∅ ∅) as (P & HP & Hpart).
  { intros id. cbv zeta. rewrite map_filter_empty. by rewrite decide_True, lookup_empty. }
  { apply Forall_forall. intros [h e] Hin%elem_of_hash_iter.
    destruct (calculate_shard_id_valid h) as (id & -> & _); [by eapply Hv|done]. }
  rewrite foldl_insert_iter in Hpart. exists P. split; [exact HP|]. clear HP.
  assert (HP : ∀ id bucket, P !! id = Some bucket ↔
    bucket ≠ ∅ ∧ bucket = filter (λ '(h, _), calculate_shard_id h = Some id) entries).
  { intros id bucket. rewrite Hpart. cbv zeta. case_decide as Hd; naive_solver. }
  split.
  - intros h e. split.
    + intros He. destruct (calculate_shard_id_valid h) as (id & Hid & _); [by eapply Hv|].
      exists id, (filter (λ '(h, _), calculate_shard_id h = Some id) entries).
      rewrite HP, map_lookup_filter_Some. split_and!; try done.
      intros Hemp. eapply (map_filter_empty_not_lookup _ _ h e); [exact Hemp|done..].
    + intros (id & bucket & [_ ->]%HP & _ & Hb). by apply map_lookup_filter_Some in Hb as [? _].
  - intros id bucket [Hne ->]%HP. split_and!; [|done|].
    + apply map_choose in Hne as (h & e & [He Hid]%map_lookup_filter_Some).
      destruct (calculate_shard_id_valid h) as (id' & Hid' & Hlt & _); [by eapply Hv|].
      simpl in Hid. by simplify_eq.
    + intros h e [_ ?]%map_lookup_filter_Some. done.
Qed.

(** [partition_hashes_by_shard] groups a list of valid hashes by shard and
    keeps their order and multiplicity: the list of each shard is the
    subsequence of the input that lies in it, and only shards that occur have
    a list. *)
Theorem partition_hashes_lossless (hashes : list StoreHash)
    (Hv : Forall (λ h, valid_store_hash (StoreHash_as_str h)) hashes) :
  ∃ P, partition_hashes_by_shard hashes = Ok P ∧
    ∀ id, default [] (P !! id) = filter (λ h, calculate_shard_id h = Some id) hashes ∧
          P !! id ≠ Some [].
Proof.
  unfold partition_hashes_by_shard.
  assert (Hgen : ∀ (P : gmap N (list StoreHash)) seen,
    (∀ id, default [] (P !! id) = filter (λ h, calculate_shard_id h = Some id) seen ∧
           P !! id ≠ Some []) →
    ∃ P', fold_m (λ m h, id ← or_panic (calculate_shard_id h);
        Ok (<[id := default [] (m !! id) ++ [h]]> m)) P hashes = @Ok CoreError _ P' ∧
      ∀ id, default [] (P' !! id) = filter (λ h, calculate_shard_id h = Some id) (seen ++ hashes)
            ∧ P' !! id ≠ Some []).
  { induction Hv as [|h hashes Hh _ IH]; intros P seen HP.
    { exists P. by rewrite app_nil_r. }
    destruct (calculate_shard_id_valid h Hh) as (id & Hid & _). simpl. rewrite Hid. simpl.
    destruct (IH (<[id := default [] (P !! id) ++ [h]]> P) (seen ++ [h])) as (P' & HP' & Hspec).
    - intros id'. rewrite filter_app. destruct (decide (id = id')) as [<-|Hne].
      + rewrite lookup_insert_eq, (proj1 (HP id)), filter_cons_True by done. simpl.
        split; [done|]. intros [= Hc]. by apply app_eq_nil in Hc as [_ ?].
      + rewrite lookup_insert_ne by done. rewrite filter_cons_False by (rewrite Hid; congruence).
        rewrite app_nil_r. apply HP.
    - exists P'. split; [done|]. intros id'. specialize (Hspec id').
      by rewrite <-app_assoc in Hspec. }
  destruct (Hgen ∅ []) as (P & HP & Hspec); [by intros id; rewrite lookup_empty|].
  by exists P.
Qed.

(** The rounds of [layered_root]: a level of one node is the root, a longer one
    is replaced by its pairwise hashes. *)
Inductive reduces_to `{Sha2} (dom : list N) : N → list (list N) → list N → Prop :=
| reduces_root n d : reduces_to dom n [d] d
| reduces_level n x y level d :
    reduces_to dom (n + 1) (next_level dom n (x :: y :: level)) d →
    reduces_to dom n (x :: y :: level) d.

(** the [while] loop of [layered_root] terminates for every number of
    leaves: running rounds until one node is left is a finite derivation, its
    end is the returned root, and no other root can be derived. *)
Theorem layered_root_terminates `{Sha2} (dom : list N) (leaves : list (list N))
    (Hne : leaves ≠ []) :
  reduces_to dom 1 leaves (layered_root leaves dom) ∧
  ∀ d, reduces_to dom 1 leaves d → d = layered_root leaves dom.
Proof.
  assert (Hex : ∀ fuel n level, level ≠ [] → (length level ≤ fuel)%nat →
    reduces_to dom n level (layered_loop fuel dom n level)).
  { induction fuel as [|fuel IH]; intros n level Hl Hf.
    { destruct level; [done|simpl in Hf; lia]. }
    destruct level as [|x [|y level]]; [done|constructor|]. constructor.
    pose proof (next_level_shrinks dom n x y level). apply IH; [|lia].
    intros Hn. rewrite Hn in *. simpl in *. lia. }
  assert (Hun : ∀ n level d, reduces_to dom n level d →
    ∀ fuel, (length level ≤ fuel)%nat → d = layered_loop fuel dom n level).
  { induction 1 as [n d|n x y level d _ IH]; intros fuel Hf; [by destruct fuel|].
    rewrite layered_loop_step by done. pose proof (next_level_shrinks dom n x y level).
    apply IH. lia. }
  assert (Hroot : layered_root leaves dom = layered_loop (length leaves) dom 1 leaves).
  { by destruct leaves as [|x [|y leaves]]. }
  rewrite Hroot. split; [by apply Hex | intros d Hd; by apply Hun].
Qed.

Lemma sorted_keys_order (I1 I2 : HashIter) entries :
  @sorted_keys I1 entries = @sorted_keys I2 entries.
Proof.
  unfold sorted_keys, map_keys. apply merge_sort_perm_eq; [apply _..|].
  by rewrite !hash_iter_perm.
Qed.

(** the shard Merkle hash, and its error when it has one, does not depend on
    the iteration order of the hash map. *)
Theorem compute_shard_merkle_hash_deterministic `{Sha2} `{Chrono} (I1 I2 : HashIter)
    (id : N) (entries : gmap StoreHash IndexEntry) :
  @compute_shard_merkle_hash _ _ I1 id entries = @compute_shard_merkle_hash _ _ I2 id entries.
Proof.
  unfold compute_shard_merkle_hash, compute_shard_root_bytes.
  pose proof (sorted_keys_order I1 I2 entries) as Hk. unfold sorted_keys in Hk. by rewrite Hk.
Qed.

(** ** Witnesses *)

(** A 32-byte hash that tells the sample messages apart. *)
Definition sample_sha2 : Sha2 := {|
  sha256 := λ m, le_bytes 32 (foldl (λ acc b, (acc * 65599 + b + 1) mod 2 ^ 256) 7 m) |}.
#[global] Instance sample_sha2_ok : @Sha2Ok sample_sha2.
Proof. split; intros m; [apply le_bytes_length | apply le_bytes_byte]. Defined.

Definition sample_key : StoreHash := mkStoreHash sample_hash.
Definition sample_shard : gmap StoreHash IndexEntry :=
  {[ sample_key := sample_entry sample_hash [] (lit "29") ]}.

Lemma sample_entry_rep : entry_rep (sample_entry sample_hash [] (lit "29")).
Proof.
  constructor; [by vm_compute| |by vm_compute|by vm_compute|exact I].
  constructor; first [exact I | split; [by vm_compute | apply Forall_nil_2] | by vm_compute].
Qed.

Lemma shard_merkle_hash_binding_witness :
  (838 = 838 ∧ sample_shard = sample_shard) ∨
  @collides sample_sha2 (@shard_messages sample_sha2 map_order 838 sample_shard
    ++ @shard_messages sample_sha2 map_order 838 sample_shard).
Proof.
  destruct (@compute_shard_merkle_hash sample_sha2 sample_chrono map_order 838 sample_shard)
    as [v| |] eqn:E; [|vm_compute in E; discriminate E..].
  assert (Hrep : map_Forall (λ _, entry_rep) sample_shard).
  { apply map_Forall_singleton, sample_entry_rep. }
  refine (@shard_merkle_hash_binding sample_sha2 sample_sha2_ok sample_chrono map_order
    838 838 sample_shard sample_shard v E E Hrep Hrep _ _); vm_compute; reflexivity.
Defined.

Lemma partition_entries_lossless_witness :
  ∃ P, @partition_entries_by_shard map_order sample_shard = Ok P.
Proof.
  destruct (@partition_entries_lossless map_order sample_shard) as (P & HP & _); [|by exists P].
  apply map_Forall_singleton. split; [reflexivity | repeat constructor].
Defined.

Lemma partition_hashes_lossless_witness :
  ∃ P, partition_hashes_by_shard [sample_key; sample_key] = Ok P.
Proof.
  destruct (partition_hashes_lossless [sample_key; sample_key]) as (P & HP & _); [|by exists P].
  repeat constructor.
Defined.

Lemma layered_root_terminates_witness :
  @reduces_to sample_sha2 SHARD_NODE_DOMAIN 1 [[1]; [2]; [3]]
    (@layered_root sample_sha2 [[1]; [2]; [3]] SHARD_NODE_DOMAIN).
Proof. apply (@layered_root_terminates sample_sha2). discriminate. Defined.
