(* ===== verification/Index.v ===== *)
(** * Index: shard descriptors, the sharded root and the shard payload
    (crates/nixcache-core/src/types.rs, the descriptor half of sharding.rs)

    A [ShardDescriptor] is a leaf of the global tree, a
    [ShardedArchCacheIndexData] the root of one architecture, a
    [ShardDataPayload] the contents of one shard.  Field names carry a prefix
    ([sd_], [ix_], [pl_]) since Rocq projections share a name space. *)

From S2P Require Import Prelude Machine Str Error Types Sharding.

Local Open Scope N_scope.

(** ** Data *)

Record ShardDescriptor := {
  sd_shard_id : N;
  sd_prefix : list N;
  sd_blob_digest : list N;
  sd_compressed_size : N;
  sd_uncompressed_size : N;
  sd_entry_count : N;
  sd_merkle_hash : list N }.
#[export] Instance ShardDescriptor_eq_dec : EqDecision ShardDescriptor.
Proof. solve_decision. Defined.

Record ShardedArchCacheIndexData := {
  ix_version : N;
  ix_system : SystemArch;
  ix_repo : list N;
  ix_registry : list N;
  ix_generated : list N;
  ix_public_key : list N;
  ix_shards : list ShardDescriptor;
  ix_merkle_root : list N;
  ix_gc_roots : list StoreHash;
  ix_last_promoted_run : option N }.

Record ShardDataPayload := {
  pl_version : N;
  pl_shard_id : N;
  pl_prefix : list N;
  pl_entries : gmap StoreHash IndexEntry }.

Section index.
Context `{Sha2} `{Chrono} `{HashIter}.

(** ** ShardDescriptor *)

Definition ShardDescriptor_is_empty (self : ShardDescriptor) : bool := sd_entry_count self =? 0.

Definition ShardDescriptor_validate_structure (self : ShardDescriptor)
    : outcome CoreError unit :=
  let id := show_N (sd_shard_id self) in
  _ ← ensure (sd_shard_id self <? N.of_nat NUM_SHARDS)
        (InvalidIndex (lit "shard id " ++ id ++ lit " is out of range"));
  _ ← ensure (bool_decide (sd_prefix self = shard_id_to_prefix (sd_shard_id self)))
        (InvalidIndex (lit "shard " ++ id ++ lit " has an invalid prefix"));
  if ShardDescriptor_is_empty self then
    expected_merkle_hash ← compute_shard_merkle_hash (sd_shard_id self) ∅;
    ensure (is_empty (sd_blob_digest self) && (sd_compressed_size self =? 0)
            && (sd_uncompressed_size self =? 0)
            && bool_decide (sd_merkle_hash self = expected_merkle_hash))
      (InvalidIndex (lit "empty shard " ++ id ++ lit " has non-empty metadata"))
  else
    _ ← map_err (λ details, InvalidIndex (lit "shard " ++ id ++ lit " digest: " ++ details))
          (validate_sha256 (sd_blob_digest self));
    _ ← ensure (negb ((sd_compressed_size self =? 0) || (sd_uncompressed_size self =? 0)))
          (InvalidIndex (lit "non-empty shard " ++ id ++ lit " has zero size"));
    _ ← ensure (negb (sd_entry_count self =? 0))
          (InvalidIndex (lit "non-empty shard " ++ id ++ lit " has zero entries"));
    map_err (λ details, InvalidIndex (lit "shard " ++ id ++ lit " Merkle hash: " ++ details))
      (validate_sha256 (sd_merkle_hash self)).

Definition ShardDescriptor_empty (shard_id : N) : outcome CoreError ShardDescriptor :=
  merkle_hash ← compute_shard_merkle_hash shard_id ∅;
  Ok {| sd_shard_id := shard_id; sd_prefix := shard_id_to_prefix shard_id;
        sd_blob_digest := []; sd_compressed_size := 0; sd_uncompressed_size := 0;
        sd_entry_count := 0; sd_merkle_hash := merkle_hash |}.

Definition ShardDescriptor_new (shard_id : N) (blob_digest : list N)
    (compressed_size uncompressed_size entry_count : N) (merkle_hash : list N)
    : outcome CoreError ShardDescriptor :=
  let value := {| sd_shard_id := shard_id; sd_prefix := shard_id_to_prefix shard_id;
                  sd_blob_digest := blob_digest; sd_compressed_size := compressed_size;
                  sd_uncompressed_size := uncompressed_size; sd_entry_count := entry_count;
                  sd_merkle_hash := merkle_hash |} in
  _ ← ShardDescriptor_validate_structure value;
  Ok value.

(** [Deserialize]: the wire record has the same fields; the value is validated. *)
Definition ShardDescriptor_deserialize (wire : ShardDescriptor)
    : outcome CoreError ShardDescriptor :=
  _ ← ShardDescriptor_validate_structure wire;
  Ok wire.

(** ** The global tree *)

Definition enc_descriptor (d : ShardDescriptor) (blob_digest : option (list N))
    (merkle_hash : list N) : list N :=
  enc_u16 (sd_shard_id d) ++ enc_bytes (utf8 (sd_prefix d)) ++ enc_option_digest blob_digest
  ++ enc_u64 (sd_compressed_size d) ++ enc_u64 (sd_uncompressed_size d)
  ++ enc_u64 (sd_entry_count d) ++ enc_digest merkle_hash.

Definition descriptor_leaf_hash (descriptor : ShardDescriptor) : outcome CoreError (list N) :=
  blob_digest ←
    (if is_empty (sd_blob_digest descriptor) then Ok None
     else Some <$> canonical_digest_bytes (sd_blob_digest descriptor)
                     (lit "descriptor blob_digest"));
  merkle_hash ← canonical_digest_bytes (sd_merkle_hash descriptor) (lit "descriptor merkle_hash");
  Ok (hash_with_encoder DESCRIPTOR_LEAF_DOMAIN
        (enc_descriptor descriptor blob_digest merkle_hash)).

(** One round of the indexing loop: [ordered[descriptor.shard_id]]. *)
Definition index_shard_step (ordered : list (option ShardDescriptor))
    (descriptor : ShardDescriptor) : outcome CoreError (list (option ShardDescriptor)) :=
  _ ← validate_shard_id (sd_shard_id descriptor);
  let i := N.to_nat (sd_shard_id descriptor) in
  slot ← or_panic (ordered !! i);
  _ ← ensure (bool_decide (slot = None))
        (InvalidShardSet (lit "duplicate shard id " ++ show_N (sd_shard_id descriptor)));
  _ ← ShardDescriptor_validate_structure descriptor;
  Ok (<[i := Some descriptor]> ordered).

(** [enumerate().map(|(id, d)| d.ok_or(missing id)).collect()]. *)
Fixpoint collect_slots (id : N) (ordered : list (option ShardDescriptor))
    : outcome CoreError (list ShardDescriptor) :=
  match ordered with
  | [] => Ok []
  | slot :: rest =>
      d ← ok_or (InvalidShardSet (lit "missing shard id " ++ show_N id)) slot;
      ds ← collect_slots (id + 1) rest;
      Ok (d :: ds)
  end.

Definition index_shard_descriptors (shards : list ShardDescriptor)
    : outcome CoreError (list ShardDescriptor) :=
  _ ← ensure (Nat.eqb (length shards) NUM_SHARDS)
        (InvalidShardSet (lit "expected exactly 1024 shard descriptors"));
  ordered ← fold_m index_shard_step (replicate NUM_SHARDS None) shards;
  collect_slots 0 ordered.

Definition root_root_payload (tree_root : list N) : list N :=
  enc_u64 (N.of_nat NUM_SHARDS) ++ enc_digest tree_root.

Definition compute_merkle_root (shards : list ShardDescriptor) : outcome CoreError (list N) :=
  ordered ← index_shard_descriptors shards;
  leaves ← collect_m descriptor_leaf_hash ordered;
  let descriptor_tree_root := layered_root leaves ROOT_NODE_DOMAIN in
  Ok (format_digest (hash_with_encoder ROOT_ROOT_DOMAIN (root_root_payload descriptor_tree_root))).

Definition diff_shard_descriptors (old_shards new_shards : list ShardDescriptor)
    : outcome CoreError (list N) :=
  old ← index_shard_descriptors old_shards;
  new ← index_shard_descriptors new_shards;
  Ok (omap (λ '(o, n), if decide (o = n) then None else Some (sd_shard_id n)) (zip old new)).

(** ** ShardedArchCacheIndexData *)

(** [ShardedArchCacheIndexData::new] at the time [now]. *)
Definition Index_new (system : SystemArch) (repo registry : list N) (now : Z)
    : outcome CoreError ShardedArchCacheIndexData :=
  shards ← collect_m (λ id, expect (ShardDescriptor_empty (N.of_nat id))) (seq 0 NUM_SHARDS);
  merkle_root ← expect (compute_merkle_root shards);
  Ok {| ix_version := SCHEMA_VERSION_V8; ix_system := system; ix_repo := repo;
        ix_registry := registry; ix_generated := to_rfc3339_secs now; ix_public_key := [];
        ix_shards := shards; ix_merkle_root := merkle_root; ix_gc_roots := [];
        ix_last_promoted_run := None |}.

Definition Index_find_shard_by_id (self : ShardedArchCacheIndexData) (shard_id : N)
    : option ShardDescriptor := ix_shards self !! N.to_nat shard_id.

(** [find_shard]; the outer [option] is the panic of [calculate_shard_id]. *)
Definition Index_find_shard (self : ShardedArchCacheIndexData) (hash : StoreHash)
    : option (option ShardDescriptor) :=
  id ← calculate_shard_id hash; Some (Index_find_shard_by_id self id).

(** Assigning through [find_shard_by_id_mut] / [find_shard_mut]; nothing is
    assigned when the lookup gives [None]. *)
Definition set_shards (self : ShardedArchCacheIndexData) (shards : list ShardDescriptor)
    : ShardedArchCacheIndexData :=
  {| ix_version := ix_version self; ix_system := ix_system self; ix_repo := ix_repo self;
     ix_registry := ix_registry self; ix_generated := ix_generated self;
     ix_public_key := ix_public_key self; ix_shards := shards;
     ix_merkle_root := ix_merkle_root self; ix_gc_roots := ix_gc_roots self;
     ix_last_promoted_run := ix_last_promoted_run self |}.
Definition Index_find_shard_by_id_mut (self : ShardedArchCacheIndexData) (shard_id : N)
    (d : ShardDescriptor) : ShardedArchCacheIndexData :=
  set_shards self (<[N.to_nat shard_id := d]> (ix_shards self)).
Definition Index_find_shard_mut (self : ShardedArchCacheIndexData) (hash : StoreHash)
    (d : ShardDescriptor) : option ShardedArchCacheIndexData :=
  id ← calculate_shard_id hash; Some (Index_find_shard_by_id_mut self id d).

(** [iter().map(|s| s.entry_count).sum()] on [usize]. *)
Definition Index_total_entries `{Build} (self : ShardedArchCacheIndexData)
    : outcome CoreError N :=
  arith_sum usize_bound (sd_entry_count <$> ix_shards self).

Definition Index_recalculate_merkle_root (self : ShardedArchCacheIndexData)
    : outcome CoreError ShardedArchCacheIndexData :=
  root ← compute_merkle_root (ix_shards self);
  Ok {| ix_version := ix_version self; ix_system := ix_system self; ix_repo := ix_repo self;
        ix_registry := ix_registry self; ix_generated := ix_generated self;
        ix_public_key := ix_public_key self; ix_shards := ix_shards self;
        ix_merkle_root := root; ix_gc_roots := ix_gc_roots self;
        ix_last_promoted_run := ix_last_promoted_run self |}.

Definition Index_is_shard_empty (self : ShardedArchCacheIndexData) (hash : StoreHash)
    : option bool :=
  shard ← Index_find_shard self hash;
  Some (match shard with Some shard => ShardDescriptor_is_empty shard | None => true end).

(** [for (index, shard) in self.shards.iter().enumerate()]. *)
Fixpoint validate_shards (index : N) (shards : list ShardDescriptor) : outcome CoreError unit :=
  match shards with
  | [] => Ok tt
  | shard :: rest =>
      _ ← ensure (sd_shard_id shard =? index)
            (InvalidIndex (lit "shard descriptor at index " ++ show_N index
                           ++ lit " has wrong id"));
      _ ← ShardDescriptor_validate_structure shard;
      validate_shards (index + 1) rest
  end.

Definition Index_validate_structure (self : ShardedArchCacheIndexData) : outcome CoreError unit :=
  _ ← ensure (ix_version self =? SCHEMA_VERSION_V8) (InvalidIndex (lit "version must be 8"));
  _ ← ensure (SystemArch_is_known (ix_system self))
        (InvalidIndex (lit "root system must be known"));
  _ ← ensure (negb (is_empty (trim (ix_repo self)) || is_empty (trim (ix_registry self))))
        (InvalidIndex (lit "root repository and registry must not be empty"));
  _ ← ensure (negb (bad_timestamp (ix_generated self)))
        (InvalidIndex (lit "root generated must be a valid RFC3339 timestamp"));
  _ ← ensure (Nat.eqb (length (ix_shards self)) NUM_SHARDS)
        (InvalidIndex (lit "expected exactly 1024 shard descriptors"));
  _ ← validate_shards 0 (ix_shards self);
  _ ← map_err (λ details, InvalidIndex (lit "root Merkle hash: " ++ details))
        (validate_sha256 (ix_merkle_root self));
  root ← compute_merkle_root (ix_shards self);
  ensure (bool_decide (root = ix_merkle_root self))
    (InvalidIndex (lit "root Merkle hash does not match shard descriptors")).

Definition check_limit (target : list N) (limit actual : N) : outcome CoreError unit :=
  ensure (negb (limit <? actual)) (LimitExceeded target limit actual).

Definition Index_validate_for (self : ShardedArchCacheIndexData) (system : SystemArch)
    (repo registry : list N) (limits : IndexValidationLimits) : outcome CoreError unit :=
  _ ← Index_validate_structure self;
  _ ← ensure (bool_decide (ix_system self = system))
        (InvalidIndex (lit "root system does not match the requested system"));
  _ ← ensure (bool_decide (ix_repo self = repo) && bool_decide (ix_registry self = registry))
        (InvalidIndex (lit "root repository or registry does not match the client target"));
  _ ← for_each (λ shard,
        if ShardDescriptor_is_empty shard then Ok tt
        else
          _ ← check_limit (lit "shard uncompressed bytes") (max_uncompressed_bytes limits)
                (sd_uncompressed_size shard);
          check_limit (lit "shard entries") (max_shard_entries limits) (sd_entry_count shard))
        (ix_shards self);
  check_limit (lit "GC roots") (max_gc_roots limits) (usize_len (ix_gc_roots self)).

Definition Index_deserialize (wire : ShardedArchCacheIndexData)
    : outcome CoreError ShardedArchCacheIndexData :=
  _ ← for_each (λ d, _ ← ShardDescriptor_deserialize d; Ok tt) (ix_shards wire);
  _ ← Index_validate_structure wire;
  Ok wire.

(** ** ShardDataPayload *)

Definition Payload_new (shard_id : N) : outcome CoreError ShardDataPayload :=
  if N.of_nat NUM_SHARDS <=? shard_id
  then Err (InvalidShard (lit "shard id " ++ show_N shard_id ++ lit " is out of range"))
  else Ok {| pl_version := SCHEMA_VERSION_V8; pl_shard_id := shard_id;
             pl_prefix := shard_id_to_prefix shard_id; pl_entries := ∅ |}.

Definition Payload_with_entries (shard_id : N) (entries : gmap StoreHash IndexEntry)
    : outcome CoreError ShardDataPayload :=
  payload ← Payload_new shard_id;
  Ok {| pl_version := pl_version payload; pl_shard_id := pl_shard_id payload;
        pl_prefix := pl_prefix payload; pl_entries := entries |}.

Definition Payload_compute_merkle_hash (self : ShardDataPayload) : outcome CoreError (list N) :=
  compute_shard_merkle_hash (pl_shard_id self) (pl_entries self).

Definition Payload_is_empty (self : ShardDataPayload) : bool :=
  bool_decide (pl_entries self = ∅).
Definition Payload_len (self : ShardDataPayload) : N := N.of_nat (size (pl_entries self)).

(** The checks of one [(hash, entry)] of the payload. *)
Definition Payload_check_entry (shard_id : N) (hash : StoreHash) (entry : IndexEntry)
    : outcome CoreError unit :=
  let named := lit "entry " ++ StoreHash_as_str hash in
  _ ← map_err (λ error, InvalidShard (named ++ lit ": " ++ display_core_error error))
        (IndexEntry_validate_structure entry);
  id ← or_panic (calculate_shard_id hash);
  _ ← ensure (id =? shard_id) (InvalidShard (named ++ lit " belongs to another shard"));
  _ ← ensure (some_and (system entry) SystemArch_is_known)
        (InvalidShard (named ++ lit " has an unknown or missing system"));
  ensure (bool_decide (IndexEntry_store_hash entry = Some hash))
    (InvalidShard (named ++ lit " StorePath does not match map key")).

Definition Payload_validate_structure (self : ShardDataPayload) : outcome CoreError unit :=
  _ ← ensure (pl_version self =? SCHEMA_VERSION_V8) (InvalidShard (lit "version must be 8"));
  _ ← ensure (negb (N.of_nat NUM_SHARDS <=? pl_shard_id self))
        (InvalidShard (lit "shard id " ++ show_N (pl_shard_id self) ++ lit " is out of range"));
  _ ← ensure (bool_decide (pl_prefix self = shard_id_to_prefix (pl_shard_id self)))
        (InvalidShard (lit "payload prefix does not match shard id"));
  for_each (λ '(hash, entry), Payload_check_entry (pl_shard_id self) hash entry)
    (hash_iter (pl_entries self)).

Definition Payload_validate_for (self : ShardDataPayload) (shard_id : N) (arch : SystemArch)
    (limits : IndexValidationLimits) : outcome CoreError unit :=
  _ ← Payload_validate_structure self;
  _ ← ensure (negb ((N.of_nat NUM_SHARDS <=? shard_id) || negb (pl_shard_id self =? shard_id)))
        (InvalidShard (lit "payload shard id is invalid or does not match the descriptor"));
  _ ← ensure (bool_decide (pl_prefix self = shard_id_to_prefix shard_id))
        (InvalidShard (lit "payload prefix does not match shard id"));
  _ ← check_limit (lit "shard entries") (max_shard_entries limits)
        (N.of_nat (size (pl_entries self)));
  for_each (λ '(hash, entry),
      _ ← ensure (bool_decide (system entry = Some arch))
            (InvalidShard (lit "entry " ++ StoreHash_as_str hash
                           ++ lit " has a mismatched or missing system"));
      check_limit (lit "NAR size") (max_nar_size limits) (nar_size entry))
    (hash_iter (pl_entries self)).

Definition Payload_validate_merkle_hash (self : ShardDataPayload) (expected : list N)
    : outcome CoreError unit :=
  actual ← Payload_compute_merkle_hash self;
  ensure (bool_decide (actual = expected))
    (InvalidShard (lit "payload Merkle hash does not match root descriptor")).

Definition Payload_deserialize (wire : ShardDataPayload) : outcome CoreError ShardDataPayload :=
  _ ← Payload_validate_structure wire;
  Ok wire.
End index.

(** ** Facts: descriptors *)

Lemma validate_sha256_ok v u : validate_sha256 v = Ok u ↔ is_sha256 v = true.
Proof. destruct u. unfold validate_sha256. destruct (is_sha256 v); naive_solver. Qed.
Lemma validate_sha256_no_panic v : no_panic (validate_sha256 v).
Proof. unfold validate_sha256. by case_match. Qed.
#[export] Hint Resolve validate_sha256_no_panic : outcome.

Section descriptors.
Context `{Sha2} `{Chrono} `{HashIter}.

(** The Merkle hash of the empty shard. *)
Definition empty_shard_hash (id : N) : list N := format_digest (sha256 (root_message id ∅)).

Lemma compute_empty_shard id : id < 1024 →
  compute_shard_merkle_hash id ∅ = Ok (empty_shard_hash id).
Proof. intros Hid. apply compute_shard_merkle_hash_ok. split_and!; [done| |done]. apply map_Forall_empty. Qed.

(** What [ShardDescriptor::validate_structure] accepts. *)
Definition descriptor_valid (d : ShardDescriptor) : Prop :=
  sd_shard_id d < 1024 ∧ sd_prefix d = shard_id_to_prefix (sd_shard_id d) ∧
  (if ShardDescriptor_is_empty d
   then sd_blob_digest d = [] ∧ sd_compressed_size d = 0 ∧ sd_uncompressed_size d = 0 ∧
        sd_merkle_hash d = empty_shard_hash (sd_shard_id d)
   else is_sha256 (sd_blob_digest d) = true ∧ sd_compressed_size d ≠ 0 ∧
        sd_uncompressed_size d ≠ 0 ∧ is_sha256 (sd_merkle_hash d) = true).

Lemma ShardDescriptor_validate_ok d u :
  ShardDescriptor_validate_structure d = Ok u ↔ descriptor_valid d.
Proof.
  destruct u. unfold ShardDescriptor_validate_structure, descriptor_valid. cbv zeta.
  change (N.of_nat NUM_SHARDS) with 1024. split.
  - intros (_ & Hid%ensure_ok%N.ltb_lt & (_ & Hp%ensure_ok & Hok)%bind_ok)%bind_ok.
    apply bool_decide_eq_true in Hp. split; [done|]. split; [done|].
    destruct (ShardDescriptor_is_empty d).
    + rewrite (compute_empty_shard _ Hid) in Hok. cbn [mbind outcome_bind] in Hok.
      apply ensure_ok in Hok.
      rewrite !andb_true_iff, is_empty_true, !N.eqb_eq, bool_decide_eq_true in Hok. tauto.
    + apply bind_ok in Hok as (_ & Hb%map_err_ok%validate_sha256_ok & Hok).
      apply bind_ok in Hok as (_ & Hz%ensure_ok & Hok).
      apply bind_ok in Hok as (_ & _ & Hm%map_err_ok%validate_sha256_ok).
      rewrite negb_true_iff, orb_false_iff, !N.eqb_neq in Hz. tauto.
  - intros (Hid & Hp & Hd). rewrite (proj2 (N.ltb_lt _ _) Hid), (bool_decide_eq_true_2 _ Hp).
    cbn [ensure mbind outcome_bind]. destruct (ShardDescriptor_is_empty d) eqn:Hemp.
    + destruct Hd as (Hb & Hc & Hu & Hm). rewrite (compute_empty_shard _ Hid).
      cbn [mbind outcome_bind]. by rewrite Hb, Hc, Hu, bool_decide_eq_true_2.
    + destruct Hd as (Hb & Hc & Hu & Hm).
      rewrite (proj2 (validate_sha256_ok _ ()) Hb), (proj2 (validate_sha256_ok _ ()) Hm).
      apply N.eqb_neq in Hc, Hu. unfold ShardDescriptor_is_empty in Hemp.
      by rewrite Hc, Hu, Hemp.
Qed.

Lemma ShardDescriptor_validate_no_panic d : no_panic (ShardDescriptor_validate_structure d).
Proof.
  unfold ShardDescriptor_validate_structure. cbv zeta.
  apply no_panic_bind; [eauto with outcome|]. intros _ Hid%ensure_ok%N.ltb_lt.
  apply no_panic_bind; [eauto with outcome|]. intros _ _. case_match.
  - rewrite compute_empty_shard by done. cbn [mbind outcome_bind]. eauto with outcome.
  - repeat (apply no_panic_bind; [eauto with outcome|intros ? _]). eauto with outcome.
Qed.

(** *** Indexing by id *)

(** The loop's state after the descriptors [seen]. *)
Definition slots_for (ordered : list (option ShardDescriptor)) (seen : list ShardDescriptor) : Prop :=
  length ordered = NUM_SHARDS ∧
  (∀ i d, ordered !! i = Some (Some d) ↔ d ∈ seen ∧ sd_shard_id d = N.of_nat i) ∧
  NoDup (sd_shard_id <$> seen) ∧ Forall descriptor_valid seen.

Lemma index_shard_step_ok ordered seen d ordered' :
  slots_for ordered seen →
  index_shard_step ordered d = Ok ordered' ↔
  descriptor_valid d ∧ sd_shard_id d ∉ sd_shard_id <$> seen ∧
  ordered' = <[N.to_nat (sd_shard_id d) := Some d]> ordered.
Proof.
  intros (Hl & Hs & Hnd & Hv). unfold index_shard_step, validate_shard_id. cbv zeta.
  change (N.of_nat NUM_SHARDS) with 1024. split.
  - destruct (N.ltb_spec (sd_shard_id d) 1024) as [Hid|]; [|done]. intros Hok. inv_ok.
    match goal with Hv : ShardDescriptor_validate_structure d = _ |- _ =>
      apply ShardDescriptor_validate_ok in Hv end.
    match goal with Hb : bool_decide _ = true |- _ => apply bool_decide_eq_true in Hb as -> end.
    split_and!; [done| |done]. intros (d' & Heq & Hd')%list_elem_of_fmap.
    assert (ordered !! N.to_nat (sd_shard_id d) = Some (Some d')) as Hc; [|congruence].
    apply Hs. split; [done|]. by rewrite N2Nat.id.
  - intros (Hd & Hfresh & ->). pose proof Hd as (Hid & _).
    rewrite (proj2 (N.ltb_lt _ _) Hid). cbn [mbind outcome_bind].
    destruct (lookup_lt_is_Some_2 ordered (N.to_nat (sd_shard_id d))) as [slot Hslot].
    { rewrite Hl. unfold NUM_SHARDS. lia. }
    rewrite Hslot. cbn [or_panic mbind outcome_bind].
    destruct slot as [d'|].
    { apply Hs in Hslot as [Hin Heq]. rewrite N2Nat.id in Heq. destruct Hfresh.
      rewrite <-Heq. by apply list_elem_of_fmap_2. }
    rewrite bool_decide_eq_true_2 by done. cbn [ensure mbind outcome_bind].
    by rewrite (proj2 (ShardDescriptor_validate_ok d ()) Hd).
Qed.

Lemma slots_for_step ordered seen d :
  slots_for ordered seen → descriptor_valid d → sd_shard_id d ∉ sd_shard_id <$> seen →
  slots_for (<[N.to_nat (sd_shard_id d) := Some d]> ordered) (seen ++ [d]).
Proof.
  intros (Hl & Hs & Hnd & Hv) Hd Hfresh. pose proof Hd as (Hid & _). split_and!.
  - by rewrite length_insert.
  - intros i d'. destruct (decide (N.to_nat (sd_shard_id d) = i)) as [<-|Hne].
    + rewrite list_lookup_insert_eq by (rewrite Hl; unfold NUM_SHARDS; lia).
      rewrite N2Nat.id, elem_of_app, list_elem_of_singleton. split; [naive_solver|].
      intros [[Hin| ->] Heq]; [|done]. destruct Hfresh. rewrite <-Heq. by apply list_elem_of_fmap_2.
    + rewrite list_lookup_insert_ne by done. rewrite Hs, elem_of_app, list_elem_of_singleton.
      split; [naive_solver|]. intros [[Hin| ->] Heq]; [done|]. destruct Hne. by rewrite Heq, Nat2N.id.
  - rewrite fmap_app. apply NoDup_app. split_and!; [done| |apply NoDup_singleton].
    simpl. intros x Hx ->%list_elem_of_singleton. done.
  - apply Forall_app. split; [done|by constructor].
Qed.

Lemma index_loop_ok ordered seen shards ordered' :
  slots_for ordered seen →
  fold_m index_shard_step ordered shards = Ok ordered' → slots_for ordered' (seen ++ shards).
Proof.
  revert ordered seen. induction shards as [|d shards IH]; intros ordered seen Hs; simpl.
  { intros [= <-]. by rewrite app_nil_r. }
  intros (ordered1 & (Hd & Hf & ->)%(index_shard_step_ok _ seen) & Hrest)%bind_ok; [|done].
  apply (IH _ (seen ++ [d])) in Hrest; [by rewrite <-app_assoc in Hrest|].
  by apply slots_for_step.
Qed.

Lemma index_loop_total ordered seen shards :
  slots_for ordered seen → NoDup (sd_shard_id <$> seen ++ shards) →
  Forall descriptor_valid shards →
  ∃ ordered', fold_m index_shard_step ordered shards = Ok ordered'.
Proof.
  revert ordered seen. induction shards as [|d shards IH]; intros ordered seen Hs Hnd Hv; simpl; [eauto|].
  apply Forall_cons in Hv as [Hd Hv].
  assert (sd_shard_id d ∉ sd_shard_id <$> seen) as Hf.
  { rewrite fmap_app in Hnd. apply NoDup_app in Hnd as (_ & Hdis & _).
    intros Hin. apply (Hdis _ Hin). simpl. by left. }
  destruct (IH (<[N.to_nat (sd_shard_id d) := Some d]> ordered) (seen ++ [d])) as [ordered' Ho].
  - by apply slots_for_step.
  - by rewrite <-app_assoc.
  - done.
  - exists ordered'. apply bind_ok. eexists. split; [|done]. by apply (index_shard_step_ok _ seen).
Qed.

Lemma slots_for_init : slots_for (replicate NUM_SHARDS None) [].
Proof.
  split_and!; [apply length_replicate| |constructor|constructor].
  intros i d. split; [|set_solver]. intros Hl. apply lookup_replicate in Hl as [? _]. done.
Qed.

Lemma collect_slots_ok id ordered ds :
  collect_slots id ordered = Ok ds ↔ ordered = Some <$> ds.
Proof.
  revert id ds. induction ordered as [|slot ordered IH]; intros id ds; simpl.
  - destruct ds; naive_solver.
  - rewrite bind_ok. setoid_rewrite ok_or_ok. setoid_rewrite bind_ok. setoid_rewrite IH.
    destruct ds as [|d ds]; simpl; [naive_solver|]. split.
    + intros (d' & -> & ds' & -> & [= -> ->]). done.
    + intros [= -> ->]. eauto.
Qed.

Definition shard_ids : list N := N.of_nat <$> seq 0 NUM_SHARDS.

Lemma shard_ids_lookup i n : shard_ids !! i = Some n ↔ (i < NUM_SHARDS)%nat ∧ n = N.of_nat i.
Proof.
  unfold shard_ids. rewrite list_lookup_fmap_Some. setoid_rewrite lookup_seq. naive_solver.
Qed.
Lemma shard_ids_NoDup : NoDup shard_ids.
Proof. apply NoDup_fmap_2; [apply _|apply NoDup_seq]. Qed.

Lemma slots_for_complete ordered shards ds :
  slots_for ordered shards → ordered = Some <$> ds →
  sd_shard_id <$> ds = shard_ids ∧ (∀ d, d ∈ ds → d ∈ shards).
Proof.
  intros (Hl & Hs & _ & _) ->. rewrite length_fmap in Hl. split.
  - apply list_eq. intros i. rewrite list_lookup_fmap. destruct (ds !! i) as [d|] eqn:Hi; simpl.
    + destruct (proj1 (Hs i d)) as [_ ->]; [by rewrite list_lookup_fmap, Hi|].
      symmetry. apply shard_ids_lookup. apply lookup_lt_Some in Hi. by rewrite Hl in Hi.
    + apply lookup_ge_None in Hi. symmetry. apply lookup_ge_None.
      unfold shard_ids. rewrite length_fmap, length_seq. lia.
  - intros d [i Hi]%list_elem_of_lookup. apply (Hs i d). by rewrite list_lookup_fmap, Hi.
Qed.

(** [index_shard_descriptors] succeeds exactly on the permutations of a complete
    list of valid descriptors, which it puts in order. *)
Lemma index_shard_descriptors_ok shards ds :
  index_shard_descriptors shards = Ok ds ↔
  ds ≡ₚ shards ∧ sd_shard_id <$> ds = shard_ids ∧ Forall descriptor_valid ds.
Proof.
  unfold index_shard_descriptors. split.
  - intros Hok. inv_ok. apply Nat.eqb_eq in Hok0. apply collect_slots_ok in Hok.
    match goal with Hf : fold_m _ _ _ = _ |- _ => apply (index_loop_ok _ []) in Hf as Hs; [|apply slots_for_init] end.
    simpl in Hs. destruct (slots_for_complete _ _ _ Hs Hok) as [Hids Hin].
    assert (NoDup ds) as Hnd.
    { apply (NoDup_fmap_1 sd_shard_id). rewrite Hids. apply shard_ids_NoDup. }
    assert (ds ≡ₚ shards) as Hp.
    { apply submseteq_length_Permutation.
      - by apply NoDup_submseteq.
      - rewrite Hok0. apply (f_equal length) in Hids. unfold shard_ids in Hids.
        rewrite !length_fmap, length_seq in Hids. by rewrite Hids. }
    split_and!; [done..|]. destruct Hs as (_ & _ & _ & Hv). by rewrite Hp.
  - intros (Hp & Hids & Hv). assert (length shards = NUM_SHARDS) as Hl.
    { rewrite <-Hp. apply (f_equal length) in Hids. unfold shard_ids in Hids.
      by rewrite !length_fmap, length_seq in Hids. }
    rewrite Hl. cbn [ensure Nat.eqb]. rewrite Nat.eqb_refl. cbn [ensure mbind outcome_bind].
    destruct (index_loop_total (replicate NUM_SHARDS None) [] shards) as [ordered Ho].
    { apply slots_for_init. }
    { simpl. rewrite <-Hp, Hids. apply shard_ids_NoDup. }
    { by rewrite <-Hp. }
    rewrite Ho. cbn [mbind outcome_bind]. apply collect_slots_ok.
    apply (index_loop_ok _ []) in Ho; [|apply slots_for_init]. simpl in Ho.
    destruct Ho as (Hlo & Hs & _). apply list_eq. intros i. rewrite list_lookup_fmap.
    destruct (ds !! i) as [d|] eqn:Hi; simpl.
    + apply Hs. split; [rewrite <-Hp; by eapply list_elem_of_lookup_2|].
      assert (shard_ids !! i = Some (sd_shard_id d)) as Hsi.
      { rewrite <-Hids, list_lookup_fmap, Hi. done. }
      by apply shard_ids_lookup in Hsi as [_ ?].
    + apply lookup_ge_None in Hi. apply lookup_ge_None. rewrite Hlo, <-Hl, <-Hp. done.
Qed.
End descriptors.

(** *** The root *)

Section root.
Context `{Sha2Ok} `{Chrono} `{HashIter}.

(** The bytes of a canonical digest text. *)
Definition digest_text_bytes (v : list N) : list N :=
  match canonical_digest_bytes v [] with Ok d => d | _ => [] end.

Lemma canonical_digest_bytes_text v f d :
  canonical_digest_bytes v f = Ok d → digest_text_bytes v = d.
Proof.
  intros Hd. apply canonical_digest_bytes_ok in Hd. unfold digest_text_bytes.
  by rewrite (proj2 (canonical_digest_bytes_ok v [] d) Hd).
Qed.

Lemma digest_text_bytes_sha256 v f : is_sha256 v = true →
  canonical_digest_bytes v f = Ok (digest_text_bytes v) ∧ length (digest_text_bytes v) = 32%nat ∧
  v = format_digest (digest_text_bytes v).
Proof.
  intros Hv. destruct (canonical_digest_bytes_sha256 v f Hv) as [d Hd].
  rewrite (canonical_digest_bytes_text _ _ _ Hd). split; [done|].
  by apply canonical_digest_bytes_ok in Hd as [-> [? _]].
Qed.

Definition blob_bytes (d : ShardDescriptor) : option (list N) :=
  if is_empty (sd_blob_digest d) then None else Some (digest_text_bytes (sd_blob_digest d)).
Definition descriptor_message (d : ShardDescriptor) : list N :=
  domain_message DESCRIPTOR_LEAF_DOMAIN
    (enc_descriptor d (blob_bytes d) (digest_text_bytes (sd_merkle_hash d))).
Definition descriptor_leaves (ds : list ShardDescriptor) : list (list N) :=
  (λ d, sha256 (descriptor_message d)) <$> ds.
Definition merkle_root_message (ds : list ShardDescriptor) : list N :=
  domain_message ROOT_ROOT_DOMAIN
    (root_root_payload (layered_root (descriptor_leaves ds) ROOT_NODE_DOMAIN)).
(** Every message [compute_merkle_root] hashes for the tree. *)
Definition root_messages (ds : list ShardDescriptor) : list (list N) :=
  (descriptor_message <$> ds) ++ layered_messages (descriptor_leaves ds) ROOT_NODE_DOMAIN
  ++ [merkle_root_message ds].

Lemma descriptor_valid_merkle_hash d :
  descriptor_valid d → is_sha256 (sd_merkle_hash d) = true.
Proof.
  intros (_ & _ & Hd). case_match; [|tauto]. destruct Hd as (_ & _ & _ & ->).
  apply format_digest_canonical, sha256_digest_bytes.
Qed.

Lemma descriptor_valid_blob d : descriptor_valid d →
  sd_blob_digest d = [] ∨ is_sha256 (sd_blob_digest d) = true.
Proof. intros (_ & _ & Hd). case_match; tauto. Qed.

Lemma descriptor_leaf_hash_valid d : descriptor_valid d →
  descriptor_leaf_hash d = Ok (sha256 (descriptor_message d)).
Proof.
  intros Hd. unfold descriptor_leaf_hash, descriptor_message, blob_bytes.
  destruct (digest_text_bytes_sha256 _ (lit "descriptor merkle_hash")
    (descriptor_valid_merkle_hash d Hd)) as (Hm & _).
  rewrite Hm. destruct (descriptor_valid_blob d Hd) as [->|Hb]; [done|].
  destruct (is_empty (sd_blob_digest d)) eqn:He; [done|].
  destruct (digest_text_bytes_sha256 _ (lit "descriptor blob_digest") Hb) as (Hb' & _).
  by rewrite Hb'.
Qed.

Lemma descriptor_leaves_ok ds : Forall descriptor_valid ds →
  collect_m descriptor_leaf_hash ds = Ok (descriptor_leaves ds).
Proof.
  intros Hv. apply collect_m_ok. induction Hv; constructor; [|done].
  by apply descriptor_leaf_hash_valid.
Qed.

Lemma compute_merkle_root_ok shards v :
  compute_merkle_root shards = Ok v ↔
  ∃ ds, ds ≡ₚ shards ∧ sd_shard_id <$> ds = shard_ids ∧ Forall descriptor_valid ds ∧
        v = format_digest (sha256 (merkle_root_message ds)).
Proof.
  unfold compute_merkle_root. rewrite bind_ok. split.
  - intros (ds & (Hp & Hids & Hv)%index_shard_descriptors_ok & Hok). exists ds.
    rewrite (descriptor_leaves_ok _ Hv) in Hok. cbn [mbind outcome_bind] in Hok.
    by injection Hok as <-.
  - intros (ds & Hp & Hids & Hv & ->). exists ds. rewrite index_shard_descriptors_ok.
    split; [done|]. by rewrite (descriptor_leaves_ok _ Hv).
Qed.

Lemma fold_index_no_panic ordered seen shards :
  slots_for ordered seen → no_panic (fold_m index_shard_step ordered shards).
Proof.
  revert ordered seen. induction shards as [|d shards IH]; intros ordered seen Hs; simpl; [done|].
  apply no_panic_bind.
  - unfold index_shard_step, validate_shard_id. cbv zeta.
    change (N.of_nat NUM_SHARDS) with 1024.
    destruct (N.ltb_spec (sd_shard_id d) 1024) as [Hid|]; [|done]. cbn [mbind outcome_bind].
    destruct (lookup_lt_is_Some_2 ordered (N.to_nat (sd_shard_id d))) as [slot ->].
    { destruct Hs as [-> _]. unfold NUM_SHARDS. lia. }
    cbn [or_panic mbind outcome_bind]. apply no_panic_bind; [eauto with outcome|]. intros _ _.
    apply no_panic_bind; [apply ShardDescriptor_validate_no_panic|done].
  - intros ordered' (Hd & Hf & ->)%(index_shard_step_ok _ seen); [|done].
    eapply IH. by apply slots_for_step.
Qed.

Lemma index_shard_descriptors_no_panic shards : no_panic (index_shard_descriptors shards).
Proof.
  unfold index_shard_descriptors. apply no_panic_bind; [eauto with outcome|]. intros _ _.
  apply no_panic_bind; [eapply fold_index_no_panic, slots_for_init|]. intros ordered _.
  generalize 0 at 1. induction ordered as [|slot ordered IH]; intros n; simpl; [done|].
  apply no_panic_bind; [eauto with outcome|]. intros d _.
  apply no_panic_bind; [apply IH|done].
Qed.

Lemma compute_merkle_root_no_panic shards : no_panic (compute_merkle_root shards).
Proof.
  unfold compute_merkle_root. apply no_panic_bind; [apply index_shard_descriptors_no_panic|].
  intros ds (_ & _ & Hv)%index_shard_descriptors_ok. by rewrite (descriptor_leaves_ok _ Hv).
Qed.

Lemma ordered_id ds i d :
  sd_shard_id <$> ds = shard_ids → ds !! i = Some d → sd_shard_id d = N.of_nat i.
Proof.
  intros Hds Hi. assert (shard_ids !! i = Some (sd_shard_id d)) as Hs.
  { by rewrite <-Hds, list_lookup_fmap, Hi. }
  by apply shard_ids_lookup in Hs as [_ ?].
Qed.

Lemma ordered_unique ds1 ds2 :
  ds1 ≡ₚ ds2 → sd_shard_id <$> ds1 = shard_ids → sd_shard_id <$> ds2 = shard_ids → ds1 = ds2.
Proof.
  intros Hp Ho1 Ho2. apply list_eq_same_length with (n := length ds1); [by rewrite Hp|done|].
  intros i x y Hi Hx Hy. assert (x ∈ ds2) as Hin.
  { rewrite <-Hp. by eapply list_elem_of_lookup_2. }
  apply list_elem_of_lookup in Hin as [j Hj].
  pose proof (ordered_id _ _ _ Ho1 Hx) as E1. pose proof (ordered_id _ _ _ Ho2 Hj) as E2.
  assert (i = j) as -> by lia. congruence.
Qed.

(** The sizes fit the machine. *)
Definition descriptor_rep (d : ShardDescriptor) : Prop :=
  is_u64 (sd_compressed_size d) ∧ is_u64 (sd_uncompressed_size d) ∧ is_u64 (sd_entry_count d).

Lemma shard_prefix_rep id : bytes_rep (utf8 (shard_id_to_prefix id)).
Proof.
  assert (∀ c0 c1, bytes_rep (utf8 [c0; c1])) as Hc; [|apply Hc]. intros c0 c1.
  assert (∀ c, (length (utf8_char c) ≤ 4)%nat) as Hl.
  { intros c. unfold utf8_char. repeat case_match; simpl; lia. }
  pose proof (Hl c0). pose proof (Hl c1). unfold bytes_rep, usize_len, utf8.
  rewrite !bind_cons, !length_app. simpl. unfold u64_bound. lia.
Qed.

Lemma descriptor_message_inj d1 d2 :
  descriptor_valid d1 → descriptor_valid d2 → descriptor_rep d1 → descriptor_rep d2 →
  descriptor_message d1 = descriptor_message d2 → d1 = d2.
Proof.
  intros Hv1 Hv2 (Hc1 & Hu1 & He1) (Hc2 & Hu2 & He2) Heq%app_inv_head.
  pose proof Hv1 as (Hid1 & Hp1 & _). pose proof Hv2 as (Hid2 & Hp2 & _).
  unfold enc_descriptor in Heq. rewrite Hp1, Hp2 in Heq.
  apply (self_delimiting (enc := enc_u16)) in Heq as [Eid Heq]; [|unfold u16_bound; simpl; lia..].
  apply (self_delimiting (P := bytes_rep) (enc := enc_bytes)) in Heq as [_ Heq];
    [|apply shard_prefix_rep..].
  apply (self_delimiting (P := opt_rep (λ d, length d = 32%nat)) (enc := enc_option_digest))
    in Heq as [Eb Heq].
  2-3: unfold blob_bytes; case_match eqn:E; [done|]; simpl.
  2: { destruct (descriptor_valid_blob d1 Hv1) as [Hb|Hb]; [by rewrite Hb in E|].
       by apply (digest_text_bytes_sha256 _ []). }
  2: { destruct (descriptor_valid_blob d2 Hv2) as [Hb|Hb]; [by rewrite Hb in E|].
       by apply (digest_text_bytes_sha256 _ []). }
  apply (self_delimiting (P := is_u64) (enc := enc_u64)) in Heq as [Ec Heq]; [|done..].
  apply (self_delimiting (P := is_u64) (enc := enc_u64)) in Heq as [Eu Heq]; [|done..].
  apply (self_delimiting (P := is_u64) (enc := enc_u64)) in Heq as [Ee Em]; [|done..].
  unfold enc_digest in Em.
  pose proof (digest_text_bytes_sha256 _ [] (descriptor_valid_merkle_hash d1 Hv1)) as (_ & _ & Em1).
  pose proof (digest_text_bytes_sha256 _ [] (descriptor_valid_merkle_hash d2 Hv2)) as (_ & _ & Em2).
  assert (sd_blob_digest d1 = sd_blob_digest d2) as Ebl.
  { unfold blob_bytes in Eb.
    destruct (descriptor_valid_blob d1 Hv1) as [Hb1|Hb1], (descriptor_valid_blob d2 Hv2) as [Hb2|Hb2].
    - congruence.
    - rewrite Hb1 in Eb. simpl in Eb. case_match eqn:E; [|done].
      apply is_empty_true in E. congruence.
    - rewrite Hb2 in Eb. simpl in Eb. case_match eqn:E; [|done].
      apply is_empty_true in E. congruence.
    - apply (digest_text_bytes_sha256 _ []) in Hb1 as (_ & _ & F1), Hb2 as (_ & _ & F2).
      repeat case_match; try done.
      + match goal with E1 : is_empty (sd_blob_digest d1) = true, E2 : is_empty (sd_blob_digest d2) = true |- _ =>
          apply is_empty_true in E1, E2; congruence end.
      + injection Eb as Eb. congruence. }
  destruct d1, d2; simpl in *. congruence.
Qed.
End root.

Section properties.
Context `{Sha2Ok} `{Chrono} `{HashIter}.

(** One valid descriptor for each of the 1024 ids, in any order. *)
Definition complete_set (shards : list ShardDescriptor) : Prop :=
  sd_shard_id <$> shards ≡ₚ shard_ids ∧ Forall descriptor_valid shards.

Lemma complete_set_ordered shards : complete_set shards →
  ∃ ds, index_shard_descriptors shards = Ok ds ∧
    ds ≡ₚ shards ∧ sd_shard_id <$> ds = shard_ids ∧ Forall descriptor_valid ds.
Proof.
  intros [Hids Hv]. symmetry in Hids.
  destruct (Permutation_map_inv _ _ Hids) as (ds & Hd & Hp).
  exists ds. rewrite index_shard_descriptors_ok.
  assert (Forall descriptor_valid ds) by (by rewrite <-Hp). done.
Qed.

(** C39: [compute_merkle_root] never panics, succeeds exactly on the complete
    sets (one valid descriptor for each of the 1024 ids, so the "missing shard
    id" branch is never the reason), and its result does not depend on the
    order in which the descriptors are given. *)
Theorem merkle_root_complete_set (shards : list ShardDescriptor) :
  no_panic (compute_merkle_root shards) ∧
  (is_ok (compute_merkle_root shards) = true ↔
   complete_set shards) ∧
  ∀ shards', shards' ≡ₚ shards → ok (compute_merkle_root shards') = ok (compute_merkle_root shards).
Proof.
  split; [apply compute_merkle_root_no_panic|]. split.
  - split.
    + destruct (compute_merkle_root shards) eqn:E; try done. intros _.
      apply compute_merkle_root_ok in E as (ds & Hp & Hids & Hv & _).
      unfold complete_set. rewrite <-Hp, Hids. done.
    + intros (ds & _ & Hp & Hd & Hv)%complete_set_ordered.
      rewrite (proj2 (compute_merkle_root_ok shards _)
        (ex_intro _ ds (conj Hp (conj Hd (conj Hv eq_refl))))). done.
  - intros shards' Hp. apply option_eq. intros v. rewrite !ok_some, !compute_merkle_root_ok.
    by setoid_rewrite Hp.
Qed.

(** Equal roots of two ordered sets come from equal sets, or from a collision. *)
Lemma merkle_root_message_inj ds1 ds2 :
  sd_shard_id <$> ds1 = shard_ids → sd_shard_id <$> ds2 = shard_ids →
  Forall descriptor_valid ds1 → Forall descriptor_valid ds2 →
  Forall descriptor_rep ds1 → Forall descriptor_rep ds2 →
  collision_free (root_messages ds1 ++ root_messages ds2) →
  sha256 (merkle_root_message ds1) = sha256 (merkle_root_message ds2) → ds1 = ds2.
Proof.
  intros Hi1 Hi2 Hv1 Hv2 Hr1 Hr2 Hcf Heq.
  apply Hcf in Heq; [|unfold root_messages; set_solver..].
  apply app_inv_head, app_inv_head in Heq. unfold enc_digest in Heq.
  assert (length ds1 = length ds2) as Hl.
  { apply (f_equal length) in Hi1, Hi2. rewrite length_fmap in Hi1, Hi2. congruence. }
  unfold root_messages in Hcf.
  apply layered_root_inj in Heq; [|by unfold descriptor_leaves; rewrite !length_fmap|..].
  4: { eapply collision_free_subseteq; [exact Hcf|]. set_solver. }
  2-3: unfold descriptor_leaves; apply Forall_fmap, Forall_true; intros; apply sha256_length.
  assert (Hcf' : collision_free ((descriptor_message <$> ds1) ++ (descriptor_message <$> ds2))).
  { eapply collision_free_subseteq; [exact Hcf|]. set_solver. }
  clear Hcf Hi1 Hi2. unfold descriptor_leaves in Heq.
  revert ds2 Hl Hv2 Hr2 Heq Hcf'. induction ds1 as [|d1 ds1 IH]; intros [|d2 ds2]; try done.
  intros Hl Hv2 Hr2 [= Hh Heq] Hcf. apply Forall_cons in Hv1 as [Hv1 Hvs1], Hv2 as [Hv2 Hvs2],
    Hr1 as [Hr1 Hrs1], Hr2 as [Hr2 Hrs2]. simpl in Hcf.
  apply Hcf in Hh; [|set_solver..]. apply descriptor_message_inj in Hh as ->; [|done..].
  f_equal. apply IH; try done; [by injection Hl|].
  eapply collision_free_subseteq; [exact Hcf|]. set_solver.
Qed.

(** C25: the root Merkle hash binds every field of every descriptor: two
    descriptor sets with the same root are the same set, or two distinct
    messages of the two trees collide under SHA-256. *)
Theorem merkle_root_binding (shards1 shards2 : list ShardDescriptor) v
    (Hc1 : compute_merkle_root shards1 = Ok v) (Hc2 : compute_merkle_root shards2 = Ok v)
    (Hr1 : Forall descriptor_rep shards1) (Hr2 : Forall descriptor_rep shards2) :
  shards1 ≡ₚ shards2 ∨
  ∃ ds1 ds2, index_shard_descriptors shards1 = Ok ds1 ∧ index_shard_descriptors shards2 = Ok ds2 ∧
    collides (root_messages ds1 ++ root_messages ds2).
Proof.
  apply compute_merkle_root_ok in Hc1 as (ds1 & Hp1 & Hi1 & Hv1 & ->).
  apply compute_merkle_root_ok in Hc2 as (ds2 & Hp2 & Hi2 & Hv2 & Heq).
  apply format_digest_inj in Heq; [|apply sha256_digest_bytes..].
  destruct (collision_free_or_collides (root_messages ds1 ++ root_messages ds2)).
  - left. rewrite <-Hp1 in Hr1 |- *. rewrite <-Hp2 in Hr2 |- *.
    by apply merkle_root_message_inj in Heq as ->.
  - right. exists ds1, ds2. by rewrite !index_shard_descriptors_ok.
Qed.

(** ** The root index *)

(** What [ShardedArchCacheIndexData::validate_structure] accepts. *)
Record index_valid (ix : ShardedArchCacheIndexData) : Prop := {
  iv_version : ix_version ix = SCHEMA_VERSION_V8;
  iv_system : SystemArch_is_known (ix_system ix) = true;
  iv_repo : trim (ix_repo ix) ≠ [] ∧ trim (ix_registry ix) ≠ [];
  iv_generated : bad_timestamp (ix_generated ix) = false;
  iv_ids : sd_shard_id <$> ix_shards ix = shard_ids;
  iv_shards : Forall descriptor_valid (ix_shards ix);
  iv_root : compute_merkle_root (ix_shards ix) = Ok (ix_merkle_root ix) }.

Lemma validate_shards_ok n shards u :
  validate_shards n shards = Ok u ↔
  (∀ i d, shards !! i = Some d → sd_shard_id d = n + N.of_nat i) ∧ Forall descriptor_valid shards.
Proof.
  destruct u. revert n. induction shards as [|d shards IH]; intros n; simpl.
  { split; [|done]. intros _. split; [|constructor]. intros i d. by rewrite lookup_nil. }
  split.
  - intros (_ & Hid%ensure_ok%N.eqb_eq & (u & Hd%ShardDescriptor_validate_ok & Hr)%bind_ok)%bind_ok.
    apply IH in Hr as [Hi Hv]. split; [|by constructor].
    intros [|i] d'; simpl; [intros [= <-]; lia|]. intros Hl. specialize (Hi i d' Hl). lia.
  - intros [Hi [Hd Hv]%Forall_cons].
    rewrite (Hi 0%nat d eq_refl). change (n + N.of_nat 0) with (n + 0).
    rewrite N.add_0_r, N.eqb_refl. cbn [ensure mbind outcome_bind].
    rewrite (proj2 (ShardDescriptor_validate_ok d ()) Hd). cbn [mbind outcome_bind].
    apply IH. split; [|done]. intros i d' Hl. specialize (Hi (S i) d' Hl). lia.
Qed.

Lemma shard_ids_of_lookup shards :
  length shards = NUM_SHARDS →
  (∀ i d, shards !! i = Some d → sd_shard_id d = 0 + N.of_nat i) ↔ sd_shard_id <$> shards = shard_ids.
Proof.
  intros Hl. split.
  - intros Hi. apply list_eq_same_length with (n := NUM_SHARDS).
    + unfold shard_ids. by rewrite length_fmap, length_seq.
    + by rewrite length_fmap.
    + intros i x y _ Hx Hy. apply list_lookup_fmap_Some in Hx as (d & -> & Hd).
      apply shard_ids_lookup in Hy as [_ ->]. rewrite (Hi i d Hd). lia.
  - intros Heq i d Hd. rewrite (ordered_id _ _ _ Heq Hd). lia.
Qed.

Lemma shard_ids_length shards : sd_shard_id <$> shards = shard_ids → length shards = NUM_SHARDS.
Proof.
  intros Hi. apply (f_equal length) in Hi. unfold shard_ids in Hi.
  by rewrite !length_fmap, length_seq in Hi.
Qed.

Lemma compute_merkle_root_sha256 shards v : compute_merkle_root shards = Ok v → is_sha256 v = true.
Proof.
  intros (ds & _ & _ & _ & ->)%compute_merkle_root_ok.
  apply format_digest_canonical, sha256_digest_bytes.
Qed.

Lemma Index_validate_ok ix u : Index_validate_structure ix = Ok u ↔ index_valid ix.
Proof.
  destruct u. unfold Index_validate_structure. split.
  - intros (_ & Hv%ensure_ok%N.eqb_eq & Hok)%bind_ok.
    apply bind_ok in Hok as (_ & Hs%ensure_ok & Hok).
    apply bind_ok in Hok as (_ & Hr%ensure_ok & Hok).
    apply bind_ok in Hok as (_ & Hg%ensure_ok & Hok).
    apply bind_ok in Hok as (_ & Hl%ensure_ok%Nat.eqb_eq & Hok).
    apply bind_ok in Hok as (? & [Hi Hd]%validate_shards_ok & Hok).
    apply bind_ok in Hok as (_ & _ & Hok).
    apply bind_ok in Hok as (root & Hroot & Hm%ensure_ok).
    apply bool_decide_eq_true in Hm as ->.
    rewrite negb_true_iff, ?orb_false_iff, ?is_empty_false in *.
    split; [done..| |done|done]. by apply shard_ids_of_lookup.
  - intros [Hv Hs [Hr1 Hr2] Hg Hi Hd Hroot]. pose proof (shard_ids_length _ Hi) as Hl.
    apply is_empty_false in Hr1, Hr2.
    rewrite Hv, Hs, Hr1, Hr2, Hg, Hl. cbn [N.eqb Pos.eqb ensure orb negb mbind outcome_bind].
    rewrite Nat.eqb_refl. cbn [ensure mbind outcome_bind].
    rewrite (proj2 (validate_shards_ok 0 _ ()))
      by (split; [by apply shard_ids_of_lookup|done]).
    cbn [mbind outcome_bind].
    rewrite (proj2 (validate_sha256_ok _ ()) (compute_merkle_root_sha256 _ _ Hroot)), Hroot.
    cbn [map_err mbind outcome_bind]. by rewrite bool_decide_eq_true_2.
Qed.

Lemma empty_descriptor_ok id : id < 1024 →
  ∃ d, ShardDescriptor_empty id = Ok d ∧ descriptor_valid d ∧ sd_shard_id d = id ∧
       sd_entry_count d = 0.
Proof.
  intros Hid. unfold ShardDescriptor_empty. rewrite compute_empty_shard by done.
  eexists. split; [done|]. split_and!; try done.
Qed.

Lemma empty_shards_ok :
  ∃ shards, collect_m (λ id, expect (ShardDescriptor_empty (N.of_nat id))) (seq 0 NUM_SHARDS)
      = @Ok CoreError _ shards ∧
    sd_shard_id <$> shards = shard_ids ∧ Forall descriptor_valid shards ∧
    Forall (λ d, sd_entry_count d = 0) shards.
Proof.
  unfold shard_ids. assert (Hall : Forall (λ id, (id < 1024)%nat) (seq 0 NUM_SHARDS)).
  { apply Forall_forall. intros i Hi%elem_of_seq. unfold NUM_SHARDS in Hi. lia. }
  induction Hall as [|i l Hi _ (shards & Hc & Hids & Hv & Hz)]; [by exists []|].
  destruct (empty_descriptor_ok (N.of_nat i)) as (d & Hd & Hdv & Hdi & Hdz); [lia|].
  exists (d :: shards). cbn [collect_m]. rewrite Hd. cbn [expect mbind outcome_bind].
  rewrite Hc. cbn [mbind outcome_bind]. split_and!; [done| |by constructor..].
  by rewrite !fmap_cons, Hdi, Hids.
Qed.

(** C40: [ShardedArchCacheIndexData::new] never hits its [expect]s: for a known
    architecture and non-blank names (and a clock whose output the parser
    accepts) it returns a root that passes [validate_structure], with 1024
    shards and no entry. *)
Theorem Index_new_valid `{Build} (arch : SystemArch) (repo registry : list N) (now : Z)
    (Hs : SystemArch_is_known arch = true) (Hr : trim repo ≠ []) (Hg : trim registry ≠ [])
    (Hnow : bad_timestamp (to_rfc3339_secs now) = false) :
  ∃ ix, Index_new arch repo registry now = Ok ix ∧ Index_validate_structure ix = Ok () ∧
    length (ix_shards ix) = NUM_SHARDS ∧ Index_total_entries ix = Ok 0 ∧
    ∀ h, valid_store_hash (StoreHash_as_str h) → Index_is_shard_empty ix h = Some true.
Proof.
  destruct empty_shards_ok as (shards & Hc & Hids & Hv & Hz).
  assert (Hroot : compute_merkle_root shards = Ok (format_digest (sha256 (merkle_root_message shards)))).
  { apply compute_merkle_root_ok. by exists shards. }
  eexists. split.
  { unfold Index_new. rewrite Hc. cbn [mbind outcome_bind]. rewrite Hroot. done. }
  split; [apply Index_validate_ok; by split|]. split; [by apply shard_ids_length|]. split.
  - unfold Index_total_entries. simpl.
    assert (Hsum : sum_N (sd_entry_count <$> shards) = 0).
    { clear -Hz. induction Hz as [|d l Hd _ IH]; [done|].
      change (sd_entry_count d + sum_N (sd_entry_count <$> l) = 0). by rewrite Hd, IH. }
    rewrite arith_sum_ok; rewrite Hsum; [done|]. unfold usize_bound.
    by apply N.neq_0_lt_0, N.pow_nonzero.
  - intros h (id & Hid & Hlt & _)%calculate_shard_id_valid.
    unfold Index_is_shard_empty, Index_find_shard, Index_find_shard_by_id. rewrite Hid. simpl.
    destruct (lookup_lt_is_Some_2 shards (N.to_nat id)) as [d Hd].
    { rewrite (shard_ids_length _ Hids). unfold NUM_SHARDS. lia. }
    rewrite Hd. f_equal. unfold ShardDescriptor_is_empty. rewrite Forall_lookup in Hz.
    by rewrite (Hz _ _ Hd).
Qed.

(** *** Looking up and updating shards *)

Lemma index_valid_lookup ix id : index_valid ix → id < 1024 →
  ∃ d, Index_find_shard_by_id ix id = Some d ∧ sd_shard_id d = id ∧ descriptor_valid d.
Proof.
  intros [_ _ _ _ Hi Hd _] Hid. unfold Index_find_shard_by_id.
  pose proof (shard_ids_length _ Hi) as Hl.
  destruct (lookup_lt_is_Some_2 (ix_shards ix) (N.to_nat id)) as [d Hl'].
  { rewrite Hl. unfold NUM_SHARDS. lia. }
  exists d. split; [done|]. split; [|by eapply Forall_lookup_1].
  rewrite (ordered_id _ _ _ Hi Hl'). lia.
Qed.

(** in a valid root, a store hash is routed to the shard that is responsible
    for it: [find_shard] finds a valid descriptor whose id is the hash's shard id
    and whose prefix is the first two characters of the hash, and
    [is_shard_empty] says whether that descriptor counts no entry. *)
Theorem Index_find_shard_routes (ix : ShardedArchCacheIndexData) (h : StoreHash)
    (Hix : Index_validate_structure ix = Ok ()) (Hh : valid_store_hash (StoreHash_as_str h)) :
  ∃ d, Index_find_shard ix h = Some (Some d) ∧ descriptor_valid d ∧
    calculate_shard_id h = Some (sd_shard_id d) ∧ sd_prefix d = take 2 (StoreHash_as_str h) ∧
    Index_is_shard_empty ix h = Some (bool_decide (sd_entry_count d = 0)).
Proof.
  apply Index_validate_ok in Hix.
  destruct (calculate_shard_id_valid h Hh) as (id & Hid & Hlt & Hp & _).
  destruct (index_valid_lookup ix id Hix Hlt) as (d & Hd & Hdi & Hdv). exists d.
  unfold Index_is_shard_empty, Index_find_shard. rewrite Hid. simpl. rewrite Hd.
  pose proof Hdv as (_ & Hpre & _). split_and!; [done|done|by rewrite Hdi| |].
  - by rewrite Hpre, Hdi.
  - f_equal. unfold ShardDescriptor_is_empty.
    destruct (N.eqb_spec (sd_entry_count d) 0); [by rewrite bool_decide_eq_true_2
      | by rewrite bool_decide_eq_false_2].
Qed.

(** replacing one shard's descriptor in a valid root and recalculating the
    Merkle root gives a valid root again, in which only that shard changed;
    without the recalculation the root is rejected whenever the new tree hashes
    differently. *)
Theorem Index_update_preserves_validity (ix : ShardedArchCacheIndexData) (d : ShardDescriptor)
    (Hix : Index_validate_structure ix = Ok ())
    (Hd : ShardDescriptor_validate_structure d = Ok ()) :
  let ix1 := Index_find_shard_by_id_mut ix (sd_shard_id d) d in
  ∃ ix2, Index_recalculate_merkle_root ix1 = Ok ix2 ∧ Index_validate_structure ix2 = Ok () ∧
    Index_find_shard_by_id ix2 (sd_shard_id d) = Some d ∧
    (∀ id, id ≠ sd_shard_id d → Index_find_shard_by_id ix2 id = Index_find_shard_by_id ix id) ∧
    (is_ok (Index_validate_structure ix1) = true ↔ ix_merkle_root ix2 = ix_merkle_root ix).
Proof.
  intros ix1. apply Index_validate_ok in Hix. apply ShardDescriptor_validate_ok in Hd.
  pose proof Hix as [Hv Hs Hr Hg Hi Hds Hroot]. pose proof Hd as (Hlt & _).
  pose proof (shard_ids_length _ Hi) as Hl.
  assert (Hlk : (N.to_nat (sd_shard_id d) < length (ix_shards ix))%nat).
  { rewrite Hl. unfold NUM_SHARDS. lia. }
  assert (Hi1 : sd_shard_id <$> ix_shards ix1 = shard_ids).
  { simpl. rewrite list_fmap_insert. rewrite Hi. apply list_insert_id.
    apply shard_ids_lookup. unfold NUM_SHARDS. lia. }
  assert (Hd1 : Forall descriptor_valid (ix_shards ix1)) by (by apply Forall_insert).
  assert (∃ v, compute_merkle_root (ix_shards ix1) = Ok v) as [v Hr1].
  { eexists. apply compute_merkle_root_ok. by exists (ix_shards ix1). }
  eexists. split; [unfold Index_recalculate_merkle_root; rewrite Hr1; done|].
  split; [apply Index_validate_ok; by split|]. split_and!.
  - apply list_lookup_insert_eq. done.
  - intros id Hne. apply list_lookup_insert_ne. lia.
  - simpl ix_merkle_root. split.
    + destruct (Index_validate_structure ix1) as [[]| |] eqn:E; [|done..]. intros _.
      apply Index_validate_ok in E as [_ _ _ _ _ _ E]. rewrite Hr1 in E. by injection E.
    + intros ->. assert (index_valid ix1) as Hix1 by (by split).
      by rewrite (proj2 (Index_validate_ok ix1 ()) Hix1).
Qed.

(** The ids at which two ordered lists differ. *)
Definition diff_ids (os ns : list ShardDescriptor) : list N :=
  omap (λ '(o, n), if decide (o = n) then None else Some (sd_shard_id n)) (zip os ns).

Lemma elem_of_diff_ids os ns id :
  id ∈ diff_ids os ns ↔
  ∃ i o n, os !! i = Some o ∧ ns !! i = Some n ∧ o ≠ n ∧ id = sd_shard_id n.
Proof.
  unfold diff_ids. rewrite list_elem_of_omap. split.
  - intros ([o n] & Hz & Hf). apply list_elem_of_lookup in Hz as [i Hi].
    apply lookup_zip_Some in Hi as [??]. case_decide; simplify_eq. by exists i, o, n.
  - intros (i & o & n & Hi & Hj & Hne & ->). exists (o, n). rewrite decide_False by done.
    split; [|done]. apply list_elem_of_lookup. exists i. by apply lookup_zip_Some.
Qed.

Lemma diff_ids_sorted k m os ns :
  sd_shard_id <$> os = N.of_nat <$> seq k m → sd_shard_id <$> ns = N.of_nat <$> seq k m →
  StronglySorted N.lt (diff_ids os ns).
Proof.
  unfold diff_ids. revert k os ns.
  induction m as [|m IH]; intros k [|o os] [|n ns]; try done; [constructor|].
  cbn [seq]. rewrite !fmap_cons. intros [= Hio1 Hio] [= Hin1 Hin]. simpl zip. simpl omap.
  specialize (IH (S k) os ns Hio Hin). case_decide; [done|].
  constructor; [done|]. apply Forall_forall. intros id ([o' n'] & Hz & Hf)%list_elem_of_omap.
  case_decide; simplify_eq. apply elem_of_zip_r in Hz.
  assert (sd_shard_id n' ∈ N.of_nat <$> seq (S k) m) as Hm.
  { rewrite <-Hin. by apply list_elem_of_fmap_2. }
  apply list_elem_of_fmap in Hm as (q & -> & Hq%elem_of_seq). lia.
Qed.

(** [diff_shard_descriptors] on two complete sets returns, in increasing
    order and once each, exactly the ids whose descriptors differ; the list is
    empty exactly when the sets are equal, whatever the order of the inputs. *)
Theorem diff_shard_descriptors_exact (old new : list ShardDescriptor)
    (Ho : complete_set old) (Hn : complete_set new) :
  ∃ ids, diff_shard_descriptors old new = Ok ids ∧ StronglySorted N.lt ids ∧
    (∀ id, id ∈ ids ↔ ∃ o n, o ∈ old ∧ n ∈ new ∧ sd_shard_id o = id ∧ sd_shard_id n = id ∧ o ≠ n) ∧
    (ids = [] ↔ old ≡ₚ new).
Proof.
  destruct (complete_set_ordered old Ho) as (os & Hos & Hpo & Hio & _).
  destruct (complete_set_ordered new Hn) as (ns & Hns & Hpn & Hin & _).
  exists (diff_ids os ns). split; [unfold diff_shard_descriptors; by rewrite Hos, Hns|].
  split; [by eapply diff_ids_sorted|]. split.
  - intros id. rewrite elem_of_diff_ids. split.
    + intros (i & o & n & Hi & Hj & Hne & ->). exists o, n. rewrite <-Hpo, <-Hpn.
      pose proof (ordered_id _ _ _ Hio Hi). pose proof (ordered_id _ _ _ Hin Hj).
      split_and!; try done; [by eapply list_elem_of_lookup_2..|congruence].
    + intros (o & n & Hino & Hinn & <- & Heq & Hne). rewrite <-Hpo in Hino. rewrite <-Hpn in Hinn.
      apply list_elem_of_lookup in Hino as [i Hi], Hinn as [j Hj].
      pose proof (ordered_id _ _ _ Hio Hi). pose proof (ordered_id _ _ _ Hin Hj).
      assert (i = j) as -> by lia. by exists j, o, n.
  - split.
    + intros Hnil. rewrite <-Hpo, <-Hpn. assert (os = ns) as ->; [|done].
      apply list_eq_same_length with (n := NUM_SHARDS); [by apply shard_ids_length..|].
      intros i o n _ Hi Hj. destruct (decide (o = n)) as [|Hne]; [done|]. exfalso.
      apply (not_elem_of_nil (sd_shard_id n)). rewrite <-Hnil. apply elem_of_diff_ids.
      by exists i, o, n.
    + intros Hp. assert (os = ns) as Heq.
      { apply ordered_unique; [|done..]. by rewrite Hpo, Hpn. }
      apply elem_of_nil_inv. intros id (i & o & n & Hi & Hj & Hne & _)%elem_of_diff_ids.
      rewrite Heq in Hi. congruence.
Qed.

(** ** Payloads *)

(** What the payload checks require of one entry. *)
Definition payload_entry_valid (id : N) (h : StoreHash) (e : IndexEntry) : Prop :=
  entry_valid e ∧ calculate_shard_id h = Some id ∧ (∃ a, system e = Some a) ∧
  IndexEntry_store_hash e = Some h.

Lemma Payload_check_entry_ok id h e u :
  Payload_check_entry id h e = Ok u ↔ payload_entry_valid id h e.
Proof.
  destruct u. unfold Payload_check_entry, payload_entry_valid. cbv zeta. split.
  - intros (u & He%map_err_ok%IndexEntry_validate_ok & Hok)%bind_ok.
    apply bind_ok in Hok as (id' & Hid%or_panic_ok & Hok).
    apply bind_ok in Hok as (_ & ->%ensure_ok%N.eqb_eq & Hok).
    apply bind_ok in Hok as (_ & Hs%ensure_ok & Hh%ensure_ok%bool_decide_eq_true).
    split_and!; try done. destruct (system e) as [a|]; [by exists a|done].
  - intros (He & Hid & [a Ha] & Hh).
    rewrite (proj2 (IndexEntry_validate_ok e ()) He), Hid.
    cbn [map_err or_panic mbind outcome_bind]. rewrite N.eqb_refl, Ha, Hh.
    destruct He as [_ Hs _ _ _ _ _]. simpl some_and. rewrite (Hs a Ha).
    cbn [ensure mbind outcome_bind]. by rewrite bool_decide_eq_true_2.
Qed.

Lemma Payload_validate_ok p u :
  Payload_validate_structure p = Ok u ↔
  pl_version p = SCHEMA_VERSION_V8 ∧ pl_shard_id p < 1024 ∧
  pl_prefix p = shard_id_to_prefix (pl_shard_id p) ∧
  map_Forall (payload_entry_valid (pl_shard_id p)) (pl_entries p).
Proof.
  destruct u. unfold Payload_validate_structure. change (N.of_nat NUM_SHARDS) with 1024. split.
  - intros (_ & Hv%ensure_ok%N.eqb_eq & Hok)%bind_ok.
    apply bind_ok in Hok as (_ & Hid%ensure_ok & Hok).
    apply bind_ok in Hok as (_ & Hp%ensure_ok%bool_decide_eq_true & Hall%for_each_ok).
    rewrite negb_true_iff, N.leb_gt in Hid. split_and!; try done.
    intros h e He%elem_of_hash_iter. rewrite Forall_forall in Hall.
    by apply Hall, Payload_check_entry_ok in He.
  - intros (Hv & Hid & Hp & Hall). rewrite Hv, (bool_decide_eq_true_2 _ Hp).
    rewrite (proj2 (N.leb_gt _ _) Hid). cbn [N.eqb Pos.eqb negb ensure mbind outcome_bind].
    apply for_each_ok, Forall_forall. intros [h e] He%elem_of_hash_iter.
    by apply Payload_check_entry_ok, Hall.
Qed.

(** Every [NarDigest] built by its parser is canonical. *)
Definition digests_canonical (entries : gmap StoreHash IndexEntry) : Prop :=
  map_Forall (λ _ e, is_sha256 (NarDigest_as_str (nar_digest e)) = true) entries.

Lemma payload_hashable p u : Payload_validate_structure p = Ok u → digests_canonical (pl_entries p) →
  ∃ v, Payload_compute_merkle_hash p = Ok v.
Proof.
  intros (_ & Hid & _ & Hall)%Payload_validate_ok Hd. eexists.
  apply compute_shard_merkle_hash_ok. split_and!; [done| |done].
  intros h e He. destruct (Hall h e He) as (?&?&_&?). specialize (Hd h e He). done.
Qed.

(** a payload that passes [validate_structure] and whose digests are in the
    canonical form has a Merkle hash, a canonical digest, and
    [validate_merkle_hash] accepts exactly that text; a payload accepted by
    [validate_for] holds only entries of the requested architecture and stays
    within the limits. *)
Theorem Payload_validated (p : ShardDataPayload) (id : N) (arch : SystemArch)
    (limits : IndexValidationLimits)
    (Hp : Payload_validate_for p id arch limits = Ok ()) (Hd : digests_canonical (pl_entries p)) :
  (∃ v, Payload_compute_merkle_hash p = Ok v ∧ is_sha256 v = true ∧
     ∀ expected, is_ok (Payload_validate_merkle_hash p expected) = bool_decide (expected = v)) ∧
  pl_shard_id p = id ∧ id < 1024 ∧ pl_prefix p = shard_id_to_prefix id ∧
  Payload_len p ≤ max_shard_entries limits ∧
  map_Forall (λ h e, calculate_shard_id h = Some id ∧ IndexEntry_store_hash e = Some h ∧
    system e = Some arch ∧ nar_size e ≤ max_nar_size limits) (pl_entries p).
Proof.
  unfold Payload_validate_for in Hp. change (N.of_nat NUM_SHARDS) with 1024 in Hp.
  apply bind_ok in Hp as (u & Hv & Hok). pose proof (payload_hashable _ _ Hv Hd) as [v Hc].
  apply Payload_validate_ok in Hv as (_ & Hlt & Hpre & Hall).
  apply bind_ok in Hok as (_ & Hid%ensure_ok & Hok). apply bind_ok in Hok as (_ & _ & Hok).
  apply bind_ok in Hok as (_ & Hlen%ensure_ok & Hent%for_each_ok).
  rewrite negb_true_iff, orb_false_iff, negb_false_iff, N.leb_gt, N.eqb_eq in Hid.
  destruct Hid as [Hid1 <-]. split; [|split_and!; try done].
  - exists v. split; [done|]. unfold Payload_compute_merkle_hash in Hc.
    split; [apply compute_shard_merkle_hash_ok in Hc as (_ & _ & ->);
            apply format_digest_canonical, sha256_digest_bytes|].
    intros expected. unfold Payload_validate_merkle_hash, Payload_compute_merkle_hash.
    rewrite Hc. cbn [mbind outcome_bind]. unfold ensure.
    do 2 case_bool_decide; simpl; congruence.
  - rewrite negb_true_iff, N.ltb_ge in Hlen. done.
  - intros h e He. destruct (Hall h e He) as (_ & Hh & _ & Hs). rewrite Forall_forall in Hent.
    apply elem_of_hash_iter, Hent in He.
    apply bind_ok in He as (_ & Hsys%ensure_ok%bool_decide_eq_true & Hsz%ensure_ok).
    rewrite negb_true_iff, N.ltb_ge in Hsz. done.
Qed.

(** Payloads accepted under roots with the same Merkle root are the same. *)
Lemma payload_binding (ix1 ix2 : ShardedArchCacheIndexData) (p1 p2 : ShardDataPayload)
    (d1 d2 : ShardDescriptor) (id : N) :
  index_valid ix1 → index_valid ix2 → ix_merkle_root ix1 = ix_merkle_root ix2 →
  Index_find_shard_by_id ix1 id = Some d1 → Index_find_shard_by_id ix2 id = Some d2 →
  Payload_compute_merkle_hash p1 = Ok (sd_merkle_hash d1) →
  Payload_compute_merkle_hash p2 = Ok (sd_merkle_hash d2) →
  Forall descriptor_rep (ix_shards ix1) → Forall descriptor_rep (ix_shards ix2) →
  map_Forall (λ _, entry_rep) (pl_entries p1) → map_Forall (λ _, entry_rep) (pl_entries p2) →
  Payload_len p1 < u64_bound → Payload_len p2 < u64_bound →
  (d1 = d2 ∧ pl_shard_id p1 = pl_shard_id p2 ∧ pl_entries p1 = pl_entries p2) ∨
  collides (root_messages (ix_shards ix1) ++ root_messages (ix_shards ix2)) ∨
  collides (shard_messages (pl_shard_id p1) (pl_entries p1)
            ++ shard_messages (pl_shard_id p2) (pl_entries p2)).
Proof.
  intros Hix1 Hix2 Hroot Hd1 Hd2 Hp1 Hp2 Hr1 Hr2 He1 He2 Hs1 Hs2.
  destruct (collision_free_or_collides
    (root_messages (ix_shards ix1) ++ root_messages (ix_shards ix2))); [|by right; left].
  destruct (collision_free_or_collides (shard_messages (pl_shard_id p1) (pl_entries p1)
    ++ shard_messages (pl_shard_id p2) (pl_entries p2))); [left|by right; right].
  destruct Hix1 as [_ _ _ _ Hi1 Hv1 Hm1], Hix2 as [_ _ _ _ Hi2 Hv2 Hm2].
  assert (∀ ix, sd_shard_id <$> ix_shards ix = shard_ids →
    compute_merkle_root (ix_shards ix) = Ok (ix_merkle_root ix) →
    ix_merkle_root ix = format_digest (sha256 (merkle_root_message (ix_shards ix)))) as Hrt.
  { intros ix Hi (ds & Hp & Hds & _ & ->)%compute_merkle_root_ok.
    by rewrite (ordered_unique _ _ Hp Hds Hi). }
  rewrite (Hrt ix1), (Hrt ix2) in Hroot by done.
  apply format_digest_inj in Hroot; [|apply sha256_digest_bytes..].
  apply merkle_root_message_inj in Hroot; [|done..].
  unfold Index_find_shard_by_id in *. rewrite Hroot in Hd1. simplify_eq.
  split; [done|]. by eapply shard_merkle_hash_inj.
Qed.

(** what the root authenticates.  Take two valid roots with the same Merkle
    root, and for one shard a payload under each root that
    [validate_merkle_hash] accepts against that root's descriptor.  Then the
    payloads hold the same entries: whoever trusts the root hash trusts every
    field of every entry, up to a SHA-256 collision. *)
Theorem payload_authenticated (ix1 ix2 : ShardedArchCacheIndexData) (p1 p2 : ShardDataPayload)
    (d1 d2 : ShardDescriptor) (id : N)
    (Hix1 : Index_validate_structure ix1 = Ok ()) (Hix2 : Index_validate_structure ix2 = Ok ())
    (Hroot : ix_merkle_root ix1 = ix_merkle_root ix2)
    (Hd1 : Index_find_shard_by_id ix1 id = Some d1) (Hd2 : Index_find_shard_by_id ix2 id = Some d2)
    (Hp1 : Payload_validate_merkle_hash p1 (sd_merkle_hash d1) = Ok ())
    (Hp2 : Payload_validate_merkle_hash p2 (sd_merkle_hash d2) = Ok ())
    (Hr1 : Forall descriptor_rep (ix_shards ix1)) (Hr2 : Forall descriptor_rep (ix_shards ix2))
    (He1 : map_Forall (λ _, entry_rep) (pl_entries p1))
    (He2 : map_Forall (λ _, entry_rep) (pl_entries p2))
    (Hs1 : Payload_len p1 < u64_bound) (Hs2 : Payload_len p2 < u64_bound) :
  (pl_shard_id p1 = pl_shard_id p2 ∧ pl_entries p1 = pl_entries p2) ∨
  collides (root_messages (ix_shards ix1) ++ root_messages (ix_shards ix2)) ∨
  collides (shard_messages (pl_shard_id p1) (pl_entries p1)
            ++ shard_messages (pl_shard_id p2) (pl_entries p2)).
Proof.
  assert (Hpl : ∀ p d, Payload_validate_merkle_hash p (sd_merkle_hash d) = Ok () →
    Payload_compute_merkle_hash p = Ok (sd_merkle_hash d)).
  { intros p d (v & Hc & ->%ensure_ok%bool_decide_eq_true)%bind_ok. done. }
  apply Index_validate_ok in Hix1, Hix2. apply Hpl in Hp1, Hp2.
  destruct (payload_binding ix1 ix2 p1 p2 d1 d2 id) as [(_ & ? & ?)|?]; auto.
Qed.
End properties.

(** ** Witnesses *)

Definition sample_repo : list N := lit "owner/cache".
Definition sample_registry : list N := lit "ghcr.io".
Local Notation ix_new := (@Index_new sample_sha2 sample_chrono map_order).

Lemma Index_new_valid_witness :
  ∃ ix, ix_new X86_64Linux sample_repo sample_registry 29 = Ok ix.
Proof.
  destruct (@Index_new_valid sample_sha2 sample_sha2_ok sample_chrono map_order debug64
    X86_64Linux sample_repo sample_registry 29) as (ix & Hix & _);
    [reflexivity | by vm_compute | by vm_compute | by vm_compute |].
  by exists ix.
Defined.

(** A valid root over the sample hash, and a valid descriptor to put in it. *)
Definition sample_descriptor : ShardDescriptor := {|
  sd_shard_id := 838; sd_prefix := lit "s6";
  sd_blob_digest := NarDigest_as_str NarDigest_default;
  sd_compressed_size := 10; sd_uncompressed_size := 20; sd_entry_count := 1;
  sd_merkle_hash := NarDigest_as_str NarDigest_default |}.

Section samples.
#[local] Existing Instance sample_sha2.
#[local] Existing Instance sample_chrono.
#[local] Existing Instance map_order.

Lemma sample_index :
  ∃ ix, Index_validate_structure ix = Ok () ∧ Forall descriptor_rep (ix_shards ix) ∧
        complete_set (ix_shards ix) ∧
        Forall (λ d, sd_merkle_hash d = empty_shard_hash (sd_shard_id d)) (ix_shards ix).
Proof.
  destruct empty_shards_ok as (shards & _ & Hids & Hv & Hz).
  assert (Hd : Forall (λ d, sd_compressed_size d = 0 ∧ sd_uncompressed_size d = 0 ∧
    sd_entry_count d = 0 ∧ sd_merkle_hash d = empty_shard_hash (sd_shard_id d)) shards).
  { apply Forall_forall. intros d Hd. rewrite Forall_forall in Hv, Hz.
    destruct (Hv d Hd) as (_ & _ & Hdv). unfold ShardDescriptor_is_empty in Hdv.
    rewrite (Hz d Hd) in Hdv. simpl in Hdv. specialize (Hz d Hd). tauto. }
  exists {| ix_version := 8; ix_system := X86_64Linux; ix_repo := sample_repo;
    ix_registry := sample_registry; ix_generated := to_rfc3339_secs 29; ix_public_key := [];
    ix_shards := shards; ix_merkle_root := format_digest (sha256 (merkle_root_message shards));
    ix_gc_roots := []; ix_last_promoted_run := None |}.
  split_and!.
  - apply Index_validate_ok. split; try done.
    apply compute_merkle_root_ok. by exists shards.
  - eapply Forall_impl; [exact Hd|]. intros d (Hc & Hu & He & _).
    unfold descriptor_rep. by rewrite Hc, Hu, He.
  - split; [by simpl; rewrite Hids|done].
  - eapply Forall_impl; [exact Hd|]. simpl. tauto.
Qed.

Lemma merkle_root_complete_set_witness :
  ∃ shards, is_ok (compute_merkle_root shards) = true ∧
    ok (compute_merkle_root (reverse shards)) = ok (compute_merkle_root shards).
Proof.
  destruct sample_index as (ix & _ & _ & Hc & _). exists (ix_shards ix).
  destruct (merkle_root_complete_set (ix_shards ix)) as (_ & Hok & Hperm).
  split; [by apply Hok|apply Hperm, reverse_Permutation].
Defined.

Lemma merkle_root_binding_witness :
  ∃ shards v, compute_merkle_root shards = Ok v ∧ compute_merkle_root (reverse shards) = Ok v ∧
    (shards ≡ₚ reverse shards ∨
     ∃ ds1 ds2, index_shard_descriptors shards = Ok ds1 ∧
       index_shard_descriptors (reverse shards) = Ok ds2 ∧
       collides (root_messages ds1 ++ root_messages ds2)).
Proof.
  destruct sample_index as (ix & [_ _ _ _ _ _ Hroot]%Index_validate_ok & Hr & _).
  assert (Hrev : compute_merkle_root (reverse (ix_shards ix)) = Ok (ix_merkle_root ix)).
  { apply compute_merkle_root_ok. apply compute_merkle_root_ok in Hroot as (ds & Hp & Hrest).
    exists ds. by rewrite reverse_Permutation. }
  exists (ix_shards ix), (ix_merkle_root ix). split; [done|]. split; [done|].
  apply (merkle_root_binding _ _ _ Hroot Hrev Hr). by rewrite reverse_Permutation.
Defined.

Lemma Index_find_shard_routes_witness :
  ∃ ix d, Index_find_shard ix sample_key = Some (Some d) ∧ sd_prefix d = lit "s6".
Proof.
  destruct sample_index as (ix & Hix & _). exists ix.
  destruct (Index_find_shard_routes ix sample_key Hix) as (d & Hf & _ & _ & Hp & _).
  { split; [reflexivity | repeat constructor]. }
  exists d. split; [exact Hf | exact Hp].
Defined.

Lemma Index_update_preserves_validity_witness :
  ∃ ix, Index_find_shard_by_id ix 838 = Some sample_descriptor ∧
        Index_validate_structure ix = Ok ().
Proof.
  destruct sample_index as (ix & Hix & _).
  destruct (Index_update_preserves_validity ix sample_descriptor Hix) as (ix2 & _ & Hv & Hf & _).
  { vm_compute. reflexivity. }
  exists ix2. split; [exact Hf | exact Hv].
Defined.

Lemma diff_shard_descriptors_exact_witness :
  ∃ ix, diff_shard_descriptors (ix_shards ix) (ix_shards ix) = Ok [].
Proof.
  destruct sample_index as (ix & _ & _ & Hc & _). exists ix.
  destruct (diff_shard_descriptors_exact _ _ Hc Hc) as (ids & Hd & _ & _ & Hnil).
  rewrite Hd. f_equal. by apply Hnil.
Defined.

Definition sample_limits : IndexValidationLimits := {|
  max_shard_entries := 10; max_gc_roots := 10; max_uncompressed_bytes := 1000;
  max_nar_size := 1000 |}.
Definition sample_payload : ShardDataPayload := {|
  pl_version := 8; pl_shard_id := 838; pl_prefix := lit "s6"; pl_entries := sample_shard |}.

Lemma Payload_validated_witness : Payload_len sample_payload ≤ max_shard_entries sample_limits.
Proof.
  refine (proj1 (proj2 (proj2 (proj2 (proj2 (Payload_validated sample_payload 838 X86_64Linux
    sample_limits _ _)))))).
  - vm_compute. reflexivity.
  - apply map_Forall_singleton. vm_compute. reflexivity.
Defined.

Lemma payload_authenticated_witness :
  ∃ ix p d, Payload_validate_merkle_hash p (sd_merkle_hash d) = Ok () ∧
    ((pl_shard_id p = pl_shard_id p ∧ pl_entries p = pl_entries p) ∨
     collides (root_messages (ix_shards ix) ++ root_messages (ix_shards ix)) ∨
     collides (shard_messages (pl_shard_id p) (pl_entries p)
               ++ shard_messages (pl_shard_id p) (pl_entries p))).
Proof.
  destruct sample_index as (ix & Hix & Hr & _ & Hm).
  destruct (index_valid_lookup ix 0) as (d & Hd & Hid & _); [by apply (Index_validate_ok ix ())|done|].
  set (p := {| pl_version := 8; pl_shard_id := 0; pl_prefix := lit "00"; pl_entries := ∅ |}).
  assert (Hp : Payload_validate_merkle_hash p (sd_merkle_hash d) = Ok ()).
  { rewrite Forall_lookup in Hm. rewrite (Hm _ _ Hd), Hid. vm_compute. reflexivity. }
  exists ix, p, d. split; [exact Hp|].
  refine (payload_authenticated ix ix p p d d 0 Hix Hix eq_refl Hd Hd Hp Hp Hr Hr _ _ _ _);
    [apply map_Forall_empty | apply map_Forall_empty | reflexivity | reflexivity].
Defined.
End samples.
