(* ===== verification/Receipt.v ===== *)
(** * Receipt: build receipts and their merge
    (crates/nixcache-core/src/types.rs, [BuildStats] and [BuildReceipt])

    A builder node reports what it pushed in a receipt; receipts of the same
    architecture and run are merged before promotion. *)

From S2P Require Import Prelude Machine Str Error Types Sharding.

Local Open Scope N_scope.

Record BuildStats := {
  discovered_outputs : N;
  built_paths : N;
  substituted_paths : N;
  uploaded_blobs : N;
  total_bytes_uploaded : N }.
#[export] Instance BuildStats_eq_dec : EqDecision BuildStats.
Proof. solve_decision. Defined.

Record BuildReceipt := {
  rc_version : N;
  rc_system : SystemArch;
  rc_repo : list N;
  rc_origin : option OriginMetadata;
  rc_timestamp : list N;
  rc_public_key : option (list N);
  rc_new_entries : gmap StoreHash IndexEntry;
  rc_active_gc_roots : list StoreHash;
  rc_stats : BuildStats }.

(** [format!("{:?}", origin)], which only appears in the text of an error. *)
Class DebugOrigin := { debug_origin : option OriginMetadata → list N }.

Section receipt.
Context `{Chrono} `{HashIter} `{DebugOrigin} `{Build}.

Definition check_entry_origin (expected : option OriginMetadata) (hash : StoreHash)
    (entry : IndexEntry) : outcome CoreError unit :=
  _ ← if_some (origin entry) (λ o,
        map_err (λ error, InvalidReceipt (lit "entry " ++ StoreHash_as_str hash
                            ++ lit " origin: " ++ display_type_error error))
          (OriginMetadata_validate_structure o));
  ensure (bool_decide (origin entry = expected))
    (ReceiptOriginMismatch (StoreHash_as_str hash) (debug_origin expected)
       (debug_origin (origin entry))).

Definition Receipt_validate_origin_consistency (self : BuildReceipt) : outcome CoreError unit :=
  _ ← if_some (rc_origin self) (λ o, map_err TypeErr (OriginMetadata_validate_structure o));
  for_each (λ '(hash, entry), check_entry_origin (rc_origin self) hash entry)
    (hash_iter (rc_new_entries self)).

Definition Receipt_new (arch : SystemArch) (repo timestamp : list N)
    (public_key : option (list N)) (new_entries : gmap StoreHash IndexEntry)
    (active_gc_roots : list StoreHash) (stats : BuildStats) (orig : option OriginMetadata)
    : outcome CoreError BuildReceipt :=
  let receipt := {| rc_version := RECEIPT_VERSION; rc_system := arch; rc_repo := repo;
                    rc_origin := orig; rc_timestamp := timestamp; rc_public_key := public_key;
                    rc_new_entries := new_entries; rc_active_gc_roots := active_gc_roots;
                    rc_stats := stats |} in
  _ ← Receipt_validate_origin_consistency receipt;
  Ok receipt.

Definition Receipt_validate_structure (self : BuildReceipt) : outcome CoreError unit :=
  _ ← ensure (rc_version self =? RECEIPT_VERSION) (InvalidReceipt (lit "version must be 7"));
  _ ← ensure (SystemArch_is_known (rc_system self))
        (InvalidReceipt (lit "receipt system must be known"));
  _ ← ensure (negb (is_empty (trim (rc_repo self))))
        (InvalidReceipt (lit "receipt repository must not be empty"));
  _ ← ensure (negb (bad_timestamp (rc_timestamp self)))
        (InvalidReceipt (lit "receipt timestamp must be a valid RFC3339 timestamp"));
  _ ← Receipt_validate_origin_consistency self;
  for_each (λ '(hash, entry),
      map_err (λ error, InvalidReceipt (lit "entry " ++ StoreHash_as_str hash ++ lit ": "
                          ++ display_core_error error)) (IndexEntry_validate_structure entry))
    (hash_iter (rc_new_entries self)).

Definition Receipt_deserialize (wire : BuildReceipt) : outcome CoreError BuildReceipt :=
  _ ← Receipt_validate_structure wire;
  Ok wire.

(** The [+=] of [merge_with], field by field in the source's order. *)
Definition merge_stats (a b : BuildStats) : outcome CoreError BuildStats :=
  discovered ← arith_add usize_bound (discovered_outputs a) (discovered_outputs b);
  built ← arith_add usize_bound (built_paths a) (built_paths b);
  blobs ← arith_add usize_bound (uploaded_blobs a) (uploaded_blobs b);
  bytes ← arith_add u64_bound (total_bytes_uploaded a) (total_bytes_uploaded b);
  substituted ← arith_add usize_bound (substituted_paths a) (substituted_paths b);
  Ok {| discovered_outputs := discovered; built_paths := built; substituted_paths := substituted;
        uploaded_blobs := blobs; total_bytes_uploaded := bytes |}.

(** [merge_with]: the receipt after the call. *)
Definition Receipt_merge_with (self other : BuildReceipt) : outcome CoreError BuildReceipt :=
  _ ← Receipt_validate_origin_consistency self;
  _ ← Receipt_validate_origin_consistency other;
  _ ← ensure (bool_decide (rc_system self = rc_system other))
        (InvalidReceipt (lit "cannot merge receipts of different architectures"));
  _ ← ensure (bool_decide (rc_origin self = rc_origin other))
        (InvalidReceipt (lit "cannot merge receipts with different origins"));
  stats ← merge_stats (rc_stats self) (rc_stats other);
  let merged := {|
    rc_version := rc_version self; rc_system := rc_system self; rc_repo := rc_repo self;
    rc_origin := rc_origin self; rc_timestamp := rc_timestamp self;
    rc_public_key :=
      match rc_public_key self with None => rc_public_key other | Some k => Some k end;
    rc_new_entries := rc_new_entries other ∪ rc_new_entries self;
    rc_active_gc_roots :=
      dedup (merge_sort StoreHash_le (rc_active_gc_roots self ++ rc_active_gc_roots other));
    rc_stats := stats |} in
  _ ← Receipt_validate_origin_consistency merged;
  Ok merged.

(** ** Facts *)

Definition origin_valid (o : option OriginMetadata) : Prop :=
  ∀ x, o = Some x → OriginMetadata_validate_structure x = Ok ().

Lemma origin_consistency_ok r u :
  Receipt_validate_origin_consistency r = Ok u ↔
  origin_valid (rc_origin r) ∧ map_Forall (λ _ e, origin e = rc_origin r) (rc_new_entries r).
Proof.
  destruct u. unfold Receipt_validate_origin_consistency, origin_valid. rewrite bind_ok. split.
  - intros (u & Ho & Hall%for_each_ok). rewrite if_some_ok in Ho. split.
    + intros x Hx. by apply Ho, map_err_ok in Hx.
    + intros h e He%elem_of_hash_iter. rewrite Forall_forall in Hall. apply Hall in He.
      by apply bind_ok in He as (_ & _ & He%ensure_ok%bool_decide_eq_true).
  - intros [Ho Hall]. exists (). split; [apply if_some_ok; intros x Hx; by rewrite (Ho x Hx)|].
    apply for_each_ok, Forall_forall. intros [h e] He%elem_of_hash_iter.
    unfold check_entry_origin. rewrite (Hall h e He). apply bind_ok. exists ().
    split; [apply if_some_ok; intros x Hx; by rewrite (Ho x Hx)|]. by apply ensure_ok, bool_decide_eq_true.
Qed.

Lemma origin_consistency_no_panic r : no_panic (Receipt_validate_origin_consistency r).
Proof.
  assert (∀ o, no_panic (OriginMetadata_validate_structure o)) as Hn.
  { intros o. unfold OriginMetadata_validate_structure. repeat case_match; eauto with outcome. }
  unfold Receipt_validate_origin_consistency, check_entry_origin.
  apply no_panic_bind; [apply no_panic_if_some; eauto with outcome|]. intros _ _.
  apply no_panic_for_each. intros [h e] _. apply no_panic_bind; [|eauto with outcome].
  apply no_panic_if_some; eauto with outcome.
Qed.

Lemma union_consistent (m1 m2 : gmap StoreHash IndexEntry) (P : StoreHash → IndexEntry → Prop) :
  map_Forall P m1 → map_Forall P m2 → map_Forall P (m1 ∪ m2).
Proof.
  intros Hp1 Hp2 h e [He|[_ He]]%lookup_union_Some_raw; [by apply Hp1 | by apply Hp2].
Qed.

(** The sums of the statistics fit their types. *)
Definition stats_fit (a b : BuildStats) : Prop :=
  discovered_outputs a + discovered_outputs b < usize_bound ∧
  built_paths a + built_paths b < usize_bound ∧
  substituted_paths a + substituted_paths b < usize_bound ∧
  uploaded_blobs a + uploaded_blobs b < usize_bound ∧
  total_bytes_uploaded a + total_bytes_uploaded b < u64_bound.

Lemma merge_stats_ok a b : stats_fit a b →
  merge_stats a b = Ok {|
    discovered_outputs := discovered_outputs a + discovered_outputs b;
    built_paths := built_paths a + built_paths b;
    substituted_paths := substituted_paths a + substituted_paths b;
    uploaded_blobs := uploaded_blobs a + uploaded_blobs b;
    total_bytes_uploaded := total_bytes_uploaded a + total_bytes_uploaded b |}.
Proof.
  intros (Hf1 & Hf2 & Hf3 & Hf4 & Hf5). unfold merge_stats, arith_add.
  by rewrite !arith_ok.
Qed.

Lemma sorted_roots_spec (l : list StoreHash) :
  let r := dedup (merge_sort StoreHash_le l) in
  StronglySorted StoreHash_le r ∧ NoDup r ∧ ∀ h, h ∈ r ↔ h ∈ l.
Proof.
  intros r. destruct (dedup_strictly_sorted StoreHash_le (merge_sort StoreHash_le l)).
  { apply StronglySorted_merge_sort; apply _. }
  split_and!; [done..|]. intros h. unfold r. by rewrite elem_of_dedup, elem_of_merge_sort.
Qed.

Lemma Receipt_validate_ok r u :
  Receipt_validate_structure r = Ok u ↔
  rc_version r = RECEIPT_VERSION ∧ SystemArch_is_known (rc_system r) = true ∧
  trim (rc_repo r) ≠ [] ∧ bad_timestamp (rc_timestamp r) = false ∧
  Receipt_validate_origin_consistency r = Ok () ∧
  map_Forall (λ _, entry_valid) (rc_new_entries r).
Proof.
  destruct u. unfold Receipt_validate_structure. split.
  - intros (_ & Hv%ensure_ok%N.eqb_eq & Hok)%bind_ok.
    apply bind_ok in Hok as (_ & Hs%ensure_ok & Hok).
    apply bind_ok in Hok as (_ & Hr%ensure_ok & Hok).
    apply bind_ok in Hok as (_ & Ht%ensure_ok & Hok).
    apply bind_ok in Hok as ([] & Ho & Hall%for_each_ok).
    rewrite negb_true_iff, ?is_empty_false in *. split_and!; try done.
    intros h e He%elem_of_hash_iter. rewrite Forall_forall in Hall.
    by apply Hall, map_err_ok, IndexEntry_validate_ok in He.
  - intros (Hv & Hs & Hr & Ht & Ho & Hall). apply is_empty_false in Hr.
    rewrite Hv, Hs, Hr, Ht, Ho. cbn [N.eqb Pos.eqb negb ensure mbind outcome_bind].
    apply for_each_ok, Forall_forall. intros [h e] He%elem_of_hash_iter.
    by apply map_err_ok, IndexEntry_validate_ok, (Hall h).
Qed.

(** ** Properties *)

(** [merge_with] on two consistent receipts of one architecture and origin,
    when the statistics fit: it succeeds; every entry of either receipt is kept
    (the other receipt's on a shared hash); the GC roots are the union, sorted
    and without repetition; the statistics add up; the public key is the first
    known one; and a merge of two receipts that pass [validate_structure]
    passes it. *)
Theorem Receipt_merge_lossless (a b : BuildReceipt)
    (Ha : Receipt_validate_origin_consistency a = Ok ())
    (Hb : Receipt_validate_origin_consistency b = Ok ())
    (Hs : rc_system a = rc_system b) (Ho : rc_origin a = rc_origin b)
    (Hfit : stats_fit (rc_stats a) (rc_stats b)) :
  ∃ r, Receipt_merge_with a b = Ok r ∧
    (∀ h, rc_new_entries r !! h =
       match rc_new_entries b !! h with Some e => Some e | None => rc_new_entries a !! h end) ∧
    StronglySorted StoreHash_le (rc_active_gc_roots r) ∧ NoDup (rc_active_gc_roots r) ∧
    (∀ h, h ∈ rc_active_gc_roots r ↔ h ∈ rc_active_gc_roots a ∨ h ∈ rc_active_gc_roots b) ∧
    uploaded_blobs (rc_stats r) = uploaded_blobs (rc_stats a) + uploaded_blobs (rc_stats b) ∧
    total_bytes_uploaded (rc_stats r) =
      total_bytes_uploaded (rc_stats a) + total_bytes_uploaded (rc_stats b) ∧
    (rc_public_key r = None ↔ rc_public_key a = None ∧ rc_public_key b = None) ∧
    (Receipt_validate_structure a = Ok () → Receipt_validate_structure b = Ok () →
     Receipt_validate_structure r = Ok ()).
Proof.
  unfold Receipt_merge_with. rewrite Ha, Hb, merge_stats_ok by done.
  cbn [mbind outcome_bind]. rewrite !bool_decide_eq_true_2 by done.
  cbn [ensure mbind outcome_bind].
  pose proof Ha as [Hoa Hma]%origin_consistency_ok. pose proof Hb as [Hob Hmb]%origin_consistency_ok.
  set (r := Build_BuildReceipt _ _ _ _ _ _ _ _ _).
  assert (Hr : Receipt_validate_origin_consistency r = Ok ()).
  { apply origin_consistency_ok. split; [done|]. apply union_consistent; [|done].
    simpl. by rewrite Ho. }
  rewrite Hr. cbn [mbind outcome_bind]. exists r. split; [done|].
  destruct (sorted_roots_spec (rc_active_gc_roots a ++ rc_active_gc_roots b)) as (Hsort & Hnd & Hin).
  split_and!; try done.
  - intros h. simpl. rewrite lookup_union. by destruct (rc_new_entries b !! h), (rc_new_entries a !! h).
  - intros h. rewrite <-elem_of_app. apply Hin.
  - simpl. destruct (rc_public_key a), (rc_public_key b); naive_solver.
  - intros (Hv & Hk & Hre & Ht & _ & Hea)%Receipt_validate_ok (_ & _ & _ & _ & _ & Heb)%Receipt_validate_ok.
    apply Receipt_validate_ok. split_and!; try done. by apply union_consistent.
Qed.

(** [merge_with] refuses what it must: an inconsistent receipt on either
    side, two architectures or two origins is an error, so a successful merge
    never mixes provenance; and it panics only on statistics that overflow in a
    build with overflow checks. *)
Theorem Receipt_merge_guards (a b : BuildReceipt) :
  (is_ok (Receipt_merge_with a b) = true →
   Receipt_validate_origin_consistency a = Ok () ∧ Receipt_validate_origin_consistency b = Ok () ∧
   rc_system a = rc_system b ∧ rc_origin a = rc_origin b) ∧
  (Receipt_merge_with a b = Panic →
   overflow_checks = true ∧ ¬ stats_fit (rc_stats a) (rc_stats b)).
Proof.
  unfold Receipt_merge_with. pose proof (origin_consistency_no_panic a) as Hna.
  pose proof (origin_consistency_no_panic b) as Hnb.
  destruct (Receipt_validate_origin_consistency a) as [[]| |] eqn:Ha; [|by split..].
  destruct (Receipt_validate_origin_consistency b) as [[]| |] eqn:Hb; [|by split..].
  cbn [mbind outcome_bind]. 
  destruct (bool_decide_reflect (rc_system a = rc_system b));
    cbn [ensure mbind outcome_bind]; [|by split].
  destruct (bool_decide_reflect (rc_origin a = rc_origin b));
    cbn [ensure mbind outcome_bind]; [|by split]. split; [done|].
  destruct (merge_stats (rc_stats a) (rc_stats b)) as [st|er|] eqn:Hst; cbn [mbind outcome_bind].
  - set (r := Build_BuildReceipt _ _ _ _ _ _ _ _ _). intros Hp. exfalso.
    pose proof (origin_consistency_no_panic r) as Hnr.
    by destruct (Receipt_validate_origin_consistency r).
  - done.
  - intros _. split.
    + destruct overflow_checks eqn:Hc; [done|]. exfalso. revert Hst.
      unfold merge_stats, arith_add, arith. rewrite Hc. repeat case_match; discriminate.
    + intros Hfit. by rewrite merge_stats_ok in Hst.
Qed.
End receipt.

(** ** Witnesses *)

Definition sample_debug : DebugOrigin := {|
  debug_origin := λ o, match o with Some _ => lit "Some" | None => lit "None" end |}.
Definition sample_stats : BuildStats := {|
  discovered_outputs := 1; built_paths := 2; substituted_paths := 3; uploaded_blobs := 4;
  total_bytes_uploaded := 5 |}.
Definition sample_receipt : BuildReceipt := {|
  rc_version := 7; rc_system := X86_64Linux; rc_repo := lit "owner/cache"; rc_origin := None;
  rc_timestamp := lit "2026-08-29T00:00:00Z"; rc_public_key := None;
  rc_new_entries := sample_shard; rc_active_gc_roots := [sample_key]; rc_stats := sample_stats |}.

Lemma Receipt_merge_lossless_witness :
  ∃ r, @Receipt_merge_with map_order sample_debug debug64 sample_receipt sample_receipt = Ok r ∧
       uploaded_blobs (rc_stats r) = 8.
Proof.
  destruct (@Receipt_merge_lossless sample_chrono map_order sample_debug debug64
    sample_receipt sample_receipt) as (r & Hr & _ & _ & _ & _ & Hb & _).
  - vm_compute. reflexivity.
  - vm_compute. reflexivity.
  - reflexivity.
  - reflexivity.
  - vm_compute. auto.
  - exists r. split; [exact Hr | exact Hb].
Defined.
