(* ===== verification/Lookup.v ===== *)
(** * Lookup: hashes and NAR names out of paths and URLs
    (crates/nixcache-core/src/lookup.rs) *)

From S2P Require Import Prelude Machine Str Text Error Types.

Local Open Scope N_scope.

(** [Path::new(p).file_name()] on Unix: the last component once empty and ["."]
    components are dropped, unless it is [".."]. *)
Definition file_name (p : list N) : option (list N) :=
  match last (filter (λ c, c ≠ [] ∧ c ≠ lit ".") (split 47 p)) with
  | Some c => if decide (c = lit "..") then None else Some c
  | None => None
  end.

(** [&s[..n]]; [None] is the panic when byte [n] is out of range or inside a
    character. *)
Fixpoint slice_to (n : nat) (s : list N) : option (list N) :=
  match n, s with
  | O, _ => Some []
  | _, [] => None
  | _, c :: s =>
      let k := length (utf8_char c) in
      if (n <? k)%nat then None
      else rest ← slice_to (n - k) s; Some (c :: rest)
  end.

Definition extract_store_hash_str (store_path : list N) : outcome TypeError (option (list N)) :=
  match file_name store_path with
  | None => Ok None
  | Some name =>
      if (32 <=? str_len name)%nat
      then s ← or_panic (slice_to 32 name); Ok (Some s)
      else Ok None
  end.

Definition extract_store_hash (store_path : list N) : outcome TypeError (option StoreHash) :=
  match file_name store_path with
  | None => Ok None
  | Some name =>
      if (32 <=? str_len name)%nat
      then s ← or_panic (slice_to 32 name); Ok (ok (StoreHash_parse s))
      else Ok None
  end.

(** [rest.split_whitespace().next().unwrap_or(rest)]. *)
Definition first_word (rest : list N) : list N :=
  match split_whitespace rest with
  | w :: _ => w
  | [] => rest
  end.

Definition extract_nar_basename (url_or_path : list N) : list N :=
  let trimmed := trim url_or_path in
  match strip_prefix (lit "URL: nar/") trimmed with
  | Some rest => first_word rest
  | None =>
      match strip_prefix (lit "URL: ") trimmed with
      | Some rest => after_last 47 (first_word rest)
      | None =>
          match strip_prefix (lit "nar/") trimmed with
          | Some rest => first_word rest
          | None => if contains_char 47 trimmed then after_last 47 trimmed else trimmed
          end
      end
  end.

Definition insert_nar (map : gmap (list N) NarDigest) (entry : IndexEntry)
    : gmap (list N) NarDigest :=
  if is_empty (IndexEntry_nar_basename entry) then map
  else <[IndexEntry_nar_basename entry := nar_digest entry]> map.

Definition build_nar_lookup_map `{HashIter} {K} `{Countable K} (entries : gmap K IndexEntry)
    : gmap (list N) NarDigest :=
  foldl insert_nar ∅ (map_values entries).

(** ** Facts *)

Lemma split_no_sep c s : c ∉ s → split c s = [s].
Proof.
  induction s as [|d s IH]; intros Hn; simpl; [done|].
  destruct (N.eqb_spec c d) as [->|]; [set_solver|]. by rewrite IH by set_solver.
Qed.

Lemma split_app_sep c a b : c ∉ a → split c (a ++ c :: b) = a :: split c b.
Proof.
  induction a as [|d a IH]; intros Hn; simpl; [by rewrite N.eqb_refl|].
  destruct (N.eqb_spec c d) as [->|]; [set_solver|]. by rewrite IH by set_solver.
Qed.

Lemma file_name_store b : b ≠ [] → 47 ∉ b → b ≠ lit "." → b ≠ lit ".." →
  file_name (lit "/nix/store/" ++ b) = Some b.
Proof.
  intros Hne Hs H1 H2. unfold file_name.
  assert (split 47 (lit "/nix/store/" ++ b) = [[]; lit "nix"; lit "store"; b]) as ->.
  { change (lit "/nix/store/" ++ b) with ([] ++ 47 :: (lit "nix" ++ 47 :: (lit "store" ++ 47 :: b))).
    rewrite split_app_sep by set_solver.
    rewrite split_app_sep by (by apply contains_char_false; vm_compute).
    rewrite split_app_sep by (by apply contains_char_false; vm_compute).
    by rewrite split_no_sep. }
  rewrite filter_cons_False by (by intros []). rewrite !filter_cons_True by done.
  rewrite filter_nil. cbn [last]. cbv beta iota. by rewrite decide_False.
Qed.

(** On ASCII text the slice is [take]. *)
Lemma slice_to_ascii n a rest : Forall is_ascii a → (n ≤ length a)%nat →
  slice_to n (a ++ rest) = Some (take n a).
Proof.
  intros Ha. revert n. induction Ha as [|c a Hc _ IH]; intros n Hn.
  - simpl in Hn. assert (n = 0%nat) as -> by lia. by destruct rest.
  - destruct n as [|n]; [done|]. cbn [slice_to app take].
    unfold utf8_char. unfold is_ascii in Hc. rewrite (proj2 (N.ltb_lt _ _) Hc). simpl length.
    change (S n <? 1)%nat with false. simpl in Hn. rewrite Nat.sub_succ, Nat.sub_0_r.
    rewrite IH by lia. done.
Qed.

Lemma utf8_len_app s t : str_len (s ++ t) = (str_len s + str_len t)%nat.
Proof. unfold str_len. by rewrite utf8_app, length_app. Qed.

(** The characters of a component come from the path. *)
Lemma split_subset c s w d : w ∈ split c s → d ∈ w → d ∈ s.
Proof.
  revert w. induction s as [|x s IH]; intros w; simpl.
  - rewrite list_elem_of_singleton. intros ->. set_solver.
  - destruct (c =? x).
    + rewrite elem_of_cons. intros [->|Hw] Hd; [set_solver|]. right. by eapply IH.
    + destruct (split c s) as [|p ps] eqn:E.
      * intros ->%list_elem_of_singleton. set_solver.
      * rewrite elem_of_cons. intros [->|Hw] Hd.
        -- apply elem_of_cons in Hd as [->|Hd]; [by left|]. right. apply (IH p); [by left|done].
        -- right. apply (IH w); [by right|done].
Qed.

Lemma file_name_subset p name d : file_name p = Some name → d ∈ name → d ∈ p.
Proof.
  unfold file_name. destruct (last _) as [c|] eqn:E; [|done]. case_decide; [done|].
  intros [= <-]. apply last_Some_elem_of in E. apply list_elem_of_filter in E as [_ E].
  by eapply split_subset.
Qed.

(** ** Properties *)

(** [extract_store_hash] and [extract_store_hash_str] on a store path: from
    ["/nix/store/<hash>-<rest>"] with a valid hash and no further slash they
    give that hash; and they never panic on an ASCII path. *)
Theorem extract_store_hash_spec :
  (∀ h rest, valid_store_hash h → 47 ∉ rest →
     extract_store_hash (lit "/nix/store/" ++ h ++ 45 :: rest) = Ok (Some (mkStoreHash h)) ∧
     extract_store_hash_str (lit "/nix/store/" ++ h ++ 45 :: rest) = Ok (Some h)) ∧
  (∀ p, Forall is_ascii p → no_panic (extract_store_hash p) ∧ no_panic (extract_store_hash_str p)).
Proof.
  split.
  - intros h rest Hh Hr. pose proof Hh as [Hl Hall].
    assert (Forall is_ascii h) as Ha.
    { eapply Forall_impl; [exact Hall|]. intros c Hc. by apply nix_base32_char_facts in Hc as [? _]. }
    assert (47 ∉ h) as Hslash.
    { rewrite Forall_forall in Hall. intros Hin%Hall. by vm_compute in Hin. }
    unfold extract_store_hash, extract_store_hash_str.
    rewrite file_name_store.
    2: by destruct h. 2: set_solver.
    2,3: intros Heq%(f_equal length); rewrite length_app, Hl in Heq; simpl in Heq; lia.
    assert (Nat.leb 32 (str_len (h ++ 45 :: rest)) = true) as ->.
    { apply Nat.leb_le. rewrite utf8_len_app. unfold str_len at 1. rewrite utf8_ascii by done. lia. }
    rewrite slice_to_ascii by (done || lia). rewrite take_ge by lia. simpl.
    by rewrite StoreHash_parse_valid.
  - intros p Hp. unfold extract_store_hash, extract_store_hash_str.
    destruct (file_name p) as [name|] eqn:E; [|done].
    assert (Forall is_ascii name) as Hn.
    { apply Forall_forall. intros d Hd. rewrite Forall_forall in Hp. apply Hp.
      by eapply file_name_subset. }
    destruct (Nat.leb_spec 32 (str_len name)) as [Hlen|]; [|done].
    unfold str_len in Hlen. rewrite utf8_ascii in Hlen by done.
    rewrite <-(app_nil_r name), slice_to_ascii by done. done.
Qed.

(** A path whose 32nd byte is inside a character makes both functions panic. *)
Theorem extract_store_hash_panics :
  let p := lit "nar/0000000000000000000000000000000" ++ [233] ++ lit ".nar.xz" in
  extract_store_hash p = Panic ∧ extract_store_hash_str p = Panic.
Proof. vm_compute. done. Qed.

Section lookup_map.
Context `{HashIter} {K : Type} `{Countable K}.

Lemma insert_nar_lookup m (e : IndexEntry) b :
  insert_nar m e !! b =
  if decide (b = IndexEntry_nar_basename e ∧ b ≠ []) then Some (nar_digest e) else m !! b.
Proof.
  unfold insert_nar. destruct (is_empty (IndexEntry_nar_basename e)) eqn:He.
  - apply is_empty_true in He. rewrite He. rewrite decide_False by naive_solver. done.
  - apply is_empty_false in He. case_decide as Hd.
    + destruct Hd as [-> _]. by rewrite lookup_insert_eq.
    + rewrite lookup_insert_ne; [done|]. intros <-. naive_solver.
Qed.

(** the NAR lookup table, for every iteration order of the entries: a name
    it knows is the non-empty name of an entry and maps to that entry's digest;
    it knows the name of every entry; and when no two entries share a name with
    different digests, it maps each name to the digest of its entry, so the
    order does not matter. *)
Theorem build_nar_lookup_map_spec (entries : gmap K IndexEntry) :
  (∀ b d, build_nar_lookup_map entries !! b = Some d →
     b ≠ [] ∧ ∃ k e, entries !! k = Some e ∧ IndexEntry_nar_basename e = b ∧ nar_digest e = d) ∧
  (∀ k e, entries !! k = Some e → IndexEntry_nar_basename e ≠ [] →
     is_Some (build_nar_lookup_map entries !! IndexEntry_nar_basename e)) ∧
  ((∀ k1 k2 e1 e2, entries !! k1 = Some e1 → entries !! k2 = Some e2 →
      IndexEntry_nar_basename e1 = IndexEntry_nar_basename e2 → nar_digest e1 = nar_digest e2) →
   ∀ k e, entries !! k = Some e → IndexEntry_nar_basename e ≠ [] →
     build_nar_lookup_map entries !! IndexEntry_nar_basename e = Some (nar_digest e)).
Proof.
  unfold build_nar_lookup_map.
  assert (Hsound : ∀ (es : list IndexEntry) m b d, foldl insert_nar m es !! b = Some d →
    m !! b = Some d ∨ b ≠ [] ∧ ∃ e, e ∈ es ∧ IndexEntry_nar_basename e = b ∧ nar_digest e = d).
  { induction es as [|e es IH]; intros m b d; simpl; [by left|]. intros Hl.
    apply IH in Hl as [Hl|(? & e' & ? & ?)]; [|right; set_solver].
    rewrite insert_nar_lookup in Hl. case_decide as Hd; [|by left].
    right. destruct Hd as [-> ?]. split; [done|]. exists e. simplify_eq. set_solver. }
  assert (Hcomplete : ∀ (es : list IndexEntry) m b,
    is_Some (m !! b) ∨ b ≠ [] ∧ (∃ e, e ∈ es ∧ IndexEntry_nar_basename e = b) →
    is_Some (foldl insert_nar m es !! b)).
  { induction es as [|e es IH]; intros m b; simpl.
    - intros [?|(_ & e & He & _)]; [done|set_solver].
    - intros Hc. apply IH. rewrite insert_nar_lookup. case_decide as Hd; [by left|].
      destruct Hc as [?|(Hb & e' & [->|He']%elem_of_cons & Hn)]; [by left|naive_solver|].
      right. eauto. }
  assert (Hs : ∀ b d, foldl insert_nar ∅ (map_values entries) !! b = Some d →
    b ≠ [] ∧ ∃ k e, entries !! k = Some e ∧ IndexEntry_nar_basename e = b ∧ nar_digest e = d).
  { intros b d [Hl|(Hb & e & [k Hk]%elem_of_map_values & ?)]%Hsound; [by rewrite lookup_empty in Hl|].
    eauto. }
  assert (Hc : ∀ k e, entries !! k = Some e → IndexEntry_nar_basename e ≠ [] →
    is_Some (foldl insert_nar ∅ (map_values entries) !! IndexEntry_nar_basename e)).
  { intros k e He Hne. apply Hcomplete. right. split; [done|]. exists e.
    split; [apply elem_of_map_values; eauto|done]. }
  split; [done|]. split; [done|]. intros Huniq k e He Hne.
  destruct (Hc k e He Hne) as [d Hd]. rewrite Hd. f_equal.
  apply Hs in Hd as (_ & k' & e' & He' & Hn & <-). by eapply Huniq.
Qed.
End lookup_map.
