(* ===== verification/NarInfo.v ===== *)
(** * NarInfo: the narinfo text format
    (crates/nixcache-core/src/narinfo.rs)

    [parse] reads a narinfo line by line into the mutable locals of the Rust
    function, here the record [Draft] and the list of the single-valued fields
    already seen; [to_narinfo_string] writes one. *)

From S2P Require Import Prelude Machine Str Text Error Types Lookup.

Local Open Scope N_scope.

Record NarInfo := { meta : NarInfoMeta; info_nar_size : N }.

(** The keys the [match] on [key] names. *)
Inductive Field :=
| StorePath | URL | Compression | FileHash | FileSize | NarHash | NarSize | References | Deriver
| CA | Sig.
#[export] Instance Field_eq_dec : EqDecision Field.
Proof. solve_decision. Defined.

Definition field_name (f : Field) : list N :=
  match f with
  | StorePath => lit "StorePath"
  | URL => lit "URL"
  | Compression => lit "Compression"
  | FileHash => lit "FileHash"
  | FileSize => lit "FileSize"
  | NarHash => lit "NarHash"
  | NarSize => lit "NarSize"
  | References => lit "References"
  | Deriver => lit "Deriver"
  | CA => lit "CA"
  | Sig => lit "Sig"
  end.
Definition all_fields : list Field :=
  [StorePath; URL; Compression; FileHash; FileSize; NarHash; NarSize; References; Deriver; CA; Sig].
Definition key_field (key : list N) : option Field :=
  list_find (λ f, key = field_name f) all_fields ≫= λ r, Some r.2.
(** [single_field]: every key but [Sig] may occur once. *)
Definition single_field (f : Field) : bool := match f with Sig => false | _ => true end.

(** The locals of [parse]. *)
Record Draft := {
  dr_store_path : option (list N);
  dr_nar_basename : option (list N);
  dr_compression : option (list N);
  dr_file_hash : option (list N);
  dr_file_size : option N;
  dr_nar_hash : option (list N);
  dr_nar_size : option N;
  dr_references : list (list N);
  dr_deriver : option (list N);
  dr_signatures : list (list N);
  dr_ca : option (list N) }.
Definition empty_draft : Draft := Build_Draft None None None None None None None [] None [] None.

Definition parse_nar_url (value : list N) : outcome NarInfoParseError (list N) :=
  if is_empty value then Err (EmptyField (lit "URL"))
  else if any_char bad_name_char value || contains_char 92 value then Err (InvalidUrl value)
  else if existsb (λ c, bool_decide (c = lit ".") || bool_decide (c = lit "..")) (split 47 value)
  then Err (InvalidUrl value)
  else
    let basename := extract_nar_basename value in
    _ ← map_err (λ _, InvalidUrl value) (validate_nar_basename basename);
    Ok basename.

(** A size field: non-empty, a [u64], not zero. *)
Definition parse_size (field value : list N) : outcome NarInfoParseError N :=
  _ ← ensure (negb (is_empty value)) (EmptyField field);
  parsed ← map_err (InvalidNumber field) (parse_u64 value);
  _ ← ensure (negb (parsed =? 0)) (NonPositiveSize field);
  Ok parsed.

(** A hash field. *)
Definition parse_hash (field value : list N) : outcome NarInfoParseError (list N) :=
  _ ← ensure (negb (is_empty value)) (EmptyField field);
  _ ← map_err (InvalidHash field) (validate_nix_hash value);
  Ok value.

(** The arm of the [match] for one key. *)
Definition parse_field (f : Field) (value : list N) (d : Draft)
    : outcome NarInfoParseError Draft :=
  let '(Build_Draft sp nb c fh fs nh ns refs dv sigs ca) := d in
  match f with
  | StorePath =>
      _ ← ensure (negb (is_empty value)) (EmptyField (lit "StorePath"));
      _ ← map_err (λ _, InvalidStorePath value) (validate_store_path value);
      Ok (Build_Draft (Some value) nb c fh fs nh ns refs dv sigs ca)
  | URL =>
      basename ← parse_nar_url value;
      Ok (Build_Draft sp (Some basename) c fh fs nh ns refs dv sigs ca)
  | Compression =>
      _ ← ensure (negb (is_empty value)) (EmptyField (lit "Compression"));
      Ok (Build_Draft sp nb (if decide (value = lit "none") then c else Some value)
            fh fs nh ns refs dv sigs ca)
  | FileHash =>
      v ← parse_hash (lit "FileHash") value;
      Ok (Build_Draft sp nb c (Some v) fs nh ns refs dv sigs ca)
  | FileSize =>
      n ← parse_size (lit "FileSize") value;
      Ok (Build_Draft sp nb c fh (Some n) nh ns refs dv sigs ca)
  | NarHash =>
      v ← parse_hash (lit "NarHash") value;
      Ok (Build_Draft sp nb c fh fs (Some v) ns refs dv sigs ca)
  | NarSize =>
      n ← parse_size (lit "NarSize") value;
      Ok (Build_Draft sp nb c fh fs nh (Some n) refs dv sigs ca)
  | References =>
      new ← collect_m (λ token, map_err (λ _, InvalidReference token)
                                  (normalize_store_reference token)) (split_whitespace value);
      Ok (Build_Draft sp nb c fh fs nh ns (refs ++ new) dv sigs ca)
  | Deriver =>
      _ ← ensure (negb (is_empty value)) (EmptyField (lit "Deriver"));
      normalized ← map_err (λ _, InvalidField (lit "Deriver")
                              (lit "must be a valid StorePath basename or full path"))
                     (normalize_store_reference value);
      _ ← ensure (ends_with (lit ".drv") normalized)
            (InvalidField (lit "Deriver") (lit "must end with .drv"));
      Ok (Build_Draft sp nb c fh fs nh ns refs (Some normalized) sigs ca)
  | Sig =>
      Ok (Build_Draft sp nb c fh fs nh ns refs dv
            (if is_empty value then sigs else sigs ++ [value]) ca)
  | CA =>
      _ ← ensure (negb (is_empty value)) (EmptyField (lit "CA"));
      Ok (Build_Draft sp nb c fh fs nh ns refs dv sigs (Some value))
  end.

(** [seen_fields.insert(field)] for a single-valued field. *)
Definition mark_seen (f : Field) (seen : list Field) : outcome NarInfoParseError (list Field) :=
  if single_field f then
    if decide (f ∈ seen) then Err (DuplicateField (field_name f)) else Ok (f :: seen)
  else Ok seen.

(** One round of the [for line in content.lines()] loop. *)
Definition parse_line (st : Draft * list Field) (line : list N)
    : outcome NarInfoParseError (Draft * list Field) :=
  let '(d, seen) := st in
  let line := trim line in
  if is_empty line || starts_with (lit "#") line then Ok st
  else
    match split_once 58 line with
    | None => Err (MalformedLine line)
    | Some (key, value) =>
        match key_field (trim key) with
        | None => Ok st
        | Some f =>
            seen' ← mark_seen f seen;
            d' ← parse_field f (trim value) d;
            Ok (d', seen')
        end
    end.

Definition finish (d : Draft) : outcome NarInfoParseError NarInfo :=
  store_path ← ok_or (MissingRequiredField (lit "StorePath")) (dr_store_path d);
  nar_basename ← ok_or (MissingRequiredField (lit "URL")) (dr_nar_basename d);
  nar_hash ← ok_or (MissingRequiredField (lit "NarHash")) (dr_nar_hash d);
  nar_size ← ok_or (MissingRequiredField (lit "NarSize")) (dr_nar_size d);
  let m := {| store_path := store_path; nar_basename := nar_basename;
              compression := dr_compression d; file_hash := dr_file_hash d;
              file_size := dr_file_size d; nar_hash := nar_hash;
              references := dr_references d; deriver := dr_deriver d;
              signatures := dr_signatures d; ca := dr_ca d |} in
  _ ← map_err (λ error, InvalidField (lit "NarInfo") (display_core_error error))
        (NarInfoMeta_validate_structure m);
  Ok {| meta := m; info_nar_size := nar_size |}.

Definition NarInfo_parse (content : list N) : outcome NarInfoParseError NarInfo :=
  if is_empty (trim content) then Err EmptyContent
  else
    '(d, _) ← fold_m parse_line (empty_draft, []) (lines content);
    finish d.

Definition NarInfo_to_narinfo_string (self : NarInfo) : list N :=
  NarInfoMeta_render (meta self) (info_nar_size self).
Definition NarInfo_url (self : NarInfo) : list N := lit "nar/" ++ nar_basename (meta self).
Definition NarInfo_store_hash (self : NarInfo) : option StoreHash :=
  NarInfoMeta_store_hash (meta self).
Definition NarInfo_into_meta (self : NarInfo) : NarInfoMeta * N := (meta self, info_nar_size self).

(** ** Facts: one line *)

(** A value that survives being written on a line and trimmed. *)
Definition text_ok (v : list N) : Prop := v ≠ [] ∧ trimmed v ∧ 10 ∉ v.
Definition field_line (f : Field) (v : list N) : list N := field_name f ++ lit ": " ++ v.

Lemma field_name_facts f :
  trimmed (field_name f) ∧ field_name f ≠ [] ∧ 58 ∉ field_name f ∧ 10 ∉ field_name f ∧
  (∀ rest, starts_with (lit "#") (field_name f ++ rest) = false) ∧ key_field (trim (field_name f)) = Some f.
Proof.
  split_and!; try (by destruct f); try (by destruct f; vm_compute).
  - destruct f; (apply contains_char_false; vm_compute; reflexivity).
  - destruct f; (apply contains_char_false; vm_compute; reflexivity).
Qed.

Lemma field_line_ok f v : text_ok v → 10 ∉ field_line f v ∧ trimmed (field_line f v).
Proof.
  intros (Hne & Ht & Hn). destruct (field_name_facts f) as (Hft & Hfn & _ & Hfl & _). split.
  - unfold field_line. rewrite !elem_of_app. intros [?|[Hc|?]]; [done| |done].
    by apply contains_char_true in Hc.
  - by apply trimmed_app.
Qed.

Lemma parse_line_field f v d seen : text_ok v →
  parse_line (d, seen) (field_line f v) =
  (seen' ← mark_seen f seen; d' ← parse_field f v d; Ok (d', seen')).
Proof.
  intros Hv. destruct (field_line_ok f v Hv) as [_ Hlt]. destruct Hv as (Hne & Ht & _).
  destruct (field_name_facts f) as (Hft & Hfn & Hfc & _ & Hhash & Hkey).
  unfold parse_line. rewrite (trimmed_eq _ Hlt).
  assert (is_empty (field_line f v) = false) as -> by (unfold field_line; by destruct (field_name f)).
  assert (starts_with (lit "#") (field_line f v) = false) as ->.
  { apply Hhash. }
  cbn [orb]. change (field_line f v) with (field_name f ++ 58 :: ([32] ++ v)).
  rewrite split_once_app by done. rewrite Hkey.
  rewrite trim_app_l by (repeat constructor). by rewrite trimmed_eq.
Qed.

(** The order in which [render] writes the fields. *)
Definition rank (f : Field) : nat :=
  match f with
  | StorePath => 0 | URL => 1 | Compression => 2 | FileHash => 3 | FileSize => 4 | NarHash => 5
  | NarSize => 6 | References => 7 | Deriver => 8 | CA => 9 | Sig => 10
  end.

(** From the draft [d], with only fields of rank below [k] seen, the lines [rest]
    are read without error and give [d']. *)
Definition reads (k : nat) (d : Draft) (rest : list (list N)) (d' : Draft) : Prop :=
  ∀ seen, Forall (λ g, (rank g < k)%nat) seen →
    ∃ seen', fold_m parse_line (d, seen) rest = Ok (d', seen').

Lemma reads_nil k d : reads k d [] d.
Proof. intros seen _. by exists seen. Qed.

Lemma reads_field f v k d d1 rest d' :
  (k ≤ rank f)%nat → single_field f = true → text_ok v → parse_field f v d = Ok d1 →
  reads (S (rank f)) d1 rest d' → reads k d (field_line f v :: rest) d'.
Proof.
  intros Hk Hs Hv Hp Hr seen Hseen. cbn [fold_m]. rewrite parse_line_field by done.
  unfold mark_seen. rewrite Hs, decide_False.
  2: { intros Hin. rewrite Forall_forall in Hseen. apply Hseen in Hin. lia. }
  cbn [mbind outcome_bind]. rewrite Hp. cbn [mbind outcome_bind]. apply Hr.
  constructor; [lia|]. eapply Forall_impl; [exact Hseen|]. simpl. lia.
Qed.

Lemma reads_opt f (o : option (list N)) k d d1 rest d' :
  (k ≤ rank f)%nat → single_field f = true →
  (∀ v, o = Some v → text_ok v ∧ parse_field f v d = Ok d1) → (o = None → d1 = d) →
  reads (S (rank f)) d1 rest d' →
  reads k d (opt_line (field_name f ++ lit ": ") o ++ rest) d'.
Proof.
  intros Hk Hs Hsome Hnone Hr. destruct o as [v|]; simpl opt_line.
  - destruct (Hsome v eq_refl) as [Hv Hp]. rewrite <-app_assoc. by eapply reads_field.
  - rewrite Hnone in Hr by done. intros seen Hseen. apply Hr.
    eapply Forall_impl; [exact Hseen|]. simpl. lia.
Qed.

Definition add_sigs (d : Draft) (sigs : list (list N)) : Draft :=
  Build_Draft (dr_store_path d) (dr_nar_basename d) (dr_compression d) (dr_file_hash d)
    (dr_file_size d) (dr_nar_hash d) (dr_nar_size d) (dr_references d) (dr_deriver d)
    (dr_signatures d ++ sigs) (dr_ca d).

Lemma reads_sigs sigs k d rest d' : Forall text_ok sigs →
  reads k (add_sigs d sigs) rest d' → reads k d ((field_line Sig <$> sigs) ++ rest) d'.
Proof.
  intros Hs. revert d. induction Hs as [|s sigs Hs _ IH]; intros d Hr; simpl.
  - destruct d. unfold add_sigs in Hr. simpl in Hr. by rewrite app_nil_r in Hr.
  - intros seen Hseen. cbn [fold_m]. rewrite parse_line_field by done.
    cbn [mark_seen single_field mbind outcome_bind].
    assert (parse_field Sig s d = Ok (add_sigs d [s])) as ->.
    { destruct d. unfold add_sigs. cbn. destruct Hs as [Hne _]. by destruct s. }
    cbn [mbind outcome_bind]. apply IH; [|done].
    unfold add_sigs in *. simpl in *. by rewrite <-app_assoc.
Qed.

(** ** Facts: one value *)

Lemma no_ws_text_ok v : v ≠ [] → no_ws v → text_ok v.
Proof.
  intros Hne Hw. split_and!; [done|by apply trimmed_no_ws|].
  unfold no_ws in Hw. rewrite Forall_forall in Hw. intros Hin%Hw. done.
Qed.

Lemma safe_name_no_ws v : safe_name v → no_ws v.
Proof.
  intros (_ & _ & _ & Hall). eapply Forall_impl; [exact Hall|]. intros c Hc.
  unfold bad_name_char in Hc. by apply orb_false_iff in Hc as [_ ?].
Qed.

Lemma extract_nar_basename_url b : b ≠ [] → no_ws b →
  extract_nar_basename (lit "nar/" ++ b) = b.
Proof.
  intros Hne Hb. unfold extract_nar_basename.
  assert (no_ws (lit "nar/" ++ b)) as Hw by (apply Forall_app; split; [by repeat constructor|done]).
  rewrite trimmed_eq by (by apply trimmed_no_ws).
  change (strip_prefix (lit "URL: nar/") (lit "nar/" ++ b)) with (@None (list N)).
  change (strip_prefix (lit "URL: ") (lit "nar/" ++ b)) with (@None (list N)). cbv iota.
  rewrite (proj2 (strip_prefix_Some _ _ b)) by done.
  unfold first_word. by rewrite no_ws_split_whitespace.
Qed.

Lemma parse_nar_url_written b : validate_nar_basename b = Ok () →
  parse_nar_url (lit "nar/" ++ b) = Ok b.
Proof.
  intros Hb. pose proof Hb as (Hs & Hdd & Hd)%validate_nar_basename_ok.
  pose proof Hs as (Hne & H47 & H92 & Hbad). pose proof (safe_name_no_ws b Hs) as Hw.
  unfold parse_nar_url. cbn [is_empty app lit].
  assert (is_empty (lit "nar/" ++ b) = false) as -> by done.
  assert (any_char bad_name_char (lit "nar/" ++ b) = false) as ->.
  { apply any_char_false, Forall_app. split; [by repeat constructor|done]. }
  assert (contains_char 92 (lit "nar/" ++ b) = false) as ->.
  { apply contains_char_false. rewrite elem_of_app. intros [Hc|?]; [|done].
    by apply contains_char_true in Hc. }
  cbn [orb]. change (lit "nar/" ++ b) with (lit "nar" ++ 47 :: b) at 1.
  rewrite split_app_sep by (by apply contains_char_false; vm_compute).
  rewrite split_no_sep by done. cbn [existsb].
  rewrite !(bool_decide_eq_false_2 (b = _)); [|intros ->; by vm_compute in Hdd|done].
  rewrite !(bool_decide_eq_false_2 (lit "nar" = _)) by done. cbn [orb].
  rewrite extract_nar_basename_url by done. by rewrite Hb.
Qed.

Lemma validate_nar_url_ok value b : parse_nar_url value = Ok b → validate_nar_basename b = Ok ().
Proof.
  unfold parse_nar_url. repeat case_match; try done. intros Hok. inv_ok.
  by match goal with u : () |- _ => destruct u | _ => idtac end.
Qed.

Lemma parse_size_show field n : n ≠ 0 → n < u64_bound → parse_size field (show_N n) = Ok n.
Proof.
  intros Hz Hn. unfold parse_size. destruct (show_N_spec n) as (Hne & _).
  apply is_empty_false in Hne. rewrite Hne, parse_u64_show by done.
  apply N.eqb_neq in Hz. cbn [map_err mbind outcome_bind negb ensure]. by rewrite Hz.
Qed.

Lemma show_text_ok n : text_ok (show_N n).
Proof.
  destruct (show_N_spec n) as (Hne & Hd & _). apply digits_no_ws in Hd as [Hw _].
  by apply no_ws_text_ok.
Qed.

Lemma join_words_text_ok ws : ws ≠ [] → Forall (λ w, w ≠ [] ∧ no_ws w) ws → text_ok (join [32] ws).
Proof.
  intros Hne Hall. induction Hall as [|w ws [Hwn Hw] Hall IH]; [done|].
  destruct ws as [|w' ws]; [by apply no_ws_text_ok|].
  change (join [32] (w :: w' :: ws)) with (w ++ [32] ++ join [32] (w' :: ws)).
  destruct IH as (Hjn & Hjt & Hj10); [done|].
  destruct (no_ws_text_ok w Hwn Hw) as (_ & Hwt & Hw10). split_and!.
  - by destruct w.
  - by apply trimmed_app.
  - set_solver.
Qed.

Lemma collect_normalized refs : Forall (λ r, normalize_store_reference r = Ok r) refs →
  collect_m (λ token, map_err (λ _, InvalidReference token) (normalize_store_reference token)) refs
  = Ok refs.
Proof.
  intros Hr. apply collect_m_ok. induction Hr as [|r refs Hr _ IH]; constructor; [by rewrite Hr|done].
Qed.

(** ** Writing, then reading *)

(** Metadata [render] can write on lines that [parse] reads back. *)
Record printable (m : NarInfoMeta) : Prop := {
  pr_store_path : text_ok (store_path m);
  pr_compression : ∀ v, compression m = Some v → text_ok v ∧ v ≠ lit "none";
  pr_file_hash : ∀ v, file_hash m = Some v → text_ok v;
  pr_file_size : ∀ v, file_size m = Some v → v < u64_bound;
  pr_nar_hash : text_ok (nar_hash m);
  pr_references : Forall (λ r, (r ≠ [] ∧ no_ws r) ∧ normalize_store_reference r = Ok r)
                    (references m);
  pr_deriver : ∀ v, deriver m = Some v → normalize_store_reference v = Ok v ∧ 10 ∉ v;
  pr_signatures : Forall text_ok (signatures m);
  pr_ca : ∀ v, ca m = Some v → text_ok v }.
Definition deriver_trimmed (m : NarInfoMeta) : Prop := ∀ v, deriver m = Some v → trimmed v.

(** The lines of [render]. *)
Definition render_lines (m : NarInfoMeta) (size : N) : list (list N) :=
  field_line StorePath (store_path m) :: field_line URL (lit "nar/" ++ nar_basename m)
  :: opt_line (field_name Compression ++ lit ": ") (compression m)
  ++ opt_line (field_name FileHash ++ lit ": ") (file_hash m)
  ++ opt_line (field_name FileSize ++ lit ": ") (show_N <$> file_size m)
  ++ field_line NarHash (nar_hash m) :: field_line NarSize (show_N size)
  :: opt_line (field_name References ++ lit ": ")
       (if bool_decide (references m = []) then None else Some (join [32] (references m)))
  ++ opt_line (field_name Deriver ++ lit ": ") (deriver m)
  ++ (field_line Sig <$> signatures m)
  ++ opt_line (field_name CA ++ lit ": ") (ca m).

Lemma render_as_lines m size : NarInfoMeta_render m size = join [10] (render_lines m size) ++ [10].
Proof.
  unfold NarInfoMeta_render, render_lines, field_line. f_equal. f_equal.
  case_bool_decide; reflexivity.
Qed.

Definition draft_of (m : NarInfoMeta) (size : N) : Draft :=
  Build_Draft (Some (store_path m)) (Some (nar_basename m)) (compression m) (file_hash m)
    (file_size m) (Some (nar_hash m)) (Some size) (references m) (deriver m) (signatures m) (ca m).

Lemma deriver_text_ok m v : meta_valid m → printable m → deriver_trimmed m → deriver m = Some v →
  text_ok v ∧ normalize_store_reference v = Ok v ∧ ends_with (lit ".drv") v = true.
Proof.
  intros [_ _ _ _ _ _ _ _ Hd] [_ _ _ _ _ _ Hp _ _] Ht Hv.
  destruct (Hd v Hv) as (n & Hn & He). destruct (Hp v Hv) as [Hp1 Hp2]. specialize (Ht v Hv).
  rewrite Hp1 in Hn. injection Hn as <-. split; [|done]. split_and!; [|done..].
  intros ->. by vm_compute in He.
Qed.

Lemma render_reads m size :
  meta_valid m → printable m → deriver_trimmed m → size ≠ 0 → size < u64_bound →
  reads 0 empty_draft (render_lines m size) (draft_of m size).
Proof.
  intros Hm Hp Hd Hz Hs. pose proof (deriver_text_ok m) as Hdrv.
  pose proof Hm as [[h Hsp] Hb Hfh _ Hca Hfs Hnh _ _].
  pose proof Hp as [Psp Pc Pfh Pfs Pnh Pr _ Psig Pca]. unfold render_lines, draft_of.
  eapply reads_field; [simpl; lia|done|done|..].
  { destruct Psp as [Hne _]. apply is_empty_false in Hne. cbn [parse_field empty_draft].
    rewrite Hne, Hsp. done. }
  eapply reads_field; [simpl; lia|done|..].
  { apply no_ws_text_ok; [done|]. apply Forall_app. split; [by repeat constructor|].
    apply safe_name_no_ws. by apply validate_nar_basename_ok in Hb as [? _]. }
  { cbn [parse_field]. by rewrite parse_nar_url_written. }
  eapply (reads_opt Compression _ _ _ (Build_Draft _ _ (compression m) _ _ _ _ _ _ _ _)); [simpl; lia|done|..].
  { intros v Hv. destruct (Pc v Hv) as [Hok Hn]. split; [done|]. cbn [parse_field].
    destruct Hok as [Hne _]. apply is_empty_false in Hne. rewrite Hne, Hv. cbn [negb ensure mbind outcome_bind].
    by rewrite decide_False. }
  { by intros ->. }
  eapply (reads_opt FileHash _ _ _ (Build_Draft _ _ _ (file_hash m) _ _ _ _ _ _ _)); [simpl; lia|done|..].
  { intros v Hv. split; [by apply Pfh|]. cbn [parse_field]. unfold parse_hash.
    destruct (Hfh v Hv) as [Hne Hh]. apply is_empty_false in Hne. by rewrite Hne, Hh, Hv. }
  { by intros ->. }
  eapply (reads_opt FileSize _ _ _ (Build_Draft _ _ _ _ (file_size m) _ _ _ _ _ _)); [simpl; lia|done|..].
  { intros v (n & Hv & ->)%fmap_Some. split; [apply show_text_ok|]. cbn [parse_field].
    rewrite parse_size_show; [by rewrite Hv|congruence|by apply Pfs]. }
  { by destruct (file_size m). }
  eapply reads_field; [simpl; lia|done|done|..].
  { cbn [parse_field]. unfold parse_hash. destruct Pnh as [Hne _]. apply is_empty_false in Hne.
    by rewrite Hne, Hnh. }
  eapply reads_field; [simpl; lia|done|apply show_text_ok|..].
  { cbn [parse_field]. by rewrite parse_size_show. }
  eapply (reads_opt References _ _ _ (Build_Draft _ _ _ _ _ _ _ (references m) _ _ _)); [simpl; lia|done|..].
  { intros v. case_bool_decide as Hr; [done|]. intros [= <-].
    assert (Forall (λ w, w ≠ [] ∧ no_ws w) (references m)) as Hw.
    { eapply Forall_impl; [exact Pr|]. simpl. tauto. }
    split; [by apply join_words_text_ok|]. cbn [parse_field].
    rewrite split_whitespace_join by done. rewrite collect_normalized; [done|].
    eapply Forall_impl; [exact Pr|]. simpl. tauto. }
  { case_bool_decide as Hr; [|done]. by rewrite Hr. }
  eapply (reads_opt Deriver _ _ _ (Build_Draft _ _ _ _ _ _ _ _ (deriver m) _ _)); [simpl; lia|done|..].
  { intros v Hv. destruct (Hdrv v Hm Hp Hd Hv) as (Hok & Hn & He). split; [done|].
    cbn [parse_field]. destruct Hok as [Hne _]. apply is_empty_false in Hne.
    rewrite Hne, Hn. cbn [negb ensure map_err mbind outcome_bind]. by rewrite He, Hv. }
  { by intros ->. }
  apply reads_sigs; [done|]. unfold add_sigs. cbn.
  rewrite <-(app_nil_r (opt_line _ (ca m))).
  eapply (reads_opt CA _ _ _ (Build_Draft _ _ _ _ _ _ _ _ _ _ (ca m))); [simpl; lia|done|..].
  { intros v Hv. split; [by apply Pca|]. cbn [parse_field]. destruct (Pca v Hv) as [Hne _].
    apply is_empty_false in Hne. by rewrite Hne, Hv. }
  { by intros ->. }
  apply reads_nil.
Qed.

Lemma opt_line_Forall (P : list N → Prop) f (o : option (list N)) :
  (∀ v, o = Some v → P (field_line f v)) → Forall P (opt_line (field_name f ++ lit ": ") o).
Proof.
  intros HP. destruct o as [v|]; simpl; [|constructor]. constructor; [|constructor].
  rewrite <-app_assoc. by apply HP.
Qed.

Lemma render_lines_ok m size : meta_valid m → printable m → deriver_trimmed m →
  Forall (λ l, 10 ∉ l ∧ trimmed l) (render_lines m size).
Proof.
  intros Hm Hp Hd. pose proof (deriver_text_ok m) as Hdrv.
  pose proof Hm as [_ Hb _ _ _ _ _ _ _]. pose proof Hp as [Psp Pc Pfh Pfs Pnh Pr _ Psig Pca].
  assert (Hline : ∀ f v, text_ok v → 10 ∉ field_line f v ∧ trimmed (field_line f v))
    by (by intros; apply field_line_ok).
  assert (Hurl : text_ok (lit "nar/" ++ nar_basename m)).
  { apply no_ws_text_ok; [done|]. apply Forall_app. split; [by repeat constructor|].
    apply safe_name_no_ws. by apply validate_nar_basename_ok in Hb as [? _]. }
  pose proof show_text_ok as Hnum.
  unfold render_lines. rewrite !Forall_cons, !Forall_app, !Forall_cons, !Forall_app.
  split_and!; try (by apply Hline); try (apply opt_line_Forall; intros v Hv; apply Hline).
  - by destruct (Pc v Hv).
  - by apply Pfh.
  - apply fmap_Some in Hv as (n & _ & ->). apply show_text_ok.
  - case_bool_decide; [done|]. injection Hv as <-. apply join_words_text_ok; [done|].
    eapply Forall_impl; [exact Pr|]. simpl. tauto.
  - by destruct (Hdrv v Hm Hp Hd Hv) as [? _].
  - apply Forall_fmap. eapply Forall_impl; [exact Psig|]. intros v Hv. by apply Hline.
  - by apply Pca.
Qed.

(** What [render] writes, [parse] reads back. *)
Lemma parse_render m size :
  meta_valid m → printable m → deriver_trimmed m → size ≠ 0 → size < u64_bound →
  NarInfo_parse (NarInfoMeta_render m size) = Ok {| meta := m; info_nar_size := size |}.
Proof.
  intros Hm Hp Hd Hz Hs. unfold NarInfo_parse. rewrite render_as_lines.
  destruct (is_empty (trim _)) eqn:He.
  { exfalso. apply is_empty_true in He.
    destruct (trim_spec (join [10] (render_lines m size) ++ [10])) as (p & q & Heq & Hpw & Hqw & _).
    rewrite He in Heq. assert (Forall (λ c, is_whitespace c = true)
      (join [10] (render_lines m size) ++ [10])) as Hall by (rewrite Heq; by apply Forall_app).
    apply Forall_app in Hall as [Hall _].
    assert (∃ r, join [10] (render_lines m size) = 83 :: r) as [r Hr].
    { unfold render_lines. eexists. reflexivity. }
    rewrite Hr in Hall. apply Forall_cons in Hall as [Hc _]. by vm_compute in Hc. }
  rewrite lines_join; [|by unfold render_lines|by apply render_lines_ok].
  destruct (render_reads m size Hm Hp Hd Hz Hs [] (Forall_nil_2 _)) as [seen Hr].
  rewrite Hr. cbn [mbind outcome_bind]. unfold finish, draft_of.
  cbn [dr_store_path dr_nar_basename dr_nar_hash dr_nar_size dr_compression dr_file_hash
    dr_file_size dr_references dr_deriver dr_signatures dr_ca ok_or mbind outcome_bind].
  rewrite (proj2 (NarInfoMeta_validate_ok _ ())); [by destruct m|]. by destruct m.
Qed.

(** ** Reading *)

(** What holds of the locals at every line. *)
Record draft_ok (d : Draft) : Prop := {
  do_store_path : ∀ v, dr_store_path d = Some v → text_ok v;
  do_compression : ∀ v, dr_compression d = Some v → text_ok v ∧ v ≠ lit "none";
  do_file_hash : ∀ v, dr_file_hash d = Some v → text_ok v;
  do_file_size : ∀ n, dr_file_size d = Some n → n < u64_bound;
  do_nar_hash : ∀ v, dr_nar_hash d = Some v → text_ok v;
  do_nar_size : ∀ n, dr_nar_size d = Some n → n ≠ 0 ∧ n < u64_bound;
  do_references : Forall (λ r, (r ≠ [] ∧ no_ws r) ∧ normalize_store_reference r = Ok r)
                    (dr_references d);
  do_deriver : ∀ v, dr_deriver d = Some v → normalize_store_reference v = Ok v ∧ 10 ∉ v;
  do_signatures : Forall text_ok (dr_signatures d);
  do_ca : ∀ v, dr_ca d = Some v → text_ok v }.

Lemma parse_size_ok field v n : parse_size field v = Ok n → n ≠ 0 ∧ n < u64_bound.
Proof.
  unfold parse_size. intros (_ & _ & Hok)%bind_ok.
  apply bind_ok in Hok as (m & Hm%map_err_ok & Hok). apply bind_ok in Hok as (_ & Hz%ensure_ok & [= <-]).
  rewrite negb_true_iff, N.eqb_neq in Hz. split; [done|]. by eapply parse_u64_bound.
Qed.

Lemma parse_hash_ok field v w : parse_hash field v = Ok w → w = v ∧ v ≠ [].
Proof.
  unfold parse_hash. intros (_ & Hne%ensure_ok & Hok)%bind_ok. apply bind_ok in Hok as (_ & _ & [= <-]).
  rewrite negb_true_iff, is_empty_false in Hne. done.
Qed.

Lemma normalized_word token n : token ≠ [] → no_ws token →
  normalize_store_reference token = Ok n →
  (n ≠ [] ∧ no_ws n) ∧ normalize_store_reference n = Ok n.
Proof.
  intros Hne Hw Hn. pose proof (normalize_idemp _ _ Hn) as Hi.
  apply normalize_store_reference_ok in Hn as (Hv & _ & _ & h & Hh).
  apply validate_store_path_basename_ok in Hh as (x & y & Heq & _). split; [|done]. split.
  - rewrite Heq. by destruct x.
  - destruct Hv as [->| ->]; [|done]. by apply Forall_app in Hw as [_ ?].
Qed.

Lemma parse_field_ok f v d d' :
  (v ≠ [] → text_ok v) → 10 ∉ v → draft_ok d → parse_field f v d = Ok d' → draft_ok d'.
Proof.
  intros Ht Hn Hd. destruct d as [sp nb c fh fs nh ns refs dv sigs ca].
  destruct Hd as [Isp Ic Ifh Ifs Inh Ins Iref Idv Isig Ica]. simpl in *.
  assert (Hemp : ∀ {E} (e : E) u, ensure (negb (is_empty v)) e = Ok u → text_ok v).
  { intros E e u Hu%ensure_ok. apply Ht. by rewrite negb_true_iff, is_empty_false in Hu. }
  destruct f; simpl; intros Hok.
  - apply bind_ok in Hok as (u & Hv%Hemp & Hok). inv_ok. split; simpl; try done. by intros ? [= <-].
  - inv_ok. by split.
  - apply bind_ok in Hok as (u & Hv%Hemp & [= <-]). split; simpl; try done.
    case_decide; [done|]. by intros ? [= <-].
  - apply bind_ok in Hok as (w & [-> Hw]%parse_hash_ok & [= <-]). split; simpl; try done.
    intros ? [= <-]. by apply Ht.
  - apply bind_ok in Hok as (n & [Hz Hb]%parse_size_ok & [= <-]). split; simpl; try done.
    by intros ? [= <-].
  - apply bind_ok in Hok as (w & [-> Hw]%parse_hash_ok & [= <-]). split; simpl; try done.
    intros ? [= <-]. by apply Ht.
  - apply bind_ok in Hok as (n & Hb%parse_size_ok & [= <-]). split; simpl; try done.
    by intros ? [= <-].
  - apply bind_ok in Hok as (new & Hc%collect_m_ok & [= <-]). split; simpl; try done.
    apply Forall_app. split; [done|].
    assert (Forall (λ w, w ≠ [] ∧ no_ws w) (split_whitespace v)) as Hw.
    { apply Forall_forall. intros w Hin. apply split_whitespace_words in Hin. tauto. }
    induction Hc as [|t n ts ns' Htn _ IH]; [constructor|].
    apply Forall_cons in Hw as [[??] Hw]. constructor; [|by apply IH].
    apply map_err_ok in Htn. by eapply normalized_word.
  - apply bind_ok in Hok as (u & Hv%Hemp & Hok). inv_ok. split; simpl; try done.
    intros w [= <-].
    match goal with Hx : normalize_store_reference v = Ok ?z |- _ =>
      split; [by eapply normalize_idemp|];
      apply normalize_store_reference_ok in Hx as ([->| ->] & _); [|done] end.
    intros Hin. apply Hn. apply elem_of_app. by right.
  - apply bind_ok in Hok as (u & Hv%Hemp & [= <-]). split; simpl; try done. by intros ? [= <-].
  - injection Hok as <-. split; simpl; try done. destruct (is_empty v) eqn:E; [done|].
    apply is_empty_false in E. apply Forall_app. split; [done|]. constructor; [by apply Ht|constructor].
Qed.

Lemma parse_line_ok st line st' : 10 ∉ line → draft_ok st.1 → parse_line st line = Ok st' →
  draft_ok st'.1.
Proof.
  destruct st as [d seen]. intros Hn Hd. unfold parse_line.
  assert (10 ∉ trim line) as Hnt.
  { intros Hin. apply Hn. destruct (trim_spec line) as (p & q & -> & _). set_solver. }
  destruct (is_empty _ || _); [by intros [= <-]|].
  destruct (split_once 58 (trim line)) as [[key value]|] eqn:E; [|done].
  destruct (key_field (trim key)) as [f|]; [|by intros [= <-]].
  intros (seen' & _ & Hok)%bind_ok. apply bind_ok in Hok as (d' & Hf & [= <-]). simpl.
  apply split_once_Some in E as [Heq _]. assert (10 ∉ trim value) as Hv.
  { intros Hin. apply Hnt. rewrite Heq. destruct (trim_spec value) as (p & q & -> & _). set_solver. }
  eapply parse_field_ok; [..|exact Hf]; [|done|done].
  intros Hne. split_and!; [done|apply trimmed_trim|done].
Qed.

Lemma parse_lines_ok ls st st' : Forall (λ l, 10 ∉ l) ls → draft_ok st.1 →
  fold_m parse_line st ls = Ok st' → draft_ok st'.1.
Proof.
  intros Hls. revert st. induction Hls as [|l ls Hl _ IH]; intros st Hd; simpl.
  - by intros [= <-].
  - intros (st1 & Hs & Hr)%bind_ok. eapply IH; [|exact Hr]. by eapply parse_line_ok.
Qed.

Lemma empty_draft_ok : draft_ok empty_draft.
Proof. split; simpl; (done || constructor). Qed.

Lemma NarInfo_parse_ok c n : NarInfo_parse c = Ok n →
  meta_valid (meta n) ∧ printable (meta n) ∧ info_nar_size n ≠ 0 ∧ info_nar_size n < u64_bound.
Proof.
  unfold NarInfo_parse. destruct (is_empty (trim c)); [done|].
  intros ([d seen] & Hf & Hok)%bind_ok.
  assert (draft_ok d) as [Isp Ic Ifh Ifs Inh Ins Iref Idv Isig Ica].
  { change d with (d, seen).1. eapply parse_lines_ok; [| |exact Hf]; [|apply empty_draft_ok].
    apply Forall_forall. intros l Hl. by eapply lines_no_newline. }
  unfold finish in Hok. apply bind_ok in Hok as (sp & Hsp%ok_or_ok & Hok).
  apply bind_ok in Hok as (nb & Hnb%ok_or_ok & Hok).
  apply bind_ok in Hok as (nh & Hnh%ok_or_ok & Hok).
  apply bind_ok in Hok as (ns & Hns%ok_or_ok & Hok).
  apply bind_ok in Hok as (u & Hv%map_err_ok%NarInfoMeta_validate_ok & [= <-]). simpl.
  split; [done|]. split; [|by apply Ins]. split; simpl; try done; [by apply Isp|by apply Inh].
Qed.

Lemma parse_u64_no_panic s : no_panic (parse_u64 s).
Proof.
  assert (∀ b s acc, no_panic (parse_digits b acc s)) as Hd.
  { intros b t. induction t as [|c t IH]; intros acc; cbn [parse_digits]; [done|].
    repeat case_match; solve [done | apply IH]. }
  unfold parse_u64. repeat case_match; solve [done | apply Hd].
Qed.

Lemma parse_field_no_panic f v d : no_panic (parse_field f v d).
Proof.
  pose proof (parse_u64_no_panic v) as Hp. destruct d. destruct f; simpl;
    unfold parse_size, parse_hash, parse_nar_url, validate_nar_basename;
    repeat (first [apply no_panic_bind; [|intros ? _] | apply no_panic_map_err
      | apply no_panic_collect_m; intros ? _ | case_match | assumption | by eauto with outcome]).
Qed.

Lemma NarInfo_parse_no_panic c : no_panic (NarInfo_parse c).
Proof.
  unfold NarInfo_parse. case_match; [done|]. apply no_panic_bind.
  - generalize (empty_draft, @nil Field). induction (lines c) as [|l ls IH]; intros st; [done|].
    cbn [fold_m]. apply no_panic_bind; [|intros st' _; apply IH].
    unfold parse_line, mark_seen. destruct st as [d seen].
    repeat case_match; try done; apply no_panic_bind; try done; intros ? _;
      (apply no_panic_bind; [apply parse_field_no_panic|done]).
  - intros [d seen] _. unfold finish. repeat (apply no_panic_bind; [eauto with outcome|intros ? _]).
    done.
Qed.

(** ** Properties *)

(** [NarInfo::parse] never panics, and what it accepts is usable: the
    metadata passes [validate_structure], the NAR size is a positive [u64], each
    reference and the deriver is a bare store basename (its own normal form),
    and every text field is trimmed, non-empty and on one line. *)
Theorem NarInfo_parse_sound (content : list N) :
  no_panic (NarInfo_parse content) ∧
  ∀ n, NarInfo_parse content = Ok n →
    NarInfoMeta_validate_structure (meta n) = Ok () ∧
    0 < info_nar_size n < u64_bound ∧ printable (meta n).
Proof.
  split; [apply NarInfo_parse_no_panic|]. intros n (Hm & Hp & Hz & Hb)%NarInfo_parse_ok.
  split; [by apply NarInfoMeta_validate_ok|]. split; [lia|done].
Qed.

(** C36: the narinfo round trip.  Whatever text was accepted, writing the result
    with [to_narinfo_string] and parsing it again gives the same narinfo, as long
    as the deriver has no whitespace at its ends. *)
Theorem narinfo_roundtrip (content : list N) (n : NarInfo)
    (Hp : NarInfo_parse content = Ok n) (Hd : deriver_trimmed (meta n)) :
  NarInfo_parse (NarInfo_to_narinfo_string n) = Ok n.
Proof.
  apply NarInfo_parse_ok in Hp as (Hm & Hpr & Hz & Hb).
  unfold NarInfo_to_narinfo_string. rewrite parse_render by done. by destruct n.
Qed.

(** any valid, printable metadata an index entry holds is served as a narinfo
    text that parses back to it, whatever produced the entry. *)
Theorem entry_narinfo_roundtrip (e : IndexEntry)
    (Hm : NarInfoMeta_validate_structure (narinfo_meta e) = Ok ())
    (Hp : printable (narinfo_meta e)) (Hd : deriver_trimmed (narinfo_meta e))
    (Hz : nar_size e ≠ 0) (Hb : nar_size e < u64_bound) :
  NarInfo_parse (IndexEntry_to_narinfo_string e) =
  Ok {| meta := narinfo_meta e; info_nar_size := nar_size e |}.
Proof. apply NarInfoMeta_validate_ok in Hm. by apply parse_render. Qed.

(** ** Witnesses and counterexamples *)

Definition sample_nar_hash : list N :=
  lit "sha256:0d1b50428e2194f481ad1cf387f3b8908861cf12674e1d743a6d9627fb2e2ff0".
(** A narinfo with the given extra lines. *)
Definition sample_text (extra : list (list N)) : list N :=
  join [10] ([lit "StorePath: /nix/store/s66mzxpvicwk07gjbjfw9izjfa797vsw-pkg";
              lit "URL: nar/pkg.nar.xz"; lit "NarHash: " ++ sample_nar_hash; lit "NarSize: 42"]
             ++ extra).
Definition sample_info (comp drv : option (list N)) : NarInfo := {|
  meta := {| store_path := lit "/nix/store/s66mzxpvicwk07gjbjfw9izjfa797vsw-pkg";
             nar_basename := lit "pkg.nar.xz"; compression := comp; file_hash := None;
             file_size := None; nar_hash := sample_nar_hash;
             references := []; deriver := drv; signatures := []; ca := None |};
  info_nar_size := 42 |}.
Definition sample_drv : list N := lit "s66mzxpvicwk07gjbjfw9izjfa797vsw-pkg.drv".

Lemma narinfo_roundtrip_witness :
  NarInfo_parse (NarInfo_to_narinfo_string (sample_info (Some (lit "xz")) (Some sample_drv)))
  = Ok (sample_info (Some (lit "xz")) (Some sample_drv)).
Proof.
  apply (narinfo_roundtrip (sample_text [lit "Compression: xz";
    lit "Deriver: /nix/store/" ++ sample_drv])).
  - vm_compute. reflexivity.
  - intros v [= <-]. vm_compute. split; reflexivity.
Defined.

Lemma entry_narinfo_roundtrip_witness :
  NarInfo_parse (IndexEntry_to_narinfo_string (sample_entry sample_hash [] (lit "29"))) =
  Ok {| meta := narinfo_meta (sample_entry sample_hash [] (lit "29")); info_nar_size := 100 |}.
Proof.
  apply (entry_narinfo_roundtrip (sample_entry sample_hash [] (lit "29"))).
  - vm_compute. reflexivity.
  - assert (Hok : ∀ v, is_empty v = false → trim v = v → contains_char 10 v = false → text_ok v).
    { intros v He%is_empty_false Ht Hn%contains_char_false. split_and!; [done| |done].
      rewrite <-Ht. apply trimmed_trim. }
    split; simpl narinfo_meta; try (intros ? Hx; discriminate Hx).
    + apply Hok; vm_compute; reflexivity.
    + intros v [= <-]. split; [apply Hok; vm_compute; reflexivity | discriminate].
    + apply Hok; vm_compute; reflexivity.
    + constructor.
    + constructor.
  - intros v Hv. discriminate Hv.
  - discriminate.
  - vm_compute. reflexivity.
Defined.

(** Without the side condition the round trip fails: a deriver given as a full
    path with a space before its hash is accepted, and its written form parses to
    another value. *)
Theorem narinfo_deriver_whitespace :
  let n := sample_info None (Some (32 :: sample_drv)) in
  NarInfo_parse (sample_text [lit "Deriver: /nix/store/ " ++ sample_drv]) = Ok n ∧
  NarInfo_parse (NarInfo_to_narinfo_string n) = Ok (sample_info None (Some sample_drv)).
Proof. vm_compute. done. Qed.

(** ["Compression: none"] is read as an absent compression, and the narinfo that
    is written back has no [Compression] line at all. *)
Theorem narinfo_drops_compression_none :
  NarInfo_parse (sample_text [lit "Compression: none"]) = Ok (sample_info None None) ∧
  contains (lit "Compression") (NarInfo_to_narinfo_string (sample_info None None)) = false.
Proof. vm_compute. done. Qed.
