(* ===== verification/Filter.v ===== *)
(** * Filter: predicates, selectors and glob patterns
    (crates/nixcache-core/src/filter.rs, lines 1-360 and the pattern matcher)

    A [DateTime<Utc>] is its instant in [Z], a [HashSet] a [gset]. *)

From S2P Require Import Prelude Machine Str Error Types.

Local Open Scope N_scope.

#[export] Instance SystemArch_countable : Countable SystemArch := finite.finite_countable.

Inductive CascadeMode := Exact | Dependents | Transitive | FullTree.
#[export] Instance CascadeMode_eq_dec : EqDecision CascadeMode.
Proof. solve_decision. Defined.
Inductive TimeFilter :=
| Before (dt : Z)
| After (dt : Z)
| Between (start_ end_ : Z).
Inductive SizeFilter :=
| MinBytes (min : N)
| MaxBytes (max : N)
| Range (min max : N).
Inductive SortBy := AddedDate | SortNarSize | SortName | SortStoreHash.
Inductive SortOrder := Desc | Asc.

(** ** Patterns *)

(** The [while t_idx < t_len] loop of [wildcard_match].  The result is [None]
    when the fuel runs out, [Some None] for [return false] and [Some (Some p)]
    when the loop ends with [p_idx = p]. *)
Fixpoint wildcard_loop (fuel : nat) (p t : list N) (p_idx t_idx : nat) (star_idx : option nat)
    (match_idx : nat) : option (option nat) :=
  match fuel with
  | O => None
  | S fuel =>
      match t !! t_idx with
      | None => Some (Some p_idx)
      | Some tc =>
          if decide (p !! p_idx = Some 63 ∨ p !! p_idx = Some tc)
          then wildcard_loop fuel p t (S p_idx) (S t_idx) star_idx match_idx
          else if decide (p !! p_idx = Some 42)
          then wildcard_loop fuel p t (S p_idx) t_idx (Some p_idx) t_idx
          else
            match star_idx with
            | Some star => wildcard_loop fuel p t (S star) (S match_idx) star_idx (S match_idx)
            | None => Some None
            end
      end
  end.

(** Enough rounds for every input (see [wildcard_loop_total]). *)
Definition wildcard_fuel (p t : list N) : nat := S (length p + length t * S (length p)).

(** After the loop the rest of the pattern must be stars. *)
Definition wildcard_bytes (p t : list N) : bool :=
  match wildcard_loop (wildcard_fuel p t) p t 0 0 None 0 with
  | Some (Some p_idx) => is_empty (drop_while (N.eqb 42) (drop p_idx p))
  | _ => false
  end.
Definition wildcard_match (pattern text : list N) : bool :=
  wildcard_bytes (utf8 pattern) (utf8 text).

Definition matches_pattern (pattern text : list N) : bool :=
  if contains_char 42 pattern || contains_char 63 pattern
  then wildcard_match pattern text
  else contains pattern text.

(** ** Predicates *)

Record FilterPredicates := {
  store_hashes : gset StoreHash;
  patterns : list (list N);
  systems : gset SystemArch;
  time_filter : option TimeFilter;
  size_filter : option SizeFilter;
  origin_jobs : gset (list N);
  origin_runs : gset N }.
Definition FilterPredicates_default : FilterPredicates := {|
  store_hashes := ∅; patterns := []; systems := ∅; time_filter := None; size_filter := None;
  origin_jobs := ∅; origin_runs := ∅ |}.

Definition FilterPredicates_is_empty (self : FilterPredicates) : bool :=
  bool_decide (store_hashes self = ∅) && bool_decide (patterns self = [])
  && bool_decide (systems self = ∅) && negb (bool_decide (is_Some (time_filter self)))
  && negb (bool_decide (is_Some (size_filter self)))
  && bool_decide (origin_jobs self = ∅) && bool_decide (origin_runs self = ∅).

Definition has_item_filters (self : FilterPredicates) : bool :=
  negb (bool_decide (store_hashes self = ∅)) || negb (bool_decide (patterns self = []))
  || bool_decide (is_Some (time_filter self)) || bool_decide (is_Some (size_filter self))
  || negb (bool_decide (origin_jobs self = ∅)) || negb (bool_decide (origin_runs self = ∅)).

Definition time_matched (tf : TimeFilter) (added_utc : Z) : bool :=
  match tf with
  | Before dt => bool_decide (added_utc < dt)%Z
  | After dt => bool_decide (dt < added_utc)%Z
  | Between s e => bool_decide (s ≤ added_utc)%Z && bool_decide (added_utc ≤ e)%Z
  end.
Definition size_matched (sf : SizeFilter) (size : N) : bool :=
  match sf with
  | MinBytes min => min <=? size
  | MaxBytes max => size <=? max
  | Range min max => (min <=? size) && (size <=? max)
  end.
Definition pattern_hits (entry : IndexEntry) (pat : list N) : bool :=
  matches_pattern pat (name entry) || matches_pattern pat (store_path (narinfo_meta entry))
  || matches_pattern pat (nar_basename (narinfo_meta entry)).

(** [if !systems.is_empty() { the entry's system must be one of them }]. *)
Definition system_selected (wanted : gset SystemArch) (entry : IndexEntry) : bool :=
  bool_decide (wanted = ∅) || some_and (system entry) (λ s, bool_decide (s ∈ wanted)).

(** The six tests of [evaluate_entry], in order. *)
Definition hash_test (self : FilterPredicates) (hash : StoreHash) : bool :=
  bool_decide (hash ∈ store_hashes self).
Definition pattern_test (self : FilterPredicates) (entry : IndexEntry) : bool :=
  existsb (pattern_hits entry) (patterns self).
Definition time_test `{Chrono} (self : FilterPredicates) (entry : IndexEntry) : bool :=
  match time_filter self, parse_from_rfc3339 (added entry) with
  | Some tf, Some added_utc => time_matched tf added_utc
  | _, _ => false
  end.
Definition size_test (self : FilterPredicates) (entry : IndexEntry) : bool :=
  some_and (size_filter self) (λ sf, size_matched sf (nar_size entry)).
Definition job_test (self : FilterPredicates) (entry : IndexEntry) : bool :=
  some_and (origin entry) (λ o,
    negb (bool_decide (origin_jobs self = ∅))
    && some_and (job_id o) (λ j, bool_decide (j ∈ origin_jobs self))).
Definition run_test `{HashIter} (self : FilterPredicates) (entry : IndexEntry) : bool :=
  some_and (origin entry) (λ o,
    existsb (λ r, bool_decide (run_id o = Some r)) (set_iter (origin_runs self))).

Definition reason (b : bool) (text : list N) : list (list N) := if b then [text] else [].

Definition evaluate_entry `{Chrono} `{HashIter} (self : FilterPredicates) (hash : StoreHash)
    (entry : IndexEntry) : option (list (list N)) :=
  if negb (system_selected (systems self) entry) then None
  else if negb (has_item_filters self) then Some [lit "System Architecture Match"]
  else
    let reasons :=
      reason (hash_test self hash) (lit "Explicit Hash Match")
      ++ reason (pattern_test self entry) (lit "Pattern Match")
      ++ reason (time_test self entry) (lit "Time Range Match")
      ++ reason (size_test self entry) (lit "Size Threshold Match")
      ++ reason (job_test self entry) (lit "Origin Job Match")
      ++ reason (run_test self entry) (lit "Origin Run Match") in
    if bool_decide (reasons = []) then None else Some reasons.

Definition sorted_strings (l : list (list N)) : list (list N) := merge_sort str_le l.
Definition bracketed (label : list N) (items : list (list N)) : list N :=
  label ++ lit "=[" ++ join (lit ", ") items ++ lit "]".

Definition describe_systems `{HashIter} (s : gset SystemArch) : list N :=
  bracketed (lit "systems") (sorted_strings (SystemArch_as_str <$> set_iter s)).

Definition FilterPredicates_describe `{Chrono} `{HashIter} (self : FilterPredicates)
    : list (list N) :=
  reason (negb (bool_decide (store_hashes self = ∅)))
    (lit "hashes=[" ++ show_N (N.of_nat (size (store_hashes self))) ++ lit " items]")
  ++ reason (negb (bool_decide (patterns self = []))) (bracketed (lit "patterns") (patterns self))
  ++ reason (negb (bool_decide (systems self = ∅))) (describe_systems (systems self))
  ++ match time_filter self with
     | Some (Before dt) => [lit "older_than=" ++ to_rfc3339 dt]
     | Some (After dt) => [lit "newer_than=" ++ to_rfc3339 dt]
     | Some (Between s e) => [bracketed (lit "time_between") [to_rfc3339 s; to_rfc3339 e]]
     | None => []
     end
  ++ match size_filter self with
     | Some (MinBytes min) => [lit "min_size=" ++ show_N min ++ lit "B"]
     | Some (MaxBytes max) => [lit "max_size=" ++ show_N max ++ lit "B"]
     | Some (Range min max) => [bracketed (lit "size_range") [show_N min ++ lit "B"; show_N max ++ lit "B"]]
     | None => []
     end
  ++ reason (negb (bool_decide (origin_jobs self = ∅)))
       (bracketed (lit "origin_jobs") (sorted_strings (set_iter (origin_jobs self))))
  ++ reason (negb (bool_decide (origin_runs self = ∅)))
       (bracketed (lit "origin_runs") (sorted_strings (show_N <$> set_iter (origin_runs self)))).

(** ** Selectors *)

Inductive SelectionScope :=
| All (systems : gset SystemArch)
| Filtered (predicates : FilterPredicates)
| ScopeNone.

Record CacheSelector := {
  scope : SelectionScope;
  cascade_mode : CascadeMode;
  protect_gc_roots : bool }.

Definition CacheSelector_all (systems : gset SystemArch) : CacheSelector :=
  {| scope := All systems; cascade_mode := Exact; protect_gc_roots := false |}.
Definition CacheSelector_filtered (predicates : FilterPredicates) : CacheSelector :=
  {| scope := Filtered predicates; cascade_mode := Exact; protect_gc_roots := false |}.
Definition CacheSelector_none : CacheSelector :=
  {| scope := ScopeNone; cascade_mode := Exact; protect_gc_roots := false |}.
Definition with_cascade (self : CacheSelector) (mode : CascadeMode) : CacheSelector :=
  {| scope := scope self; cascade_mode := mode; protect_gc_roots := protect_gc_roots self |}.
Definition with_protect_gc_roots (self : CacheSelector) (protect : bool) : CacheSelector :=
  {| scope := scope self; cascade_mode := cascade_mode self; protect_gc_roots := protect |}.

Definition target_systems (self : CacheSelector) : option (gset SystemArch) :=
  match scope self with
  | All s => if bool_decide (s = ∅) then None else Some s
  | Filtered p => if bool_decide (systems p = ∅) then None else Some (systems p)
  | ScopeNone => None
  end.

(** [format!("cascade={:?}", mode).to_lowercase()]. *)
Definition describe_cascade (mode : CascadeMode) : list N :=
  match mode with
  | Exact => lit "cascade=exact"
  | Dependents => lit "cascade=dependents"
  | Transitive => lit "cascade=transitive"
  | FullTree => lit "cascade=fulltree"
  end.

Definition CacheSelector_describe `{Chrono} `{HashIter} (self : CacheSelector) : list N :=
  let parts :=
    match scope self with
    | All s => [lit "all=true"] ++ reason (negb (bool_decide (s = ∅))) (describe_systems s)
    | Filtered p => FilterPredicates_describe p
    | ScopeNone => [lit "none=true"]
    end
    ++ reason (protect_gc_roots self) (lit "protect_gc_roots=true")
    ++ reason (negb (bool_decide (cascade_mode self = Exact)))
         (describe_cascade (cascade_mode self)) in
  if bool_decide (parts = []) then lit "Default Scope (Exact Match / All)"
  else join (lit ", ") parts.

(** ** The meaning of a glob pattern, on bytes *)

Inductive glob : list N → list N → Prop :=
| glob_nil : glob [] []
| glob_star_stop p t : glob p t → glob (42 :: p) t
| glob_star_more p c t : glob (42 :: p) t → glob (42 :: p) (c :: t)
| glob_any p c t : glob p t → glob (63 :: p) (c :: t)
| glob_char p c t : c ≠ 42 → c ≠ 63 → glob p t → glob (c :: p) (c :: t).

Lemma glob_star p t : glob (42 :: p) t ↔ ∃ k, (k ≤ length t)%nat ∧ glob p (drop k t).
Proof.
  split.
  - remember (42 :: p) as q eqn:Hq. induction 1 as [|q t Hg _|q c t Hg IH|q c t Hg _|q c t H1 H2 Hg _];
      simplify_eq.
    + exists 0%nat. split; [lia|done].
    + destruct (IH eq_refl) as (k & Hk & Hgk). exists (S k). simpl. split; [lia|done].
  - intros (k & Hk & Hg). revert t Hk Hg. induction k as [|k IH]; intros t Hk Hg.
    + by constructor.
    + destruct t as [|c t]; simpl in *; [lia|]. apply glob_star_more. apply IH; [lia|done].
Qed.

Lemma glob_step pc tc p t : pc ≠ 42 →
  glob (pc :: p) (tc :: t) ↔ (pc = 63 ∨ pc = tc) ∧ glob p t.
Proof.
  intros Hs. split.
  - inversion 1; subst; naive_solver.
  - intros [[->| ->] Hg]; [by constructor|]. destruct (decide (tc = 63)) as [->|]; by constructor.
Qed.

Lemma glob_nil_r p : glob p [] ↔ drop_while (N.eqb 42) p = [].
Proof.
  induction p as [|c p IH]; [split; [done|constructor]|].
  change (drop_while (N.eqb 42) (c :: p)) with
    (if N.eqb 42 c then drop_while (N.eqb 42) p else c :: p).
  destruct (N.eqb_spec 42 c) as [<-|Hne].
  - rewrite <-IH. split; [by inversion 1|by constructor].
  - split; [inversion 1; congruence|done].
Qed.

Lemma glob_nil_l t : glob [] t ↔ t = [].
Proof. split; [by inversion 1|intros ->; constructor]. Qed.

(** A star-free segment consumes exactly its length. *)
Lemma glob_segment q p t : 42 ∉ q → glob (q ++ p) t →
  (length q ≤ length t)%nat ∧ glob p (drop (length q) t).
Proof.
  revert t. induction q as [|c q IH]; intros t Hq Hg; simpl in *; [split; [lia|done]|].
  destruct t as [|tc t].
  - exfalso. inversion Hg; subst; set_solver.
  - apply glob_step in Hg as [_ Hg]; [|set_solver]. apply IH in Hg as [? ?]; [|set_solver].
    simpl. split; [lia|done].
Qed.

(** ** The loop invariant of [wildcard_match] *)
Section wildcard.
Context (p t : list N) (Ht : 42 ∉ t).

(** Since the last star at [s], the star-free segment [p[s+1..p_idx]] was matched
    from [match_idx] to [t_idx]. *)
Definition wild_inv (p_idx t_idx : nat) (star : option nat) (match_idx : nat) : Prop :=
  (t_idx ≤ length t)%nat ∧ (p_idx ≤ length p)%nat ∧ (match_idx ≤ t_idx)%nat ∧
  match star with
  | None => True
  | Some s => ∃ n, p_idx = (S s + n)%nat ∧ t_idx = (match_idx + n)%nat ∧
                   42 ∉ take n (drop (S s) p)
  end.

(** What is left to decide: the current alignment, or a later one of the star. *)
Definition wild_goal (p_idx t_idx : nat) (star : option nat) (match_idx : nat) : Prop :=
  glob (drop p_idx p) (drop t_idx t) ∨
  match star with
  | None => False
  | Some s => ∃ k, (match_idx < k ≤ length t)%nat ∧ glob (drop (S s) p) (drop k t)
  end.

Lemma drop_lookup_cons {A} (l : list A) i x : l !! i = Some x → drop i l = x :: drop (S i) l.
Proof. intros Hl. by apply drop_S. Qed.

(** A later alignment of the star, if it matches, matches the segment further right. *)
Lemma wild_segment s n k : 42 ∉ take n (drop (S s) p) → (S s + n ≤ length p)%nat →
  glob (drop (S s) p) (drop k t) →
  (n ≤ length (drop k t))%nat ∧ glob (drop (S s + n) p) (drop (k + n) t).
Proof.
  intros Hq Hn Hg. rewrite <-(take_drop n (drop (S s) p)) in Hg.
  assert (length (take n (drop (S s) p)) = n) as Hlen.
  { rewrite length_take, length_drop. lia. }
  apply glob_segment in Hg as [Hl Hg]; [|done]. rewrite Hlen in Hl, Hg.
  split; [done|]. by rewrite !drop_drop in Hg.
Qed.

Lemma wild_match_step p_idx t_idx star m tc :
  wild_inv p_idx t_idx star m → t !! t_idx = Some tc →
  p !! p_idx = Some 63 ∨ p !! p_idx = Some tc →
  wild_inv (S p_idx) (S t_idx) star m ∧
  (wild_goal p_idx t_idx star m ↔ wild_goal (S p_idx) (S t_idx) star m).
Proof.
  intros (Hti & Hpi & Hm & Hs) Htc Hp.
  assert (∃ pc, p !! p_idx = Some pc ∧ pc ≠ 42 ∧ (pc = 63 ∨ pc = tc)) as (pc & Hpc & Hne & Hor).
  { destruct Hp as [Hp|Hp]; [by exists 63; auto|]. exists tc. split; [done|]. split; [|by right].
    intros ->. apply Ht. by eapply list_elem_of_lookup_2. }
  pose proof (lookup_lt_Some _ _ _ Htc). pose proof (lookup_lt_Some _ _ _ Hpc). split.
  - split_and!; [lia..|]. destruct star as [s|]; [|done]. destruct Hs as (n & -> & -> & Hq).
    exists (S n). split_and!; [lia..|].
    rewrite (take_S_r _ _ pc) by (by rewrite lookup_drop).
    rewrite elem_of_app, list_elem_of_singleton. intros [?|Heq]; congruence.
  - unfold wild_goal. rewrite (drop_lookup_cons _ _ _ Hpc), (drop_lookup_cons _ _ _ Htc).
    rewrite glob_step by done. tauto.
Qed.

Lemma wild_star_step p_idx t_idx star m :
  wild_inv p_idx t_idx star m → p !! p_idx = Some 42 →
  wild_inv (S p_idx) t_idx (Some p_idx) t_idx ∧
  (wild_goal p_idx t_idx star m ↔ wild_goal (S p_idx) t_idx (Some p_idx) t_idx).
Proof.
  intros (Hti & Hpi & Hm & Hs) Hp. pose proof (lookup_lt_Some _ _ _ Hp). split.
  - split_and!; [lia..|]. exists 0%nat. split_and!; [lia..|]. rewrite take_0. set_solver.
  - assert (Hstar : ∀ i, (i ≤ length t)%nat → glob (drop p_idx p) (drop i t) ↔
      ∃ k, (i ≤ k ≤ length t)%nat ∧ glob (drop (S p_idx) p) (drop k t)).
    { intros i Hi. rewrite (drop_lookup_cons _ _ _ Hp), glob_star. split.
      - intros (k & Hk & Hg). rewrite length_drop in Hk. rewrite drop_drop in Hg.
        exists (i + k)%nat. split; [lia|done].
      - intros (k & Hk & Hg). exists (k - i)%nat. rewrite length_drop, drop_drop.
        split; [lia|]. by replace (i + (k - i))%nat with k by lia. }
    unfold wild_goal. rewrite (Hstar t_idx) by done. split.
    + assert (Hsplit : (∃ k, (t_idx ≤ k ≤ length t)%nat ∧ glob (drop (S p_idx) p) (drop k t)) →
        glob (drop (S p_idx) p) (drop t_idx t) ∨
        ∃ k, (t_idx < k ≤ length t)%nat ∧ glob (drop (S p_idx) p) (drop k t)).
      { intros (k & Hk & Hg). destruct (decide (k = t_idx)) as [->|]; [by left|].
        right. exists k. split; [lia|done]. }
      intros [Hg|Hg]; [by apply Hsplit|]. destruct star as [s|]; [|done].
      destruct Hs as (n & -> & -> & Hq). destruct Hg as (k & Hk & Hg).
      apply wild_segment with (n := n) in Hg as [Hl Hg]; [|done|lia].
      rewrite length_drop in Hl. apply (Hstar (k + n)%nat) in Hg as (k' & Hk' & Hg'); [|lia].
      apply Hsplit. exists k'. split; [lia|done].
    + intros [Hg|(k & Hk & Hg)]; left; [exists t_idx | exists k]; (split; [lia|done]).
Qed.

Lemma wild_back_step p_idx t_idx star m tc :
  wild_inv p_idx t_idx star m → t !! t_idx = Some tc →
  ¬ (p !! p_idx = Some 63 ∨ p !! p_idx = Some tc) → p !! p_idx ≠ Some 42 →
  match star with
  | None => ¬ wild_goal p_idx t_idx star m
  | Some s => wild_inv (S s) (S m) star (S m) ∧
              (wild_goal p_idx t_idx star m ↔ wild_goal (S s) (S m) star (S m))
  end.
Proof.
  intros (Hti & Hpi & Hm & Hs) Htc Hno Hns. pose proof (lookup_lt_Some _ _ _ Htc) as Hlt.
  assert (Hcur : ¬ glob (drop p_idx p) (drop t_idx t)).
  { rewrite (drop_lookup_cons _ _ _ Htc). destruct (p !! p_idx) as [pc|] eqn:Hpc.
    - rewrite (drop_lookup_cons _ _ _ Hpc), glob_step by congruence. naive_solver.
    - rewrite drop_ge by (by apply lookup_ge_None). by rewrite glob_nil_l. }
  unfold wild_goal. destruct star as [s|]; [|tauto]. destruct Hs as (n & -> & -> & Hq). split.
  - split_and!; [lia..|]. exists 0%nat. split_and!; [lia..|]. rewrite take_0. set_solver.
  - split.
    + intros [|(k & Hk & Hg)]; [done|]. destruct (decide (k = S m)) as [->|]; [by left|].
      right. exists k. split; [lia|done].
    + intros [Hg|(k & Hk & Hg)]; right; [exists (S m) | exists k]; (split; [lia|done]).
Qed.

Lemma wild_end p_idx t_idx star m : wild_inv p_idx t_idx star m → t !! t_idx = None →
  wild_goal p_idx t_idx star m ↔ drop_while (N.eqb 42) (drop p_idx p) = [].
Proof.
  intros (Hti & Hpi & Hm & Hs) Hend. apply lookup_ge_None in Hend. unfold wild_goal.
  rewrite (drop_ge t t_idx) by done. rewrite glob_nil_r. split; [|by left].
  intros [|Hk]; [done|]. destruct star as [s|]; [|done]. exfalso.
  destruct Hs as (n & -> & -> & Hq). destruct Hk as (k & Hk & Hg).
  apply wild_segment with (n := n) in Hg as [Hl _]; [|done|lia]. rewrite length_drop in Hl. lia.
Qed.

(** With enough fuel the loop returns, and it returns the right answer. *)
Lemma wildcard_loop_total fuel p_idx t_idx star m :
  wild_inv p_idx t_idx star m →
  ((length t - m) * S (length p) + (length p - p_idx) < fuel)%nat →
  ∃ r, wildcard_loop fuel p t p_idx t_idx star m = Some r ∧
    (wild_goal p_idx t_idx star m ↔
     match r with Some q => drop_while (N.eqb 42) (drop q p) = [] | None => False end).
Proof.
  revert p_idx t_idx star m. induction fuel as [|fuel IH]; intros p_idx t_idx star m Hinv Hf; [nia|].
  cbn [wildcard_loop]. destruct (t !! t_idx) as [tc|] eqn:Htc.
  2: { eexists. split; [done|]. by apply wild_end. }
  pose proof Hinv as (Hti & Hpi & Hm & Hst). pose proof (lookup_lt_Some _ _ _ Htc) as Hlt.
  case_decide as Hmatch.
  { destruct (wild_match_step _ _ _ _ _ Hinv Htc Hmatch) as [Hinv' Heq].
    assert (p_idx < length p)%nat by (destruct Hmatch as [Hx|Hx]; by apply lookup_lt_Some in Hx).
    destruct (IH _ _ _ _ Hinv') as (r & Hr & Hg); [lia|]. exists r. by rewrite Heq. }
  case_decide as Hstar.
  { destruct (wild_star_step _ _ _ _ Hinv Hstar) as [Hinv' Heq].
    assert (p_idx < length p)%nat by (by apply lookup_lt_Some in Hstar).
    destruct (IH _ _ _ _ Hinv') as (r & Hr & Hg); [nia|]. exists r. by rewrite Heq. }
  pose proof (wild_back_step _ _ _ _ _ Hinv Htc Hmatch Hstar) as Hback.
  destruct star as [s|]; [|by exists None]. destruct Hback as [Hinv' Heq].
  destruct (IH _ _ _ _ Hinv') as (r & Hr & Hg).
  { destruct Hinv' as (? & ? & _). nia. }
  exists r. by rewrite Heq.
Qed.

Lemma wildcard_bytes_glob : wildcard_bytes p t = true ↔ glob p t.
Proof.
  unfold wildcard_bytes.
  destruct (wildcard_loop_total (wildcard_fuel p t) 0 0 None 0) as (r & Hr & Hg).
  { split_and!; (lia || done). }
  { unfold wildcard_fuel. lia. }
  rewrite Hr. unfold wild_goal in Hg. rewrite !drop_0 in Hg.
  assert (glob p t ↔ match r with Some q => drop_while (N.eqb 42) (drop q p) = [] | None => False end)
    as Hgl by (rewrite <-Hg; tauto).
  rewrite Hgl. destruct r as [q|]; [|done]. destruct (drop_while _ _); done.
Qed.
End wildcard.

Lemma utf8_no_star s : 42 ∉ s → 42 ∉ utf8 s.
Proof.
  unfold utf8. intros Hs (c & Hc & Hin)%list_elem_of_bind.
  assert (Hbig : ∀ k n, 128 ≤ k → 42 ≠ k + n) by lia.
  unfold utf8_char in Hc. destruct (c <? 0x80).
  { apply list_elem_of_singleton in Hc as <-. done. }
  repeat case_match; rewrite ?elem_of_cons, elem_of_nil in Hc; destruct_or? Hc; try done;
    (eapply Hbig; [|exact Hc]; done).
Qed.

(** ** Properties *)

(** C37: [wildcard_match] is glob matching on the bytes ([*] any run, [?] one byte)
    for every pattern and every text without a literal [*]; its backtracking loop
    always ends.  Store paths, NAR names and package names of Nix hold no [*]. *)
Theorem wildcard_match_is_glob (pattern text : list N) (Ht : 42 ∉ text) :
  wildcard_match pattern text = true ↔ glob (utf8 pattern) (utf8 text).
Proof. by apply wildcard_bytes_glob, utf8_no_star. Qed.

Lemma wildcard_match_is_glob_witness :
  wildcard_match (lit "rust-*.nar.??") (lit "rust-1.80-src.nar.xz") = true ↔
  glob (utf8 (lit "rust-*.nar.??")) (utf8 (lit "rust-1.80-src.nar.xz")).
Proof. apply wildcard_match_is_glob. apply contains_char_false. vm_compute. reflexivity. Defined.

(** With a literal [*] in the text the answer can be wrong: the pattern's star is
    taken for a literal and never tried as a wildcard. *)
Theorem wildcard_match_literal_star :
  glob (utf8 (lit "*a")) (utf8 (lit "*ba")) ∧ wildcard_match (lit "*a") (lit "*ba") = false.
Proof.
  split; [|by vm_compute]. apply glob_star_more, glob_star_more, glob_star_stop.
  apply glob_char; [done..|]. constructor.
Qed.

(** The condition an entry must meet, as a formula. *)
Definition item_hit `{Chrono} (self : FilterPredicates) (hash : StoreHash) (entry : IndexEntry) : Prop :=
  hash ∈ store_hashes self ∨
  (∃ pat, pat ∈ patterns self ∧ pattern_hits entry pat = true) ∨
  (∃ tf dt, time_filter self = Some tf ∧ parse_from_rfc3339 (added entry) = Some dt ∧
     time_matched tf dt = true) ∨
  (∃ sf, size_filter self = Some sf ∧ size_matched sf (nar_size entry) = true) ∨
  (∃ o j, origin entry = Some o ∧ job_id o = Some j ∧ j ∈ origin_jobs self) ∨
  (∃ o r, origin entry = Some o ∧ run_id o = Some r ∧ r ∈ origin_runs self).

Lemma some_and_true {A} (o : option A) f : some_and o f = true ↔ ∃ x, o = Some x ∧ f x = true.
Proof. destruct o; naive_solver. Qed.

Lemma existsb_elem {A} (f : A → bool) l : existsb f l = true ↔ ∃ x, x ∈ l ∧ f x = true.
Proof. rewrite existsb_exists. by setoid_rewrite list_elem_of_In. Qed.

Section predicates.
Context `{Chrono}.

Lemma run_test_true `{HashIter} self entry :
  run_test self entry = true ↔ ∃ o r, origin entry = Some o ∧ run_id o = Some r ∧ r ∈ origin_runs self.
Proof.
  unfold run_test. rewrite some_and_true. setoid_rewrite existsb_elem.
  setoid_rewrite elem_of_set_iter. setoid_rewrite bool_decide_eq_true. naive_solver.
Qed.

Lemma job_test_true self entry :
  job_test self entry = true ↔ ∃ o j, origin entry = Some o ∧ job_id o = Some j ∧ j ∈ origin_jobs self.
Proof.
  unfold job_test. rewrite some_and_true. split.
  - intros (o & Ho & Hj). rewrite andb_true_iff, some_and_true in Hj.
    destruct Hj as (_ & j & Hj & Hin%bool_decide_eq_true). eauto.
  - intros (o & j & Ho & Hj & Hin). exists o. split; [done|].
    rewrite andb_true_iff, negb_true_iff, bool_decide_eq_false, some_and_true. split; [set_solver|].
    exists j. by rewrite bool_decide_eq_true.
Qed.

Lemma tests_hit `{HashIter} self hash entry :
  (hash_test self hash = true ∨ pattern_test self entry = true ∨ time_test self entry = true ∨
   size_test self entry = true ∨ job_test self entry = true ∨ run_test self entry = true) ↔
  item_hit self hash entry.
Proof.
  unfold item_hit. rewrite run_test_true, job_test_true.
  unfold hash_test, pattern_test, size_test. rewrite bool_decide_eq_true, existsb_elem, some_and_true.
  assert (time_test self entry = true ↔ ∃ tf dt, time_filter self = Some tf ∧
    parse_from_rfc3339 (added entry) = Some dt ∧ time_matched tf dt = true) as ->; [|tauto].
  unfold time_test. destruct (time_filter self), (parse_from_rfc3339 (added entry)); naive_solver.
Qed.

Lemma evaluate_entry_hit `{HashIter} (self : FilterPredicates) (hash : StoreHash)
    (entry : IndexEntry) :
  is_Some (evaluate_entry self hash entry) ↔
  (systems self = ∅ ∨ ∃ s, system entry = Some s ∧ s ∈ systems self) ∧
  (has_item_filters self = true → item_hit self hash entry).
Proof.
  unfold evaluate_entry. rewrite <-tests_hit.
  assert (system_selected (systems self) entry = true ↔
    systems self = ∅ ∨ ∃ s, system entry = Some s ∧ s ∈ systems self) as <-.
  { unfold system_selected. rewrite orb_true_iff, bool_decide_eq_true, some_and_true.
    by setoid_rewrite bool_decide_eq_true. }
  destruct (system_selected _ _); simpl; [|split; [by intros []|naive_solver]].
  destruct (has_item_filters self); simpl.
  - case_bool_decide as Hr.
    + split; [by intros []|]. intros [_ Hor]. specialize (Hor eq_refl). exfalso. revert Hr.
      destruct_or! Hor; rewrite Hor; simpl; unfold reason; repeat case_match; done.
    + split; [intros _|by eauto]. split; [done|]. intros _. revert Hr.
      destruct (hash_test _ _), (pattern_test _ _), (time_test _ _), (size_test _ _), (job_test _ _),
        (run_test _ _); simpl; tauto.
  - split; [|by eauto]. done.
Qed.

(** what a filter selects.  [evaluate_entry] hits an entry exactly when its
    system is one of the wanted ones (no constraint when none is given) and at
    least one of the item conditions holds, or there is no item condition at
    all: the conditions are alternatives, the architecture is a conjunct. *)
Theorem evaluate_entry_spec `{HashIter} (self : FilterPredicates) (hash : StoreHash)
    (entry : IndexEntry) :
  is_Some (evaluate_entry self hash entry) ↔
  (systems self = ∅ ∨ ∃ s, system entry = Some s ∧ s ∈ systems self) ∧
  (has_item_filters self = true → item_hit self hash entry).
Proof. apply evaluate_entry_hit. Qed.
End predicates.

Section order.
Context `{Chrono} (I1 I2 : HashIter).

Lemma run_test_order self entry : @run_test I1 self entry = @run_test I2 self entry.
Proof.
  apply eq_iff_eq_true. by rewrite (@run_test_true I1), (@run_test_true I2).
Qed.
Lemma evaluate_entry_order self hash entry :
  @evaluate_entry _ I1 self hash entry = @evaluate_entry _ I2 self hash entry.
Proof. unfold evaluate_entry. by rewrite run_test_order. Qed.

Lemma set_iter_order {K} `{Countable K} (s : gset K) : @set_iter I1 K _ _ s ≡ₚ @set_iter I2 K _ _ s.
Proof. unfold set_iter. by rewrite !hash_iter_perm. Qed.

Lemma sorted_strings_order l1 l2 : l1 ≡ₚ l2 → sorted_strings l1 = sorted_strings l2.
Proof. apply merge_sort_perm_eq; apply _. Qed.

(** the description of a selector in logs and summaries does not depend on
    the iteration order of its hash sets. *)
Theorem CacheSelector_describe_deterministic (self : CacheSelector) :
  @CacheSelector_describe _ I1 self = @CacheSelector_describe _ I2 self.
Proof.
  assert (Hs : ∀ s, @describe_systems I1 s = @describe_systems I2 s).
  { intros s. unfold describe_systems. f_equal. apply sorted_strings_order, fmap_Permutation, set_iter_order. }
  unfold CacheSelector_describe, FilterPredicates_describe. destruct (scope self); rewrite ?Hs; try done.
  rewrite (sorted_strings_order (@set_iter I1 _ _ _ (origin_jobs predicates))
    (@set_iter I2 _ _ _ (origin_jobs predicates))) by apply set_iter_order.
  rewrite (sorted_strings_order (show_N <$> @set_iter I1 _ _ _ (origin_runs predicates))
    (show_N <$> @set_iter I2 _ _ _ (origin_runs predicates)))
    by apply fmap_Permutation, set_iter_order.
  done.
Qed.
End order.
