(* ===== verification/Graph.v ===== *)
(** * Graph: the breadth-first loops of the query engine

    The loops [while let Some(curr) = queue.pop_front()] of filter.rs, purge.rs
    and gc.rs, as functions of a fuel, with the bound on their rounds and the
    closure they compute.  The queue is a list, pushed at the back. *)

From stdpp Require Import relations.
From S2P Require Import Prelude Machine Str Error Types Sharding.

Local Open Scope N_scope.

(** ** The loops *)

(** [if visited.insert(curr) { for dep in deps(curr) { if !visited.contains(dep) {
    queue.push_back(dep) } } }]. *)
Fixpoint reach_loop {E} (deps : StoreHash → outcome E (list StoreHash)) (fuel : nat)
    (queue : list StoreHash) (visited : gset StoreHash) : outcome E (gset StoreHash) :=
  match fuel, queue with
  | S fuel, curr :: queue =>
      if decide (curr ∈ visited) then reach_loop deps fuel queue visited
      else
        let visited := {[curr]} ∪ visited in
        ds ← deps curr;
        reach_loop deps fuel (queue ++ filter (λ d, d ∉ visited) ds) visited
  | _, _ => Ok visited
  end.

(** One neighbour of the cascade: [if guarded(dep) { continue } if total.insert(dep)
    { reasons.insert(dep, text); queue.push_back(dep) }]. *)
Record CascadeState := {
  cs_total : gset StoreHash;
  cs_reasons : gmap StoreHash (list N);
  cs_queue : list StoreHash }.
Definition cascade_visit (guarded : StoreHash → bool) (text : list N) (st : CascadeState)
    (dep : StoreHash) : CascadeState :=
  if guarded dep then st
  else if decide (dep ∈ cs_total st) then st
  else {| cs_total := {[dep]} ∪ cs_total st; cs_reasons := <[dep := text]> (cs_reasons st);
          cs_queue := cs_queue st ++ [dep] |}.

(** [neighbours curr] lists the adjacency lists to walk, each with the prefix of
    its reason text. *)
Definition cascade_expand (guarded : StoreHash → bool) (curr : StoreHash) (st : CascadeState)
    (adjacent : list N * list StoreHash) : CascadeState :=
  foldl (cascade_visit guarded (adjacent.1 ++ StoreHash_as_str curr)) st adjacent.2.
Fixpoint cascade_loop (guarded : StoreHash → bool)
    (neighbours : StoreHash → list (list N * list StoreHash)) (fuel : nat) (st : CascadeState)
    : CascadeState :=
  match fuel, cs_queue st with
  | S fuel, curr :: queue =>
      let st := {| cs_total := cs_total st; cs_reasons := cs_reasons st; cs_queue := queue |} in
      cascade_loop guarded neighbours fuel
        (foldl (cascade_expand guarded curr) st (neighbours curr))
  | _, _ => st
  end.

(** The dependency scan of [prune_broken_gc_roots]: [None] is [is_sound = false]. *)
Fixpoint scan_deps (bad : StoreHash → bool) (deps : list StoreHash)
    (st : gset StoreHash * list StoreHash) : option (gset StoreHash * list StoreHash) :=
  match deps with
  | [] => Some st
  | dep :: deps =>
      if bad dep then None
      else scan_deps bad deps
             (if decide (dep ∈ st.1) then st else ({[dep]} ∪ st.1, st.2 ++ [dep]))
  end.
Fixpoint sound_loop (bad : StoreHash → bool) (known : StoreHash → bool)
    (graph : gmap StoreHash (list StoreHash)) (fuel : nat)
    (visited : gset StoreHash) (queue : list StoreHash) : bool :=
  match queue, fuel with
  | [], _ => true
  | _, O => false
  | curr :: queue, S fuel =>
      match graph !! curr with
      | Some deps =>
          match scan_deps bad deps (visited, queue) with
          | None => false
          | Some (visited, queue) => sound_loop bad known graph fuel visited queue
          end
      | None => if known curr then sound_loop bad known graph fuel visited queue else false
      end
  end.

(** ** Facts *)

(** Counting the members of a list that are outside a set. *)
Definition outside (U : list StoreHash) (V : gset StoreHash) : nat :=
  length (filter (λ x, x ∉ V) U).

Lemma outside_mono U V V' : V ⊆ V' → (outside U V' ≤ outside U V)%nat.
Proof.
  intros Hs. unfold outside. induction U as [|x U IH]; [done|].
  destruct (decide (x ∈ V')), (decide (x ∈ V)).
  - rewrite !filter_cons_False; naive_solver.
  - rewrite (filter_cons_False _ _ U), (filter_cons_True _ _ U) by naive_solver. simpl. lia.
  - set_solver.
  - rewrite !filter_cons_True by naive_solver. simpl. lia.
Qed.

Lemma outside_insert U V x : x ∈ U → x ∉ V → (S (outside U ({[x]} ∪ V)) ≤ outside U V)%nat.
Proof.
  intros Hx HV. apply list_elem_of_split in Hx as (U1 & U2 & ->). unfold outside.
  rewrite !filter_app, !length_app.
  rewrite (filter_cons_False _ _ U2) by set_solver. rewrite (filter_cons_True _ _ U2) by done.
  pose proof (outside_mono U1 V ({[x]} ∪ V)). pose proof (outside_mono U2 V ({[x]} ∪ V)).
  unfold outside in *. simpl. assert (V ⊆ {[x]} ∪ V) by set_solver. naive_solver lia.
Qed.

Lemma outside_le U V : (outside U V ≤ length U)%nat.
Proof. unfold outside. apply length_filter. Qed.

(** *** Reachability *)
Section reach.
Context {E : Type} (deps : StoreHash → outcome E (list StoreHash)).

Definition edge (a b : StoreHash) : Prop := ∃ ds, deps a = Ok ds ∧ b ∈ ds.

(** Nodes with their out-degree; the others have no edge. *)
Context (nodes : list (StoreHash * nat)).
Context (Hdeps : ∀ x, (∃ ds n, deps x = Ok ds ∧ (x, n) ∈ nodes ∧ (length ds ≤ n)%nat) ∨ deps x = Ok []).

(** The edges that can still be pushed. *)
Fixpoint pending (l : list (StoreHash * nat)) (V : gset StoreHash) : nat :=
  match l with
  | [] => 0
  | (x, n) :: l => (if decide (x ∈ V) then 0 else n) + pending l V
  end%nat.

Lemma pending_mono l V V' : V ⊆ V' → (pending l V' ≤ pending l V)%nat.
Proof.
  intros Hs. induction l as [|[x n] l IH]; simpl; [lia|].
  destruct (decide (x ∈ V')), (decide (x ∈ V)); [lia|lia|set_solver|lia].
Qed.

Lemma pending_insert l V x n : (x, n) ∈ l → x ∉ V →
  (pending l ({[x]} ∪ V) + n ≤ pending l V)%nat.
Proof.
  intros (l1 & l2 & ->)%list_elem_of_split HV.
  assert (∀ W, pending (l1 ++ (x, n) :: l2) W =
    (pending l1 W + (if decide (x ∈ W) then 0 else n) + pending l2 W)%nat) as Hsplit.
  { intros W.
    induction l1 as [|[y m] l1 IH]; simpl; [lia|]. rewrite IH. lia. }
  rewrite !Hsplit. rewrite decide_True by set_solver. rewrite decide_False by done.
  pose proof (pending_mono l1 V ({[x]} ∪ V)). pose proof (pending_mono l2 V ({[x]} ∪ V)).
  assert (V ⊆ {[x]} ∪ V) by set_solver. naive_solver lia.
Qed.

(** The loop's invariant: what was seen is reachable, and what a visited node
    points to is visited or queued. *)
Definition reach_inv (roots : list StoreHash) (queue : list StoreHash) (V : gset StoreHash) : Prop :=
  (∀ x, x ∈ V ∨ x ∈ queue → ∃ r, r ∈ roots ∧ rtc edge r x) ∧
  (∀ x, x ∈ roots → x ∈ V ∨ x ∈ queue) ∧
  (∀ x y, x ∈ V → edge x y → y ∈ V ∨ y ∈ queue).

Lemma reach_inv_pop roots curr queue V :
  reach_inv roots (curr :: queue) V → curr ∈ V → reach_inv roots queue V.
Proof. intros (Hs & Hr & Hc) HV. split_and!; set_solver. Qed.

Lemma reach_inv_expand roots curr queue V ds :
  reach_inv roots (curr :: queue) V → deps curr = Ok ds →
  reach_inv roots (queue ++ filter (λ d, d ∉ {[curr]} ∪ V) ds) ({[curr]} ∪ V).
Proof.
  intros (Hs & Hr & Hc) Hd.
  assert (∃ r, r ∈ roots ∧ rtc edge r curr) as (r & Hrr & Hrc) by (apply Hs; set_solver).
  split_and!.
  - intros x Hx. rewrite elem_of_app, list_elem_of_filter in Hx.
    destruct (decide (x = curr)) as [->|Hne]; [by exists r|].
    destruct Hx as [Hx|[Hx|[_ Hx]]].
    + apply Hs. set_solver.
    + apply Hs. set_solver.
    + exists r. split; [done|]. eapply rtc_r; [exact Hrc|]. by exists ds.
  - set_solver.
  - intros x y Hx Hxy. destruct (decide (y ∈ {[curr]} ∪ V)) as [|Hny]; [by left|]. right.
    rewrite elem_of_app, list_elem_of_filter. destruct (decide (x = curr)) as [->|Hne].
    + destruct Hxy as (ds' & Hd' & Hy). right. split; [done|]. congruence.
    + left. destruct (Hc x y) as [|[->|]%elem_of_cons]; [set_solver|done|set_solver..|done].
Qed.

Lemma reach_inv_done roots V : reach_inv roots [] V →
  ∀ x, x ∈ V ↔ ∃ r, r ∈ roots ∧ rtc edge r x.
Proof.
  intros (Hs & Hr & Hc) x. split; [intros; apply Hs; by left|].
  intros (r & Hrr & Hrx). assert (r ∈ V) as HV by (destruct (Hr r Hrr); [done|set_solver]).
  clear Hrr. induction Hrx as [|a b c Hab _ IH]; [done|]. apply IH.
  destruct (Hc a b HV Hab); [done|set_solver].
Qed.

(** With enough fuel the loop returns the set of nodes reachable from the roots. *)
Lemma reach_loop_correct fuel roots queue V :
  reach_inv roots queue V → (length queue + pending nodes V ≤ fuel)%nat →
  ∃ R, reach_loop deps fuel queue V = Ok R ∧ ∀ x, x ∈ R ↔ ∃ r, r ∈ roots ∧ rtc edge r x.
Proof.
  revert queue V. induction fuel as [|fuel IH]; intros queue V Hinv Hf.
  { destruct queue; [|simpl in Hf; lia]. exists V. split; [done|]. by apply reach_inv_done. }
  destruct queue as [|curr queue]; [exists V; split; [done|]; by apply reach_inv_done|].
  cbn [reach_loop]. simpl in Hf. case_decide as HV.
  - apply IH; [by eapply reach_inv_pop|lia].
  - destruct (Hdeps curr) as [(ds & n & Hd & Hn & Hl)|Hd]; rewrite Hd; cbn [mbind outcome_bind].
    + apply IH; [by apply reach_inv_expand|]. rewrite length_app.
      pose proof (pending_insert nodes V curr n Hn HV).
      pose proof (length_filter (λ d, d ∉ {[curr]} ∪ V) ds). lia.
    + apply IH; [by apply (reach_inv_expand roots curr queue V [])|]. rewrite filter_nil, app_nil_r.
      pose proof (pending_mono nodes V ({[curr]} ∪ V)). assert (V ⊆ {[curr]} ∪ V) by set_solver.
      naive_solver lia.
Qed.

Lemma reach_loop_roots fuel roots : (length roots + sum_list nodes.*2 ≤ fuel)%nat →
  ∃ R, reach_loop deps fuel roots ∅ = Ok R ∧ ∀ x, x ∈ R ↔ ∃ r, r ∈ roots ∧ rtc edge r x.
Proof.
  intros Hf. apply (reach_loop_correct fuel roots roots ∅).
  - split_and!; [|set_solver..]. intros x [Hx|Hx]; [set_solver|]. by exists x.
  - assert (pending nodes ∅ ≤ sum_list nodes.*2)%nat; [|lia].
    clear. induction nodes as [|[x n] l IH]; simpl; [lia|].
    change (list_fmap _ _ snd l) with l.*2. case_decide; lia.
Qed.
End reach.

(** *** The cascade *)
Section cascade.
Context (guarded : StoreHash → bool) (neighbours : StoreHash → list (list N * list StoreHash)).
Context (U : list StoreHash).
Context (HU : ∀ a adj d, adj ∈ neighbours a → d ∈ adj.2 → d ∈ U).

Definition cedge (a b : StoreHash) : Prop :=
  (∃ adj, adj ∈ neighbours a ∧ b ∈ adj.2) ∧ guarded b = false.

Definition potential (st : CascadeState) : nat := length (cs_queue st) + outside U (cs_total st).

(** [st'] is [st] with all of [D], and nothing else, added to the total; what was
    added is queued and has a reason. *)
Record grows (D : StoreHash → Prop) (st st' : CascadeState) : Prop := {
  gr_total : ∀ x, x ∈ cs_total st' ↔ x ∈ cs_total st ∨ D x;
  gr_new : ∀ x, x ∈ cs_total st' → x ∈ cs_total st ∨ x ∈ cs_queue st';
  gr_queue : ∀ x, x ∈ cs_queue st → x ∈ cs_queue st';
  gr_queue_total : ∀ x, x ∈ cs_queue st' → x ∈ cs_queue st ∨ x ∈ cs_total st';
  gr_reasons : dom (cs_reasons st) = cs_total st → dom (cs_reasons st') = cs_total st';
  gr_potential : (potential st' ≤ potential st)%nat }.

Lemma grows_refl st : grows (λ _, False) st st.
Proof. split; naive_solver. Qed.

Lemma grows_trans D1 D2 st1 st2 st3 :
  grows D1 st1 st2 → grows D2 st2 st3 → grows (λ x, D1 x ∨ D2 x) st1 st3.
Proof.
  intros [T1 N1 Q1 QT1 R1 P1] [T2 N2 Q2 QT2 R2 P2]. split.
  - intros x. rewrite T2, T1. tauto.
  - intros x [?|?]%N2; [|by right]. apply N1 in H as [?|?]; [by left|right; auto].
  - auto.
  - intros x [?|?]%QT2; [|by right]. apply QT1 in H as [?|?]; [by left|].
    right. apply T2. by left.
  - auto.
  - lia.
Qed.

Lemma grows_ext D D' st st' : (∀ x, D x ↔ D' x) → grows D st st' → grows D' st st'.
Proof. intros HD [T ? ? ? ? ?]. split; try done. intros x. by rewrite T, HD. Qed.

Lemma cascade_visit_grows text st d : d ∈ U →
  grows (λ x, x = d ∧ guarded d = false) st (cascade_visit guarded text st d).
Proof.
  intros HdU. unfold cascade_visit. destruct (guarded d) eqn:Hg.
  { eapply grows_ext; [|apply grows_refl]. naive_solver. }
  case_decide as Hd; [split; naive_solver|]. split; simpl.
  - set_solver.
  - set_solver.
  - set_solver.
  - set_solver.
  - intros Hdom. rewrite dom_insert_L, Hdom. done.
  - unfold potential. simpl. rewrite length_app. simpl. pose proof (outside_insert U (cs_total st) d HdU Hd).
    lia.
Qed.

Lemma cascade_fold_grows text ds st : (∀ d, d ∈ ds → d ∈ U) →
  grows (λ x, x ∈ ds ∧ guarded x = false) st (foldl (cascade_visit guarded text) st ds).
Proof.
  revert st. induction ds as [|d ds IH]; intros st Hds; simpl.
  { eapply grows_ext; [|apply grows_refl]. set_solver. }
  eapply grows_ext; [|eapply grows_trans; [apply (cascade_visit_grows text st d)|apply IH]]; set_solver.
Qed.

Lemma cascade_expand_grows curr st :
  grows (λ x, cedge curr x) st (foldl (cascade_expand guarded curr) st (neighbours curr)).
Proof.
  unfold cedge. pose proof (HU curr) as HUc. revert HUc. generalize (neighbours curr) as adjs.
  intros adjs. revert st. induction adjs as [|adj adjs IH]; intros st HU'; simpl.
  { eapply grows_ext; [|apply grows_refl]. set_solver. }
  eapply grows_ext; [|eapply grows_trans; [apply cascade_fold_grows|apply IH]]; set_solver.
Qed.

Definition cascade_inv (initial : gset StoreHash) (st : CascadeState) : Prop :=
  (∀ x, x ∈ cs_total st → ∃ i, i ∈ initial ∧ rtc cedge i x) ∧
  (∀ x, x ∈ initial → x ∈ cs_total st) ∧
  (∀ x, x ∈ cs_queue st → x ∈ cs_total st) ∧
  (∀ x y, x ∈ cs_total st → cedge x y → x ∈ cs_queue st ∨ y ∈ cs_total st) ∧
  dom (cs_reasons st) = cs_total st.

Lemma cascade_inv_step initial st curr queue :
  cascade_inv initial st → cs_queue st = curr :: queue →
  let st0 := {| cs_total := cs_total st; cs_reasons := cs_reasons st; cs_queue := queue |} in
  cascade_inv initial (foldl (cascade_expand guarded curr) st0 (neighbours curr)).
Proof.
  intros (Hs & Hi & Hq & Hc & Hr) Hqueue st0.
  destruct (cascade_expand_grows curr st0) as [T Nw Q QT R _]. simpl in *.
  assert (Hcur : curr ∈ cs_total st) by (apply Hq; rewrite Hqueue; by left).
  split_and!.
  - intros x [Hx|Hx]%T; [by apply Hs|]. destruct (Hs curr Hcur) as (i & Hin & Hic).
    exists i. split; [done|]. by eapply rtc_r.
  - intros x Hx. apply T. left. auto.
  - intros x [Hx|Hx]%QT; [|done]. apply T. left. apply Hq. rewrite Hqueue. by right.
  - intros x y Hx Hxy. destruct (decide (x = curr)) as [->|Hne]; [right; apply T; by right|].
    destruct (Nw x Hx) as [Hx'|Hx']; [|by left].
    destruct (Hc x y Hx' Hxy) as [Hin|Hin]; [|right; apply T; by left].
    rewrite Hqueue in Hin. apply elem_of_cons in Hin as [->|Hin]; [done|]. left. by apply Q.
  - by apply R.
Qed.

(** With enough fuel the cascade computes the closure of the initial matches along
    the unguarded edges, and gives every member a reason. *)
Lemma cascade_loop_correct fuel initial st :
  cascade_inv initial st → (potential st ≤ fuel)%nat →
  let st' := cascade_loop guarded neighbours fuel st in
  (∀ x, x ∈ cs_total st' ↔ ∃ i, i ∈ initial ∧ rtc cedge i x) ∧
  dom (cs_reasons st') = cs_total st'.
Proof.
  revert st. induction fuel as [|fuel IH]; intros st Hinv Hf.
  all: destruct (cs_queue st) as [|curr queue] eqn:Hqueue; cbn [cascade_loop]; rewrite ?Hqueue.
  1,3: destruct Hinv as (Hs & Hi & Hq & Hc & Hr); split; [|done]; intros x; split; [apply Hs|];
    intros (i & Hin & Hix); apply Hi in Hin; induction Hix as [|a b c Hab _ IHr]; [done|]; apply IHr;
    destruct (Hc a b Hin Hab) as [Hx|]; [rewrite Hqueue in Hx; set_solver|done].
  - exfalso. unfold potential in Hf. rewrite Hqueue in Hf. simpl in Hf. lia.
  - apply IH; [by apply cascade_inv_step|].
    pose proof (gr_potential _ _ _ (cascade_expand_grows curr
      {| cs_total := cs_total st; cs_reasons := cs_reasons st; cs_queue := queue |})) as Hp.
    unfold potential in Hp, Hf |- *. rewrite Hqueue in Hf. simpl in Hp, Hf. lia.
Qed.
End cascade.

(** *** Soundness of a root *)
Section sound.
Context (bad known : StoreHash → bool) (graph : gmap StoreHash (list StoreHash)).
Context (U : list StoreHash) (HU : ∀ a ds d, graph !! a = Some ds → d ∈ ds → d ∈ U).

Definition gedge (a b : StoreHash) : Prop := ∃ ds, graph !! a = Some ds ∧ b ∈ ds.
(** A node is good: it is known and points at nothing bad. *)
Definition good_node (x : StoreHash) : Prop :=
  (is_Some (graph !! x) ∨ known x = true) ∧ ∀ y, gedge x y → bad y = false.

Lemma scan_deps_spec ds V q : (∀ d, d ∈ ds → d ∈ U) →
  match scan_deps bad ds (V, q) with
  | None => ∃ d, d ∈ ds ∧ bad d = true
  | Some (V', q') =>
      (∀ d, d ∈ ds → bad d = false) ∧ (∀ x, x ∈ V' ↔ x ∈ V ∨ x ∈ ds) ∧
      (∀ x, x ∈ V' → x ∈ V ∨ x ∈ q') ∧ (∀ x, x ∈ q → x ∈ q') ∧
      (∀ x, x ∈ q' → x ∈ q ∨ x ∈ V') ∧
      (length q' + outside U V' ≤ length q + outside U V)%nat
  end.
Proof.
  revert V q. induction ds as [|d ds IH]; intros V q Hds; simpl.
  { split_and!; set_solver. }
  destruct (bad d) eqn:Hb; [exists d; set_solver|]. case_decide as Hd.
  - specialize (IH V q). destruct (scan_deps bad ds (V, q)) as [[V' q']|].
    + destruct IH as (I1 & I2 & I3 & I4 & I5 & I6); [set_solver|]. split_and!; try done.
      * intros x [->|?]%elem_of_cons; auto.
      * intros x. rewrite I2. set_solver.
    + destruct IH as (x & ? & ?); [set_solver|]. exists x. set_solver.
  - specialize (IH ({[d]} ∪ V) (q ++ [d])).
    destruct (scan_deps bad ds ({[d]} ∪ V, q ++ [d])) as [[V' q']|].
    + destruct IH as (I1 & I2 & I3 & I4 & I5 & I6); [set_solver|].
      assert (d ∈ q') by (apply I4; set_solver).
      assert (d ∈ V') by (apply I2; set_solver). split_and!.
      * intros x [->|?]%elem_of_cons; auto.
      * intros x. rewrite I2. set_solver.
      * intros x [[Hx|?]%elem_of_union|?]%I3; [apply elem_of_singleton in Hx as ->| |]; auto.
      * intros x Hx. apply I4. set_solver.
      * intros x [[?|Hx]%elem_of_app|?]%I5; [|apply list_elem_of_singleton in Hx as ->|]; auto.
      * rewrite length_app in I6. simpl in I6.
        pose proof (outside_insert U V d ltac:(apply Hds; by left) Hd). lia.
    + destruct IH as (x & ? & ?); [set_solver|]. exists x. set_solver.
Qed.

Definition sound_inv (root : StoreHash) (V : gset StoreHash) (q : list StoreHash) : Prop :=
  root ∈ V ∧ (∀ x, x ∈ V → rtc gedge root x) ∧ (∀ x, x ∈ q → x ∈ V) ∧
  (∀ x, x ∈ V → x ∈ q ∨ good_node x ∧ ∀ y, gedge x y → y ∈ V).

Lemma sound_inv_done root V : sound_inv root V [] → ∀ x, rtc gedge root x → good_node x.
Proof.
  intros (Hr & _ & _ & Hc) x Hx. assert (x ∈ V) as HV.
  { induction Hx as [|a b c Hab _ IH]; [done|]. apply IH.
    destruct (Hc a Hr) as [?|[_ Hall]]; [set_solver|auto]. }
  destruct (Hc x HV) as [?|[? _]]; [set_solver|done].
Qed.

Lemma sound_inv_skip root V curr q : sound_inv root V (curr :: q) →
  graph !! curr = None → known curr = true → sound_inv root V q.
Proof.
  intros (Hr & Hs & Hq & Hc) Hg Hk. split_and!; [done|done|set_solver|].
  intros x Hx. destruct (Hc x Hx) as [[->|?]%elem_of_cons|?]; [right|by left|by right].
  assert (∀ y, ¬ gedge curr y) as Hn by (intros y (ds & Hds & _); congruence).
  split; [split; [by right|]|]; intros y Hy; by apply Hn in Hy.
Qed.

Lemma sound_inv_expand root V curr q ds V' q' : sound_inv root V (curr :: q) →
  graph !! curr = Some ds → scan_deps bad ds (V, q) = Some (V', q') →
  sound_inv root V' q' ∧ (length q' + outside U V' ≤ length q + outside U V)%nat.
Proof.
  intros (Hr & Hs & Hq & Hc) Hg Hscan.
  pose proof (scan_deps_spec ds V q) as Hspec. rewrite Hscan in Hspec.
  destruct Hspec as (Hok & HV & Hnew & Hqq & Hq' & Hpot); [intros d Hd; by eapply HU|].
  split; [|done]. assert (Hcur : curr ∈ V) by (apply Hq; by left). split_and!.
  - apply HV. by left.
  - intros x [Hx|Hx]%HV; [by apply Hs|]. eapply rtc_r; [by apply Hs|]. by exists ds.
  - intros x [Hx|Hx]%Hq'; [|done]. apply HV. left. apply Hq. by right.
  - intros x Hx. destruct (Hnew x Hx) as [HxV|]; [|by left].
    destruct (Hc x HxV) as [[->|Hin]%elem_of_cons|[Hgood Hcl]].
    + right. split; [split; [left; eauto|]|]; intros y (ds' & Hds' & Hy); simplify_eq; [by apply Hok|].
      apply HV. by right.
    + left. by apply Hqq.
    + right. split; [done|]. intros y Hy. apply HV. left. by apply Hcl.
Qed.

(** With enough fuel the loop accepts a root exactly when everything reachable
    from it is good. *)
Lemma sound_loop_correct fuel root V q : sound_inv root V q →
  (length q + outside U V ≤ fuel)%nat →
  sound_loop bad known graph fuel V q = true ↔ ∀ x, rtc gedge root x → good_node x.
Proof.
  revert V q. induction fuel as [|fuel IH]; intros V q Hinv Hf.
  { destruct q; simpl in *; [|lia]. split; [intros _; by eapply sound_inv_done|done]. }
  destruct q as [|curr q]; [split; [intros _; by eapply sound_inv_done|done]|].
  cbn [sound_loop]. simpl in Hf. pose proof Hinv as (Hr & Hs & Hq & Hc).
  assert (Hreach : rtc gedge root curr) by (apply Hs, Hq; by left).
  destruct (graph !! curr) as [ds|] eqn:Hg.
  - destruct (scan_deps bad ds (V, q)) as [[V' q']|] eqn:Hscan.
    + destruct (sound_inv_expand _ _ _ _ _ _ _ Hinv Hg Hscan) as [Hinv' Hpot].
      apply IH; [done|lia].
    + split; [done|]. intros Hall. exfalso.
      pose proof (scan_deps_spec ds V q) as Hspec. rewrite Hscan in Hspec.
      destruct Hspec as (d & Hd & Hb); [intros d Hd; by eapply HU|].
      destruct (Hall curr Hreach) as [_ Hgood]. rewrite (Hgood d) in Hb; [done|]. by exists ds.
  - destruct (known curr) eqn:Hk.
    + apply IH; [by eapply sound_inv_skip|lia].
    + split; [done|]. intros Hall. destruct (Hall curr Hreach) as [[[? ?]|?] _]; congruence.
Qed.

Lemma sound_loop_root fuel root : (S (length U) ≤ fuel)%nat →
  sound_loop bad known graph fuel {[root]} [root] = true ↔ ∀ x, rtc gedge root x → good_node x.
Proof.
  intros Hf. apply sound_loop_correct.
  - split_and!; [set_solver| |set_solver|set_solver]. intros x ->%elem_of_singleton. done.
  - pose proof (outside_le U {[root]}). simpl. lia.
Qed.
End sound.
