(* ===== verification/Query.v ===== *)
(** * Query: the cache query engine
    (crates/nixcache-core/src/filter.rs, [evaluate_cache_query])

    Builds the dependency graph of the entries, computes the closure protected
    by the GC roots, the initial matches and their cascade, and splits the
    entries into matched and unmatched. *)

From stdpp Require Import relations.
From S2P Require Import Prelude Machine Str Error Types Sharding Filter Graph.

Local Open Scope N_scope.

Record CacheQueryResult := {
  matched_entries : gmap StoreHash IndexEntry;
  unmatched_entries : gmap StoreHash IndexEntry;
  initial_matched_hashes : list StoreHash;
  final_matched_hashes : list StoreHash;
  reason_map : gmap StoreHash (list N);
  matched_bytes : N;
  unmatched_bytes : N;
  active_gc_roots : gmap SystemArch (list StoreHash) }.

Notation AdjacencyMap := (gmap StoreHash (list StoreHash)).

(** [map.entry(key).or_default().push(value)]. *)
Definition push_at (m : AdjacencyMap) (key value : StoreHash) : AdjacencyMap :=
  <[key := default [] (m !! key) ++ [value]]> m.

Definition entry_deps (entry : IndexEntry) : outcome CoreError (list StoreHash) :=
  map_err TypeErr (NarInfoMeta_reference_hashes (narinfo_meta entry)).

Definition add_to_graphs (graphs : AdjacencyMap * AdjacencyMap) (binding : StoreHash * IndexEntry)
    : outcome CoreError (AdjacencyMap * AdjacencyMap) :=
  let '(forward_graph, reverse_graph) := graphs in
  let '(hash, entry) := binding in
  deps ← entry_deps entry;
  Ok (<[hash := deps]> forward_graph, foldl (λ m dep, push_at m dep hash) reverse_graph deps).

(** Edges of the graph, for the bound on the loops. *)
Definition edge_count (entries : gmap StoreHash IndexEntry) : nat :=
  sum_list ((λ '(_, e), length (references (narinfo_meta e))) <$> map_to_list entries).

Section query.
Context `{Chrono} `{HashIter} `{Build}.

Definition build_graphs (entries : gmap StoreHash IndexEntry)
    : outcome CoreError (AdjacencyMap * AdjacencyMap) :=
  fold_m add_to_graphs (∅, ∅) (hash_iter entries).

(** [target_systems.is_none_or(|systems| systems.contains(sys))]. *)
Definition system_is_target (selector : CacheSelector) (sys : SystemArch) : bool :=
  match target_systems selector with
  | None => true
  | Some systems => bool_decide (sys ∈ systems)
  end.
Definition select_active_roots (gc_roots : gmap SystemArch (list StoreHash))
    (selector : CacheSelector) : gmap SystemArch (list StoreHash) :=
  filter (λ '(sys, _), system_is_target selector sys = true) gc_roots.

(** The closure of the active roots, when [protect_gc_roots] is set. *)
Definition protected_closure (entries : gmap StoreHash IndexEntry) (forward_graph : AdjacencyMap)
    (active : gmap SystemArch (list StoreHash)) (selector : CacheSelector)
    : outcome CoreError (gset StoreHash) :=
  if protect_gc_roots selector then
    let root_queue := mjoin (map_values active) in
    reach_loop (λ curr, Ok (default [] (forward_graph !! curr)))
      (length root_queue + edge_count entries) root_queue ∅
  else Ok ∅.

(** One entry of the first pass: the reason when it is an initial match. *)
Definition initial_reason (selector : CacheSelector) (protected : gset StoreHash)
    (hash : StoreHash) (entry : IndexEntry) : option (list N) :=
  if protect_gc_roots selector && bool_decide (hash ∈ protected) then None
  else
    match scope selector with
    | All systems =>
        if system_selected systems entry
        then Some (if protect_gc_roots selector then lit "Select All (Unreachable Roots)"
                   else lit "Select All")
        else None
    | Filtered predicates =>
        reasons ← evaluate_entry predicates hash entry; Some (join (lit ", ") reasons)
    | ScopeNone => None
    end.
Definition initial_matches (entries : gmap StoreHash IndexEntry) (selector : CacheSelector)
    (protected : gset StoreHash) : list (StoreHash * list N) :=
  omap (λ '(hash, entry), r ← initial_reason selector protected hash entry; Some (hash, r))
    (hash_iter entries).

(** The adjacency lists a cascade mode walks, with their reason texts. *)
Definition cascade_neighbours (mode : CascadeMode) (forward_graph reverse_graph : AdjacencyMap)
    (curr : StoreHash) : list (list N * list StoreHash) :=
  let dependents := (lit "Cascade dependent of ", default [] (reverse_graph !! curr)) in
  let deps := (lit "Cascade transitive dependency of ", default [] (forward_graph !! curr)) in
  match mode with
  | Exact => []
  | Dependents => [dependents]
  | Transitive => [deps]
  | FullTree => [dependents; deps]
  end.

Definition cascade_fuel (entries : gmap StoreHash IndexEntry) (queue : list StoreHash) : nat :=
  length queue + (size entries + edge_count entries).

Definition run_cascade (entries : gmap StoreHash IndexEntry) (selector : CacheSelector)
    (graphs : AdjacencyMap * AdjacencyMap) (protected : gset StoreHash)
    (initial : list (StoreHash * list N)) : CascadeState :=
  let initial_matched : gset StoreHash := list_to_set initial.*1 in
  let queue := set_iter initial_matched in
  cascade_loop (λ dep, protect_gc_roots selector && bool_decide (dep ∈ protected))
    (cascade_neighbours (cascade_mode selector) graphs.1 graphs.2)
    (cascade_fuel entries queue)
    {| cs_total := initial_matched; cs_reasons := list_to_map initial; cs_queue := queue |}.

(** The last pass, over the entries in iteration order. *)
Definition collect_result (entries : gmap StoreHash IndexEntry) (initial : list (StoreHash * list N))
    (st : CascadeState) (active : gmap SystemArch (list StoreHash))
    : outcome CoreError CacheQueryResult :=
  let total := cs_total st in
  let hit := filter (λ '(h, _), h ∈ total) (hash_iter entries) in
  let miss := filter (λ '(h, _), h ∉ total) (hash_iter entries) in
  matched ← arith_sum u64_bound (nar_size <$> hit.*2);
  unmatched ← arith_sum u64_bound (nar_size <$> miss.*2);
  Ok {| matched_entries := list_to_map hit; unmatched_entries := list_to_map miss;
        initial_matched_hashes := merge_sort StoreHash_le initial.*1;
        final_matched_hashes := merge_sort StoreHash_le hit.*1;
        reason_map := cs_reasons st; matched_bytes := matched; unmatched_bytes := unmatched;
        active_gc_roots := active |}.

Definition evaluate_cache_query (entries : gmap StoreHash IndexEntry)
    (gc_roots : gmap SystemArch (list StoreHash)) (selector : CacheSelector)
    : outcome CoreError CacheQueryResult :=
  graphs ← build_graphs entries;
  let active := select_active_roots gc_roots selector in
  protected ← protected_closure entries graphs.1 active selector;
  let initial := initial_matches entries selector protected in
  let st := run_cascade entries selector graphs protected initial in
  collect_result entries initial st active.

(** [if !gc_roots.is_empty() { roots_map.insert(system, gc_roots.to_vec()) }]. *)
Definition single_arch_roots (sys : SystemArch) (gc_roots : list StoreHash)
    : gmap SystemArch (list StoreHash) :=
  if bool_decide (gc_roots = []) then ∅ else {[ sys := gc_roots ]}.
Definition evaluate_arch_cache_query (entries : gmap StoreHash IndexEntry)
    (gc_roots : list StoreHash) (sys : SystemArch) (selector : CacheSelector)
    : outcome CoreError CacheQueryResult :=
  evaluate_cache_query entries (single_arch_roots sys gc_roots) selector.
End query.

(** ** What the engine computes *)

(** [a] refers to [b]: an edge of the dependency graph. *)
Definition refers (entries : gmap StoreHash IndexEntry) (a b : StoreHash) : Prop :=
  ∃ e ds, entries !! a = Some e ∧ entry_deps e = Ok ds ∧ b ∈ ds.
(** Every entry's references can be read. *)
Definition graph_readable (entries : gmap StoreHash IndexEntry) : Prop :=
  map_Forall (λ _ e, ∃ ds, entry_deps e = Ok ds) entries.
(** Reachable from a GC root of a targeted system. *)
Definition root_reachable (entries : gmap StoreHash IndexEntry)
    (gc_roots : gmap SystemArch (list StoreHash)) (selector : CacheSelector) (x : StoreHash) : Prop :=
  ∃ sys roots r, gc_roots !! sys = Some roots ∧ system_is_target selector sys = true ∧
    r ∈ roots ∧ rtc (refers entries) r x.
Definition is_protected (entries : gmap StoreHash IndexEntry)
    (gc_roots : gmap SystemArch (list StoreHash)) (selector : CacheSelector) (x : StoreHash) : Prop :=
  protect_gc_roots selector = true ∧ root_reachable entries gc_roots selector x.
(** The selector's scope covers the entry. *)
Definition in_scope `{Chrono} `{HashIter} (selector : CacheSelector) (h : StoreHash) (e : IndexEntry)
    : Prop :=
  match scope selector with
  | All systems => system_selected systems e = true
  | Filtered predicates => is_Some (evaluate_entry predicates h e)
  | ScopeNone => False
  end.
(** One step of a cascade. *)
Definition cascade_edge (entries : gmap StoreHash IndexEntry) (mode : CascadeMode)
    (a b : StoreHash) : Prop :=
  match mode with
  | Exact => False
  | Dependents => refers entries b a
  | Transitive => refers entries a b
  | FullTree => refers entries b a ∨ refers entries a b
  end.
(** The specification of the matched set. *)
Definition initially_selected `{Chrono} `{HashIter} (entries : gmap StoreHash IndexEntry)
    (gc_roots : gmap SystemArch (list StoreHash)) (selector : CacheSelector) (h : StoreHash) : Prop :=
  ∃ e, entries !! h = Some e ∧ in_scope selector h e ∧ ¬ is_protected entries gc_roots selector h.
Definition selected `{Chrono} `{HashIter} (entries : gmap StoreHash IndexEntry)
    (gc_roots : gmap SystemArch (list StoreHash)) (selector : CacheSelector) (h : StoreHash) : Prop :=
  ∃ i, initially_selected entries gc_roots selector i ∧
    rtc (λ a b, cascade_edge entries (cascade_mode selector) a b ∧
                ¬ is_protected entries gc_roots selector b) i h.

(** ** Facts: the graphs *)

Lemma entry_deps_length e ds : entry_deps e = Ok ds → length ds = length (references (narinfo_meta e)).
Proof.
  unfold entry_deps, NarInfoMeta_reference_hashes. intros Hd%map_err_ok%collect_m_ok.
  by apply Forall2_length in Hd.
Qed.

Lemma push_at_fold h ds m d x :
  x ∈ default [] (foldl (λ m dep, push_at m dep h) m ds !! d) ↔
  x ∈ default [] (m !! d) ∨ (x = h ∧ d ∈ ds).
Proof.
  revert m. induction ds as [|d' ds IH]; intros m; simpl; [set_solver|]. rewrite IH. unfold push_at.
  destruct (decide (d' = d)) as [->|Hne].
  - rewrite lookup_insert_eq. simpl. set_solver.
  - rewrite lookup_insert_ne by done. set_solver.
Qed.

Lemma build_graphs_fold l f r : NoDup l.*1 → Forall (λ he, ∃ ds, entry_deps he.2 = Ok ds) l →
  ∃ f' r', fold_m add_to_graphs (f, r) l = Ok (f', r') ∧
    (∀ h ds, f' !! h = Some ds ↔
       (∃ e, (h, e) ∈ l ∧ entry_deps e = Ok ds) ∨ (h ∉ l.*1 ∧ f !! h = Some ds)) ∧
    (∀ d h, h ∈ default [] (r' !! d) ↔
       h ∈ default [] (r !! d) ∨ ∃ e ds, (h, e) ∈ l ∧ entry_deps e = Ok ds ∧ d ∈ ds).
Proof.
  revert f r. induction l as [|[h e] l IH]; intros f r Hnd Hall; simpl.
  { exists f, r. split_and!; [done|set_solver|set_solver]. }
  apply NoDup_cons in Hnd as [Hh Hnd]. apply Forall_cons in Hall as [[ds Hds] Hall]. simpl in Hds.
  rewrite Hds. cbn [mbind outcome_bind].
  destruct (IH (<[h := ds]> f) (foldl (λ m dep, push_at m dep h) r ds)) as (f' & r' & Hf & Hfwd & Hrev);
    [done..|].
  exists f', r'. split; [done|]. split.
  - intros x xs. rewrite Hfwd. setoid_rewrite elem_of_cons. destruct (decide (x = h)) as [->|Hne].
    + rewrite lookup_insert_eq. split.
      * intros [(e' & Hin & _)|[_ [= <-]]]; [|left; eauto].
        destruct Hh. by apply (list_elem_of_fmap_2 fst) in Hin.
      * intros [(e' & [[= ->]|Hin] & He')|[Hno _]].
        -- right. split; [done|]. congruence.
        -- destruct Hh. by apply (list_elem_of_fmap_2 fst) in Hin.
        -- destruct Hno. by left.
    + rewrite lookup_insert_ne by done. split.
      * intros [(e' & Hin & He')|[Hno Hl]]; [left; eauto|]. right. split; [|done].
        intros [->|?]; done.
      * intros [(e' & [[= ? ?]|Hin] & He')|[Hno Hl]]; [done|left; eauto|]. right. split; [|done]. tauto.
  - intros d x. rewrite Hrev, push_at_fold. setoid_rewrite elem_of_cons. split.
    + intros [[?|[-> ?]]|(e' & ds' & ? & ? & ?)]; [by left|right; by exists e, ds; auto|].
      right. exists e', ds'. auto.
    + intros [?|(e' & ds' & [[= -> ->]|?] & Hd' & ?)]; [tauto| |].
      { left. right. assert (ds' = ds) as -> by congruence. done. }
      right. by exists e', ds'.
Qed.

Section facts.
Context `{Chrono} `{HashIter}.
Implicit Types entries : gmap StoreHash IndexEntry.
Implicit Types f : AdjacencyMap.

Lemma build_graphs_ok entries : graph_readable entries →
  ∃ f r, build_graphs entries = Ok (f, r) ∧
    (∀ h ds, f !! h = Some ds ↔ ∃ e, entries !! h = Some e ∧ entry_deps e = Ok ds) ∧
    (∀ a b, a ∈ default [] (r !! b) ↔ refers entries a b).
Proof.
  intros Hr. destruct (build_graphs_fold (hash_iter entries) ∅ ∅) as (f & r & Hf & Hfwd & Hrev).
  { apply NoDup_fst_hash_iter. }
  { apply Forall_forall. intros [h e] He%elem_of_hash_iter. by apply (Hr h). }
  exists f, r. split; [done|]. split.
  - intros h ds. rewrite Hfwd. setoid_rewrite elem_of_hash_iter. rewrite lookup_empty. naive_solver.
  - intros a b. rewrite Hrev. setoid_rewrite elem_of_hash_iter. rewrite lookup_empty.
    unfold refers. set_solver.
Qed.

Lemma build_graphs_readable entries g : build_graphs entries = Ok g → graph_readable entries.
Proof.
  unfold build_graphs. intros Hg.
  assert (Hall : ∀ l st st', fold_m add_to_graphs st l = Ok st' →
    Forall (λ he, ∃ ds, entry_deps he.2 = Ok ds) l).
  { clear. induction l as [|[h e] l IH]; intros [f r] st'; simpl; [constructor|].
    intros (st1 & (ds & Hds & _)%bind_ok & Hrest)%bind_ok. constructor; [by exists ds|by eapply IH]. }
  apply Hall in Hg. intros h e He. rewrite Forall_forall in Hg.
  apply elem_of_hash_iter, Hg in He. done.
Qed.

(** The forward graph as a function. *)
Lemma forward_edge entries f :
  (∀ h ds, f !! h = Some ds ↔ ∃ e, entries !! h = Some e ∧ entry_deps e = Ok ds) →
  ∀ a b, b ∈ default [] (f !! a) ↔ refers entries a b.
Proof.
  intros Hf a b. unfold refers. destruct (f !! a) as [ds|] eqn:Ha; simpl.
  - apply Hf in Ha as (e & He & Hd). split; [eauto 6|].
    intros (e' & ds' & He' & Hd' & Hb). assert (ds' = ds) as <- by congruence. done.
  - split; [set_solver|]. intros (e & ds & He & Hd & _).
    assert (f !! a = Some ds) by (apply Hf; eauto). congruence.
Qed.

(** *** The nodes and the universe of the loops *)

Definition degree_list entries : list (StoreHash * nat) :=
  (λ '(h, e), (h, length (references (narinfo_meta e)))) <$> map_to_list entries.

Lemma degree_list_sum entries : sum_list (degree_list entries).*2 = edge_count entries.
Proof.
  unfold degree_list, edge_count. f_equal. rewrite <-list_fmap_compose.
  apply list_fmap_ext. by intros i [h e] _.
Qed.

Definition deps_or_nil (e : IndexEntry) : list StoreHash :=
  match entry_deps e with Ok ds => ds | _ => [] end.
Definition dep_universe entries : list StoreHash := map_to_list entries ≫= λ he, deps_or_nil he.2.
Definition universe entries : list StoreHash := (map_to_list entries).*1 ++ dep_universe entries.

Lemma dep_universe_length entries : (length (dep_universe entries) ≤ edge_count entries)%nat.
Proof.
  unfold dep_universe, edge_count. induction (map_to_list entries) as [|[h e] l IH]; [done|].
  rewrite bind_cons, length_app. simpl. change (list_fmap _ _ _ l) with
    ((λ '(_, e), length (references (narinfo_meta e))) <$> l).
  assert (length (deps_or_nil e) ≤ length (references (narinfo_meta e)))%nat; [|simpl in *; lia].
  unfold deps_or_nil. destruct (entry_deps e) as [ds| |] eqn:Hd; simpl; [|lia..].
  apply entry_deps_length in Hd. lia.
Qed.

Lemma universe_length entries : (length (universe entries) ≤ size entries + edge_count entries)%nat.
Proof.
  unfold universe. rewrite length_app, length_fmap, length_map_to_list.
  pose proof (dep_universe_length entries). lia.
Qed.

Lemma refers_dep_universe entries a b : refers entries a b → b ∈ dep_universe entries.
Proof.
  intros (e & ds & He & Hd & Hb). apply list_elem_of_bind. exists (a, e). simpl.
  unfold deps_or_nil. rewrite Hd. split; [done|]. by apply elem_of_map_to_list.
Qed.

Lemma refers_universe entries a b : refers entries a b → a ∈ universe entries ∧ b ∈ universe entries.
Proof.
  intros Hr. unfold universe. rewrite !elem_of_app. split; [left|right; by eapply refers_dep_universe].
  destruct Hr as (e & ds & He & _). apply elem_of_map_to_list in He.
  by apply (list_elem_of_fmap_2 fst) in He.
Qed.

(** *** The protected closure *)

Lemma forward_degrees entries f :
  (∀ h ds, f !! h = Some ds ↔ ∃ e, entries !! h = Some e ∧ entry_deps e = Ok ds) →
  ∀ x, (∃ ds n, @Ok CoreError _ (default [] (f !! x)) = Ok ds ∧ (x, n) ∈ degree_list entries ∧
          (length ds ≤ n)%nat) ∨ @Ok CoreError _ (default [] (f !! x)) = Ok [].
Proof.
  intros Hf x. destruct (f !! x) as [ds|] eqn:Hx; [left|by right].
  apply Hf in Hx as (e & He & Hd). exists ds, (length (references (narinfo_meta e))).
  split; [done|]. split; [|by rewrite (entry_deps_length _ _ Hd)].
  apply list_elem_of_fmap. exists (x, e). split; [done|]. by apply elem_of_map_to_list.
Qed.

Lemma active_roots_elem gc_roots selector r :
  r ∈ mjoin (map_values (select_active_roots gc_roots selector)) ↔
  ∃ sys roots, gc_roots !! sys = Some roots ∧ system_is_target selector sys = true ∧ r ∈ roots.
Proof.
  rewrite list_elem_of_join. setoid_rewrite elem_of_map_values. unfold select_active_roots.
  setoid_rewrite map_lookup_filter_Some. naive_solver.
Qed.

Lemma protected_closure_ok entries f gc_roots selector :
  (∀ h ds, f !! h = Some ds ↔ ∃ e, entries !! h = Some e ∧ entry_deps e = Ok ds) →
  ∃ P, protected_closure entries f (select_active_roots gc_roots selector) selector = Ok P ∧
    ∀ x, protect_gc_roots selector && bool_decide (x ∈ P) = true ↔
         is_protected entries gc_roots selector x.
Proof.
  intros Hf. unfold protected_closure, is_protected.
  destruct (protect_gc_roots selector); [|exists ∅; split; [done|naive_solver]].
  destruct (reach_loop_roots _ (degree_list entries) (forward_degrees entries f Hf)
    (length (mjoin (map_values (select_active_roots gc_roots selector))) + edge_count entries)
    (mjoin (map_values (select_active_roots gc_roots selector)))) as (P & HP & HPx).
  { by rewrite degree_list_sum. }
  exists P. split; [done|]. intros x. cbn [andb]. rewrite bool_decide_eq_true, HPx.
  assert (∀ a b, edge (λ curr, @Ok CoreError _ (default [] (f !! curr))) a b ↔ refers entries a b) as He.
  { intros a b. rewrite <-(forward_edge entries f Hf). unfold edge. naive_solver. }
  unfold root_reachable. setoid_rewrite active_roots_elem. split.
  - intros (r & (sys & roots & ? & ? & ?) & Hr). split; [done|]. exists sys, roots, r.
    split_and!; try done. eapply rtc_subrel; [|exact Hr]. intros a b. apply He.
  - intros (_ & sys & roots & r & ? & ? & ? & Hr). exists r. split; [eauto|].
    eapply rtc_subrel; [|exact Hr]. intros a b. apply He.
Qed.
End facts.

(** ** Facts: matches, cascade and result *)

Section engine.
Context `{Chrono} `{HashIter} `{Build}.
Context (entries : gmap StoreHash IndexEntry) (gc_roots : gmap SystemArch (list StoreHash)).
Context (selector : CacheSelector).

Lemma initial_reason_Some P h e :
  (∀ x, protect_gc_roots selector && bool_decide (x ∈ P) = true ↔
        is_protected entries gc_roots selector x) →
  is_Some (initial_reason selector P h e) ↔
  in_scope selector h e ∧ ¬ is_protected entries gc_roots selector h.
Proof.
  intros HP. unfold initial_reason. rewrite <-HP.
  destruct (_ && _) eqn:Hg; [split; [by intros []|naive_solver]|].
  unfold in_scope. destruct (scope selector) as [s|p|].
  - destruct (system_selected s e); split; naive_solver.
  - rewrite fmap_is_Some || idtac. destruct (evaluate_entry p h e); simpl; split; naive_solver.
  - split; [by intros []|tauto].
Qed.

Lemma initial_matches_elem P h :
  (∀ x, protect_gc_roots selector && bool_decide (x ∈ P) = true ↔
        is_protected entries gc_roots selector x) →
  h ∈ (initial_matches entries selector P).*1 ↔ initially_selected entries gc_roots selector h.
Proof.
  intros HP. unfold initial_matches, initially_selected. rewrite list_elem_of_fmap. split.
  - intros ([h' r] & -> & ([h0 e] & Hin%elem_of_hash_iter & Hr)%list_elem_of_omap). simpl.
    destruct (initial_reason selector P h0 e) eqn:Hi; simplify_eq/=. exists e. split; [done|].
    apply (initial_reason_Some P); [done|by eexists].
  - intros (e & He & Hs & Hp). destruct (proj2 (initial_reason_Some P h e HP)) as [r Hr]; [done|].
    exists (h, r). split; [done|]. apply list_elem_of_omap. exists (h, e).
    rewrite elem_of_hash_iter, Hr. done.
Qed.

Lemma initial_matches_NoDup P : NoDup (initial_matches entries selector P).*1.
Proof.
  unfold initial_matches. pose proof (NoDup_fst_hash_iter entries) as Hnd.
  induction (hash_iter entries) as [|[h e] l IH]; [constructor|].
  apply NoDup_cons in Hnd as [Hh Hnd]. simpl.
  destruct (initial_reason selector P h e) as [r|]; simpl; [|by apply IH].
  apply NoDup_cons. split; [|by apply IH].
  intros ([h' r'] & Hx & ([h0 e0] & Hin & Hr)%list_elem_of_omap)%list_elem_of_fmap. simpl in Hx.
  destruct (initial_reason selector P h0 e0); simplify_eq/=. apply Hh.
  by apply (list_elem_of_fmap_2 fst) in Hin.
Qed.

Context (f r : AdjacencyMap).
Context (Hf : ∀ h ds, f !! h = Some ds ↔ ∃ e, entries !! h = Some e ∧ entry_deps e = Ok ds).
Context (Hr : ∀ a b, a ∈ default [] (r !! b) ↔ refers entries a b).

Lemma cascade_neighbours_spec mode a b :
  (∃ adj, adj ∈ cascade_neighbours mode f r a ∧ b ∈ adj.2) ↔ cascade_edge entries mode a b.
Proof.
  pose proof (forward_edge entries f Hf a b) as Hfe. specialize (Hr b a).
  unfold cascade_neighbours, cascade_edge. destruct mode; rewrite <-?Hr, <-?Hfe;
    setoid_rewrite elem_of_cons || setoid_rewrite elem_of_nil; set_solver.
Qed.

Lemma run_cascade_spec P :
  (∀ x, protect_gc_roots selector && bool_decide (x ∈ P) = true ↔
        is_protected entries gc_roots selector x) →
  let st := run_cascade entries selector (f, r) P (initial_matches entries selector P) in
  (∀ x, x ∈ cs_total st ↔ selected entries gc_roots selector x) ∧
  dom (cs_reasons st) = cs_total st.
Proof.
  intros HP. unfold run_cascade. cbv zeta.
  set (init := initial_matches entries selector P).
  set (total := list_to_set init.*1 : gset StoreHash).
  assert (Hin : ∀ x, x ∈ total ↔ initially_selected entries gc_roots selector x).
  { intros x. unfold total. rewrite elem_of_list_to_set. by apply initial_matches_elem. }
  set (guarded := λ dep, protect_gc_roots selector && bool_decide (dep ∈ P)).
  assert (HU : ∀ a adj d, adj ∈ cascade_neighbours (cascade_mode selector) f r a → d ∈ adj.2 →
    d ∈ universe entries).
  { intros a adj d Hadj Hd.
    assert (cascade_edge entries (cascade_mode selector) a d) as Hc by (apply cascade_neighbours_spec; eauto).
    unfold cascade_edge in Hc. destruct (cascade_mode selector); [done|..];
      repeat destruct Hc as [Hc|Hc]; by apply refers_universe in Hc as [? ?]. }
  destruct (cascade_loop_correct guarded _ (universe entries) HU
    (cascade_fuel entries (set_iter total)) total
    {| cs_total := total; cs_reasons := list_to_map init; cs_queue := set_iter total |})
    as [Htot Hdom].
  - split_and!; simpl.
    + intros x Hx. by exists x.
    + done.
    + intros x. by rewrite elem_of_set_iter.
    + intros x y Hx _. left. by apply elem_of_set_iter.
    + unfold total. apply set_eq. intros x. rewrite elem_of_dom, elem_of_list_to_set.
      rewrite list_elem_of_fmap. split.
      * intros [v Hv]. apply elem_of_list_to_map_2 in Hv. by exists (x, v).
      * intros ([x' v] & -> & Hv). exists v. apply elem_of_list_to_map_1; [|done].
        apply initial_matches_NoDup.
  - unfold potential, cascade_fuel. simpl. pose proof (outside_le (universe entries) total).
    pose proof (universe_length entries). lia.
  - split; [|exact Hdom]. intros x. rewrite Htot. unfold selected.
    assert (Hedge : ∀ a b, cedge guarded (cascade_neighbours (cascade_mode selector) f r) a b ↔
      cascade_edge entries (cascade_mode selector) a b ∧ ¬ is_protected entries gc_roots selector b).
    { intros a b. unfold cedge. rewrite cascade_neighbours_spec, <-HP. unfold guarded.
      by rewrite not_true_iff_false. }
    split; intros (i & Hi & Hx); exists i; (split; [by apply Hin|]);
      (eapply rtc_subrel; [|exact Hx]); intros a b; apply Hedge.
Qed.
End engine.

(** *** Splitting the entries *)

Lemma NoDup_fst_filter {K V} (P : K * V → Prop) `{∀ x, Decision (P x)} (l : list (K * V)) :
  NoDup l.*1 → NoDup (filter P l).*1.
Proof.
  induction l as [|[k v] l IH]; [done|]. intros [Hk Hnd]%NoDup_cons.
  destruct (decide (P (k, v))).
  - rewrite filter_cons_True by done. apply NoDup_cons. split; [|by apply IH].
    intros ([k' v'] & Heq & [_ Hin]%list_elem_of_filter)%list_elem_of_fmap. simpl in Heq. subst.
    apply Hk. by apply (list_elem_of_fmap_2 fst) in Hin.
  - rewrite filter_cons_False by done. by apply IH.
Qed.

Lemma list_to_map_filter_iter `{HashIter} {V} (m : gmap StoreHash V) (P : StoreHash → Prop)
    `{∀ x, Decision (P x)} h v :
  (list_to_map (filter (λ '(h, _), P h) (hash_iter m)) : gmap StoreHash V) !! h = Some v ↔
  m !! h = Some v ∧ P h.
Proof.
  assert (Hnd : NoDup (filter (λ '(h, _), P h) (hash_iter m)).*1).
  { apply NoDup_fst_filter, NoDup_fst_hash_iter. }
  split.
  - intros Hl%elem_of_list_to_map_2. apply list_elem_of_filter in Hl as [? ?%elem_of_hash_iter]. done.
  - intros [Hl HP]. apply elem_of_list_to_map_1; [done|]. apply list_elem_of_filter.
    by rewrite elem_of_hash_iter.
Qed.

Lemma sum_N_perm l1 l2 : l1 ≡ₚ l2 → sum_N l1 = sum_N l2.
Proof. unfold sum_N. induction 1; simpl; lia. Qed.
Lemma sum_N_app l1 l2 : sum_N (l1 ++ l2) = sum_N l1 + sum_N l2.
Proof. unfold sum_N. induction l1; simpl; lia. Qed.

Definition total_nar_size (m : gmap StoreHash IndexEntry) : N :=
  sum_N (nar_size <$> (map_to_list m).*2).

Lemma filter_iter_sizes `{HashIter} (m : gmap StoreHash IndexEntry) (P : StoreHash → Prop)
    `{∀ x, Decision (P x)} :
  sum_N (nar_size <$> (filter (λ '(h, _), P h) (hash_iter m)).*2) =
  total_nar_size (list_to_map (filter (λ '(h, _), P h) (hash_iter m))).
Proof.
  unfold total_nar_size. apply sum_N_perm, fmap_Permutation, fmap_Permutation.
  symmetry. apply map_to_list_to_map, NoDup_fst_filter, NoDup_fst_hash_iter.
Qed.

Lemma total_nar_size_split `{HashIter} (m : gmap StoreHash IndexEntry) (P : StoreHash → Prop)
    `{∀ x, Decision (P x)} :
  sum_N (nar_size <$> (filter (λ '(h, _), P h) (hash_iter m)).*2)
  + sum_N (nar_size <$> (filter (λ '(h, _), ¬ P h) (hash_iter m)).*2) = total_nar_size m.
Proof.
  assert (total_nar_size m = sum_N (nar_size <$> (hash_iter m).*2)) as ->.
  { apply sum_N_perm, fmap_Permutation, fmap_Permutation. by rewrite hash_iter_perm. }
  induction (hash_iter m) as [|[h e] l IH]; [done|]. destruct (decide (P h)).
  - rewrite (filter_cons_True (λ '(h, _), P h)), (filter_cons_False (λ '(h, _), ¬ P h)) by (simpl; tauto).
    rewrite !fmap_cons. simpl sum_N. rewrite <-IH. simpl. lia.
  - rewrite (filter_cons_False (λ '(h, _), P h)), (filter_cons_True (λ '(h, _), ¬ P h)) by (simpl; tauto).
    rewrite !fmap_cons. simpl sum_N. rewrite <-IH. simpl. lia.
Qed.

(** ** The engine against its specification *)

(** [r] is the answer the specification gives. *)
Record query_answer `{Chrono} `{HashIter} (entries : gmap StoreHash IndexEntry)
    (gc_roots : gmap SystemArch (list StoreHash)) (selector : CacheSelector)
    (r : CacheQueryResult) : Prop := {
  qa_matched : ∀ h e, matched_entries r !! h = Some e ↔
    entries !! h = Some e ∧ selected entries gc_roots selector h;
  qa_unmatched : ∀ h e, unmatched_entries r !! h = Some e ↔
    entries !! h = Some e ∧ ¬ selected entries gc_roots selector h;
  qa_initial : ∀ h, h ∈ initial_matched_hashes r ↔ initially_selected entries gc_roots selector h;
  qa_initial_sorted : StronglySorted StoreHash_le (initial_matched_hashes r) ∧
    NoDup (initial_matched_hashes r);
  qa_final : ∀ h, h ∈ final_matched_hashes r ↔ is_Some (matched_entries r !! h);
  qa_final_sorted : StronglySorted StoreHash_le (final_matched_hashes r) ∧
    NoDup (final_matched_hashes r);
  qa_reasons : ∀ h, is_Some (reason_map r !! h) ↔ selected entries gc_roots selector h;
  qa_roots : active_gc_roots r = select_active_roots gc_roots selector }.

Section spec.
Context `{Chrono} `{HashIter} `{Build}.

Lemma merge_sort_sorted (l : list StoreHash) : NoDup l →
  StronglySorted StoreHash_le (merge_sort StoreHash_le l) ∧ NoDup (merge_sort StoreHash_le l).
Proof.
  intros Hnd. split; [apply StronglySorted_merge_sort; apply _|]. by rewrite merge_sort_Permutation.
Qed.

(** The run of the engine up to the last pass. *)
Lemma evaluate_cache_query_run entries gc_roots selector :
  graph_readable entries →
  ∃ init st,
    evaluate_cache_query entries gc_roots selector =
      collect_result entries init st (select_active_roots gc_roots selector) ∧
    (∀ x, x ∈ cs_total st ↔ selected entries gc_roots selector x) ∧
    dom (cs_reasons st) = cs_total st ∧ NoDup init.*1 ∧
    (∀ h, h ∈ init.*1 ↔ initially_selected entries gc_roots selector h).
Proof.
  intros Hread. unfold evaluate_cache_query.
  destruct (build_graphs_ok entries Hread) as (f & r & Hg & Hf & Hr). rewrite Hg.
  cbn [mbind outcome_bind]. destruct (protected_closure_ok entries f gc_roots selector Hf) as (P & HP & HPx).
  cbn [fst]. rewrite HP. cbn [mbind outcome_bind].
  destruct (run_cascade_spec entries gc_roots selector f r Hf Hr P HPx) as [Htot Hdom].
  eexists _, _. split; [done|]. split_and!; [done|done|apply initial_matches_NoDup|].
  intros h. by apply initial_matches_elem.
Qed.

Lemma collect_result_answer entries gc_roots selector init st r :
  (∀ x, x ∈ cs_total st ↔ selected entries gc_roots selector x) →
  dom (cs_reasons st) = cs_total st → NoDup init.*1 →
  (∀ h, h ∈ init.*1 ↔ initially_selected entries gc_roots selector h) →
  collect_result entries init st (select_active_roots gc_roots selector) = Ok r →
  query_answer entries gc_roots selector r.
Proof.
  intros Htot Hdom Hnd Hinit. unfold collect_result.
  intros (mb & _ & (ub & _ & [= <-])%bind_ok)%bind_ok.
  assert (Hm : ∀ h e, (list_to_map (filter (λ '(h, _), h ∈ cs_total st) (hash_iter entries)) :
    gmap StoreHash IndexEntry) !! h = Some e ↔ entries !! h = Some e ∧ h ∈ cs_total st).
  { intros h e. apply (list_to_map_filter_iter entries (λ h, h ∈ cs_total st)). }
  split; simpl.
  - intros h e. by rewrite Hm, Htot.
  - intros h e. rewrite (list_to_map_filter_iter entries (λ h, h ∉ cs_total st)). by rewrite Htot.
  - intros h. by rewrite elem_of_merge_sort.
  - by apply merge_sort_sorted.
  - intros h. rewrite elem_of_merge_sort, list_elem_of_fmap. split.
    + intros ([h' e] & -> & [Hin He%elem_of_hash_iter]%list_elem_of_filter). exists e. by apply Hm.
    + intros [e [He Hin]%Hm]. exists (h, e). rewrite list_elem_of_filter, elem_of_hash_iter. done.
  - apply merge_sort_sorted, NoDup_fst_filter, NoDup_fst_hash_iter.
  - intros h. by rewrite <-elem_of_dom, Hdom.
  - done.
Qed.

Lemma evaluate_cache_query_readable entries gc_roots selector r :
  evaluate_cache_query entries gc_roots selector = Ok r → graph_readable entries.
Proof. intros (g & Hg & _)%bind_ok. by eapply build_graphs_readable. Qed.

Lemma evaluate_cache_query_answer entries gc_roots selector r :
  evaluate_cache_query entries gc_roots selector = Ok r →
  query_answer entries gc_roots selector r.
Proof.
  intros Hq. pose proof (evaluate_cache_query_readable _ _ _ _ Hq) as Hread.
  destruct (evaluate_cache_query_run entries gc_roots selector Hread)
    as (init & st & He & Htot & Hdom & Hnd & Hinit).
  rewrite He in Hq. by eapply collect_result_answer.
Qed.

(** The sizes, when they fit. *)
Lemma evaluate_cache_query_bytes entries gc_roots selector :
  graph_readable entries → total_nar_size entries < u64_bound →
  ∃ r, evaluate_cache_query entries gc_roots selector = Ok r ∧
    matched_bytes r = total_nar_size (matched_entries r) ∧
    unmatched_bytes r = total_nar_size (unmatched_entries r) ∧
    matched_bytes r + unmatched_bytes r = total_nar_size entries.
Proof.
  intros Hread Hfit.
  destruct (evaluate_cache_query_run entries gc_roots selector Hread) as (init & st & He & _).
  rewrite He. unfold collect_result.
  pose proof (total_nar_size_split entries (λ h, h ∈ cs_total st)) as Hsum. cbv beta in Hsum.
  rewrite !arith_sum_ok by lia. cbn [mbind outcome_bind]. eexists. split; [done|].
  split_and!; [apply (filter_iter_sizes entries (λ h, h ∈ cs_total st))
              | apply (filter_iter_sizes entries (λ h, h ∉ cs_total st)) | done].
Qed.

(** ** Properties *)

(** C1: the query engine implements its specification.  When every entry's
    references can be read and the sizes fit a [u64], it returns; the matched and
    unmatched entries are the entries that are, or are not, selected: reachable
    from an initial match along the cascade without entering the closure of the
    protected GC roots; both hash lists are sorted and without repetition; every
    selected hash has a reason; the byte counts are the sums. *)
Theorem evaluate_cache_query_refines (entries : gmap StoreHash IndexEntry)
    (gc_roots : gmap SystemArch (list StoreHash)) (selector : CacheSelector)
    (Hread : graph_readable entries) (Hfit : total_nar_size entries < u64_bound) :
  ∃ r, evaluate_cache_query entries gc_roots selector = Ok r ∧
    query_answer entries gc_roots selector r ∧
    matched_bytes r = total_nar_size (matched_entries r) ∧
    unmatched_bytes r = total_nar_size (unmatched_entries r) ∧
    matched_bytes r + unmatched_bytes r = total_nar_size entries.
Proof.
  destruct (evaluate_cache_query_bytes entries gc_roots selector Hread Hfit) as (r & Hr & Hb).
  exists r. split; [done|]. split; [by eapply evaluate_cache_query_answer|done].
Qed.

Lemma selected_unprotected entries gc_roots selector h :
  selected entries gc_roots selector h → ¬ is_protected entries gc_roots selector h.
Proof.
  intros (i & (e & _ & _ & Hi) & Hc). apply rtc_inv_r in Hc as [->|(y & _ & _ & ?)]; done.
Qed.

(** C13: GC root protection is safe in every cascade mode: with
    [protect_gc_roots] set, no entry reachable from a root of a targeted
    architecture is ever matched, and each such entry is among the unmatched. *)
Theorem query_protects_gc_roots (entries : gmap StoreHash IndexEntry)
    (gc_roots : gmap SystemArch (list StoreHash)) (selector : CacheSelector) (r : CacheQueryResult)
    (Hq : evaluate_cache_query entries gc_roots selector = Ok r)
    (Hp : protect_gc_roots selector = true) :
  ∀ sys roots root h e, gc_roots !! sys = Some roots → system_is_target selector sys = true →
    root ∈ roots → rtc (refers entries) root h → entries !! h = Some e →
    matched_entries r !! h = None ∧ unmatched_entries r !! h = Some e.
Proof.
  intros sys roots root h e Hs Ht Hin Hreach He.
  apply evaluate_cache_query_answer in Hq as [Hm Hu _ _ _ _ _ _].
  assert (is_protected entries gc_roots selector h) as Hprot.
  { split; [done|]. by exists sys, roots, root. }
  split.
  - destruct (matched_entries r !! h) as [e'|] eqn:Hl; [|done].
    apply Hm in Hl as [_ Hsel]. by apply selected_unprotected in Hsel.
  - apply Hu. split; [done|]. intros Hsel. by apply selected_unprotected in Hsel.
Qed.

(** *** Failures *)

Lemma arith_sum_no_err {E} bound l (err : E) : arith_sum bound l ≠ Err err.
Proof.
  unfold arith_sum. generalize 0. induction l as [|x l IH]; intros n; [done|]. cbn [fold_m].
  destruct (arith_add bound n x) as [a|e|] eqn:Ha; cbn [mbind outcome_bind]; [apply IH| |done].
  unfold arith_add, arith in Ha. repeat case_match; done.
Qed.

Lemma entry_deps_no_panic e : no_panic (entry_deps e).
Proof.
  unfold entry_deps, NarInfoMeta_reference_hashes, reference_hash.
  apply no_panic_map_err, no_panic_collect_m. intros x _. apply no_panic_bind; [eauto with outcome|].
  intros n _. apply no_panic_bind; [eauto with outcome|]. intros [a b] _. apply StoreHash_parse_no_panic.
Qed.

Lemma graph_readable_or_not entries :
  graph_readable entries ∨ ∃ h e err, entries !! h = Some e ∧ entry_deps e = Err err.
Proof.
  destruct (decide (map_Forall (λ _ e, is_ok (entry_deps e) = true) entries)) as [Hall|Hex].
  - left. intros h e He. specialize (Hall h e He). simpl in Hall.
    destruct (entry_deps e) eqn:Hd; [eauto|done..].
  - right. apply map_not_Forall in Hex as (h & e & He & Hd); [|apply _].
    exists h, e. pose proof (entry_deps_no_panic e).
    destruct (entry_deps e) as [ds|err|] eqn:E; [done|eauto|done].
Qed.

Lemma build_graphs_no_panic entries : no_panic (build_graphs entries).
Proof.
  unfold build_graphs. generalize (∅ : AdjacencyMap, ∅ : AdjacencyMap).
  induction (hash_iter entries) as [|[h e] l IH]; intros [f r]; [done|]. cbn [fold_m add_to_graphs].
  pose proof (entry_deps_no_panic e). destruct (entry_deps e); cbn [mbind outcome_bind]; [apply IH|done|done].
Qed.

Lemma evaluate_unreadable entries gc_roots selector h e err :
  entries !! h = Some e → entry_deps e = Err err →
  ∃ err', evaluate_cache_query entries gc_roots selector = Err err'.
Proof.
  intros Hh Hd. unfold evaluate_cache_query. pose proof (build_graphs_no_panic entries).
  destruct (build_graphs entries) as [g|err'|] eqn:Hg; [|by exists err'|done].
  apply build_graphs_readable in Hg. destruct (Hg h e Hh) as [ds Hds]. congruence.
Qed.

Lemma bind_no_err {E A B} (m : outcome E A) (k : A → outcome E B) err :
  m ≠ Err err → (∀ a, k a ≠ Err err) → m ≫= k ≠ Err err.
Proof. destruct m; simpl; [auto|congruence|done]. Qed.

Lemma collect_result_no_err entries init st active err :
  collect_result entries init st active ≠ Err err.
Proof.
  unfold collect_result. apply bind_no_err; [apply arith_sum_no_err|]. intros a.
  apply bind_no_err; [apply arith_sum_no_err|done].
Qed.

Lemma collect_result_panic entries init st active :
  collect_result entries init st active = Panic →
  overflow_checks = true ∧ u64_bound ≤ total_nar_size entries.
Proof.
  unfold collect_result.
  pose proof (total_nar_size_split entries (λ h, h ∈ cs_total st)) as Hsum. cbv beta in Hsum.
  intros Hpanic. destruct overflow_checks eqn:Hov.
  - split; [done|]. destruct (N.lt_ge_cases (total_nar_size entries) u64_bound) as [Hlt|]; [|done].
    rewrite !arith_sum_ok in Hpanic by lia. discriminate Hpanic.
  - rewrite !arith_sum_wraps in Hpanic by done. discriminate Hpanic.
Qed.

(** when the engine fails and how.  It returns an error exactly when some
    entry has a reference that is not a store path name; it panics only when the
    sizes overflow [u64] in a build with overflow checks. *)
Theorem evaluate_cache_query_failures (entries : gmap StoreHash IndexEntry)
    (gc_roots : gmap SystemArch (list StoreHash)) (selector : CacheSelector) :
  ((∃ err, evaluate_cache_query entries gc_roots selector = Err err) ↔
   ∃ h e err, entries !! h = Some e ∧ entry_deps e = Err err) ∧
  (evaluate_cache_query entries gc_roots selector = Panic →
   overflow_checks = true ∧ u64_bound ≤ total_nar_size entries).
Proof.
  destruct (graph_readable_or_not entries) as [Hread|(h & e & err & Hh & Hd)].
  - destruct (evaluate_cache_query_run entries gc_roots selector Hread) as (init & st & He & _).
    rewrite He. split; [split|apply collect_result_panic].
    + intros [err Herr]. by apply collect_result_no_err in Herr.
    + intros (h & e & err & Hh & Hd). destruct (Hread h e Hh) as [ds Hds]. congruence.
  - destruct (evaluate_unreadable entries gc_roots selector h e err Hh Hd) as [err' Herr'].
    split; [split; eauto 6|congruence].
Qed.
End spec.

(** *** Independence of the iteration order *)

Lemma sorted_unique (l1 l2 : list StoreHash) :
  StronglySorted StoreHash_le l1 ∧ NoDup l1 → StronglySorted StoreHash_le l2 ∧ NoDup l2 →
  (∀ h, h ∈ l1 ↔ h ∈ l2) → l1 = l2.
Proof.
  intros [Hs1 Hn1] [Hs2 Hn2] Heq. apply (Sorted_unique StoreHash_le);
    [by apply StronglySorted_Sorted..|]. by apply NoDup_Permutation.
Qed.

(** the answer does not depend on the iteration order of any hash map or hash
    set: two runs that return agree on the matched and the unmatched entries, on
    both hash lists and on the set of hashes that have a reason. *)
Theorem query_order_independent `{Chrono} `{Build} (I1 I2 : HashIter)
    (entries : gmap StoreHash IndexEntry) (gc_roots : gmap SystemArch (list StoreHash))
    (selector : CacheSelector) (r1 r2 : CacheQueryResult)
    (H1 : @evaluate_cache_query _ I1 _ entries gc_roots selector = Ok r1)
    (H2 : @evaluate_cache_query _ I2 _ entries gc_roots selector = Ok r2) :
  matched_entries r1 = matched_entries r2 ∧ unmatched_entries r1 = unmatched_entries r2 ∧
  initial_matched_hashes r1 = initial_matched_hashes r2 ∧
  final_matched_hashes r1 = final_matched_hashes r2 ∧
  dom (reason_map r1) = dom (reason_map r2).
Proof.
  apply (@evaluate_cache_query_answer _ I1) in H1 as [M1 U1 S1 SS1 F1 FS1 R1 _].
  apply (@evaluate_cache_query_answer _ I2) in H2 as [M2 U2 S2 SS2 F2 FS2 R2 _].
  assert (Hi : ∀ h, @initially_selected _ I1 entries gc_roots selector h ↔
    @initially_selected _ I2 entries gc_roots selector h).
  { intros h. unfold initially_selected, in_scope. destruct (scope selector) as [s|p|]; [done| |done].
    by setoid_rewrite (evaluate_entry_order I1 I2). }
  assert (Hsel : ∀ h, @selected _ I1 entries gc_roots selector h ↔
    @selected _ I2 entries gc_roots selector h).
  { intros h. unfold selected. by setoid_rewrite Hi. }
  assert (Hm : matched_entries r1 = matched_entries r2).
  { apply map_eq. intros h. apply option_eq. intros e. by rewrite M1, M2, Hsel. }
  split_and!; [done| | | |].
  - apply map_eq. intros h. apply option_eq. intros e. by rewrite U1, U2, Hsel.
  - apply sorted_unique; [done..|]. intros h. by rewrite S1, S2.
  - apply sorted_unique; [done..|]. intros h. by rewrite F1, F2, Hm.
  - apply set_eq. intros h. by rewrite !elem_of_dom, R1, R2.
Qed.

(** ** Witnesses *)

Definition sample_hash2 : list N := lit "47pw62r4vgy8y7p5r64cjvxbwrsixmxd".
Definition sample_key2 : StoreHash := mkStoreHash sample_hash2.
(** An entry of day 29 that refers to an entry of day 10. *)
Definition sample_entries : gmap StoreHash IndexEntry :=
  <[ sample_key := sample_entry sample_hash [sample_hash2] (lit "29") ]>
  {[ sample_key2 := sample_entry sample_hash2 [] (lit "10") ]}.
Definition sample_roots : gmap SystemArch (list StoreHash) := {[ X86_64Linux := [sample_key] ]}.
Definition sample_selector : CacheSelector :=
  with_cascade (with_protect_gc_roots (CacheSelector_all ∅) true) FullTree.

Lemma sample_readable : graph_readable sample_entries.
Proof.
  apply map_Forall_insert_2; [|apply map_Forall_singleton];
    (eexists; vm_compute; reflexivity).
Qed.

Lemma evaluate_cache_query_refines_witness :
  ∃ r, @evaluate_cache_query sample_chrono map_order debug64 sample_entries sample_roots
         sample_selector = Ok r.
Proof.
  destruct (@evaluate_cache_query_refines sample_chrono map_order debug64 sample_entries sample_roots
    sample_selector sample_readable) as (r & Hr & _); [vm_compute; reflexivity|]. by exists r.
Defined.

Lemma query_protects_gc_roots_witness :
  ∃ r, @evaluate_cache_query sample_chrono map_order debug64 sample_entries sample_roots
         sample_selector = Ok r ∧ matched_entries r !! sample_key = None.
Proof.
  destruct (@evaluate_cache_query sample_chrono map_order debug64 sample_entries sample_roots
    sample_selector) as [r| |] eqn:E; [|vm_compute in E; discriminate E..].
  exists r. split; [done|].
  refine (proj1 (@query_protects_gc_roots sample_chrono map_order debug64 sample_entries sample_roots
    sample_selector r E _ X86_64Linux [sample_key] sample_key sample_key
    (sample_entry sample_hash [sample_hash2] (lit "29")) _ _ _ _ _)); try reflexivity.
  - by left.
Defined.

(** The opposite iteration order. *)
Definition reverse_order : HashIter := {|
  hash_iter := λ K V _ _ m, reverse (map_to_list m);
  hash_iter_perm := λ K V _ _ m, reverse_Permutation (map_to_list m) |}.

Lemma query_order_independent_witness :
  ∃ r1 r2, @evaluate_cache_query sample_chrono map_order debug64 sample_entries sample_roots
             sample_selector = Ok r1 ∧
           @evaluate_cache_query sample_chrono reverse_order debug64 sample_entries sample_roots
             sample_selector = Ok r2 ∧ matched_entries r1 = matched_entries r2.
Proof.
  destruct (@evaluate_cache_query sample_chrono map_order debug64 sample_entries sample_roots
    sample_selector) as [r1| |] eqn:E1; [|vm_compute in E1; discriminate E1..].
  destruct (@evaluate_cache_query sample_chrono reverse_order debug64 sample_entries sample_roots
    sample_selector) as [r2| |] eqn:E2; [|vm_compute in E2; discriminate E2..].
  exists r1, r2. split; [done|]. split; [done|].
  exact (proj1 (@query_order_independent sample_chrono debug64 map_order reverse_order sample_entries
    sample_roots sample_selector r1 r2 E1 E2)).
Defined.
