(* ===== verification/Purge.v ===== *)
(** * Purge: what a cache purge removes and which GC roots survive
    (crates/nixcache-core/src/purge.rs) *)

From stdpp Require Import relations.
From S2P Require Import Prelude Machine Str Error Types Sharding Filter Graph Query.

Local Open Scope N_scope.

Record PurgedBlob := { blob_digest : NarDigest; blob_size : N }.

Record PurgeEvaluationResult := {
  kept_entries : gmap StoreHash IndexEntry;
  purged_entries : gmap StoreHash IndexEntry;
  purged_hashes : list StoreHash;
  purged_blobs : list PurgedBlob;
  updated_gc_roots : gmap SystemArch (list StoreHash);
  estimated_freed_bytes : N;
  purge_reason_map : gmap StoreHash (list N) }.

#[export] Instance NarDigest_le_dec : RelDecision NarDigest_le.
Proof. unfold NarDigest_le. intros a b. apply _. Defined.
Definition blob_le (a b : PurgedBlob) : Prop := NarDigest_le (blob_digest a) (blob_digest b).
#[export] Instance blob_le_dec : RelDecision blob_le.
Proof. unfold blob_le. intros a b. apply _. Defined.

Section purge.
Context `{Chrono} `{HashIter} `{Build}.

(** The forward graph of the entries that stay. *)
Definition add_kept (purged : gset StoreHash) (graph : AdjacencyMap)
    (binding : StoreHash * IndexEntry) : outcome CoreError AdjacencyMap :=
  let '(hash, entry) := binding in
  if decide (hash ∈ purged) then Ok graph
  else deps ← entry_deps entry; Ok (<[hash := deps]> graph).
Definition kept_graph (entries : gmap StoreHash IndexEntry) (purged : gset StoreHash)
    : outcome CoreError AdjacencyMap :=
  fold_m (add_kept purged) ∅ (hash_iter entries).

(** The check of one root: all it depends on, transitively, stays. *)
Definition root_is_sound (entries : gmap StoreHash IndexEntry) (purged : gset StoreHash)
    (graph : AdjacencyMap) (root : StoreHash) : bool :=
  negb (bool_decide (root ∈ purged))
  && sound_loop
       (λ dep, bool_decide (dep ∈ purged) || bool_decide (entries !! dep = None))
       (λ curr, negb (bool_decide (entries !! curr = None)))
       graph (S (edge_count entries)) {[root]} [root].

Definition prune_broken_gc_roots (entries : gmap StoreHash IndexEntry)
    (gc_roots : gmap SystemArch (list StoreHash)) (purged : gset StoreHash)
    : outcome CoreError (gmap SystemArch (list StoreHash)) :=
  graph ← kept_graph entries purged;
  Ok (omap (λ roots,
        let valid_roots := filter (λ root, root_is_sound entries purged graph root = true) roots in
        if bool_decide (valid_roots = []) then None else Some valid_roots) gc_roots).

(** [entry(digest).and_modify(|size| max).or_insert(nar_size)]. *)
Definition add_blob (m : gmap NarDigest N) (entry : IndexEntry) : gmap NarDigest N :=
  <[nar_digest entry :=
      match m !! nar_digest entry with
      | Some size => N.max size (nar_size entry)
      | None => nar_size entry
      end]> m.
Definition collect_blobs (matched : gmap StoreHash IndexEntry) : list PurgedBlob :=
  merge_sort blob_le
    ((λ '(d, s), {| blob_digest := d; blob_size := s |})
     <$> hash_iter (foldl add_blob ∅ (map_values matched))).

Definition evaluate_cache_purge (entries : gmap StoreHash IndexEntry)
    (gc_roots : gmap SystemArch (list StoreHash)) (selector : CacheSelector)
    : outcome CoreError PurgeEvaluationResult :=
  query_res ← evaluate_cache_query entries gc_roots selector;
  let purged_hashes_set : gset StoreHash := list_to_set (map_keys (matched_entries query_res)) in
  updated ← prune_broken_gc_roots entries gc_roots purged_hashes_set;
  Ok {| kept_entries := unmatched_entries query_res; purged_entries := matched_entries query_res;
        purged_hashes := final_matched_hashes query_res;
        purged_blobs := collect_blobs (matched_entries query_res);
        updated_gc_roots := updated; estimated_freed_bytes := matched_bytes query_res;
        purge_reason_map := reason_map query_res |}.

Definition evaluate_arch_cache_purge (entries : gmap StoreHash IndexEntry)
    (gc_roots : list StoreHash) (sys : SystemArch) (selector : CacheSelector)
    : outcome CoreError PurgeEvaluationResult :=
  evaluate_cache_purge entries (single_arch_roots sys gc_roots) selector.

(** ** Facts *)

(** Everything reachable from the root is an entry that stays. *)
Definition closure_kept (entries : gmap StoreHash IndexEntry) (purged : gset StoreHash)
    (root : StoreHash) : Prop :=
  ∀ x, rtc (refers entries) root x → is_Some (entries !! x) ∧ x ∉ purged.

Lemma kept_graph_fold purged l g : NoDup l.*1 →
  Forall (λ he, ∃ ds, entry_deps he.2 = Ok ds) l →
  ∃ g', fold_m (add_kept purged) g l = Ok g' ∧
    ∀ h ds, g' !! h = Some ds ↔
      (∃ e, (h, e) ∈ l ∧ h ∉ purged ∧ entry_deps e = Ok ds) ∨
      ((h ∉ l.*1 ∨ h ∈ purged) ∧ g !! h = Some ds).
Proof.
  revert g. induction l as [|[h e] l IH]; intros g Hnd Hall; simpl.
  { exists g. split; [done|]. set_solver. }
  apply NoDup_cons in Hnd as [Hh Hnd]. apply Forall_cons in Hall as [[ds Hds] Hall]. simpl in Hds.
  assert (Hno : ∀ e', (h, e') ∉ l) by (intros e' Hin; by apply (list_elem_of_fmap_2 fst) in Hin).
  case_decide as Hp.
  - cbn [mbind outcome_bind]. destruct (IH g) as (g' & Hg & Hspec); [done..|]. exists g'.
    split; [done|]. intros x xs. rewrite Hspec. setoid_rewrite elem_of_cons.
    destruct (decide (x = h)) as [->|Hne]; naive_solver.
  - rewrite Hds. cbn [mbind outcome_bind].
    destruct (IH (<[h := ds]> g)) as (g' & Hg & Hspec); [done..|]. exists g'.
    split; [done|]. intros x xs. rewrite Hspec. setoid_rewrite elem_of_cons.
    destruct (decide (x = h)) as [->|Hne].
    + rewrite lookup_insert_eq. split.
      * intros [(e' & Hin & _)|[_ [= <-]]]; [by apply Hno in Hin|left; eauto].
      * intros [(e' & [[= ->]|Hin] & _ & He')|[[Hx|?] _]]; [|by apply Hno in Hin|tauto|done].
        right. split; [by left|]. congruence.
    + rewrite lookup_insert_ne by done. naive_solver.
Qed.

Lemma kept_graph_ok entries purged : graph_readable entries →
  ∃ g, kept_graph entries purged = Ok g ∧
    ∀ h ds, g !! h = Some ds ↔ ∃ e, entries !! h = Some e ∧ h ∉ purged ∧ entry_deps e = Ok ds.
Proof.
  intros Hread. destruct (kept_graph_fold purged (hash_iter entries) ∅) as (g & Hg & Hspec).
  { apply NoDup_fst_hash_iter. }
  { apply Forall_forall. intros [h e] He%elem_of_hash_iter. by apply (Hread h). }
  exists g. split; [done|]. intros h ds. rewrite Hspec. setoid_rewrite elem_of_hash_iter.
  rewrite lookup_empty. naive_solver.
Qed.

Lemma root_is_sound_spec entries purged g root : graph_readable entries →
  (∀ h ds, g !! h = Some ds ↔ ∃ e, entries !! h = Some e ∧ h ∉ purged ∧ entry_deps e = Ok ds) →
  root_is_sound entries purged g root = true ↔ closure_kept entries purged root.
Proof.
  intros Hread Hg. unfold root_is_sound. rewrite andb_true_iff, negb_true_iff, bool_decide_eq_false.
  set (bad := λ dep, _ || _). set (known := λ curr, negb _).
  assert (Hedge : ∀ a b, gedge g a b ↔ refers entries a b ∧ a ∉ purged).
  { intros a b. unfold gedge, refers. setoid_rewrite Hg. naive_solver. }
  rewrite (sound_loop_root bad known g (dep_universe entries)).
  2: { intros a ds d Ha Hd. assert (gedge g a d) as [Hr _]%Hedge by (by exists ds).
       by eapply refers_dep_universe. }
  2: { pose proof (dep_universe_length entries). lia. }
  assert (Hbad : ∀ y, bad y = false ↔ is_Some (entries !! y) ∧ y ∉ purged).
  { intros y. unfold bad. rewrite orb_false_iff, !bool_decide_eq_false, <-not_eq_None_Some. tauto. }
  assert (Hknown : ∀ y, known y = true ↔ is_Some (entries !! y)).
  { intros y. unfold known. by rewrite negb_true_iff, bool_decide_eq_false, not_eq_None_Some. }
  split.
  - intros [Hroot Hall] x Hx.
    assert (rtc (gedge g) root x ∧ is_Some (entries !! x) ∧ x ∉ purged) as (_ & ?); [|done].
    apply rtc_ind_r with (z := x) (P := λ x, rtc (gedge g) root x ∧ is_Some (entries !! x) ∧ x ∉ purged) in Hx;
      [done| |].
    + split; [done|]. split; [|done]. destruct (Hall root) as [[[ds Hds]|Hk] _]; [done| |by apply Hknown].
      apply Hg in Hds as (e & He & _). eauto.
    + intros y z _ Hyz (Hy & Hye & Hyp). assert (gedge g y z) as Hgz by (by apply Hedge).
      split; [by eapply rtc_r|]. apply Hbad. by apply (Hall y Hy).
  - intros Hall. split; [by apply Hall|]. intros x Hx.
    assert (rtc (refers entries) root x) as Hrx.
    { eapply rtc_subrel; [|exact Hx]. intros a b [? _]%Hedge. done. }
    split; [right; by apply Hknown, Hall|]. intros y [Hxy _]%Hedge. apply Hbad, Hall. by eapply rtc_r.
Qed.

Lemma prune_broken_gc_roots_ok entries gc_roots purged : graph_readable entries →
  ∃ updated, prune_broken_gc_roots entries gc_roots purged = Ok updated ∧
    (∀ sys, updated !! sys ≠ Some []) ∧
    (∀ sys root, root ∈ default [] (updated !! sys) ↔
       root ∈ default [] (gc_roots !! sys) ∧ closure_kept entries purged root) ∧
    (∀ sys v, updated !! sys = Some v → ∃ roots, gc_roots !! sys = Some roots ∧ v `sublist_of` roots).
Proof.
  intros Hread. destruct (kept_graph_ok entries purged Hread) as (g & Hg & Hspec).
  unfold prune_broken_gc_roots. rewrite Hg. cbn [mbind outcome_bind]. eexists. split; [done|].
  split_and!.
  - intros sys. rewrite lookup_omap. destruct (gc_roots !! sys) as [roots|]; [|done]. simpl.
    case_bool_decide; [done|congruence].
  - intros sys root. rewrite lookup_omap. destruct (gc_roots !! sys) as [roots|]; [|set_solver]. simpl.
    rewrite <-(root_is_sound_spec entries purged g root Hread Hspec).
    pose proof (list_elem_of_filter (λ root, root_is_sound entries purged g root = true) roots root) as Hf.
    case_bool_decide as Hn; [rewrite Hn in Hf|]; simpl; rewrite ?Hf; set_solver.
  - intros sys v. rewrite lookup_omap. destruct (gc_roots !! sys) as [roots|]; [|done]. simpl.
    case_bool_decide; [done|]. intros [= <-]. exists roots. split; [done|]. apply sublist_filter.
Qed.
End purge.

(** *** Blobs *)

Lemma add_blob_fold es m d s :
  foldl add_blob m es !! d = Some s ↔
  (m !! d = Some s ∨ ∃ e, e ∈ es ∧ nar_digest e = d ∧ nar_size e = s) ∧
  (∀ s', m !! d = Some s' → s' ≤ s) ∧ (∀ e, e ∈ es → nar_digest e = d → nar_size e ≤ s).
Proof.
  revert m. induction es as [|e es IH]; intros m; simpl.
  { split; [intros Hm; split_and!; [by left| |set_solver]; intros s' Hs'; simplify_eq; lia|].
    intros ([?|(e & He & _)] & _); [done|set_solver]. }
  rewrite IH. unfold add_blob. destruct (decide (nar_digest e = d)) as [<-|Hne].
  - rewrite lookup_insert_eq. setoid_rewrite elem_of_cons.
    destruct (m !! nar_digest e) as [s0|] eqn:Hm.
    + split.
      * intros (Hor & Hmax & Hall). specialize (Hmax _ eq_refl).
        split_and!; [|intros s' [= <-]; lia|intros e' [->|He'] Hd; [lia|by apply Hall]].
        destruct Hor as [[= Hs]|(e' & ? & ? & ?)]; [|right; eauto].
        destruct (N.max_spec s0 (nar_size e)) as [[? Hx]|[? Hx]]; rewrite Hx in Hs;
          [right; exists e; auto | left; by f_equal].
      * intros (Hor & Hmax & Hall). pose proof (Hmax _ eq_refl). pose proof (Hall e (or_introl eq_refl) eq_refl).
        split_and!; [|intros s' [= <-]; lia|intros e' He' Hd; apply Hall; auto].
        destruct Hor as [[= ->]|(e' & [->|He'] & Hd & Hs)]; [left; f_equal; lia|left; f_equal; lia|].
        right; eauto.
    + split.
      * intros (Hor & Hmax & Hall). specialize (Hmax _ eq_refl).
        split_and!; [|done|intros e' [->|He'] Hd; [lia|by apply Hall]].
        right. destruct Hor as [[= Hs]|(e' & ? & ? & ?)]; [exists e; auto|eauto].
      * intros (Hor & Hmax & Hall). pose proof (Hall e (or_introl eq_refl) eq_refl).
        split_and!; [|intros s' [= <-]; lia|intros e' He' Hd; apply Hall; auto].
        destruct Hor as [|(e' & [->|He'] & Hd & Hs)]; [done|left; by f_equal|right; eauto].
  - rewrite lookup_insert_ne by done. setoid_rewrite elem_of_cons. naive_solver.
Qed.

#[global] Instance NarDigest_le_total : Total NarDigest_le.
Proof. intros a b. unfold NarDigest_le. apply (total str_le). Qed.
#[global] Instance NarDigest_le_trans : RelationClasses.Transitive NarDigest_le.
Proof. intros a b c. unfold NarDigest_le. apply (transitivity (R := str_le)). Qed.
#[global] Instance blob_le_total : Total blob_le.
Proof. intros a b. apply (total NarDigest_le). Qed.
#[global] Instance blob_le_trans : RelationClasses.Transitive blob_le.
Proof. intros a b c. apply (transitivity (R := NarDigest_le)). Qed.

Lemma collect_blobs_spec `{HashIter} (matched : gmap StoreHash IndexEntry) :
  StronglySorted blob_le (collect_blobs matched) ∧ NoDup (blob_digest <$> collect_blobs matched) ∧
  ∀ b, b ∈ collect_blobs matched ↔
    (∃ h e, matched !! h = Some e ∧ nar_digest e = blob_digest b ∧ nar_size e = blob_size b) ∧
    (∀ h e, matched !! h = Some e → nar_digest e = blob_digest b → nar_size e ≤ blob_size b).
Proof.
  unfold collect_blobs. set (m := foldl add_blob ∅ (map_values matched)). split_and!.
  - apply StronglySorted_merge_sort; apply _.
  - rewrite merge_sort_Permutation. rewrite <-list_fmap_compose.
    replace (fmap _ (hash_iter m)) with (hash_iter m).*1; [apply NoDup_fst_hash_iter|].
    apply list_fmap_ext. by intros i [d s] _.
  - intros b. rewrite elem_of_merge_sort, list_elem_of_fmap.
    assert (Hm : m !! blob_digest b = Some (blob_size b) ↔
      (∃ h e, matched !! h = Some e ∧ nar_digest e = blob_digest b ∧ nar_size e = blob_size b) ∧
      (∀ h e, matched !! h = Some e → nar_digest e = blob_digest b → nar_size e ≤ blob_size b)).
    { unfold m. rewrite add_blob_fold, lookup_empty. setoid_rewrite elem_of_map_values. naive_solver. }
    rewrite <-Hm. split.
    + intros ([d s] & -> & Hin%elem_of_hash_iter). done.
    + intros Hb. exists (blob_digest b, blob_size b). split; [by destruct b|]. by apply elem_of_hash_iter.
Qed.

Section purge_properties.
Context `{Chrono} `{HashIter} `{Build}.

(** A successful purge, taken apart. *)
Lemma evaluate_cache_purge_inv entries gc_roots selector p :
  evaluate_cache_purge entries gc_roots selector = Ok p →
  ∃ r, evaluate_cache_query entries gc_roots selector = Ok r ∧
    query_answer entries gc_roots selector r ∧ graph_readable entries ∧
    kept_entries p = unmatched_entries r ∧ purged_entries p = matched_entries r ∧
    purged_hashes p = final_matched_hashes r ∧ estimated_freed_bytes p = matched_bytes r ∧
    purged_blobs p = collect_blobs (purged_entries p) ∧
    (∀ sys, updated_gc_roots p !! sys ≠ Some []) ∧
    (∀ sys root, root ∈ default [] (updated_gc_roots p !! sys) ↔
       root ∈ default [] (gc_roots !! sys) ∧
       closure_kept entries (dom (purged_entries p)) root).
Proof.
  intros (r & Hq & Hok)%bind_ok. pose proof (evaluate_cache_query_readable _ _ _ _ Hq) as Hread.
  cbv zeta in Hok. set (ps := list_to_set _ : gset StoreHash) in Hok.
  destruct (prune_broken_gc_roots_ok entries gc_roots ps Hread) as (up & Hup & Hne & Hin & _).
  rewrite Hup in Hok. cbn [mbind outcome_bind] in Hok. injection Hok as <-. exists r.
  assert (ps = dom (matched_entries r)) as Hps.
  { apply set_eq. intros x. unfold ps. by rewrite elem_of_list_to_set, elem_of_map_keys, elem_of_dom. }
  rewrite Hps in Hin. split_and!; try done. by eapply evaluate_cache_query_answer.
Qed.

Lemma evaluate_cache_purge_total entries gc_roots selector :
  graph_readable entries → total_nar_size entries < u64_bound →
  ∃ p, evaluate_cache_purge entries gc_roots selector = Ok p.
Proof.
  intros Hread Hfit. unfold evaluate_cache_purge.
  destruct (evaluate_cache_query_bytes entries gc_roots selector Hread Hfit) as (r & Hr & _).
  rewrite Hr. cbn [mbind outcome_bind]. cbv zeta. set (ps := list_to_set _ : gset StoreHash).
  destruct (prune_broken_gc_roots_ok entries gc_roots ps Hread) as (up & Hup & _).
  rewrite Hup. by eexists.
Qed.

(** C28: a purge leaves a consistent cache.  The entries are split into kept and
    purged; every GC root that survives still has its whole transitive closure
    among the kept entries; a root is dropped exactly when some part of its
    closure is purged or missing; no architecture is left with an empty list. *)
Theorem purge_keeps_closures (entries : gmap StoreHash IndexEntry)
    (gc_roots : gmap SystemArch (list StoreHash)) (selector : CacheSelector)
    (p : PurgeEvaluationResult) (Hp : evaluate_cache_purge entries gc_roots selector = Ok p) :
  (∀ h e, entries !! h = Some e ↔ kept_entries p !! h = Some e ∨ purged_entries p !! h = Some e) ∧
  (∀ h, kept_entries p !! h = None ∨ purged_entries p !! h = None) ∧
  (∀ sys root x, root ∈ default [] (updated_gc_roots p !! sys) → rtc (refers entries) root x →
     is_Some (kept_entries p !! x)) ∧
  (∀ sys root, root ∈ default [] (gc_roots !! sys) →
     root ∈ default [] (updated_gc_roots p !! sys) ∨
     ¬ closure_kept entries (dom (purged_entries p)) root) ∧
  (∀ sys, updated_gc_roots p !! sys ≠ Some []).
Proof.
  apply evaluate_cache_purge_inv in Hp as (r & Hq & Ha & Hread & Hk & Hpu & _ & _ & _ & Hne & Hin).
  destruct Ha as [Hm Hu _ _ _ _ Hre _]. rewrite <-Hpu in Hm. rewrite <-Hk in Hu.
  assert (Hdec : ∀ h, selected entries gc_roots selector h ∨ ¬ selected entries gc_roots selector h).
  { intros h. rewrite <-Hre. destruct (reason_map r !! h); [left; eauto|right; by intros []]. }
  assert (Hall : ∀ h e, entries !! h = Some e ↔
    kept_entries p !! h = Some e ∨ purged_entries p !! h = Some e).
  { intros h e. rewrite Hm, Hu. destruct (Hdec h); naive_solver. }
  split_and!; [done| | |intros sys root Hroot|done].
  - intros h. destruct (kept_entries p !! h) as [e|] eqn:E1; [|by left].
    destruct (purged_entries p !! h) as [e'|] eqn:E2; [|by right].
    apply Hu in E1 as [_ ?]. by apply Hm in E2 as [_ ?].
  - intros sys root x [_ Hc]%Hin Hx. apply Hc in Hx as [[e He] Hnp].
    apply Hall in He as [?|He]; [by eexists|]. destruct Hnp. apply elem_of_dom. eauto.
  - destruct (decide (root ∈ default [] (updated_gc_roots p !! sys))) as [|Hno]; [by left|].
    right. intros Hc. apply Hno, Hin. done.
Qed.

(** with GC root protection over all architectures a purge never breaks a
    root: every root whose closure was complete before survives, whatever is
    selected and however the cascade spreads. *)
Theorem protected_purge_keeps_roots (entries : gmap StoreHash IndexEntry)
    (gc_roots : gmap SystemArch (list StoreHash)) (selector : CacheSelector)
    (p : PurgeEvaluationResult) (Hp : evaluate_cache_purge entries gc_roots selector = Ok p)
    (Hprot : protect_gc_roots selector = true) (Hall : target_systems selector = None) :
  ∀ sys root, root ∈ default [] (gc_roots !! sys) →
    (∀ x, rtc (refers entries) root x → is_Some (entries !! x)) →
    root ∈ default [] (updated_gc_roots p !! sys).
Proof.
  apply evaluate_cache_purge_inv in Hp as (r & Hq & Ha & Hread & _ & Hpu & _ & _ & _ & _ & Hin).
  intros sys root Hroot Hc. apply Hin. split; [done|]. intros x Hx. split; [by apply Hc|].
  rewrite elem_of_dom, Hpu. intros [e He]. destruct Ha as [Hm _ _ _ _ _ _ _].
  apply Hm in He as [_ Hsel]. apply selected_unprotected in Hsel. apply Hsel. split; [done|].
  destruct (gc_roots !! sys) as [roots|] eqn:Hs; [|set_solver]. exists sys, roots, root.
  unfold system_is_target. by rewrite Hall.
Qed.

(** the blobs a purge reports: sorted by digest, one per digest, exactly the
    digests of the purged entries, each with the largest size an entry gives. *)
Theorem purged_blobs_exact (entries : gmap StoreHash IndexEntry)
    (gc_roots : gmap SystemArch (list StoreHash)) (selector : CacheSelector)
    (p : PurgeEvaluationResult) (Hp : evaluate_cache_purge entries gc_roots selector = Ok p) :
  StronglySorted blob_le (purged_blobs p) ∧ NoDup (blob_digest <$> purged_blobs p) ∧
  ∀ b, b ∈ purged_blobs p ↔
    (∃ h e, purged_entries p !! h = Some e ∧ nar_digest e = blob_digest b ∧
            nar_size e = blob_size b) ∧
    (∀ h e, purged_entries p !! h = Some e → nar_digest e = blob_digest b →
            nar_size e ≤ blob_size b).
Proof.
  apply evaluate_cache_purge_inv in Hp as (r & _ & _ & _ & _ & _ & _ & _ & Hb & _).
  rewrite Hb. apply collect_blobs_spec.
Qed.
End purge_properties.

(** ** Witnesses and a counterexample *)

Local Notation sample_purge sel :=
  (@evaluate_cache_purge sample_chrono map_order debug64 sample_entries sample_roots sel).

Lemma sample_purge_ok sel : ∃ p, sample_purge sel = Ok p.
Proof.
  apply evaluate_cache_purge_total; [apply sample_readable|]. vm_compute. reflexivity.
Qed.

Lemma purge_keeps_closures_witness :
  ∃ p, sample_purge sample_selector = Ok p ∧
       ∀ h, kept_entries p !! h = None ∨ purged_entries p !! h = None.
Proof.
  destruct (sample_purge_ok sample_selector) as [p Hp]. exists p. split; [exact Hp|].
  exact (proj1 (proj2 (@purge_keeps_closures sample_chrono map_order debug64 sample_entries
    sample_roots sample_selector p Hp))).
Defined.

Lemma sample_refers_closed x : rtc (refers sample_entries) sample_key2 x → x = sample_key2.
Proof.
  intros Hx. apply rtc_inv in Hx as [<-|(y & (e & ds & He & Hd & Hy) & _)]; [done|]. exfalso.
  assert (e = sample_entry sample_hash2 [] (lit "10")) as ->.
  { vm_compute in He. by injection He as <-. }
  assert (ds = []) as -> by (vm_compute in Hd; by injection Hd as <-). set_solver.
Qed.

Lemma protected_purge_keeps_roots_witness :
  ∃ p, @evaluate_cache_purge sample_chrono map_order debug64 sample_entries
         {[ X86_64Linux := [sample_key2] ]} sample_selector = Ok p ∧
       sample_key2 ∈ default [] (updated_gc_roots p !! X86_64Linux).
Proof.
  destruct (@evaluate_cache_purge_total sample_chrono map_order debug64 sample_entries
    {[ X86_64Linux := [sample_key2] ]} sample_selector sample_readable) as [p Hp];
    [vm_compute; reflexivity|].
  exists p. split; [exact Hp|].
  apply (@protected_purge_keeps_roots sample_chrono map_order debug64 sample_entries
    {[ X86_64Linux := [sample_key2] ]} sample_selector p Hp eq_refl eq_refl).
  - vm_compute. by left.
  - intros x ->%sample_refers_closed. eexists. vm_compute. reflexivity.
Defined.

Lemma purged_blobs_exact_witness :
  ∃ p, sample_purge (CacheSelector_all ∅) = Ok p ∧ NoDup (blob_digest <$> purged_blobs p).
Proof.
  destruct (sample_purge_ok (CacheSelector_all ∅)) as [p Hp]. exists p. split; [exact Hp|].
  exact (proj1 (proj2 (@purged_blobs_exact sample_chrono map_order debug64 sample_entries
    sample_roots (CacheSelector_all ∅) p Hp))).
Defined.

(** A purged blob can still be in use: two entries share a digest, one is purged,
    the other is kept, and the digest is reported for deletion. *)
Definition purge_one : CacheSelector :=
  CacheSelector_filtered {| store_hashes := {[ sample_key2 ]}; patterns := []; systems := ∅;
    time_filter := None; size_filter := None; origin_jobs := ∅; origin_runs := ∅ |}.
Theorem purged_blob_still_referenced :
  ∃ p e b, sample_purge purge_one = Ok p ∧ kept_entries p !! sample_key = Some e ∧
    b ∈ purged_blobs p ∧ blob_digest b = nar_digest e.
Proof.
  destruct (sample_purge purge_one) as [p| |] eqn:E; [|vm_compute in E; discriminate E..].
  exists p, (sample_entry sample_hash [sample_hash2] (lit "29")),
    {| blob_digest := nar_digest (sample_entry sample_hash2 [] (lit "10")); blob_size := 100 |}.
  split; [done|]. vm_compute in E. injection E as <-.
  split; [vm_compute; reflexivity|]. split; [vm_compute; by left|]. vm_compute. reflexivity.
Qed.
