(* ===== verification/Gc.v ===== *)
(** * Gc: garbage collection by reachability and retention
    (crates/nixcache-core/src/gc.rs) *)

From stdpp Require Import relations.
From S2P Require Import Prelude Machine Str Error Types Sharding Filter Graph Query Purge.

Local Open Scope N_scope.

Record GcEvaluationResult := {
  gc_kept_entries : gmap StoreHash IndexEntry;
  deleted_hashes : list StoreHash;
  reachable_roots : gset StoreHash;
  cutoff_utc : list N }.

Section gc.
Context `{Chrono} `{HashIter} `{Build}.

(** Entries older than the cutoff, GC roots protected, no cascade. *)
Definition gc_predicates (cutoff : Z) : FilterPredicates := {|
  store_hashes := store_hashes FilterPredicates_default;
  patterns := patterns FilterPredicates_default;
  systems := systems FilterPredicates_default;
  time_filter := Some (Before cutoff);
  size_filter := size_filter FilterPredicates_default;
  origin_jobs := origin_jobs FilterPredicates_default;
  origin_runs := origin_runs FilterPredicates_default |}.
Definition gc_selector (cutoff : Z) : CacheSelector :=
  with_cascade (with_protect_gc_roots (CacheSelector_filtered (gc_predicates cutoff)) true) Exact.

(** [entries.get(&hash)] and its references; a missing entry has none. *)
Definition gc_deps (entries : gmap StoreHash IndexEntry) (h : StoreHash)
    : outcome CoreError (list StoreHash) :=
  match entries !! h with
  | Some entry => entry_deps entry
  | None => Ok []
  end.

Definition evaluate_multi_arch_gc (entries : gmap StoreHash IndexEntry)
    (gc_roots : gmap SystemArch (list StoreHash)) (cutoff : Z)
    : outcome CoreError GcEvaluationResult :=
  purge_res ← evaluate_cache_purge entries gc_roots (gc_selector cutoff);
  let initial_roots : gset StoreHash := list_to_set (mjoin (map_values gc_roots)) in
  let queue := set_iter initial_roots in
  reachable ← reach_loop (gc_deps entries) (length queue + edge_count entries) queue ∅;
  Ok {| gc_kept_entries := kept_entries purge_res; deleted_hashes := purged_hashes purge_res;
        reachable_roots := reachable; cutoff_utc := to_rfc3339_secs cutoff |}.

Definition evaluate_gc (entries : gmap StoreHash IndexEntry) (gc_roots : list StoreHash)
    (cutoff : Z) : outcome CoreError GcEvaluationResult :=
  evaluate_multi_arch_gc entries (single_arch_roots Unknown gc_roots) cutoff.

(** ** Facts *)

(** Reachable from some GC root of any architecture. *)
Definition live (entries : gmap StoreHash IndexEntry) (gc_roots : gmap SystemArch (list StoreHash))
    (x : StoreHash) : Prop :=
  ∃ sys roots r, gc_roots !! sys = Some roots ∧ r ∈ roots ∧ rtc (refers entries) r x.
(** Added before the cutoff; an unreadable date does not count as old. *)
Definition expired (cutoff : Z) (e : IndexEntry) : Prop :=
  ∃ t, parse_from_rfc3339 (added e) = Some t ∧ (t < cutoff)%Z.

Lemma gc_selected entries gc_roots cutoff h :
  selected entries gc_roots (gc_selector cutoff) h ↔
  ∃ e, entries !! h = Some e ∧ expired cutoff e ∧ ¬ live entries gc_roots h.
Proof.
  assert (Hscope : ∀ h e, in_scope (gc_selector cutoff) h e ↔ expired cutoff e).
  { intros h' e. change (in_scope (gc_selector cutoff) h' e)
      with (is_Some (evaluate_entry (gc_predicates cutoff) h' e)).
    rewrite evaluate_entry_hit. unfold item_hit, expired. simpl.
    split.
    - intros [_ Hi]. specialize (Hi eq_refl).
      destruct Hi as [?|[?|[(tf & dt & [= <-] & Hdt & Hlt%bool_decide_eq_true)|[?|[?|?]]]]];
        [set_solver..|eauto|naive_solver| |]; naive_solver set_solver.
    - intros (t & Ht & Hlt). split; [by left|]. intros _. right; right; left.
      exists (Before cutoff), t. split_and!; [done|done|]. by apply bool_decide_eq_true. }
  assert (Hprot : is_protected entries gc_roots (gc_selector cutoff) h ↔ live entries gc_roots h).
  { unfold is_protected, root_reachable, live. simpl. naive_solver. }
  unfold selected, initially_selected. split.
  - intros (i & (e & He & Hs & Hp) & Hc). apply rtc_inv in Hc as [->|(y & [[] _] & _)].
    exists e. by rewrite <-Hscope, <-Hprot.
  - intros (e & He & Hx & Hl). exists h. split; [|done]. exists e. by rewrite Hscope, Hprot.
Qed.

Lemma gc_degrees entries : graph_readable entries → ∀ x,
  (∃ ds n, gc_deps entries x = Ok ds ∧ (x, n) ∈ degree_list entries ∧ (length ds ≤ n)%nat) ∨
  gc_deps entries x = Ok [].
Proof.
  intros Hread x. unfold gc_deps. destruct (entries !! x) as [e|] eqn:He; [left|by right].
  destruct (Hread x e He) as [ds Hds]. exists ds, (length (references (narinfo_meta e))).
  split; [done|]. split; [|by rewrite (entry_deps_length _ _ Hds)].
  apply list_elem_of_fmap. exists (x, e). split; [done|]. by apply elem_of_map_to_list.
Qed.

Lemma gc_reachable entries gc_roots : graph_readable entries →
  let initial_roots : gset StoreHash := list_to_set (mjoin (map_values gc_roots)) in
  ∃ R, reach_loop (gc_deps entries) (length (set_iter initial_roots) + edge_count entries)
         (set_iter initial_roots) ∅ = Ok R ∧ ∀ x, x ∈ R ↔ live entries gc_roots x.
Proof.
  intros Hread init.
  destruct (reach_loop_roots (gc_deps entries) (degree_list entries) (gc_degrees entries Hread)
    (length (set_iter init) + edge_count entries) (set_iter init)) as (R & HR & Hx).
  { by rewrite degree_list_sum. }
  exists R. split; [done|]. intros x. rewrite Hx.
  assert (Hedge : ∀ a b, edge (gc_deps entries) a b ↔ refers entries a b).
  { intros a b. unfold edge, refers, gc_deps. split.
    - intros (ds & Hds & Hb). destruct (entries !! a) as [e|] eqn:He; [eauto|]. simplify_eq. set_solver.
    - intros (e & ds & He & Hd & Hb). exists ds. by rewrite He. }
  assert (Hinit : ∀ r, r ∈ set_iter init ↔ ∃ sys roots, gc_roots !! sys = Some roots ∧ r ∈ roots).
  { intros r. rewrite elem_of_set_iter. unfold init.
    rewrite elem_of_list_to_set, list_elem_of_join. setoid_rewrite elem_of_map_values. naive_solver. }
  unfold live. setoid_rewrite Hinit. split.
  - intros (r & (sys & roots & ? & ?) & Hr). exists sys, roots, r. split_and!; try done.
    eapply rtc_subrel; [|exact Hr]. intros a b. apply Hedge.
  - intros (sys & roots & r & ? & ? & Hr). exists r. split; [eauto|].
    eapply rtc_subrel; [|exact Hr]. intros a b. apply Hedge.
Qed.

(** ** Properties *)

(** C14: garbage collection is exact and total.  When the references can be read
    and the sizes fit, it returns; it deletes exactly the entries that are older
    than the cutoff and unreachable from every GC root of every architecture;
    it keeps all others, unchanged; and the reachable set it reports is the
    transitive closure of the roots. *)
Theorem gc_exact (entries : gmap StoreHash IndexEntry)
    (gc_roots : gmap SystemArch (list StoreHash)) (cutoff : Z)
    (Hread : graph_readable entries) (Hfit : total_nar_size entries < u64_bound) :
  ∃ r, evaluate_multi_arch_gc entries gc_roots cutoff = Ok r ∧
    (∀ h, h ∈ deleted_hashes r ↔
       ∃ e, entries !! h = Some e ∧ expired cutoff e ∧ ¬ live entries gc_roots h) ∧
    (∀ h e, gc_kept_entries r !! h = Some e ↔ entries !! h = Some e ∧ h ∉ deleted_hashes r) ∧
    (∀ x, x ∈ reachable_roots r ↔ live entries gc_roots x) ∧
    NoDup (deleted_hashes r) ∧ StronglySorted StoreHash_le (deleted_hashes r).
Proof.
  unfold evaluate_multi_arch_gc.
  destruct (evaluate_cache_purge_total entries gc_roots (gc_selector cutoff) Hread Hfit) as [p Hp].
  rewrite Hp. cbn [mbind outcome_bind]. cbv zeta.
  destruct (gc_reachable entries gc_roots Hread) as (R & HR & Hlive). cbv zeta in HR. rewrite HR.
  cbn [mbind outcome_bind]. eexists. split; [done|]. simpl.
  apply evaluate_cache_purge_inv in Hp as (r & _ & Ha & _ & Hk & Hpu & Hh & _).
  destruct Ha as [Hm Hu _ _ Hf [Hfs Hfn] _ _].
  assert (Hdel : ∀ h, h ∈ purged_hashes p ↔
    ∃ e, entries !! h = Some e ∧ expired cutoff e ∧ ¬ live entries gc_roots h).
  { intros h. rewrite Hh, Hf, <-gc_selected. split.
    - intros [e He]. by apply Hm in He as [_ ?].
    - intros Hs. pose proof Hs as (e & He & _)%gc_selected. exists e. by apply Hm. }
  split_and!; [done| |done|by rewrite Hh|by rewrite Hh].
  intros h e. rewrite Hk, Hu, Hdel, <-gc_selected. done.
Qed.

(** the single-architecture entry point protects the closure of its root
    list: nothing reachable from [gc_roots] is deleted, however old it is. *)
Theorem gc_single_arch_safe (entries : gmap StoreHash IndexEntry) (gc_roots : list StoreHash)
    (cutoff : Z) (r : GcEvaluationResult) (Hr : evaluate_gc entries gc_roots cutoff = Ok r) :
  ∀ root x e, root ∈ gc_roots → rtc (refers entries) root x → entries !! x = Some e →
    x ∉ deleted_hashes r ∧ gc_kept_entries r !! x = Some e.
Proof.
  intros root x e Hroot Hx He. unfold evaluate_gc, evaluate_multi_arch_gc in Hr.
  apply bind_ok in Hr as (p & Hp & Hok). cbv zeta in Hok. apply bind_ok in Hok as (R & _ & [= <-]). simpl.
  apply evaluate_cache_purge_inv in Hp as (q & _ & Ha & _ & Hk & Hpu & Hh & _).
  destruct Ha as [Hm Hu _ _ Hf _ _ _].
  assert (¬ selected entries (single_arch_roots Unknown gc_roots) (gc_selector cutoff) x) as Hns.
  { rewrite gc_selected. intros (e' & _ & _ & Hl). apply Hl. exists Unknown, gc_roots, root.
    unfold single_arch_roots. rewrite bool_decide_eq_false_2 by (by intros ->; inversion Hroot).
    by rewrite lookup_singleton_eq. }
  split; [|rewrite Hk; by apply Hu]. rewrite Hh, Hf. intros [e' He']. by apply Hm in He' as [_ ?].
Qed.
End gc.

(** ** Witnesses and a counterexample *)

Lemma gc_exact_witness :
  ∃ r, @evaluate_multi_arch_gc sample_chrono map_order debug64 sample_entries sample_roots 20 = Ok r.
Proof.
  destruct (@gc_exact sample_chrono map_order debug64 sample_entries sample_roots 20 sample_readable)
    as (r & Hr & _); [vm_compute; reflexivity|]. by exists r.
Defined.

Lemma gc_single_arch_safe_witness :
  ∃ r, @evaluate_gc sample_chrono map_order debug64 sample_entries [sample_key] 30 = Ok r ∧
       sample_key ∉ deleted_hashes r.
Proof.
  destruct (@evaluate_gc sample_chrono map_order debug64 sample_entries [sample_key] 30)
    as [r| |] eqn:E; [|vm_compute in E; discriminate E..].
  exists r. split; [done|].
  refine (proj1 (@gc_single_arch_safe sample_chrono map_order debug64 sample_entries [sample_key] 30 r E
    sample_key sample_key (sample_entry sample_hash [sample_hash2] (lit "29")) _ _ _));
    [by left | done | vm_compute; reflexivity].
Defined.

(** Without a root, the collector deletes an old entry that a kept, younger entry
    refers to: the kept entries need not be closed under references. *)
Theorem gc_can_break_young_entries :
  ∃ r, @evaluate_multi_arch_gc sample_chrono map_order debug64 sample_entries ∅ 20 = Ok r ∧
    is_Some (gc_kept_entries r !! sample_key) ∧ sample_key2 ∈ deleted_hashes r ∧
    refers sample_entries sample_key sample_key2.
Proof.
  destruct (@evaluate_multi_arch_gc sample_chrono map_order debug64 sample_entries ∅ 20)
    as [r| |] eqn:E; [|vm_compute in E; discriminate E..].
  exists r. split; [done|]. vm_compute in E. injection E as <-.
  split; [eexists; vm_compute; reflexivity|]. split; [by left|].
  eexists _, [sample_key2]. split; [vm_compute; reflexivity|]. split; [vm_compute; reflexivity|by left].
Qed.
