(* ===== verification/Murmur.v ===== *)
(** * Murmur: MurmurHash3 x64 128 (crates/nixcache-core/src/bloom.rs)

    The hash function of the Bloom filter, with its unrolled tail, and the
    equivalence with the reference formulation that reads a tail as two
    little-endian words. *)

From S2P Require Import Prelude Machine Str.

Local Open Scope N_scope.

Definition C1 : N := 0x87c37b91114253d5.
Definition C2 : N := 0x4cf5ad432745937f.

(** [k1 = k1.wrapping_mul(C1).rotate_left(31).wrapping_mul(C2)], and [k2]'s. *)
Definition mix_k1 (k : N) : N := wrapping_mul (rotate_left (wrapping_mul k C1) 31) C2.
Definition mix_k2 (k : N) : N := wrapping_mul (rotate_left (wrapping_mul k C2) 33) C1.

Definition fmix64 (k : N) : N :=
  let k := N.lxor k (N.shiftr k 33) in
  let k := wrapping_mul k 0xff51afd7ed558ccd in
  let k := N.lxor k (N.shiftr k 33) in
  let k := wrapping_mul k 0xc4ceb9fe1a85ec53 in
  N.lxor k (N.shiftr k 33).

(** One round of the block loop; [data[i * 16..(i + 1) * 16]] is in range for
    every [i < n_blocks]. *)
Definition block_round (data : list N) (h : N * N) (i : nat) : N * N :=
  let '(h1, h2) := h in
  let chunk := take 16 (drop (i * 16) data) in
  let k1 := le_combine (take 8 chunk) in
  let k2 := le_combine (take 8 (drop 8 chunk)) in
  let h1 := N.lxor h1 (mix_k1 k1) in
  let h1 := wrapping_add (rotate_left h1 27) h2 in
  let h1 := wrapping_add (wrapping_mul h1 5) 0x52dce729 in
  let h2 := N.lxor h2 (mix_k2 k2) in
  let h2 := wrapping_add (rotate_left h2 31) h1 in
  let h2 := wrapping_add (wrapping_mul h2 5) 0x38495ab5 in
  (h1, h2).

(** [k ^= (tail[i] as u64) << (8 * (i - first))] for [i] from [last - 1] down
    to [first], starting from 0. *)
Definition tail_word (tail : list N) (first last : nat) : N :=
  foldr (λ i k, N.lxor k (shl64 (tail !!! i) (8 * N.of_nat (i - first)))) 0
    (seq first (last - first)).

(** The arms 15 down to 9 absorb [k2] from the bytes 8 and up, then all eight
    bytes of [k1]; the arms 8 down to 1 absorb [k1] alone. *)
Definition murmur_tail (tail : list N) (h : N * N) : N * N :=
  let '(h1, h2) := h in
  match length tail with
  | (15 | 14 | 13 | 12 | 11 | 10 | 9)%nat as n =>
      (N.lxor h1 (mix_k1 (tail_word tail 0 8)), N.lxor h2 (mix_k2 (tail_word tail 8 n)))
  | (8 | 7 | 6 | 5 | 4 | 3 | 2 | 1)%nat as n =>
      (N.lxor h1 (mix_k1 (tail_word tail 0 n)), h2)
  | _ => (h1, h2)
  end.

Definition murmur_final (len : N) (h : N * N) : N * N :=
  let '(h1, h2) := h in
  let h1 := N.lxor h1 (wrap64 len) in
  let h2 := N.lxor h2 (wrap64 len) in
  let h1 := wrapping_add h1 h2 in
  let h2 := wrapping_add h2 h1 in
  let h1 := fmix64 h1 in
  let h2 := fmix64 h2 in
  let h1 := wrapping_add h1 h2 in
  let h2 := wrapping_add h2 h1 in
  (h1, h2).

Definition murmur3_x64_128 (data : list N) (seed : N) : N * N :=
  let n_blocks := (length data / 16)%nat in
  let h := foldl (block_round data) (seed, seed) (seq 0 n_blocks) in
  murmur_final (N.of_nat (length data)) (murmur_tail (drop (n_blocks * 16) data) h).

(** ** The reference formulation: a tail is two little-endian words, the missing
    bytes zero, absorbed unconditionally. *)

Definition reference_tail (tail : list N) (h : N * N) : N * N :=
  (N.lxor h.1 (mix_k1 (le_combine (take 8 tail))), N.lxor h.2 (mix_k2 (le_combine (drop 8 tail)))).

Definition murmur3_reference (data : list N) (seed : N) : N * N :=
  let n_blocks := (length data / 16)%nat in
  let h := foldl (block_round data) (seed, seed) (seq 0 n_blocks) in
  murmur_final (N.of_nat (length data)) (reference_tail (drop (n_blocks * 16) data) h).

(** ** Facts *)

Lemma lxor_shift_byte b x : b < 256 → N.lxor (N.shiftl x 8) b = b + 256 * x.
Proof.
  intros Hb. rewrite N.lxor_comm, <-N.add_nocarry_lxor.
  - rewrite N.shiftl_mul_pow2. change (2 ^ 8) with 256. lia.
  - apply N.bits_inj. intros i. rewrite N.land_spec, N.bits_0.
    destruct (N.lt_ge_cases i 8) as [Hi|Hi].
    + rewrite N.shiftl_spec_low by done. by rewrite andb_false_r.
    + assert (b mod 2 ^ 8 = b) as <- by (apply N.mod_small; exact Hb).
      by rewrite N.mod_pow2_bits_high.
Qed.

Lemma shl64_byte b k : b < 256 → k ≤ 56 → shl64 b k = N.shiftl b k.
Proof.
  intros Hb Hk. apply wrap64_small. rewrite N.shiftl_mul_pow2. unfold u64_bound.
  change (2 ^ 64) with (256 * 2 ^ 56).
  apply N.lt_le_trans with (256 * 2 ^ k).
  - apply N.mul_lt_mono_pos_r; [|done]. apply N.neq_0_lt_0, N.pow_nonzero. lia.
  - apply N.mul_le_mono_l, N.pow_le_mono_r; lia.
Qed.

(** Bytes [first + j ..] of the tail, still shifted by their distance to [first]. *)
Lemma tail_fold (tail : list N) first l j :
  (∀ i, (i < length l)%nat → tail !! (first + j + i)%nat = l !! i) →
  Forall is_byte l → (j + length l ≤ 8)%nat →
  foldr (λ i k, N.lxor k (shl64 (tail !!! i) (8 * N.of_nat (i - first)))) 0
    (seq (first + j) (length l)) = N.shiftl (le_combine l) (8 * N.of_nat j).
Proof.
  revert j. induction l as [|b l IH]; intros j Hd Hl Hj; simpl.
  { by rewrite N.shiftl_0_l. }
  apply Forall_cons in Hl as [Hb Hl]. simpl in Hj, Hd.
  rewrite <-Nat.add_succ_r, IH; [| |done|lia]; last first.
  { intros i Hi. replace (first + S j + i)%nat with (first + j + S i)%nat by lia. apply Hd. lia. }
  assert (tail !!! (first + j)%nat = b) as ->.
  { apply list_lookup_total_correct. rewrite <-(Nat.add_0_r (first + j)). apply (Hd 0%nat). lia. }
  replace (first + j - first)%nat with j by lia. unfold is_byte in Hb.
  rewrite shl64_byte by lia. rewrite Nat2N.inj_succ.
  replace (8 * N.succ (N.of_nat j)) with (8 + 8 * N.of_nat j) by lia.
  rewrite <-N.shiftl_shiftl, <-N.shiftl_lxor, lxor_shift_byte; [done|exact Hb].
Qed.

Lemma tail_word_combine tail first n :
  Forall is_byte tail → (first + n ≤ length tail)%nat → (n ≤ 8)%nat →
  tail_word tail first (first + n) = le_combine (take n (drop first tail)).
Proof.
  intros Hb Hlen Hn. unfold tail_word. replace (first + n - first)%nat with n by lia.
  assert (Hl : length (take n (drop first tail)) = n).
  { rewrite length_take, length_drop. lia. }
  pose proof (tail_fold tail first (take n (drop first tail)) 0) as Hf.
  rewrite Hl, !Nat.add_0_r, N.mul_0_r, N.shiftl_0_r in Hf. apply Hf; [|by apply Forall_take, Forall_drop|done].
  intros i Hi. by rewrite lookup_take_lt, lookup_drop.
Qed.

Lemma mix_k1_0 : mix_k1 0 = 0.
Proof. reflexivity. Qed.
Lemma mix_k2_0 : mix_k2 0 = 0.
Proof. reflexivity. Qed.

Lemma murmur_tail_reference tail h :
  Forall is_byte tail → (length tail < 16)%nat → murmur_tail tail h = reference_tail tail h.
Proof.
  intros Hb Hl. destruct h as [h1 h2]. unfold murmur_tail, reference_tail. cbn [fst snd].
  destruct (decide (length tail ≤ 8)%nat) as [Hs|Hs].
  - assert (Hw : tail_word tail 0 (length tail) = le_combine (take 8 tail)).
    { change (length tail) with (0 + length tail)%nat at 1.
      rewrite tail_word_combine by (done || lia). by rewrite drop_0, !take_ge. }
    rewrite <-Hw, (drop_ge tail) by lia. cbn [le_combine]. rewrite mix_k2_0, N.lxor_0_r. clear Hw Hb.
    destruct (length tail) as [|[|[|[|[|[|[|[|[|n]]]]]]]]] eqn:El; try done; [|lia].
    change (tail_word tail 0 0) with 0. by rewrite mix_k1_0, N.lxor_0_r.
  - assert (Hw1 : tail_word tail 0 8 = le_combine (take 8 tail)).
    { change 8%nat with (0 + 8)%nat at 1. by rewrite tail_word_combine, drop_0 by (done || lia). }
    assert (Hw2 : tail_word tail 8 (length tail) = le_combine (drop 8 tail)).
    { replace (length tail) with (8 + (length tail - 8))%nat at 1 by lia.
      rewrite (tail_word_combine tail 8) by (done || lia). by rewrite take_ge by (rewrite length_drop; lia). }
    rewrite <-Hw1, <-Hw2. clear Hw1 Hw2 Hb.
    revert Hl Hs. generalize (length tail) as n. intros n Hl Hs.
    do 16 (destruct n as [|n]; [first [lia | done]|]). lia.
Qed.

Lemma wrapping_add_lt a b : wrapping_add a b < u64_bound.
Proof. apply wrap64_lt. Qed.

Lemma murmur3_bounded data seed :
  (murmur3_x64_128 data seed).1 < u64_bound ∧ (murmur3_x64_128 data seed).2 < u64_bound.
Proof.
  unfold murmur3_x64_128. destruct (murmur_tail _ _) as [h1 h2]. cbn.
  split; apply wrapping_add_lt.
Qed.

(** ** Properties *)

(** the unrolled hash is MurmurHash3.  On every byte string and seed, the
    fifteen-armed tail of [murmur3_x64_128] computes the reference function that
    reads the last, incomplete block as two zero-padded little-endian words;
    and both halves of the digest are 64-bit words. *)
Theorem murmur3_matches_reference (data : list N) (seed : N) (Hdata : Forall is_byte data) :
  murmur3_x64_128 data seed = murmur3_reference data seed ∧
  (murmur3_x64_128 data seed).1 < u64_bound ∧ (murmur3_x64_128 data seed).2 < u64_bound.
Proof.
  split; [|apply murmur3_bounded]. unfold murmur3_x64_128, murmur3_reference. f_equal.
  apply murmur_tail_reference; [by apply Forall_drop|].
  rewrite length_drop. pose proof (Nat.mod_upper_bound (length data) 16 ltac:(done)).
  pose proof (Nat.div_mod_eq (length data) 16). lia.
Qed.

(** The golden vectors of the test-suite. *)
Example murmur3_golden_1 :
  (murmur3_x64_128 (utf8 (lit "0g15l22sw4lgnh1x159ngkcyz5n7f9ag")) 0).1 = 0xca7671463c6a9f37.
Proof. vm_compute. reflexivity. Qed.
Example murmur3_golden_2 :
  (murmur3_x64_128 (utf8 (lit "47pw62r4vgy8y7p5r64cjvxbwrsixmxd")) 0).1 = 0x70fcbc929b66ae56.
Proof. vm_compute. reflexivity. Qed.

Lemma murmur3_matches_reference_witness :
  murmur3_x64_128 [1; 2; 255; 4; 5; 6; 7; 8; 9; 10; 11] 7
  = murmur3_reference [1; 2; 255; 4; 5; 6; 7; 8; 9; 10; 11] 7.
Proof.
  apply (murmur3_matches_reference [1; 2; 255; 4; 5; 6; 7; 8; 9; 10; 11] 7).
  repeat constructor.
Defined.
