(* ===== verification/Float64.v ===== *)
(** * Float64: the [f64] operations of the Bloom filter's sizing and of the worker's times

    An [f64] is the Standard Library's [spec_float] at precision 53 and exponent
    bound 1024, so [*], [/], [+], [-], negation, comparison, [ceil], [round] and the casts
    are IEEE 754 and executable.  [ln] and [powi] have unspecified precision in
    Rust, and [{:?}] prints the shortest round-trip form: they are an interface. *)

From Stdlib Require Import SpecFloat.
From S2P Require Import Prelude Machine.

Local Open Scope Z_scope.

Definition f64 : Type := spec_float.
Definition f64_mul : f64 → f64 → f64 := SFmul 53 1024.
Definition f64_div : f64 → f64 → f64 := SFdiv 53 1024.
Definition f64_add : f64 → f64 → f64 := SFadd 53 1024.
Definition f64_sub : f64 → f64 → f64 := SFsub 53 1024.
Definition f64_neg : f64 → f64 := SFopp.
Definition f64_le : f64 → f64 → bool := SFleb.
Definition f64_lt : f64 → f64 → bool := SFltb.
Definition f64_of_Z (n : Z) : f64 := binary_normalize 53 1024 n 0 false.
(** [n as f64] of an unsigned [n]: to nearest, ties to even. *)
Definition f64_of_N (n : N) : f64 := f64_of_Z (Z.of_N n).
(** The literal [num / den], for exact [num] and [den]. *)
Definition f64_lit (num den : Z) : f64 := f64_div (f64_of_Z num) (f64_of_Z den).

Definition is_finite (x : f64) : bool :=
  match x with S754_zero _ | S754_finite _ _ _ => true | _ => false end.

(** The integer [n] with the sign of [x] kept on a zero. *)
Definition f64_integral (s : bool) (n : Z) : f64 :=
  binary_normalize 53 1024 (if s then - n else n) 0 s.
Definition ceil (x : f64) : f64 :=
  match x with
  | S754_finite s m (Zneg e) =>
      let d := 2 ^ Zpos e in
      f64_integral s (if s then Zpos m / d else (Zpos m + d - 1) / d)
  | _ => x
  end.
(** Half away from zero. *)
Definition round (x : f64) : f64 :=
  match x with
  | S754_finite s m (Zneg e) => let d := 2 ^ Zpos e in f64_integral s ((Zpos m + d / 2) / d)
  | _ => x
  end.
(** [x as uN]: towards zero, saturating, NaN to 0. *)
Definition f64_as_uint (bound : N) (x : f64) : N :=
  match x with
  | S754_finite false m e =>
      N.min (Z.to_N (match e with Zneg p => Zpos m / 2 ^ Zpos p | _ => Zpos m * 2 ^ e end)) (bound - 1)
  | S754_infinity false => bound - 1
  | _ => 0
  end%N.

Class LibM := {
  ln : f64 → f64;
  powi : f64 → Z → f64;
  f64_debug : f64 → list N }.

(** [ln] correctly rounded at the two arguments the default filter needs, and
    [powi] by multiplication; elsewhere NaN. *)
Definition sample_libm : LibM := {|
  ln x := if SFeqb x (f64_of_Z 2) then S754_finite false 6243314768165359 (-53)
          else if SFeqb x (f64_lit 1 100) then S754_finite true 5184960683398421 (-50)
          else S754_nan;
  powi x n := if bool_decide (n = 2) then f64_mul x x else S754_nan;
  f64_debug _ := [] |}.

Lemma f64_as_uint_lt bound x : (0 < bound → f64_as_uint bound x < bound)%N.
Proof. intros Hb. unfold f64_as_uint. repeat case_match; lia. Qed.
