(* ===== verification/Bloom.v ===== *)
(** * Bloom: the blocked Bloom filter (crates/nixcache-core/src/bloom.rs) *)

From Stdlib Require Import SpecFloat.
From S2P Require Import Prelude Machine Str Error Types Murmur Float64.

Local Open Scope N_scope.

Record FastBlockedBloomFilter := {
  bits : list N;
  num_blocks : N;
  num_entries : N;
  num_hashes : N }.

Definition MAX_BLOCKS : N := 1048576.
Definition MAX_HASHES : N := 30.
Definition BLOCK_BITS : N := 512.
Definition WORDS_PER_BLOCK : N := 8.
Definition DEFAULT_FALSE_POSITIVE_RATE : f64 := f64_lit 1 100.
Definition MIN_FALSE_POSITIVE_RATE : f64 := f64_lit 1 100000.
Definition MAX_FALSE_POSITIVE_RATE : f64 := f64_lit 1 2.
Definition DEFAULT_NUM_HASHES : N := 7.

(** [Vec::<u64>::try_reserve_exact(n)]: the allocator may refuse. *)
Class Alloc := { reserve_error : N → option (list N) }.
Definition try_reserve_exact `{Alloc} (word_len : N) : outcome BloomError unit :=
  match reserve_error word_len with
  | Some details => Err (AllocationFailed word_len details)
  | None => Ok tt
  end.
Definition never_fails : Alloc := {| reserve_error _ := None |}.

(** The debug assertion fires in the builds that check overflow. *)
Definition checked_div_ceil `{Build} (value divisor : N) : outcome BloomError N :=
  _ ← (if overflow_checks && (divisor =? 0) then Panic else Ok tt);
  if divisor =? 0 then Err (ArithmeticOverflow (lit "division by zero"))
  else if value =? 0 then Ok 0
  else adjusted ← ok_or (ArithmeticOverflow (lit "rounded block count"))
                        (checked_add u64_bound value (divisor - 1));
       Ok (adjusted / divisor).

Definition allocate_zeroed_words `{Alloc} (word_len : N) : outcome BloomError (list N) :=
  _ ← try_reserve_exact word_len;
  Ok (replicate (N.to_nat word_len) 0).

Definition calculate_block_offset `{Build} (h1 num_blocks : N) : option N :=
  if num_blocks =? 0 then None
  else block_idx ← try_from usize_bound (h1 mod num_blocks);
       checked_mul usize_bound block_idx WORDS_PER_BLOCK.

Definition validated_word_len `{Build} (num_blocks : N) : outcome BloomError (N * N) :=
  num_blocks ← ok_or (BlockCountOverflow num_blocks (u32_bound - 1)) (try_from u32_bound num_blocks);
  _ ← ensure (negb (num_blocks =? 0)) (InvalidBlockCount 0);
  _ ← ensure (num_blocks <=? MAX_BLOCKS) (BlockLimitExceeded num_blocks MAX_BLOCKS);
  blocks ← ok_or (ArithmeticOverflow (lit "block count conversion to usize"))
                 (try_from usize_bound num_blocks);
  word_len ← ok_or (ArithmeticOverflow (lit "bitmap word count"))
                   (checked_mul usize_bound blocks WORDS_PER_BLOCK);
  Ok (num_blocks, word_len).

Definition valid_hash_count (n : N) : bool := (1 <=? n) && (n <=? MAX_HASHES).
Definition check_hash_count (n : N) : outcome BloomError unit :=
  ensure (valid_hash_count n) (InvalidHashCount n 1 MAX_HASHES).

Definition validate_internal `{Build} (self : FastBlockedBloomFilter) : outcome BloomError unit :=
  '(_, expected_words) ← validated_word_len (num_blocks self);
  _ ← ensure (N.of_nat (length (bits self)) =? expected_words)
        (InvalidStructure (num_blocks self) expected_words (N.of_nat (length (bits self))));
  check_hash_count (num_hashes self).

(** The first half of [new]: the rate is checked and turned into a whole number
    of bits per entry. *)
Definition bits_per_entry `{LibM} (false_positive_rate : f64) : outcome BloomError N :=
  _ ← ensure (is_finite false_positive_rate
              && (f64_le MIN_FALSE_POSITIVE_RATE false_positive_rate
                  && f64_le false_positive_rate MAX_FALSE_POSITIVE_RATE))
        (InvalidFalsePositiveRate (f64_debug false_positive_rate) (lit "0.00001") (lit "0.5"));
  let b := f64_mul (f64_neg (f64_div (ln false_positive_rate) (powi (ln (f64_of_Z 2)) 2)))
             (f64_lit 115 100) in
  _ ← ensure (negb (negb (is_finite b) || f64_le b (S754_zero false)))
        (ArithmeticOverflow (lit "bits per entry"));
  let b := ceil b in
  _ ← ensure (negb (f64_lt (f64_of_N (u64_bound - 1)) b))
        (ArithmeticOverflow (lit "bits per entry conversion"));
  Ok (f64_as_uint u64_bound b).

Definition Bloom_new `{LibM} `{Build} `{Alloc} (expected_entries : N) (false_positive_rate : f64)
    : outcome BloomError FastBlockedBloomFilter :=
  bits_per_entry ← bits_per_entry false_positive_rate;
  expected_entries ← ok_or (ArithmeticOverflow (lit "expected entry count conversion"))
                           (try_from u64_bound expected_entries);
  total_bits ← ok_or (ArithmeticOverflow (lit "total bit count"))
                     (checked_mul u64_bound expected_entries bits_per_entry);
  let total_bits := N.max total_bits BLOCK_BITS in
  num_blocks ← checked_div_ceil total_bits BLOCK_BITS;
  '(num_blocks, word_len) ← validated_word_len num_blocks;
  bits ← allocate_zeroed_words word_len;
  let num_hashes := f64_as_uint 256 (round (f64_mul (f64_of_N bits_per_entry) (ln (f64_of_Z 2)))) in
  let num_hashes := N.min (N.max num_hashes 1) MAX_HASHES in
  Ok {| bits := bits; num_blocks := num_blocks; num_entries := 0; num_hashes := num_hashes |}.

Definition Bloom_new_with_defaults `{LibM} `{Build} `{Alloc} (expected_entries : N)
    : outcome BloomError FastBlockedBloomFilter :=
  Bloom_new expected_entries DEFAULT_FALSE_POSITIVE_RATE.

(** Word and bit of one probe, inside its block. *)
Definition probe_position `{Build} (base step i : N) : N * N :=
  let probe := wrapping_add base (wrapping_mul i step) in
  let bit_in_block := N.land probe 511 mod usize_bound in
  (N.shiftr bit_in_block 6, N.land bit_in_block 63).
Definition probe_base (h1 : N) : N := N.lxor (N.shiftr h1 32) (N.land h1 0xFFFFFFFF).
Definition probe_step (h2 : N) : N := N.lor h2 1.
(** [0..self.num_hashes]. *)
Definition hash_range (n : N) : list N := N.of_nat <$> seq 0 (N.to_nat n).

(** [self.bits[block_offset + word_idx] |= 1u64 << bit_idx]. *)
Definition set_probe `{Build} (block_offset base step : N) (bits : list N) (i : N)
    : outcome BloomError (list N) :=
  let '(word_idx, bit_idx) := probe_position base step i in
  idx ← arith_add usize_bound block_offset word_idx;
  word ← or_panic (bits !! N.to_nat idx);
  Ok (<[N.to_nat idx := N.lor word (shl64 1 bit_idx)]> bits).

(** Every [?] comes before the first write: an error leaves the filter as it was. *)
Definition insert_bytes `{Build} (self : FastBlockedBloomFilter) (key : list N)
    : outcome BloomError FastBlockedBloomFilter :=
  _ ← validate_internal self;
  next_entries ← ok_or (EntryCountOverflow (num_entries self)) (checked_add u64_bound (num_entries self) 1);
  let '(h1, h2) := murmur3_x64_128 key 0 in
  block_offset ← ok_or (InvalidBlockCount (num_blocks self)) (calculate_block_offset h1 (num_blocks self));
  bits ← fold_m (set_probe block_offset (probe_base h1) (probe_step h2)) (bits self)
           (hash_range (num_hashes self));
  Ok {| bits := bits; num_blocks := num_blocks self; num_entries := next_entries;
        num_hashes := num_hashes self |}.

Fixpoint test_probes `{Build} (block_offset base step : N) (bits : list N) (range : list N)
    : outcome BloomError bool :=
  match range with
  | [] => Ok true
  | i :: range =>
      let '(word_idx, bit_idx) := probe_position base step i in
      idx ← arith_add usize_bound block_offset word_idx;
      word ← or_panic (bits !! N.to_nat idx);
      if N.land word (shl64 1 bit_idx) =? 0 then Ok false
      else test_probes block_offset base step bits range
  end.

Definition contains_bytes `{Build} (self : FastBlockedBloomFilter) (key : list N)
    : outcome BloomError bool :=
  if num_entries self =? 0 then Ok false
  else
    let '(h1, h2) := murmur3_x64_128 key 0 in
    match calculate_block_offset h1 (num_blocks self) with
    | None => Ok false
    | Some block_offset =>
        test_probes block_offset (probe_base h1) (probe_step h2) (bits self)
          (hash_range (num_hashes self))
    end.

Definition Bloom_insert `{Build} (self : FastBlockedBloomFilter) (hash : StoreHash) :=
  insert_bytes self (utf8 (StoreHash_as_str hash)).
Definition Bloom_contains `{Build} (self : FastBlockedBloomFilter) (hash : StoreHash) :=
  contains_bytes self (utf8 (StoreHash_as_str hash)).

Definition from_entries `{LibM} `{Build} `{Alloc} (items : list StoreHash)
    : outcome BloomError FastBlockedBloomFilter :=
  filter ← Bloom_new_with_defaults (N.of_nat (length items));
  fold_m Bloom_insert filter items.

Definition to_bytes (self : FastBlockedBloomFilter) : list N := bits self ≫= le_bytes 8.

(** [bytes.as_chunks::<8>()], the incomplete last chunk left out, each chunk read
    by [u64::from_le_bytes]. *)
Fixpoint words_of (bytes : list N) : list N :=
  match bytes with
  | b0 :: b1 :: b2 :: b3 :: b4 :: b5 :: b6 :: b7 :: bytes =>
      le_combine [b0; b1; b2; b3; b4; b5; b6; b7] :: words_of bytes
  | _ => []
  end.

Definition from_bytes `{Build} `{Alloc} (bytes : list N) (entries hashes : N)
    : outcome BloomError FastBlockedBloomFilter :=
  _ ← check_hash_count hashes;
  let len := N.of_nat (length bytes) in
  _ ← ensure (negb ((len =? 0) || negb (len mod 64 =? 0))) (InvalidByteLength len);
  num_blocks_raw ← ok_or (ArithmeticOverflow (lit "serialized block count conversion"))
                         (try_from u64_bound (len / 64));
  '(num_blocks, word_len) ← validated_word_len num_blocks_raw;
  _ ← try_reserve_exact word_len;
  let bits := words_of bytes in
  _ ← ensure (N.of_nat (length bits) =? word_len)
        (InvalidStructure num_blocks word_len (N.of_nat (length bits)));
  Ok {| bits := bits; num_blocks := num_blocks; num_entries := entries; num_hashes := hashes |}.

Definition num_bits (self : FastBlockedBloomFilter) : N := num_blocks self * BLOCK_BITS.
Definition Bloom_is_empty (self : FastBlockedBloomFilter) : bool := num_entries self =? 0.

(** ** Specification: a filter as a set of bit positions *)

(** What every filter satisfies: the checked structure, and the widths of its
    words and of its counter. *)
Definition bloom_valid `{Build} (f : FastBlockedBloomFilter) : Prop :=
  validate_internal f = Ok tt ∧ Forall (λ w, w < u64_bound) (bits f) ∧ num_entries f < u64_bound.

(** Probe [i] of a key: a word and a bit, without any machine arithmetic on
    [usize]. *)
Definition key_position (blocks : N) (key : list N) (i : N) : N * N :=
  let '(h1, h2) := murmur3_x64_128 key 0 in
  let p := N.land (wrapping_add (probe_base h1) (wrapping_mul i (probe_step h2))) 511 in
  (8 * (h1 mod blocks) + p / 64, p mod 64).
Definition key_positions (f : FastBlockedBloomFilter) (key : list N) : list (N * N) :=
  key_position (num_blocks f) key <$> hash_range (num_hashes f).

Definition bit_in (bs : list N) (pos : N * N) : bool := N.testbit (default 0 (bs !! N.to_nat pos.1)) pos.2.
Definition bit_set (f : FastBlockedBloomFilter) (pos : N * N) : bool := bit_in (bits f) pos.
Definition set_bit (bs : list N) (pos : N * N) : list N :=
  <[N.to_nat pos.1 := N.lor (default 0 (bs !! N.to_nat pos.1)) (2 ^ pos.2)]> bs.

(** ** Facts: structure *)

Section facts.
Context `{Build}.

Lemma usize_bound_min : 2 ^ 16 ≤ usize_bound.
Proof. unfold usize_bound. apply N.pow_le_mono_r; [lia|apply usize_min]. Qed.

Lemma validated_word_len_ok n r :
  validated_word_len n = Ok r ↔ 1 ≤ n ≤ MAX_BLOCKS ∧ n * 8 < usize_bound ∧ r = (n, n * 8).
Proof.
  unfold validated_word_len. split.
  - intros Hr. inv_ok. rewrite negb_true_iff, N.eqb_neq in *. rewrite N.leb_le in *.
    repeat match goal with
    | E : try_from _ _ = Some _ |- _ => apply try_from_Some in E as [-> ?]
    | E : checked_mul _ _ _ = Some _ |- _ => apply checked_mul_Some in E as [-> ?] end.
    split_and!; try done; lia.
  - intros ([? Hm] & ? & ->). unfold try_from, checked_mul, WORDS_PER_BLOCK.
    assert (n < u32_bound) by (unfold MAX_BLOCKS in Hm; unfold u32_bound; lia).
    repeat (rewrite (proj2 (N.ltb_lt _ _)) by lia; cbn [ok_or mbind outcome_bind]).
    rewrite (proj2 (N.eqb_neq n 0)) by lia. cbn [negb ensure mbind outcome_bind].
    rewrite (proj2 (N.leb_le _ _)) by lia. cbn [ensure mbind outcome_bind].
    by repeat (rewrite (proj2 (N.ltb_lt _ _)) by lia; cbn [ok_or mbind outcome_bind]).
Qed.

Lemma check_hash_count_ok n u : check_hash_count n = Ok u ↔ 1 ≤ n ≤ MAX_HASHES.
Proof.
  unfold check_hash_count. rewrite ensure_ok. unfold valid_hash_count.
  by rewrite andb_true_iff, !N.leb_le.
Qed.

Lemma validate_internal_ok f :
  validate_internal f = Ok tt ↔
  1 ≤ num_blocks f ≤ MAX_BLOCKS ∧ num_blocks f * 8 < usize_bound ∧
  N.of_nat (length (bits f)) = num_blocks f * 8 ∧ 1 ≤ num_hashes f ≤ MAX_HASHES.
Proof.
  unfold validate_internal. split.
  - intros Hv. apply bind_ok in Hv as ([nb w] & Hw & Hv).
    apply validated_word_len_ok in Hw as (Hn & Hu & [= -> ->]).
    apply bind_ok in Hv as (u & Hl & Hh). apply ensure_ok, N.eqb_eq in Hl.
    by apply check_hash_count_ok in Hh.
  - intros (Hn & Hu & Hl & Hh).
    rewrite (proj2 (validated_word_len_ok _ (num_blocks f, num_blocks f * 8))) by done.
    cbn [mbind outcome_bind]. rewrite (proj2 (N.eqb_eq _ _) Hl). cbn [ensure mbind outcome_bind].
    by apply check_hash_count_ok.
Qed.

(** The structure is the same on every platform that can hold the bitmap. *)
Lemma validated_word_len_wide n :
  32 ≤ usize_bits → 1 ≤ n ≤ MAX_BLOCKS → validated_word_len n = Ok (n, n * 8).
Proof.
  intros Hu Hn. apply validated_word_len_ok. split_and!; [lia|lia| |done].
  apply N.lt_le_trans with (2 ^ 32); [unfold MAX_BLOCKS in Hn; lia|].
  by apply N.pow_le_mono_r.
Qed.

(** ** Facts: probes *)

Lemma land_511 p : N.land p 511 < 512.
Proof. change 511 with (N.ones 9). rewrite N.land_ones. by apply N.mod_lt. Qed.

Lemma probe_position_eq base step i :
  let p := N.land (wrapping_add base (wrapping_mul i step)) 511 in
  probe_position base step i = (p / 64, p mod 64) ∧ p / 64 < 8 ∧ p mod 64 < 64.
Proof.
  intros p. unfold probe_position. fold p. pose proof (land_511 (wrapping_add base (wrapping_mul i step))) as Hp.
  fold p in Hp. rewrite N.mod_small by (pose proof usize_bound_min; lia).
  rewrite N.shiftr_div_pow2. change 63 with (N.ones 6). rewrite N.land_ones.
  split; [done|]. split; [apply N.Div0.div_lt_upper_bound; lia|by apply N.mod_lt].
Qed.

Lemma block_offset_eq h1 n :
  n ≠ 0 → n * 8 < usize_bound → calculate_block_offset h1 n = Some (8 * (h1 mod n)).
Proof.
  intros Hn Hu. unfold calculate_block_offset. rewrite (proj2 (N.eqb_neq n 0) Hn).
  pose proof (N.mod_lt h1 n Hn). unfold try_from, checked_mul, WORDS_PER_BLOCK.
  rewrite (proj2 (N.ltb_lt _ _)) by lia. cbn [mbind option_bind].
  rewrite (proj2 (N.ltb_lt _ _)) by lia. f_equal. lia.
Qed.

Lemma key_position_lt blocks key i :
  blocks ≠ 0 → (key_position blocks key i).1 < blocks * 8 ∧ (key_position blocks key i).2 < 64.
Proof.
  intros Hn. unfold key_position. destruct (murmur3_x64_128 key 0) as [h1 h2]. cbn [fst snd].
  pose proof (N.mod_lt h1 blocks Hn).
  destruct (probe_position_eq (probe_base h1) (probe_step h2) i) as (_ & ? & ?). lia.
Qed.

(** ** Facts: bits *)

Lemma set_bit_length bs pos : length (set_bit bs pos) = length bs.
Proof. apply length_insert. Qed.

Lemma bit_in_set_bit bs pos pos' :
  pos.1 < N.of_nat (length bs) →
  bit_in (set_bit bs pos) pos' = bit_in bs pos' || bool_decide (pos' = pos).
Proof.
  intros Hl. unfold bit_in, set_bit. destruct pos as [j b], pos' as [j' b']. cbn [fst snd] in *.
  destruct (decide (j = j')) as [<-|Hj].
  - rewrite list_lookup_insert_eq by lia. cbn [default from_option id]. rewrite N.lor_spec. f_equal.
    rewrite N.pow2_bits_eqb. apply eq_iff_eq_true. rewrite N.eqb_eq, bool_decide_eq_true. naive_solver.
  - rewrite list_lookup_insert_ne by lia.
    rewrite bool_decide_eq_false_2 by congruence. by rewrite orb_false_r.
Qed.

Lemma set_bits_length bs l : length (foldl set_bit bs l) = length bs.
Proof. revert bs. induction l as [|p l IH]; intros bs; simpl; [done|]. by rewrite IH, set_bit_length. Qed.

Lemma bit_in_set_bits bs l pos :
  Forall (λ p, p.1 < N.of_nat (length bs)) l →
  bit_in (foldl set_bit bs l) pos = bit_in bs pos || bool_decide (pos ∈ l).
Proof.
  revert bs. induction l as [|p l IH]; intros bs Hl; simpl.
  { by rewrite orb_false_r. }
  apply Forall_cons in Hl as [Hp Hl]. rewrite IH by (by rewrite set_bit_length).
  rewrite bit_in_set_bit by done. rewrite <-orb_assoc. f_equal.
  apply eq_iff_eq_true. rewrite orb_true_iff, !bool_decide_eq_true, elem_of_cons. done.
Qed.

Lemma set_bit_words bs pos :
  Forall (λ w, w < u64_bound) bs → pos.2 < 64 → Forall (λ w, w < u64_bound) (set_bit bs pos).
Proof.
  intros Hb Hp. unfold set_bit. destruct (decide (N.to_nat pos.1 < length bs)%nat) as [Hj|Hj].
  - apply Forall_insert; [done|]. apply lor_bound.
    + destruct (lookup_lt_is_Some_2 bs (N.to_nat pos.1) Hj) as [w Hw].
      rewrite Hw. exact (Forall_lookup_1 _ _ _ _ Hb Hw).
    + apply N.pow_lt_mono_r; lia.
  - by rewrite list_insert_ge by lia.
Qed.

Lemma set_bits_words bs l :
  Forall (λ w, w < u64_bound) bs → Forall (λ p : N * N, p.2 < 64) l →
  Forall (λ w, w < u64_bound) (foldl set_bit bs l).
Proof.
  intros Hb Hl. revert bs Hb. induction Hl as [|p l Hp _ IH]; intros bs Hb; simpl; [done|].
  apply IH. by apply set_bit_words.
Qed.

Lemma shl64_1 b : b < 64 → shl64 1 b = 2 ^ b.
Proof.
  intros Hb. unfold shl64. rewrite N.shiftl_1_l. apply wrap64_small. apply N.pow_lt_mono_r; lia.
Qed.

Lemma land_pow2_zero w b : (N.land w (2 ^ b) =? 0) = negb (N.testbit w b).
Proof.
  destruct (N.testbit w b) eqn:Hb; simpl.
  - apply N.eqb_neq. intros Hz. apply (f_equal (λ n, N.testbit n b)) in Hz.
    by rewrite N.land_spec, Hb, N.pow2_bits_true, N.bits_0 in Hz.
  - apply N.eqb_eq, N.bits_inj. intros i. rewrite N.land_spec, N.pow2_bits_eqb, N.bits_0.
    destruct (N.eqb_spec b i) as [<-|]; [by rewrite Hb|by rewrite andb_false_r].
Qed.

(** ** Facts: the machine operations are the set operations *)

Section probes.
Context (f : FastBlockedBloomFilter) (key : list N) (h1 h2 : N).
Hypothesis Hkey : murmur3_x64_128 key 0 = (h1, h2).
Hypothesis Hblocks : num_blocks f ≠ 0.
Hypothesis Hfit : num_blocks f * 8 < usize_bound.

Lemma probe_index i :
  ∃ word_idx,
    probe_position (probe_base h1) (probe_step h2) i = (word_idx, (key_position (num_blocks f) key i).2) ∧
    @arith_add _ BloomError usize_bound (8 * (h1 mod num_blocks f)) word_idx
    = Ok (key_position (num_blocks f) key i).1 ∧
    (key_position (num_blocks f) key i).1 < num_blocks f * 8 ∧
    (key_position (num_blocks f) key i).2 < 64.
Proof.
  pose proof (key_position_lt (num_blocks f) key i Hblocks) as [H1 H2].
  destruct (probe_position_eq (probe_base h1) (probe_step h2) i) as (Hp & _ & _).
  unfold key_position in *. rewrite Hkey in *. cbn [fst snd] in *. eexists. split; [exact Hp|].
  split; [|done]. apply arith_ok. lia.
Qed.

Lemma set_probe_eq bs i :
  N.of_nat (length bs) = num_blocks f * 8 →
  set_probe (8 * (h1 mod num_blocks f)) (probe_base h1) (probe_step h2) bs i
  = Ok (set_bit bs (key_position (num_blocks f) key i)).
Proof.
  intros Hl. destruct (probe_index i) as (w & Hp & Ha & Hj & Hb). unfold set_probe.
  rewrite Hp, Ha. cbn [mbind outcome_bind].
  destruct (lookup_lt_is_Some_2 bs (N.to_nat (key_position (num_blocks f) key i).1)) as [x Hx]; [lia|].
  rewrite Hx. cbn [or_panic mbind outcome_bind]. rewrite shl64_1 by done.
  unfold set_bit. by rewrite Hx.
Qed.

Lemma set_probes_eq bs range :
  N.of_nat (length bs) = num_blocks f * 8 →
  fold_m (set_probe (8 * (h1 mod num_blocks f)) (probe_base h1) (probe_step h2)) bs range
  = Ok (foldl set_bit bs (key_position (num_blocks f) key <$> range)).
Proof.
  revert bs. induction range as [|i range IH]; intros bs Hl; [done|].
  cbn [fold_m]. rewrite set_probe_eq by done. cbn [mbind outcome_bind].
  rewrite IH by (by rewrite set_bit_length). done.
Qed.

Lemma test_probes_eq range :
  N.of_nat (length (bits f)) = num_blocks f * 8 →
  test_probes (8 * (h1 mod num_blocks f)) (probe_base h1) (probe_step h2) (bits f) range
  = Ok (forallb (bit_set f) (key_position (num_blocks f) key <$> range)).
Proof.
  intros Hl. induction range as [|i range IH]; [done|]. cbn [test_probes].
  destruct (probe_index i) as (w & Hp & Ha & Hj & Hb). rewrite Hp, Ha. cbn [mbind outcome_bind].
  destruct (lookup_lt_is_Some_2 (bits f) (N.to_nat (key_position (num_blocks f) key i).1)) as [x Hx]; [lia|].
  rewrite Hx. cbn [or_panic mbind outcome_bind]. rewrite shl64_1 by done.
  rewrite land_pow2_zero, fmap_cons. cbn [forallb]. unfold bit_set at 1, bit_in.
  rewrite Hx. cbn [default from_option id]. destruct (N.testbit x _); [apply IH|done].
Qed.
End probes.

Lemma key_positions_in f key :
  validate_internal f = Ok tt →
  Forall (λ p, p.1 < N.of_nat (length (bits f))) (key_positions f key) ∧
  Forall (λ p : N * N, p.2 < 64) (key_positions f key).
Proof.
  intros ((? & _) & _ & Hl & _)%validate_internal_ok.
  unfold key_positions. rewrite !Forall_fmap. split; apply Forall_true; intros i; simpl;
    rewrite ?Hl; apply key_position_lt; lia.
Qed.

Definition inserted (f : FastBlockedBloomFilter) (key : list N) : FastBlockedBloomFilter :=
  {| bits := foldl set_bit (bits f) (key_positions f key); num_blocks := num_blocks f;
     num_entries := num_entries f + 1; num_hashes := num_hashes f |}.

Lemma insert_bytes_eq f key :
  validate_internal f = Ok tt →
  insert_bytes f key =
    if num_entries f + 1 <? u64_bound then Ok (inserted f key)
    else Err (EntryCountOverflow (num_entries f)).
Proof.
  intros Hv. unfold insert_bytes. rewrite Hv. cbn [mbind outcome_bind].
  apply validate_internal_ok in Hv as ([? _] & Hu & Hl & _). unfold checked_add.
  destruct (_ <? _); cbn [ok_or mbind outcome_bind]; [|done].
  destruct (murmur3_x64_128 key 0) as [h1 h2] eqn:Hk.
  rewrite block_offset_eq by lia. cbn [ok_or mbind outcome_bind].
  rewrite (set_probes_eq f key h1 h2 Hk) by (done || lia). done.
Qed.

Lemma contains_bytes_eq f key :
  validate_internal f = Ok tt →
  contains_bytes f key = Ok (negb (num_entries f =? 0) && forallb (bit_set f) (key_positions f key)).
Proof.
  intros Hv. unfold contains_bytes. destruct (num_entries f =? 0); [done|].
  apply validate_internal_ok in Hv as ([? _] & Hu & Hl & _).
  destruct (murmur3_x64_128 key 0) as [h1 h2] eqn:Hk. rewrite block_offset_eq by lia.
  by rewrite (test_probes_eq f key h1 h2 Hk) by (done || lia).
Qed.

Lemma inserted_structure f key :
  validate_internal f = Ok tt → validate_internal (inserted f key) = Ok tt.
Proof. rewrite !validate_internal_ok. simpl. by rewrite set_bits_length. Qed.

Lemma inserted_valid f key :
  bloom_valid f → num_entries f + 1 < u64_bound → bloom_valid (inserted f key).
Proof.
  intros (Hv & Hw & Hn) Hlt. split; [by apply inserted_structure|]. split; [|done].
  apply set_bits_words; [done|]. by apply key_positions_in.
Qed.

Lemma bit_set_inserted f key pos :
  validate_internal f = Ok tt →
  bit_set (inserted f key) pos = bit_set f pos || bool_decide (pos ∈ key_positions f key).
Proof. intros Hv. apply bit_in_set_bits. by apply key_positions_in. Qed.

Lemma contains_inserted f key k :
  validate_internal f = Ok tt → (k = key ∨ contains_bytes f k = Ok true) →
  contains_bytes (inserted f key) k = Ok true.
Proof.
  intros Hv Hk. rewrite contains_bytes_eq by (by apply inserted_structure).
  f_equal. apply andb_true_iff. split; [apply negb_true_iff, N.eqb_neq; simpl; lia|].
  apply forallb_forall. intros pos Hp%list_elem_of_In.
  change (key_positions (inserted f key) k) with (key_positions f k) in Hp.
  rewrite bit_set_inserted by done. apply orb_true_iff. destruct Hk as [->|Hk].
  - right. by apply bool_decide_eq_true.
  - left. rewrite contains_bytes_eq in Hk by done. injection Hk as Hk.
    apply andb_true_iff in Hk as [_ Hk]. rewrite forallb_forall in Hk. by apply Hk, list_elem_of_In.
Qed.

Lemma insert_bytes_inv f key f' :
  bloom_valid f → insert_bytes f key = Ok f' → f' = inserted f key ∧ bloom_valid f'.
Proof.
  intros Hf Hi. pose proof Hf as (Hv & _). rewrite insert_bytes_eq in Hi by done.
  destruct (N.ltb_spec (num_entries f + 1) u64_bound); [|done]. injection Hi as <-.
  split; [done|]. by apply inserted_valid.
Qed.

Lemma inserts_spec keys f f' :
  bloom_valid f → fold_m insert_bytes f keys = Ok f' →
  bloom_valid f' ∧ num_entries f' = num_entries f + N.of_nat (length keys) ∧
  (∀ k, k ∈ keys ∨ contains_bytes f k = Ok true → contains_bytes f' k = Ok true).
Proof.
  revert f. induction keys as [|key keys IH]; intros f Hf Hi.
  { injection Hi as <-. split; [done|]. split; [simpl; lia|]. intros k [?%elem_of_nil|]; done. }
  apply bind_ok in Hi as (g & Hg & Hi). pose proof Hf as (Hv & _).
  apply insert_bytes_inv in Hg as [-> Hg]; [|done].
  destruct (IH _ Hg Hi) as (? & Hn & Hc). split; [done|]. split; [simpl in *; lia|].
  intros k Hk. apply Hc. destruct Hk as [[->|]%elem_of_cons|]; [right|by left|right].
  - apply contains_inserted; auto.
  - apply contains_inserted; auto.
Qed.
End facts.

(** ** Facts: the byte form *)

Lemma list_split8 (l : list N) n :
  length l = (8 * S n)%nat →
  ∃ b0 b1 b2 b3 b4 b5 b6 b7 r,
    l = b0 :: b1 :: b2 :: b3 :: b4 :: b5 :: b6 :: b7 :: r ∧ length r = (8 * n)%nat.
Proof.
  intros Hl. do 8 (destruct l as [|? l]; [simpl in Hl; lia|]).
  do 9 eexists. split; [done|]. simpl in Hl. lia.
Qed.

Lemma words_of_app8 (c r : list N) :
  length c = 8%nat → words_of (c ++ r) = le_combine c :: words_of r.
Proof. intros Hc. do 8 (destruct c as [|? c]; [done|]). by destruct c. Qed.

Lemma words_of_to_bytes ws :
  Forall (λ w, w < u64_bound) ws → words_of (ws ≫= le_bytes 8) = ws.
Proof.
  induction 1 as [|w ws Hw _ IH]; [done|]. rewrite bind_cons, words_of_app8 by apply le_bytes_length.
  by rewrite IH, le_combine_bytes, N.mod_small.
Qed.

Lemma to_bytes_length ws : length (ws ≫= le_bytes 8) = (8 * length ws)%nat.
Proof.
  induction ws as [|w ws IH]; [done|]. rewrite bind_cons, length_app, IH, le_bytes_length. simpl. lia.
Qed.

Lemma to_bytes_words_of bytes n :
  Forall is_byte bytes → length bytes = (8 * n)%nat →
  words_of bytes ≫= le_bytes 8 = bytes ∧ length (words_of bytes) = n ∧
  Forall (λ w, w < u64_bound) (words_of bytes).
Proof.
  revert bytes. induction n as [|n IH]; intros bytes Hb Hl.
  { destruct bytes; [by repeat constructor|done]. }
  destruct (list_split8 bytes n Hl) as (b0 & b1 & b2 & b3 & b4 & b5 & b6 & b7 & r & -> & Hr).
  set (c := [b0; b1; b2; b3; b4; b5; b6; b7]).
  change (b0 :: b1 :: b2 :: b3 :: b4 :: b5 :: b6 :: b7 :: r) with (c ++ r) in *.
  apply Forall_app in Hb as [Hc Hb]. destruct (IH r Hb Hr) as (IH1 & IH2 & IH3).
  rewrite words_of_app8 by done. rewrite bind_cons, IH1. split; [|split].
  - f_equal. change 8%nat with (length c). by apply le_bytes_combine.
  - cbn [length]. by rewrite IH2.
  - constructor; [|done]. by apply (le_combine_bound c).
Qed.

Lemma len_div64 n : N.of_nat (8 * N.to_nat (n * 8)) = 64 * n.
Proof. lia. Qed.

Lemma from_bytes_inv `{Build} `{Alloc} bytes n h f :
  from_bytes bytes n h = Ok f →
  validate_internal f = Ok tt ∧ bits f = words_of bytes ∧ num_entries f = n ∧ num_hashes f = h ∧
  N.of_nat (length bytes) = 64 * num_blocks f.
Proof.
  unfold from_bytes. intros Hr. apply bind_ok in Hr as (? & Hh & Hr).
  apply check_hash_count_ok in Hh. cbv zeta in Hr. apply bind_ok in Hr as (? & Hl & Hr).
  apply ensure_ok, negb_true_iff, orb_false_iff in Hl as [_ Hl].
  apply negb_false_iff, N.eqb_eq in Hl. apply bind_ok in Hr as (? & Hn & Hr).
  apply ok_or_ok, try_from_Some in Hn as [-> _].
  apply bind_ok in Hr as ([nb w] & Hw & Hr). apply validated_word_len_ok in Hw as (Hn & Hu & [= -> ->]).
  apply bind_ok in Hr as (? & _ & Hr). apply bind_ok in Hr as (? & He & Hr).
  apply ensure_ok, N.eqb_eq in He. injection Hr as <-. rewrite validate_internal_ok. simpl.
  pose proof (N.div_mod (N.of_nat (length bytes)) 64 ltac:(done)). by split_and!; try lia.
Qed.

(** ** Properties *)

Section properties.
Context `{Build}.

(** the filter is a set of bits.  On a valid filter no probe leaves the bitmap
    (nothing panics); a lookup answers whether the filter is non-empty and every
    probe of the key is set; an insertion sets exactly the probes of the key,
    counts one more entry and keeps the filter valid; when the counter is full
    it fails with [EntryCountOverflow] instead. *)
Theorem bloom_refines_bitset (f : FastBlockedBloomFilter) (key : list N) (Hf : bloom_valid f) :
  contains_bytes f key = Ok (negb (num_entries f =? 0) && forallb (bit_set f) (key_positions f key)) ∧
  (num_entries f = u64_bound - 1 ∧ insert_bytes f key = Err (EntryCountOverflow (num_entries f)) ∨
   ∃ f', insert_bytes f key = Ok f' ∧ bloom_valid f' ∧ num_entries f' = num_entries f + 1 ∧
     num_blocks f' = num_blocks f ∧ num_hashes f' = num_hashes f ∧
     ∀ pos, bit_set f' pos = bit_set f pos || bool_decide (pos ∈ key_positions f key)).
Proof.
  pose proof Hf as (Hv & _ & Hn). split; [by apply contains_bytes_eq|]. rewrite insert_bytes_eq by done.
  destruct (N.ltb_spec (num_entries f + 1) u64_bound) as [Hlt|Hge]; [right|left; split; [lia|done]].
  exists (inserted f key). split_and!; try done; [by apply inserted_valid|].
  intros pos. by apply bit_set_inserted.
Qed.

(** C35: no false negatives.  After any sequence of successful insertions into a
    valid filter, the filter is valid, its counter has grown by the number of
    insertions, and it contains every inserted key and every key it contained. *)
Theorem bloom_no_false_negatives (f f' : FastBlockedBloomFilter) (keys : list (list N))
    (Hf : bloom_valid f) (Hi : fold_m insert_bytes f keys = Ok f') :
  bloom_valid f' ∧ num_entries f' = num_entries f + N.of_nat (length keys) ∧
  ∀ k, k ∈ keys ∨ contains_bytes f k = Ok true → contains_bytes f' k = Ok true.
Proof. by apply inserts_spec. Qed.

(** the byte form loses nothing.  A valid filter is restored exactly by
    [from_bytes] from its own bytes, [num_entries] and [num_hashes], whenever the
    allocation succeeds; its byte form is 64 bytes per block. *)
Theorem bloom_bytes_roundtrip `{Alloc} (f : FastBlockedBloomFilter) (Hf : bloom_valid f)
    (Halloc : reserve_error (num_blocks f * 8) = None) :
  from_bytes (to_bytes f) (num_entries f) (num_hashes f) = Ok f ∧
  N.of_nat (length (to_bytes f)) = 64 * num_blocks f.
Proof.
  destruct Hf as (Hv & Hw & _). apply validate_internal_ok in Hv as (Hn & Hu & Hl & Hh).
  assert (Hlen : N.of_nat (length (to_bytes f)) = 64 * num_blocks f).
  { unfold to_bytes. rewrite to_bytes_length. lia. }
  split; [|done]. unfold from_bytes. rewrite (proj2 (check_hash_count_ok _ tt)) by done.
  cbn [mbind outcome_bind]. rewrite Hlen. rewrite (N.mul_comm 64), N.Div0.mod_mul, N.div_mul by done.
  rewrite (proj2 (N.eqb_neq (num_blocks f * 64) 0)) by lia. cbn [orb negb ensure mbind outcome_bind].
  unfold try_from. rewrite (proj2 (N.ltb_lt _ _)) by (unfold MAX_BLOCKS, u64_bound in *; lia).
  cbn [ok_or mbind outcome_bind].
  rewrite (proj2 (validated_word_len_ok _ (num_blocks f, num_blocks f * 8))) by done.
  cbn [mbind outcome_bind]. unfold try_reserve_exact. rewrite Halloc. cbn [mbind outcome_bind].
  unfold to_bytes. rewrite words_of_to_bytes, Hl, N.eqb_refl by done. by destruct f.
Qed.

(** what [from_bytes] accepts.  Whatever byte string a registry serves, a
    filter that [from_bytes] returns is valid, with 1 to 2^20 blocks and 1 to 30
    hashes, serialises back to exactly that byte string, and answers lookups
    without panicking. *)
Theorem from_bytes_sound `{Alloc} (bytes : list N) (n h : N) (f : FastBlockedBloomFilter)
    (Hbytes : Forall is_byte bytes) (Hn : n < u64_bound) (Hr : from_bytes bytes n h = Ok f) :
  bloom_valid f ∧ to_bytes f = bytes ∧ num_entries f = n ∧ num_hashes f = h ∧
  1 ≤ num_blocks f ≤ MAX_BLOCKS ∧ 1 ≤ h ≤ MAX_HASHES ∧
  ∀ key, ∃ b, contains_bytes f key = Ok b.
Proof.
  apply from_bytes_inv in Hr as (Hv & Hb & <- & <- & Hl).
  destruct (to_bytes_words_of bytes (N.to_nat (num_blocks f * 8)) Hbytes) as (Ht & _ & Hw); [lia|].
  assert (Hf : bloom_valid f) by (unfold bloom_valid; by rewrite Hb).
  pose proof Hv as (? & _ & _ & ?)%validate_internal_ok. unfold to_bytes. rewrite Hb.
  split_and!; try done; try lia. intros key. rewrite contains_bytes_eq by done. eauto.
Qed.
End properties.

(** ** Construction *)

Section construction.
Context `{LibM} `{B : Build} `{Alloc}.

Lemma checked_div_ceil_512 v :
  0 < v → v + 511 < u64_bound → checked_div_ceil v BLOCK_BITS = Ok ((v + 511) / 512).
Proof.
  intros Hv Hb. unfold checked_div_ceil. change (BLOCK_BITS =? 0) with false.
  rewrite andb_false_r, (proj2 (N.eqb_neq v 0)) by lia. cbn [mbind outcome_bind].
  unfold checked_add. change (BLOCK_BITS - 1) with 511. by rewrite (proj2 (N.ltb_lt _ _) Hb).
Qed.

Lemma ceil_512_bounds v : 512 ≤ v → v ≤ 512 * MAX_BLOCKS → 1 ≤ (v + 511) / 512 ≤ MAX_BLOCKS.
Proof.
  intros Hl Hu. split.
  - apply N.div_le_lower_bound; lia.
  - apply N.lt_succ_r, N.Div0.div_lt_upper_bound. lia.
Qed.

(** The hash count [new] derives from the bits per entry. *)
Definition derived_hashes (bpe : N) : N :=
  N.min (N.max (f64_as_uint 256 (round (f64_mul (f64_of_N bpe) (ln (f64_of_Z 2))))) 1) MAX_HASHES.

Lemma Bloom_new_inv n rate f :
  Bloom_new n rate = Ok f → bloom_valid f ∧ num_entries f = 0 ∧ ∀ pos, bit_set f pos = false.
Proof.
  unfold Bloom_new. intros Hr. apply bind_ok in Hr as (bpe & _ & Hr).
  apply bind_ok in Hr as (? & _ & Hr). apply bind_ok in Hr as (t & _ & Hr). cbv zeta in Hr.
  apply bind_ok in Hr as (nb & _ & Hr). apply bind_ok in Hr as ([nb' w] & Hw & Hr).
  apply validated_word_len_ok in Hw as (Hn & Hu & [= -> ->]).
  apply bind_ok in Hr as (bs & Ha & [= <-]). apply bind_ok in Ha as (? & _ & [= <-]).
  split; [split|]; simpl.
  - apply validate_internal_ok. simpl. rewrite length_replicate. unfold MAX_HASHES. split_and!; lia.
  - split; [|done]. by apply Forall_replicate.
  - split; [done|]. intros pos. unfold bit_set, bit_in. simpl.
    destruct (replicate (N.to_nat (nb * 8)) 0 !! N.to_nat pos.1) as [y|] eqn:E; [|apply N.bits_0].
    apply lookup_replicate in E as [-> _]. apply N.bits_0.
Qed.

Lemma Bloom_new_total n rate bpe :
  bits_per_entry rate = Ok bpe → 32 ≤ usize_bits → n < u64_bound → n * bpe ≤ 512 * MAX_BLOCKS →
  (∀ w, w ≤ 8 * MAX_BLOCKS → reserve_error w = None) →
  ∃ f, Bloom_new n rate = Ok f ∧ num_hashes f = derived_hashes bpe.
Proof.
  intros Hb Hu Hn Ht Ha. unfold Bloom_new. rewrite Hb. cbn [mbind outcome_bind].
  unfold try_from, checked_mul. rewrite (proj2 (N.ltb_lt _ _) Hn). cbn [ok_or mbind outcome_bind].
  assert (512 * MAX_BLOCKS < u64_bound - 511) by (vm_compute; reflexivity).
  rewrite (proj2 (N.ltb_lt (n * bpe) _)) by lia. cbn [ok_or mbind outcome_bind]. cbv zeta.
  assert (Hmax : 512 ≤ N.max (n * bpe) BLOCK_BITS ≤ 512 * MAX_BLOCKS) by (unfold BLOCK_BITS, MAX_BLOCKS in *; lia).
  rewrite checked_div_ceil_512 by lia. cbn [mbind outcome_bind].
  destruct (ceil_512_bounds _ (proj1 Hmax) (proj2 Hmax)).
  rewrite validated_word_len_wide by lia. cbn [mbind outcome_bind].
  unfold allocate_zeroed_words, try_reserve_exact. rewrite Ha by lia. cbn [mbind outcome_bind].
  eexists. split; [done|]. done.
Qed.

Lemma inserts_total keys f :
  bloom_valid f → num_entries f + N.of_nat (length keys) < u64_bound →
  ∃ f', fold_m insert_bytes f keys = Ok f'.
Proof.
  revert f. induction keys as [|k keys IH]; intros f Hf Hn; [by eexists|]. cbn [fold_m].
  cbn [length] in Hn. rewrite insert_bytes_eq by apply Hf.
  rewrite (proj2 (N.ltb_lt _ _)) by lia. cbn [mbind outcome_bind].
  apply IH; [apply inserted_valid; [done|lia]|]. simpl. lia.
Qed.

Lemma fold_insert_keys (items : list StoreHash) f :
  fold_m Bloom_insert f items = fold_m insert_bytes f ((λ h, utf8 (StoreHash_as_str h)) <$> items).
Proof.
  revert f. induction items as [|h items IH]; intros f; [done|].
  rewrite fmap_cons. cbn [fold_m].
  change (Bloom_insert f h) with (insert_bytes f (utf8 (StoreHash_as_str h))).
  destruct (insert_bytes f _); cbn [mbind outcome_bind]; [apply IH|done..].
Qed.

(** building a filter succeeds and loses no entry.  On a platform with at least
    32-bit [usize] and an allocator that grants 64 MiB, [from_entries] returns a
    valid filter for every list of hashes whose bits fit the 2^20 blocks, it
    counts them all, and it contains each of them. *)
Theorem from_entries_complete (items : list StoreHash) (bpe : N)
    (Hbits : bits_per_entry DEFAULT_FALSE_POSITIVE_RATE = Ok bpe) (Hwide : 32 ≤ usize_bits)
    (Hlen : N.of_nat (length items) < u64_bound)
    (Hfit : N.of_nat (length items) * bpe ≤ 512 * MAX_BLOCKS)
    (Halloc : ∀ w, w ≤ 8 * MAX_BLOCKS → reserve_error w = None) :
  ∃ f, from_entries items = Ok f ∧ bloom_valid f ∧ num_entries f = N.of_nat (length items) ∧
    ∀ h, h ∈ items → Bloom_contains f h = Ok true.
Proof.
  unfold from_entries, Bloom_new_with_defaults.
  destruct (Bloom_new_total _ _ _ Hbits Hwide Hlen Hfit Halloc) as (f & Hf & _). rewrite Hf.
  cbn [mbind outcome_bind]. apply Bloom_new_inv in Hf as (Hv & Hn & _). rewrite fold_insert_keys.
  destruct (inserts_total ((λ h, utf8 (StoreHash_as_str h)) <$> items) f Hv) as [f' Hi].
  { rewrite length_fmap, Hn. done. }
  exists f'. split; [done|]. apply inserts_spec in Hi as (Hv' & Hn' & Hc); [|done].
  split; [done|]. split; [rewrite Hn', Hn, length_fmap; lia|].
  intros h Hh. apply Hc. left. by apply (list_elem_of_fmap_2 (λ h, utf8 (StoreHash_as_str h))).
Qed.
End construction.

(** the same bits on every platform.  Between two builds whose [usize] is at
    least 32 bits wide (x86_64 and wasm32, checked or wrapping arithmetic), a
    filter valid for one is valid for the other, lookups give the same answer
    and insertions the same filter. *)
Theorem bloom_platform_independent (B1 B2 : Build) (f : FastBlockedBloomFilter) (key : list N)
    (Hw2 : 32 ≤ @usize_bits B2) (Hf : @bloom_valid B1 f) :
  @bloom_valid B2 f ∧ @contains_bytes B1 f key = @contains_bytes B2 f key ∧
  @insert_bytes B1 f key = @insert_bytes B2 f key.
Proof.
  pose proof Hf as (Hv1 & Hw & Hn).
  assert (Hv2 : @validate_internal B2 f = Ok tt).
  { apply validate_internal_ok in Hv1 as (? & _ & ? & ?). apply validate_internal_ok. split_and!; try lia.
    apply N.lt_le_trans with (2 ^ 32); [unfold MAX_BLOCKS in *; lia|]. by apply N.pow_le_mono_r. }
  split; [done|]. by rewrite !(@contains_bytes_eq B1), !(@contains_bytes_eq B2),
    !(@insert_bytes_eq B1), !(@insert_bytes_eq B2).
Qed.

(** ** Witnesses *)

Definition sample_filter : FastBlockedBloomFilter :=
  {| bits := replicate 8 0; num_blocks := 1; num_entries := 0; num_hashes := 2 |}.
Lemma sample_filter_valid B : @bloom_valid B sample_filter.
Proof.
  split; [|split; [by apply Forall_replicate|done]]. apply validate_internal_ok. simpl.
  pose proof usize_bound_min. unfold MAX_BLOCKS, MAX_HASHES. split_and!; lia.
Qed.
Definition sample_keys : list (list N) := [[1; 2; 3]; []].

Lemma bloom_refines_bitset_witness :
  ∃ b, @contains_bytes debug64 sample_filter [1; 2; 3] = Ok b.
Proof.
  eexists. exact (proj1 (@bloom_refines_bitset debug64 sample_filter [1; 2; 3] (sample_filter_valid _))).
Defined.

Lemma bloom_no_false_negatives_witness :
  ∃ f, @fold_m _ _ _ (@insert_bytes wasm32) sample_filter sample_keys = Ok f ∧ num_entries f = 2 ∧
    @contains_bytes wasm32 f [1; 2; 3] = Ok true.
Proof.
  destruct (@fold_m _ _ _ (@insert_bytes wasm32) sample_filter sample_keys) as [f| |] eqn:E;
    [|vm_compute in E; discriminate E..].
  destruct (@bloom_no_false_negatives wasm32 sample_filter f sample_keys (sample_filter_valid _) E)
    as (_ & Hn & Hc).
  exists f. split; [done|]. split; [by rewrite Hn|]. apply Hc. left. by left.
Defined.

Lemma bloom_bytes_roundtrip_witness :
  @from_bytes debug64 never_fails (to_bytes sample_filter) 0 2 = Ok sample_filter.
Proof.
  exact (proj1 (@bloom_bytes_roundtrip debug64 never_fails sample_filter (sample_filter_valid _) eq_refl)).
Defined.

Lemma from_bytes_sound_witness :
  ∃ f, @from_bytes debug64 never_fails (replicate 64 255) 5 7 = Ok f ∧
       to_bytes f = replicate 64 255.
Proof.
  destruct (@from_bytes debug64 never_fails (replicate 64 255) 5 7) as [f| |] eqn:E;
    [|vm_compute in E; discriminate E..].
  exists f. split; [done|].
  apply (@from_bytes_sound debug64 never_fails (replicate 64 255) 5 7 f); [|done|exact E].
  by apply Forall_replicate.
Defined.

Lemma from_entries_complete_witness :
  ∃ f, @from_entries sample_libm wasm32 never_fails [StoreHash_default] = Ok f ∧
       @Bloom_contains wasm32 f StoreHash_default = Ok true.
Proof.
  destruct (@from_entries_complete sample_libm wasm32 never_fails [StoreHash_default] 12)
    as (f & Hf & _ & _ & Hc); [vm_compute; reflexivity|done|done|done|done|].
  exists f. split; [exact Hf|]. apply Hc. by left.
Defined.

Lemma bloom_platform_independent_witness :
  @insert_bytes debug64 sample_filter [1; 2; 3] = @insert_bytes wasm32 sample_filter [1; 2; 3].
Proof.
  apply (@bloom_platform_independent debug64 wasm32 sample_filter [1; 2; 3]); [done|].
  apply sample_filter_valid.
Defined.

(** The documented default of 7 hashes is not what the default rate gives: with a
    correctly rounded logarithm, [new_with_defaults] takes 12 bits per entry and
    8 hashes. *)
Theorem bloom_default_parameters :
  ∃ f, @Bloom_new_with_defaults sample_libm debug64 never_fails 100 = Ok f ∧
    num_hashes f = 8 ∧ num_hashes f ≠ DEFAULT_NUM_HASHES.
Proof. eexists. split; [vm_compute; reflexivity|]. split; [reflexivity|discriminate]. Qed.
