(* ===== verification/OciError.v ===== *)
(** * OciError: the error types of the OCI client
    (crates/nixcache-oci/src/error.rs, crates/nixcache-utils/src/error.rs) and the
    enumerations of backend/kind.rs and backend/endpoint.rs they mention

    A [StatusCode] is its number; the errors of the standard library and of
    serde are their texts. *)

From S2P Require Import Prelude Machine Str Error.

Local Open Scope N_scope.

Notation StatusCode := N (only parsing).

Inductive RegistryScheme := Http | Https.

Inductive RegistryKind :=
| Ghcr
| DockerHub
| AwsEcr
| GcpArtifactRegistry
| AzureAcr
| GenericOci.

Inductive RegistryEndpointError :=
| EndpointEmpty
| UnsupportedScheme (input scheme : list N)
| MissingAuthority (input : list N)
| UserInfo (input : list N)
| QueryOrFragment (input : list N)
| InvalidAuthority (input details : list N)
| InvalidLocation (input details : list N).

Inductive CompressionError :=
| EmptyBuffer
| InvalidMagic (found : N)
| OutputLimitExceeded (limit actual : N)
| ZstdCompress (code : N)
| ZstdDecompress (code : N)
| CompressionIo (source : list N).

Inductive TransportError :=
| TransportIo (source : list N)
| HttpStatus (status : StatusCode) (message : option (list N))
| ConnectionFailed (endpoint source : list N)
| Timeout (duration : N)
| InvalidUri (url reason : list N)
| HeaderParse (header : list N)
| ResponseTooLarge (url : list N) (limit actual : N).

Inductive TokenError :=
| TokenMissingInBody
| FlightFailed
| ExchangeFailed (realm : list N) (status : StatusCode)
| InvalidResponse (realm details : list N).

Inductive OciError :=
| InvalidEndpoint (e : RegistryEndpointError)
| DigestMismatch (target expected actual : list N)
| HeaderDigestMismatch (target header expected : list N)
| InvalidDescriptor (target details : list N)
| SizeMismatch (target : list N) (expected actual : N)
| SizeLimitExceeded (target : list N) (limit actual : N)
| AuthChallengeInvalid (details : list N)
| AuthenticationFailed (operation : list N) (status : StatusCode) (details : list N)
| AuthenticationNotReplayable (operation : list N)
| DeletionDiscoveryFailed (stage target details : list N)
| DeletionVerificationFailed (target details : list N)
| DeletionObjectLimitExceeded (target : list N)
| PaginationFailed (repository : list N) (cursor : option (list N))
    (pages_fetched collected_tags : N) (details : list N)
| OperationNotSupported (operation : list N) (backend : RegistryKind) (reason : list N)
| DeletionFailed (target : list N) (status : StatusCode) (details : list N)
| InsufficientPermission (target required_scope details : list N)
| BlobNotFound (digest : list N)
| BlobCheckFailed (status : StatusCode)
| BlobUploadFailed (status : StatusCode)
| BlobDownloadFailed (status : StatusCode)
| ManifestPushFailed (status : StatusCode)
| ManifestFetchFailed (status : StatusCode)
| CasPreconditionFailed (tag : list N) (expected actual : option (list N))
| CasUnsupported (tag : list N) (backend : RegistryKind)
| UploadLocationMissing
| UploadDigestUnavailable
| UploadRangeInvalid (details : list N)
| ResumableUploadFailed (attempts : N) (source : OciError)
| SubManifestMissing (digest : list N)
| LayerDescriptorMissing
| UnsupportedMediaType (media_type : list N)
| InvalidUtf8Manifest (source : list N)
| OciToken (e : TokenError)
| OciTransport (e : TransportError)
| OciCompression (e : CompressionError)
| OciCore (e : CoreError)
| OciJson (source : list N)
| OciIo (source : list N).

#[export] Instance RegistryKind_eq_dec : EqDecision RegistryKind.
Proof. solve_decision. Defined.
#[export] Instance RegistryScheme_eq_dec : EqDecision RegistryScheme.
Proof. solve_decision. Defined.
#[export] Instance TokenError_eq_dec : EqDecision TokenError.
Proof. solve_decision. Defined.
#[export] Instance TransportError_eq_dec : EqDecision TransportError.
Proof. solve_decision. Defined.

(** [From<TransportError> for OciError], which [?] applies. *)
Definition oci_from_transport (error : TransportError) : OciError :=
  match error with
  | ResponseTooLarge url limit actual => SizeLimitExceeded url limit actual
  | other => OciTransport other
  end.
(** [From<TypeError> for OciError]. *)
Definition oci_from_type (err : TypeError) : OciError := OciCore (TypeErr err).

(** [StatusCode::is_success] and [is_server_error]. *)
Definition is_success (status : StatusCode) : bool := (200 <=? status) && (status <? 300).
Definition is_server_error (status : StatusCode) : bool := (500 <=? status) && (status <? 600).

(** ** Messages *)

(** [Display for StatusCode] of the [http] crate (the number and its reason phrase), and the
    [Debug] forms of the standard library that depend on its Unicode tables. *)
Class OciFormat := {
  fmt_status : StatusCode → list N;
  fmt_duration : N → list N;
  fmt_debug_str : list N → list N }.

Definition display_registry_kind (k : RegistryKind) : list N :=
  match k with
  | Ghcr => lit "ghcr"
  | DockerHub => lit "docker_hub"
  | AwsEcr => lit "aws_ecr"
  | GcpArtifactRegistry => lit "gcp_artifact_registry"
  | AzureAcr => lit "azure_acr"
  | GenericOci => lit "generic_oci"
  end.

Definition display_endpoint_error (e : RegistryEndpointError) : list N :=
  match e with
  | EndpointEmpty => lit "registry endpoint is empty"
  | UnsupportedScheme input scheme =>
      lit "registry endpoint " ++ quoted input ++ lit " has unsupported scheme " ++ quoted scheme
  | MissingAuthority input => lit "registry endpoint " ++ quoted input ++ lit " has no authority"
  | UserInfo input => lit "registry endpoint " ++ quoted input ++ lit " contains userinfo"
  | QueryOrFragment input => lit "registry endpoint " ++ quoted input ++ lit " contains a query or fragment"
  | InvalidAuthority input details =>
      lit "registry endpoint " ++ quoted input ++ lit " has invalid authority: " ++ details
  | InvalidLocation input details => lit "registry location " ++ quoted input ++ lit " is invalid: " ++ details
  end.

(** [{:08X}]. *)
Definition hex_upper_digit (d : N) : N := if d <? 10 then 48 + d else 55 + d.
Definition fmt_08X (n : N) : list N :=
  (λ i, hex_upper_digit (N.land (N.shiftr n (4 * N.of_nat i)) 15)) <$> reverse (seq 0 8).

Definition display_compression_error (e : CompressionError) : list N :=
  match e with
  | ZstdCompress code => lit "Zstd compression failed (code: " ++ show_N code ++ lit ")"
  | ZstdDecompress code => lit "Zstd decompression failed (code: " ++ show_N code ++ lit ")"
  | InvalidMagic found =>
      lit "Invalid Zstd magic number header (found 0x" ++ fmt_08X found ++ lit ", expected 0x28B52FFD)"
  | EmptyBuffer => lit "Empty buffer supplied for decompression"
  | OutputLimitExceeded limit actual =>
      lit "Zstd decompressed output exceeds limit " ++ show_N limit ++ lit " bytes (observed "
      ++ show_N actual ++ lit ")"
  | CompressionIo source => lit "I/O error during compression streaming: " ++ source
  end.

Section display.
Context `{OciFormat}.

Definition display_transport_error (e : TransportError) : list N :=
  match e with
  | TransportIo source => lit "I/O transport failure: " ++ source
  | HttpStatus status _ => lit "HTTP protocol / status error: " ++ fmt_status status
  | ConnectionFailed endpoint source =>
      lit "Network connection failed to endpoint " ++ quoted endpoint ++ lit ": " ++ source
  | Timeout duration => lit "Request timed out after " ++ fmt_duration duration
  | InvalidUri url reason => lit "Invalid request URI " ++ quoted url ++ lit ": " ++ reason
  | HeaderParse header => lit "Header decode or parse error for " ++ quoted header
  | ResponseTooLarge url limit actual =>
      lit "Response body from " ++ quoted url ++ lit " exceeds limit " ++ show_N limit
      ++ lit " bytes (observed " ++ show_N actual ++ lit ")"
  end.

Definition display_token_error (e : TokenError) : list N :=
  match e with
  | TokenMissingInBody => lit "Registry bearer token missing in response body"
  | FlightFailed => lit "Bearer token fetch flight failed before a token was cached"
  | ExchangeFailed realm status =>
      lit "Bearer token exchange failed at realm " ++ quoted realm ++ lit " with HTTP " ++ fmt_status status
  | InvalidResponse realm details =>
      lit "Bearer token response at realm " ++ quoted realm ++ lit " is invalid: " ++ details
  end.

(** [{:?}] of an [Option<String>]. *)
Definition fmt_debug_option (o : option (list N)) : list N :=
  match o with Some s => lit "Some(" ++ fmt_debug_str s ++ lit ")" | None => lit "None" end.

Fixpoint display_oci_error (e : OciError) : list N :=
  match e with
  | InvalidEndpoint e => display_endpoint_error e
  | DigestMismatch target expected actual =>
      lit "Digest mismatch for " ++ quoted target ++ lit ": expected " ++ expected ++ lit ", got " ++ actual
  | HeaderDigestMismatch target header expected =>
      lit "Response digest header mismatch for " ++ quoted target ++ lit ": header " ++ header
      ++ lit ", expected " ++ expected
  | InvalidDescriptor target details => lit "Invalid descriptor for " ++ quoted target ++ lit ": " ++ details
  | SizeMismatch target expected actual =>
      lit "Size mismatch for " ++ quoted target ++ lit ": expected " ++ show_N expected ++ lit ", got "
      ++ show_N actual
  | SizeLimitExceeded target limit actual =>
      lit "Size limit exceeded for " ++ quoted target ++ lit ": limit " ++ show_N limit ++ lit ", observed "
      ++ show_N actual
  | AuthChallengeInvalid details => lit "Invalid OCI authentication challenge: " ++ details
  | AuthenticationFailed operation status details =>
      lit "OCI authentication failed during " ++ quoted operation ++ lit " with HTTP " ++ fmt_status status
      ++ lit ": " ++ details
  | AuthenticationNotReplayable operation =>
      lit "OCI authentication challenge retry cannot replay operation " ++ quoted operation
  | DeletionDiscoveryFailed stage target details =>
      lit "Deletion discovery failed during " ++ quoted stage ++ lit " for " ++ quoted target ++ lit ": " ++ details
  | DeletionVerificationFailed target details =>
      lit "Deletion verification failed for " ++ quoted target ++ lit ": " ++ details
  | DeletionObjectLimitExceeded target =>
      lit "Deletion discovery exceeded the object limit for " ++ quoted target
  | PaginationFailed repository cursor pages_fetched collected_tags details =>
      lit "Tag pagination failed for repository " ++ quoted repository ++ lit " at cursor "
      ++ fmt_debug_option cursor ++ lit " after " ++ show_N pages_fetched ++ lit " page(s) and "
      ++ show_N collected_tags ++ lit " tag(s): " ++ details
  | OperationNotSupported operation backend reason =>
      lit "Operation " ++ quoted operation ++ lit " not supported on registry backend "
      ++ quoted (display_registry_kind backend) ++ lit ": " ++ reason
  | DeletionFailed target status details =>
      lit "Resource deletion failed for " ++ quoted target ++ lit " with status " ++ fmt_status status
      ++ lit ": " ++ details
  | InsufficientPermission target required_scope details =>
      lit "Insufficient permissions for " ++ quoted target ++ lit " (required scope: " ++ quoted required_scope
      ++ lit "): " ++ details
  | BlobNotFound digest => lit "Target blob " ++ quoted digest ++ lit " not found on registry"
  | BlobCheckFailed status => lit "Blob check (HEAD) failed with HTTP " ++ fmt_status status
  | BlobUploadFailed status => lit "Blob upload failed with HTTP " ++ fmt_status status
  | BlobDownloadFailed status => lit "Blob download failed with HTTP " ++ fmt_status status
  | ManifestPushFailed status => lit "Manifest push failed with HTTP " ++ fmt_status status
  | ManifestFetchFailed status => lit "Manifest fetch failed with HTTP " ++ fmt_status status
  | CasPreconditionFailed tag expected actual =>
      lit "CAS optimistic concurrency precondition failed on tag " ++ quoted tag ++ lit " (expected: "
      ++ fmt_debug_option expected ++ lit ", found: " ++ fmt_debug_option actual ++ lit ")"
  | CasUnsupported tag backend =>
      lit "Manifest CAS is not supported on registry backend " ++ quoted (display_registry_kind backend)
      ++ lit " for tag " ++ quoted tag
  | UploadLocationMissing => lit "Upload session location missing in 202 Accepted response"
  | UploadDigestUnavailable => lit "Upload stream ended before a complete digest was observed"
  | UploadRangeInvalid details => lit "Invalid upload session range: " ++ details
  | ResumableUploadFailed attempts source =>
      lit "Resumable chunked upload failed after " ++ show_N attempts ++ lit " attempts: "
      ++ display_oci_error source
  | SubManifestMissing digest =>
      lit "Sub-manifest descriptor " ++ quoted digest ++ lit " not found in multi-arch index"
  | LayerDescriptorMissing => lit "Manifest missing target layer with root index / delta patch media type"
  | UnsupportedMediaType media_type =>
      lit "Unsupported layer media type: " ++ quoted media_type
      ++ lit " (only Schema v8 Zstd media types supported)"
  | InvalidUtf8Manifest source => lit "Manifest JSON contains invalid UTF-8 bytes: " ++ source
  | OciToken e => display_token_error e
  | OciTransport e => display_transport_error e
  | OciCompression e => display_compression_error e
  | OciCore e => display_core_error e
  | OciJson source => source
  | OciIo source => source
  end.
End display.
