(* ===== verification/Flight.v ===== *)
(** * Flight: the token cache and its single-flight protocol
    (crates/nixcache-oci/src/token/sync.rs, and the loop of
    [TokenManager::get_token_for_key] in token.rs)

    Tasks share a registry behind one mutex and flights behind their own.  Each
    critical section is one step; a configuration interleaves the steps of any
    number of tasks, of the clock, of cancellations and of invalidations.  A
    flight is identified by the order of its allocation ([Arc::ptr_eq]). *)

From stdpp Require Import relations.
From S2P Require Import Prelude Machine Str Error OciError.

Local Open Scope N_scope.

Record ChallengeKey := { ck_realm : list N; ck_service : list N; ck_scope : list N }.
#[export] Instance ChallengeKey_eq_dec : EqDecision ChallengeKey.
Proof. solve_decision. Defined.
#[export] Instance ChallengeKey_countable : Countable ChallengeKey.
Proof.
  apply (inj_countable' (λ k, (ck_realm k, ck_service k, ck_scope k))
           (λ t, {| ck_realm := t.1.1; ck_service := t.1.2; ck_scope := t.2 |})).
  by intros [].
Defined.

Inductive FlightOutcome := Succeeded | Failed | Cancelled.
#[export] Instance FlightOutcome_eq_dec : EqDecision FlightOutcome.
Proof. solve_decision. Defined.

Record CachedToken := { ct_token : list N; ct_generation : N; ct_expires_at : N }.

Record RegistryState := {
  cache : gmap ChallengeKey CachedToken;
  flights : gmap ChallengeKey nat;
  generations : gmap ChallengeKey N;
  last_key : option ChallengeKey }.

(** The registry and the heap of flights: [FlightState.outcome] by identity. *)
Record Shared := { registry : RegistryState; outcomes : list (option FlightOutcome) }.

Definition FlightRegistry_new : Shared :=
  {| registry := {| cache := ∅; flights := ∅; generations := ∅; last_key := None |};
     outcomes := [] |}.

(** [state.generations.get(key).copied().unwrap_or_default()]. *)
Definition generation_of (r : RegistryState) (key : ChallengeKey) : N := default 0 (generations r !! key).

Definition entry_is_valid (r : RegistryState) (key : ChallengeKey) (now : N) (entry : CachedToken) : bool :=
  (ct_generation entry =? generation_of r key) && (now <? ct_expires_at entry).

Definition remove_cached (r : RegistryState) (key : ChallengeKey) : RegistryState :=
  {| cache := delete key (cache r); flights := flights r; generations := generations r;
     last_key := last_key r |}.

Definition load (r : RegistryState) (key : ChallengeKey) (now : N) : RegistryState * option (list N) :=
  match cache r !! key with
  | Some entry => if entry_is_valid r key now entry then (r, Some (ct_token entry))
                  else (remove_cached r key, None)
  | None => (remove_cached r key, None)
  end.

Definition load_last (r : RegistryState) (now : N) : RegistryState * option (list N) :=
  match last_key r with
  | None => (r, None)
  | Some key => load r key now
  end.

Record LeaderGuard := { lg_generation : N; lg_flight : nat }.
Inductive Acquire := Leader (g : LeaderGuard) | Waiter (flight : nat).

(** [generations.entry(key).or_default()] writes the default back. *)
Definition acquire (s : Shared) (key : ChallengeKey) : Shared * Acquire :=
  let r := registry s in
  let generation := generation_of r key in
  let gens := <[key := generation]> (generations r) in
  match flights r !! key with
  | Some flight =>
      ({| registry := {| cache := cache r; flights := flights r; generations := gens;
                         last_key := last_key r |};
          outcomes := outcomes s |}, Waiter flight)
  | None =>
      let flight := length (outcomes s) in
      ({| registry := {| cache := cache r; flights := <[key := flight]> (flights r);
                         generations := gens; last_key := last_key r |};
          outcomes := outcomes s ++ [None] |},
       Leader {| lg_generation := generation; lg_flight := flight |})
  end.

Definition store_if_current (r : RegistryState) (key : ChallengeKey) (generation : N)
    (token : list N) (expires_at : N) : RegistryState * bool :=
  if negb (generation_of r key =? generation) then (r, false)
  else ({| cache := <[key := {| ct_token := token; ct_generation := generation;
                                ct_expires_at := expires_at |}]> (cache r);
           flights := flights r; generations := generations r; last_key := Some key |}, true).

(** The critical section of [invalidate]; the flight it returns is completed
    with [Cancelled] afterwards. *)
Definition invalidate_section (r : RegistryState) (key : ChallengeKey) : RegistryState * option nat :=
  let generation := N.min (generation_of r key + 1) (u64_bound - 1) in
  ({| cache := delete key (cache r); flights := delete key (flights r);
      generations := <[key := generation]> (generations r); last_key := last_key r |},
   flights r !! key).

(** The critical section of [finish]: whether the flight was removed. *)
Definition finish_section (r : RegistryState) (key : ChallengeKey) (g : LeaderGuard)
    : RegistryState * bool :=
  let same_flight := bool_decide (flights r !! key = Some (lg_flight g)) in
  let same_generation := generation_of r key =? lg_generation g in
  if same_flight && same_generation
  then ({| cache := cache r; flights := delete key (flights r); generations := generations r;
           last_key := last_key r |}, true)
  else (r, false).

(** [Flight::outcome], and the critical section of [Flight::complete]: whether
    the outcome changed, so that the waiters must be notified. *)
Definition flight_outcome (s : Shared) (f : nat) : option FlightOutcome := mjoin (outcomes s !! f).
Definition complete_section (s : Shared) (f : nat) (o : FlightOutcome) : Shared * bool :=
  match flight_outcome s f with
  | None => ({| registry := registry s; outcomes := <[f := Some o]> (outcomes s) |}, true)
  | Some _ => (s, false)
  end.

(** ** Tasks *)

(** What a task does after finishing a flight: go round the loop, or end. *)
Inductive TaskResult :=
| Token (token : list N)
| Error (e : OciError)
| Ended.
Inductive After := Again | End (r : TaskResult).

(** Program points of a task.  [Joining f]: a waiter before [notify.notified()];
    [Waiting f woken]: the [Notified] future exists but the outcome is not checked
    yet; [Asleep f woken]: [notified.await]. *)
Inductive Point :=
| LoopHead
| Acquiring
| Recheck (g : LeaderGuard)
| Fetching (g : LeaderGuard)
| Storing (g : LeaderGuard) (token : list N) (expires_at : N)
| Finishing (g : LeaderGuard) (o : FlightOutcome) (a : After)
| Peeking (f : nat) (o : FlightOutcome) (a : After)
| Completing (f : nat) (o : FlightOutcome) (a : After)
| Notifying (f : nat) (a : After)
| Joining (f : nat)
| Waiting (f : nat) (woken : bool)
| Asleep (f : nat) (woken : bool)
| Invalidating (a : After)
| Finished (r : TaskResult).

Definition resume (a : After) : Point := match a with Again => LoopHead | End r => Finished r end.

(** What the environment gives a task: a reply of the token server, the decision
    to drop the task, or nothing. *)
Inductive Input := Go | Reply (token : list N) (ttl : N) | Refuse (e : OciError) | Drop.

Definition with_registry (s : Shared) (r : RegistryState) : Shared :=
  {| registry := r; outcomes := outcomes s |}.

(** What a waiter does with the outcome it read. *)
Definition after_wait (o : FlightOutcome) : Point :=
  match o with
  | Succeeded | Cancelled => LoopHead
  | Failed => Finished (Error (OciToken FlightFailed))
  end.

(** One step of one task, apart from the wake-up of the others.  A task can be
    dropped only where it awaits: its guard then finishes as [Cancelled]. *)
Definition task_step (now : N) (key : ChallengeKey) (s : Shared) (p : Point) (i : Input)
    : option (Shared * Point) :=
  match p, i with
  | LoopHead, Go =>
      let '(r, found) := load (registry s) key now in
      Some (with_registry s r, match found with Some t => Finished (Token t) | None => Acquiring end)
  | Acquiring, Go =>
      let '(s, a) := acquire s key in
      Some (s, match a with Leader g => Recheck g | Waiter f => Joining f end)
  | Recheck g, Go =>
      let '(r, found) := load (registry s) key now in
      Some (with_registry s r,
            match found with Some t => Finishing g Succeeded (End (Token t)) | None => Fetching g end)
  | Fetching g, Reply token ttl => Some (s, Storing g token (now + ttl))
  | Fetching g, Refuse e => Some (s, Finishing g Failed (End (Error e)))
  | Fetching g, Drop => Some (s, Finishing g Cancelled (End Ended))
  | Storing g token expires_at, Go =>
      let '(r, stored) := store_if_current (registry s) key (lg_generation g) token expires_at in
      Some (with_registry s r,
            if stored then Finishing g Succeeded (End (Token token)) else Finishing g Cancelled Again)
  | Finishing g o a, Go =>
      let '(r, removed) := finish_section (registry s) key g in
      Some (with_registry s r,
            if removed then Completing (lg_flight g) o a else Peeking (lg_flight g) o a)
  | Peeking f o a, Go =>
      Some (s, match flight_outcome s f with None => Completing f o a | Some _ => resume a end)
  | Completing f o a, Go =>
      let '(s, changed) := complete_section s f o in
      Some (s, if changed then Notifying f a else resume a)
  | Joining f, Go => Some (s, Waiting f false)
  | Waiting f woken, Go =>
      Some (s, match flight_outcome s f with Some o => after_wait o | None => Asleep f woken end)
  | Asleep f true, Go => Some (s, after_wait (default Cancelled (flight_outcome s f)))
  | Asleep f _, Drop => Some (s, Finished Ended)
  | Invalidating a, Go =>
      let '(r, flight) := invalidate_section (registry s) key in
      Some (with_registry s r,
            match flight with Some f => Completing f Cancelled a | None => resume a end)
  | _, _ => None
  end.

(** [notify_waiters] wakes every [Notified] future that exists. *)
Definition wake (f : nat) (p : Point) : Point :=
  match p with
  | Waiting f' woken => Waiting f' (bool_decide (f' = f) || woken)
  | Asleep f' woken => Asleep f' (bool_decide (f' = f) || woken)
  | p => p
  end.

Record Task := { t_key : ChallengeKey; t_point : Point }.
Record Config := { now : N; shared : Shared; tasks : gmap nat Task }.

Definition at_point (t : Task) (p : Point) : Task := {| t_key := t_key t; t_point := p |}.

(** The last step of [Flight::complete], which reaches the other tasks. *)
Definition notifies (p : Point) (i : Input) : option (nat * After) :=
  match p, i with Notifying f a, Go => Some (f, a) | _, _ => None end.

Definition config_step (c : Config) (id : nat) (i : Input) : option Config :=
  t ← tasks c !! id;
  match notifies (t_point t) i with
  | Some (f, a) =>
      Some {| now := now c; shared := shared c;
              tasks := <[id := at_point t (resume a)]>
                         ((λ t, at_point t (wake f (t_point t))) <$> tasks c) |}
  | None =>
      '(s, p) ← task_step (now c) (t_key t) (shared c) (t_point t) i;
      Some {| now := now c; shared := s; tasks := <[id := at_point t p]> (tasks c) |}
  end.

(** How a task starts: [get_token], [refresh_token] or [invalidate]. *)
Inductive Request := Get | Refresh | Invalidate.
Definition entry_point (q : Request) : Point :=
  match q with
  | Get => LoopHead
  | Refresh => Invalidating Again
  | Invalidate => Invalidating (End Ended)
  end.

Inductive step : Config → Config → Prop :=
| step_task c id i c' : config_step c id i = Some c' → step c c'
| step_clock c d : step c {| now := now c + d; shared := shared c; tasks := tasks c |}
| step_spawn c id key q :
    tasks c !! id = None →
    step c {| now := now c; shared := shared c;
              tasks := <[id := {| t_key := key; t_point := entry_point q |}]> (tasks c) |}.

Definition initial : Config := {| now := 0; shared := FlightRegistry_new; tasks := ∅ |}.
Definition reachable (c : Config) : Prop := rtc step initial c.

(** ** Facts: the critical sections *)

Definition max_generation : N := u64_bound - 1.

Lemma load_frame r key now0 r' t :
  load r key now0 = (r', t) →
  flights r' = flights r ∧ generations r' = generations r ∧ last_key r' = last_key r ∧
  (∀ k e, cache r' !! k = Some e → cache r !! k = Some e).
Proof.
  unfold load. intros Hl.
  assert (Hrem : flights (remove_cached r key) = flights r ∧
    generations (remove_cached r key) = generations r ∧ last_key (remove_cached r key) = last_key r ∧
    ∀ k e, cache (remove_cached r key) !! k = Some e → cache r !! k = Some e).
  { split_and!; try done. simpl. intros k e. rewrite lookup_delete_Some. tauto. }
  repeat case_match; simplify_eq; auto.
Qed.

Lemma load_some r key now0 r' t :
  load r key now0 = (r', Some t) →
  ∃ e, cache r !! key = Some e ∧ ct_token e = t ∧ ct_generation e = generation_of r key ∧
       now0 < ct_expires_at e.
Proof.
  unfold load. destruct (cache r !! key) as [e|]; [|done]. unfold entry_is_valid.
  destruct (_ && _) eqn:Hv; [|done]. intros [= <- <-]. exists e.
  apply andb_true_iff in Hv as [?%N.eqb_eq ?%N.ltb_lt]. done.
Qed.

Lemma generation_insert r c' f' key k g l :
  generation_of {| cache := c'; flights := f'; generations := <[key := g]> (generations r);
                   last_key := l |} k
  = if decide (k = key) then g else generation_of r k.
Proof.
  unfold generation_of. simpl. destruct (decide (k = key)) as [->|].
  - by rewrite lookup_insert_eq.
  - by rewrite lookup_insert_ne.
Qed.

Lemma flight_outcome_lt s f : flight_outcome s f ≠ None → (f < length (outcomes s))%nat.
Proof.
  unfold flight_outcome. intros Hne. apply lookup_lt_is_Some. by destruct (outcomes s !! f).
Qed.

(** ** Facts: who is in charge of a flight *)

Definition leads (p : Point) : option LeaderGuard :=
  match p with
  | Recheck g | Fetching g | Storing g _ _ | Finishing g _ _ => Some g
  | _ => None
  end.

(** How many of its own steps a task is away from having notified the waiters
    of [f]; 0 when it has nothing to do with completing [f]. *)
Definition rank (f : nat) (p : Point) : nat :=
  match p with
  | Recheck g => if decide (lg_flight g = f) then 7 else 0
  | Fetching g => if decide (lg_flight g = f) then 6 else 0
  | Storing g _ _ => if decide (lg_flight g = f) then 5 else 0
  | Finishing g _ _ => if decide (lg_flight g = f) then 4 else 0
  | Peeking f' _ _ => if decide (f' = f) then 3 else 0
  | Completing f' _ _ => if decide (f' = f) then 2 else 0
  | Notifying f' _ => if decide (f' = f) then 1 else 0
  | _ => 0
  end.

Lemma leads_wake f p : leads (wake f p) = leads p.
Proof. by destruct p. Qed.
Lemma rank_wake f f' p : rank f (wake f' p) = rank f p.
Proof. by destruct p. Qed.
Lemma leads_resume a : leads (resume a) = None.
Proof. by destruct a. Qed.
Lemma rank_resume f a : rank f (resume a) = 0%nat.
Proof. by destruct a. Qed.
Lemma leads_after_wait o : leads (after_wait o) = None.
Proof. by destruct o. Qed.
Lemma rank_after_wait f o : rank f (after_wait o) = 0%nat.
Proof. by destruct o. Qed.
Lemma leads_entry q : leads (entry_point q) = None.
Proof. by destruct q. Qed.
Lemma rank_entry f q : rank f (entry_point q) = 0%nat.
Proof. by destruct q. Qed.
Lemma leads_rank p g : leads p = Some g → (4 ≤ rank (lg_flight g) p)%nat.
Proof. destruct p; simpl; try done; intros [= ->]; rewrite decide_True by done; lia. Qed.

(** The kinds of steps a task makes, as far as flights are concerned. *)
Inductive effect (key : ChallengeKey) (s : Shared) (p : Point) : Shared → Point → Prop :=
| eff_quiet s' p' :
    outcomes s' = outcomes s → flights (registry s') = flights (registry s) →
    (∀ k, generation_of (registry s') k = generation_of (registry s) k) →
    (leads p' = leads p ∨
     leads p' = None ∧ ∀ g, leads p = Some g →
       ¬ (flights (registry s) !! key = Some (lg_flight g) ∧
          generation_of (registry s) key = lg_generation g)) →
    (∀ f, (rank f p' = 0 ∨ rank f p' < rank f p)%nat) →
    (∀ f, (2 ≤ rank f p)%nat → (2 ≤ rank f p')%nat ∨ flight_outcome s f ≠ None) →
    (∀ f, (rank f p = 1)%nat → False) →
    (∀ f, p' = Asleep f false → flight_outcome s f = None ∨ p = Asleep f false) →
    effect key s p s' p'
| eff_acquire r' g :
    p = Acquiring → flights (registry s) !! key = None →
    lg_flight g = length (outcomes s) → lg_generation g = generation_of (registry s) key →
    flights r' = <[key := lg_flight g]> (flights (registry s)) →
    (∀ k, generation_of r' k = generation_of (registry s) k) →
    effect key s p {| registry := r'; outcomes := outcomes s ++ [None] |} (Recheck g)
| eff_finish r' g o a :
    p = Finishing g o a → flights (registry s) !! key = Some (lg_flight g) →
    flights r' = delete key (flights (registry s)) →
    (∀ k, generation_of r' k = generation_of (registry s) k) →
    effect key s p (with_registry s r') (Completing (lg_flight g) o a)
| eff_complete f o a :
    p = Completing f o a → flight_outcome s f = None →
    effect key s p {| registry := registry s; outcomes := <[f := Some o]> (outcomes s) |}
      (Notifying f a)
| eff_invalidate r' a p' :
    p = Invalidating a → flights r' = delete key (flights (registry s)) →
    generation_of r' key = N.min (generation_of (registry s) key + 1) max_generation →
    (∀ k, k ≠ key → generation_of r' k = generation_of (registry s) k) →
    p' = match flights (registry s) !! key with
         | Some f => Completing f Cancelled a
         | None => resume a
         end →
    effect key s p (with_registry s r') p'.

Lemma rank_resume_lt f a p : (rank f (resume a) = 0 ∨ rank f (resume a) < rank f p)%nat.
Proof. left. apply rank_resume. Qed.
Lemma rank_after_wait_lt f o p : (rank f (after_wait o) = 0 ∨ rank f (after_wait o) < rank f p)%nat.
Proof. left. apply rank_after_wait. Qed.
#[local] Hint Resolve rank_resume_lt rank_after_wait_lt : core.

Lemma load_effect s key now0 r' t :
  load (registry s) key now0 = (r', t) →
  flights r' = flights (registry s) ∧ ∀ k, generation_of r' k = generation_of (registry s) k.
Proof. intros (Hf & Hg & _)%load_frame. unfold generation_of. by rewrite Hf, Hg. Qed.

Ltac quiet_rank :=
  intros; simpl in *; repeat case_decide; simplify_eq; try (left; done); try (right; lia);
  try lia; try done.

Lemma quiet_step key s p r' p' :
  flights r' = flights (registry s) → (∀ k, generation_of r' k = generation_of (registry s) k) →
  leads p' = leads p → (∀ f, (rank f p' = 0 ∨ rank f p' < rank f p)%nat) →
  (∀ f, (2 ≤ rank f p → 2 ≤ rank f p')%nat) → (∀ f, rank f p ≠ 1%nat) →
  (∀ f, p' ≠ Asleep f false) →
  effect key s p (with_registry s r') p'.
Proof.
  intros Hf Hg Hl Hr Hr2 Hr1 Ha. apply eff_quiet; try done; auto.
  intros f ?. by destruct (Ha f).
Qed.

Lemma task_step_effect n key s p i s' p' :
  task_step n key s p i = Some (s', p') → effect key s p s' p'.
Proof.
  intros Hs. destruct s as [reg outs] eqn:Es. rewrite <-Es in *.
  assert (Hself : with_registry s (registry s) = s) by (by subst s).
  destruct p as [| |g|g|g token ex|g o a|f o a|f o a|f a|f|f w|f w|a|res]; destruct i; simpl in Hs;
    try done; try (by destruct w).
  - destruct (load _ _ _) as [r' t] eqn:El. injection Hs as <- <-.
    apply load_effect in El as [Hlf Hlg]. apply quiet_step; try done; destruct t; quiet_rank.
  - unfold acquire in Hs. destruct (flights (registry s) !! key) as [f|] eqn:Ef.
    + injection Hs as <- <-. apply (quiet_step _ _ _ _ (Joining f)); simpl; quiet_rank.
      rewrite generation_insert. by case_decide; subst.
    + injection Hs as <- <-. eapply eff_acquire; try done.
      intros k. rewrite generation_insert. by case_decide; subst.
  - destruct (load _ _ _) as [r' t] eqn:El. injection Hs as <- <-.
    apply load_effect in El as [Hlf Hlg]. apply quiet_step; try done; destruct t; quiet_rank.
  - injection Hs as <- <-. rewrite <-Hself at 2. apply quiet_step; try done; quiet_rank.
  - injection Hs as <- <-. rewrite <-Hself at 2. apply quiet_step; try done; quiet_rank.
  - injection Hs as <- <-. rewrite <-Hself at 2. apply quiet_step; try done; quiet_rank.
  - unfold store_if_current in Hs. destruct (negb _); injection Hs as <- <-;
      apply quiet_step; try done; quiet_rank.
  - unfold finish_section in Hs. destruct (bool_decide _ && _) eqn:Eb; injection Hs as <- <-.
    + apply andb_true_iff in Eb as [?%bool_decide_eq_true ?]. by eapply eff_finish.
    + rewrite Hself. apply eff_quiet; try done; [|quiet_rank..].
      right. split; [done|]. intros g' [= <-] [Hfl Hge]. rewrite Hfl, Hge in Eb.
      by rewrite bool_decide_eq_true_2, N.eqb_refl in Eb.
  - destruct (flight_outcome s f) as [o'|] eqn:Eo; injection Hs as <- <-.
    + apply eff_quiet; try done; [left; by rewrite leads_resume| |quiet_rank|by destruct a].
      intros f'. simpl. case_decide; [subst|lia]. intros _. right. by rewrite Eo.
    + rewrite <-Hself at 2. apply quiet_step; try done; quiet_rank.
  - unfold complete_section in Hs. destruct (flight_outcome s f) as [o'|] eqn:Eo; injection Hs as <- <-.
    + apply eff_quiet; try done; [left; by rewrite leads_resume| |quiet_rank|by destruct a].
      intros f'. simpl. case_decide; [subst|lia]. intros _. right. by rewrite Eo.
    + by apply eff_complete.
  - injection Hs as <- <-. rewrite <-Hself at 2. apply quiet_step; try done; quiet_rank.
  - injection Hs as <- <-. apply eff_quiet; try done; [| |quiet_rank..|].
    + left. destruct (flight_outcome s f); [by rewrite leads_after_wait|done].
    + intros f'. destruct (flight_outcome s f); [auto|by left].
    + intros f' Heq. destruct (flight_outcome s f) as [[]|] eqn:Eo; simplify_eq/=. by left.
  - destruct w; [|done]. injection Hs as <- <-. apply eff_quiet; try done; [|quiet_rank..|].
    + left. by rewrite leads_after_wait.
    + intros f' Heq. by destruct (flight_outcome s f) as [[]|].
  - destruct w; injection Hs as <- <-; rewrite <-Hself at 2; apply quiet_step; try done; quiet_rank.
  - injection Hs as <- <-. eapply eff_invalidate; try done.
    + rewrite generation_insert, decide_True by done. done.
    + intros k Hk. by rewrite generation_insert, decide_False.
Qed.

Lemma config_step_inv c id i c' :
  config_step c id i = Some c' →
  ∃ t, tasks c !! id = Some t ∧ now c' = now c ∧
    ((∃ p', task_step (now c) (t_key t) (shared c) (t_point t) i = Some (shared c', p') ∧
        effect (t_key t) (shared c) (t_point t) (shared c') p' ∧
        tasks c' = <[id := at_point t p']> (tasks c)) ∨
     (∃ f a, t_point t = Notifying f a ∧ shared c' = shared c ∧
        tasks c' = <[id := at_point t (resume a)]>
                     ((λ t, at_point t (wake f (t_point t))) <$> tasks c))).
Proof.
  unfold config_step. intros Hs. destruct (tasks c !! id) as [t|] eqn:Ht; [|done].
  cbn [mbind option_bind] in Hs. exists t. split; [done|].
  destruct (notifies (t_point t) i) as [[f a]|] eqn:En.
  - injection Hs as <-. simpl. split; [done|]. right. exists f, a. split; [|done].
    destruct (t_point t), i; try done. by injection En as -> ->.
  - destruct (task_step _ _ _ _ _) as [[s p']|] eqn:Hts; [|done]. injection Hs as <-. simpl.
    split; [done|]. left. exists p'. split; [done|]. split; [|done]. by eapply task_step_effect.
Qed.

(** ** The invariant *)

Record flight_inv (c : Config) : Prop := {
  inv_lt : ∀ id t g, tasks c !! id = Some t → leads (t_point t) = Some g →
    (lg_flight g < length (outcomes (shared c)))%nat;
  inv_unique : ∀ id1 id2 t1 t2 g1 g2, tasks c !! id1 = Some t1 → tasks c !! id2 = Some t2 →
    leads (t_point t1) = Some g1 → leads (t_point t2) = Some g2 →
    lg_flight g1 = lg_flight g2 → id1 = id2;
  inv_lead : ∀ id t g, tasks c !! id = Some t → leads (t_point t) = Some g →
    let r := registry (shared c) in
    flights r !! t_key t = Some (lg_flight g) ∧ lg_generation g = generation_of r (t_key t) ∨
    flights r !! t_key t ≠ Some (lg_flight g) ∧ lg_generation g ≤ generation_of r (t_key t) ∧
    (lg_generation g < generation_of r (t_key t) ∨ generation_of r (t_key t) = max_generation);
  inv_reg : ∀ k f, flights (registry (shared c)) !! k = Some f →
    ∃ id t g, tasks c !! id = Some t ∧ t_key t = k ∧ leads (t_point t) = Some g ∧ lg_flight g = f;
  inv_gen : ∀ k, generation_of (registry (shared c)) k ≤ max_generation;
  inv_owner : ∀ f, outcomes (shared c) !! f = Some None →
    ∃ id t, tasks c !! id = Some t ∧ (2 ≤ rank f (t_point t))%nat;
  inv_sleep : ∀ id t f, tasks c !! id = Some t → t_point t = Asleep f false →
    flight_outcome (shared c) f ≠ None →
    ∃ id' t' a, tasks c !! id' = Some t' ∧ t_point t' = Notifying f a }.

Lemma initial_inv : flight_inv initial.
Proof. split; simpl; try (intros *; by rewrite lookup_empty); done. Qed.

(** A step of task [id] to point [p']. *)
Definition moved (c : Config) (id : nat) (t : Task) (s' : Shared) (p' : Point) (c' : Config) : Prop :=
  tasks c !! id = Some t ∧ shared c' = s' ∧ tasks c' = <[id := at_point t p']> (tasks c).

Lemma moved_lookup c id t s' p' c' id1 t1 :
  moved c id t s' p' c' → tasks c' !! id1 = Some t1 →
  id1 = id ∧ t1 = at_point t p' ∨ id1 ≠ id ∧ tasks c !! id1 = Some t1.
Proof. intros (_ & _ & ->) [[-> <-]|[? ?]]%lookup_insert_Some; auto. Qed.

Lemma moved_self c id t s' p' c' :
  moved c id t s' p' c' → tasks c' !! id = Some (at_point t p').
Proof. intros (_ & _ & ->). by rewrite lookup_insert_eq. Qed.

Lemma moved_other c id t s' p' c' id1 :
  moved c id t s' p' c' → id1 ≠ id → tasks c' !! id1 = tasks c !! id1.
Proof. intros (_ & _ & ->) ?. by rewrite lookup_insert_ne. Qed.

Lemma outcome_none s f :
  outcomes s !! f = Some None → flight_outcome s f = None.
Proof. unfold flight_outcome. by intros ->. Qed.

Lemma quiet_inv c id t s' p' c' :
  flight_inv c → moved c id t s' p' c' →
  outcomes s' = outcomes (shared c) → flights (registry s') = flights (registry (shared c)) →
  (∀ k, generation_of (registry s') k = generation_of (registry (shared c)) k) →
  (leads p' = leads (t_point t) ∨
   leads p' = None ∧ ∀ g, leads (t_point t) = Some g →
     ¬ (flights (registry (shared c)) !! t_key t = Some (lg_flight g) ∧
        generation_of (registry (shared c)) (t_key t) = lg_generation g)) →
  (∀ f, (2 ≤ rank f (t_point t))%nat → (2 ≤ rank f p')%nat ∨ flight_outcome (shared c) f ≠ None) →
  (∀ f, rank f (t_point t) ≠ 1%nat) →
  (∀ f, p' = Asleep f false → flight_outcome (shared c) f = None ∨ t_point t = Asleep f false) →
  flight_inv c'.
Proof.
  intros I M Ho Hf Hg Hl Hr2 Hr1 Ha.
  pose proof M as (Ht & Hs' & Htk). set (L := λ id1 t1, moved_lookup c id t s' p' c' id1 t1 M).
  assert (Hlead : ∀ id1 t1 g, tasks c' !! id1 = Some t1 → leads (t_point t1) = Some g →
    ∃ t0, tasks c !! id1 = Some t0 ∧ t_key t0 = t_key t1 ∧ leads (t_point t0) = Some g).
  { intros id1 t1 g H1 H2. destruct (L _ _ H1) as [[-> ->]|[? ?]]; [|by exists t1].
    simpl in H2. exists t. destruct Hl as [Hl|[Hl _]]; [by rewrite <-Hl|congruence]. }
  split; rewrite ?Hs', ?Ho, ?Hf.
  - intros id1 t1 g H1 H2. destruct (Hlead _ _ _ H1 H2) as (? & ? & _ & ?). by eapply inv_lt.
  - intros id1 id2 t1 t2 g1 g2 H1 H2 H3 H4.
    destruct (Hlead _ _ _ H1 H3) as (? & ? & _ & ?), (Hlead _ _ _ H2 H4) as (? & ? & _ & ?).
    by eapply inv_unique.
  - intros id1 t1 g H1 H2. simpl. rewrite !Hg, ?Hs', ?Hf.
    destruct (Hlead _ _ _ H1 H2) as (t0 & ? & <- & ?). by eapply inv_lead.
  - intros k f Hk. destruct (inv_reg c I k f Hk) as (id1 & t1 & g & H1 & H2 & H3 & H4).
    destruct (decide (id1 = id)) as [->|Hne].
    + simplify_eq. exists id, (at_point t p'), g. rewrite (moved_self _ _ _ _ _ _ M). simpl.
      destruct Hl as [->|[_ Hl]]; [done|]. destruct (Hl g H3).
      destruct (inv_lead c I id t g) as [[? ?]|[? _]]; done.
    + exists id1, t1, g. by rewrite (moved_other _ _ _ _ _ _ _ M Hne).
  - intros k. rewrite Hg. by apply inv_gen.
  - intros f Hf0. destruct (inv_owner c I f Hf0) as (id1 & t1 & H1 & H2).
    destruct (decide (id1 = id)) as [->|Hne].
    + simplify_eq. exists id, (at_point t p'). split; [by eapply moved_self|]. simpl.
      destruct (Hr2 f H2) as [|[]]; [done|]. by apply outcome_none.
    + exists id1, t1. by rewrite (moved_other _ _ _ _ _ _ _ M Hne).
  - intros id1 t1 f H1 H2 H3.
    assert (H3' : flight_outcome (shared c) f ≠ None) by (unfold flight_outcome in *; by rewrite Ho in H3).
    assert (∃ id' t' a, tasks c !! id' = Some t' ∧ t_point t' = Notifying f a) as (id' & t' & a & H4 & H5).
    { destruct (L _ _ H1) as [[-> ->]|[? ?]]; [|by eapply inv_sleep]. simpl in H2.
      destruct (Ha f H2) as [|]; [done|]. by eapply inv_sleep. }
    exists id', t', a. rewrite (moved_other _ _ _ _ _ _ _ M); [done|]. intros ->. simplify_eq.
    apply (Hr1 f). rewrite H5. simpl. by rewrite decide_True.
Qed.

Lemma acquire_inv c id t r' g c' :
  flight_inv c →
  moved c id t {| registry := r'; outcomes := outcomes (shared c) ++ [None] |} (Recheck g) c' →
  t_point t = Acquiring → flights (registry (shared c)) !! t_key t = None →
  lg_flight g = length (outcomes (shared c)) →
  lg_generation g = generation_of (registry (shared c)) (t_key t) →
  flights r' = <[t_key t := lg_flight g]> (flights (registry (shared c))) →
  (∀ k, generation_of r' k = generation_of (registry (shared c)) k) →
  flight_inv c'.
Proof.
  intros I M Hp Hnone Hlen Hgen Hf Hg. pose proof M as (Ht & Hs' & Htk).
  set (L := λ id1 t1, moved_lookup c id t _ _ c' id1 t1 M).
  assert (Hold : ∀ f, (f < length (outcomes (shared c)))%nat →
    (outcomes (shared c) ++ [None]) !! f = outcomes (shared c) !! f).
  { intros f ?. by rewrite lookup_app_l. }
  split; rewrite ?Hs'; simpl; rewrite ?Hf.
  - intros id1 t1 g1 H1 H2. rewrite length_app. simpl.
    destruct (L _ _ H1) as [[-> ->]|[? ?]]; [simplify_eq/=; lia|].
    pose proof (inv_lt c I id1 t1 g1). naive_solver lia.
  - intros id1 id2 t1 t2 g1 g2 H1 H2 H3 H4 H5.
    destruct (L _ _ H1) as [[-> ->]|[? ?]], (L _ _ H2) as [[-> ->]|[? ?]]; simplify_eq/=; try done.
    + pose proof (inv_lt c I id2 t2 g2). naive_solver lia.
    + pose proof (inv_lt c I id1 t1 g1). naive_solver lia.
    + by eapply (inv_unique c I id1 id2).
  - intros id1 t1 g1 H1 H2. rewrite ?Hs'. simpl. rewrite ?Hf, !Hg.
    destruct (L _ _ H1) as [[-> ->]|[? ?]].
    + simplify_eq/=. left. by rewrite lookup_insert_eq.
    + pose proof (inv_lead c I id1 t1 g1) as HL. pose proof (inv_lt c I id1 t1 g1) as HT.
      simpl in HL. destruct (decide (t_key t = t_key t1)) as [Hk|Hk].
      * rewrite Hk, lookup_insert_eq. rewrite Hk in Hnone. destruct HL as [[? _]|[_ ?]]; try done; [congruence|].
        right. split; [|done]. intros [= ?]. assert (lg_flight g1 < lg_flight g)%nat by (rewrite Hlen; auto). lia.
      * rewrite lookup_insert_ne by done. auto.
  - intros k f [[<- <-]|[? Hk]]%lookup_insert_Some.
    + exists id, (at_point t (Recheck g)), g. rewrite (moved_self _ _ _ _ _ _ M). done.
    + destruct (inv_reg c I k f Hk) as (id1 & t1 & g1 & H1 & H2 & H3 & H4).
      exists id1, t1, g1. rewrite (moved_other _ _ _ _ _ _ _ M); [done|].
      intros ->. by simplify_eq.
  - intros k. rewrite Hg. by apply inv_gen.
  - intros f Hf0. destruct (decide (f = lg_flight g)) as [->|Hne].
    + exists id, (at_point t (Recheck g)). rewrite (moved_self _ _ _ _ _ _ M). simpl.
      rewrite decide_True by done. split; [done|lia].
    + assert (f < length (outcomes (shared c)))%nat.
      { apply lookup_lt_Some in Hf0. rewrite length_app in Hf0. simpl in Hf0. lia. }
      rewrite Hold in Hf0 by done. destruct (inv_owner c I f Hf0) as (id1 & t1 & H1 & H2).
      exists id1, t1. rewrite (moved_other _ _ _ _ _ _ _ M); [done|].
      intros ->. simplify_eq. rewrite Hp in H2. simpl in H2. lia.
  - intros id1 t1 f H1 H2 H3. destruct (L _ _ H1) as [[-> ->]|[? ?]]; [done|].
    assert (flight_outcome (shared c) f ≠ None) as H3'.
    { unfold flight_outcome in *. simpl in H3. rewrite lookup_app in H3.
      destruct (outcomes (shared c) !! f); [done|].
      by destruct (f - length (outcomes (shared c)))%nat as [|[]]. }
    destruct (inv_sleep c I id1 t1 f) as (id' & t' & a & H4 & H5); try done.
    exists id', t', a. rewrite (moved_other _ _ _ _ _ _ _ M); [done|]. intros ->. congruence.
Qed.

(** A flight leaves the registry: by [finish], or by [invalidate]. *)
Lemma unregister_inv c id t r' p' c' :
  flight_inv c → moved c id t (with_registry (shared c) r') p' c' →
  leads p' = None → (∀ f, p' ≠ Asleep f false) →
  (∀ f, (2 ≤ rank f (t_point t) → 2 ≤ rank f p')%nat) → (∀ f, rank f (t_point t) ≠ 1%nat) →
  flights r' = delete (t_key t) (flights (registry (shared c))) →
  (∀ k, k ≠ t_key t → generation_of r' k = generation_of (registry (shared c)) k) →
  (∀ g, leads (t_point t) = Some g → flights (registry (shared c)) !! t_key t = Some (lg_flight g)) →
  (generation_of r' (t_key t) = generation_of (registry (shared c)) (t_key t) ∧
     is_Some (leads (t_point t)) ∨
   generation_of r' (t_key t) = N.min (generation_of (registry (shared c)) (t_key t) + 1) max_generation) →
  flight_inv c'.
Proof.
  intros I M Hnl Hna Hr2 Hr1 Hf Hgo Hlt Hgk. pose proof M as (Ht & Hs' & Htk).
  set (L := λ id1 t1, moved_lookup c id t _ _ c' id1 t1 M).
  assert (Hlead : ∀ id1 t1 g, tasks c' !! id1 = Some t1 → leads (t_point t1) = Some g →
    id1 ≠ id ∧ tasks c !! id1 = Some t1).
  { intros id1 t1 g H1 H2. destruct (L _ _ H1) as [[-> ->]|?]; [|done]. simpl in H2. congruence. }
  pose proof (inv_gen c I) as Hmax.
  split; rewrite ?Hs'; simpl; rewrite ?Hf.
  - intros id1 t1 g1 H1 H2. destruct (Hlead _ _ _ H1 H2). by eapply inv_lt.
  - intros id1 id2 t1 t2 g1 g2 H1 H2 H3 H4.
    destruct (Hlead _ _ _ H1 H3), (Hlead _ _ _ H2 H4). by eapply inv_unique.
  - intros id1 t1 g1 H1 H2. rewrite ?Hs'. simpl. rewrite ?Hf.
    destruct (Hlead _ _ _ H1 H2) as [Hne H3]. pose proof (inv_lead c I id1 t1 g1 H3 H2) as HL.
    simpl in HL. destruct (decide (t_key t1 = t_key t)) as [Hk|Hk].
    + rewrite Hk in *. right. rewrite lookup_delete_eq. split; [done|].
      destruct Hgk as [[Heq [g Hg]]| ->].
      * rewrite Heq. destruct HL as [[HL _]|[_ ?]]; [|done]. rewrite (Hlt g Hg) in HL.
        destruct Hne. injection HL as HL. symmetry. by eapply (inv_unique c I id id1).
      * specialize (Hmax (t_key t)). lia.
    + rewrite lookup_delete_ne, Hgo by done. done.
  - intros k f [Hk0 Hk]%lookup_delete_Some.
    destruct (inv_reg c I k f Hk) as (id1 & t1 & g1 & H1 & H2 & H3 & H4).
    exists id1, t1, g1. rewrite (moved_other _ _ _ _ _ _ _ M); [done|]. intros ->. simplify_eq.
  - intros k. destruct (decide (k = t_key t)) as [->|Hk]; [|by rewrite Hgo].
    destruct Hgk as [[-> _]| ->]; [done|lia].
  - intros f Hf0. destruct (inv_owner c I f Hf0) as (id1 & t1 & H1 & H2).
    destruct (decide (id1 = id)) as [->|Hne].
    + simplify_eq. exists id, (at_point t p'). split; [by eapply moved_self|]. simpl. by apply Hr2.
    + exists id1, t1. by rewrite (moved_other _ _ _ _ _ _ _ M Hne).
  - intros id1 t1 f H1 H2 H3. destruct (L _ _ H1) as [[-> ->]|[? ?]].
    + simpl in H2. by destruct (Hna f).
    + destruct (inv_sleep c I id1 t1 f) as (id' & t' & a & H4 & H5); try done.
      exists id', t', a. rewrite (moved_other _ _ _ _ _ _ _ M); [done|]. intros ->. simplify_eq.
      apply (Hr1 f). rewrite H5. simpl. by rewrite decide_True.
Qed.

Lemma complete_inv c id t f o a c' :
  flight_inv c →
  moved c id t {| registry := registry (shared c); outcomes := <[f := Some o]> (outcomes (shared c)) |}
    (Notifying f a) c' →
  t_point t = Completing f o a → flight_inv c'.
Proof.
  intros I M Hp. pose proof M as (Ht & Hs' & Htk).
  set (L := λ id1 t1, moved_lookup c id t _ _ c' id1 t1 M).
  assert (Hlead : ∀ id1 t1 g, tasks c' !! id1 = Some t1 → leads (t_point t1) = Some g →
    tasks c !! id1 = Some t1).
  { intros id1 t1 g H1 H2. by destruct (L _ _ H1) as [[-> ->]|[_ ?]]. }
  split; rewrite ?Hs'; simpl; rewrite ?Hs'; simpl.
  - intros id1 t1 g1 H1 H2. rewrite length_insert. apply (inv_lt c I id1 t1); eauto.
  - intros id1 id2 t1 t2 g1 g2 H1 H2 H3 H4. apply (inv_unique c I id1 id2 t1 t2 g1 g2); eauto.
  - intros id1 t1 g1 H1 H2. apply (inv_lead c I id1 t1 g1); eauto.
  - intros k f' Hk. destruct (inv_reg c I k f' Hk) as (id1 & t1 & g1 & H1 & H2 & H3 & H4).
    exists id1, t1, g1. rewrite (moved_other _ _ _ _ _ _ _ M); [done|]. intros ->. simplify_eq. by rewrite Hp in H3.
  - apply (inv_gen c I).
  - intros f'. destruct (decide (f = f')) as [<-|Hne].
    { destruct (outcomes (shared c) !! f) eqn:Hf.
      - rewrite list_lookup_insert_eq by (by eapply lookup_lt_Some). done.
      - rewrite list_insert_ge by (by apply lookup_ge_None). by rewrite Hf. }
    rewrite list_lookup_insert_ne by done. intros Hf0.
    destruct (inv_owner c I f' Hf0) as (id1 & t1 & H1 & H2).
    exists id1, t1. rewrite (moved_other _ _ _ _ _ _ _ M); [done|]. intros ->. simplify_eq.
    rewrite Hp in H2. simpl in H2. rewrite decide_False in H2 by done. lia.
  - intros id1 t1 f' H1 H2 H3. destruct (L _ _ H1) as [[-> ->]|[? ?]]; [done|].
    destruct (decide (f' = f)) as [->|Hne].
    + exists id, (at_point t (Notifying f a)), a. split; [by eapply moved_self|done].
    + unfold flight_outcome in H3. simpl in H3. rewrite list_lookup_insert_ne in H3 by done.
      destruct (inv_sleep c I id1 t1 f') as (id' & t' & a' & H4 & H5); try done.
      exists id', t', a'. rewrite (moved_other _ _ _ _ _ _ _ M); [done|]. intros ->. congruence.
Qed.

Lemma lookup_wake f (ts : gmap nat Task) id1 t1 :
  ((λ t, at_point t (wake f (t_point t))) <$> ts) !! id1 = Some t1 ↔
  ∃ t0, ts !! id1 = Some t0 ∧ t1 = at_point t0 (wake f (t_point t0)).
Proof. rewrite lookup_fmap, fmap_Some. naive_solver. Qed.

Lemma wake_asleep f p f' : wake f p = Asleep f' false → p = Asleep f' false ∧ f' ≠ f.
Proof.
  destruct p; simpl; try done. intros [= -> H]. apply orb_false_iff in H as [?%bool_decide_eq_false ->].
  done.
Qed.

Lemma notify_inv c id t f a c' :
  flight_inv c → tasks c !! id = Some t → t_point t = Notifying f a → shared c' = shared c →
  tasks c' = <[id := at_point t (resume a)]> ((λ t, at_point t (wake f (t_point t))) <$> tasks c) →
  flight_inv c'.
Proof.
  intros I Ht Hp Hs Htk.
  assert (L : ∀ id1 t1, tasks c' !! id1 = Some t1 →
    id1 = id ∧ t1 = at_point t (resume a) ∨
    id1 ≠ id ∧ ∃ t0, tasks c !! id1 = Some t0 ∧ t1 = at_point t0 (wake f (t_point t0))).
  { rewrite Htk. intros id1 t1 [[-> <-]|[? ?%lookup_wake]]%lookup_insert_Some; auto. }
  assert (K : ∀ id1 t0, id1 ≠ id → tasks c !! id1 = Some t0 →
    tasks c' !! id1 = Some (at_point t0 (wake f (t_point t0)))).
  { intros id1 t0 ? H. rewrite Htk, lookup_insert_ne, lookup_wake by done. eauto. }
  assert (Hlead : ∀ id1 t1 g, tasks c' !! id1 = Some t1 → leads (t_point t1) = Some g →
    ∃ t0, tasks c !! id1 = Some t0 ∧ t_key t0 = t_key t1 ∧ leads (t_point t0) = Some g).
  { intros id1 t1 g H1 H2. destruct (L _ _ H1) as [[-> ->]|(? & t0 & ? & ->)].
    - simpl in H2. by rewrite leads_resume in H2.
    - simpl in H2. rewrite leads_wake in H2. by exists t0. }
  split; rewrite ?Hs.
  - intros id1 t1 g H1 H2. destruct (Hlead _ _ _ H1 H2) as (? & ? & _ & ?). by eapply inv_lt.
  - intros id1 id2 t1 t2 g1 g2 H1 H2 H3 H4.
    destruct (Hlead _ _ _ H1 H3) as (? & ? & _ & ?), (Hlead _ _ _ H2 H4) as (? & ? & _ & ?).
    by eapply inv_unique.
  - intros id1 t1 g H1 H2. simpl. rewrite ?Hs.
    destruct (Hlead _ _ _ H1 H2) as (t0 & ? & <- & ?). by eapply inv_lead.
  - intros k f' Hk. destruct (inv_reg c I k f' Hk) as (id1 & t1 & g & H1 & H2 & H3 & H4).
    exists id1, (at_point t1 (wake f (t_point t1))), g. rewrite (K id1 t1); simpl.
    + by rewrite leads_wake.
    + intros ->. simplify_eq. by rewrite Hp in H3.
    + done.
  - apply (inv_gen c I).
  - intros f' Hf0. destruct (inv_owner c I f' Hf0) as (id1 & t1 & H1 & H2).
    exists id1, (at_point t1 (wake f (t_point t1))). rewrite (K id1 t1); simpl.
    + by rewrite rank_wake.
    + intros ->. simplify_eq. rewrite Hp in H2. simpl in H2. case_decide; lia.
    + done.
  - intros id1 t1 f' H1 H2 H3. destruct (L _ _ H1) as [[-> ->]|(? & t0 & H4 & ->)].
    { by destruct a. }
    apply wake_asleep in H2 as [H2 Hne].
    destruct (inv_sleep c I id1 t0 f' H4 H2 H3) as (id' & t' & a' & H5 & H6).
    exists id', (at_point t' (Notifying f' a')), a'. split; [|done].
    rewrite (K id' t'); [by rewrite H6|congruence|done].
Qed.

Lemma spawn_inv c id key q :
  flight_inv c → tasks c !! id = None →
  flight_inv {| now := now c; shared := shared c;
                tasks := <[id := {| t_key := key; t_point := entry_point q |}]> (tasks c) |}.
Proof.
  intros I Hid.
  assert (Hlead : ∀ id1 t1 g,
    <[id := {| t_key := key; t_point := entry_point q |}]> (tasks c) !! id1 = Some t1 →
    leads (t_point t1) = Some g → tasks c !! id1 = Some t1).
  { intros id1 t1 g [[_ <-]|[_ ?]]%lookup_insert_Some H2; [|done]. simpl in H2.
    by rewrite leads_entry in H2. }
  assert (K : ∀ id1 t1, tasks c !! id1 = Some t1 →
    <[id := {| t_key := key; t_point := entry_point q |}]> (tasks c) !! id1 = Some t1).
  { intros id1 t1 H1. rewrite lookup_insert_ne; [done|]. intros ->. congruence. }
  split; simpl.
  - intros id1 t1 g1 H1 H2. apply (inv_lt c I id1 t1); eauto.
  - intros id1 id2 t1 t2 g1 g2 H1 H2 H3 H4. apply (inv_unique c I id1 id2 t1 t2 g1 g2); eauto.
  - intros id1 t1 g1 H1 H2. apply (inv_lead c I id1 t1 g1); eauto.
  - intros k f' Hk. destruct (inv_reg c I k f' Hk) as (id1 & t1 & g & H1 & H2 & H3 & H4).
    exists id1, t1, g. auto.
  - apply (inv_gen c I).
  - intros f' Hf0. destruct (inv_owner c I f' Hf0) as (id1 & t1 & H1 & H2). eauto.
  - intros id1 t1 f [[_ <-]|[_ H1]]%lookup_insert_Some H2 H3; [by destruct q|].
    destruct (inv_sleep c I id1 t1 f H1 H2 H3) as (id' & t' & a' & H5 & H6). eauto 10.
Qed.

Lemma effect_inv c id t s' p' c' :
  flight_inv c → effect (t_key t) (shared c) (t_point t) s' p' → moved c id t s' p' c' →
  flight_inv c'.
Proof.
  intros I E M. destruct E as [s' p' Ho Hf Hg Hl Hr Hr2 Hr1 Ha|r' g Hp Hn Hlen Hgen Hf Hg
    |r' g o a Hp Hk Hf Hg|f o a Hp Hn|r' a p' Hp Hf Hg Hgo ->].
  - eapply (quiet_inv c id t); eauto.
  - eapply (acquire_inv c id t); eauto.
  - eapply (unregister_inv c id t); eauto; rewrite ?Hp; simpl.
    + intros f. repeat case_decide; lia.
    + intros f. case_decide; lia.
    + intros ? [= <-]. done.
    + left. eauto.
  - eapply (complete_inv c id t); eauto.
  - eapply (unregister_inv c id t); eauto; rewrite ?Hp; simpl; try done; try lia.
    + case_match; [done|apply leads_resume].
    + intros f. case_match; [done|by destruct a].
Qed.

Lemma step_inv c c' : flight_inv c → step c c' → flight_inv c'.
Proof.
  intros I H. destruct H as [c id i c' H|c d|c id key q Hid].
  - apply config_step_inv in H as (t & Ht & _ & [(p' & _ & E & Htk)|(f & a & Hp & Hs & Htk)]).
    + eapply effect_inv; [done..|]. by split_and!.
    + by eapply notify_inv.
  - by destruct I; split.
  - by apply spawn_inv.
Qed.

Lemma reachable_inv c : reachable c → flight_inv c.
Proof.
  intros H. unfold reachable in H. apply rtc_ind_r with (P := flight_inv) in H; [done| |].
  - apply initial_inv.
  - intros y z _ ? ?. by eapply step_inv.
Qed.

(** ** At most one current leader *)

(** C19: In every reachable configuration, two tasks that lead flights of the same key with the
    key's current generation are the same task (the generation counter saturates at [u64::MAX],
    and the statement is for the generations below it). *)
Theorem flight_single_leader c id1 id2 t1 t2 g1 g2 :
  reachable c → tasks c !! id1 = Some t1 → tasks c !! id2 = Some t2 →
  leads (t_point t1) = Some g1 → leads (t_point t2) = Some g2 → t_key t1 = t_key t2 →
  lg_generation g1 = generation_of (registry (shared c)) (t_key t1) →
  lg_generation g2 = generation_of (registry (shared c)) (t_key t1) →
  generation_of (registry (shared c)) (t_key t1) < max_generation → id1 = id2.
Proof.
  intros I%reachable_inv H1 H2 L1 L2 Hk G1 G2 Hlt.
  eapply (inv_unique c I id1 id2); [done..|].
  destruct (inv_lead c I id1 t1 g1 H1 L1) as [[F1 _]|(_ & _ & ?)]; [|lia].
  pose proof (inv_lead c I id2 t2 g2 H2 L2) as HL. rewrite <-Hk in HL. simpl in HL.
  destruct HL as [[F2 _]|(_ & _ & ?)]; [congruence|lia].
Qed.

(** ** A refresh discards what was fetched before it *)

Section Refresh.
Context (c1 : Config) (key : ChallengeKey) (n0 : nat) (gen0 : N).

  (** [token] came in reply to a leader elected once [n0] flights had been opened,
      in a step of an execution from [c1]. *)
Definition fetched_since (token : list N) (c : Config) : Prop :=
    ∃ id ttl ca cb t g, rtc step c1 ca ∧ tasks ca !! id = Some t ∧ t_key t = key ∧
      t_point t = Fetching g ∧ (n0 ≤ lg_flight g)%nat ∧
      config_step ca id (Reply token ttl) = Some cb ∧ rtc step cb c.

Lemma fetched_since_step token c c' : step c c' → fetched_since token c → fetched_since token c'.
  Proof.
    intros Hs (id & ttl & ca & cb & t & g & ? & ? & ? & ? & ? & ? & ?).
    exists id, ttl, ca, cb, t, g. split_and!; try done. by eapply rtc_r.
  Qed.

Record fresh_inv (c : Config) : Prop := {
    fr_run : rtc step c1 c;
    fr_gen : gen0 ≤ generation_of (registry (shared c)) key;
    fr_len : (n0 ≤ length (outcomes (shared c)))%nat;
    fr_lead : ∀ id t g, tasks c !! id = Some t → t_key t = key → leads (t_point t) = Some g →
      gen0 ≤ lg_generation g → (n0 ≤ lg_flight g)%nat;
    fr_store : ∀ id t g token e, tasks c !! id = Some t → t_key t = key →
      t_point t = Storing g token e → gen0 ≤ lg_generation g → fetched_since token c;
    fr_cache : ∀ e, cache (registry (shared c)) !! key = Some e → fetched_since (ct_token e) c }.

  (** What a step does to the cache, to generations and to leaders. *)
Lemma task_step_fresh n k s p i s' p' :
    task_step n k s p i = Some (s', p') →
    (∀ k', generation_of (registry s) k' ≤ generation_of (registry s') k' ∨
           max_generation < generation_of (registry s) k') ∧
    (length (outcomes s) ≤ length (outcomes s'))%nat ∧
    (∀ g, leads p' = Some g → leads p = Some g ∨ lg_flight g = length (outcomes s)) ∧
    (∀ g token e, p' = Storing g token e → p = Fetching g ∧ ∃ ttl, i = Reply token ttl) ∧
    (∀ k' e, cache (registry s') !! k' = Some e →
      cache (registry s) !! k' = Some e ∨
      k' = k ∧ ∃ g ex, p = Storing g (ct_token e) ex ∧ lg_generation g = generation_of (registry s) k).
  Proof.
    intros Hs. destruct p as [| |g|g|g token ex|g o a|f o a|f o a|f a|f|f w|f w|a|res]; destruct i;
      simpl in Hs; try done; try (by destruct w).
    - destruct (load _ _ _) as [r' t] eqn:El. injection Hs as <- <-. simpl.
      apply load_frame in El as (_ & Hg & _ & Hc). unfold generation_of. rewrite Hg.
      split_and!; [by left|done|by destruct t|by destruct t|eauto].
    - unfold acquire in Hs. destruct (flights _ !! k) as [f|] eqn:Ef; injection Hs as <- <-; simpl.
      + split_and!; [|done..|eauto]. intros k'. left. rewrite generation_insert. case_decide; [by subst|done].
      + split_and!; [|rewrite length_app; lia| |done|eauto].
        * intros k'. left. rewrite generation_insert. case_decide; [by subst|done].
        * intros g [= <-]. by right.
    - destruct (load _ _ _) as [r' t] eqn:El. injection Hs as <- <-. simpl.
      apply load_frame in El as (_ & Hg & _ & Hc). unfold generation_of. rewrite Hg.
      split_and!; [by left|done|destruct t; by left|by destruct t|eauto].
    - injection Hs as <- <-. simpl. split_and!; [by left|done|by left|intros ??? [= <- <- <-]; eauto|eauto].
    - injection Hs as <- <-. simpl. split_and!; eauto; try done; by left.
    - injection Hs as <- <-. simpl. split_and!; eauto; try done; by left.
    - unfold store_if_current in Hs. destruct (negb _) eqn:Eg; injection Hs as <- <-; simpl.
      + split_and!; eauto; try done; by left.
      + apply negb_false_iff, N.eqb_eq in Eg. split_and!; [by left|done|by left|done|].
        intros k' e. destruct (decide (k' = k)) as [->|]; [|rewrite lookup_insert_ne by done; auto].
        rewrite lookup_insert_eq. intros [= <-]. right. simpl. eauto.
    - unfold finish_section in Hs. destruct (_ && _); injection Hs as <- <-; simpl;
        (split_and!; eauto; try done; by left).
    - injection Hs as <- <-. simpl.
      split_and!; [by left|done|by destruct (flight_outcome s f), a|by destruct (flight_outcome s f), a|eauto].
    - unfold complete_section in Hs. destruct (flight_outcome s f) as [o'|] eqn:Eo; injection Hs as <- <-; simpl.
      + split_and!; [by left|done|by destruct a|by destruct a|eauto].
      + split_and!; [by left|by rewrite length_insert|done|done|eauto].
    - injection Hs as <- <-. simpl. split_and!; eauto; try done; by left.
    - injection Hs as <- <-. simpl.
      split_and!; [by left|done|by destruct (flight_outcome s f) as [[]|]|
        by destruct (flight_outcome s f) as [[]|]|eauto].
    - destruct w; [|done]. injection Hs as <- <-. simpl.
      split_and!; [by left|done|by destruct (flight_outcome s f) as [[]|]|
        by destruct (flight_outcome s f) as [[]|]|eauto].
    - destruct w; injection Hs as <- <-; simpl; (split_and!; eauto; try done; by left).
    - injection Hs as <- <-. simpl. split_and!; [|done|..].
      + intros k'. rewrite generation_insert. case_decide; [subst|by left]. unfold max_generation. lia.
      + by destruct (flights _ !! k), a.
      + by destruct (flights _ !! k), a.
      + intros k' e. rewrite lookup_delete_Some. intros [_ ?]. auto.
  Qed.

Lemma fresh_task c id i c' :
    flight_inv c → fresh_inv c → config_step c id i = Some c' → fresh_inv c'.
  Proof.
    intros I F Hs. pose proof (step_task _ _ _ _ Hs) as Hst.
    assert (Hrun : rtc step c1 c') by (eapply rtc_r; [apply F|done]).
    pose proof Hs as (t & Ht & _ & [(p' & Hts & _ & Htk)|(f & a & Hp & Hsh & Htk)])%config_step_inv.
    - apply task_step_fresh in Hts as (Hg & Hlen & Hl & Hstore & Hc). split; [done| | | | |].
      + pose proof (fr_gen c F). pose proof (inv_gen c I key). destruct (Hg key); lia.
      + pose proof (fr_len c F). lia.
      + rewrite Htk. intros id1 t1 g [[_ <-]|[_ ?]]%lookup_insert_Some; [|by eapply (fr_lead c F)].
        simpl. intros Hk Hg' ?. destruct (Hl g Hg') as [?| ->]; [by eapply (fr_lead c F id t)|apply F].
      + rewrite Htk. intros id1 t1 g token e [[_ <-]|[_ H1]]%lookup_insert_Some Hk Hp Hge.
        * simpl in *. destruct (Hstore _ _ _ Hp) as [Hf [ttl ->]].
          exists id, ttl, c, c', t, g. split_and!; try done; [apply F|].
          apply (fr_lead c F id t); [done..| |done]. by rewrite Hf.
        * eapply fetched_since_step; [done|]. by eapply (fr_store c F).
      + intros e He. eapply fetched_since_step; [done|].
        destruct (Hc key e He) as [?|(Hk & g & ex & Hp & Hge)]; [by apply F|].
        eapply (fr_store c F id t); [done..|]. rewrite Hge, <-Hk. apply F.
    - split; [done|rewrite Hsh; apply F|rewrite Hsh; apply F| | |].
      + rewrite Htk. intros id1 t1 g [[_ <-]|[_ (t0 & ? & ->)%lookup_wake]]%lookup_insert_Some; simpl.
        * by rewrite leads_resume.
        * rewrite leads_wake. by eapply (fr_lead c F id1).
      + rewrite Htk. intros id1 t1 g tok e [[_ <-]|[_ (t0 & ? & ->)%lookup_wake]]%lookup_insert_Some; simpl.
        * by destruct a.
        * intros Hk Hp' Hge. eapply fetched_since_step; [done|].
          eapply (fr_store c F id1 t0); [done..| |done]. by destruct (t_point t0).
      + rewrite Hsh. intros e He. eapply fetched_since_step; [done|]. by apply F.
  Qed.

Lemma fresh_step c c' : flight_inv c → fresh_inv c → step c c' → fresh_inv c'.
  Proof.
    intros I F Hst. pose proof (fresh_task c) as Htask. pose proof Hst as Hst'.
    destruct Hst as [c id i c' Hs|c d|c id k q Hid]; [by eapply Htask|..];
      (assert (rtc step c1 c) by apply F; split; simpl; [by eapply rtc_r|apply F|apply F|..]).
    - apply (fr_lead c F).
    - intros. eapply fetched_since_step; [done|]. by eapply (fr_store c F).
    - intros. eapply fetched_since_step; [done|]. by apply (fr_cache c F).
    - intros id1 t1 g [[_ <-]|[_ ?]]%lookup_insert_Some; [|by eapply (fr_lead c F id1)].
      simpl. by rewrite leads_entry.
    - intros id1 t1 g token e [[_ <-]|[_ ?]]%lookup_insert_Some Hk Hp ?; [by destruct q|].
      eapply fetched_since_step; [done|]. by eapply (fr_store c F).
    - intros. eapply fetched_since_step; [done|]. by apply (fr_cache c F).
  Qed.
End Refresh.

(** C20: Once [invalidate] (and so [refresh_token]) has run its critical section on a key, whatever
    is cached under the key in any later configuration, under any interleaving, was returned by
    the token server to a leader elected after it: no token fetched, or being fetched, when the
    refresh was made is served again. *)
Theorem refresh_discards_stale c id t a c1 c2 e :
  reachable c → tasks c !! id = Some t → t_point t = Invalidating a →
  generation_of (registry (shared c)) (t_key t) < max_generation →
  config_step c id Go = Some c1 → rtc step c1 c2 →
  cache (registry (shared c2)) !! t_key t = Some e →
  fetched_since c1 (t_key t) (length (outcomes (shared c1))) (ct_token e) c2.
Proof.
  intros I%reachable_inv Ht Hp Hlt Hs Hrun.
  set (key := t_key t). set (n0 := length _).
  pose proof (step_inv c c1 I (step_task _ _ _ _ Hs)) as I1.
  assert (F1 : fresh_inv c1 key n0 (generation_of (registry (shared c)) key + 1) c1).
  { unfold config_step in Hs. rewrite Ht in Hs. cbn [mbind option_bind] in Hs. rewrite Hp in Hs.
    simpl in Hs. injection Hs as <-. split; simpl; [done| |done|..].
    - rewrite generation_insert, decide_True by done. unfold max_generation in *. subst key. lia.
    - intros id1 t1 g [[_ <-]|[_ H1]]%lookup_insert_Some; simpl.
      + by destruct (flights _ !! t_key t), a.
      + intros Hk Hl Hge. pose proof (inv_lead c I id1 t1 g H1 Hl) as HL. simpl in HL.
        rewrite Hk in HL. lia.
    - intros id1 t1 g token ex [[_ <-]|[_ H1]]%lookup_insert_Some; simpl.
      + by destruct (flights _ !! t_key t), a.
      + intros Hk Hst Hge. assert (Hl : leads (t_point t1) = Some g) by (by rewrite Hst).
        pose proof (inv_lead c I id1 t1 g H1 Hl) as HL. simpl in HL. rewrite Hk in HL. lia.
    - intros e'. by rewrite lookup_delete_eq. }
  assert (F2 : ∀ x y, rtc step x y → flight_inv x →
    fresh_inv c1 key n0 (generation_of (registry (shared c)) key + 1) x →
    fresh_inv c1 key n0 (generation_of (registry (shared c)) key + 1) y).
  { clear. intros x y Hrun. induction Hrun as [|x y z Hxy Hyz IH]; [done|].
    intros. apply IH; [by eapply step_inv|by eapply fresh_step]. }
  intros He. by apply (fr_cache _ _ _ _ _ (F2 c1 c2 Hrun I1 F1)).
Qed.

(** ** Every waiter is woken *)

Section Mass.
Context {K A : Type} `{Countable K} (w : A → nat).
Definition mass (m : gmap K A) : nat := map_fold (λ _ x n, w x + n)%nat 0%nat m.
Lemma mass_delete m i x : m !! i = Some x → mass m = (w x + mass (delete i m))%nat.
  Proof. intros Hi. apply (map_fold_delete_L (λ _ x n, w x + n)%nat 0%nat i x m); [intros; lia|done]. Qed.
Lemma mass_fresh m i x : m !! i = None → mass (<[i := x]> m) = (w x + mass m)%nat.
  Proof. intros Hi. apply (map_fold_insert_L (λ _ x n, w x + n)%nat 0%nat i x m); [intros; lia|done]. Qed.
Lemma mass_insert m i x y : m !! i = Some x → (mass (<[i := y]> m) + w x = mass m + w y)%nat.
  Proof.
    intros Hi. rewrite (mass_delete m i x Hi), (mass_delete (<[i := y]> m) i y) by apply lookup_insert_eq.
    rewrite delete_insert_eq. lia.
  Qed.
Lemma mass_le m i x : m !! i = Some x → (w x ≤ mass m)%nat.
  Proof. intros Hi. rewrite (mass_delete m i x Hi). lia. Qed.
Lemma mass_fmap (g : A → A) m : (∀ x, w (g x) = w x) → mass (g <$> m) = mass m.
  Proof.
    intros Hg. induction m as [|i x m Hi IH] using map_ind; [by rewrite fmap_empty|].
    rewrite fmap_insert, !mass_fresh; [by rewrite Hg, IH|done|by rewrite lookup_fmap, Hi].
  Qed.
End Mass.

Definition task_rank (f : nat) (t : Task) : nat := rank f (t_point t).
Definition reg_rank (f : nat) (f' : nat) : nat := if decide (f' = f) then 2 else 0.

(** The steps that tasks may still make towards notifying the waiters of [f]. *)
Definition charge (f : nat) (c : Config) : nat :=
  (mass (task_rank f) (tasks c) + mass (reg_rank f) (flights (registry (shared c))))%nat.

Lemma effect_charge f c id t s' p' c' :
  effect (t_key t) (shared c) (t_point t) s' p' → moved c id t s' p' c' →
  (f < length (outcomes (shared c)))%nat →
  (charge f c' ≤ charge f c)%nat ∧
  ((0 < rank f (t_point t))%nat → (charge f c' < charge f c)%nat).
Proof.
  intros E (Ht & Hs & Htk) Hlt. unfold charge. rewrite Htk, Hs.
  pose proof (mass_insert (task_rank f) _ _ _ (at_point t p') Ht) as Hm.
  unfold task_rank in Hm at 2 4. cbn [at_point t_point] in Hm.
  assert (Hdel : ∀ (m : gmap ChallengeKey nat) k,
    (mass (reg_rank f) (delete k m) + (if decide (m !! k = Some f) then 2 else 0) = mass (reg_rank f) m)%nat).
  { intros m k. destruct (m !! k) as [f'|] eqn:Em.
    - rewrite (mass_delete (reg_rank f) m k f' Em). unfold reg_rank at 2.
      repeat case_decide; simplify_eq; lia.
    - rewrite delete_id by done. rewrite decide_False by done. lia. }
  destruct E as [s' p' _ Hf _ _ Hr _ _ _|r' g Hp Hn Hlen _ Hf _|r' g o a Hp Hk Hf _|f' o a Hp _|r' a p' Hp Hf _ _ ->];
    cbn [registry with_registry]; rewrite ?Hf.
  - specialize (Hr f). lia.
  - rewrite (mass_fresh (reg_rank f)) by done.
    assert (reg_rank f (lg_flight g) = 0%nat) as -> by (unfold reg_rank; case_decide; lia).
    rewrite Hp in *. simpl in *. rewrite decide_False in Hm by lia. lia.
  - pose proof (Hdel (flights (registry (shared c))) (t_key t)) as Hd. rewrite Hk in Hd.
    rewrite Hp in *. simpl in *. repeat case_decide; simplify_eq; lia.
  - rewrite Hp in *. simpl in *. case_decide; lia.
  - pose proof (Hdel (flights (registry (shared c))) (t_key t)) as Hd. rewrite Hp in *. simpl in *.
    destruct (flights _ !! t_key t); rewrite ?rank_resume in *; simpl in *;
      repeat case_decide; simplify_eq; lia.
Qed.

(** Labelled steps, for schedules. *)
Inductive Label := ByTask (id : nat) (i : Input) | Clock (d : N) | Spawn (id : nat) (key : ChallengeKey) (q : Request).
Definition perform (c : Config) (l : Label) : option Config :=
  match l with
  | ByTask id i => config_step c id i
  | Clock d => Some {| now := now c + d; shared := shared c; tasks := tasks c |}
  | Spawn id key q =>
      match tasks c !! id with
      | Some _ => None
      | None => Some {| now := now c; shared := shared c;
                        tasks := <[id := {| t_key := key; t_point := entry_point q |}]> (tasks c) |}
      end
  end.

Lemma perform_step c l c' : perform c l = Some c' → step c c'.
Proof.
  destruct l as [id i|d|id key q]; simpl.
  - apply step_task.
  - intros [= <-]. apply step_clock.
  - destruct (tasks c !! id) eqn:Hid; [done|]. intros [= <-]. by apply step_spawn.
Qed.

Lemma perform_charge f c l c' :
  perform c l = Some c' → (f < length (outcomes (shared c)))%nat →
  (charge f c' ≤ charge f c)%nat ∧
  ∀ id i t, l = ByTask id i → tasks c !! id = Some t → (0 < rank f (t_point t))%nat →
    (charge f c' < charge f c)%nat.
Proof.
  intros Hs Hlt. destruct l as [id i|d|id key q]; simpl in Hs.
  - apply config_step_inv in Hs as (t & Ht & _ & [(p' & _ & E & Htk)|(f' & a & Hp & Hsh & Htk)]).
    + destruct (effect_charge f c id t (shared c') p' c' E) as [? Hdec]; [by split_and!|done|].
      split; [done|]. intros ? ? ? [= <- <-] ??. simplify_eq. auto.
    + unfold charge. rewrite Htk, Hsh.
      pose proof (mass_insert (task_rank f) ((λ t, at_point t (wake f' (t_point t))) <$> tasks c) id
        (at_point t (wake f' (t_point t))) (at_point t (resume a))) as Hm.
      rewrite (mass_fmap (task_rank f)) in Hm by (intros x; apply rank_wake).
      unfold task_rank in Hm at 2 4. simpl in Hm. rewrite rank_wake, rank_resume in Hm.
      rewrite lookup_fmap, Ht in Hm. specialize (Hm eq_refl).
      split; [lia|]. intros ? ? ? [= <- <-] ??. simplify_eq. lia.
  - injection Hs as <-. split; [done|]. intros ? ? ? [=].
  - destruct (tasks c !! id) eqn:Hid; [done|]. injection Hs as <-. split; [|intros ? ? ? [=]].
    unfold charge. simpl. rewrite mass_fresh by done. unfold task_rank at 1. simpl.
    rewrite rank_entry. lia.
Qed.

(** A task in charge of [f] stays where it is until it is scheduled. *)
Lemma perform_frame f c l c' id t :
  perform c l = Some c' → tasks c !! id = Some t → (0 < rank f (t_point t))%nat →
  (∀ i, l ≠ ByTask id i) → tasks c' !! id = Some t.
Proof.
  intros Hs Ht Hr Hl. destruct l as [id' i|d|id' key q]; simpl in Hs.
  - assert (id' ≠ id) by (intros ->; by eapply Hl).
    apply config_step_inv in Hs as (t' & Ht' & _ & [(p' & _ & _ & ->)|(f' & a & _ & _ & ->)]).
    + by rewrite lookup_insert_ne.
    + rewrite lookup_insert_ne, lookup_fmap, Ht by done. simpl. f_equal.
      destruct t as [k p]. simpl in Hr. destruct p; simpl in Hr; try lia; done.
  - by injection Hs as <-.
  - destruct (tasks c !! id') eqn:Hid; [done|]. injection Hs as <-. simpl.
    rewrite lookup_insert_ne; [done|]. congruence.
Qed.

Lemma outcomes_grow c l c' :
  perform c l = Some c' → (length (outcomes (shared c)) ≤ length (outcomes (shared c')))%nat.
Proof.
  destruct l as [id i|d|id key q]; simpl.
  - intros (t & _ & _ & [(p' & Hs & _)|(f & a & _ & -> & _)])%config_step_inv; [|done].
    by apply task_step_fresh in Hs as (_ & ? & _).
  - by intros [= <-].
  - destruct (tasks c !! id); [done|]. by intros [= <-].
Qed.

(** A sleeper whose flight is not finished, or not yet announced, depends on a task
    that is in charge of the flight. *)
Lemma asleep_charge c id t f :
  flight_inv c → tasks c !! id = Some t → t_point t = Asleep f false →
  (f < length (outcomes (shared c)))%nat →
  ∃ id' t', tasks c !! id' = Some t' ∧ (0 < rank f (t_point t'))%nat.
Proof.
  intros I Ht Hp Hlt. destruct (flight_outcome (shared c) f) as [o|] eqn:Ho.
  - destruct (inv_sleep c I id t f Ht Hp) as (id' & t' & a & Ht' & Hn); [by rewrite Ho|].
    exists id', t'. split; [done|]. rewrite Hn. simpl. rewrite decide_True by done. lia.
  - destruct (lookup_lt_is_Some_2 _ _ Hlt) as [o Hf]. unfold flight_outcome in Ho. rewrite Hf in Ho.
    simpl in Ho. subst o. destruct (inv_owner c I f Hf) as (id' & t' & ? & ?).
    exists id', t'. split; [done|lia].
Qed.

Lemma by_task_dec l id : (∃ i, l = ByTask id i) ∨ ∀ i, l ≠ ByTask id i.
Proof. destruct l as [id' i|d|id' key q]; [destruct (decide (id' = id)) as [->|]; [eauto|]|..]; right; congruence. Qed.

(** A run: an infinite schedule, each of whose labels is performed. *)
Definition is_run (run : nat → Config) (sched : nat → Label) : Prop :=
  reachable (run 0%nat) ∧ ∀ n, perform (run n) (sched n) = Some (run (S n)).

(** Every task in charge of [f] is eventually scheduled; for a leader that awaits the
    token server, this says that the request ends: by a reply, an error or a drop. *)
Definition fair_for (f : nat) (run : nat → Config) (sched : nat → Label) : Prop :=
  ∀ n id t, tasks (run n) !! id = Some t → (0 < rank f (t_point t))%nat →
    ∃ m i, (n ≤ m)%nat ∧ sched m = ByTask id i.

Section Run.
Context (run : nat → Config) (sched : nat → Label) (f : nat).
Hypothesis Hrun : is_run run sched.
Hypothesis Hfair : fair_for f run sched.

Lemma run_inv n : flight_inv (run n).
  Proof.
    induction n as [|n IH]; [by apply reachable_inv, Hrun|].
    eapply step_inv; [done|]. eapply perform_step, Hrun.
  Qed.

Lemma run_opened n m : (n ≤ m)%nat → (f < length (outcomes (shared (run n))))%nat →
    (f < length (outcomes (shared (run m))))%nat.
  Proof.
    induction 1 as [|m ? IH]; [done|]. intros Hf. specialize (IH Hf).
    pose proof (outcomes_grow _ _ _ (proj2 Hrun m)). lia.
  Qed.

Lemma run_charge n m : (n ≤ m)%nat → (f < length (outcomes (shared (run n))))%nat →
    (charge f (run m) ≤ charge f (run n))%nat.
  Proof.
    induction 1 as [|m Hle IH]; [done|]. intros Hf. specialize (IH Hf).
    destruct (perform_charge f _ _ _ (proj2 Hrun m)); [by eapply run_opened|lia].
  Qed.

  (** While some task is in charge, the charge goes down. *)
Lemma run_progress n id t :
    (f < length (outcomes (shared (run n))))%nat → tasks (run n) !! id = Some t →
    (0 < rank f (t_point t))%nat → ∃ m, (n < m)%nat ∧ (charge f (run m) < charge f (run n))%nat.
  Proof.
    intros Hf Ht Hr. destruct (Hfair n id t Ht Hr) as (m & i & Hle & Hm).
    remember (m - n)%nat as d eqn:Hd. revert n Hf Ht Hle Hd. induction d as [|d IH]; intros n Hf Ht Hle Hd.
    - assert (m = n) as -> by lia. exists (S n). split; [lia|].
      destruct (perform_charge f _ _ _ (proj2 Hrun n) Hf) as [_ Hdec]. by eapply Hdec.
    - destruct (perform_charge f _ _ _ (proj2 Hrun n) Hf) as [Hmono Hdec].
      destruct (by_task_dec (sched n) id) as [[i' Hi']|Hno].
      { exists (S n). split; [lia|]. by eapply Hdec. }
      destruct (IH (S n)) as (m' & ? & ?); [by eapply (run_opened n); [lia|]| |lia..|].
      + by eapply perform_frame; [apply Hrun|..].
      + exists m'. lia.
  Qed.
End Run.

(** C24: In every infinite run in which the tasks in charge of a flight are not starved, a task that
    sleeps on the flight is woken or has left: no interleaving of leaders, drops, invalidations
    and registrations of [Notified] loses its wake-up. *)
Theorem flight_waiter_woken run sched f n id :
  is_run run sched → fair_for f run sched → (f < length (outcomes (shared (run n))))%nat →
  ∃ m, (n ≤ m)%nat ∧ ∀ t, tasks (run m) !! id = Some t → t_point t ≠ Asleep f false.
Proof.
  intros Hrun Hfair. remember (charge f (run n)) as d eqn:Hd. revert n Hd.
  induction (lt_wf d) as [d _ IH]. intros n Hd Hf.
  destruct (tasks (run n) !! id) as [t|] eqn:Ht; [|exists n; split; [lia|]; intros ?; by rewrite Ht].
  assert (Hdec : t_point t = Asleep f false ∨ t_point t ≠ Asleep f false).
  { destruct (t_point t) as [| | | | | | | | | | |f' []| |]; try (right; done).
    destruct (decide (f' = f)) as [->|]; [by left|right; congruence]. }
  destruct Hdec as [Hp|Hp]; [|exists n; split; [lia|]; intros ? Ht'; by rewrite Ht in Ht'; simplify_eq].
  destruct (asleep_charge (run n) id t f (run_inv run sched Hrun n) Ht Hp Hf) as (id' & t' & Ht' & Hr).
  destruct (run_progress run sched f Hrun Hfair n id' t' Hf Ht' Hr) as (m & Hle & Hlt).
  destruct (IH (charge f (run m))) with (n := m) as (m' & ? & ?); [lia|done|by eapply (run_opened run sched f Hrun n); [lia|]|].
  exists m'. split; [lia|done].
Qed.

(** ** Schedules that run *)

(** The configuration after a schedule; a label that cannot be performed is skipped. *)
Definition exec (ls : list Label) (c : Config) : Config :=
  foldl (λ c l, default c (perform c l)) c ls.

Lemma exec_rtc ls c : rtc step c (exec ls c).
Proof.
  revert c. induction ls as [|l ls IH]; intros c; [done|]. simpl.
  destruct (perform c l) as [c'|] eqn:Hl; simpl; [|apply IH].
  eapply rtc_l; [by eapply perform_step|apply IH].
Qed.

Lemma exec_app ls ls' c : exec (ls ++ ls') c = exec ls' (exec ls c).
Proof. apply foldl_app. Qed.

Definition performed (ls : list Label) : bool :=
  forallb (λ n, match ls !! n with
                | Some l => bool_decide (is_Some (perform (exec (take n ls) initial) l))
                | None => true
                end) (seq 0 (length ls)).

(** The schedule [ls], then an idle clock. *)
Definition run_of (ls : list Label) (n : nat) : Config := exec (take n ls) initial.
Definition sched_of (ls : list Label) (n : nat) : Label := default (Clock 0) (ls !! n).

Lemma perform_idle c : perform c (Clock 0) = Some c.
Proof. destruct c. simpl. by rewrite N.add_0_r. Qed.

Lemma run_of_is_run ls : performed ls = true → is_run (run_of ls) (sched_of ls).
Proof.
  unfold performed. rewrite forallb_forall. intros Hp. split; [apply (exec_rtc [])|].
  intros n. unfold run_of, sched_of. destruct (ls !! n) as [l|] eqn:Hl; simpl.
  - specialize (Hp n). rewrite Hl in Hp. rewrite (take_S_r _ _ _ Hl), exec_app. simpl.
    destruct (perform _ l) as [c'|] eqn:Hc; [done|].
    apply lookup_lt_Some in Hl. assert (Hin : In n (seq 0 (length ls))) by (apply in_seq; lia).
    by specialize (Hp Hin).
  - apply lookup_ge_None in Hl. rewrite !take_ge by lia. apply perform_idle.
Qed.

Definition is_by (id : nat) (l : Label) : bool :=
  match l with ByTask id' _ => bool_decide (id' = id) | _ => false end.
Definition fair_check (f : nat) (ls : list Label) : bool :=
  forallb (λ n, bool_decide (map_Forall (λ id t,
    rank f (t_point t) = 0%nat ∨ existsb (is_by id) (drop n ls) = true) (tasks (run_of ls n))))
    (seq 0 (S (length ls))).

Lemma run_of_fair f ls : fair_check f ls = true → fair_for f (run_of ls) (sched_of ls).
Proof.
  unfold fair_check. rewrite forallb_forall. intros Hc n id t Ht Hr.
  assert (∃ n', (n ≤ n')%nat ∧ existsb (is_by id) (drop n' ls) = true) as (n' & Hn' & He).
  { assert (Hn : In (min n (length ls)) (seq 0 (S (length ls)))) by (apply in_seq; lia).
    apply Hc, bool_decide_eq_true in Hn. specialize (Hn id t).
    assert (run_of ls (min n (length ls)) = run_of ls n) as Hr'.
    { unfold run_of. destruct (decide (n ≤ length ls)%nat); [by rewrite Nat.min_l|].
      rewrite Nat.min_r by lia. by rewrite !take_ge by lia. }
    rewrite Hr' in Hn. destruct (Hn Ht) as [|He]; [lia|].
    destruct (decide (n ≤ length ls)%nat); [rewrite Nat.min_l in He by done; by exists n|].
    rewrite Nat.min_r, drop_ge in He by lia. done. }
  apply existsb_exists in He as (l & Hin & Hl). apply list_elem_of_In, list_elem_of_lookup in Hin as (j & Hj).
  rewrite lookup_drop in Hj. destruct l as [id' i|d|id' key q]; try done.
  apply bool_decide_eq_true in Hl as ->. exists (n' + j)%nat, i. split; [lia|].
  unfold sched_of. by rewrite Hj.
Qed.

Definition sample_key : ChallengeKey := {| ck_realm := [1]; ck_service := [2]; ck_scope := [3] |}.

(** Task 0 leads, task 1 sleeps on its flight, and is woken. *)
Definition wait_schedule : list Label :=
  [Spawn 0 sample_key Get; Spawn 1 sample_key Get; ByTask 0 Go; ByTask 1 Go; ByTask 0 Go; ByTask 1 Go;
   ByTask 1 Go; ByTask 1 Go; ByTask 0 Go; ByTask 0 (Reply [7] 60); ByTask 0 Go; ByTask 0 Go;
   ByTask 0 Go; ByTask 0 Go; ByTask 1 Go; ByTask 1 Go].

(** Task 0 has stored its token and task 1 then refreshes it.  The suffix follows the step
    that runs the critical section of [invalidate]. *)
Definition refresh_prefix : list Label :=
  [Spawn 0 sample_key Get; ByTask 0 Go; ByTask 0 Go; ByTask 0 Go; Spawn 1 sample_key Refresh;
   ByTask 0 (Reply [7] 60); ByTask 0 Go].
Definition refresh_suffix : list Label :=
  [ByTask 1 Go; ByTask 1 Go; ByTask 1 Go; ByTask 1 Go; ByTask 1 Go; ByTask 1 (Reply [8] 60); ByTask 1 Go].

Lemma flight_single_leader_witness :
  let c := exec refresh_prefix initial in
  ∃ t g, tasks c !! 0%nat = Some t ∧ leads (t_point t) = Some g ∧ (0%nat = 0%nat).
Proof.
  intros c. set (t := {| t_key := sample_key;
    t_point := Finishing {| lg_generation := 0; lg_flight := 0 |} Succeeded (End (Token [7])) |}).
  exists t, {| lg_generation := 0; lg_flight := 0 |}. split_and!; [by vm_compute|done|].
  apply (flight_single_leader c 0 0 t t {| lg_generation := 0; lg_flight := 0 |}
    {| lg_generation := 0; lg_flight := 0 |}); [apply exec_rtc|by vm_compute..].
Defined.

Lemma refresh_discards_stale_witness :
  let c := exec refresh_prefix initial in
  let c1 := exec [ByTask 1 Go] c in
  let c2 := exec refresh_suffix c1 in
  (ct_token <$> cache (registry (shared c)) !! sample_key) = Some [7] ∧
  cache (registry (shared c2)) !! sample_key
    = Some {| ct_token := [8]; ct_generation := 1; ct_expires_at := 60 |} ∧
  fetched_since c1 sample_key 1 [8] c2.
Proof.
  intros c c1 c2. split_and!; [by vm_compute..|].
  apply (refresh_discards_stale c 1 {| t_key := sample_key; t_point := Invalidating Again |} Again c1 c2
    {| ct_token := [8]; ct_generation := 1; ct_expires_at := 60 |});
    [apply exec_rtc|by vm_compute|done|by vm_compute|by vm_compute|apply exec_rtc|by vm_compute].
Defined.

Lemma flight_waiter_woken_witness :
  let run := run_of wait_schedule in
  (t_point <$> tasks (run 8%nat) !! 1%nat) = Some (Asleep 0 false) ∧
  ∃ m, (8 ≤ m)%nat ∧ ∀ t, tasks (run m) !! 1%nat = Some t → t_point t ≠ Asleep 0 false.
Proof.
  intros run. split; [by vm_compute|].
  apply (flight_waiter_woken run (sched_of wait_schedule) 0 8 1).
  - apply run_of_is_run. by vm_compute.
  - apply run_of_fair. by vm_compute.
  - apply Nat.ltb_lt. by vm_compute.
Defined.
