(* ===== verification/Transport.v ===== *)
(** * Transport: sizes, digests and streams of the OCI client
    (crates/nixcache-oci/src/limits.rs, integrity.rs, transport.rs and
    crates/nixcache-utils/src/compression.rs)

    Header maps are the interface [HttpHeaders].  A body stream is the list of the items
    it still yields before its end; a hasher is the list of the bytes it was fed.
    Polls that answer [Pending] do not change the state and are left out. *)

From S2P Require Import Prelude Machine Str Text Error Types Sharding OciError.

Local Open Scope N_scope.

(** The part of the [http] crate about headers.  Names are in lower case;
    [header_iter] is the iteration over names and values. *)
Class HttpHeaders := {
  HeaderMap : Type;
  HeaderValue : Type;
  header_new : HeaderMap;
  header_insert : list N → HeaderValue → HeaderMap → HeaderMap;
  header_iter : HeaderMap → list (list N * HeaderValue);
  header_value_from_str : list N → option HeaderValue;
  header_get : HeaderMap → list N → option HeaderValue;
  header_get_all : HeaderMap → list N → list HeaderValue;
  header_to_str : HeaderValue → option (list N) }.

(** ** Read limits *)

Record OciReadLimits := {
  max_manifest_bytes : N;
  max_buffered_blob_bytes : N;
  max_streamed_blob_bytes : N;
  max_index_uncompressed_bytes : N;
  max_image_index_descriptors : N;
  max_manifest_layers : N;
  rl_max_shard_entries : N;
  rl_max_gc_roots : N;
  max_parallel_index_reads : N }.

Inductive ReadLimitsError := LimitZero (field : list N) | LimitNotRepresentable (field : list N).

Definition OciReadLimits_default : OciReadLimits := {|
  max_manifest_bytes := 4 * 1024 * 1024;
  max_buffered_blob_bytes := 64 * 1024 * 1024;
  max_streamed_blob_bytes := 16 * 1024 * 1024 * 1024;
  max_index_uncompressed_bytes := 64 * 1024 * 1024;
  max_image_index_descriptors := 1024;
  max_manifest_layers := 16;
  rl_max_shard_entries := 500000;
  rl_max_gc_roots := 500000;
  max_parallel_index_reads := 16 |}.

(** The fields whose values must fit in a [usize]. *)
Definition limit_values (self : OciReadLimits) : list (list N * N) :=
  [(lit "max_manifest_bytes", max_manifest_bytes self);
   (lit "max_buffered_blob_bytes", max_buffered_blob_bytes self);
   (lit "max_index_uncompressed_bytes", max_index_uncompressed_bytes self);
   (lit "max_image_index_descriptors", max_image_index_descriptors self);
   (lit "max_manifest_layers", max_manifest_layers self);
   (lit "max_shard_entries", rl_max_shard_entries self);
   (lit "max_gc_roots", rl_max_gc_roots self);
   (lit "max_parallel_index_reads", max_parallel_index_reads self)].

Definition OciReadLimits_validate `{Build} (self : OciReadLimits) : outcome ReadLimitsError unit :=
  _ ← for_each (λ '(field, value),
        _ ← ensure (negb (value =? 0)) (LimitZero field);
        _ ← ok_or (LimitNotRepresentable field) (try_from usize_bound value);
        Ok tt) (limit_values self);
  ensure (negb (max_streamed_blob_bytes self =? 0)) (LimitZero (lit "max_streamed_blob_bytes")).

Definition OciReadLimits_try_new `{Build} (m b s u d l e g p : N) : outcome ReadLimitsError OciReadLimits :=
  let limits := {| max_manifest_bytes := m; max_buffered_blob_bytes := b; max_streamed_blob_bytes := s;
                   max_index_uncompressed_bytes := u; max_image_index_descriptors := d;
                   max_manifest_layers := l; rl_max_shard_entries := e; rl_max_gc_roots := g;
                   max_parallel_index_reads := p |} in
  _ ← OciReadLimits_validate limits;
  Ok limits.

(** The nine [with_*] builders: which field is overridden. *)
Inductive LimitField :=
| FManifestBytes | FBufferedBlobBytes | FStreamedBlobBytes | FIndexUncompressedBytes
| FImageIndexDescriptors | FManifestLayers | FShardEntries | FGcRoots | FParallelIndexReads.
#[export] Instance LimitField_eq_dec : EqDecision LimitField.
Proof. solve_decision. Defined.

Definition OciReadLimits_with `{Build} (f : LimitField) (self : OciReadLimits) (value : N)
    : outcome ReadLimitsError OciReadLimits :=
  let put g old := if decide (f = g) then value else old in
  OciReadLimits_try_new
    (put FManifestBytes (max_manifest_bytes self))
    (put FBufferedBlobBytes (max_buffered_blob_bytes self))
    (put FStreamedBlobBytes (max_streamed_blob_bytes self))
    (put FIndexUncompressedBytes (max_index_uncompressed_bytes self))
    (put FImageIndexDescriptors (max_image_index_descriptors self))
    (put FManifestLayers (max_manifest_layers self))
    (put FShardEntries (rl_max_shard_entries self))
    (put FGcRoots (rl_max_gc_roots self))
    (put FParallelIndexReads (max_parallel_index_reads self)).

(** [impl IndexValidationLimits for OciReadLimits]. *)
Definition index_validation_limits (self : OciReadLimits) : IndexValidationLimits := {|
  max_shard_entries := rl_max_shard_entries self;
  max_gc_roots := rl_max_gc_roots self;
  max_uncompressed_bytes := max_index_uncompressed_bytes self;
  max_nar_size := max_streamed_blob_bytes self |}.

(** ** Content digests *)

Record ContentDigest := mkContentDigest { cd_str : list N }.
#[export] Instance ContentDigest_eq_dec : EqDecision ContentDigest.
Proof. solve_decision. Defined.

Definition ContentDigest_parse (raw : list N) : outcome OciError ContentDigest :=
  let valid := Nat.eqb (str_len raw) 71 && starts_with (lit "sha256:") raw
    && forallb (λ byte, is_ascii_hexdigit byte && negb (in_range 65 90 byte)) (drop 7 (utf8 raw)) in
  if negb valid
  then Err (InvalidDescriptor raw
         (lit "expected canonical sha256: followed by 64 lowercase hexadecimal characters"))
  else Ok (mkContentDigest raw).

Definition ContentDigest_from_hasher `{Sha2} (fed : list N) : ContentDigest :=
  mkContentDigest (format_digest (sha256 fed)).
Definition ContentDigest_from_bytes `{Sha2} (bytes : list N) : ContentDigest :=
  ContentDigest_from_hasher ([] ++ bytes).

Definition verify_size (target : list N) (expected actual : N) : outcome OciError unit :=
  if negb (expected =? actual) then Err (SizeMismatch target expected actual) else Ok tt.

Section integrity.
Context `{Sha2} `{HttpHeaders}.

(** The check of the [Docker-Content-Digest] header, the same in
    [verify_stream_digest] and [verify_buffered_body]. *)
Definition verify_header_digest (target : list N) (header_digest : option HeaderValue)
    (actual : ContentDigest) : outcome OciError unit :=
  match header_digest with
  | None => Ok tt
  | Some header =>
      header_text ← ok_or (HeaderDigestMismatch target (lit "<invalid UTF-8>") (cd_str actual))
                      (header_to_str header);
      parsed ← map_err (λ _, HeaderDigestMismatch target header_text (cd_str actual))
                 (ContentDigest_parse header_text);
      if negb (bool_decide (parsed = actual))
      then Err (HeaderDigestMismatch target (cd_str parsed) (cd_str actual))
      else Ok tt
  end.

Definition verify_expected_digest (target expected_digest : list N) (actual : ContentDigest)
    : outcome OciError unit :=
  expected ← ContentDigest_parse expected_digest;
  if negb (bool_decide (expected = actual))
  then Err (DigestMismatch target (cd_str expected) (cd_str actual))
  else Ok tt.

Definition verify_stream_digest (target expected_digest : list N) (header_digest : option HeaderValue)
    (actual : ContentDigest) : outcome OciError unit :=
  _ ← verify_header_digest target header_digest actual;
  verify_expected_digest target expected_digest actual.

Definition verify_buffered_body (target : list N) (expected_digest : option (list N))
    (header_digest : option HeaderValue) (expected_size content_length : option N) (body : list N)
    : outcome OciError ContentDigest :=
  _ ← match expected_size with Some n => verify_size target n (usize_len body) | None => Ok tt end;
  _ ← match content_length with Some n => verify_size target n (usize_len body) | None => Ok tt end;
  let actual := ContentDigest_from_bytes body in
  _ ← verify_header_digest target header_digest actual;
  _ ← match expected_digest with Some d => verify_expected_digest target d actual | None => Ok tt end;
  Ok actual.

(** ** Response bodies *)

Definition parse_content_length (headers : HeaderMap) : outcome TransportError (option N) :=
  match header_get headers (lit "content-length") with
  | None => Ok None
  | Some value =>
      text ← ok_or (HeaderParse (lit "Content-Length")) (header_to_str value);
      length ← map_err (λ _, HeaderParse (lit "Content-Length")) (parse_u64 text);
      Ok (Some length)
  end.

Definition check_content_length (url : list N) (headers : HeaderMap) (max_bytes : N)
    : outcome TransportError (option N) :=
  length ← parse_content_length headers;
  match length with
  | Some n => if max_bytes <? n then Err (ResponseTooLarge url max_bytes n) else Ok length
  | None => Ok length
  end.

(** [OciBlobStream::content_length], which ignores an invalid header. *)
Definition OciBlobStream_content_length (headers : HeaderMap) : option N :=
  v ← header_get headers (lit "content-length"); s ← header_to_str v; ok (parse_u64 s).

Definition saturating_add64 (a b : N) : N := N.min (a + b) (u64_bound - 1).

(** The loop of [collect_limited] from a body read so far. *)
Fixpoint collect_limited_from (url : list N) (max_bytes : N) (body : list N)
    (stream : list (outcome TransportError (list N))) : outcome TransportError (list N) :=
  match stream with
  | [] => Ok body
  | item :: stream =>
      chunk ← item;
      let total := saturating_add64 (usize_len body) (usize_len chunk) in
      if max_bytes <? total then Err (ResponseTooLarge url max_bytes total)
      else collect_limited_from url max_bytes (body ++ chunk) stream
  end.
Definition collect_limited (url : list N) (max_bytes : N)
    (stream : list (outcome TransportError (list N))) : outcome TransportError (list N) :=
  collect_limited_from url max_bytes [] stream.

(** ** Range headers *)

Definition parse_range_header (header_val : list N) : option (N * N) :=
  let clean := trim header_val in
  let val := match strip_prefix (lit "bytes=") clean with
             | Some v => v
             | None => match strip_prefix (lit "bytes ") clean with Some v => v | None => clean end
             end in
  let range_part := match split_once 47 val with Some (r, _) => trim r | None => trim val end in
  '(start_str, end_str) ← split_once 45 range_part;
  start ← ok (parse_u64 (trim start_str));
  end_ ← ok (parse_u64 (trim end_str));
  Some (start, end_).

(** ** Verified streams *)

Record VerifiedBlobStream := {
  vs_inner : list (outcome TransportError (list N));
  vs_target : list N;
  vs_expected_digest : list N;
  vs_header_digest : option HeaderValue;
  vs_content_length : option N;
  vs_max_bytes : N;
  vs_bytes_seen : N;
  vs_hasher : list N;
  vs_finished : bool }.

Definition VerifiedBlobStream_new (inner : list (outcome TransportError (list N)))
    (target expected_digest : list N) (headers : HeaderMap) (max_bytes : N)
    : outcome OciError VerifiedBlobStream :=
  _ ← ContentDigest_parse expected_digest;
  content_length ← map_err OciTransport (parse_content_length headers);
  _ ← match content_length with
      | Some n => if max_bytes <? n then Err (SizeLimitExceeded target max_bytes n) else Ok tt
      | None => Ok tt
      end;
  Ok {| vs_inner := inner; vs_target := target; vs_expected_digest := expected_digest;
        vs_header_digest := header_get headers (lit "docker-content-digest");
        vs_content_length := content_length; vs_max_bytes := max_bytes;
        vs_bytes_seen := 0; vs_hasher := []; vs_finished := false |}.

(** The state after a poll: what is left of the stream, what was counted and
    hashed, and whether the wrapper is finished. *)
Definition vs_after (self : VerifiedBlobStream) (inner : list (outcome TransportError (list N)))
    (seen : N) (hasher : list N) (finished : bool) : VerifiedBlobStream :=
  {| vs_inner := inner; vs_target := vs_target self; vs_expected_digest := vs_expected_digest self;
     vs_header_digest := vs_header_digest self; vs_content_length := vs_content_length self;
     vs_max_bytes := vs_max_bytes self; vs_bytes_seen := seen; vs_hasher := hasher;
     vs_finished := finished |}.

Definition VerifiedBlobStream_poll_next (self : VerifiedBlobStream)
    : VerifiedBlobStream * option (outcome OciError (list N)) :=
  if vs_finished self then (self, None)
  else
    match vs_inner self with
    | Err error :: inner =>
        (vs_after self inner (vs_bytes_seen self) (vs_hasher self) true, Some (Err (OciTransport error)))
    | Panic :: inner => (vs_after self inner (vs_bytes_seen self) (vs_hasher self) true, Some Panic)
    | Ok bytes :: inner =>
        let total := saturating_add64 (vs_bytes_seen self) (usize_len bytes) in
        if vs_max_bytes self <? total
        then (vs_after self inner (vs_bytes_seen self) (vs_hasher self) true,
              Some (Err (SizeLimitExceeded (vs_target self) (vs_max_bytes self) total)))
        else (vs_after self inner total (vs_hasher self ++ bytes) false, Some (Ok bytes))
    | [] =>
        let actual := ContentDigest_from_hasher (vs_hasher self) in
        let result :=
          _ ← match vs_content_length self with
              | Some length => verify_size (vs_target self) length (vs_bytes_seen self)
              | None => Ok tt
              end;
          verify_stream_digest (vs_target self) (vs_expected_digest self) (vs_header_digest self) actual in
        (vs_after self [] (vs_bytes_seen self) [] true,
         match result with Ok _ => None | Err error => Some (Err error) | Panic => Some Panic end)
    end.

(** A consumer that polls until the stream ends or fails. *)
Fixpoint read_to_end (fuel : nat) (s : VerifiedBlobStream) (got : list N)
    : option (outcome OciError (list N)) :=
  match fuel with
  | O => None
  | S fuel =>
      match VerifiedBlobStream_poll_next s with
      | (_, None) => Some (Ok got)
      | (s, Some (Ok bytes)) => read_to_end fuel s (got ++ bytes)
      | (_, Some (Err e)) => Some (Err e)
      | (_, Some Panic) => Some Panic
      end
  end.
End integrity.

(** ** Hashing streams *)

Inductive StreamHashTerminal := TComplete (digest : ContentDigest) | TFailed | TAborted.
Inductive StreamHashStatus := InProgress | Complete | StreamFailed | Aborted.

(** The shared state and the wrapper; [hs_terminal] is the [OnceLock]. *)
Record HashingStream (E : Type) := {
  hs_inner : list (outcome E (list N));
  hs_hasher : list N;
  hs_bytes_streamed : N;
  hs_terminal : option StreamHashTerminal }.
Arguments hs_inner {E}. Arguments hs_hasher {E}. Arguments hs_bytes_streamed {E}. Arguments hs_terminal {E}.

Section hashing.
Context `{Sha2} {E : Type}.

Definition HashingStream_new (inner : list (outcome E (list N))) : HashingStream E :=
  {| hs_inner := inner; hs_hasher := []; hs_bytes_streamed := 0; hs_terminal := None |}.

(** [OnceLock::set]: the first value stays. *)
Definition once_set (t : option StreamHashTerminal) (v : StreamHashTerminal) : option StreamHashTerminal :=
  match t with Some _ => t | None => Some v end.

Definition HashingStream_poll_next (self : HashingStream E)
    : HashingStream E * option (outcome E (list N)) :=
  match hs_terminal self with
  | Some _ => (self, None)
  | None =>
      match hs_inner self with
      | Ok bytes :: inner =>
          ({| hs_inner := inner; hs_hasher := hs_hasher self ++ bytes;
              hs_bytes_streamed := wrapping_add (hs_bytes_streamed self) (usize_len bytes);
              hs_terminal := None |}, Some (Ok bytes))
      | Err e :: inner =>
          ({| hs_inner := inner; hs_hasher := hs_hasher self; hs_bytes_streamed := hs_bytes_streamed self;
              hs_terminal := once_set None TFailed |}, Some (Err e))
      | Panic :: inner => (self, Some Panic)
      | [] =>
          ({| hs_inner := []; hs_hasher := hs_hasher self; hs_bytes_streamed := hs_bytes_streamed self;
              hs_terminal := once_set None (TComplete (ContentDigest_from_hasher (hs_hasher self))) |}, None)
      end
  end.

Definition HashingStream_drop (self : HashingStream E) : HashingStream E :=
  {| hs_inner := hs_inner self; hs_hasher := hs_hasher self; hs_bytes_streamed := hs_bytes_streamed self;
     hs_terminal := once_set (hs_terminal self) TAborted |}.

Definition StreamHashState_digest (self : HashingStream E) : option ContentDigest :=
  match hs_terminal self with
  | Some (TComplete digest) => Some digest
  | Some (TFailed | TAborted) | None => None
  end.

Definition StreamHashState_status (self : HashingStream E) : StreamHashStatus :=
  match hs_terminal self with
  | Some (TComplete _) => Complete
  | Some TFailed => StreamFailed
  | Some TAborted => Aborted
  | None => InProgress
  end.

(** What a client does to the wrapper: poll it, or drop it. *)
Inductive HashingOp := PollNext | DropStream.
Definition hashing_op (self : HashingStream E) (o : HashingOp) : HashingStream E :=
  match o with PollNext => fst (HashingStream_poll_next self) | DropStream => HashingStream_drop self end.
End hashing.

(** ** Zstd *)

(** The decoder of the [zstd] or [ruzstd] crate: opening a frame, and reading at
    most a number of bytes of it. *)
Class Zstd := {
  ZstdDecoder : Type;
  zstd_open : list N → outcome CompressionError ZstdDecoder;
  zstd_read : ZstdDecoder → N → outcome CompressionError (list N) }.

Definition ZSTD_MAGIC : list N := [0x28; 0xB5; 0x2F; 0xFD].
Definition is_valid_magic (bytes : list N) : bool :=
  Nat.leb 4 (length bytes) && bool_decide (take 4 bytes = ZSTD_MAGIC).

Definition decompress_limited `{Zstd} (raw_bytes : list N) (max_output_bytes : N)
    : outcome CompressionError (list N) :=
  _ ← ensure (negb (is_empty raw_bytes)) EmptyBuffer;
  _ ← ensure (is_valid_magic raw_bytes)
        (InvalidMagic (le_combine (if Nat.leb 4 (length raw_bytes) then take 4 raw_bytes
                                   else raw_bytes ++ replicate (4 - length raw_bytes) 0)));
  decoder ← zstd_open raw_bytes;
  uncompressed ← zstd_read decoder (saturating_add64 max_output_bytes 1);
  if max_output_bytes <? usize_len uncompressed
  then Err (OutputLimitExceeded max_output_bytes (usize_len uncompressed))
  else Ok uncompressed.

(** What [Read::take] and [read_to_end] promise: the first bytes of the frame. *)
Class ZstdOk `{Zstd} := {
  zstd_frame : ZstdDecoder → list N;
  zstd_read_spec : ∀ d n out, zstd_read d n = Ok out → out = take (N.to_nat n) (zstd_frame d) }.

(** ** Facts: digests *)

Lemma ContentDigest_parse_is_sha256 raw :
  ContentDigest_parse raw =
    if is_sha256 raw then Ok (mkContentDigest raw)
    else Err (InvalidDescriptor raw
           (lit "expected canonical sha256: followed by 64 lowercase hexadecimal characters")).
Proof.
  unfold ContentDigest_parse, is_sha256.
  assert (Hf : ∀ l, forallb (λ byte, is_ascii_hexdigit byte && negb (in_range 65 90 byte)) l
    = forallb is_lower_hex l).
  { intros l. induction l as [|b l IH]; [done|]. cbn [forallb]. rewrite IH. f_equal.
    unfold is_ascii_hexdigit, is_lower_hex, is_ascii_digit, in_range.
    repeat match goal with |- context [?a <=? ?b] => destruct (N.leb_spec a b) end; simpl; try done; lia. }
  rewrite Hf. by destruct (_ && _).
Qed.

Lemma ContentDigest_parse_ok raw d :
  ContentDigest_parse raw = Ok d ↔ cd_str d = raw ∧ is_sha256 raw = true.
Proof.
  rewrite ContentDigest_parse_is_sha256. destruct d as [r]. destruct (is_sha256 raw); simpl; split.
  - by intros [= ->].
  - by intros [-> _].
  - done.
  - by intros [_ ?].
Qed.

Lemma from_hasher_canonical `{Sha2Ok} fed : is_sha256 (cd_str (ContentDigest_from_hasher fed)) = true.
Proof. apply format_digest_canonical, sha256_digest_bytes. Qed.

Lemma verify_size_ok target e a u : verify_size target e a = Ok u ↔ e = a.
Proof.
  unfold verify_size. destruct u. destruct (N.eqb_spec e a); simpl; split; naive_solver.
Qed.

Section integrity_facts.
Context `{Sha2Ok} `{HttpHeaders}.

(** A header agrees with a digest: it is absent, or its text is that digest. *)
Definition header_agrees (h : option HeaderValue) (d : ContentDigest) : Prop :=
  ∀ v, h = Some v → header_to_str v = Some (cd_str d).

Lemma verify_header_digest_ok target h fed u :
  verify_header_digest target h (ContentDigest_from_hasher fed) = Ok u ↔
  header_agrees h (ContentDigest_from_hasher fed).
Proof.
  set (d := ContentDigest_from_hasher fed). unfold verify_header_digest, header_agrees. destruct u.
  destruct h as [v|]; [|by split].
  split.
  - intros Hv v' [= <-]. apply bind_ok in Hv as (text & Ht%ok_or_ok & Hv).
    apply bind_ok in Hv as (p & Hp%map_err_ok & Hv). apply ContentDigest_parse_ok in Hp as [<- _].
    destruct (bool_decide_reflect (p = d)) as [<-|]; [done|]. by simpl in Hv.
  - intros Hv. specialize (Hv v eq_refl). rewrite Hv. cbn [ok_or mbind outcome_bind].
    assert (ContentDigest_parse (cd_str d) = Ok d) as ->.
    { apply ContentDigest_parse_ok. split; [done|]. apply from_hasher_canonical. }
    cbn [map_err mbind outcome_bind]. by rewrite bool_decide_eq_true_2.
Qed.

Lemma verify_expected_digest_ok target e fed u :
  verify_expected_digest target e (ContentDigest_from_hasher fed) = Ok u ↔
  e = cd_str (ContentDigest_from_hasher fed).
Proof.
  set (d := ContentDigest_from_hasher fed). unfold verify_expected_digest. destruct u. split.
  - intros Hv. apply bind_ok in Hv as (p & Hp & Hv). apply ContentDigest_parse_ok in Hp as [<- _].
    destruct (bool_decide_reflect (p = d)) as [<-|]; [done|]. by simpl in Hv.
  - intros ->.
    assert (ContentDigest_parse (cd_str d) = Ok d) as ->.
    { apply ContentDigest_parse_ok. split; [done|]. apply from_hasher_canonical. }
    cbn [mbind outcome_bind]. by rewrite bool_decide_eq_true_2.
Qed.

(** [verify_buffered_body] accepts a body exactly when the descriptor's size and the
    [Content-Length], where given, are its length, the [Docker-Content-Digest] header, where
    present, reads as its SHA-256 digest, and the requested digest, where given, is that digest;
    and then it returns that digest. *)
Theorem verify_buffered_body_spec target expected_digest header expected_size content_length body d :
  verify_buffered_body target expected_digest header expected_size content_length body = Ok d ↔
  d = ContentDigest_from_bytes body ∧
  (∀ n, expected_size = Some n ∨ content_length = Some n → n = usize_len body) ∧
  header_agrees header d ∧ (∀ e, expected_digest = Some e → e = cd_str d).
Proof.
  unfold verify_buffered_body, ContentDigest_from_bytes. cbn [app].
  assert (Hs : ∀ o u, match o with Some n => verify_size target n (usize_len body) | None => Ok tt end
    = Ok u ↔ ∀ n, o = Some n → n = usize_len body).
  { intros [n|] []; [rewrite verify_size_ok; naive_solver|naive_solver]. }
  assert (He : ∀ u, match expected_digest with
      | Some d => verify_expected_digest target d (ContentDigest_from_hasher body) | None => Ok tt end
    = Ok u ↔ ∀ e, expected_digest = Some e → e = cd_str (ContentDigest_from_hasher body)).
  { destruct expected_digest as [e|]; intros []; [rewrite verify_expected_digest_ok; naive_solver|naive_solver]. }
  split.
  - intros Hv. apply bind_ok in Hv as (u1 & V1 & Hv). apply bind_ok in Hv as (u2 & V2 & Hv).
    apply bind_ok in Hv as (u3 & V3%verify_header_digest_ok & Hv).
    apply bind_ok in Hv as (u4 & V4 & Hv). injection Hv as <-.
    pose proof (proj1 (Hs _ _) V1). pose proof (proj1 (Hs _ _) V2). pose proof (proj1 (He _) V4).
    naive_solver.
  - intros (-> & Hn & Hh & Hd). apply bind_ok. exists tt. split; [apply Hs; naive_solver|].
    apply bind_ok. exists tt. split; [apply Hs; naive_solver|].
    apply bind_ok. exists tt. split; [by apply verify_header_digest_ok|].
    apply bind_ok. exists tt. split; [by apply He|done].
Qed.

Lemma saturating_add64_le a b m :
  m < u64_bound - 1 → (m <? saturating_add64 a b) = (m <? a + b).
Proof.
  unfold saturating_add64. intros Hm. destruct (N.ltb_spec m (a + b)), (N.ltb_spec m (N.min (a + b) (u64_bound - 1))); lia.
Qed.

Lemma usize_len_app {A} (a b : list A) : usize_len (a ++ b) = usize_len a + usize_len b.
Proof. unfold usize_len. rewrite length_app. lia. Qed.

(** The reader from a state that has handed out [got]. *)
Lemma read_to_end_from s got body :
  vs_finished s = false → vs_hasher s = got → vs_bytes_seen s = usize_len got →
  usize_len got ≤ vs_max_bytes s → vs_max_bytes s < u64_bound - 1 →
  read_to_end (S (length (vs_inner s))) s got = Some (Ok body) ↔
  ∃ chunks, vs_inner s = Ok <$> chunks ∧ body = got ++ concat chunks ∧
    usize_len body ≤ vs_max_bytes s ∧
    (∀ n, vs_content_length s = Some n → n = usize_len body) ∧
    header_agrees (vs_header_digest s) (ContentDigest_from_bytes body) ∧
    vs_expected_digest s = cd_str (ContentDigest_from_bytes body).
Proof.
  remember (vs_inner s) as inner eqn:Hin. revert s got Hin.
  induction inner as [|item inner IH]; intros s got Hin Hf Hh Hseen Hle Hmax; cbn [read_to_end length];
    unfold VerifiedBlobStream_poll_next; rewrite Hf, <-Hin.
  - assert (Hres : ∀ u, (_ ← match vs_content_length s with
          | Some length => verify_size (vs_target s) length (vs_bytes_seen s) | None => Ok tt end;
        verify_stream_digest (vs_target s) (vs_expected_digest s) (vs_header_digest s)
          (ContentDigest_from_hasher (vs_hasher s))) = Ok u ↔
      (∀ n, vs_content_length s = Some n → n = usize_len got) ∧
      header_agrees (vs_header_digest s) (ContentDigest_from_bytes got) ∧
      vs_expected_digest s = cd_str (ContentDigest_from_bytes got)).
    { intros u. unfold ContentDigest_from_bytes. cbn [app]. rewrite Hh, Hseen.
      unfold verify_stream_digest. split.
      - intros Hv. apply bind_ok in Hv as (u1 & V1 & Hv). apply bind_ok in Hv as (u2 & V2 & Hv).
        apply verify_header_digest_ok in V2. apply verify_expected_digest_ok in Hv.
        split_and!; [|done|done]. intros n Hn. rewrite Hn in V1. by apply verify_size_ok in V1.
      - intros (V1 & V2 & V3). apply bind_ok. exists tt. split.
        { destruct (vs_content_length s); [|done]. apply verify_size_ok. by apply V1. }
        apply bind_ok. exists tt. split; [by apply verify_header_digest_ok|by apply verify_expected_digest_ok]. }
    destruct (_ ← _; _) as [u|e|] eqn:Hr.
    + specialize (Hres u). split.
      * intros [= <-]. exists []. apply proj1 in Hres. specialize (Hres eq_refl). rewrite app_nil_r. naive_solver.
      * intros (chunks & Hc & -> & _). destruct chunks; [|done]. simpl. by rewrite app_nil_r.
    + split; [done|]. intros (chunks & Hc & -> & _ & Hrest). destruct chunks; [|done]. simpl in Hrest.
      rewrite app_nil_r in Hrest. apply (Hres tt) in Hrest. done.
    + split; [done|]. intros (chunks & Hc & -> & _ & Hrest). destruct chunks; [|done]. simpl in Hrest.
      rewrite app_nil_r in Hrest. apply (Hres tt) in Hrest. done.
  - destruct item as [bytes|e|].
    + rewrite saturating_add64_le, Hseen by done.
      destruct (N.ltb_spec (vs_max_bytes s) (usize_len got + usize_len bytes)) as [Hbig|Hsmall].
      * split; [done|]. intros (chunks & Hc & -> & Hlen & _). destruct chunks as [|c chunks]; [done|].
        injection Hc as <- _. simpl in Hlen. rewrite !usize_len_app in Hlen. lia.
      * set (s' := vs_after _ _ _ _ _). specialize (IH s' (got ++ bytes)). rewrite IH; try done.
        -- simpl. split.
           ++ intros (chunks & -> & -> & Hrest). exists (bytes :: chunks). simpl. by rewrite app_assoc.
           ++ intros (chunks & Hc & -> & Hrest). destruct chunks as [|c chunks]; [done|].
              injection Hc as <- ->. exists chunks. simpl in *. by rewrite <-app_assoc.
        -- simpl. by rewrite Hh.
        -- simpl. rewrite usize_len_app. unfold saturating_add64. lia.
        -- simpl. rewrite usize_len_app. lia.
    + split; [done|]. intros (chunks & Hc & _). by destruct chunks.
    + split; [done|]. intros (chunks & Hc & _). by destruct chunks.
Qed.

(** Whoever reads a stream that was opened for a digest to its end has bytes of that digest. *)
Lemma opened_stream_authentic inner target digest headers max_bytes s body :
  VerifiedBlobStream_new inner target digest headers max_bytes = Ok s → max_bytes < u64_bound - 1 →
  read_to_end (S (length (vs_inner s))) s [] = Some (Ok body) → cd_str (ContentDigest_from_bytes body) = digest.
Proof.
  intros Hv Hmax Hread. unfold VerifiedBlobStream_new in Hv. apply bind_ok in Hv as (d & _ & Hv).
  apply bind_ok in Hv as (cl & _ & Hv). apply bind_ok in Hv as (u & _ & Hv). injection Hv as <-.
  apply read_to_end_from in Hread as (chunks & _ & _ & _ & _ & _ & He);
    [by symmetry|done|done|done|unfold usize_len; simpl; lia|done].
Qed.

(** C31: A consumer that reads a blob through [VerifiedBlobStream] to its end gets the body without
    an error exactly when every item of the response is data, the body is within the limit, has
    the announced length and its SHA-256 digest is the requested one and the header's: what was
    handed out is then the whole authentic blob.  The reader always terminates. *)
Theorem verified_stream_authentic inner target digest headers max_bytes s :
  VerifiedBlobStream_new inner target digest headers max_bytes = Ok s → max_bytes < u64_bound - 1 →
  is_Some (read_to_end (S (length inner)) s []) ∧
  ∀ body, read_to_end (S (length inner)) s [] = Some (Ok body) ↔
    ∃ chunks, inner = Ok <$> chunks ∧ body = concat chunks ∧ usize_len body ≤ max_bytes ∧
      (∀ n, parse_content_length headers = Ok (Some n) → n = usize_len body) ∧
      header_agrees (header_get headers (lit "docker-content-digest")) (ContentDigest_from_bytes body) ∧
      digest = cd_str (ContentDigest_from_bytes body).
Proof.
  intros Hn Hmax. unfold VerifiedBlobStream_new in Hn.
  apply bind_ok in Hn as (d & _ & Hn). apply bind_ok in Hn as (cl & Hcl%map_err_ok & Hn).
  apply bind_ok in Hn as (u & _ & Hn). injection Hn as <-. split.
  - clear. set (s := {| vs_inner := inner |}). change inner with (vs_inner s). generalize s ([] : list N). clear.
    intros s. remember (vs_inner s) as inner eqn:Hin. revert s Hin.
    induction inner as [|item inner IH]; intros s Hin got; cbn [read_to_end length];
      unfold VerifiedBlobStream_poll_next; rewrite <-Hin; destruct (vs_finished s); try by eexists.
    + destruct (_ ← _; _); by eexists.
    + destruct item; try by eexists. destruct (_ <? _); [by eexists|]. apply IH. done.
  - intros body. set (s := {| vs_inner := inner |}). change inner with (vs_inner s) at 1.
    rewrite read_to_end_from; simpl; try done; try (unfold usize_len; simpl; lia). rewrite Hcl.
    split; intros (chunks & ? & ? & ? & ? & ? & ?); exists chunks; split_and!; naive_solver.
Qed.

(** [collect_limited] returns a body exactly when every item of the stream is data and the
    total is within the limit, and it is their concatenation. *)
Theorem collect_limited_spec url max_bytes stream body :
  max_bytes < u64_bound - 1 →
  collect_limited url max_bytes stream = Ok body ↔
  ∃ chunks, stream = Ok <$> chunks ∧ body = concat chunks ∧ usize_len body ≤ max_bytes.
Proof.
  intros Hmax. unfold collect_limited.
  assert (Hgen : ∀ got, usize_len got ≤ max_bytes →
    collect_limited_from url max_bytes got stream = Ok body ↔
    ∃ chunks, stream = Ok <$> chunks ∧ body = got ++ concat chunks ∧ usize_len body ≤ max_bytes).
  { induction stream as [|item stream IH]; intros got Hgot; cbn [collect_limited_from].
    - split; [intros [= <-]; exists []; by rewrite app_nil_r|].
      intros (chunks & Hc & -> & _). destruct chunks; [|done]. simpl. by rewrite app_nil_r.
    - destruct item as [bytes|e|]; cbn [mbind outcome_bind].
      + rewrite saturating_add64_le by done. destruct (N.ltb_spec max_bytes (usize_len got + usize_len bytes)).
        * split; [done|]. intros (chunks & Hc & -> & Hlen). destruct chunks as [|c chunks]; [done|].
          injection Hc as <- _. simpl in Hlen. rewrite !usize_len_app in Hlen. lia.
        * rewrite IH by (rewrite usize_len_app; lia). split.
          -- intros (chunks & -> & -> & Hrest). exists (bytes :: chunks). simpl. by rewrite app_assoc.
          -- intros (chunks & Hc & -> & Hrest). destruct chunks as [|c chunks]; [done|].
             injection Hc as <- ->. exists chunks. simpl in *. by rewrite <-app_assoc.
      + split; [done|]. intros (chunks & Hc & _). by destruct chunks.
      + split; [done|]. intros (chunks & Hc & _). by destruct chunks. }
  apply Hgen. unfold usize_len. simpl. lia.
Qed.
End integrity_facts.

(** ** Facts: hashing streams *)

Section hashing_facts.
Context `{Sha2} {E : Type}.

Definition hashing_run (inner : list (outcome E (list N))) (ops : list HashingOp) : HashingStream E :=
  foldl hashing_op (HashingStream_new inner) ops.

(** What a wrapper has seen of the items it was made from. *)
Definition hashing_inv (items : list (outcome E (list N))) (s : HashingStream E) : Prop :=
  ∃ chunks, hs_hasher s = concat chunks ∧ hs_bytes_streamed s = wrap64 (usize_len (concat chunks)) ∧
    match hs_terminal s with
    | None => items = (Ok <$> chunks) ++ hs_inner s
    | Some (TComplete d) => items = Ok <$> chunks ∧ d = ContentDigest_from_bytes (concat chunks)
    | Some _ => True
    end.

Lemma hashing_inv_new items : hashing_inv items (HashingStream_new items).
Proof. by exists []. Qed.

Lemma hashing_inv_poll items s : Forall (λ item, item ≠ Panic) items →
  hashing_inv items s → hashing_inv items (fst (HashingStream_poll_next s)).
Proof.
  intros Hnp (chunks & Hh & Hb & Ht). unfold HashingStream_poll_next, hashing_inv.
  destruct (hs_terminal s) as [t|] eqn:Et; simpl; [exists chunks; by rewrite Et|].
  destruct (hs_inner s) as [|[bytes|e|] rest] eqn:Ei; simpl.
  - exists chunks. split_and!; try done; [|by rewrite Hh]. by rewrite app_nil_r in Ht.
  - exists (chunks ++ [bytes]). rewrite concat_app, Hh, Hb, fmap_app, usize_len_app.
    cbn [concat app]. rewrite app_nil_r. split_and!; [done| |by rewrite <-app_assoc].
    unfold wrapping_add, wrap64. rewrite N.Div0.add_mod_idemp_l. done.
  - by exists chunks.
  - exfalso. rewrite Ht in Hnp. apply Forall_app in Hnp as [_ Hnp]. by apply Forall_cons in Hnp as [? _].
Qed.

Lemma hashing_inv_drop items s : hashing_inv items s → hashing_inv items (HashingStream_drop s).
Proof.
  intros (chunks & Hh & Hb & Ht). exists chunks. unfold HashingStream_drop. simpl.
  split_and!; [done..|]. by destruct (hs_terminal s) as [[]|].
Qed.

(** The digest of a wrapper is that of all the items. *)
Lemma hashing_inv_digest items s d :
  hashing_inv items s → StreamHashState_digest s = Some d →
  ∃ chunks, items = Ok <$> chunks ∧ d = ContentDigest_from_bytes (concat chunks) ∧
    hs_hasher s = concat chunks ∧ hs_bytes_streamed s = wrap64 (usize_len (concat chunks)).
Proof.
  intros (chunks & Hh & Hb & Ht). unfold StreamHashState_digest.
  destruct (hs_terminal _) as [[d'| |]|]; try done. intros [= <-]. destruct Ht as [-> ->]. by exists chunks.
Qed.

(** Whatever sequence of polls and drops the wrapper goes through, it offers a digest exactly
    in state [Complete], and then the underlying stream ended without an error and the digest is
    that of all its data: never of a prefix. *)
Theorem hashing_stream_digest inner ops d :
  Forall (λ item, item ≠ Panic) inner →
  StreamHashState_digest (hashing_run inner ops) = Some d →
  StreamHashState_status (hashing_run inner ops) = Complete ∧
  ∃ chunks, inner = Ok <$> chunks ∧ d = ContentDigest_from_bytes (concat chunks) ∧
    hs_bytes_streamed (hashing_run inner ops) = wrap64 (usize_len (concat chunks)).
Proof.
  intros Hnp Hd. assert (Hinv : hashing_inv inner (hashing_run inner ops)).
  { clear Hd. unfold hashing_run. induction ops as [|o ops IH] using rev_ind; [apply hashing_inv_new|].
    rewrite foldl_app. cbn [foldl]. destruct o; [by apply hashing_inv_poll|by apply hashing_inv_drop]. }
  split.
  - unfold StreamHashState_digest in Hd. unfold StreamHashState_status.
    by destruct (hs_terminal _) as [[]|].
  - destruct (hashing_inv_digest _ _ _ Hinv Hd) as (chunks & ? & ? & _ & ?). by exists chunks.
Qed.
End hashing_facts.

(** ** Facts: decompression, limits, ranges *)

(** Decompression is bounded: a result is the whole frame and within the limit, and at most
    one byte more than the limit is ever asked of the decoder; a larger frame is refused. *)
Theorem decompress_limited_bounded `{ZstdOk} raw max out :
  max < u64_bound - 1 →
  decompress_limited raw max = Ok out →
  is_valid_magic raw = true ∧ usize_len out ≤ max ∧
  ∃ d, zstd_open raw = Ok d ∧ zstd_read d (max + 1) = Ok out ∧ out = zstd_frame d.
Proof.
  intros Hmax Hd. unfold decompress_limited in Hd.
  apply bind_ok in Hd as (u1 & V1%ensure_ok & Hd). apply bind_ok in Hd as (u2 & V2%ensure_ok & Hd).
  apply bind_ok in Hd as (d & Vd & Hd). apply bind_ok in Hd as (o & Ho & Hd).
  destruct (N.ltb_spec max (usize_len o)) as [|Hle]; [done|]. injection Hd as <-.
  assert (saturating_add64 max 1 = max + 1) as Hsat by (unfold saturating_add64; lia).
  rewrite Hsat in Ho. split; [done|]. split; [done|]. exists d. split_and!; [done..|].
  pose proof (zstd_read_spec _ _ _ Ho) as Hspec. rewrite Hspec in Hle |- *.
  apply take_ge. unfold usize_len in Hle. rewrite length_take in Hle. lia.
Qed.

(** Every [OciReadLimits] that [try_new] or one of the nine [with_*] builders returns has all
    nine limits positive, the eight that size an allocation fit in a [usize] on the platform, and
    a builder changes its own field only. *)
Theorem limits_usable `{Build} f self value limits :
  OciReadLimits_with f self value = Ok limits →
  Forall (λ '(_, v), 0 < v < usize_bound) (limit_values limits) ∧ 0 < max_streamed_blob_bytes limits ∧
  let get g l := match g with
    | FManifestBytes => max_manifest_bytes l | FBufferedBlobBytes => max_buffered_blob_bytes l
    | FStreamedBlobBytes => max_streamed_blob_bytes l
    | FIndexUncompressedBytes => max_index_uncompressed_bytes l
    | FImageIndexDescriptors => max_image_index_descriptors l
    | FManifestLayers => max_manifest_layers l | FShardEntries => rl_max_shard_entries l
    | FGcRoots => rl_max_gc_roots l | FParallelIndexReads => max_parallel_index_reads l end in
  ∀ g, get g limits = if decide (g = f) then value else get g self.
Proof.
  intros Hw. unfold OciReadLimits_with, OciReadLimits_try_new in Hw.
  apply bind_ok in Hw as (u & Hv & Hw). injection Hw as <-.
  unfold OciReadLimits_validate in Hv. apply bind_ok in Hv as (u' & Hf%for_each_ok & Hs%ensure_ok).
  split_and!.
  - eapply Forall_impl; [exact Hf|]. intros [field v] Hok.
    apply bind_ok in Hok as (u1 & V1%ensure_ok & Hok). apply bind_ok in Hok as (v' & V2%ok_or_ok & _).
    apply try_from_Some in V2 as [_ ?]. apply negb_true_iff, N.eqb_neq in V1. lia.
  - apply negb_true_iff, N.eqb_neq in Hs. lia.
  - intros get g. by destruct f, g.
Qed.

(** The three spellings of an acknowledged range ("bytes=a-b", "bytes a-b" and "a-b") read
    back as the pair of offsets. *)
Theorem parse_range_header_roundtrip prefix a b :
  prefix = lit "bytes=" ∨ prefix = lit "bytes " ∨ prefix = [] → a < u64_bound → b < u64_bound →
  parse_range_header (prefix ++ show_N a ++ lit "-" ++ show_N b) = Some (a, b).
Proof.
  intros Hp Ha Hb. destruct (show_N_spec a) as (Hna & Hda & _), (show_N_spec b) as (Hnb & Hdb & _).
  pose proof (parse_u64_show a Ha) as Pa. pose proof (parse_u64_show b Hb) as Pb.
  set (sa := show_N a) in *. set (sb := show_N b) in *.
  destruct (digits_no_ws sa Hda) as [Wa _], (digits_no_ws sb Hdb) as [Wb _].
  assert (Hno : ∀ s c, Forall is_digit s → c < 48 → c ∉ s).
  { intros s c Hs Hc Hin. rewrite Forall_forall in Hs. apply Hs, is_digit_range in Hin. lia. }
  set (body := sa ++ lit "-" ++ sb).
  assert (Wbody : no_ws body).
  { unfold body, no_ws. rewrite !Forall_app. split_and!; [done|by repeat constructor|done]. }
  assert (Hval : (match strip_prefix (lit "bytes=") (trim (prefix ++ body)) with
     | Some v => v
     | None => match strip_prefix (lit "bytes ") (trim (prefix ++ body)) with Some v => v | None => trim (prefix ++ body) end
     end) = body).
  { destruct Hp as [->|[->| ->]].
    - rewrite trimmed_eq; [|by apply trimmed_no_ws, Forall_app; split; [by repeat constructor|]].
      assert (strip_prefix (lit "bytes=") (lit "bytes=" ++ body) = Some body) as -> by by apply strip_prefix_Some.
      done.
    - rewrite trimmed_eq.
      2:{ change (trimmed ([98; 121; 116; 101; 115; 32] ++ body)).
          apply (trimmed_app [98] [121; 116; 101; 115; 32] body); [..|].
          all: try (by repeat constructor). all: try (by apply trimmed_no_ws).
          all: unfold body; by destruct sa. }
      assert (strip_prefix (lit "bytes=") (lit "bytes " ++ body) = None) as -> by done.
      assert (strip_prefix (lit "bytes ") (lit "bytes " ++ body) = Some body) as -> by by apply strip_prefix_Some.
      done.
    - rewrite app_nil_l, trimmed_eq by (by apply trimmed_no_ws).
      assert (∀ r, strip_prefix (lit "bytes" ++ r) body = None) as Hnone.
      { intros r. unfold body. destruct sa as [|c sa']; [done|].
        apply Forall_cons in Hda as [Hc _]. apply is_digit_range in Hc.
        destruct (strip_prefix _ _) as [v|] eqn:Hs; [|done].
        apply strip_prefix_Some in Hs. injection Hs as -> _. lia. }
      change (lit "bytes=") with (lit "bytes" ++ lit "="). change (lit "bytes ") with (lit "bytes" ++ lit " ").
      by rewrite !Hnone. }
  unfold parse_range_header. fold body. rewrite Hval.
  assert (split_once 47 body = None) as ->.
  { apply split_once_None. unfold body. rewrite !not_elem_of_app. split_and!; [by apply Hno| |by apply Hno].
    intros Hin. vm_compute in Hin. by apply list_elem_of_singleton in Hin. }
  rewrite trimmed_eq by (by apply trimmed_no_ws). change body with (sa ++ 45 :: sb).
  rewrite (split_once_app 45 sa sb) by by apply Hno. cbn [mbind option_bind].
  rewrite !trimmed_eq by (by apply trimmed_no_ws). rewrite Pa, Pb. done.
Qed.

(** ** Witnesses *)

Definition sample_http : HttpHeaders := {|
  HeaderMap := list (list N * list N);
  HeaderValue := list N;
  header_new := [];
  header_insert := λ n v m, (n, v) :: filter (λ p, p.1 ≠ n) m;
  header_iter := λ m, m;
  header_value_from_str := λ v, if forallb (in_range 32 126) v then Some v else None;
  header_get := λ m n, (λ p, p.2.2) <$> list_find (λ p, p.1 = n) m;
  header_get_all := λ m n, snd <$> filter (λ p, p.1 = n) m;
  header_to_str := λ v, if forallb (in_range 32 126) v then Some v else None |}.

Definition sample_body : list N := lit "oci body".
Definition sample_digest : list N := cd_str (@ContentDigest_from_bytes sample_sha2 sample_body).
Definition sample_headers : list (list N * list N) :=
  [(lit "content-length", lit "8"); (lit "docker-content-digest", sample_digest)].

Lemma verify_buffered_body_spec_witness :
  ∃ d, @verify_buffered_body sample_sha2 sample_http (lit "blob") (Some sample_digest)
    (Some sample_digest) (Some 8) (Some 8) sample_body = Ok d ∧ cd_str d = sample_digest.
Proof.
  exists (@ContentDigest_from_bytes sample_sha2 sample_body). split; [|done].
  apply (@verify_buffered_body_spec sample_sha2 sample_sha2_ok sample_http).
  split_and!; [done|by intros n [[= <-]|[= <-]]| |by intros e [= <-]].
  intros v [= <-]. by vm_compute.
Defined.

Lemma verified_stream_authentic_witness :
  let inner := [Ok (lit "oci "); Ok (lit "body")] in
  ∃ s, @VerifiedBlobStream_new sample_http inner (lit "blob") sample_digest sample_headers 1024 = Ok s ∧
    @read_to_end sample_sha2 sample_http 3 s [] = Some (Ok sample_body).
Proof.
  intros inner. destruct (@VerifiedBlobStream_new sample_http inner (lit "blob") sample_digest sample_headers 1024)
    as [s|e|] eqn:Hs; [|by vm_compute in Hs..].
  exists s. split; [done|].
  apply (@verified_stream_authentic sample_sha2 sample_sha2_ok sample_http inner (lit "blob") sample_digest
    sample_headers 1024 s Hs); [by vm_compute|].
  exists [lit "oci "; lit "body"]. split_and!; [done|done|by vm_compute| | |done].
  - intros n Hn. vm_compute in Hn. by injection Hn as <-.
  - intros v Hv. vm_compute in Hv. injection Hv as <-. by vm_compute.
Defined.

Lemma collect_limited_spec_witness :
  collect_limited (lit "blob") 5 [Ok [1; 2]; Ok [3; 4; 5]] = Ok [1; 2; 3; 4; 5].
Proof.
  apply (collect_limited_spec (lit "blob") 5 [Ok [1; 2]; Ok [3; 4; 5]]); [by vm_compute|].
  by exists [[1; 2]; [3; 4; 5]].
Defined.

Lemma hashing_stream_digest_witness :
  let inner : list (outcome TransportError (list N)) := [Ok (lit "oci "); Ok (lit "body")] in
  let ops := [PollNext; PollNext; PollNext; DropStream] in
  ∃ chunks, inner = Ok <$> chunks ∧ concat chunks = sample_body.
Proof.
  intros inner ops.
  assert (Hd : @StreamHashState_digest TransportError (@hashing_run sample_sha2 TransportError inner ops)
    = Some (mkContentDigest sample_digest)) by by vm_compute.
  destruct (@hashing_stream_digest sample_sha2 TransportError inner ops _ ltac:(by repeat constructor) Hd)
    as [_ (chunks & Hc & _ & _)].
  exists chunks. split; [done|]. clear -Hc. destruct chunks as [|c1 [|c2 [|c3 cs]]]; try discriminate Hc.
  injection Hc as <- <-. reflexivity.
Defined.

(** A decoder whose frames are stored: what follows the magic number. *)
Definition sample_zstd : Zstd := {|
  ZstdDecoder := list N;
  zstd_open := λ raw, Ok (drop 4 raw);
  zstd_read := λ d n, Ok (take (N.to_nat n) d) |}.
Definition sample_zstd_ok : @ZstdOk sample_zstd.
Proof. refine {| zstd_frame := (λ d, d) : @ZstdDecoder sample_zstd → list N |}. by intros d n out [= <-]. Defined.

Lemma decompress_limited_bounded_witness :
  @decompress_limited sample_zstd (ZSTD_MAGIC ++ [1; 2; 3]) 3 = Ok [1; 2; 3] ∧ usize_len [1; 2; 3] ≤ 3.
Proof.
  split; [by vm_compute|].
  apply (@decompress_limited_bounded sample_zstd sample_zstd_ok (ZSTD_MAGIC ++ [1; 2; 3]) 3 [1; 2; 3]);
    by vm_compute.
Defined.

Lemma limits_usable_witness :
  ∃ limits, @OciReadLimits_with {| usize_bits := 32; overflow_checks := true; usize_min := ltac:(lia) |}
      FManifestLayers OciReadLimits_default 20 = Ok limits ∧ 0 < max_streamed_blob_bytes limits.
Proof.
  eexists. split; [by vm_compute|].
  apply (@limits_usable {| usize_bits := 32; overflow_checks := true; usize_min := ltac:(lia) |}
    FManifestLayers OciReadLimits_default 20). by vm_compute.
Defined.

Lemma parse_range_header_roundtrip_witness :
  parse_range_header (lit "bytes=0-1023") = Some (0, 1023).
Proof.
  apply (parse_range_header_roundtrip (lit "bytes=") 0 1023); [by left|by vm_compute..].
Defined.
