(* ===== verification/Endpoint.v ===== *)
(** * Endpoint: registry addresses
    (crates/nixcache-oci/src/backend/endpoint.rs and client/endpoint.rs)

    [http::Uri] is the interface [UriLib]; the address parsers of the standard
    library are modelled. *)

From S2P Require Import Prelude Machine Str Text Error Types OciError Transport.

Local Open Scope N_scope.

(** The part of [http::Uri] the endpoint uses; a parse error is its text. *)
Class UriLib := {
  Uri : Type;
  uri_parse : list N → outcome (list N) Uri;
  uri_scheme_str : Uri → option (list N);
  uri_authority : Uri → option (list N);
  uri_host : Uri → option (list N);
  uri_query : Uri → option (list N);
  uri_path : Uri → list N }.

(** ** Strings *)

(** [str::find] of a text, as the parts before and after the first occurrence. *)
Fixpoint split_at (p s : list N) : option (list N * list N) :=
  match strip_prefix p s with
  | Some rest => Some ([], rest)
  | None => match s with
            | [] => None
            | c :: s => '(a, b) ← split_at p s; Some (c :: a, b)
            end
  end.
Definition is_slash (c : N) : bool := c =? 47.
Definition trim_start_slash (s : list N) : list N := drop_while is_slash s.
Definition trim_slash (s : list N) : list N :=
  reverse (trim_start_slash (reverse (trim_start_slash s))).
(** [str::rsplit_once]. *)
Definition rsplit_once (c : N) (s : list N) : option (list N * list N) :=
  '(a, b) ← split_once c (reverse s); Some (reverse b, reverse a).
Definition count_char (c : N) (s : list N) : nat := length (filter (λ d, d = c) s).
Definition is_ascii_whitespace (c : N) : bool :=
  (c =? 32) || (c =? 9) || (c =? 10) || (c =? 12) || (c =? 13).
Definition parse_u16 (s : list N) : outcome ParseIntError N :=
  match s with
  | [] => Err PieEmpty
  | [43] | [45] => Err PieInvalidDigit
  | 43 :: s => parse_digits u16_bound 0 s
  | _ => parse_digits u16_bound 0 s
  end.

(** ** [FromStr] for [Ipv4Addr], [Ipv6Addr] and [IpAddr] (core::net) *)

Definition digit_value (radix c : N) : option N :=
  if in_range 48 57 c then Some (c - 48)
  else if (radix =? 16) && in_range 97 102 c then Some (c - 87)
  else if (radix =? 16) && in_range 65 70 c then Some (c - 55)
  else None.

(** The digits of a number: their values, and the rest of the text. *)
Fixpoint read_digits (radix : N) (s : list N) : list N * list N :=
  match s with
  | [] => ([], [])
  | c :: s' => match digit_value radix c with
               | Some d => let '(ds, rest) := read_digits radix s' in (d :: ds, rest)
               | None => ([], s)
               end
  end.

(** [Parser::read_number]: at most [max_digits] digits, a value below [bound]. *)
Definition read_number (radix bound : N) (max_digits : nat) (allow_zero_prefix : bool) (s : list N)
    : option (N * list N) :=
  let '(ds, rest) := read_digits radix s in
  let value := foldl (λ a d, a * radix + d) 0 ds in
  if Nat.eqb (length ds) 0 || Nat.ltb max_digits (length ds) || (bound <=? value)
     || (negb allow_zero_prefix && bool_decide (head ds = Some 0) && Nat.ltb 1 (length ds))
  then None else Some (value, rest).

Definition read_given_char (c : N) (s : list N) : option (list N) :=
  match s with d :: s => if c =? d then Some s else None | [] => None end.

(** [read_separator]: the separator before every element but the first. *)
Definition read_separator {A} (sep : N) (index : nat) (inner : list N → option (A * list N))
    (s : list N) : option (A * list N) :=
  match index with O => inner s | S _ => s ← read_given_char sep s; inner s end.

Definition read_octet (s : list N) : option (N * list N) := read_number 10 256 3 false s.
Definition read_ipv4_addr (s : list N) : option (list N * list N) :=
  '(a, s) ← read_octet s;
  '(b, s) ← read_separator 46 1 read_octet s;
  '(c, s) ← read_separator 46 2 read_octet s;
  '(d, s) ← read_separator 46 3 read_octet s;
  Some ([a; b; c; d], s).

(** [read_groups]: the groups from index [i] below [limit], whether the last two
    were an IPv4 address, and the rest. *)
Fixpoint read_groups (left i : nat) (s : list N) : list N * bool * list N :=
  match left with
  | O => ([], false, s)
  | S left' =>
      match (if Nat.ltb 1 left then read_separator 58 i read_ipv4_addr s else None) with
      | Some (v4, s) => ([nth 0 v4 0 * 256 + nth 1 v4 0; nth 2 v4 0 * 256 + nth 3 v4 0], true, s)
      | None =>
          match read_separator 58 i (read_number 16 u16_bound 4 true) s with
          | Some (g, s) => let '(gs, v4, s) := read_groups left' (S i) s in (g :: gs, v4, s)
          | None => ([], false, s)
          end
      end
  end.

Definition read_ipv6_addr (s : list N) : option (list N * list N) :=
  let '(head, head_ipv4, s) := read_groups 8 0 s in
  if Nat.eqb (length head) 8 then Some (head, s)
  else if head_ipv4 then None
  else
    s ← read_given_char 58 s;
    s ← read_given_char 58 s;
    let limit := (8 - (length head + 1))%nat in
    let '(tail, _, s) := read_groups limit 0 s in
    Some (head ++ replicate (8 - length head - length tail) 0 ++ tail, s).

Inductive IpAddr := V4 (octets : list N) | V6 (groups : list N).

(** The whole text must be read. *)
Definition parse_all {A} (r : option (A * list N)) : option A :=
  '(a, rest) ← r; if is_empty rest then Some a else None.
Definition Ipv6Addr_parse (s : list N) : option (list N) := parse_all (read_ipv6_addr s).
Definition IpAddr_parse (s : list N) : option IpAddr :=
  parse_all (match read_ipv4_addr s with
             | Some (a, s) => Some (V4 a, s)
             | None => '(g, s) ← read_ipv6_addr s; Some (V6 g, s)
             end).

Definition is_loopback (a : IpAddr) : bool :=
  match a with
  | V4 os => nth 0 os 0 =? 127
  | V6 gs => bool_decide (gs = [0; 0; 0; 0; 0; 0; 0; 1])
  end.
Definition is_unspecified (a : IpAddr) : bool :=
  match a with V4 os => bool_decide (os = [0; 0; 0; 0]) | V6 gs => bool_decide (gs = replicate 8 0) end.

(** ** RegistryEndpoint *)

Definition RegistryScheme_as_str (s : RegistryScheme) : list N :=
  match s with Http => lit "http" | Https => lit "https" end.

Record RegistryEndpoint := {
  re_scheme : RegistryScheme;
  re_host : list N;
  re_port : option N;
  re_authority : list N;
  re_base_path : list N }.

Definition parse_scheme (input scheme : list N) : outcome RegistryEndpointError RegistryScheme :=
  let s := to_ascii_lowercase scheme in
  if bool_decide (s = lit "http") then Ok Http
  else if bool_decide (s = lit "https") then Ok Https
  else Err (UnsupportedScheme input scheme).

Definition parse_port (input : list N) (port : option (list N))
    : outcome RegistryEndpointError (option N) :=
  match port with
  | None => Ok None
  | Some port =>
      _ ← ensure (negb (is_empty port || negb (forallb is_ascii_digit (utf8 port))))
            (InvalidAuthority input (lit "port must be a decimal number"));
      port ← map_err (λ _, InvalidAuthority input (lit "port is outside the valid range")) (parse_u16 port);
      Ok (Some port)
  end.

Definition invalid_host (host : list N) : bool :=
  is_empty host
  || any_char (λ c, is_ascii_whitespace c || (c =? 47) || (c =? 63) || (c =? 35)) host.

Definition parse_bracketed (input authority : list N)
    : outcome RegistryEndpointError (list N * option N) :=
  '(before, suffix) ← ok_or (InvalidAuthority input (lit "unterminated IPv6 literal"))
                        (split_once 93 authority);
  let host := drop 1 before in
  _ ← ok_or (InvalidAuthority input (lit "invalid IPv6 literal")) (Ipv6Addr_parse host);
  port ← match suffix with
         | [] => Ok None
         | suffix =>
             port ← ok_or (InvalidAuthority input (lit "characters after IPv6 literal must be a port"))
                      (strip_prefix [58] suffix);
             parse_port input (Some port)
         end;
  Ok (to_ascii_lowercase host, port).

Definition parse_plain (input authority : list N)
    : outcome RegistryEndpointError (list N * option N) :=
  _ ← ensure (negb (contains_char 91 authority || contains_char 93 authority
                    || Nat.ltb 1 (count_char 58 authority)))
        (InvalidAuthority input (lit "IPv6 literals must be enclosed in brackets"));
  '(host, port) ← match rsplit_once 58 authority with
                  | Some (host, port) => port ← parse_port input (Some port); Ok (host, port)
                  | None => Ok (authority, None)
                  end;
  Ok (to_ascii_lowercase host, port).

Definition parse_authority (input authority : list N)
    : outcome RegistryEndpointError (list N * option N) :=
  _ ← ensure (negb (is_empty authority)) (MissingAuthority input);
  '(host, port) ← (if starts_with [91] authority then parse_bracketed input authority
                   else parse_plain input authority);
  _ ← ensure (negb (invalid_host host))
        (InvalidAuthority input (lit "host is empty or contains an invalid character"));
  Ok (host, port).

Definition format_authority (host : list N) (port : option N) : list N :=
  let host := if contains_char 58 host then lit "[" ++ host ++ lit "]" else host in
  match port with
  | Some port => host ++ lit ":" ++ show_N port
  | None => host
  end.

Definition normalize_base_path (path : list N) : list N :=
  let path := trim_slash path in
  if is_empty path then [] else 47 :: path.

Definition is_local_host (host : list N) : bool :=
  bool_decide (host = lit "localhost")
  || match IpAddr_parse host with
     | Some address => is_loopback address || is_unspecified address
     | None => false
     end.

Definition origin (self : RegistryEndpoint) : list N :=
  RegistryScheme_as_str (re_scheme self) ++ lit "://" ++ re_authority self.
Definition RegistryEndpoint_display (self : RegistryEndpoint) : list N :=
  origin self ++ re_base_path self.
Definition api_url (self : RegistryEndpoint) (path : list N) : list N :=
  origin self ++ re_base_path self ++ [47] ++ trim_start_slash path.
Definition replace_host (self : RegistryEndpoint) (host : list N) : RegistryEndpoint :=
  let host := to_ascii_lowercase host in
  {| re_scheme := re_scheme self; re_host := host; re_port := re_port self;
     re_authority := format_authority host (re_port self); re_base_path := re_base_path self |}.

Section uri.
Context `{UriLib}.

Definition parse_with_scheme (input : list N) (scheme : RegistryScheme) (authority_and_path : list N)
    : outcome RegistryEndpointError RegistryEndpoint :=
  _ ← ensure (negb (is_empty authority_and_path || starts_with [47] authority_and_path))
        (MissingAuthority input);
  uri ← map_err (InvalidAuthority input)
          (uri_parse (RegistryScheme_as_str scheme ++ lit "://" ++ authority_and_path));
  authority ← ok_or (MissingAuthority input) (uri_authority uri);
  _ ← ensure (negb (contains_char 64 authority)) (UserInfo input);
  _ ← ensure (match uri_query uri with Some _ => false | None => true end) (QueryOrFragment input);
  '(host, port) ← parse_authority input authority;
  Ok {| re_scheme := scheme; re_host := host; re_port := port;
        re_authority := format_authority host port;
        re_base_path := normalize_base_path (uri_path uri) |}.

Definition RegistryEndpoint_parse (input : list N) : outcome RegistryEndpointError RegistryEndpoint :=
  let trimmed := trim input in
  _ ← ensure (negb (is_empty trimmed)) EndpointEmpty;
  _ ← ensure (negb (contains_char 35 trimmed)) (QueryOrFragment trimmed);
  match split_at (lit "://") trimmed with
  | Some (raw_scheme, rest) =>
      scheme ← parse_scheme trimmed raw_scheme;
      parse_with_scheme trimmed scheme rest
  | None =>
      provisional ← parse_with_scheme trimmed Https trimmed;
      if is_local_host (re_host provisional) then parse_with_scheme trimmed Http trimmed
      else Ok provisional
  end.

Definition resolve_location (self : RegistryEndpoint) (location : list N)
    : outcome RegistryEndpointError (list N) :=
  let location := trim location in
  _ ← ensure (negb (is_empty location)) (InvalidLocation location (lit "location is empty"));
  _ ← ensure (negb (contains_char 35 location))
        (InvalidLocation location (lit "fragments are not valid request targets"));
  match split_at (lit "://") location with
  | Some (raw_scheme, rest) =>
      scheme ← map_err (λ e, InvalidLocation location (display_endpoint_error e))
                 (parse_scheme location raw_scheme);
      uri ← map_err (InvalidLocation location) (uri_parse location);
      authority ← ok_or (InvalidLocation location (lit "absolute location has no authority"))
                    (uri_authority uri);
      _ ← ensure (negb (contains_char 64 authority))
            (InvalidLocation location (lit "userinfo is not allowed"));
      _ ← map_err (λ e, InvalidLocation location (display_endpoint_error e))
            (parse_authority location authority);
      Ok (RegistryScheme_as_str scheme ++ lit "://" ++ rest)
  | None =>
      _ ← ensure (negb (starts_with (lit "//") location))
            (InvalidLocation location (lit "network-path references are not supported"));
      let resolved :=
        if starts_with [47] location then origin self ++ location
        else origin self ++ re_base_path self ++ lit "/" ++ trim_start_slash location in
      _ ← map_err (InvalidLocation location) (uri_parse resolved);
      Ok resolved
  end.

(** ** client/endpoint.rs *)

Definition manifest_url (e : RegistryEndpoint) (repo reference : list N) : list N :=
  api_url e (lit "/v2/" ++ repo ++ lit "/nix-cache/manifests/" ++ reference).
Definition blob_url (e : RegistryEndpoint) (repo digest : list N) : list N :=
  api_url e (lit "/v2/" ++ repo ++ lit "/nix-cache/blobs/" ++ digest).
Definition upload_url (e : RegistryEndpoint) (repo : list N) : list N :=
  api_url e (lit "/v2/" ++ repo ++ lit "/nix-cache/blobs/uploads/").
Definition tags_url (e : RegistryEndpoint) (repo : list N) : list N :=
  api_url e (lit "/v2/" ++ repo ++ lit "/nix-cache/tags/list").
Definition with_digest (url digest : list N) : list N :=
  url ++ (if contains_char 63 url then lit "&" else lit "?") ++ lit "digest=" ++ digest.

Definition upper_hex_digit (value : N) : N := if value <? 10 then 48 + value else 65 + value - 10.
Definition encode_query_byte (byte : N) : list N :=
  if is_ascii_alphanumeric byte || (byte =? 45) || (byte =? 46) || (byte =? 95) || (byte =? 126)
  then [byte]
  else [37; upper_hex_digit (N.shiftr byte 4); upper_hex_digit (N.land byte 15)].
Definition encode_query_value (value : list N) : list N := utf8 value ≫= encode_query_byte.
Definition with_last_cursor (url cursor : list N) : list N :=
  url ++ lit "?n=100&last=" ++ encode_query_value cursor.

Definition resolved_location (e : RegistryEndpoint) (location : list N) : outcome OciError (list N) :=
  map_err InvalidEndpoint (resolve_location e location).

Definition update_location `{HttpHeaders} (e : RegistryEndpoint) (session_url : list N) (headers : HeaderMap)
    : outcome OciError (list N) :=
  match header_get headers (lit "location") with
  | Some location =>
      location ← ok_or (OciTransport (HeaderParse (lit "Location"))) (header_to_str location);
      resolved_location e location
  | None => Ok session_url
  end.
End uri.

(** ** Facts: strings *)

Lemma split_at_Some p s a b : split_at p s = Some (a, b) → s = a ++ p ++ b.
Proof.
  revert a b. induction s as [|c s IH]; intros a b; cbn [split_at].
  - destruct (strip_prefix p []) as [r|] eqn:Hp; [|done]. intros [= <- <-]. by apply strip_prefix_Some in Hp.
  - destruct (strip_prefix p (c :: s)) as [r|] eqn:Hp.
    + intros [= <- <-]. by apply strip_prefix_Some in Hp.
    + destruct (split_at p s) as [[a' b']|] eqn:Hs; [|done]. intros [= <- <-]. simpl. f_equal. by apply IH.
Qed.

Lemma drop_while_head f s : ∀ c r, drop_while f s = c :: r → f c = false.
Proof. induction s as [|d s IH]; simpl; [done|]. destruct (f d) eqn:Hd; [done|]. by intros c r [= <- <-]. Qed.

Lemma trim_start_slash_head s : starts_with [47] (trim_start_slash s) = false.
Proof.
  destruct (starts_with _ _) eqn:Hs; [|done]. apply starts_with_true in Hs as [r Hr].
  by apply drop_while_head in Hr.
Qed.

(** A normalized base path: empty, or a slash, a text, and no slash at its end. *)
Definition base_path_ok (p : list N) : Prop :=
  p = [] ∨ ∃ q, p = 47 :: q ∧ q ≠ [] ∧ starts_with [47] q = false ∧ ends_with [47] q = false.

Lemma normalize_base_path_ok path : base_path_ok (normalize_base_path path).
Proof.
  unfold normalize_base_path, base_path_ok. set (q := trim_slash path).
  destruct q as [|c q'] eqn:Hq; [by left|]. right. exists (c :: q'). split_and!; [done|done| |].
  - destruct (starts_with _ _) eqn:Hs; [|done]. apply starts_with_true in Hs as [r Hr].
    injection Hr as -> ->. unfold q, trim_slash in Hq.
    set (u := trim_start_slash path) in *.
    destruct (drop_while_spec is_slash (reverse u)) as (pre & Hpre & _).
    apply (f_equal reverse) in Hpre. rewrite reverse_involutive, reverse_app in Hpre.
    unfold trim_start_slash in Hq at 1. rewrite Hq in Hpre.
    pose proof (trim_start_slash_head path) as Hh. fold u in Hh. rewrite Hpre in Hh.
    by rewrite (proj2 (starts_with_true _ _)) in Hh; [|by eexists].
  - unfold ends_with. rewrite <-Hq. unfold q, trim_slash. rewrite reverse_involutive. apply trim_start_slash_head.
Qed.

(** ** Percent encoding *)

Definition hex_digit_value (c : N) : option N := digit_value 16 c.
Fixpoint percent_decode (s : list N) : option (list N) :=
  match s with
  | [] => Some []
  | 37 :: a :: b :: s => x ← hex_digit_value a; y ← hex_digit_value b;
                         r ← percent_decode s; Some (x * 16 + y :: r)
  | 37 :: _ => None
  | c :: s => r ← percent_decode s; Some (c :: r)
  end.
Definition is_unreserved (c : N) : bool :=
  is_ascii_alphanumeric c || (c =? 45) || (c =? 46) || (c =? 95) || (c =? 126).

Lemma upper_hex_digit_value v : v < 16 → hex_digit_value (upper_hex_digit v) = Some v.
Proof.
  intros Hv. unfold upper_hex_digit, hex_digit_value, digit_value, in_range.
  destruct (N.ltb_spec v 10);
    repeat match goal with |- context [?a <=? ?b] => destruct (N.leb_spec a b) end; simpl; try lia; f_equal; lia.
Qed.

Lemma utf8_bytes s : Forall (λ c, c < 0x110000) s → Forall is_byte (utf8 s).
Proof.
  intros Hs. unfold utf8. apply Forall_bind. eapply Forall_impl; [exact Hs|]. intros c Hc. cbv beta in Hc. unfold compose, utf8_char.
  pose proof (N.mod_lt c 64). pose proof (N.mod_lt (c / 64) 64). pose proof (N.mod_lt (c / 4096) 64).
  assert (c / 262144 < 5) by (apply N.Div0.div_lt_upper_bound; lia).
  destruct (N.ltb_spec c 128); [repeat (apply Forall_cons; split; [unfold is_byte; lia|]); apply Forall_nil_2|].
  destruct (N.ltb_spec c 2048).
  { assert (c / 64 < 32) by (apply N.Div0.div_lt_upper_bound; lia). repeat (apply Forall_cons; split; [unfold is_byte; lia|]); apply Forall_nil_2. }
  destruct (N.ltb_spec c 65536).
  { assert (c / 4096 < 16) by (apply N.Div0.div_lt_upper_bound; lia). repeat (apply Forall_cons; split; [unfold is_byte; lia|]); apply Forall_nil_2. }
  repeat (apply Forall_cons; split; [unfold is_byte; lia|]); apply Forall_nil_2.
Qed.

Lemma percent_decode_byte b s r :
  is_byte b → percent_decode s = Some r → percent_decode (encode_query_byte b ++ s) = Some (b :: r).
Proof.
  unfold is_byte, encode_query_byte. intros Hb Hs. destruct (_ || _) eqn:Hu; cbn [app].
  - destruct (N.eqb_spec b 37) as [->|Hne]; [done|]. destruct b as [|p]; [by cbn; rewrite Hs|].
    cbn [percent_decode]. repeat (case_match; subst; try done); cbn; by rewrite Hs.
  - cbn [percent_decode].
    rewrite N.shiftr_div_pow2. change (2 ^ 4) with 16. change 15 with (N.ones 4). rewrite N.land_ones. change (2 ^ 4) with 16.
    assert (b / 16 < 16) by (apply N.Div0.div_lt_upper_bound; lia).
    assert (b mod 16 < 16) by (by apply N.mod_lt).
    rewrite !upper_hex_digit_value by done. cbn [mbind option_bind]. rewrite Hs. cbn [mbind option_bind].
    do 2 f_equal. pose proof (N.div_mod' b 16). lia.
Qed.

Lemma encode_query_byte_safe b : is_byte b →
  Forall (λ c, is_unreserved c = true ∨ c = 37) (encode_query_byte b).
Proof.
  intros Hb. unfold encode_query_byte. fold (is_unreserved b). destruct (is_unreserved b) eqn:Hu.
  { constructor; [by left|done]. }
  assert (Hd : ∀ v, v < 16 → is_unreserved (upper_hex_digit v) = true).
  { intros v Hv. unfold is_unreserved, is_ascii_alphanumeric, is_ascii_digit, in_range, upper_hex_digit.
    destruct (N.ltb_spec v 10);
      repeat match goal with |- context [?a <=? ?b] => destruct (N.leb_spec a b) end; simpl; try done; lia. }
  unfold is_byte in Hb.
  apply Forall_cons; split; [by right|]. repeat (apply Forall_cons; split; [left; apply Hd|]); [..|apply Forall_nil_2].
  - rewrite N.shiftr_div_pow2. apply N.Div0.div_lt_upper_bound. change (2 ^ 4) with 16. lia.
  - change 15 with (N.ones 4). rewrite N.land_ones. by apply N.mod_lt.
Qed.

(** The cursor of a tag page survives its encoding into the query string: the encoded text
    consists of unreserved characters and percent signs, so it adds no parameter, and percent
    decoding it gives back the UTF-8 bytes of the cursor. *)
Theorem encode_query_value_roundtrip value :
  Forall (λ c, c < 0x110000) value →
  percent_decode (encode_query_value value) = Some (utf8 value) ∧
  Forall (λ c, is_unreserved c = true ∨ c = 37) (encode_query_value value).
Proof.
  intros Hv%utf8_bytes. unfold encode_query_value. induction Hv as [|b bs Hb Hbs [IH1 IH2]]; [done|].
  rewrite !bind_cons. split.
  - by apply percent_decode_byte.
  - apply Forall_app. split; [by apply encode_query_byte_safe|done].
Qed.

(** ** Facts: IPv6 literals *)

(** Readers that ignore the case of letters. *)
Definition lower_rest {A} (r : option (A * list N)) : option (A * list N) :=
  '(a, s) ← r; Some (a, to_ascii_lowercase s).
Definition case_blind {A} (f : list N → option (A * list N)) : Prop :=
  ∀ s, f (to_ascii_lowercase s) = lower_rest (f s).

Lemma digit_value_lower radix c : digit_value radix (to_ascii_lowercase_char c) = digit_value radix c.
Proof.
  unfold to_ascii_lowercase_char. destruct (in_range 65 90 c) eqn:Hc; [|done].
  unfold digit_value, in_range in *. apply andb_true_iff in Hc as [?%N.leb_le ?%N.leb_le].
  destruct (radix =? 16);
    repeat match goal with |- context [?a <=? ?b] => destruct (N.leb_spec a b) end;
    simpl; try done; try lia; f_equal; lia.
Qed.

Lemma read_digits_lower radix s :
  read_digits radix (to_ascii_lowercase s) =
  ((read_digits radix s).1, to_ascii_lowercase (read_digits radix s).2).
Proof.
  induction s as [|c s IH]; [done|]. unfold to_ascii_lowercase in *. cbn [fmap list_fmap read_digits].
  rewrite digit_value_lower. destruct (digit_value radix c); [|done]. rewrite IH.
  by destruct (read_digits radix s).
Qed.

Lemma read_number_blind radix bound m z : case_blind (read_number radix bound m z).
Proof.
  intros s. unfold read_number. rewrite read_digits_lower. destruct (read_digits radix s) as [ds r]. simpl.
  by destruct (_ || _).
Qed.

Lemma lower_char_eq sep c :
  in_range 65 90 sep = false → in_range 97 122 sep = false →
  (sep =? to_ascii_lowercase_char c) = (sep =? c).
Proof.
  unfold to_ascii_lowercase_char. intros H1 H2. destruct (in_range 65 90 c) eqn:Hc; [|done]. unfold in_range in *.
  apply andb_true_iff in Hc as [?%N.leb_le ?%N.leb_le].
  destruct (N.eqb_spec sep (c + 32)), (N.eqb_spec sep c); try done; subst.
  - apply andb_false_iff in H2 as [?%N.leb_gt|?%N.leb_gt]; lia.
  - apply andb_false_iff in H1 as [?%N.leb_gt|?%N.leb_gt]; lia.
Qed.

Lemma read_given_char_lower sep s :
  in_range 65 90 sep = false → in_range 97 122 sep = false →
  read_given_char sep (to_ascii_lowercase s) = to_ascii_lowercase <$> read_given_char sep s.
Proof.
  intros H1 H2. destruct s as [|c s]; [done|]. cbn. rewrite lower_char_eq by done. by destruct (sep =? c).
Qed.

Lemma read_separator_blind {A} sep i (f : list N → option (A * list N)) :
  in_range 65 90 sep = false → in_range 97 122 sep = false → case_blind f →
  case_blind (read_separator sep i f).
Proof.
  intros H1 H2 Hf s. destruct i; [apply Hf|]. unfold read_separator. rewrite read_given_char_lower by done.
  destruct (read_given_char sep s) as [r|]; [apply Hf|done].
Qed.

Lemma read_ipv4_blind : case_blind read_ipv4_addr.
Proof.
  assert (Ho : case_blind read_octet) by apply read_number_blind.
  assert (Hs : ∀ i, case_blind (read_separator 46 i read_octet)) by (intros; by apply read_separator_blind).
  intros s. unfold read_ipv4_addr. rewrite Ho. destruct (read_octet s) as [[a s1]|]; [|done].
  cbn [lower_rest mbind option_bind]. rewrite (Hs 1%nat). destruct (read_separator 46 1 _ s1) as [[b s2]|]; [|done].
  cbn [lower_rest mbind option_bind]. rewrite (Hs 2%nat). destruct (read_separator 46 2 _ s2) as [[c s3]|]; [|done].
  cbn [lower_rest mbind option_bind]. rewrite (Hs 3%nat). by destruct (read_separator 46 3 _ s3) as [[d s4]|].
Qed.

Lemma read_groups_lower left i s :
  read_groups left i (to_ascii_lowercase s) =
  ((read_groups left i s).1, to_ascii_lowercase (read_groups left i s).2).
Proof.
  revert i s. induction left as [|left IH]; intros i s; [done|]. cbn [read_groups].
  assert (H4 : (if Nat.ltb 1 (S left) then read_separator 58 i read_ipv4_addr (to_ascii_lowercase s) else None)
    = lower_rest (if Nat.ltb 1 (S left) then read_separator 58 i read_ipv4_addr s else None)).
  { destruct (Nat.ltb 1 (S left)); [|done]. by apply read_separator_blind; [..|apply read_ipv4_blind]. }
  rewrite H4. clear H4. set (x := if Nat.ltb 1 (S left) then read_separator 58 i read_ipv4_addr s else None).
  destruct x as [[v4 r]|]; [done|]. cbn [lower_rest mbind option_bind].
  rewrite (read_separator_blind 58 i (read_number 16 u16_bound 4 true)) by (done || apply read_number_blind).
  destruct (read_separator 58 i _ s) as [[g r]|]; [|done]. cbn [lower_rest mbind option_bind]. rewrite IH.
  by destruct (read_groups left (S i) r) as [[gs v4] r'].
Qed.

Lemma Ipv6Addr_parse_lower s : Ipv6Addr_parse (to_ascii_lowercase s) = Ipv6Addr_parse s.
Proof.
  assert (He : ∀ s : list N, is_empty (to_ascii_lowercase s) = is_empty s) by (by intros []).
  unfold Ipv6Addr_parse, read_ipv6_addr. rewrite read_groups_lower.
  destruct (read_groups 8 0 s) as [[gs v4] r]. cbn [fst snd].
  destruct (Nat.eqb (length gs) 8); [cbn; by rewrite He|]. destruct v4; [done|].
  rewrite read_given_char_lower by done. destruct (read_given_char 58 r) as [r1|]; [|done].
  cbn [fmap option_fmap option_map mbind option_bind]. rewrite read_given_char_lower by done.
  destruct (read_given_char 58 r1) as [r2|]; [|done]. cbn [fmap option_fmap option_map mbind option_bind].
  rewrite read_groups_lower. destruct (read_groups _ 0 r2) as [[tl v4] r3]. cbn. by rewrite He.
Qed.

Lemma read_given_char_in c s r : read_given_char c s = Some r → c ∈ s.
Proof. destruct s as [|d s]; [done|]. cbn. destruct (N.eqb_spec c d) as [->|]; [|done]. intros _. left. Qed.

(** What a reader leaves is a suffix. *)
Lemma read_digits_suffix radix s : ∃ p, s = p ++ (read_digits radix s).2.
Proof.
  induction s as [|c s [p IH]]; [by exists []|]. cbn [read_digits]. destruct (digit_value radix c).
  - destruct (read_digits radix s) as [ds r]. exists (c :: p). cbn in *. by rewrite <-IH.
  - by exists [].
Qed.

Lemma read_groups_S left i s :
  read_groups (S left) i s =
  match (if Nat.ltb 1 (S left) then read_separator 58 i read_ipv4_addr s else None) with
  | Some (v4, s) => ([nth 0 v4 0 * 256 + nth 1 v4 0; nth 2 v4 0 * 256 + nth 3 v4 0], true, s)
  | None =>
      match read_separator 58 i (read_number 16 u16_bound 4 true) s with
      | Some (g, s) => let '(gs, v4, s) := read_groups left (S i) s in (g :: gs, v4, s)
      | None => ([], false, s)
      end
  end.
Proof. done. Qed.

Lemma Ipv6Addr_parse_colon s g : Ipv6Addr_parse s = Some g → 58 ∈ s.
Proof.
  unfold Ipv6Addr_parse, read_ipv6_addr. destruct (read_groups 8 0 s) as [[gs v4] r] eqn:Hg.
  assert (Hc : (gs = [] ∧ r = s) ∨ 58 ∈ s ∨ (length gs ≤ 2 ∧ v4 = true)%nat ∨
               (v4 = false ∧ ∃ p, s = p ++ r ∧ (length gs ≤ 1)%nat)).
  { rewrite read_groups_S in Hg. change (Nat.ltb 1 8) with true in Hg. cbn iota in Hg.
    unfold read_separator at 1 in Hg.
    destruct (read_ipv4_addr s) as [[v r']|]; [injection Hg as <- <- <-; right; right; left; done|].
    unfold read_separator at 1 in Hg. destruct (read_number 16 u16_bound 4 true s) as [[g0 r']|] eqn:Hn;
      [|injection Hg as <- <- <-; by left].
    assert (∃ p, s = p ++ r') as [p Hp].
    { unfold read_number in Hn. pose proof (read_digits_suffix 16 s) as [p Hp].
      destruct (read_digits 16 s) as [ds rr]. destruct (_ || _) in Hn; [done|]. injection Hn as <- <-. by exists p. }
    destruct (read_groups 7 1 r') as [[gs' v4'] r''] eqn:Hg'. injection Hg as <- <- <-.
    rewrite read_groups_S in Hg'. change (Nat.ltb 1 7) with true in Hg'. cbn iota in Hg'.
    unfold read_separator at 1 in Hg'. unfold read_separator at 1 in Hg'.
    destruct (read_given_char 58 r') as [r1|] eqn:Hr.
    { right. left. rewrite Hp. apply elem_of_app. right. by eapply read_given_char_in. }
    cbn in Hg'. injection Hg' as <- <- <-. right. right. right. split; [done|]. exists p. split; [done|]. simpl. lia. }
  intros Hs. destruct Hc as [[-> ->]|[?|[[Hl ->]|[-> (p & -> & Hl)]]]]; [|done|..].
  - destruct v4; [done|]. cbn [length Nat.eqb] in Hs.
    destruct (read_given_char 58 s) eqn:Hr; [|done]. by eapply read_given_char_in.
  - destruct (Nat.eqb_spec (length gs) 8); [lia|]. done.
  - destruct (Nat.eqb_spec (length gs) 8); [lia|].
    destruct (read_given_char 58 r) eqn:Hr; [|done]. apply elem_of_app. right. by eapply read_given_char_in.
Qed.

(** ** Facts: authorities *)

Lemma lower_idemp s : to_ascii_lowercase (to_ascii_lowercase s) = to_ascii_lowercase s.
Proof.
  unfold to_ascii_lowercase. rewrite <-list_fmap_compose. apply list_fmap_ext. intros _ c _. simpl.
  unfold to_ascii_lowercase_char, in_range.
  destruct ((65 <=? c) && (c <=? 90)) eqn:Hc; [|by rewrite Hc].
  apply andb_true_iff in Hc as [?%N.leb_le ?%N.leb_le].
  destruct (N.leb_spec (c + 32) 90); [lia|]. by rewrite andb_false_r.
Qed.

Lemma elem_of_lower sep s :
  in_range 65 90 sep = false → in_range 97 122 sep = false → sep ∈ to_ascii_lowercase s ↔ sep ∈ s.
Proof.
  intros H1 H2. unfold to_ascii_lowercase. rewrite list_elem_of_fmap. split.
  - intros (c & Hc & Hin). apply N.eqb_eq in Hc. rewrite lower_char_eq in Hc by done.
    by apply N.eqb_eq in Hc as ->.
  - intros Hin. exists sep. split; [|done]. apply N.eqb_eq. by rewrite lower_char_eq, N.eqb_refl.
Qed.

Lemma parse_u16_show n : n < u16_bound → parse_u16 (show_N n) = Ok n.
Proof.
  intros Hn. destruct (show_N_spec n) as (Hne & Hd & Hv). unfold parse_u16.
  assert (Hp : parse_digits u16_bound 0 (show_N n) = Ok n) by (rewrite parse_digits_value, Hv; [done|done|by rewrite Hv]).
  destruct (show_N n) as [|c s] eqn:Hs; [done|]. apply Forall_cons in Hd as [Hc Hd]. apply is_digit_range in Hc.
  assert (c ≠ 43 ∧ c ≠ 45) as [H43 H45] by lia.
  destruct c as [|p]; [lia|]. by repeat (case_match; try done; subst).
Qed.

Lemma parse_digits_bound bound acc s n : acc < bound → parse_digits bound acc s = Ok n → n < bound.
Proof.
  revert acc. induction s as [|c s IH]; intros acc Hacc; cbn [parse_digits]; [by intros [= <-]|].
  destruct (is_ascii_digit c); [|done]. destruct (checked_mul _ _ _) as [m|]; [|done].
  destruct (checked_add bound m _) as [a|] eqn:Ha; [|done]. apply IH. by apply checked_add_Some in Ha as [-> ?].
Qed.

Lemma parse_u16_bound s n : parse_u16 s = Ok n → n < u16_bound.
Proof.
  assert (0 < u16_bound) by by vm_compute.
  unfold parse_u16. repeat (case_match; try done); by apply parse_digits_bound.
Qed.

Lemma parse_port_bound input p n : parse_port input p = Ok (Some n) → n < u16_bound.
Proof.
  unfold parse_port. destruct p as [p|]; [|done]. intros Hp. apply bind_ok in Hp as (u & _ & Hp).
  apply bind_ok in Hp as (n' & Hn%map_err_ok & Hp). injection Hp as <-. by eapply parse_u16_bound.
Qed.

Lemma parse_port_show input n : n < u16_bound → parse_port input (Some (show_N n)) = Ok (Some n).
Proof.
  intros Hn. destruct (show_N_spec n) as (Hne & Hd & _). unfold parse_port. apply bind_ok. exists tt. split.
  - apply ensure_ok. apply negb_true_iff, orb_false_iff. split; [by destruct (show_N n)|].
    apply negb_false_iff. rewrite utf8_ascii.
    + apply forallb_forall. intros c Hc. rewrite Forall_forall in Hd. by apply Hd, list_elem_of_In.
    + eapply Forall_impl; [exact Hd|]. intros c Hc%is_digit_range. unfold is_ascii. lia.
  - by rewrite parse_u16_show.
Qed.

Lemma show_N_no n c : c < 48 ∨ 57 < c → c ∉ show_N n.
Proof.
  intros Hc Hin. destruct (show_N_spec n) as (_ & Hd & _). rewrite Forall_forall in Hd.
  apply Hd, is_digit_range in Hin. lia.
Qed.

Lemma count_char_absent c s : c ∉ s → count_char c s = 0%nat.
Proof.
  intros Hc. unfold count_char. induction s as [|d s IH]; [done|]. apply not_elem_of_cons in Hc as [? ?].
  rewrite filter_cons_False by done. auto.
Qed.
Lemma count_char_app c s t : count_char c (s ++ t) = (count_char c s + count_char c t)%nat.
Proof. unfold count_char. by rewrite filter_app, length_app. Qed.

Lemma rsplit_once_app c a b : c ∉ b → rsplit_once c (a ++ c :: b) = Some (a, b).
Proof.
  intros Hb. unfold rsplit_once. rewrite reverse_app, reverse_cons, <-app_assoc.
  cbn [app]. rewrite split_once_app by by rewrite elem_of_reverse. cbn. by rewrite !reverse_involutive.
Qed.

Lemma rsplit_once_Some c s a b : rsplit_once c s = Some (a, b) → s = a ++ c :: b ∧ c ∉ b.
Proof.
  unfold rsplit_once. destruct (split_once c (reverse s)) as [[x y]|] eqn:Hs; [|done]. cbn.
  intros [= <- <-]. apply split_once_Some in Hs as [Hs Hx]. split.
  - apply (f_equal reverse) in Hs. rewrite reverse_involutive, reverse_app, reverse_cons, <-app_assoc in Hs. done.
  - by rewrite elem_of_reverse.
Qed.

Lemma plain_roundtrip input host port :
  host ≠ [] → negb (invalid_host host) = true → to_ascii_lowercase host = host →
  91 ∉ host → 93 ∉ host → 58 ∉ host → (∀ n, port = Some n → n < u16_bound) →
  parse_authority input (match port with Some p => host ++ lit ":" ++ show_N p | None => host end)
  = Ok (host, port).
Proof.
  intros Hne Hok Hlow H91 H93 H58 Hport. set (a := match port with Some p => _ | None => _ end).
  assert (Ha : is_empty a = false ∧ starts_with [91] a = false ∧ 91 ∉ a ∧ 93 ∉ a ∧ (count_char 58 a ≤ 1)%nat).
  { assert (∀ t, is_empty (host ++ t) = false ∧ starts_with [91] (host ++ t) = false) as Hst.
    { intros t. destruct host as [|c host]; [done|]. apply not_elem_of_cons in H91 as [? _]. split; [done|].
      destruct (starts_with _ _) eqn:Hs; [|done]. apply starts_with_true in Hs as [r Hr].
      by injection Hr as -> _. }
    unfold a. destruct port as [n|].
    - destruct (Hst (lit ":" ++ show_N n)) as [-> ->]. rewrite !not_elem_of_app.
      assert (∀ c, c < 48 ∨ 58 < c → c ∉ lit ":") as Hl.
      { intros c Hc Hin. vm_compute in Hin. apply list_elem_of_singleton in Hin. lia. }
      split_and!; try done; try (apply Hl; lia); try (apply show_N_no; lia).
      rewrite !count_char_app, (count_char_absent 58 host), (count_char_absent 58 (show_N n)) by
        (done || apply show_N_no; lia). vm_compute. lia.
    - pose proof (Hst []) as Hst'. rewrite app_nil_r in Hst'. destruct Hst' as [-> ->].
      split_and!; try done. rewrite count_char_absent by done. lia. }
  destruct Ha as (He & Hs & Ha1 & Ha2 & Ha3). unfold parse_authority. rewrite He, Hs.
  cbn [negb ensure mbind outcome_bind]. apply bind_ok. exists (host, port).
  split; [|by rewrite (proj2 (ensure_ok _ _ tt))].
  unfold parse_plain. apply bind_ok. exists tt. split.
  { apply ensure_ok. rewrite (proj2 (contains_char_false 91 a)), (proj2 (contains_char_false 93 a)) by done.
    destruct (Nat.ltb_spec 1 (count_char 58 a)); [lia|done]. }
  apply bind_ok. exists (host, port). split; [|by rewrite Hlow]. unfold a. destruct port as [n|].
  - change (lit ":" ++ show_N n) with (58 :: show_N n). rewrite rsplit_once_app by (apply show_N_no; lia).
    by rewrite parse_port_show by auto.
  - unfold rsplit_once. rewrite (proj2 (split_once_None 58 (reverse host))) by by rewrite elem_of_reverse. done.
Qed.

Lemma bracketed_roundtrip input h g port :
  Ipv6Addr_parse h = Some g → 93 ∉ h → negb (invalid_host (to_ascii_lowercase h)) = true →
  (∀ n, port = Some n → n < u16_bound) →
  parse_authority input (format_authority (to_ascii_lowercase h) port) = Ok (to_ascii_lowercase h, port).
Proof.
  intros Hg H93 Hok Hport. pose proof (Ipv6Addr_parse_colon _ _ Hg) as Hcolon.
  assert (Hcol : contains_char 58 (to_ascii_lowercase h) = true) by (by apply contains_char_true, elem_of_lower).
  set (sfx := match port with Some n => 58 :: show_N n | None => [] end).
  assert (format_authority (to_ascii_lowercase h) port = (91 :: to_ascii_lowercase h) ++ 93 :: sfx) as ->.
  { unfold format_authority, sfx. rewrite Hcol. destruct port as [n|]; [|done]. cbn. by rewrite <-app_assoc. }
  unfold parse_authority. apply bind_ok. exists tt. split; [done|].
  apply bind_ok. exists (to_ascii_lowercase h, port). split; [|by rewrite (proj2 (ensure_ok _ _ tt))].
  change (starts_with [91] ((91 :: to_ascii_lowercase h) ++ 93 :: sfx)) with true. cbn iota.
  unfold parse_bracketed. rewrite split_once_app.
  2:{ apply not_elem_of_cons. split; [done|]. by rewrite elem_of_lower. }
  cbn [ok_or mbind outcome_bind].
  change (drop 1 (91 :: to_ascii_lowercase h)) with (to_ascii_lowercase h).
  rewrite Ipv6Addr_parse_lower, Hg. cbn [ok_or mbind outcome_bind].
  rewrite lower_idemp. unfold sfx. destruct port as [n|]; [|done].
  cbn [strip_prefix ok_or mbind outcome_bind]. rewrite N.eqb_refl. cbn [ok_or mbind outcome_bind].
  by rewrite parse_port_show by auto.
Qed.

(** What [parse_bracketed] and [parse_plain] return. *)
Lemma parse_bracketed_parts input authority host port :
  parse_bracketed input authority = Ok (host, port) →
  ∃ h g, host = to_ascii_lowercase h ∧ Ipv6Addr_parse h = Some g ∧ 93 ∉ h ∧
    ∀ n, port = Some n → n < u16_bound.
Proof.
  unfold parse_bracketed. intros Hhp. apply bind_ok in Hhp as ([before suffix] & Hs%ok_or_ok & Hhp).
  apply bind_ok in Hhp as (g & Hg%ok_or_ok & Hhp). apply bind_ok in Hhp as (q & Hq & Hhp).
  injection Hhp as <- ->. apply split_once_Some in Hs as [-> Hnb].
  exists (drop 1 before), g. split_and!; [done|done| |].
  - intros Hin. apply Hnb. rewrite <-(take_drop 1 before). apply elem_of_app. by right.
  - intros n ->. destruct suffix as [|d suffix]; [done|].
    apply bind_ok in Hq as (x & _ & Hq). by eapply parse_port_bound.
Qed.

Lemma parse_plain_parts input authority host port :
  parse_plain input authority = Ok (host, port) →
  ∃ h, host = to_ascii_lowercase h ∧ 91 ∉ h ∧ 93 ∉ h ∧ 58 ∉ h ∧ ∀ n, port = Some n → n < u16_bound.
Proof.
  unfold parse_plain. intros Hhp. apply bind_ok in Hhp as (v & Hens%ensure_ok & Hhp).
  apply negb_true_iff, orb_false_iff in Hens as [[H91 H93]%orb_false_iff Hcnt%Nat.ltb_ge].
  apply contains_char_false in H91, H93.
  apply bind_ok in Hhp as ([h0 p0] & Hhp0 & Hhp). injection Hhp as <- ->. exists h0. split; [done|].
  destruct (rsplit_once 58 authority) as [[h1 p1]|] eqn:Hr.
  - apply bind_ok in Hhp0 as (q & Hq & Hhp0). injection Hhp0 as <- <-.
    apply rsplit_once_Some in Hr as [-> Hnp]. rewrite not_elem_of_app in H91, H93.
    split_and!; [naive_solver..| |].
    + intros Hin. rewrite count_char_app in Hcnt.
      unfold count_char in Hcnt at 2. rewrite filter_cons_True in Hcnt by done. simpl in Hcnt.
      assert (0 < count_char 58 h1)%nat; [|lia].
      unfold count_char. apply list_elem_of_split in Hin as (l1 & l2 & ->).
      rewrite filter_app, filter_cons_True, length_app by done. simpl. lia.
    + intros n ->. by eapply parse_port_bound.
  - injection Hhp0 as <- <-. split_and!; [done..| |done].
    unfold rsplit_once in Hr. destruct (split_once 58 (reverse authority)) as [[]|] eqn:Hs; [done|].
    apply split_once_None in Hs. by rewrite elem_of_reverse in Hs.
Qed.

(** Writing an accepted host and port and parsing the text again is the identity. *)
Lemma authority_roundtrip input authority host port :
  parse_authority input authority = Ok (host, port) →
  ∀ input', parse_authority input' (format_authority host port) = Ok (host, port).
Proof.
  intros Hp input'. unfold parse_authority in Hp. apply bind_ok in Hp as (u & _ & Hp).
  apply bind_ok in Hp as ([h p] & Hhp & Hp). apply bind_ok in Hp as (u' & Hvalid%ensure_ok & Hp).
  injection Hp as -> ->. destruct (starts_with [91] authority).
  - apply parse_bracketed_parts in Hhp as (h & g & -> & Hg & H93 & Hport). by eapply bracketed_roundtrip.
  - apply parse_plain_parts in Hhp as (h & -> & H91 & H93 & H58 & Hport).
    unfold format_authority. rewrite (proj2 (contains_char_false 58 (to_ascii_lowercase h))) by (by rewrite elem_of_lower).
    apply plain_roundtrip; rewrite ?elem_of_lower by done; try done.
    + intros He. by rewrite He in Hvalid.
    + apply lower_idemp.
Qed.

Section uri_facts.
Context `{UriLib}.

(** What [RegistryEndpoint::parse] normalizes. *)
Record endpoint_ok (e : RegistryEndpoint) : Prop := {
  ep_host : invalid_host (re_host e) = false;
  ep_lower : to_ascii_lowercase (re_host e) = re_host e;
  ep_port : ∀ p, re_port e = Some p → p < u16_bound;
  ep_authority : re_authority e = format_authority (re_host e) (re_port e);
  ep_parse : ∀ input, parse_authority input (re_authority e) = Ok (re_host e, re_port e);
  ep_base : base_path_ok (re_base_path e) }.

Lemma parse_authority_parts input authority host port :
  parse_authority input authority = Ok (host, port) →
  invalid_host host = false ∧ to_ascii_lowercase host = host ∧ ∀ n, port = Some n → n < u16_bound.
Proof.
  intros Hp. unfold parse_authority in Hp. apply bind_ok in Hp as (u & _ & Hp).
  apply bind_ok in Hp as ([h p] & Hhp & Hp). apply bind_ok in Hp as (u' & Hvalid%ensure_ok & Hp).
  injection Hp as -> ->. apply negb_true_iff in Hvalid. split; [done|].
  destruct (starts_with [91] authority).
  - apply parse_bracketed_parts in Hhp as (h & g & -> & _ & _ & ?). split; [apply lower_idemp|done].
  - apply parse_plain_parts in Hhp as (h & -> & _ & _ & _ & ?). split; [apply lower_idemp|done].
Qed.

Lemma parse_with_scheme_ok input scheme rest e :
  parse_with_scheme input scheme rest = Ok e → re_scheme e = scheme ∧ endpoint_ok e.
Proof.
  unfold parse_with_scheme. intros Hp. apply bind_ok in Hp as (u1 & _ & Hp).
  apply bind_ok in Hp as (uri & _ & Hp). apply bind_ok in Hp as (a & _ & Hp).
  apply bind_ok in Hp as (u2 & _ & Hp). apply bind_ok in Hp as (u3 & _ & Hp).
  apply bind_ok in Hp as ([host port] & Ha & Hp). injection Hp as <-. split; [done|].
  destruct (parse_authority_parts _ _ _ _ Ha) as (? & ? & ?).
  split; simpl; try done; [|apply normalize_base_path_ok].
  by eapply authority_roundtrip.
Qed.

(** Every endpoint that [RegistryEndpoint::parse] returns is normalized: the host is a
    lower-case name or an IPv6 literal without white space, '/', '?' or '#', the port fits in 16
    bits, the authority is the canonical text of the two and parses back to them, and the base
    path is empty or starts with one '/' and does not end in one. *)
Theorem endpoint_normalized input e :
  RegistryEndpoint_parse input = Ok e → endpoint_ok e.
Proof.
  unfold RegistryEndpoint_parse. intros Hp. apply bind_ok in Hp as (u1 & _ & Hp).
  apply bind_ok in Hp as (u2 & _ & Hp). destruct (split_at _ _) as [[raw rest]|].
  - apply bind_ok in Hp as (scheme & _ & Hp). by apply parse_with_scheme_ok in Hp as [_ ?].
  - apply bind_ok in Hp as (prov & Hprov & Hp). apply parse_with_scheme_ok in Hprov as [_ Hok].
    destruct (is_local_host _); [by apply parse_with_scheme_ok in Hp as [_ ?]|by injection Hp as <-].
Qed.

(** C34: A [Location] header leads only where the header says: a relative one resolves to a URL of
    the registry's own origin, whatever it contains, and an absolute one is kept up to the case
    of its scheme, which is http or https, names an authority without user information, and is
    not taken for a relative one. *)
Theorem resolve_location_confined self location out :
  endpoint_ok self → resolve_location self location = Ok out →
  (split_at (lit "://") (trim location) = None ∧ ∃ rest, out = origin self ++ 47 :: rest ∧
     starts_with [47] rest = false) ∨
  (∃ scheme raw rest uri authority, trim location = raw ++ lit "://" ++ rest ∧
     to_ascii_lowercase raw = RegistryScheme_as_str scheme ∧
     out = RegistryScheme_as_str scheme ++ lit "://" ++ rest ∧
     uri_parse (trim location) = Ok uri ∧ uri_authority uri = Some authority ∧ 64 ∉ authority).
Proof.
  intros He Hr. unfold resolve_location in Hr. apply bind_ok in Hr as (u1 & Hne%ensure_ok & Hr).
  apply bind_ok in Hr as (u2 & _ & Hr). destruct (split_at _ _) as [[raw rest]|] eqn:Hs.
  - right. apply bind_ok in Hr as (scheme & Hsch%map_err_ok & Hr).
    apply bind_ok in Hr as (uri & Huri%map_err_ok & Hr). apply bind_ok in Hr as (a & Ha%ok_or_ok & Hr).
    apply bind_ok in Hr as (u3 & Hat%ensure_ok & Hr). apply bind_ok in Hr as (u4 & _ & Hr).
    injection Hr as <-. exists scheme, raw, rest, uri, a. apply split_at_Some in Hs.
    apply negb_true_iff, contains_char_false in Hat. split_and!; try done.
    unfold parse_scheme in Hsch. case_bool_decide; [by injection Hsch as <-|].
    case_bool_decide; [by injection Hsch as <-|done].
  - left. split; [done|]. apply bind_ok in Hr as (u3 & Hnet%ensure_ok & Hr).
    apply bind_ok in Hr as (uri & _ & Hr). injection Hr as <-. apply negb_true_iff in Hnet.
    destruct (starts_with [47] (trim location)) eqn:Hsl.
    + apply starts_with_true in Hsl as [r Hr]. exists r. rewrite Hr. split; [done|].
      destruct (starts_with [47] r) eqn:Hr2; [|done]. apply starts_with_true in Hr2 as [r2 ->].
      rewrite Hr in Hnet. by rewrite (proj2 (starts_with_true _ _)) in Hnet; [|by exists r2].
    + destruct (ep_base self He) as [->|(q & -> & Hq1 & Hq2 & Hq3)].
      * exists (trim_start_slash (trim location)). split; [done|]. apply trim_start_slash_head.
      * exists (q ++ lit "/" ++ trim_start_slash (trim location)). split; [done|].
        destruct q as [|c q]; [done|]. destruct (starts_with [47] ((c :: q) ++ _)) eqn:Hc; [|done].
        apply starts_with_true in Hc as [r Hc]. injection Hc as -> _.
        by rewrite (proj2 (starts_with_true _ _)) in Hq2; [|by exists q].
Qed.
End uri_facts.

(** ** Witnesses *)

(** A [Uri] parser for texts of the form scheme://authority/path?query. *)
Definition sample_uri : UriLib := {|
  Uri := list N * (list N * list N);
  uri_parse := λ s, match split_at (lit "://") s with
                    | Some (scheme, rest) =>
                        match split_once 47 rest with
                        | Some (a, p) => Ok (to_ascii_lowercase scheme, (a, 47 :: p))
                        | None => Ok (to_ascii_lowercase scheme, (rest, [47]))
                        end
                    | None => Err (lit "relative")
                    end;
  uri_scheme_str := λ u, Some u.1;
  uri_authority := λ u, Some u.2.1;
  uri_host := λ u, Some (match rsplit_once 58 u.2.1 with Some (h, _) => h | None => u.2.1 end);
  uri_query := λ u, snd <$> split_once 63 u.2.2;
  uri_path := λ u, u.2.2 |}.

Definition sample_endpoint : RegistryEndpoint := {|
  re_scheme := Https; re_host := lit "registry.example"; re_port := Some 5000;
  re_authority := lit "registry.example:5000"; re_base_path := lit "/Harbor" |}.

Lemma sample_endpoint_ok : endpoint_ok sample_endpoint.
Proof.
  apply (@parse_with_scheme_ok sample_uri (lit "e") Https (lit "registry.example:5000/Harbor") sample_endpoint).
  by vm_compute.
Qed.

Lemma endpoint_normalized_witness :
  @RegistryEndpoint_parse sample_uri (lit " HTTPS://REGISTRY.example:05000/Harbor/ ") = Ok sample_endpoint ∧
  endpoint_ok sample_endpoint.
Proof.
  split; [by vm_compute|].
  apply (@endpoint_normalized sample_uri (lit " HTTPS://REGISTRY.example:05000/Harbor/ ")). by vm_compute.
Defined.

Lemma resolve_location_confined_witness :
  ∃ rest, lit "https://registry.example:5000/Harbor/session" = origin sample_endpoint ++ 47 :: rest.
Proof.
  destruct (@resolve_location_confined sample_uri sample_endpoint (lit "session")
    (lit "https://registry.example:5000/Harbor/session"))
    as [[_ (rest & Hrest & _)]|(scheme & raw & rest & uri & a & Hs & _)].
  - apply sample_endpoint_ok.
  - by vm_compute.
  - by exists rest.
  - eexists. by vm_compute.
Defined.

Lemma encode_query_value_roundtrip_witness :
  percent_decode (encode_query_value (lit "v1+a/b&c")) = Some (utf8 (lit "v1+a/b&c")).
Proof.
  apply (encode_query_value_roundtrip (lit "v1+a/b&c")). by repeat (apply Forall_cons; split; [done|]).
Defined.
