(* ===== verification/Auth.v ===== *)
(** * Auth: credentials, Bearer challenges and token responses
    (crates/nixcache-oci/src/auth.rs, and the parts of token.rs around the
    single-flight loop)

    The [ChallengeParser] is the list of the characters it has not read: its
    lookahead is the head.  Its two loops run on fuel; [None] is fuel used up,
    and [parse_www_authenticate_value] gives one unit per character and one
    more, which is enough since every round reads at least one. *)

From S2P Require Import Prelude Machine Str Text Error Types OciError Transport Endpoint Flight.

Local Open Scope N_scope.

Notation invalid_challenge details := (AuthChallengeInvalid (lit details)).

(** ** Credentials *)

Record RegistryCredentials := { rc_username : option (list N); rc_secret : option (list N) }.

Definition anonymous : RegistryCredentials := {| rc_username := None; rc_secret := None |}.
Definition credentials_new (secret : list N) : RegistryCredentials :=
  if is_empty secret then anonymous else {| rc_username := None; rc_secret := Some secret |}.
Definition credentials_with_username (username secret : list N) : RegistryCredentials :=
  let credentials := credentials_new secret in
  if negb (is_empty username)
  then {| rc_username := Some username; rc_secret := rc_secret credentials |}
  else credentials.
Definition has_secret (c : RegistryCredentials) : bool :=
  match rc_secret c with Some s => negb (is_empty s) | None => false end.
Definition secret (c : RegistryCredentials) : option (list N) :=
  match rc_secret c with Some s => if negb (is_empty s) then Some s else None | None => None end.

(** ** Challenges *)

Record BearerChallenge := { bc_realm : list N; bc_service : option (list N); bc_scope : option (list N) }.
#[export] Instance BearerChallenge_eq_dec : EqDecision BearerChallenge.
Proof. solve_decision. Defined.

Definition cache_key (self : BearerChallenge) (default_service default_scope : list N)
    : list N * list N * list N :=
  (bc_realm self, default default_service (bc_service self), default default_scope (bc_scope self)).

(** [encode_query_component] is the same code as [encode_query_value]. *)
Definition encode_query_component (value : list N) : list N := utf8 value ≫= encode_query_byte.

Definition token_url (self : BearerChallenge) (default_service default_scope : list N) : list N :=
  let service := default default_service (bc_service self) in
  let scope := default default_scope (bc_scope self) in
  let url := bc_realm self in
  url ++ (if contains_char 63 url then [38] else [63])
      ++ lit "service=" ++ encode_query_component service
      ++ lit "&scope=" ++ encode_query_component scope.

Section challenge.
Context `{UriLib}.

Definition challenge_validate (self : BearerChallenge) : outcome OciError unit :=
  uri ← map_err (λ _, invalid_challenge "Bearer realm must be an absolute HTTP(S) URL")
          (uri_parse (bc_realm self));
  let scheme := default [] (uri_scheme_str uri) in
  let authority := default [] (uri_authority uri) in
  ensure ((bool_decide (scheme = lit "http") || bool_decide (scheme = lit "https"))
          && negb (is_empty authority))
    (invalid_challenge "Bearer realm must be an absolute HTTP(S) URL").

Definition challenge_new (realm : list N) (service scope : option (list N))
    : outcome OciError BearerChallenge :=
  let challenge := {| bc_realm := realm; bc_service := service; bc_scope := scope |} in
  _ ← challenge_validate challenge;
  Ok challenge.

Definition is_insecure_non_localhost (self : BearerChallenge) : bool :=
  match uri_parse (bc_realm self) with
  | Ok uri =>
      if negb (bool_decide (uri_scheme_str uri = Some (lit "http"))) then false
      else let host := default [] (uri_host uri) in
           negb (bool_decide (host ∈ [lit "localhost"; lit "127.0.0.1"; lit "[::1]"]))
  | _ => true
  end.

(** ** The parser *)

Definition is_token_char (c : N) : bool :=
  is_ascii_alphanumeric c
  || bool_decide (c ∈ [33; 35; 36; 37; 38; 39; 42; 43; 45; 46; 94; 95; 96; 124; 126]).

Definition eq_ignore_ascii_case (a b : list N) : bool :=
  bool_decide (to_ascii_lowercase a = to_ascii_lowercase b).

Definition is_blank (c : N) : bool := (c =? 32) || (c =? 9).
Definition skip_spaces (s : list N) : list N := drop_while is_blank s.

(** The loop over commas, after the first [skip_spaces]. *)
Fixpoint skip_commas (fuel : nat) (s : list N) : list N :=
  match fuel, read_given_char 44 s with
  | S fuel, Some s => skip_commas fuel (skip_spaces s)
  | _, _ => s
  end.
Definition skip_separators (s : list N) : list N := skip_commas (length s) (skip_spaces s).

(** [token]: the token, if there is one, and the rest. *)
Definition token (s : list N) : option (list N) * list N :=
  match take_while is_token_char s with
  | [] => (None, drop_while is_token_char s)
  | t => (Some t, drop_while is_token_char s)
  end.

Definition next_is_token68 (s : list N) : bool :=
  match token s with
  | (None, _) => false
  | (Some _, s) => negb (bool_decide (head (skip_spaces s) = Some 61))
  end.

Fixpoint consume_until_comma (quoted escaped : bool) (s : list N) : list N :=
  match s with
  | [] => []
  | value :: s' =>
      if escaped then consume_until_comma quoted false s'
      else if (value =? 92) && quoted then consume_until_comma quoted true s'
      else if value =? 34 then consume_until_comma (negb quoted) false s'
      else if (value =? 44) && negb quoted then s
      else consume_until_comma quoted false s'
  end.

(** The loop of [value] inside quotes. *)
Fixpoint quoted_value (escaped : bool) (value s : list N) : outcome OciError (list N * list N) :=
  match s with
  | [] => Err (invalid_challenge "unterminated quoted auth parameter")
  | c :: s =>
      if escaped then quoted_value false (value ++ [c]) s
      else if c =? 92 then quoted_value true value s
      else if c =? 34 then Ok (value, s)
      else quoted_value false (value ++ [c]) s
  end.
Definition parse_value (s : list N) : outcome OciError (list N * list N) :=
  match read_given_char 34 s with
  | Some s => quoted_value false [] s
  | None =>
      let '(t, rest) := token s in
      v ← ok_or (invalid_challenge "empty auth parameter") t;
      Ok (v, rest)
  end.

Definition find_param (params : list (list N * list N)) (name : list N) : option (list N) :=
  (λ p, p.2.2) <$> list_find (λ p, eq_ignore_ascii_case p.1 name = true) params.

(** One round of [auth_params]: the parameters so far, the rest, and whether the
    loop goes on. *)
Definition auth_param (params : list (list N * list N)) (s : list N)
    : outcome OciError (list (list N * list N) * list N * bool) :=
  let '(key, s) := token (skip_spaces s) in
  key ← ok_or (invalid_challenge "invalid auth parameter name") key;
  s ← ok_or (invalid_challenge "auth parameter is missing '='") (read_given_char 61 (skip_spaces s));
  '(value, s) ← parse_value (skip_spaces s);
  params ← match find_param params key with
           | Some old => if negb (bool_decide (old = value))
                         then Err (invalid_challenge "conflicting duplicate auth parameter")
                         else Ok params
           | None => Ok (params ++ [(key, value)])
           end;
  match read_given_char 44 (skip_spaces s) with
  | Some next =>
      let '(t, rest) := token (skip_spaces next) in
      _ ← ok_or (invalid_challenge "trailing comma in challenge") t;
      if bool_decide (head (skip_spaces rest) = Some 61) then Ok (params, next, true)
      else Ok (params, skip_spaces s, false)
  | None => Ok (params, skip_spaces s, false)
  end.

Fixpoint auth_params (fuel : nat) (params : list (list N * list N)) (s : list N)
    : option (outcome OciError (list (list N * list N) * list N)) :=
  match fuel with
  | O => None
  | S fuel =>
      match auth_param params s with
      | Ok (params, s, true) => auth_params fuel params s
      | Ok (params, s, false) => Some (Ok (params, s))
      | Err e => Some (Err e)
      | Panic => Some Panic
      end
  end.

(** The parameters of one challenge. *)
Definition challenge_params (s : list N) : option (outcome OciError (list (list N * list N) * list N)) :=
  if bool_decide (head s = Some 44) || is_empty s then Some (Ok ([], s))
  else if next_is_token68 s then Some (Ok ([], consume_until_comma false false s))
  else auth_params (S (length s)) [] s.

Definition bearer_of (params : list (list N * list N)) : outcome OciError BearerChallenge :=
  realm ← ok_or (invalid_challenge "Bearer challenge is missing realm") (find_param params (lit "realm"));
  challenge_new realm (find_param params (lit "service")) (find_param params (lit "scope")).

Definition merge_bearer (e : OciError) (bearer : option BearerChallenge) (challenge : BearerChallenge)
    : outcome OciError (option BearerChallenge) :=
  match bearer with
  | Some existing => if negb (bool_decide (existing = challenge)) then Err e else Ok (Some challenge)
  | None => Ok (Some challenge)
  end.

Fixpoint parse_challenges (fuel : nat) (bearer : option BearerChallenge) (s : list N)
    : option (outcome OciError (option BearerChallenge)) :=
  match fuel with
  | O => None
  | S fuel =>
      match skip_separators s with
      | [] => Some (Ok bearer)
      | s =>
          let '(scheme, s) := token s in
          match scheme with
          | None => Some (Err (invalid_challenge "missing auth scheme"))
          | Some scheme =>
              match challenge_params (skip_spaces s) with
              | None => None
              | Some (Err e) => Some (Err e)
              | Some Panic => Some Panic
              | Some (Ok (params, s)) =>
                  if eq_ignore_ascii_case scheme (lit "bearer") then
                    match (c ← bearer_of params;
                           merge_bearer (invalid_challenge "conflicting Bearer parameters") bearer c) with
                    | Ok bearer => parse_challenges fuel bearer s
                    | Err e => Some (Err e)
                    | Panic => Some Panic
                    end
                  else parse_challenges fuel bearer s
              end
          end
      end
  end.

Definition parse_www_authenticate_value (value : list N)
    : option (outcome OciError (option BearerChallenge)) :=
  parse_challenges (S (length value)) None value.
End challenge.

(** [parse_www_authenticate], over the values of the header. *)
Fixpoint parse_header_values `{UriLib} `{HttpHeaders} (bearer : option BearerChallenge)
    (values : list HeaderValue) : option (outcome OciError (option BearerChallenge)) :=
  match values with
  | [] => Some (Ok bearer)
  | value :: values =>
      match header_to_str value with
      | None => Some (Err (invalid_challenge "WWW-Authenticate contains invalid UTF-8"))
      | Some value =>
          match parse_www_authenticate_value value with
          | None => None
          | Some (Err e) => Some (Err e)
          | Some Panic => Some Panic
          | Some (Ok None) => parse_header_values bearer values
          | Some (Ok (Some candidate)) =>
              match merge_bearer (invalid_challenge "conflicting Bearer challenges") bearer candidate with
              | Ok bearer => parse_header_values bearer values
              | Err e => Some (Err e)
              | Panic => Some Panic
              end
          end
      end
  end.
Definition parse_www_authenticate `{UriLib} `{HttpHeaders} (headers : HeaderMap)
    : option (outcome OciError (option BearerChallenge)) :=
  parse_header_values None (header_get_all headers (lit "www-authenticate")).

(** ** The token manager around the single-flight loop *)

Record TokenManager := {
  tm_endpoint : RegistryEndpoint;
  tm_credentials : RegistryCredentials;
  tm_default_scope : list N;
  tm_default_username : option (list N) }.

Definition challenge_key (self : TokenManager) (challenge : BearerChallenge) : ChallengeKey :=
  let '(realm, service, scope) :=
    cache_key challenge (re_authority (tm_endpoint self)) (tm_default_scope self) in
  {| ck_realm := realm; ck_service := service; ck_scope := scope |}.

Definition validate_challenge `{UriLib} (self : TokenManager) (challenge : BearerChallenge)
    : outcome OciError unit :=
  _ ← challenge_validate challenge;
  ensure (negb (is_insecure_non_localhost challenge && has_secret (tm_credentials self)))
    (invalid_challenge "refusing to send long-lived credentials to an insecure token realm").

(** The [base64] crate. *)
Class Base64 := { base64_encode : list N → list N }.

(** The request of [fetch_token_network]: its URL, and the Basic authorization it
    carries when the credentials have a secret and a user name is known. *)
Definition token_request `{Base64} (self : TokenManager) (challenge : BearerChallenge)
    : list N * option (list N) :=
  (token_url challenge (re_authority (tm_endpoint self)) (tm_default_scope self),
   s ← secret (tm_credentials self);
   username ← match rc_username (tm_credentials self) with
              | Some u => Some u
              | None => tm_default_username self
              end;
   Some (lit "Basic " ++ base64_encode (utf8 (username ++ lit ":" ++ s)))).

(** [get_token_for_challenge]: the request that a leader sends. *)
Definition token_exchange `{UriLib} `{Base64} (self : TokenManager) (challenge : BearerChallenge)
    : outcome OciError (list N * option (list N)) :=
  _ ← validate_challenge self challenge;
  Ok (token_request self challenge).

Record TokenResponse := {
  tr_token : option (list N);
  tr_access_token : option (list N);
  tr_expires_in : option N;
  tr_issued_at : option (list N) }.

(** How many seconds ago a response was issued: [issued_at] read as RFC 3339
    against the clock, and 0 when it is absent, unreadable or in the future. *)
Definition elapsed_secs `{Chrono} (utc_now : Z) (issued_at : option (list N)) : N :=
  match (t ← issued_at; parse_from_rfc3339 t) with
  | Some t => Z.to_N (Z.max (Z.quot (utc_now - t) 1000000000) 0)
  | None => 0
  end.

(** The lifetime left to a token, in seconds, less the margin for clock skew. *)
Definition token_ttl (expires_in : option N) (elapsed : N) : N :=
  let lifetime_secs := N.max (default 300 expires_in) 1 in
  let lifetime := N.max (lifetime_secs - elapsed) 1 in
  let skew := N.min lifetime 30 in
  N.max (lifetime - skew) 1.

(** The response side of [fetch_token_network]; the JSON text is already read. *)
Definition token_response `{Chrono} (challenge : BearerChallenge) (status : StatusCode)
    (response : option TokenResponse) (utc_now : Z) : outcome OciError (list N * N) :=
  _ ← ensure (is_success status) (OciToken (ExchangeFailed (bc_realm challenge) status));
  response ← ok_or (OciToken (InvalidResponse (bc_realm challenge) (lit "invalid JSON token response")))
               response;
  token ← ok_or (OciToken (InvalidResponse (bc_realm challenge)
                   (lit "response does not contain token or access_token")))
            (t ← match tr_token response with Some t => Some t | None => tr_access_token response end;
             if negb (is_empty t) then Some t else None);
  Ok (token, token_ttl (tr_expires_in response) (elapsed_secs utc_now (tr_issued_at response))).

(** ** Facts: the parser reads its input *)

Lemma drop_while_le f (s : list N) : (length (drop_while f s) ≤ length s)%nat.
Proof. induction s as [|c s IH]; simpl; [lia|]. destruct (f c); simpl; lia. Qed.

Lemma skip_spaces_le s : (length (skip_spaces s) ≤ length s)%nat.
Proof. apply drop_while_le. Qed.

Lemma token_lt s t r : token s = (Some t, r) → (length r < length s)%nat.
Proof.
  unfold token. destruct s as [|c s]; [done|]. simpl. destruct (is_token_char c) eqn:Hc; [|done].
  intros [= <- <-]. pose proof (drop_while_le is_token_char s). lia.
Qed.
Lemma token_le s t r : token s = (t, r) → (length r ≤ length s)%nat.
Proof. unfold token. intros Ht. pose proof (drop_while_le is_token_char s). destruct (take_while _ s); naive_solver. Qed.

Lemma read_given_char_Some c s r : read_given_char c s = Some r ↔ s = c :: r.
Proof. destruct s as [|d s]; [done|]. simpl. destruct (N.eqb_spec c d); naive_solver. Qed.

Lemma skip_separators_le s : (length (skip_separators s) ≤ length s)%nat.
Proof.
  unfold skip_separators.
  assert (∀ n s, (length (skip_commas n s) ≤ length s)%nat) as Hc.
  { intros n. induction n as [|n IH]; intros t; [done|]. cbn [skip_commas].
    destruct (read_given_char 44 t) as [r|] eqn:Hr; [|done]. apply read_given_char_Some in Hr as ->.
    specialize (IH (skip_spaces r)). pose proof (skip_spaces_le r). simpl. lia. }
  pose proof (Hc (length s) (skip_spaces s)). pose proof (skip_spaces_le s). lia.
Qed.

Lemma consume_until_comma_le q e s : (length (consume_until_comma q e s) ≤ length s)%nat.
Proof.
  revert q e. induction s as [|c s IH]; intros q e; simpl; [lia|].
  repeat case_match; simpl; try lia; (etrans; [apply IH|lia]).
Qed.

Lemma quoted_value_le e v s v' r : quoted_value e v s = Ok (v', r) → (length r < length s)%nat.
Proof.
  revert e v. induction s as [|c s IH]; intros e v; cbn [quoted_value length]; [done|].
  repeat case_match; intros Hq; try (apply IH in Hq; lia). injection Hq as <- <-. lia.
Qed.

Lemma parse_value_le s v r : parse_value s = Ok (v, r) → (length r ≤ length s)%nat.
Proof.
  unfold parse_value. destruct (read_given_char 34 s) as [s'|] eqn:Hr.
  - apply read_given_char_Some in Hr as ->. intros Hq. apply quoted_value_le in Hq. simpl. lia.
  - destruct (token s) as [t rest] eqn:Ht. intros Hv. apply bind_ok in Hv as (v0 & _ & Hv).
    injection Hv as <- <-. by eapply token_le.
Qed.

(** A loop round that goes on has read at least a name and an equals sign. *)
Lemma auth_param_le params s params' r b :
  auth_param params s = Ok (params', r, b) → (length r < length s)%nat.
Proof.
  unfold auth_param. destruct (token (skip_spaces s)) as [key s1] eqn:Ht. intros Hp.
  apply bind_ok in Hp as (k & Hk%ok_or_ok & Hp). subst key. apply token_lt in Ht.
  apply bind_ok in Hp as (s2 & Hs2%ok_or_ok & Hp). apply read_given_char_Some in Hs2.
  apply bind_ok in Hp as ([v s3] & Hv & Hp). apply bind_ok in Hp as (ps & _ & Hp). apply parse_value_le in Hv.
  pose proof (skip_spaces_le s) as L0. pose proof (skip_spaces_le s1) as L1. rewrite Hs2 in L1. simpl in L1.
  pose proof (skip_spaces_le s2) as L2. pose proof (skip_spaces_le s3) as L3.
  destruct (read_given_char 44 (skip_spaces s3)) as [next|] eqn:Hn.
  - apply read_given_char_Some in Hn. rewrite Hn in Hp, L3. simpl in L3.
    destruct (token (skip_spaces next)) as [tk rest]. apply bind_ok in Hp as (x & _ & Hp).
    case_bool_decide; injection Hp as <- <- <-; simpl; lia.
  - injection Hp as <- <- <-. lia.
Qed.

Lemma auth_params_total fuel params s : (length s < fuel)%nat →
  ∃ o, auth_params fuel params s = Some o ∧ ∀ ps r, o = Ok (ps, r) → (length r ≤ length s)%nat.
Proof.
  revert params s. induction fuel as [|fuel IH]; intros params s Hf; [lia|]. cbn [auth_params].
  destruct (auth_param params s) as [[[ps r] []]|e|] eqn:Hp; try (eexists; split; [done|done]).
  - apply auth_param_le in Hp. destruct (IH ps r) as (o & Ho & Hle); [lia|]. exists o. split; [done|].
    intros ps' r' Hr. specialize (Hle _ _ Hr). lia.
  - apply auth_param_le in Hp. eexists. split; [done|]. intros ps' r' [= <- <-]. lia.
Qed.

Lemma challenge_params_total s :
  ∃ o, challenge_params s = Some o ∧ ∀ ps r, o = Ok (ps, r) → (length r ≤ length s)%nat.
Proof.
  unfold challenge_params. destruct (_ || _); [eexists; split; [done|]; by intros ps r [= <- <-]|].
  destruct (next_is_token68 s); [|apply auth_params_total; lia].
  eexists. split; [done|]. intros ps r [= <- <-]. apply consume_until_comma_le.
Qed.

(** Parsing a [WWW-Authenticate] value always ends with an answer or an error, on every
    input: the two loops of the parser read at least one character each round. *)
Theorem parse_www_authenticate_total `{UriLib} value : is_Some (parse_www_authenticate_value value).
Proof.
  unfold parse_www_authenticate_value.
  assert (Hgen : ∀ fuel b s, (length s < fuel)%nat → is_Some (parse_challenges fuel b s)).
  { induction fuel as [|fuel IH]; intros b s Hf; [lia|]. cbn [parse_challenges].
    pose proof (skip_separators_le s) as Hs. destruct (skip_separators s) as [|c t]; [by eexists|].
    destruct (token (c :: t)) as [[scheme|] r] eqn:Ht; [|by eexists]. apply token_lt in Ht.
    pose proof (skip_spaces_le r). destruct (challenge_params_total (skip_spaces r)) as (o & -> & Ho).
    destruct o as [[params r']|e|]; [|by eexists..]. specialize (Ho _ _ eq_refl).
    destruct (eq_ignore_ascii_case _ _); [|apply IH; lia].
    destruct (_ ← _; _) as [b'|e|]; [apply IH; lia|by eexists..]. }
  apply Hgen. lia.
Qed.

(** A challenge the parser returns has a valid realm. *)
Lemma parse_challenges_valid `{UriLib} fuel b s c :
  (∀ c, b = Some c → challenge_validate c = Ok tt) →
  parse_challenges fuel b s = Some (Ok (Some c)) → challenge_validate c = Ok tt.
Proof.
  revert b s. induction fuel as [|fuel IH]; intros b s Hb; cbn [parse_challenges]; [done|].
  destruct (skip_separators s) as [|d t]; [intros [= ->]; auto|].
  destruct (token (d :: t)) as [[scheme|] r]; [|done].
  destruct (challenge_params (skip_spaces r)) as [[[params r']|e|]|]; try done.
  destruct (eq_ignore_ascii_case _ _); [|by apply IH].
  destruct (_ ← _; _) as [b'|e|] eqn:Hm; try done. apply IH. intros c' ->.
  apply bind_ok in Hm as (c0 & Hc & Hm).
  assert (c' = c0) as ->.
  { unfold merge_bearer in Hm. destruct b as [e|]; [destruct (negb _); [done|]|]; by injection Hm. }
  unfold bearer_of in Hc. apply bind_ok in Hc as (realm & _ & Hc).
  unfold challenge_new in Hc. apply bind_ok in Hc as ([] & Hv & Hc). by injection Hc as <-.
Qed.

(** ** Facts: what a server writes is what the parser reads *)

(** A quoted string: quotes and backslashes are escaped. *)
Definition quote_char (c : N) : list N := if (c =? 34) || (c =? 92) then [92; c] else [c].
Definition quote_value (v : list N) : list N := 34 :: (v ≫= quote_char) ++ [34].

Lemma quoted_value_quote v acc r :
  quoted_value false acc ((v ≫= quote_char) ++ 34 :: r) = Ok (acc ++ v, r).
Proof.
  revert acc. induction v as [|c v IH]; intros acc; [cbn; by rewrite app_nil_r|].
  rewrite bind_cons, <-app_assoc. unfold quote_char at 1.
  destruct (N.eqb_spec c 34) as [->|H34]; [cbn; rewrite IH, <-app_assoc; done|].
  destruct (N.eqb_spec c 92) as [->|H92]; [cbn; rewrite IH, <-app_assoc; done|].
  cbn [orb app quoted_value]. apply N.eqb_neq in H34, H92. rewrite H34, H92, IH, <-app_assoc. done.
Qed.

Lemma parse_value_quote v r : parse_value (quote_value v ++ r) = Ok (v, r).
Proof.
  unfold parse_value.
  assert (read_given_char 34 (quote_value v ++ r) = Some ((v ≫= quote_char) ++ 34 :: r)) as ->.
  { apply read_given_char_Some. unfold quote_value. cbn [app]. by rewrite <-app_assoc. }
  apply quoted_value_quote.
Qed.

(** The challenge as a server sends it. *)
Definition render_param (name : list N) (v : list N) : list N := name ++ [61] ++ quote_value v.
Definition render_challenge (c : BearerChallenge) : list N :=
  lit "Bearer " ++ render_param (lit "realm") (bc_realm c)
  ++ match bc_service c with Some v => lit ", " ++ render_param (lit "service") v | None => [] end
  ++ match bc_scope c with Some v => lit ", " ++ render_param (lit "scope") v | None => [] end.

Lemma skip_spaces_id c s : is_blank c = false → skip_spaces (c :: s) = c :: s.
Proof. unfold skip_spaces. simpl. by intros ->. Qed.

Lemma take_while_app f (t : list N) c s :
  Forall (λ x, f x = true) t → f c = false → take_while f (t ++ c :: s) = t ∧ drop_while f (t ++ c :: s) = c :: s.
Proof.
  intros Ht Hc. induction Ht as [|x t Hx _ [IH1 IH2]]; simpl; [by rewrite Hc|]. rewrite Hx, IH1, IH2. done.
Qed.

Lemma token_app t c s :
  t ≠ [] → Forall (λ x, is_token_char x = true) t → is_token_char c = false →
  token (t ++ c :: s) = (Some t, c :: s).
Proof.
  intros Hne Ht Hc. unfold token. destruct (take_while_app is_token_char t c s Ht Hc) as [-> ->].
  by destruct t.
Qed.

(** A parameter name: a token that starts with no blank. *)
Definition param_name (n : list N) : Prop :=
  n ≠ [] ∧ Forall (λ x, is_token_char x = true) n ∧ ∀ s, skip_spaces (n ++ s) = n ++ s.

Lemma auth_param_render params n v s :
  param_name n → find_param params n = None →
  auth_param params (render_param n v ++ s) =
    match read_given_char 44 (skip_spaces s) with
    | Some next =>
        let '(t, rest) := token (skip_spaces next) in
        _ ← ok_or (invalid_challenge "trailing comma in challenge") t;
        if bool_decide (head (skip_spaces rest) = Some 61) then Ok (params ++ [(n, v)], next, true)
        else Ok (params ++ [(n, v)], skip_spaces s, false)
    | None => Ok (params ++ [(n, v)], skip_spaces s, false)
    end.
Proof.
  intros (Hne & Htok & Hsp) Hfind.
  assert (Hq : ∀ v s, skip_spaces (quote_value v ++ s) = quote_value v ++ s) by (intros; by apply skip_spaces_id).
  unfold auth_param, render_param. rewrite <-!app_assoc, Hsp. cbn [app].
  rewrite (token_app n 61) by done. cbn [ok_or mbind outcome_bind].
  rewrite (skip_spaces_id 61) by done. cbn [read_given_char]. rewrite N.eqb_refl.
  cbn [ok_or mbind outcome_bind]. rewrite Hq, parse_value_quote. cbn [mbind outcome_bind].
  rewrite Hfind. done.
Qed.

(** The last parameter, and one that another follows. *)
Lemma auth_param_last params n v : param_name n → find_param params n = None →
  auth_param params (render_param n v) = Ok (params ++ [(n, v)], [], false).
Proof. intros Hn Hf. rewrite <-(app_nil_r (render_param n v)). by rewrite auth_param_render. Qed.

Lemma auth_param_more params n v n' v' rest :
  param_name n → param_name n' → find_param params n = None →
  auth_param params (render_param n v ++ lit ", " ++ render_param n' v' ++ rest)
  = Ok (params ++ [(n, v)], lit " " ++ render_param n' v' ++ rest, true).
Proof.
  intros Hn (Hne' & Htok' & Hsp') Hf. rewrite auth_param_render by done.
  change (lit ", " ++ render_param n' v' ++ rest) with (44 :: 32 :: render_param n' v' ++ rest).
  rewrite (skip_spaces_id 44) by done. cbn [read_given_char]. rewrite N.eqb_refl.
  change (skip_spaces (32 :: render_param n' v' ++ rest)) with (skip_spaces (render_param n' v' ++ rest)).
  unfold render_param at 1. rewrite <-!app_assoc, Hsp'. cbn [app].
  rewrite (token_app n' 61) by done. cbn [ok_or mbind outcome_bind].
  rewrite (skip_spaces_id 61) by done. by rewrite bool_decide_eq_true_2.
Qed.

Lemma auth_param_blank params s : auth_param params (lit " " ++ s) = auth_param params s.
Proof. done. Qed.

Lemma name_ok n : n ∈ [lit "realm"; lit "service"; lit "scope"] → param_name n.
Proof.
  intros Hn. assert (Hc : ∃ c r, n = c :: r ∧ is_blank c = false ∧ forallb is_token_char n = true).
  { rewrite !elem_of_cons in Hn. destruct Hn as [->|[->|[->|Hn]]]; [..|by apply elem_of_nil in Hn];
      eexists _, _; (split; [reflexivity|split; by vm_compute]). }
  destruct Hc as (c & r & -> & Hb & Ht). split_and!; [done| |].
  - apply Forall_forall. intros x Hx. rewrite forallb_forall in Ht. by apply Ht, list_elem_of_In.
  - intros s. by apply skip_spaces_id.
Qed.

Lemma auth_params_render c k :
  auth_params (S (S (S k))) [] (render_param (lit "realm") (bc_realm c)
    ++ match bc_service c with Some v => lit ", " ++ render_param (lit "service") v | None => [] end
    ++ match bc_scope c with Some v => lit ", " ++ render_param (lit "scope") v | None => [] end)
  = Some (Ok ((lit "realm", bc_realm c)
      :: match bc_service c with Some v => [(lit "service", v)] | None => [] end
      ++ match bc_scope c with Some v => [(lit "scope", v)] | None => [] end, [])).
Proof.
  assert (Nr : param_name (lit "realm")) by (apply name_ok; set_solver).
  assert (Ns : param_name (lit "service")) by (apply name_ok; set_solver).
  assert (Nc : param_name (lit "scope")) by (apply name_ok; set_solver).
  destruct (bc_service c) as [sv|], (bc_scope c) as [sc|]; rewrite ?app_nil_l, ?app_nil_r;
    cbn [auth_params].
  - rewrite <-!app_assoc, auth_param_more by done. cbn [app]. rewrite auth_param_blank.
    pose proof (auth_param_more [(lit "realm", bc_realm c)] (lit "service") sv (lit "scope") sc [] Ns Nc eq_refl) as H2.
    rewrite app_nil_r in H2. rewrite H2. cbn [app]. rewrite auth_param_blank. by rewrite auth_param_last.
  - pose proof (auth_param_more [] (lit "realm") (bc_realm c) (lit "service") sv [] Nr Ns eq_refl) as H2.
    rewrite app_nil_r in H2. rewrite H2. cbn [app]. rewrite auth_param_blank. by rewrite auth_param_last.
  - pose proof (auth_param_more [] (lit "realm") (bc_realm c) (lit "scope") sc [] Nr Nc eq_refl) as H2.
    rewrite app_nil_r in H2. rewrite H2. cbn [app]. rewrite auth_param_blank. by rewrite auth_param_last.
  - by rewrite auth_param_last.
Qed.

(** A Bearer challenge with a valid realm, written with quoted parameters (any characters,
    quotes and backslashes escaped), is read back exactly, and whatever challenge the parser
    returns on any input has an absolute http or https realm. *)
Theorem challenge_roundtrip `{UriLib} c :
  (challenge_validate c = Ok tt →
   parse_www_authenticate_value (render_challenge c) = Some (Ok (Some c))) ∧
  ∀ value, parse_www_authenticate_value value = Some (Ok (Some c)) → challenge_validate c = Ok tt.
Proof.
  split; [|intros value; by apply parse_challenges_valid].
  intros Hv. unfold parse_www_authenticate_value, render_challenge.
  set (P := render_param (lit "realm") (bc_realm c) ++ _).
  assert (Hskip : skip_spaces P = P) by (by apply skip_spaces_id).
  assert (Hlen : ∃ k, length P = S (S k)).
  { unfold P, render_param. rewrite <-!app_assoc. eexists. reflexivity. }
  destruct Hlen as [k Hk]. cbn [parse_challenges].
  change (skip_separators (lit "Bearer " ++ P)) with (lit "Bearer" ++ 32 :: P).
  change (lit "Bearer" ++ 32 :: P) with (66 :: lit "earer" ++ 32 :: P) at 1. cbn iota.
  change (66 :: lit "earer" ++ 32 :: P) with (lit "Bearer" ++ 32 :: P).
  rewrite token_app; [|done|by repeat (apply Forall_cons; split; [by vm_compute|])|done].
  change (skip_spaces (32 :: P)) with (skip_spaces P). rewrite Hskip.
  assert (Hparams : challenge_params P = auth_params (S (length P)) [] P).
  { unfold challenge_params. change (bool_decide (head P = Some 44) || is_empty P) with false. cbn iota.
    assert (next_is_token68 P = false) as ->; [|done].
    unfold next_is_token68, P, render_param. rewrite <-!app_assoc. cbn [app].
    rewrite (token_app (lit "realm") 61); [|done|by repeat (apply Forall_cons; split; [by vm_compute|])|done].
    rewrite skip_spaces_id by done. by rewrite bool_decide_eq_true_2. }
  rewrite Hparams, Hk. unfold P. rewrite auth_params_render.
  change (eq_ignore_ascii_case (lit "Bearer") (lit "bearer")) with true. cbn iota.
  assert (bearer_of ((lit "realm", bc_realm c)
      :: match bc_service c with Some v => [(lit "service", v)] | None => [] end
      ++ match bc_scope c with Some v => [(lit "scope", v)] | None => [] end) = Ok c) as ->.
  { assert (challenge_new (bc_realm c) (bc_service c) (bc_scope c) = Ok c) as Hnew.
    { unfold challenge_new. destruct c as [realm sv sc]. simpl. by rewrite Hv. }
    unfold bearer_of. destruct (bc_service c) as [sv|], (bc_scope c) as [sc|]; exact Hnew. }
  cbn [mbind outcome_bind merge_bearer].
  change (length (lit "Bearer " ++ P)) with (S (6 + length P)). done.
Qed.


(** What the client does with a token response: a token is taken only from a successful
    response, is not empty, prefers [token] to [access_token], and is cached for at least one
    second and, when at least 31 seconds of its announced lifetime are left, for 30 seconds less
    than that, so that it is not used after it expires. *)
Theorem token_response_spec `{Chrono} challenge status response utc_now t ttl :
  token_response challenge status response utc_now = Ok (t, ttl) →
  ∃ r, response = Some r ∧ is_success status = true ∧ t ≠ [] ∧
    (tr_token r = Some t ∨ tr_token r = None ∧ tr_access_token r = Some t) ∧
    let lifetime := N.max (default 300 (tr_expires_in r)) 1 in
    let elapsed := elapsed_secs utc_now (tr_issued_at r) in
    1 ≤ ttl ∧ (30 < lifetime - elapsed → ttl + 30 + elapsed = lifetime) ∧ (ttl + elapsed ≤ lifetime ∨ ttl = 1).
Proof.
  unfold token_response. intros Hr. apply bind_ok in Hr as (u & Hst%ensure_ok & Hr).
  apply bind_ok in Hr as (r & Hresp%ok_or_ok & Hr). apply bind_ok in Hr as (t' & Ht%ok_or_ok & Hr).
  injection Hr as -> <-. exists r. split; [done|]. split; [done|].
  assert (Htok : t ≠ [] ∧ (tr_token r = Some t ∨ tr_token r = None ∧ tr_access_token r = Some t)).
  { destruct (tr_token r) as [x|]; [|destruct (tr_access_token r) as [x|]; [|done]];
      cbn [mbind option_bind] in Ht; destruct x; try done; injection Ht as <-; auto. }
  destruct Htok. split; [done|]. split; [done|]. unfold token_ttl. lia.
Qed.

(** ** Witnesses *)

Definition sample_challenge : BearerChallenge := {|
  bc_realm := lit "https://auth.example/token"; bc_service := Some (lit "registry.example");
  bc_scope := Some (lit "repository:org/cache:pull,push") |}.

Lemma parse_www_authenticate_value_example :
  @parse_www_authenticate_value sample_uri
    (lit "Basic realm=public, bEaReR ReAlM=https, Bearer")
  = Some (Err (invalid_challenge "Bearer realm must be an absolute HTTP(S) URL")).
Proof. by vm_compute. Qed.

Lemma challenge_roundtrip_witness :
  @parse_www_authenticate_value sample_uri (render_challenge sample_challenge) = Some (Ok (Some sample_challenge)).
Proof. apply (@challenge_roundtrip sample_uri sample_challenge). by vm_compute. Defined.

Definition sample_manager : TokenManager := {|
  tm_endpoint := sample_endpoint; tm_credentials := credentials_with_username (lit "AWS") (lit "key");
  tm_default_scope := lit "repository:a:pull"; tm_default_username := None |}.
Definition sample_base64 : Base64 := {| base64_encode := λ s, s |}.


Definition sample_chrono : Chrono := {|
  parse_from_rfc3339 := λ s, if is_empty s then None else Some 0%Z;
  to_rfc3339 := λ _, []; to_rfc3339_secs := λ _, [] |}.

Lemma token_response_spec_witness :
  ∃ ttl, @token_response sample_chrono sample_challenge 200
    (Some {| tr_token := None; tr_access_token := Some (lit "t"); tr_expires_in := Some 300;
             tr_issued_at := Some (lit "1970-01-01T00:00:00Z") |}) 60000000000 = Ok (lit "t", ttl)
    ∧ ttl = 210 ∧ 1 ≤ ttl.
Proof.
  exists 210. split; [by vm_compute|]. split; [done|].
  destruct (@token_response_spec sample_chrono sample_challenge 200
    (Some {| tr_token := None; tr_access_token := Some (lit "t"); tr_expires_in := Some 300;
             tr_issued_at := Some (lit "1970-01-01T00:00:00Z") |}) 60000000000 (lit "t") 210)
    as (r & _ & _ & _ & _ & Hge & _); [by vm_compute|done].
Defined.
