(* ===== verification/Request.v ===== *)
(** * Request: authenticated requests (crates/nixcache-oci/src/client/request.rs,
    the trait [OciTransport] of transport.rs and [OciClient] of client.rs)

    Everything outside the client (the registry, the network, the token cache
    other tasks share) is a state [W].  A request is a function from it; the
    trait and the token manager are the interfaces [TransportOps] and
    [TokenOps]. *)

From S2P Require Import Prelude Machine Str Text Error Types OciError Transport Endpoint Auth.

Local Open Scope N_scope.

(** ** Effects *)

Definition IO (W A : Type) : Type := W → W * outcome OciError A.
#[export] Instance io_ret W : MRet (IO W) := λ A a w, (w, Ok a).
#[export] Instance io_bind W : MBind (IO W) := λ A B k m w,
  match m w with
  | (w, Ok a) => k a w
  | (w, Err e) => (w, Err e)
  | (w, Panic) => (w, Panic)
  end.
Definition lift {W A} (o : outcome OciError A) : IO W A := λ w, (w, o).
(** [?] on a transport call. *)
Definition io_transport {W A} (m : W → W * outcome TransportError A) : IO W A :=
  λ w, let '(w, o) := m w in (w, map_err oci_from_transport o).
(** A call that cannot fail. *)
Definition io_call {W A} (m : W → W * A) : IO W A := λ w, let '(w, a) := m w in (w, Ok a).
(** The result of a call as a value, for a [match] on it. *)
Definition io_catch {W A} (m : IO W A) : IO W (outcome OciError A) := λ w, let '(w, o) := m w in (w, Ok o).
Definition io_map_err {W A} (f : OciError → OciError) (m : IO W A) : IO W A :=
  λ w, let '(w, o) := m w in (w, map_err f o).

Lemma io_bind_ok {W A B} (m : IO W A) (k : A → IO W B) w w' b :
  (m ≫= k) w = (w', Ok b) ↔ ∃ w1 a, m w = (w1, Ok a) ∧ k a w1 = (w', Ok b).
Proof. unfold mbind, io_bind. destruct (m w) as [w1 [a|e|]]; naive_solver. Qed.
Lemma lift_ok {W A} (o : outcome OciError A) (w w' : W) a : lift o w = (w', Ok a) ↔ w' = w ∧ o = Ok a.
Proof. unfold lift. naive_solver. Qed.

Record UploadChunkResponse `{HttpHeaders} := {
  uc_status : StatusCode;
  uc_headers : HeaderMap;
  uc_location : option (list N);
  uc_range : option (N * N) }.

(** The trait [OciTransport], in the form the client calls it. *)
Class TransportOps (W : Type) `{HttpHeaders} := {
  tr_head_with_headers : list N → HeaderMap → W → W * outcome TransportError (StatusCode * HeaderMap);
  tr_get : list N → HeaderMap → N → W → W * outcome TransportError (StatusCode * HeaderMap * list N);
  tr_stream : list N → HeaderMap → N → W →
    W * outcome TransportError (StatusCode * HeaderMap * list (outcome TransportError (list N)));
  tr_post : list N → HeaderMap → W → W * outcome TransportError (StatusCode * HeaderMap);
  tr_post_bytes : list N → HeaderMap → list N → W → W * outcome TransportError (StatusCode * HeaderMap);
  tr_put_bytes_with_headers : list N → HeaderMap → list N → W →
    W * outcome TransportError (StatusCode * HeaderMap);
  tr_patch_chunk : list N → HeaderMap → list N → N * N → W → W * outcome TransportError UploadChunkResponse;
  tr_put_chunk_finish_with_headers : list N → HeaderMap → option (list N * (N * N)) → W →
    W * outcome TransportError (StatusCode * HeaderMap);
  tr_delete_with_headers : list N → HeaderMap → W → W * outcome TransportError (StatusCode * HeaderMap);
  tr_sleep : N → W → W }.

(** [TokenManager]: the cached token of the last key, and a refresh. *)
Class TokenOps (W : Type) := {
  tm_cached_token : W → W * option (list N);
  tm_refresh_token : BearerChallenge → W → W * outcome OciError (list N) }.

Section request.
Context {W : Type} `{HttpHeaders} `{UriLib} `{!TransportOps W} `{!TokenOps W}.

Definition ACCEPT : list N := lit "application/vnd.oci.image.index.v1+json, application/vnd.oci.image.manifest.v1+json, application/vnd.docker.distribution.manifest.list.v2+json, application/vnd.docker.distribution.manifest.v2+json".

(** [HeaderValue::from_static] of a text the crate accepts. *)
Definition insert_static (name value : list N) (headers : HeaderMap) : HeaderMap :=
  match header_value_from_str value with
  | Some v => header_insert name v headers
  | None => headers
  end.

Definition request_with_bearer (headers : HeaderMap) (token : list N) : HeaderMap :=
  match header_value_from_str (lit "Bearer " ++ token) with
  | Some value => header_insert (lit "authorization") value headers
  | None => headers
  end.

Definition get_auth_headers : IO W HeaderMap :=
  token ← io_call tm_cached_token;
  let headers := insert_static (lit "accept") ACCEPT header_new in
  mret (match token with Some token => request_with_bearer headers token | None => headers end).

(** The parser is total ([parse_www_authenticate_total]), so its fuel never runs out. *)
Definition parsed_challenge (headers : HeaderMap) : outcome OciError (option BearerChallenge) :=
  match parse_www_authenticate headers with Some o => o | None => Panic end.

Definition request_challenge_for_response (operation : list N) (status : StatusCode) (headers : HeaderMap)
    : IO W (BearerChallenge * HeaderMap) :=
  if negb (status =? 401)
  then lift (Err (AuthenticationFailed operation status (lit "unexpected authentication response")))
  else
    challenge ← lift (parsed_challenge headers);
    challenge ← lift (ok_or (AuthenticationFailed operation status
                         (lit "registry returned 401 without a Bearer challenge")) challenge);
    token ← (tm_refresh_token challenge : IO W (list N));
    headers ← get_auth_headers;
    mret (challenge, request_with_bearer headers token).

(** The caller's headers, except the old authorization, over the new ones. *)
Definition carry_headers (headers retry_headers : HeaderMap) : HeaderMap :=
  foldl (λ acc '(name, value), if bool_decide (name = lit "authorization") then acc
                               else header_insert name value acc)
    retry_headers (header_iter headers).

(** The shape all the requests share: send, and on a 401 get a new token and send
    once more. *)
Definition auth_retry {R} (operation : list N) (status_of : R → StatusCode) (headers_of : R → HeaderMap)
    (send : HeaderMap → IO W R) (headers : HeaderMap) (carry : HeaderMap → HeaderMap) : IO W R :=
  first ← send headers;
  if negb (status_of first =? 401) then mret first
  else
    retry ← request_challenge_for_response operation (status_of first) (headers_of first);
    second ← send (carry retry.2);
    if status_of second =? 401
    then lift (Err (AuthenticationFailed operation (status_of second)
                (lit "Bearer challenge retry was rejected")))
    else mret second.

Definition request_get_with_auth_retry (url operation : list N) (max_bytes : N)
    : IO W (StatusCode * HeaderMap * list N) :=
  headers ← get_auth_headers;
  auth_retry operation (λ r, r.1.1) (λ r, r.1.2) (λ h, io_transport (tr_get url h max_bytes)) headers id.

Definition request_head_with_auth_retry (url operation : list N) : IO W (StatusCode * HeaderMap) :=
  headers ← get_auth_headers;
  auth_retry operation fst snd (λ h, io_transport (tr_head_with_headers url h)) headers id.

Definition request_post_with_auth_retry (url operation : list N) : IO W (StatusCode * HeaderMap) :=
  headers ← get_auth_headers;
  auth_retry operation fst snd (λ h, io_transport (tr_post url h)) headers id.

Definition request_post_bytes_with_auth_retry (url : list N) (headers : HeaderMap) (body operation : list N)
    : IO W StatusCode :=
  r ← auth_retry operation fst snd (λ h, io_transport (tr_post_bytes url h body)) headers
        (carry_headers headers);
  mret r.1.

Definition request_put_bytes_with_auth_retry (url : list N) (headers : HeaderMap) (body operation : list N)
    : IO W StatusCode :=
  r ← auth_retry operation fst snd (λ h, io_transport (tr_put_bytes_with_headers url h body)) headers
        (carry_headers headers);
  mret r.1.

Definition request_patch_chunk_with_auth_retry (url : list N) (headers : HeaderMap) (chunk : list N)
    (byte_range : N * N) (operation : list N) : IO W UploadChunkResponse :=
  auth_retry operation uc_status uc_headers
    (λ h, io_transport (tr_patch_chunk url h chunk byte_range)) headers (carry_headers headers).

Definition request_put_chunk_finish_with_auth_retry (url : list N) (headers : HeaderMap)
    (final_chunk : option (list N * (N * N))) (operation : list N) : IO W StatusCode :=
  r ← auth_retry operation fst snd
        (λ h, io_transport (tr_put_chunk_finish_with_headers url h final_chunk)) headers
        (carry_headers headers);
  mret r.1.

Definition request_delete_with_auth_retry (url operation : list N) : IO W StatusCode :=
  headers ← get_auth_headers;
  r ← auth_retry operation fst snd (λ h, io_transport (tr_delete_with_headers url h)) headers id;
  mret r.1.

Definition request_stream_with_auth_retry (url operation : list N) (max_bytes : N)
    : IO W (StatusCode * HeaderMap * list (outcome TransportError (list N))) :=
  headers ← get_auth_headers;
  auth_retry operation (λ r, r.1.1) (λ r, r.1.2) (λ h, io_transport (tr_stream url h max_bytes)) headers id.
End request.

(** ** Facts *)

Section request_facts.
Context {W : Type} `{HttpHeaders} `{UriLib} `{!TokenOps W}.

(** What calls preserve: a relation between the worlds before and after. *)
Definition preserves {A} (R : W → W → Prop) (m : IO W A) : Prop := ∀ w, R w (m w).1.

Context (R : W → W → Prop) `{!PreOrder R}.

Lemma preserves_bind {A B} (m : IO W A) (k : A → IO W B) :
  preserves R m → (∀ a, preserves R (k a)) → preserves R (m ≫= k).
Proof.
  intros Hm Hk w. specialize (Hm w). unfold mbind, io_bind. destruct (m w) as [w1 [a|e|]]; simpl in *; try done.
  etrans; [done|]. apply Hk.
Qed.
Lemma preserves_ret {A} (a : A) : preserves R (mret a : IO W A).
Proof. intros w. simpl. reflexivity. Qed.
Lemma preserves_lift {A} (o : outcome OciError A) : preserves R (lift o).
Proof. intros w. simpl. reflexivity. Qed.
Lemma preserves_map_err {A} f (m : IO W A) : preserves R m → preserves R (io_map_err f m).
Proof. intros Hm w. specialize (Hm w). unfold io_map_err. by destruct (m w). Qed.
Lemma preserves_catch {A} (m : IO W A) : preserves R m → preserves R (io_catch m).
Proof. intros Hm w. specialize (Hm w). unfold io_catch. by destruct (m w). Qed.

(** Requests for tokens preserve [R]. *)
Hypothesis Hcached : ∀ w, R w (tm_cached_token w).1.
Hypothesis Hrefresh : ∀ c, preserves R (tm_refresh_token c : IO W (list N)).

Lemma preserves_auth_headers : preserves R get_auth_headers.
Proof.
  apply preserves_bind; [|intros; apply preserves_ret]. intros w. unfold io_call.
  specialize (Hcached w). by destruct (tm_cached_token w).
Qed.

Lemma preserves_challenge op st h : preserves R (request_challenge_for_response op st h).
Proof.
  unfold request_challenge_for_response. destruct (negb _); [apply preserves_lift|].
  apply preserves_bind; [apply preserves_lift|]. intros c. apply preserves_bind; [apply preserves_lift|].
  intros c'. apply preserves_bind; [apply Hrefresh|]. intros t.
  apply preserves_bind; [apply preserves_auth_headers|]. intros h'. apply preserves_ret.
Qed.

Lemma preserves_auth_retry {A} op (st : A → N) hd send h carry :
  (∀ h, preserves R (send h)) → preserves R (auth_retry op st hd send h carry).
Proof.
  intros Hs. unfold auth_retry. apply preserves_bind; [apply Hs|]. intros first.
  destruct (negb _); [apply preserves_ret|]. apply preserves_bind; [apply preserves_challenge|].
  intros retry. apply preserves_bind; [apply Hs|]. intros second.
  destruct (_ =? _); [apply preserves_lift|apply preserves_ret].
Qed.
End request_facts.

(** Every authenticated request is sent once or twice, whatever the registry and the token
    server answer, errors included, and a response with status 401 is never handed to the
    caller.  ([sends] counts the sends of this request.) *)
Theorem auth_retry_bounded {W R : Type} `{HttpHeaders} `{UriLib} `{!TokenOps W}
    (sends : W → N) (op : list N) (status_of : R → StatusCode) (headers_of : R → HeaderMap)
    (send : HeaderMap → IO W R) (headers : HeaderMap) (carry : HeaderMap → HeaderMap) (w w' : W) o :
  (∀ h w, sends (send h w).1 = sends w + 1) → (∀ w, sends (tm_cached_token w).1 = sends w) →
  (∀ c w, sends (tm_refresh_token c w).1 = sends w) →
  auth_retry op status_of headers_of send headers carry w = (w', o) →
  sends w + 1 ≤ sends w' ≤ sends w + 2 ∧ ∀ r, o = Ok r → status_of r ≠ 401.
Proof.
  intros Hsend Hcached Hrefresh. unfold auth_retry, mbind, io_bind.
  pose proof (Hsend headers w) as Hw1. destruct (send headers w) as [w1 [first|e|]]; simpl in Hw1;
    [|intros [= <- <-]; split; [lia|done]..].
  destruct (N.eqb_spec (status_of first) 401) as [H401|H401]; cbn [negb].
  2:{ intros [= <- <-]. split; [lia|]. by intros r [= <-]. }
  assert (PreOrder (λ a b, sends a = sends b)) by (split; [done|intros ???; congruence]).
  pose proof (preserves_challenge (λ a b, sends a = sends b)
    (λ w, eq_sym (Hcached w)) (λ c w, eq_sym (Hrefresh c w)) op (status_of first) (headers_of first) w1) as Hw2.
  destruct (request_challenge_for_response _ _ _ w1) as [w2 [retry|e|]]; simpl in Hw2;
    [|intros [= <- <-]; split; [lia|done]..].
  pose proof (Hsend (carry retry.2) w2) as Hw3.
  destruct (send (carry retry.2) w2) as [w3 [second|e|]]; simpl in Hw3; [|intros [= <- <-]; split; [lia|done]..].
  destruct (N.eqb_spec (status_of second) 401) as [H2|H2]; intros [= <- <-]; split; try lia; try done.
  by intros r [= <-].
Qed.

(** ** Witnesses *)

(** A world that counts requests: the registry asks for a token first. *)
Record CountingWorld := { cw_sends : N; cw_log : list (list N) }.

Definition counting_send (h : @HeaderMap sample_http) : IO CountingWorld (N * @HeaderMap sample_http) :=
  λ w, ({| cw_sends := cw_sends w + 1; cw_log := cw_log w |},
        if cw_sends w =? 0
        then Ok (401, [(lit "www-authenticate", render_challenge sample_challenge)]) else Ok (200, [])).
Definition counting_tokens : TokenOps CountingWorld := {|
  tm_cached_token := λ w, (w, None);
  tm_refresh_token := λ _ w, (w, Ok (lit "fresh")) |}.

Lemma auth_retry_bounded_witness :
  let w := {| cw_sends := 0; cw_log := [] |} in
  ∃ w' r, @auth_retry CountingWorld sample_http sample_uri counting_tokens _ (lit "get") fst snd
      counting_send [] id w = (w', Ok r) ∧ cw_sends w' = 2 ∧ cw_sends w' ≤ cw_sends w + 2 ∧ r.1 ≠ 401.
Proof.
  intros w. eexists _, _. split; [by vm_compute|]. split; [done|].
  destruct (@auth_retry_bounded CountingWorld _ sample_http sample_uri counting_tokens
    cw_sends (lit "get") fst snd counting_send [] id w {| cw_sends := 2; cw_log := [] |} (Ok (200, [])))
    as [[_ Hle] Hr]; [done|done|done|by vm_compute|].
  split; [done|]. by apply Hr.
Defined.
