(* ===== verification/Driver.v ===== *)
(** * Driver: the backends (crates/nixcache-oci/src/backend/kind.rs and
    backend/driver.rs)

    The driver of a backend has no state, so [OciDriver] is its [RegistryKind].
    [str::to_lowercase], which needs the Unicode tables, is the interface
    [UnicodeCase]. *)

From S2P Require Import Prelude Machine Str Error OciError Transport Endpoint.

Local Open Scope N_scope.

Class UnicodeCase := { to_lowercase : list N → list N }.
(** Documented: ASCII text is mapped like [to_ascii_lowercase]. *)
Class UnicodeCaseOk `{UnicodeCase} := {
  to_lowercase_ascii : ∀ s, Forall is_ascii s → to_lowercase s = to_ascii_lowercase s }.

Inductive BlobUploadStrategy := FixedTwoStepPut | PreferMonolithicPost | ResumableChunkedPatch.
Inductive ManifestCasSupport := IfMatch | CasNotSupported.
Inductive PackageDeletionSupport := NativeComplete | TaggedGraphOnly | PackageDeletionUnsupported.
Inductive RegistryDeletionStrategy :=
| GitHubPackagesRestApi | DockerHubRestApi | AwsEcrApi | StandardOciDelete | DeletionUnsupported.
#[export] Instance BlobUploadStrategy_eq_dec : EqDecision BlobUploadStrategy.
Proof. solve_decision. Defined.
#[export] Instance ManifestCasSupport_eq_dec : EqDecision ManifestCasSupport.
Proof. solve_decision. Defined.
#[export] Instance PackageDeletionSupport_eq_dec : EqDecision PackageDeletionSupport.
Proof. solve_decision. Defined.
#[export] Instance RegistryDeletionStrategy_eq_dec : EqDecision RegistryDeletionStrategy.
Proof. solve_decision. Defined.

Record RegistryCapabilities := {
  supports_chunked_patch : bool;
  supports_monolithic_post_1rtt : bool;
  manifest_cas_support : ManifestCasSupport;
  requires_library_namespace_expansion : bool;
  fixed_upload_strategy : BlobUploadStrategy;
  deletion_strategy : RegistryDeletionStrategy;
  supports_blob_physical_deletion : bool;
  package_deletion_support : PackageDeletionSupport }.

Definition GHCR_CAPABILITIES : RegistryCapabilities := {|
  supports_chunked_patch := false; supports_monolithic_post_1rtt := false;
  manifest_cas_support := CasNotSupported; requires_library_namespace_expansion := false;
  fixed_upload_strategy := FixedTwoStepPut; deletion_strategy := GitHubPackagesRestApi;
  supports_blob_physical_deletion := false; package_deletion_support := NativeComplete |}.
Definition DOCKER_HUB_CAPABILITIES : RegistryCapabilities := {|
  supports_chunked_patch := true; supports_monolithic_post_1rtt := true;
  manifest_cas_support := IfMatch; requires_library_namespace_expansion := true;
  fixed_upload_strategy := PreferMonolithicPost; deletion_strategy := DockerHubRestApi;
  supports_blob_physical_deletion := false; package_deletion_support := PackageDeletionUnsupported |}.
Definition AWS_ECR_CAPABILITIES : RegistryCapabilities := {|
  supports_chunked_patch := false; supports_monolithic_post_1rtt := true;
  manifest_cas_support := CasNotSupported; requires_library_namespace_expansion := false;
  fixed_upload_strategy := PreferMonolithicPost; deletion_strategy := AwsEcrApi;
  supports_blob_physical_deletion := false; package_deletion_support := PackageDeletionUnsupported |}.
Definition GCP_GAR_CAPABILITIES : RegistryCapabilities := {|
  supports_chunked_patch := true; supports_monolithic_post_1rtt := true;
  manifest_cas_support := IfMatch; requires_library_namespace_expansion := false;
  fixed_upload_strategy := PreferMonolithicPost; deletion_strategy := StandardOciDelete;
  supports_blob_physical_deletion := true; package_deletion_support := TaggedGraphOnly |}.
Definition AZURE_ACR_CAPABILITIES : RegistryCapabilities := {|
  supports_chunked_patch := true; supports_monolithic_post_1rtt := true;
  manifest_cas_support := IfMatch; requires_library_namespace_expansion := false;
  fixed_upload_strategy := PreferMonolithicPost; deletion_strategy := StandardOciDelete;
  supports_blob_physical_deletion := true; package_deletion_support := TaggedGraphOnly |}.
Definition GENERIC_OCI_CAPABILITIES : RegistryCapabilities := {|
  supports_chunked_patch := true; supports_monolithic_post_1rtt := true;
  manifest_cas_support := CasNotSupported; requires_library_namespace_expansion := false;
  fixed_upload_strategy := ResumableChunkedPatch; deletion_strategy := StandardOciDelete;
  supports_blob_physical_deletion := true; package_deletion_support := TaggedGraphOnly |}.

Definition driver_capabilities (k : RegistryKind) : RegistryCapabilities :=
  match k with
  | Ghcr => GHCR_CAPABILITIES
  | DockerHub => DOCKER_HUB_CAPABILITIES
  | AwsEcr => AWS_ECR_CAPABILITIES
  | GcpArtifactRegistry => GCP_GAR_CAPABILITIES
  | AzureAcr => AZURE_ACR_CAPABILITIES
  | GenericOci => GENERIC_OCI_CAPABILITIES
  end.

Definition default_basic_username (k : RegistryKind) : option (list N) :=
  match k with Ghcr => Some (lit "token") | AwsEcr => Some (lit "AWS") | _ => None end.

(** *** Names of the enums *)

Definition RegistryKind_display (k : RegistryKind) : list N :=
  match k with
  | Ghcr => lit "ghcr"
  | DockerHub => lit "docker_hub"
  | AwsEcr => lit "aws_ecr"
  | GcpArtifactRegistry => lit "gcp_artifact_registry"
  | AzureAcr => lit "azure_acr"
  | GenericOci => lit "generic_oci"
  end.
Definition BlobUploadStrategy_display (s : BlobUploadStrategy) : list N :=
  match s with
  | FixedTwoStepPut => lit "fixed_two_step_put"
  | PreferMonolithicPost => lit "prefer_monolithic_post"
  | ResumableChunkedPatch => lit "resumable_chunked_patch"
  end.
Definition RegistryDeletionStrategy_display (s : RegistryDeletionStrategy) : list N :=
  match s with
  | GitHubPackagesRestApi => lit "github_packages_rest_api"
  | DockerHubRestApi => lit "docker_hub_rest_api"
  | AwsEcrApi => lit "aws_ecr_api"
  | StandardOciDelete => lit "standard_oci_delete"
  | DeletionUnsupported => lit "unsupported"
  end.

(** [s.trim().to_lowercase().replace('-', _)], with the underscore. *)
Definition enum_key `{UnicodeCase} (s : list N) : list N :=
  (λ c, if c =? 45 then 95 else c) <$> to_lowercase (trim s).
Definition RegistryKind_from_str `{UnicodeCase} (s : list N) : outcome (list N) RegistryKind :=
  let clean := enum_key s in
  if bool_decide (clean ∈ [lit "ghcr"; lit "ghcr.io"; lit "github"]) then Ok Ghcr
  else if bool_decide (clean ∈ [lit "docker"; lit "dockerhub"; lit "docker_hub"; lit "docker.io"]) then Ok DockerHub
  else if bool_decide (clean ∈ [lit "aws"; lit "ecr"; lit "aws_ecr"; lit "awsecr"]) then Ok AwsEcr
  else if bool_decide (clean ∈ [lit "gcp"; lit "gar"; lit "gcr"; lit "gcp_artifact_registry"; lit "artifactregistry"])
  then Ok GcpArtifactRegistry
  else if bool_decide (clean ∈ [lit "azure"; lit "acr"; lit "azure_acr"; lit "azureacr"]) then Ok AzureAcr
  else if bool_decide (clean ∈ [lit "generic"; lit "generic_oci"; lit "genericoci"; lit "harbor"; lit "zot"; lit "quay"])
  then Ok GenericOci
  else Err (lit "Unknown registry kind: '" ++ s ++ lit "'").
Definition BlobUploadStrategy_from_str `{UnicodeCase} (s : list N) : outcome (list N) BlobUploadStrategy :=
  let clean := enum_key s in
  if bool_decide (clean ∈ [lit "fixed_two_step_put"; lit "two_step_put"; lit "twostep"]) then Ok FixedTwoStepPut
  else if bool_decide (clean ∈ [lit "prefer_monolithic_post"; lit "monolithic_post"; lit "monolithic"])
  then Ok PreferMonolithicPost
  else if bool_decide (clean ∈ [lit "resumable_chunked_patch"; lit "chunked_patch"; lit "chunked"])
  then Ok ResumableChunkedPatch
  else Err (lit "Unknown blob upload strategy: '" ++ s ++ lit "'").
Definition RegistryDeletionStrategy_from_str `{UnicodeCase} (s : list N) : outcome (list N) RegistryDeletionStrategy :=
  let clean := enum_key s in
  if bool_decide (clean ∈ [lit "github_packages_rest_api"; lit "ghcr"; lit "github"]) then Ok GitHubPackagesRestApi
  else if bool_decide (clean ∈ [lit "docker_hub_rest_api"; lit "dockerhub"; lit "docker"]) then Ok DockerHubRestApi
  else if bool_decide (clean ∈ [lit "aws_ecr_api"; lit "ecr"; lit "aws"]) then Ok AwsEcrApi
  else if bool_decide (clean ∈ [lit "standard_oci_delete"; lit "standard"; lit "oci"]) then Ok StandardOciDelete
  else if bool_decide (clean ∈ [lit "unsupported"; lit "none"]) then Ok DeletionUnsupported
  else Err (lit "Unknown registry deletion strategy: '" ++ s ++ lit "'").

Definition RegistryKind_detect `{UriLib} (registry : list N) : RegistryKind :=
  match RegistryEndpoint_parse registry with
  | Ok endpoint =>
      let host := re_host endpoint in
      if bool_decide (host = lit "ghcr.io") then Ghcr
      else if bool_decide (host ∈ [lit "docker.io"; lit "index.docker.io"; lit "registry-1.docker.io"])
      then DockerHub
      else if contains (lit ".dkr.ecr.") host && ends_with (lit ".amazonaws.com") host then AwsEcr
      else if ends_with (lit "-docker.pkg.dev") host || bool_decide (host = lit "gcr.io")
      then GcpArtifactRegistry
      else if ends_with (lit ".azurecr.io") host then AzureAcr
      else GenericOci
  | _ => GenericOci
  end.

Definition canonicalize_endpoint `{UriLib} (k : RegistryKind) (registry : list N)
    : outcome RegistryEndpointError RegistryEndpoint :=
  match k with
  | Ghcr => RegistryEndpoint_parse (if is_empty (trim registry) then lit "ghcr.io" else registry)
  | DockerHub =>
      endpoint ← RegistryEndpoint_parse (if is_empty (trim registry) then lit "registry-1.docker.io"
                                         else registry);
      if bool_decide (re_host endpoint ∈ [lit "docker.io"; lit "index.docker.io"])
      then Ok (replace_host endpoint (lit "registry-1.docker.io"))
      else Ok endpoint
  | _ => RegistryEndpoint_parse registry
  end.

Section driver.
Context `{UnicodeCase}.

Definition canonicalize_repository (k : RegistryKind) (repo : list N) : list N :=
  match k with
  | GenericOci => trim_slash repo
  | DockerHub =>
      let clean := to_lowercase (trim_slash repo) in
      if negb (contains_char 47 clean) then lit "library/" ++ clean else clean
  | _ => to_lowercase (trim_slash repo)
  end.

Definition format_auth_scope (k : RegistryKind) (repo : list N) (write : bool) : list N :=
  let canonical_repo := canonicalize_repository k repo in
  let target_repo := if ends_with (lit "/nix-cache") canonical_repo then canonical_repo
                     else canonical_repo ++ lit "/nix-cache" in
  lit "repository:" ++ target_repo ++ lit ":" ++ (if write then lit "pull,push" else lit "pull").
End driver.

(** ** Facts *)

(** The static tables are coherent: chunked PATCH uploads are the strategy only of backends
    that support them, the two-step PUT of GHCR is never mixed with either faster mode, a backend
    that can delete blobs uses the standard DELETE endpoints, and package deletion is complete
    only through the native API. *)
Theorem capabilities_coherent k :
  let c := driver_capabilities k in
  (fixed_upload_strategy c = ResumableChunkedPatch → supports_chunked_patch c = true) ∧
  (fixed_upload_strategy c = FixedTwoStepPut →
     supports_chunked_patch c = false ∧ supports_monolithic_post_1rtt c = false) ∧
  (fixed_upload_strategy c = PreferMonolithicPost → supports_monolithic_post_1rtt c = true) ∧
  (supports_blob_physical_deletion c = true ↔ deletion_strategy c = StandardOciDelete) ∧
  (package_deletion_support c = NativeComplete ↔ deletion_strategy c = GitHubPackagesRestApi) ∧
  (package_deletion_support c = TaggedGraphOnly ↔ deletion_strategy c = StandardOciDelete).
Proof. by destruct k. Qed.

(** What a backend, an upload strategy or a deletion strategy is printed as is read back. *)
Theorem enum_names_roundtrip `{UnicodeCaseOk} :
  (∀ k, RegistryKind_from_str (RegistryKind_display k) = Ok k) ∧
  (∀ s, BlobUploadStrategy_from_str (BlobUploadStrategy_display s) = Ok s) ∧
  (∀ s, RegistryDeletionStrategy_from_str (RegistryDeletionStrategy_display s) = Ok s).
Proof.
  assert (Hkey : ∀ t, Forall is_ascii (trim t) → enum_key t = (λ c, if c =? 45 then 95 else c) <$> to_ascii_lowercase (trim t))
    by (intros t Ht; unfold enum_key; by rewrite to_lowercase_ascii).
  split_and!; intros []; unfold RegistryKind_from_str, BlobUploadStrategy_from_str, RegistryDeletionStrategy_from_str;
    rewrite Hkey by (vm_compute; by repeat constructor); by vm_compute.
Qed.

(** The repository the requests of the client address ([endpoint::manifest_url] and the others). *)
Definition request_repository (repo : list N) : list N := repo ++ lit "/nix-cache".

Definition ascii_case : UnicodeCase := {| to_lowercase := to_ascii_lowercase |}.

(** For a repository whose name already ends in "/nix-cache" the scope asked for is
    that repository, while the requests go to its child of the same name. *)
Lemma scope_and_path_disagree :
  let repo := @canonicalize_repository ascii_case Ghcr (lit "org/nix-cache") in
  @format_auth_scope ascii_case Ghcr repo true = lit "repository:org/nix-cache:pull,push" ∧
  request_repository repo = lit "org/nix-cache/nix-cache" ∧
  manifest_url sample_endpoint repo (lit "latest")
    = lit "https://registry.example:5000/Harbor/v2/org/nix-cache/nix-cache/manifests/latest".
Proof. by vm_compute. Qed.
