(* ===== verification/Upload.v ===== *)
(** * Upload: blob reads and uploads (crates/nixcache-oci/src/client/blob.rs,
    client/upload.rs, client/upload/state.rs and upload.rs)

    The retry loop of a chunk and the loops over the stream run on fuel; running
    out of it is [None] and is proved not to happen. *)

From S2P Require Import Prelude Machine Str Text Error Types Sharding OciError Transport Endpoint Auth Request Driver.

Local Open Scope N_scope.

(** ** Offsets (state.rs) *)

Notation invalid_upload_range details := (UploadRangeInvalid details).

Definition retryable_status (status : StatusCode) : bool :=
  (status =? 408) || (status =? 425) || (status =? 429) || is_server_error status.

Definition retryable_error (error : OciError) : bool :=
  match error with
  | BlobUploadFailed status => retryable_status status
  | OciTransport (TransportIo _) | OciTransport (ConnectionFailed _ _) | OciTransport (Timeout _) => true
  | OciTransport (HttpStatus status _) => retryable_status status
  | _ => false
  end.

Definition response_next_offset (range : option (N * N)) (chunk_start request_start chunk_end : N)
    : outcome OciError N :=
  match range with
  | None => ok_or (invalid_upload_range (lit "chunk end offset overflowed")) (checked_add u64_bound chunk_end 1)
  | Some (start, end_) =>
      if negb (start =? 0) && negb (start =? chunk_start) && negb (start =? request_start)
      then Err (invalid_upload_range (lit "range starts at " ++ show_N start ++ lit ", expected 0, chunk start "
             ++ show_N chunk_start ++ lit ", or request start " ++ show_N request_start))
      else if end_ <? request_start
      then Err (invalid_upload_range (lit "range ends at " ++ show_N end_ ++ lit ", before requested offset "
             ++ show_N request_start))
      else if chunk_end <? end_
      then Err (invalid_upload_range (lit "range ends at " ++ show_N end_ ++ lit ", beyond chunk end "
             ++ show_N chunk_end))
      else ok_or (invalid_upload_range (lit "range end offset overflowed")) (checked_add u64_bound end_ 1)
  end.

Definition probe_next_offset (range : option (N * N)) (chunk_start current_offset chunk_end : N)
    : outcome OciError (option N) :=
  match range with
  | None => Ok None
  | Some (start, end_) =>
      if negb (start =? 0) && negb (start =? chunk_start)
      then Err (invalid_upload_range (lit "probe range starts at " ++ show_N start
             ++ lit ", expected 0 or chunk start " ++ show_N chunk_start))
      else if chunk_end <? end_
      then Err (invalid_upload_range (lit "probe range ends at " ++ show_N end_ ++ lit ", beyond chunk end "
             ++ show_N chunk_end))
      else
        next ← ok_or (invalid_upload_range (lit "probe range end offset overflowed")) (checked_add u64_bound end_ 1);
        if next <? current_offset
        then Err (invalid_upload_range (lit "probe moved remote offset backwards from "
               ++ show_N current_offset ++ lit " to " ++ show_N next))
        else Ok (Some next)
  end.

Record UploadConfig := { chunk_threshold_bytes : N; chunk_size_bytes : N; max_retry_attempts : N }.
Definition UploadConfig_default : UploadConfig :=
  {| chunk_threshold_bytes := 64 * 1024 * 1024; chunk_size_bytes := 32 * 1024 * 1024;
     max_retry_attempts := 5 |}.

(** ** The client *)

Record OciClient := {
  cl_endpoint : RegistryEndpoint;
  cl_repo : list N;
  cl_driver : RegistryKind;
  cl_limits : OciReadLimits }.

Section upload.
Context {W : Type} `{HttpHeaders} `{UriLib} `{!TransportOps W} `{!TokenOps W} `{Sha2} `{Build}.
Context (self : OciClient).

(** *** Reading blobs (blob.rs) *)

Definition blob_head (digest : list N) : IO W bool :=
  r ← request_head_with_auth_retry (blob_url (cl_endpoint self) (cl_repo self) digest) (lit "head blob");
  if r.1 =? 200 then mret true
  else if r.1 =? 404 then mret false
  else lift (Err (BlobCheckFailed r.1)).

Definition blob_get_verified (digest : list N) (expected_size : option N) : IO W (list N) :=
  _ ← lift (ContentDigest_parse digest);
  let url := blob_url (cl_endpoint self) (cl_repo self) digest in
  r ← request_get_with_auth_retry url (lit "get blob") (max_buffered_blob_bytes (cl_limits self));
  let '(status, headers, bytes) := r in
  if is_success status then
    content_length ← lift (map_err OciTransport (parse_content_length headers));
    _ ← lift (verify_buffered_body url (Some digest) (header_get headers (lit "docker-content-digest"))
                expected_size content_length bytes);
    mret bytes
  else if status =? 404 then lift (Err (BlobNotFound digest))
  else lift (Err (BlobDownloadFailed status)).

Definition blob_stream (digest : list N) : IO W (StatusCode * HeaderMap * VerifiedBlobStream) :=
  _ ← lift (ContentDigest_parse digest);
  let url := blob_url (cl_endpoint self) (cl_repo self) digest in
  r ← request_stream_with_auth_retry url (lit "stream blob") (max_streamed_blob_bytes (cl_limits self));
  let '(status, headers, stream) := r in
  if is_success status then
    verified ← lift (VerifiedBlobStream_new stream url digest headers
                       (max_streamed_blob_bytes (cl_limits self)));
    mret (status, headers, verified)
  else if status =? 404 then lift (Err (BlobNotFound digest))
  else lift (Err (BlobDownloadFailed status)).

(** *** Whole-body uploads *)

(** Best effort: the result of the DELETE is only logged. *)
Definition abort_upload_session (session_url : list N) : IO W unit :=
  _ ← io_catch (request_delete_with_auth_retry session_url (lit "abort upload session"));
  mret tt.

(** The session URL of an initialized upload. *)
Definition initialize_upload (operation : list N) : IO W (list N) :=
  r ← request_post_with_auth_retry (upload_url (cl_endpoint self) (cl_repo self)) operation;
  _ ← lift (ensure (is_success r.1) (BlobUploadFailed r.1));
  location ← lift (ok_or UploadLocationMissing
                     (v ← header_get r.2 (lit "location"); header_to_str v));
  lift (resolved_location (cl_endpoint self) location).

(** Run [m] and, when it fails, abort the session: [result.is_err()]. *)
Definition or_abort {A} (session_url : list N) (m : IO W A) : IO W A :=
  result ← io_catch m;
  match result with
  | Err e => _ ← abort_upload_session session_url; lift (Err e)
  | o => lift o
  end.

Definition execute_two_step_put (digest : ContentDigest) (bytes : list N) : IO W unit :=
  session_url ← initialize_upload (lit "initialize blob upload");
  let put_url := with_digest session_url (cd_str digest) in
  headers ← get_auth_headers;
  let headers := insert_static (lit "content-type") (lit "application/octet-stream") headers in
  or_abort session_url
    (put_status ← request_put_bytes_with_auth_retry put_url headers bytes (lit "upload blob");
     if (put_status =? 201) || (put_status =? 202) || (put_status =? 200) then mret tt
     else lift (Err (BlobUploadFailed put_status))).

Definition push_bytes_with_digest (digest : ContentDigest) (bytes : list N) : IO W unit :=
  let actual := ContentDigest_from_bytes bytes in
  _ ← lift (ensure (bool_decide (actual = digest))
              (DigestMismatch (lit "blob upload body") (cd_str digest) (cd_str actual)));
  exists_ ← blob_head (cd_str digest);
  if exists_ : bool then mret tt
  else
    match fixed_upload_strategy (driver_capabilities (cl_driver self)) with
    | FixedTwoStepPut => execute_two_step_put digest bytes
    | PreferMonolithicPost | ResumableChunkedPatch =>
        let monolithic_url := with_digest (upload_url (cl_endpoint self) (cl_repo self)) (cd_str digest) in
        headers ← get_auth_headers;
        let headers := insert_static (lit "content-type") (lit "application/octet-stream") headers in
        result ← io_catch (request_post_bytes_with_auth_retry monolithic_url headers bytes
                             (lit "monolithic blob upload"));
        match result with
        | Ok status => if (status =? 201) || (status =? 200) then mret tt
                       else execute_two_step_put digest bytes
        | Err _ => execute_two_step_put digest bytes
        | Panic => lift Panic
        end
    end.

Definition push_bytes (bytes : list N) : IO W ContentDigest :=
  let digest := ContentDigest_from_bytes bytes in
  _ ← push_bytes_with_digest digest bytes;
  mret digest.

Definition EMPTY_CONFIG_DIGEST : list N :=
  lit "sha256:44136fa355b3678a1146ad16f7e8649e94fb4fc21fe77e8310c060f61caaff8a".
Definition ensure_empty_config : IO W unit :=
  digest ← push_bytes (lit "{}");
  lift (ensure (bool_decide (cd_str digest = EMPTY_CONFIG_DIGEST))
          (DigestMismatch (lit "empty config") EMPTY_CONFIG_DIGEST (cd_str digest))).

(** *** One chunk *)

Definition probe_upload_session (session_url : list N)
    : IO W (StatusCode * HeaderMap * option (N * N)) :=
  r ← request_get_with_auth_retry session_url (lit "probe upload session") (max_manifest_bytes (cl_limits self));
  let '(status, headers, _) := r in
  range ← match header_get headers (lit "range") with
          | Some value =>
              text ← lift (ok_or (OciTransport (HeaderParse (lit "Range"))) (header_to_str value));
              range ← lift (ok_or (invalid_upload_range (lit "cannot parse Range header " ++ quoted text))
                              (parse_range_header text));
              mret (Some range)
          | None => mret None
          end;
  mret (status, headers, range).

(** The uploads below own a variable, the session URL, which the chunks update and
    which is aborted in its last value: it is part of the state, next to [W]. *)
Definition on_world {A} (m : IO W A) : IO (list N * W) A :=
  λ s, let '(w, o) := m s.2 in ((s.1, w), o).
Definition session_url : IO (list N * W) (list N) := λ s, (s, Ok s.1).
Definition set_session_url (url : list N) : IO (list N * W) unit := λ s, ((url, s.2), Ok tt).

Definition update_session_url (headers : HeaderMap) : IO (list N * W) unit :=
  url ← session_url;
  url ← lift (update_location (cl_endpoint self) url headers);
  set_session_url url.

Record ChunkState := {
  cs_remote_next : N;
  cs_retry_count : N;
  cs_patch_attempts : N;
  cs_probed_416 : bool }.

Definition with_next (st : ChunkState) (next : N) : ChunkState :=
  {| cs_remote_next := next; cs_retry_count := cs_retry_count st;
     cs_patch_attempts := cs_patch_attempts st; cs_probed_416 := cs_probed_416 st |}.
Definition with_attempt (st : ChunkState) : ChunkState :=
  {| cs_remote_next := cs_remote_next st; cs_retry_count := cs_retry_count st;
     cs_patch_attempts := cs_patch_attempts st + 1; cs_probed_416 := cs_probed_416 st |}.
Definition with_probed (st : ChunkState) : ChunkState :=
  {| cs_remote_next := cs_remote_next st; cs_retry_count := cs_retry_count st;
     cs_patch_attempts := cs_patch_attempts st; cs_probed_416 := true |}.
Definition with_retry (st : ChunkState) : ChunkState :=
  {| cs_remote_next := cs_remote_next st; cs_retry_count := cs_retry_count st + 1;
     cs_patch_attempts := cs_patch_attempts st; cs_probed_416 := cs_probed_416 st |}.

Definition failed_after (st : ChunkState) (source : OciError) : OciError :=
  ResumableUploadFailed (cs_patch_attempts st) source.

(** [Bytes::slice(n..)], which panics past the end. *)
Definition slice_from (chunk : list N) (start : N) : outcome OciError (list N) :=
  if start <=? usize_len chunk then Ok (drop (N.to_nat start) chunk) else Panic.
(** [a - b] on [u64]. *)
Definition sub64 (a b : N) : outcome OciError N :=
  if b <=? a then Ok (a - b) else if overflow_checks then Panic else Ok (wrap64 (a + u64_bound - b)).

(** What the round does with the answer to its PATCH: [inl] to go round again,
    [inr] with the error to probe the session with. *)
Definition after_patch (config : UploadConfig) (chunk_start chunk_end : N) (st : ChunkState)
    (answer : outcome OciError UploadChunkResponse) : IO (list N * W) (ChunkState + ChunkState * OciError) :=
  match answer with
  | Ok response =>
      _ ← update_session_url (uc_headers response);
      _ ← match uc_location response with
          | Some location =>
              url ← lift (resolved_location (cl_endpoint self) location); set_session_url url
          | None => mret tt
          end;
      if is_success (uc_status response) then
        next ← lift (response_next_offset (uc_range response) chunk_start (cs_remote_next st) chunk_end);
        mret (inl (with_next st next))
      else
        let status_error := BlobUploadFailed (uc_status response) in
        let is_416 := uc_status response =? 416 in
        if negb is_416 && negb (retryable_error status_error) then lift (Err status_error)
        else if is_416 then
          if cs_probed_416 st then lift (Err status_error)
          else mret (inr (with_probed st, status_error))
        else if max_retry_attempts config <=? cs_retry_count st
        then lift (Err (failed_after st status_error))
        else mret (inr (st, status_error))
  | Err error =>
      if negb (retryable_error error) then lift (Err error)
      else if max_retry_attempts config <=? cs_retry_count st then lift (Err (failed_after st error))
      else mret (inr (st, error))
  | Panic => lift Panic
  end.

(** The probe of the session after a failed PATCH; [None] ends the loop with success. *)
Definition probe_round (config : UploadConfig) (chunk_start chunk_end : N) (st : ChunkState)
    (last_error : OciError) : IO (list N * W) (option ChunkState) :=
  url ← session_url;
  r ← io_map_err (failed_after st) (on_world (probe_upload_session url));
  let '(probe_status, probe_headers, probe_range) := r in
  _ ← update_session_url probe_headers;
  if negb (is_success probe_status) then
    lift (Err (if cs_probed_416 st then last_error else failed_after st (BlobUploadFailed probe_status)))
  else if cs_probed_416 st && match probe_range with None => true | Some _ => false end
  then lift (Err last_error)
  else
    next ← lift (probe_next_offset probe_range chunk_start (cs_remote_next st) chunk_end);
    let st := match next with Some next => with_next st next | None => st end in
    if match next with Some next => chunk_end <? next | None => false end then mret None
    else if max_retry_attempts config <=? cs_retry_count st then lift (Err (failed_after st last_error))
    else
      let st := with_retry st in
      let backoff_exponent := N.min (cs_retry_count st - 1) 5 in
      let backoff_ms := N.min (100 * N.shiftl 1 backoff_exponent) (u64_bound - 1) in
      _ ← on_world (io_call (λ w, (tr_sleep backoff_ms w, tt)));
      mret (Some st).

(** One round of the loop from the PATCH on; [None] ends it with success. *)
Definition patch_round (config : UploadConfig) (chunk : list N) (chunk_start chunk_end : N)
    (st : ChunkState) : IO (list N * W) (option ChunkState) :=
  relative_start ← lift (sub64 (cs_remote_next st) chunk_start);
  body ← lift (slice_from chunk relative_start);
  headers ← on_world get_auth_headers;
  let st := with_attempt st in
  url ← session_url;
  answer ← io_catch (on_world (request_patch_chunk_with_auth_retry url headers body
                                 (cs_remote_next st, chunk_end) (lit "upload blob chunk")));
  next ← after_patch config chunk_start chunk_end st answer;
  match next with
  | inl st => mret (Some st)
  | inr (st, last_error) => probe_round config chunk_start chunk_end st last_error
  end.

(** The loop; [None] is fuel used up. *)
Fixpoint chunk_loop (fuel : nat) (config : UploadConfig) (chunk : list N) (chunk_start chunk_end : N)
    (st : ChunkState) : IO (list N * W) (option unit) :=
  match fuel with
  | O => mret None
  | S fuel =>
      if chunk_end <? cs_remote_next st then mret (Some tt)
      else
        let max_patch_attempts := N.min (max_retry_attempts config + 1) (usize_bound - 1) in
        if max_patch_attempts <=? cs_patch_attempts st
        then lift (Err (failed_after st (invalid_upload_range
               (lit "retry budget exhausted before the logical chunk completed"))))
        else
          next ← patch_round config chunk chunk_start chunk_end st;
          match next with
          | None => mret (Some tt)
          | Some st => chunk_loop fuel config chunk chunk_start chunk_end st
          end
  end.

(** A round per PATCH attempt, and one to notice that they are used up. *)
Definition chunk_fuel (config : UploadConfig) : nat := N.to_nat (max_retry_attempts config + 2).

Definition upload_chunk_with_retry (chunk : list N) (chunk_start : N) (config : UploadConfig)
    : IO (list N * W) (option unit) :=
  chunk_end ← lift (ok_or (invalid_upload_range (lit "chunk end offset overflowed"))
                      (e ← checked_add u64_bound chunk_start (usize_len chunk);
                       if 1 <=? e then Some (e - 1) else None));
  chunk_loop (chunk_fuel config) config chunk chunk_start chunk_end
    {| cs_remote_next := chunk_start; cs_retry_count := 0; cs_patch_attempts := 0; cs_probed_416 := false |}.

(** *** Streams *)

(** [buffer.extend_from_slice] of the items of the stream until [stop] holds of the
    buffer or the stream ends; the flag says that it has ended. *)
Fixpoint fill_buffer (fuel : nat) (stop : list N → bool) (buffer : list N)
    (stream : HashingStream TransportError)
    : option (outcome OciError (list N * bool) * HashingStream TransportError) :=
  match fuel with
  | O => None
  | S fuel =>
      match HashingStream_poll_next stream with
      | (stream, None) => Some (Ok (buffer, true), stream)
      | (stream, Some (Ok bytes)) =>
          let buffer := buffer ++ bytes in
          if stop buffer then Some (Ok (buffer, false), stream) else fill_buffer fuel stop buffer stream
      | (stream, Some (Err e)) => Some (Err (oci_from_transport e), stream)
      | (stream, Some Panic) => Some (Panic, stream)
      end
  end.
Definition stream_fuel (stream : HashingStream TransportError) : nat := S (S (length (hs_inner stream))).

(** The inner loop of a chunk: read while the buffer is short. *)
Definition fill_chunk (chunk_limit : N) (chunk_buf : list N) (stream : HashingStream TransportError)
    : option (outcome OciError (list N * bool) * HashingStream TransportError) :=
  if usize_len chunk_buf <? chunk_limit
  then fill_buffer (stream_fuel stream) (λ b, negb (usize_len b <? chunk_limit)) chunk_buf stream
  else Some (Ok (chunk_buf, false), stream).

(** [while !stream_ended]: the stream, when all of it has been sent. *)
Fixpoint send_chunks (fuel : nat) (config : UploadConfig) (chunk_limit current_offset : N)
    (chunk_buf : list N) (stream : HashingStream TransportError)
    : IO (list N * W) (option (HashingStream TransportError)) :=
  match fuel with
  | O => mret None
  | S fuel =>
      match fill_chunk chunk_limit chunk_buf stream with
      | None => mret None
      | Some (filled, stream) =>
          filled ← lift filled;
          let '(chunk_buf, stream_ended) := filled in
          if is_empty chunk_buf then mret (Some stream)
          else
            let send_len := if (stream_ended : bool) then usize_len chunk_buf
                            else N.min chunk_limit (usize_len chunk_buf) in
            let chunk_bytes := take (N.to_nat send_len) chunk_buf in
            sent ← upload_chunk_with_retry chunk_bytes current_offset config;
            match sent with
            | None => mret None
            | Some _ =>
                offset ← lift (arith_add u64_bound current_offset (usize_len chunk_bytes));
                if (stream_ended : bool) then mret (Some stream)
                else send_chunks fuel config chunk_limit offset (drop (N.to_nat send_len) chunk_buf) stream
            end
      end
  end.

(** The body of the chunked path: send the chunks, then commit under the digest. *)
Definition chunked_upload (fuel : nat) (config : UploadConfig) (chunk_limit : N) (buffer : list N)
    (stream : HashingStream TransportError) : IO (list N * W) (option (ContentDigest * N)) :=
  sent ← send_chunks fuel config chunk_limit 0 buffer stream;
  match sent with
  | None => mret None
  | Some stream =>
      final_digest ← lift (ok_or UploadDigestUnavailable (StreamHashState_digest stream));
      let total_size := hs_bytes_streamed stream in
      url ← session_url;
      headers ← on_world get_auth_headers;
      finish_status ← on_world (request_put_chunk_finish_with_auth_retry
                        (with_digest url (cd_str final_digest)) headers None (lit "finish blob upload"));
      if (finish_status =? 201) || (finish_status =? 200) || (finish_status =? 202)
      then mret (Some (final_digest, total_size))
      else lift (Err (BlobUploadFailed finish_status))
  end.

(** Run an upload from its first session URL and, when it fails, abort the session
    at the URL it has then. *)
Definition run_session {A} (url : list N) (m : IO (list N * W) A) : IO W A := λ w,
  let '((url, w), result) := m (url, w) in
  match result with
  | Err e => (_ ← abort_upload_session url; lift (Err e)) w
  | o => (w, o)
  end.

(** One round per byte is enough for the chunks, since a round sends one or more. *)
Definition push_fuel (buffer : list N) (stream : HashingStream TransportError) : nat :=
  S (S (length buffer + foldr (λ item n, (match item with Ok b => length b | _ => 0 end + n)%nat) 0%nat
                          (hs_inner stream))).

Definition push_resumable (items : list (outcome TransportError (list N))) (config : UploadConfig)
    : IO W (option (ContentDigest * N)) :=
  let stream := HashingStream_new items in
  let capabilities := driver_capabilities (cl_driver self) in
  let strategy := fixed_upload_strategy capabilities in
  let chunk_limit := N.max (chunk_size_bytes config) (1024 * 1024) in
  let threshold := N.max (chunk_threshold_bytes config) chunk_limit mod usize_bound in
  let allow_chunked := supports_chunked_patch capabilities && bool_decide (strategy = ResumableChunkedPatch) in
  _ ← lift (arith usize_bound (chunk_limit * 2));
  match fill_buffer (stream_fuel stream) (λ b, (threshold <=? usize_len b) && allow_chunked) [] stream with
  | None => mret None
  | Some (filled, stream) =>
      filled ← lift filled;
      let '(buffer, _) := filled in
      if (usize_len buffer <? threshold) || negb allow_chunked then
        match fill_buffer (stream_fuel stream) (λ _, false) buffer stream with
        | None => mret None
        | Some (filled, stream) =>
            filled ← lift filled;
            stream_digest ← lift (ok_or UploadDigestUnavailable (StreamHashState_digest stream));
            let total_size := hs_bytes_streamed stream in
            pushed_digest ← push_bytes filled.1;
            if negb (bool_decide (pushed_digest = stream_digest))
            then lift (Err (DigestMismatch (lit "buffered streaming blob") (cd_str stream_digest)
                   (cd_str pushed_digest)))
            else mret (Some (stream_digest, total_size))
        end
      else
        url ← initialize_upload (lit "initialize chunked upload");
        run_session url (chunked_upload (push_fuel buffer stream) config chunk_limit buffer stream)
  end.
End upload.

(** ** Facts: a blob that is streamed *)

Lemma blob_stream_opened {W : Type} `{HttpHeaders} `{UriLib} `{!TransportOps W} `{!TokenOps W} `{Sha2}
    (self : OciClient) digest (w w' : W) status headers stream :
  blob_stream self digest w = (w', Ok (status, headers, stream)) →
  ∃ inner target,
    VerifiedBlobStream_new inner target digest headers (max_streamed_blob_bytes (cl_limits self)) = Ok stream.
Proof.
  intros Hb. unfold blob_stream in Hb. apply io_bind_ok in Hb as (w1 & d & _ & Hb).
  apply io_bind_ok in Hb as (w2 & [[status' headers'] inner] & _ & Hb).
  destruct (is_success status'); [|by destruct (_ =? _)]. apply io_bind_ok in Hb as (w3 & v & Hv & Hb).
  apply lift_ok in Hv as [-> Hv]. injection Hb as _ <- <- <-. by eexists _, _.
Qed.

(** ** Facts: the loops end *)

Section upload_total.
Context {W : Type} `{HttpHeaders} `{UriLib} `{!TransportOps W} `{!TokenOps W} `{Sha2} `{Build}.
Context (self : OciClient).

Lemma after_patch_attempts config a b st o (s s' : list N * W) r :
  after_patch self config a b st o s = (s', Ok r) →
  match r with inl st' => cs_patch_attempts st' | inr (st', _) => cs_patch_attempts st' end = cs_patch_attempts st.
Proof.
  unfold after_patch. destruct o as [resp|e|]; [|by repeat (case_match; try done); intros [= <- <-]|done].
  intros Hr. apply io_bind_ok in Hr as (s1 & u1 & _ & Hr). apply io_bind_ok in Hr as (s2 & u2 & _ & Hr).
  destruct (is_success _).
  - apply io_bind_ok in Hr as (s3 & next & _ & Hr). by injection Hr as <- <-.
  - by repeat (case_match; try done); injection Hr as <- <-.
Qed.

Lemma probe_round_attempts config a b st e (s s' : list N * W) st' :
  probe_round self config a b st e s = (s', Ok (Some st')) → cs_patch_attempts st' = cs_patch_attempts st.
Proof.
  unfold probe_round. intros Hr. apply io_bind_ok in Hr as (s1 & url & _ & Hr).
  apply io_bind_ok in Hr as (s2 & [[status headers] range] & _ & Hr). apply io_bind_ok in Hr as (s3 & u & _ & Hr).
  destruct (negb _); [done|]. destruct (_ && _); [done|].
  apply io_bind_ok in Hr as (s4 & next & _ & Hr).
  destruct (match next with Some next => _ | None => false end); [done|]. destruct (_ <=? _); [done|].
  apply io_bind_ok in Hr as (s5 & u5 & _ & Hr). injection Hr as _ <-. by destruct next.
Qed.

Lemma patch_round_attempts config chunk a b st (s s' : list N * W) st' :
  patch_round self config chunk a b st s = (s', Ok (Some st')) →
  cs_patch_attempts st' = cs_patch_attempts st + 1.
Proof.
  unfold patch_round. intros Hr. apply io_bind_ok in Hr as (s1 & rel & _ & Hr).
  apply io_bind_ok in Hr as (s2 & body & _ & Hr). apply io_bind_ok in Hr as (s3 & h & _ & Hr).
  apply io_bind_ok in Hr as (s4 & url & _ & Hr). apply io_bind_ok in Hr as (s5 & answer & _ & Hr).
  apply io_bind_ok in Hr as (s6 & next & Hn & Hr). apply after_patch_attempts in Hn.
  destruct next as [st1|[st1 e]].
  - injection Hr as _ <-. done.
  - apply probe_round_attempts in Hr. rewrite Hr, Hn. done.
Qed.

Lemma chunk_loop_total config chunk a b fuel st (s : list N * W) :
  max_retry_attempts config + 2 ≤ cs_patch_attempts st + N.of_nat fuel → (0 < fuel)%nat →
  (chunk_loop self fuel config chunk a b st s).2 ≠ Ok None.
Proof.
  revert st s. induction fuel as [|fuel IH]; intros st s Hf Hpos; [lia|]. cbn [chunk_loop].
  destruct (b <? cs_remote_next st); [done|].
  destruct (N.leb_spec (N.min (max_retry_attempts config + 1) (usize_bound - 1)) (cs_patch_attempts st)) as [|Hlt];
    [done|].
  unfold mbind, io_bind. destruct (patch_round _ _ _ _ _ st s) as [s1 [[st1|]|e|]] eqn:Hr; try done.
  apply patch_round_attempts in Hr. apply IH; lia.
Qed.

Lemma upload_chunk_total chunk a config (s : list N * W) : (upload_chunk_with_retry self chunk a config s).2 ≠ Ok None.
Proof.
  unfold upload_chunk_with_retry, mbind at 1, io_bind. unfold lift.
  destruct (ok_or _ _) as [e|e|]; try done.
  apply chunk_loop_total; simpl; unfold chunk_fuel; lia.
Qed.

Definition items_left (stream : HashingStream TransportError) : nat :=
  match hs_terminal stream with Some _ => 0 | None => length (hs_inner stream) end.

Lemma fill_buffer_total fuel stop buffer stream :
  (items_left stream < fuel)%nat → is_Some (fill_buffer fuel stop buffer stream).
Proof.
  revert buffer stream. induction fuel as [|fuel IH]; intros buffer stream Hf; [lia|]. cbn [fill_buffer].
  unfold HashingStream_poll_next, items_left in *.
  destruct (hs_terminal stream) as [t|] eqn:Ht; [by eexists|].
  destruct (hs_inner stream) as [|[bytes|e|] inner]; simpl in Hf; try by eexists.
  destruct (stop _); [by eexists|]. apply IH. simpl. lia.
Qed.

Lemma fill_chunk_total limit buf stream : is_Some (fill_chunk limit buf stream).
Proof.
  unfold fill_chunk. destruct (_ <? _); [|by eexists]. apply fill_buffer_total.
  unfold items_left, stream_fuel. case_match; lia.
Qed.

(** The bytes a stream can still give. *)
Definition data_left (items : list (outcome TransportError (list N))) : nat :=
  foldr (λ item n, (match item with Ok b => length b | _ => 0 end + n)%nat) 0%nat items.

Lemma fill_buffer_data fuel stop buffer stream buffer' ended stream' :
  fill_buffer fuel stop buffer stream = Some (Ok (buffer', ended), stream') →
  (length buffer' + data_left (hs_inner stream') ≤ length buffer + data_left (hs_inner stream))%nat ∧
  (ended = true ∨ stop buffer' = true).
Proof.
  revert buffer stream. induction fuel as [|fuel IH]; intros buffer stream; cbn [fill_buffer]; [done|].
  unfold HashingStream_poll_next. destruct (hs_terminal stream) as [t|] eqn:Ht.
  { intros [= -> <- <-]. auto. }
  destruct (hs_inner stream) as [|[bytes|e|] inner] eqn:Hi; try done.
  { intros [= -> <- <-]. simpl. auto. }
  destruct (stop (buffer ++ bytes)) eqn:Hst.
  - intros [= <- <- <-]. simpl. rewrite length_app. split; [lia|auto].
  - intros Hf. apply IH in Hf as [Hle Hor]. simpl in Hle. rewrite length_app in Hle. simpl. split; [lia|done].
Qed.

Lemma fill_chunk_data limit buf stream buf' ended stream' :
  fill_chunk limit buf stream = Some (Ok (buf', ended), stream') →
  (length buf' + data_left (hs_inner stream') ≤ length buf + data_left (hs_inner stream))%nat ∧
  (ended = true ∨ limit ≤ usize_len buf').
Proof.
  unfold fill_chunk. destruct (N.ltb_spec (usize_len buf) limit) as [|Hge].
  - intros Hf. apply fill_buffer_data in Hf as [Hle Hor]. split; [done|].
    destruct Hor as [|Hs]; [by left|right]. apply negb_true_iff, N.ltb_ge in Hs. done.
  - intros [= <- <- <-]. auto.
Qed.

Lemma send_chunks_total fuel config limit off buf stream (s : list N * W) :
  0 < limit → (length buf + data_left (hs_inner stream) < fuel)%nat →
  (send_chunks self fuel config limit off buf stream s).2 ≠ Ok None.
Proof.
  intros Hlim. revert off buf stream s. induction fuel as [|fuel IH]; intros off buf stream s Hf; [lia|].
  cbn [send_chunks]. destruct (fill_chunk_total limit buf stream) as [[filled stream1] Hfc]. rewrite Hfc.
  unfold mbind, io_bind. cbn [lift]. unfold lift. destruct filled as [[buf1 ended]|e|]; try done.
  apply fill_chunk_data in Hfc as [Hle Hor].
  destruct (is_empty buf1) eqn:Hemp; [done|].
  set (n := if ended then _ else _).
  pose proof (upload_chunk_total (take (N.to_nat n) buf1) off config s) as Hup.
  destruct (upload_chunk_with_retry _ _ _ _ s) as [s1 [[u|]|e|]]; try done.
  destruct (arith_add _ _ _) as [off'|e|]; try done. destruct ended; [done|]. apply IH.
  destruct Hor as [|Hge]; [done|]. unfold usize_len in *. rewrite length_drop. unfold n. lia.
Qed.

Lemma chunked_upload_total fuel config limit buf stream (s : list N * W) :
  0 < limit → (length buf + data_left (hs_inner stream) < fuel)%nat →
  (chunked_upload self fuel config limit buf stream s).2 ≠ Ok None.
Proof.
  intros Hlim Hf. unfold chunked_upload.
  pose proof (send_chunks_total fuel config limit 0 buf stream s Hlim Hf) as Hs.
  unfold mbind at 1, io_bind at 1. destruct (send_chunks _ _ _ _ _ _ _ _) as [s1 [[st|]|e|]]; try done.
  unfold mbind, io_bind, lift, session_url. destruct (ok_or _ _) as [d|e|]; try done.
  destruct (on_world get_auth_headers _) as [s3 [h|e|]]; try done.
  destruct (on_world (request_put_chunk_finish_with_auth_retry _ _ _ _) _) as [s4 [code|e|]]; try done.
  by destruct (_ || _).
Qed.

Lemma run_session_total {A} url (m : IO (list N * W) (option A)) (w : W) :
  (m (url, w)).2 ≠ Ok None → (run_session url m w).2 ≠ Ok None.
Proof.
  unfold run_session. destruct (m (url, w)) as [[u w1] [r|e|]]; simpl; try done.
  unfold mbind, io_bind. by destruct (abort_upload_session u w1) as [w2 [x|x|]].
Qed.

Lemma push_resumable_returns items config (w : W) :
  (push_resumable self items config w).2 ≠ Ok None.
Proof.
  unfold push_resumable. set (limit := N.max _ (1024 * 1024)). set (thr := _ mod usize_bound).
  set (allow := _ && _). unfold mbind at 1, io_bind at 1. unfold lift at 1.
  destruct (arith _ _) as [x|e|]; try done.
  set (stream := HashingStream_new items).
  destruct (fill_buffer_total (stream_fuel stream) (λ b, (thr <=? usize_len b) && allow) [] stream)
    as [[filled stream1] Hf]; [unfold items_left, stream_fuel; case_match; lia|]. rewrite Hf.
  unfold mbind at 1, io_bind at 1. unfold lift at 1. destruct filled as [[buffer ended]|e|]; try done.
  destruct (_ || _).
  - destruct (fill_buffer_total (stream_fuel stream1) (λ _, false) buffer stream1)
      as [[filled2 stream2] ->]; [unfold items_left, stream_fuel; case_match; lia|].
    unfold mbind, io_bind, lift. destruct filled2 as [fb|e|]; try done.
    destruct (ok_or _ _) as [d|e|]; try done. destruct (push_bytes _ _ w) as [w1 [pd|e|]]; try done.
    by destruct (negb _).
  - unfold mbind at 1, io_bind at 1. destruct (initialize_upload _ _ w) as [w1 [url|e|]]; try done.
    apply run_session_total, chunked_upload_total; [unfold limit; lia|unfold push_fuel, data_left; lia].
Qed.

End upload_total.

(** ** An honest registry *)

(** What the OCI distribution specification promises of a registry: an upload
    session keeps a prefix of what was sent to it, PATCH appends to it at its end
    only, what it acknowledges is what it keeps, and a blob is committed under a
    digest only with content of that digest.  [stored] is the content of the
    session, [blob_of] the blobs by digest. *)
Class HonestRegistry (W : Type) `{HttpHeaders} `{Sha2} `{!TransportOps W} `{!TokenOps W} := {
  stored : W → list N;
  blob_of : W → list N → option (list N);
  hr_cached : ∀ w, stored (tm_cached_token w).1 = stored w;
  hr_refresh : ∀ c w, stored (tm_refresh_token c w).1 = stored w;
  hr_sleep : ∀ d w, stored (tr_sleep d w) = stored w;
  hr_get : ∀ url h n w, stored (tr_get url h n w).1 = stored w;
  hr_get_range : ∀ url h n w w' status headers body v text s e,
    tr_get url h n w = (w', Ok (status, headers, body)) → is_success status = true →
    header_get headers (lit "range") = Some v → header_to_str v = Some text →
    parse_range_header text = Some (s, e) → e + 1 = usize_len (stored w');
  hr_post : ∀ url h w, stored (tr_post url h w).1 = [];
  hr_patch : ∀ url h body a b w w' o, tr_patch_chunk url h body (a, b) w = (w', o) →
    stored w' = stored w ∨ a = usize_len (stored w) ∧ ∃ n, stored w' = stored w ++ take n body;
  hr_patch_ok : ∀ url h body a b w w' r, tr_patch_chunk url h body (a, b) w = (w', Ok r) →
    is_success (uc_status r) = true →
    a = usize_len (stored w) ∧
    match uc_range r with
    | None => stored w' = stored w ++ body
    | Some (_, e) => e + 1 = usize_len (stored w')
    end;
  hr_finish_401 : ∀ url h c w w' headers,
    tr_put_chunk_finish_with_headers url h c w = (w', Ok (401, headers)) → stored w' = stored w;
  hr_finish : ∀ url h w w' status headers,
    tr_put_chunk_finish_with_headers (with_digest url (cd_str (ContentDigest_from_bytes (stored w)))) h None w
      = (w', Ok (status, headers)) → is_success status = true →
    blob_of w' (cd_str (ContentDigest_from_bytes (stored w))) = Some (stored w);
  hr_blob : ∀ w d c, blob_of w d = Some c → d = cd_str (ContentDigest_from_bytes c);
  hr_head : ∀ e repo d h w w' headers,
    tr_head_with_headers (blob_url e repo d) h w = (w', Ok (200, headers)) → is_Some (blob_of w' d);
  hr_put : ∀ url h body w w' status headers,
    tr_put_bytes_with_headers (with_digest url (cd_str (ContentDigest_from_bytes body))) h body w
      = (w', Ok (status, headers)) → is_success status = true →
    blob_of w' (cd_str (ContentDigest_from_bytes body)) = Some body;
  hr_post_bytes : ∀ url h body w w' status headers,
    tr_post_bytes (with_digest url (cd_str (ContentDigest_from_bytes body))) h body w
      = (w', Ok (status, headers)) → is_success status = true →
    blob_of w' (cd_str (ContentDigest_from_bytes body)) = Some body }.

Section honest.
Context {W : Type} `{HttpHeaders} `{UriLib} `{!TransportOps W} `{!TokenOps W} `{Sha2} `{Build}.
Context `{!HonestRegistry W} (self : OciClient).

(** The response an authenticated request returns came from a send in a world that
    the calls before it lead to. *)
Lemma auth_retry_last {A} (R : W → W → Prop) `{!PreOrder R} op (st : A → N) hd send h carry w w' r :
  (∀ w, R w (tm_cached_token w).1) → (∀ c, preserves R (tm_refresh_token c : IO W (list N))) →
  (∀ h w w' r, send h w = (w', Ok r) → st r = 401 → R w w') →
  auth_retry op st hd send h carry w = (w', Ok r) →
  ∃ h w1, R w w1 ∧ send h w1 = (w', Ok r).
Proof.
  intros Hc Hr Hs Ha. unfold auth_retry in Ha. apply io_bind_ok in Ha as (w1 & first & Hf & Ha).
  destruct (N.eqb_spec (st first) 401) as [H401|]; cbn [negb] in Ha.
  - apply io_bind_ok in Ha as (w2 & retry & Hretry & Ha). apply io_bind_ok in Ha as (w3 & second & Hsec & Ha).
    destruct (_ =? _); [done|]. injection Ha as <- <-. exists (carry retry.2), w2. split; [|done].
    etrans; [by eapply Hs|]. pose proof (preserves_challenge R Hc Hr op (st first) (hd first) w1) as Hp.
    by rewrite Hretry in Hp.
  - injection Ha as <- <-. exists h, w. split; [reflexivity|done].
Qed.

Lemma io_transport_ok {A} (m : W → W * outcome TransportError A) w w' a :
  io_transport m w = (w', Ok a) ↔ m w = (w', Ok a).
Proof. unfold io_transport. destruct (m w) as [w1 [x|e|]]; naive_solver. Qed.

Definition same_stored (w w' : W) : Prop := stored w' = stored w.
#[local] Instance same_stored_preorder : PreOrder same_stored.
Proof. unfold same_stored. split; [done|intros ???; congruence]. Qed.

Lemma cached_same w : same_stored w (tm_cached_token w).1.
Proof. apply hr_cached. Qed.
Lemma refresh_same c : preserves same_stored (tm_refresh_token c : IO W (list N)).
Proof. intros w. apply hr_refresh. Qed.

Lemma auth_headers_same : preserves same_stored (get_auth_headers (W:=W)).
Proof. apply (preserves_auth_headers same_stored), cached_same. Qed.

Section chunk.
Context (base chunk : list N).

(** The session keeps all before the chunk, and at least [rel] bytes of it. *)
Definition keeps (rel : N) (w : W) : Prop :=
  ∃ n, rel ≤ N.of_nat n ∧ (n ≤ length chunk)%nat ∧ stored w = base ++ take n chunk.
Definition keeps_le (rel : N) (w w' : W) : Prop := keeps rel w → keeps rel w'.
#[local] Instance keeps_le_preorder rel : PreOrder (keeps_le rel).
Proof. unfold keeps_le. split; [by intros w ?|intros ???; auto]. Qed.

Lemma same_keeps rel w w' : same_stored w w' → keeps_le rel w w'.
Proof. unfold same_stored, keeps_le, keeps. by intros ->. Qed.

Lemma patch_keeps rel url h b w w' o :
  tr_patch_chunk url h (drop (N.to_nat rel) chunk) (usize_len base + rel, b) w = (w', o) → keeps_le rel w w'.
Proof.
  intros Hp (n & Hrel & Hn & Hs). apply hr_patch in Hp as [Heq|[Ha (m & Heq)]]; [exists n; by rewrite Heq|].
  rewrite Hs, usize_len_app in Ha. unfold usize_len in Ha. rewrite length_take in Ha.
  assert (N.to_nat rel = n) as Hrn by lia. rewrite Hrn in Heq. exists (Nat.min (n + m) (length chunk)). split_and!; [lia|lia|].
  rewrite Heq, Hs, <-app_assoc. f_equal. rewrite take_take_drop. destruct (decide (n + m ≤ length chunk)%nat).
  - by rewrite Nat.min_l.
  - by rewrite Nat.min_r, !take_ge by lia.
Qed.

Lemma patch_ok_keeps rel url h w w' r :
  tr_patch_chunk url h (drop (N.to_nat rel) chunk) (usize_len base + rel, usize_len base + usize_len chunk - 1) w
    = (w', Ok r) → is_success (uc_status r) = true → keeps rel w → ∀ next,
  response_next_offset (uc_range r) (usize_len base) (usize_len base + rel) (usize_len base + usize_len chunk - 1)
    = Ok next → chunk ≠ [] →
  ∃ rel', next = usize_len base + rel' ∧ keeps rel' w'.
Proof.
  intros Hp Hok Hk next Hnext Hne. pose proof (patch_keeps _ _ _ _ _ _ _ Hp Hk) as (n' & _ & Hn' & Hs').
  destruct Hk as (n & Hrel & Hn & Hs).
  apply hr_patch_ok in Hp as [Ha Hrange]; [|done]. unfold response_next_offset in Hnext.
  assert (0 < usize_len chunk) by (unfold usize_len; destruct chunk; simpl; [done|lia]).
  destruct (uc_range r) as [[s e]|].
  - repeat case_match; try done. apply ok_or_ok, checked_add_Some in Hnext as [-> _].
    rewrite Hs', usize_len_app in Hrange. exists (usize_len (take n' chunk)). split; [lia|].
    exists n'. split_and!; [|done|done]. unfold usize_len. rewrite length_take. lia.
  - apply ok_or_ok, checked_add_Some in Hnext as [-> _]. exists (usize_len chunk). split; [lia|].
    exists (length chunk). split_and!; [done|done|]. rewrite Hrange, Hs, <-app_assoc. f_equal.
    rewrite Hs, usize_len_app in Ha. unfold usize_len in Ha. rewrite length_take in Ha.
    assert (N.to_nat rel = n) as -> by lia. by rewrite take_drop, firstn_all.
Qed.

Lemma patch_request_keeps rel url h b op w :
  keeps_le rel w (request_patch_chunk_with_auth_retry url h (drop (N.to_nat rel) chunk)
                    (usize_len base + rel, b) op w).1.
Proof.
  apply (preserves_auth_retry (keeps_le rel)).
  - intros w0. by apply same_keeps, cached_same.
  - intros c w0. by apply same_keeps, refresh_same.
  - intros h0 w0. unfold io_transport. destruct (tr_patch_chunk _ _ _ _ w0) as [w1 o] eqn:Hp. by eapply patch_keeps.
Qed.

Lemma patch_request_ok rel url h op w w' r next :
  request_patch_chunk_with_auth_retry url h (drop (N.to_nat rel) chunk)
    (usize_len base + rel, usize_len base + usize_len chunk - 1) op w = (w', Ok r) →
  is_success (uc_status r) = true → keeps rel w → chunk ≠ [] →
  response_next_offset (uc_range r) (usize_len base) (usize_len base + rel)
    (usize_len base + usize_len chunk - 1) = Ok next →
  ∃ rel', next = usize_len base + rel' ∧ keeps rel' w'.
Proof.
  intros Hp Hok Hk Hne Hnext. unfold request_patch_chunk_with_auth_retry in Hp.
  apply (auth_retry_last (keeps_le rel)) in Hp as (h1 & w1 & Hle & Hp).
  - apply io_transport_ok in Hp. eapply patch_ok_keeps; [done|done|by apply Hle|done|done].
  - intros w0. by apply same_keeps, cached_same.
  - intros c w0. by apply same_keeps, refresh_same.
  - intros h0 w0 w1 r0 Hs _. apply io_transport_ok in Hs. by eapply patch_keeps.
Qed.

Lemma get_request_same url op n : preserves same_stored (request_get_with_auth_retry (W:=W) url op n).
Proof.
  apply preserves_bind; [apply _|apply auth_headers_same|]. intros h.
  apply (preserves_auth_retry same_stored); [apply cached_same|apply refresh_same|].
  intros h0 w. unfold io_transport. pose proof (hr_get url h0 n w) as Hg. by destruct (tr_get _ _ _ w).
Qed.

Lemma probe_same url : preserves same_stored (probe_upload_session (W:=W) self url).
Proof.
  unfold probe_upload_session. apply preserves_bind; [apply _|apply get_request_same|].
  intros [[status headers] body]. apply preserves_bind; [apply _| |intros; apply (preserves_ret same_stored)].
  destruct (header_get _ _); [|apply (preserves_ret same_stored)].
  apply preserves_bind; [apply _|apply (preserves_lift same_stored)|]. intros text.
  apply preserves_bind; [apply _|apply (preserves_lift same_stored)|]. intros range. apply (preserves_ret same_stored).
Qed.

Lemma probe_range url w w' status headers s e :
  probe_upload_session self url w = (w', Ok (status, headers, Some (s, e))) → is_success status = true →
  e + 1 = usize_len (stored w').
Proof.
  intros Hp Hok. unfold probe_upload_session in Hp. apply io_bind_ok in Hp as (w1 & [[st hd] body] & Hg & Hp).
  apply io_bind_ok in Hp as (w2 & range & Hr & Hp). injection Hp as <- <- <- ->.
  destruct (header_get hd (lit "range")) as [v|] eqn:Hv; [|done].
  apply io_bind_ok in Hr as (w3 & text & Ht & Hr). apply lift_ok in Ht as [-> Ht%ok_or_ok].
  apply io_bind_ok in Hr as (w4 & range & Hrg & Hr). apply lift_ok in Hrg as [-> Hrg%ok_or_ok].
  injection Hr as <- ->. unfold request_get_with_auth_retry in Hg.
  apply io_bind_ok in Hg as (w5 & h & _ & Hg).
  assert (PreOrder (λ _ _ : W, True)) by done.
  apply (auth_retry_last (λ _ _, True)) in Hg as (h1 & w6 & _ & Hg); [|done..].
  apply io_transport_ok in Hg. by eapply hr_get_range.
Qed.

Lemma update_session_url_world headers s : (update_session_url (W:=W) self headers s).1.2 = s.2.
Proof.
  unfold update_session_url, mbind, io_bind, session_url, lift, set_session_url.
  by destruct (update_location _ _ _).
Qed.

Lemma after_patch_world config a b st o s : (after_patch (W:=W) self config a b st o s).1.2 = s.2.
Proof.
  unfold after_patch. destruct o as [resp|e|]; [|by repeat case_match|done].
  unfold mbind at 1, io_bind at 1. pose proof (update_session_url_world (uc_headers resp) s) as Hu.
  destruct (update_session_url _ _ s) as [s1 [u|e|]]; simpl in Hu; try done.
  rewrite <-Hu. destruct (uc_location resp) as [loc|].
  - unfold mbind, io_bind, lift, set_session_url. destruct (resolved_location _ _); try done. simpl.
    by repeat case_match.
  - unfold mbind, io_bind, lift. simpl. by repeat case_match.
Qed.

Notation start := (usize_len base).
Notation end_ := (usize_len base + usize_len chunk - 1).
Hypothesis Hne : chunk ≠ [].

(** After a round: done, or at a position the session has reached. *)
Definition reached (next : option ChunkState) (w : W) : Prop :=
  match next with
  | None => keeps (usize_len chunk) w
  | Some st => ∃ rel, cs_remote_next st = start + rel ∧ keeps rel w
  end.

Lemma on_world_ok {A} (m : IO W A) (s s' : list N * W) a :
  on_world m s = (s', Ok a) → ∃ w', m s.2 = (w', Ok a) ∧ s' = (s.1, w').
Proof. unfold on_world. destruct (m s.2) as [w' o]. intros [= <- ->]. eauto. Qed.

Lemma keeps_stored rel (w w' : W) : stored w' = stored w → keeps rel w → keeps rel w'.
Proof. intros Hs. by apply same_keeps. Qed.

Lemma probe_round_reached config st e rel (s s' : list N * W) next :
  cs_remote_next st = start + rel → keeps rel s.2 →
  probe_round self config start end_ st e s = (s', Ok next) → reached next s'.2.
Proof.
  intros Hrem Hk Hr. unfold probe_round in Hr. apply io_bind_ok in Hr as (s1 & url & Hurl & Hr).
  injection Hurl as <- <-. apply io_bind_ok in Hr as (s2 & [[status headers] range] & Hp & Hr).
  assert (Hp' : on_world (probe_upload_session self s.1) s = (s2, Ok (status, headers, range))).
  { unfold io_map_err in Hp. by destruct (on_world _ s) as [s0 [x|x|]]; simplify_eq/=. }
  apply on_world_ok in Hp' as (w2 & Hp' & ->).
  pose proof (probe_same s.1 s.2) as Hsame. rewrite Hp' in Hsame. simpl in Hsame.
  apply io_bind_ok in Hr as (s3 & u & Hu & Hr).
  pose proof (update_session_url_world headers (s.1, w2)) as Hw3. rewrite Hu in Hw3. simpl in Hw3.
  destruct (is_success status) eqn:Hok; cbn [negb] in Hr; [|done]. destruct (_ && _); [done|].
  apply io_bind_ok in Hr as (s4 & next0 & Hn & Hr). apply lift_ok in Hn as [-> Hn].
  assert (Hpos : ∀ n, next0 = Some n → ∃ rel', n = start + rel' ∧ keeps rel' s3.2).
  { intros n ->. unfold probe_next_offset in Hn. destruct range as [[a b]|]; [|done].
    destruct (negb (a =? 0) && _) in Hn; [done|]. destruct (end_ <? b) in Hn; [done|].
    apply bind_ok in Hn as (n0 & Hn0 & Hn). destruct (n0 <? _) in Hn; [done|].
    apply ok_or_ok, checked_add_Some in Hn0 as [-> _]. injection Hn as <-.
    apply probe_range in Hp'; [|done]. destruct Hk as (n & Hrel & Hlen & Hs).
    unfold same_stored in Hsame. rewrite Hsame, Hs, usize_len_app in Hp'.
    exists (usize_len (take n chunk)). split; [lia|]. rewrite Hw3. exists n. split_and!; [|done|by rewrite Hsame].
    unfold usize_len. rewrite length_take. lia. }
  assert (Hk3 : keeps rel s3.2) by (rewrite Hw3; by eapply keeps_stored).
  destruct next0 as [n|].
  - destruct (Hpos n eq_refl) as (rel' & -> & Hk').
    destruct (N.ltb_spec end_ (start + rel')) as [Hdone|].
    + injection Hr as <- <-. simpl. assert (usize_len chunk ≤ rel') by lia.
      destruct Hk' as (n & ? & ? & ?). exists n. split_and!; [lia|done..].
    + destruct (_ <=? _); [done|]. apply io_bind_ok in Hr as (s5 & u5 & Hs5 & Hr).
      apply on_world_ok in Hs5 as (w5 & Hs5 & ->). injection Hs5 as <- _. injection Hr as <- <-. simpl.
      exists rel'. split; [done|]. eapply keeps_stored; [apply hr_sleep|done].
  - destruct (_ <=? _); [done|]. apply io_bind_ok in Hr as (s5 & u5 & Hs5 & Hr).
    apply on_world_ok in Hs5 as (w5 & Hs5 & ->). injection Hs5 as <- _. injection Hr as <- <-. simpl.
    exists rel. split; [done|]. eapply keeps_stored; [apply hr_sleep|done].
Qed.

Lemma after_patch_next config st resp (s s' : list N * W) st' :
  after_patch self config start end_ st (Ok resp) s = (s', Ok (inl st')) →
  is_success (uc_status resp) = true ∧
  response_next_offset (uc_range resp) start (cs_remote_next st) end_ = Ok (cs_remote_next st').
Proof.
  unfold after_patch. intros Hr. apply io_bind_ok in Hr as (s1 & u1 & _ & Hr).
  apply io_bind_ok in Hr as (s2 & u2 & _ & Hr). destruct (is_success _).
  - apply io_bind_ok in Hr as (s3 & next & Hn & Hr). apply lift_ok in Hn as [_ Hn].
    by injection Hr as _ <-.
  - by repeat (case_match; try done).
Qed.

Lemma after_patch_probe config st o (s s' : list N * W) st' e :
  after_patch self config start end_ st o s = (s', Ok (inr (st', e))) →
  cs_remote_next st' = cs_remote_next st.
Proof.
  unfold after_patch. destruct o as [resp|e0|]; [|by repeat (case_match; try done); intros [= _ <- _]|done].
  intros Hr. apply io_bind_ok in Hr as (s1 & u1 & _ & Hr). apply io_bind_ok in Hr as (s2 & u2 & _ & Hr).
  destruct (is_success _).
  - apply io_bind_ok in Hr as (s3 & next & _ & Hr). by injection Hr.
  - by repeat (case_match; try done); injection Hr as _ <- _.
Qed.

Lemma patch_round_reached config st rel (s s' : list N * W) next :
  cs_remote_next st = start + rel → keeps rel s.2 →
  patch_round self config chunk start end_ st s = (s', Ok next) → reached next s'.2.
Proof.
  intros Hrem Hk Hr. unfold patch_round in Hr. apply io_bind_ok in Hr as (s1 & rs & Hrs & Hr).
  apply lift_ok in Hrs as [-> Hrs]. unfold sub64 in Hrs. rewrite Hrem in Hrs.
  destruct (N.leb_spec start (start + rel)); [|lia]. injection Hrs as <-.
  replace (start + rel - start) with rel in Hr by lia.
  apply io_bind_ok in Hr as (s2 & body & Hb & Hr). apply lift_ok in Hb as [-> Hb].
  unfold slice_from in Hb. destruct (rel <=? usize_len chunk); [|done]. injection Hb as <-.
  apply io_bind_ok in Hr as (s3 & h & Hh & Hr). apply on_world_ok in Hh as (w3 & Hh & ->).
  pose proof (auth_headers_same s.2) as Hs3. rewrite Hh in Hs3. simpl in Hs3.
  apply io_bind_ok in Hr as (s4 & url & Hurl & Hr). injection Hurl as <- <-.
  apply io_bind_ok in Hr as (s5 & answer & Ha & Hr).
  apply io_bind_ok in Hr as (s6 & nx & Hn & Hr). cbn [with_attempt cs_remote_next] in Ha. rewrite Hrem in Ha.
  unfold io_catch, on_world in Ha. cbn [fst snd] in Ha.
  pose proof (patch_request_keeps rel s.1 h end_ (lit "upload blob chunk") w3) as Hk5.
  destruct (request_patch_chunk_with_auth_retry _ _ _ _ _ w3) as [w5 o] eqn:Hreq. simpl in Hk5.
  injection Ha as <- <-.
  assert (Hk3 : keeps rel w3) by (by eapply keeps_stored). specialize (Hk5 Hk3).
  pose proof (after_patch_world config start end_ (with_attempt st) o (s.1, w5)) as Hw6. rewrite Hn in Hw6. simpl in Hw6.
  destruct nx as [st1|[st1 e]].
  - injection Hr as <- <-. simpl. destruct o as [resp|e|]; [| |done].
    + apply after_patch_next in Hn as [Hok Hnext]. cbn [with_attempt cs_remote_next] in Hnext. rewrite Hrem in Hnext.
      destruct (patch_request_ok _ _ _ _ _ _ _ _ Hreq Hok Hk3 Hne Hnext) as (rel' & -> & Hk').
      exists rel'. split; [done|]. by rewrite Hw6.
    + unfold after_patch in Hn. destruct (negb _) in Hn; [done|]. by destruct (_ <=? _) in Hn.
  - pose proof (after_patch_probe _ _ _ _ _ _ _ Hn) as Hst1. cbn [with_attempt cs_remote_next] in Hst1.
    eapply probe_round_reached; [by rewrite Hst1|by rewrite Hw6|done].
Qed.

Lemma chunk_loop_stored fuel config st rel (s s' : list N * W) u :
  cs_remote_next st = start + rel → keeps rel s.2 →
  chunk_loop self fuel config chunk start end_ st s = (s', Ok (Some u)) → stored s'.2 = base ++ chunk.
Proof.
  assert (Hfull : ∀ (w : W) rel, usize_len chunk ≤ rel → keeps rel w → stored w = base ++ chunk).
  { intros w r Hle (n & ? & Hn & ->). f_equal. apply take_ge. unfold usize_len in Hle. lia. }
  revert st rel s. induction fuel as [|fuel IH]; intros st rel s Hrem Hk; cbn [chunk_loop]; [done|].
  destruct (N.ltb_spec end_ (cs_remote_next st)) as [Hd|_].
  { intros [= <- <-]. eapply Hfull; [|done]. lia. }
  destruct (_ <=? _); [done|]. intros Hr. apply io_bind_ok in Hr as (s1 & next & Hp & Hr).
  eapply patch_round_reached in Hp; [|done|done]. destruct next as [st1|].
  - destruct Hp as (rel1 & Hrem1 & Hk1). by eapply IH.
  - injection Hr as <- <-. simpl in Hp. by eapply Hfull.
Qed.

Lemma upload_chunk_stored config (s s' : list N * W) u :
  stored s.2 = base → upload_chunk_with_retry self chunk start config s = (s', Ok (Some u)) →
  stored s'.2 = base ++ chunk ∧ start + usize_len chunk < u64_bound.
Proof.
  intros Hs Hu. unfold upload_chunk_with_retry in Hu. apply io_bind_ok in Hu as (s1 & ce & Hce & Hu).
  apply lift_ok in Hce as [-> Hce%ok_or_ok].
  destruct (checked_add _ _ _) as [x|] eqn:Hx; [|done]. cbn [mbind option_bind] in Hce.
  apply checked_add_Some in Hx as [-> Hlt]. destruct (1 <=? _); [|done]. injection Hce as <-.
  split; [|done]. eapply (chunk_loop_stored _ _ _ 0); [| |done]; [simpl; lia|].
  exists 0%nat. split_and!; [done|lia|]. by rewrite app_nil_r.
Qed.
End chunk.

(** *** The stream *)

Context (items : list (outcome TransportError (list N))).
Hypothesis Hnp : Forall (λ item, item ≠ Panic) items.

Lemma poll_hasher (stream stream' : HashingStream TransportError) o :
  HashingStream_poll_next stream = (stream', o) →
  hs_hasher stream' = hs_hasher stream ++ match o with Some (Ok b) => b | _ => [] end.
Proof.
  unfold HashingStream_poll_next. destruct (hs_terminal stream); [intros [= <- <-]; by rewrite app_nil_r|].
  destruct (hs_inner stream) as [|[b|e|] inner]; intros [= <- <-]; simpl; by rewrite ?app_nil_r.
Qed.

Lemma fill_buffer_hashed fuel stop pre buffer stream buffer' ended stream' :
  hashing_inv items stream → hs_hasher stream = pre ++ buffer →
  fill_buffer fuel stop buffer stream = Some (Ok (buffer', ended), stream') →
  hashing_inv items stream' ∧ hs_hasher stream' = pre ++ buffer'.
Proof.
  revert buffer stream. induction fuel as [|fuel IH]; intros buffer stream Hi Hh; cbn [fill_buffer]; [done|].
  pose proof (hashing_inv_poll items stream Hnp Hi) as Hi'.
  destruct (HashingStream_poll_next stream) as [stream1 o] eqn:Hp. simpl in Hi'.
  apply poll_hasher in Hp. rewrite Hh in Hp. destruct o as [[b|e|]|]; try done.
  - rewrite <-app_assoc in Hp. destruct (stop (buffer ++ b)); [by intros [= <- <- <-]|]. by apply IH.
  - rewrite app_nil_r in Hp. by intros [= <- <- <-].
Qed.

Lemma fill_chunk_hashed limit pre buffer stream buffer' ended stream' :
  hashing_inv items stream → hs_hasher stream = pre ++ buffer →
  fill_chunk limit buffer stream = Some (Ok (buffer', ended), stream') →
  hashing_inv items stream' ∧ hs_hasher stream' = pre ++ buffer'.
Proof.
  intros Hi Hh. unfold fill_chunk. destruct (_ <? _); [by eapply fill_buffer_hashed|]. by intros [= <- <- <-].
Qed.

Lemma send_chunks_stored fuel config limit sent buf stream (s s' : list N * W) stream' :
  0 < limit → stored s.2 = sent → hashing_inv items stream → hs_hasher stream = sent ++ buf →
  send_chunks self fuel config limit (usize_len sent) buf stream s = (s', Ok (Some stream')) →
  hashing_inv items stream' ∧ stored s'.2 = hs_hasher stream'.
Proof.
  intros Hlim. revert sent buf stream s.
  induction fuel as [|fuel IH]; intros sent buf stream s Hs Hi Hh; cbn [send_chunks]; [done|].
  destruct (fill_chunk limit buf stream) as [[filled stream1]|] eqn:Hfc; [|done].
  intros Hr. apply io_bind_ok in Hr as (s1 & [buf1 ended] & Hf & Hr). apply lift_ok in Hf as [-> ->].
  pose proof (fill_chunk_data _ _ _ _ _ _ Hfc) as [_ Hor].
  eapply fill_chunk_hashed in Hfc as [Hi1 Hh1]; [|done|done].
  destruct (is_empty buf1) eqn:Hemp.
  { injection Hr as <- <-. split; [done|]. destruct buf1; [|done]. by rewrite Hh1, app_nil_r. }
  set (n := if ended then _ else _) in Hr. apply io_bind_ok in Hr as (s2 & res & Hup & Hr).
  destruct res as [u|]; [|done].
  assert (Hne : take (N.to_nat n) buf1 ≠ []).
  { destruct buf1 as [|c buf1]; [done|]. assert (0 < n) by (unfold n, usize_len; destruct ended; simpl; lia).
    destruct (N.to_nat n) eqn:Hn; [lia|done]. }
  apply (upload_chunk_stored sent (take (N.to_nat n) buf1) Hne) in Hup as [Hup Hlt]; [|done].
  apply io_bind_ok in Hr as (s3 & off & Ho & Hr). apply lift_ok in Ho as [-> Ho].
  destruct ended.
  - injection Hr as <- <-. split; [done|]. rewrite Hup, Hh1. f_equal. apply take_ge.
    unfold n, usize_len. lia.
  - assert (off = usize_len (sent ++ take (N.to_nat n) buf1)) as ->.
    { rewrite usize_len_app. unfold arith_add in Ho. rewrite arith_ok in Ho by done. by injection Ho. }
    eapply (IH (sent ++ take (N.to_nat n) buf1)); [done|done| |done].
    by rewrite <-app_assoc, take_drop.
Qed.

Lemma finish_commits url h op w w' status :
  request_put_chunk_finish_with_auth_retry
    (with_digest url (cd_str (ContentDigest_from_bytes (stored w)))) h None op w = (w', Ok status) →
  is_success status = true →
  blob_of w' (cd_str (ContentDigest_from_bytes (stored w))) = Some (stored w).
Proof.
  intros Hf Hok. unfold request_put_chunk_finish_with_auth_retry in Hf.
  apply io_bind_ok in Hf as (w1 & [st hd] & Ha & Hf). injection Hf as <- <-.
  apply (auth_retry_last same_stored) in Ha as (h1 & w2 & Hle & Ha); [|apply cached_same|apply refresh_same|].
  - apply io_transport_ok in Ha. unfold same_stored in Hle. rewrite <-Hle in Ha |- *. by eapply hr_finish.
  - intros h0 w0 w3 [st0 hd0] Hs H401. apply io_transport_ok in Hs. simpl in H401. subst st0. by eapply hr_finish_401.
Qed.

Lemma chunked_upload_commits fuel config limit buf stream (s s' : list N * W) d size :
  0 < limit → stored s.2 = [] → hashing_inv items stream → hs_hasher stream = buf →
  chunked_upload self fuel config limit buf stream s = (s', Ok (Some (d, size))) →
  ∃ chunks, items = Ok <$> chunks ∧ d = ContentDigest_from_bytes (concat chunks) ∧
    size = wrap64 (usize_len (concat chunks)) ∧ blob_of s'.2 (cd_str d) = Some (concat chunks).
Proof.
  intros Hlim Hs Hi Hh Hc. unfold chunked_upload in Hc. apply io_bind_ok in Hc as (s1 & res & Hsend & Hc).
  destruct res as [stream1|]; [|done].
  apply (send_chunks_stored fuel config limit [] buf stream) in Hsend as [Hi1 Hst1]; try done.
  apply io_bind_ok in Hc as (s2 & fd & Hd & Hc). apply lift_ok in Hd as [-> Hd%ok_or_ok].
  destruct (hashing_inv_digest _ _ _ Hi1 Hd) as (chunks & Hitems & -> & Hhash & Hbytes).
  apply io_bind_ok in Hc as (s3 & url & Hurl & Hc). injection Hurl as <- <-.
  apply io_bind_ok in Hc as (s4 & h & Hh4 & Hc). apply on_world_ok in Hh4 as (w4 & Hh4 & ->).
  pose proof (auth_headers_same s1.2) as Hsame. rewrite Hh4 in Hsame. simpl in Hsame.
  apply io_bind_ok in Hc as (s5 & status & Hfin & Hc). apply on_world_ok in Hfin as (w5 & Hfin & ->). simpl in Hfin.
  assert (Hcontent : stored w4 = concat chunks) by (rewrite Hsame, Hst1; done).
  rewrite <-Hcontent in Hfin. destruct (_ || _) eqn:Hcode; [|done]. injection Hc as <- <- <-.
  exists chunks. split_and!; [done|done|done|]. simpl. rewrite <-Hcontent. eapply finish_commits; [done|].
  rewrite !orb_true_iff, !N.eqb_eq in Hcode. by destruct Hcode as [[->| ->]| ->].
Qed.

Definition anywhere (w w' : W) : Prop := True.
#[local] Instance anywhere_preorder : PreOrder anywhere.
Proof. done. Qed.

Lemma push_bytes_commits bytes w w' d :
  push_bytes self bytes w = (w', Ok d) → d = ContentDigest_from_bytes bytes ∧ is_Some (blob_of w' (cd_str d)).
Proof.
  unfold push_bytes. intros Hp. apply io_bind_ok in Hp as (w1 & u & Hp & Hd). injection Hd as <- <-.
  split; [done|]. unfold push_bytes_with_digest in Hp. apply io_bind_ok in Hp as (w2 & u2 & _ & Hp).
  apply io_bind_ok in Hp as (w3 & present & Hhead & Hp).
  assert (Htwo : ∀ w0, execute_two_step_put self (ContentDigest_from_bytes bytes) bytes w0 = (w1, Ok u) →
    is_Some (blob_of w1 (cd_str (ContentDigest_from_bytes bytes)))).
  { intros w0 Ht. unfold execute_two_step_put in Ht. apply io_bind_ok in Ht as (w4 & url & _ & Ht).
    apply io_bind_ok in Ht as (w5 & h & _ & Ht). unfold or_abort in Ht.
    apply io_bind_ok in Ht as (w6 & result & Hres & Ht). unfold io_catch in Hres.
    destruct (_ ← _; _) as [w7 o] eqn:Hput in Hres. injection Hres as <- <-.
    destruct o as [x|e|]; [|by apply io_bind_ok in Ht as (? & ? & _ & ?)|done].
    apply lift_ok in Ht as [-> [= ->]]. apply io_bind_ok in Hput as (w8 & st & Hreq & Hcode).
    destruct (_ || _) eqn:Hc; [|done]. injection Hcode as <- _.
    unfold request_put_bytes_with_auth_retry in Hreq. apply io_bind_ok in Hreq as (w9 & [st' hd] & Ha & Hst).
    injection Hst as <- <-. apply (auth_retry_last anywhere) in Ha as (h1 & w10 & _ & Ha); [|done..].
    apply io_transport_ok, hr_put in Ha; [by eexists|].
    rewrite !orb_true_iff, !N.eqb_eq in Hc. simpl in Hc. by destruct Hc as [[->| ->]| ->]. }
  destruct present.
  - injection Hp as <- _. unfold blob_head in Hhead. apply io_bind_ok in Hhead as (w4 & [st hd] & Hreq & Hcode).
    simpl in Hcode. destruct (N.eqb_spec st 200) as [->|]; [|by repeat (case_match; try done)].
    injection Hcode as <-. unfold request_head_with_auth_retry in Hreq.
    apply io_bind_ok in Hreq as (w5 & h & _ & Ha).
    apply (auth_retry_last anywhere) in Ha as (h1 & w6 & _ & Ha); [|done..].
    apply io_transport_ok in Ha. by eapply hr_head.
  - destruct (fixed_upload_strategy _); [by eapply Htwo|..];
      (apply io_bind_ok in Hp as (w4 & h & _ & Hp); apply io_bind_ok in Hp as (w5 & result & Hres & Hp);
       unfold io_catch in Hres; destruct (request_post_bytes_with_auth_retry _ _ _ _ w4) as [w6 o] eqn:Hreq;
       injection Hres as <- <-; destruct o as [st|e|]; [|by eapply Htwo|done];
       destruct (_ || _) eqn:Hc; [|by eapply Htwo]; injection Hp as <- _;
       unfold request_post_bytes_with_auth_retry in Hreq; apply io_bind_ok in Hreq as (w9 & [st' hd] & Ha & Hst);
       injection Hst as <- <-; apply (auth_retry_last anywhere) in Ha as (h1 & w10 & _ & Ha); [|done..];
       apply io_transport_ok, hr_post_bytes in Ha; [by eexists|];
       rewrite !orb_true_iff, !N.eqb_eq in Hc; simpl in Hc; by destruct Hc as [->| ->]).
Qed.

Lemma initialize_upload_empty op w w' url :
  initialize_upload self op w = (w', Ok url) → stored w' = [].
Proof.
  intros Hi. unfold initialize_upload in Hi. apply io_bind_ok in Hi as (w1 & [st hd] & Hreq & Hi).
  apply io_bind_ok in Hi as (w2 & u & Hu & Hi). apply lift_ok in Hu as [-> _].
  apply io_bind_ok in Hi as (w3 & loc & Hl & Hi). apply lift_ok in Hl as [-> _]. apply lift_ok in Hi as [-> _].
  unfold request_post_with_auth_retry in Hreq. apply io_bind_ok in Hreq as (w4 & h & _ & Ha).
  apply (auth_retry_last anywhere) in Ha as (h1 & w5 & _ & Ha); [|done..]. apply io_transport_ok in Ha.
  pose proof (hr_post (upload_url (cl_endpoint self) (cl_repo self)) h1 w5) as Hp. by rewrite Ha in Hp.
Qed.
End honest.

(** The stream that was read, what it hashes to, and the blob under its digest. *)
Lemma push_resumable_committed {W : Type} `{HttpHeaders} `{UriLib} `{!TransportOps W} `{!TokenOps W}
    `{Sha2} `{Build} `{!HonestRegistry W} (self : OciClient) items config (w w' : W) d size :
  Forall (λ item, item ≠ Panic) items →
  push_resumable self items config w = (w', Ok (Some (d, size))) →
  ∃ chunks c, items = Ok <$> chunks ∧ d = ContentDigest_from_bytes (concat chunks) ∧
    size = wrap64 (usize_len (concat chunks)) ∧
    blob_of w' (cd_str d) = Some c ∧ ContentDigest_from_bytes c = d.
Proof.
  intros Hnp Hp.
  assert (Hcontent : ∀ w d c, blob_of w (cd_str d) = Some c → ContentDigest_from_bytes c = d).
  { intros w0 [x] c Hb. apply hr_blob in Hb. simpl in Hb. by rewrite Hb. }
  unfold push_resumable in Hp. apply io_bind_ok in Hp as (w0 & cap & Hcap & Hp).
  apply lift_ok in Hcap as [-> _].
  destruct (fill_buffer _ _ _ _) as [[filled stream1]|] eqn:Hf; [|done].
  apply io_bind_ok in Hp as (w1 & [buffer ended] & Hfl & Hp). apply lift_ok in Hfl as [-> ->].
  eapply (fill_buffer_hashed items Hnp _ _ []) in Hf as [Hi1 Hh1]; [|apply hashing_inv_new|done].
  destruct (_ || _).
  - destruct (fill_buffer _ _ buffer stream1) as [[filled2 stream2]|] eqn:Hf2; [|done].
    apply io_bind_ok in Hp as (w2 & [buffer2 ended2] & Hfl2 & Hp). apply lift_ok in Hfl2 as [-> ->].
    eapply (fill_buffer_hashed items Hnp _ _ []) in Hf2 as [Hi2 Hh2]; [|done|done].
    apply io_bind_ok in Hp as (w3 & sd & Hd & Hp). apply lift_ok in Hd as [-> Hd%ok_or_ok].
    destruct (hashing_inv_digest _ _ _ Hi2 Hd) as (chunks & Hitems & -> & Hhash & Hbytes).
    apply io_bind_ok in Hp as (w4 & pd & Hpush & Hp). apply push_bytes_commits in Hpush as [-> [c Hc]].
    destruct (bool_decide_reflect (ContentDigest_from_bytes (buffer2, ended2).1
      = ContentDigest_from_bytes (concat chunks))) as [Heq|]; [|done].
    cbn [negb] in Hp. injection Hp as <- <- <-. rewrite Heq in Hc. exists chunks, c. split_and!; try done. by eapply Hcontent.
  - apply io_bind_ok in Hp as (w2 & url & Hinit & Hp). apply initialize_upload_empty in Hinit.
    unfold run_session in Hp. destruct (chunked_upload _ _ _ _ _ _ (url, w2)) as [[url3 w3] o] eqn:Hc.
    destruct o as [r|e|]; [|by apply io_bind_ok in Hp as (? & ? & _ & ?)|done]. injection Hp as <- ->.
    apply (chunked_upload_commits self items Hnp) in Hc as (chunks & ? & -> & -> & Hb); [|lia|done..].
    exists chunks, (concat chunks). done.
Qed.


(** ** Witnesses *)

(** A registry that appends at most two bytes per PATCH. *)
Record RegWorld := { rw_session : list N; rw_blobs : list (list N * list N) }.

Definition rw_commit (w : RegWorld) (c : list N) : RegWorld :=
  {| rw_session := rw_session w;
     rw_blobs := (cd_str (@ContentDigest_from_bytes sample_sha2 c), c) :: rw_blobs w |}.
Definition rw_lookup (w : RegWorld) (d : list N) : option (list N) :=
  (λ p, p.2.2) <$> list_find (λ p, p.1 = d ∧ d = cd_str (@ContentDigest_from_bytes sample_sha2 p.2)) (rw_blobs w).

Definition rw_patch (body : list N) (a : N) (w : RegWorld)
    : RegWorld * outcome TransportError (@UploadChunkResponse sample_http) :=
  if a =? usize_len (rw_session w) then
    let s := rw_session w ++ take 2 body in
    ({| rw_session := s; rw_blobs := rw_blobs w |},
     Ok {| uc_status := 202; uc_headers := ([] : @HeaderMap sample_http); uc_location := None;
           uc_range := if is_empty s then None else Some (0, usize_len s - 1) |})
  else (w, Ok {| uc_status := 416; uc_headers := ([] : @HeaderMap sample_http); uc_location := None; uc_range := None |}).

Definition rw_transport : @TransportOps RegWorld sample_http :=
  @Build_TransportOps RegWorld sample_http
    (λ _ _ w, (w, Ok (404, [])))
    (λ _ _ _ w, (w, Ok (404, [], [])))
    (λ _ _ _ w, (w, Ok (404, [], [])))
    (λ _ _ w, ({| rw_session := []; rw_blobs := rw_blobs w |}, Ok (202, [(lit "location", lit "/upload/1")])))
    (λ _ _ b w, (rw_commit w b, Ok (201, [])))
    (λ _ _ b w, (rw_commit w b, Ok (201, [])))
    (λ _ _ b r w, rw_patch b r.1 w)
    (λ _ _ _ w, (rw_commit w (rw_session w), Ok (201, [])))
    (λ _ _ w, (w, Ok (204, [])))
    (λ _ w, w).
Definition rw_tokens : TokenOps RegWorld := {|
  tm_cached_token := λ w, (w, None);
  tm_refresh_token := λ _ w, (w, Ok []) |}.

Lemma rw_lookup_commit w c :
  rw_lookup (rw_commit w c) (cd_str (@ContentDigest_from_bytes sample_sha2 c)) = Some c.
Proof. unfold rw_lookup, rw_commit. cbn [rw_blobs list_find]. by rewrite decide_True. Qed.

Definition rw_honest : @HonestRegistry RegWorld sample_http sample_sha2 rw_transport rw_tokens.
Proof.
  refine (@Build_HonestRegistry RegWorld sample_http sample_sha2 rw_transport rw_tokens
    rw_session rw_lookup _ _ _ _ _ _ _ _ _ _ _ _ _ _); try done.
  - intros url h n w w' status headers body v text s e [= <- <- <- <-] Hok. discriminate.
  - intros url h body a b w w' o Hp. cbn in Hp. unfold rw_patch in Hp.
    destruct (N.eqb_spec a (usize_len (rw_session w))) as [->|]; injection Hp as <- _; [right|by left].
    split; [done|]. by exists 2%nat.
  - intros url h body a b w w' r Hp Hok. cbn in Hp. unfold rw_patch in Hp.
    destruct (N.eqb_spec a (usize_len (rw_session w))) as [->|]; injection Hp as <- <-; [|done].
    split; [done|]. simpl. destruct (is_empty (rw_session w ++ take 2 body)) eqn:He.
    + destruct (rw_session w); [|done]. by destruct body.
    + unfold usize_len. destruct (rw_session w ++ take 2 body) eqn:Hl; [done|]. simpl. lia.
  - intros url h w w' status headers [= <- _ _] _. apply rw_lookup_commit.
  - intros w d c Hl. unfold rw_lookup in Hl.
    destruct (list_find _ _) as [[i [d' c']]|] eqn:Hf; [|done]. injection Hl as <-.
    by apply list_find_Some in Hf as (_ & [_ ?] & _).
  - intros url h body w w' status headers [= <- _ _] _. apply rw_lookup_commit.
  - intros url h body w w' status headers [= <- _ _] _. apply rw_lookup_commit.
Defined.

#[local] Instance sample_build : Build := {| usize_bits := 64; overflow_checks := true; usize_min := ltac:(lia) |}.
Definition sample_client : OciClient := {|
  cl_endpoint := sample_endpoint; cl_repo := lit "org/app"; cl_driver := GenericOci;
  cl_limits := OciReadLimits_default |}.
Definition sample_upload_world : RegWorld := {| rw_session := []; rw_blobs := [] |}.
Definition sample_items : list (outcome TransportError (list N)) := [Ok [1; 2; 3]; Ok []; Ok [4; 5; 6]; Ok [7]].

(** Seven bytes in chunks of four, against the registry that takes two bytes at a time:
    each chunk is resumed from the range the registry acknowledged. *)
Example chunked_upload_resumes :
  let '((_, w), r) := @chunked_upload RegWorld sample_http sample_uri rw_transport rw_tokens sample_sha2 sample_build
    sample_client 20 UploadConfig_default 4 [] (HashingStream_new sample_items) ([], sample_upload_world) in
  r = Ok (Some (@ContentDigest_from_bytes sample_sha2 [1; 2; 3; 4; 5; 6; 7], 7)) ∧
  rw_session w = [1; 2; 3; 4; 5; 6; 7] ∧ (rw_blobs w).*2 = [[1; 2; 3; 4; 5; 6; 7]].
Proof. by vm_compute. Qed.

Definition sample_push : RegWorld * outcome OciError (option (ContentDigest * N)) :=
  @push_resumable RegWorld sample_http sample_uri rw_transport rw_tokens sample_sha2 sample_build
    sample_client sample_items UploadConfig_default sample_upload_world.

