(* ===== verification/Manifest.v ===== *)
(** * Manifest: OCI image indexes, image manifests and the index codec
    (crates/nixcache-oci/src/manifest.rs, codec.rs)

    A [HashMap<String, String>] of annotations is a [gmap].  The JSON text of a
    record is the interface [Serde]; the clock is an argument. *)

From S2P Require Import Prelude Machine Str Text Error Types Sharding Index OciError Transport.

Local Open Scope N_scope.

Definition OCI_IMAGE_MANIFEST_MEDIA_TYPE : list N := lit "application/vnd.oci.image.manifest.v1+json".
Definition OCI_IMAGE_INDEX_MEDIA_TYPE : list N := lit "application/vnd.oci.image.index.v1+json".
Definition OCI_IMAGE_CONFIG_MEDIA_TYPE : list N := lit "application/vnd.oci.image.config.v1+json".
Definition ROOT_INDEX_V8_ZSTD : list N := lit "application/vnd.nix.cache.root.v8+zstd".
Definition SHARD_DATA_V8_ZSTD : list N := lit "application/vnd.nix.cache.shard.v8+zstd".
Definition EMPTY_CONFIG_SIZE : N := 2.

(** ** Layer media types *)

Inductive CacheLayerMediaType := RootIndexV8Zstd | ShardDataV8Zstd.

Definition CacheLayerMediaType_parse (s : list N) : option CacheLayerMediaType :=
  if bool_decide (s = ROOT_INDEX_V8_ZSTD) then Some RootIndexV8Zstd
  else if bool_decide (s = SHARD_DATA_V8_ZSTD) then Some ShardDataV8Zstd
  else None.
Definition CacheLayerMediaType_as_str (self : CacheLayerMediaType) : list N :=
  match self with RootIndexV8Zstd => ROOT_INDEX_V8_ZSTD | ShardDataV8Zstd => SHARD_DATA_V8_ZSTD end.

(** ** Platforms and descriptors *)

Record OciPlatform := {
  op_architecture : list N;
  op_os : list N;
  op_variant : option (list N);
  op_os_features : list (list N) }.
#[export] Instance OciPlatform_eq_dec : EqDecision OciPlatform.
Proof. solve_decision. Defined.

Definition OciPlatform_new (os architecture : list N) : OciPlatform :=
  {| op_architecture := architecture; op_os := os; op_variant := None; op_os_features := [] |}.
Definition OciPlatform_with_variant (self : OciPlatform) (variant : list N) : OciPlatform :=
  {| op_architecture := op_architecture self; op_os := op_os self; op_variant := Some variant;
     op_os_features := op_os_features self |}.
Definition OciPlatform_from_system (system : SystemArch) : OciPlatform :=
  let '(os, arch, variant) := SystemArch_to_oci_platform_tuple system in
  {| op_architecture := arch; op_os := os; op_variant := variant; op_os_features := [] |}.
Definition OciPlatform_to_system (self : OciPlatform) : SystemArch :=
  SystemArch_from_oci (op_os self) (op_architecture self) (op_variant self).

Notation annotations := (gmap (list N) (list N)).

Record OciDescriptor := {
  od_media_type : list N;
  od_digest : list N;
  od_size : N;
  od_platform : option OciPlatform;
  od_annotations : option annotations }.
#[export] Instance OciDescriptor_eq_dec : EqDecision OciDescriptor.
Proof. solve_decision. Defined.

Definition OciDescriptor_validate_for (self : OciDescriptor) (target : list N) (max_size : N)
    : outcome OciError unit :=
  _ ← map_err (λ _, InvalidDescriptor target (lit "descriptor digest is not a canonical SHA-256 digest"))
        (ContentDigest_parse (od_digest self));
  if max_size <? od_size self then Err (SizeLimitExceeded target max_size (od_size self))
  else if is_empty (trim (od_media_type self))
  then Err (InvalidDescriptor target (lit "descriptor media type is empty"))
  else Ok tt.

(** ** Image indexes *)

Record OciImageIndex := {
  oi_schema_version : N;
  oi_media_type : list N;
  oi_manifests : list OciDescriptor;
  oi_annotations : option annotations }.
#[export] Instance OciImageIndex_eq_dec : EqDecision OciImageIndex.
Proof. solve_decision. Defined.

Definition OciImageIndex_new : OciImageIndex :=
  {| oi_schema_version := 2; oi_media_type := OCI_IMAGE_INDEX_MEDIA_TYPE; oi_manifests := [];
     oi_annotations := None |}.

Definition SYSTEM_KEY : list N := lit "org.nixos.nixcache.system".
Definition SCHEMA_KEY : list N := lit "org.nixos.nixcache.schema".
Definition MERKLE_ROOT_KEY : list N := lit "org.nixos.nixcache.merkle_root".

Definition annotation_of (o : option annotations) (key : list N) : option (list N) := m ← o; m !! key.
Definition platform_system (d : OciDescriptor) : option SystemArch := OciPlatform_to_system <$> od_platform d.
Definition annotation_system (d : OciDescriptor) : option SystemArch :=
  SystemArch_from <$> annotation_of (od_annotations d) SYSTEM_KEY.

(** One descriptor of the loop of [validate_for], with the systems seen before it. *)
Definition validate_child (limits : OciReadLimits) (target : list N) (systems : gset SystemArch)
    (d : OciDescriptor) : outcome OciError (gset SystemArch) :=
  _ ← OciDescriptor_validate_for d target (max_manifest_bytes limits);
  if negb (bool_decide (od_media_type d = OCI_IMAGE_MANIFEST_MEDIA_TYPE))
  then Err (InvalidDescriptor (od_digest d) (lit "image index child is not an OCI image manifest"))
  else
    let p := platform_system d in
    let a := annotation_system d in
    if match p with Some s => negb (SystemArch_is_known s) | None => false end
       || match a with Some s => negb (SystemArch_is_known s) | None => false end
       || match p, a with Some s, Some s' => negb (bool_decide (s = s')) | _, _ => false end
    then Err (InvalidDescriptor (od_digest d) (lit "descriptor platform is unknown or inconsistent"))
    else
      system ← ok_or (InvalidDescriptor (od_digest d) (lit "image index child has no known platform"))
                 (s ← match p with Some s => Some s | None => a end;
                  if SystemArch_is_known s then Some s else None);
      if bool_decide (system ∈ systems)
      then Err (InvalidDescriptor (od_digest d) (lit "image index contains duplicate platforms"))
      else Ok ({[system]} ∪ systems).

Definition OciImageIndex_validate_for (self : OciImageIndex) (limits : OciReadLimits) (target : list N)
    : outcome OciError unit :=
  if negb (oi_schema_version self =? 2)
  then Err (InvalidDescriptor target (lit "image index schemaVersion must be 2"))
  else if negb (bool_decide (oi_media_type self = OCI_IMAGE_INDEX_MEDIA_TYPE))
  then Err (InvalidDescriptor target (lit "image index mediaType is not the OCI image index type"))
  else if max_image_index_descriptors limits <? usize_len (oi_manifests self)
  then Err (SizeLimitExceeded target (max_image_index_descriptors limits) (usize_len (oi_manifests self)))
  else
    _ ← fold_m (validate_child limits target) ∅ (oi_manifests self);
    Ok tt.

(** The predicate of [find_manifest_for_system]. *)
Definition is_manifest_for (system : SystemArch) (m : OciDescriptor) : bool :=
  if match od_platform m with
     | Some p => bool_decide (p = OciPlatform_from_system system)
     | None => false
     end
  then true
  else match annotation_of (od_annotations m) SYSTEM_KEY with
       | Some sys_str => bool_decide (sys_str = SystemArch_as_str system)
       | None => false
       end.
Definition find_manifest_for_system (self : OciImageIndex) (system : SystemArch) : option OciDescriptor :=
  snd <$> list_find (λ m, is_manifest_for system m = true) (oi_manifests self).

(** ** Image manifests *)

Record OciImageManifest := {
  om_schema_version : N;
  om_media_type : list N;
  om_config : OciDescriptor;
  om_layers : list OciDescriptor;
  om_annotations : option annotations }.
#[export] Instance OciImageManifest_eq_dec : EqDecision OciImageManifest.
Proof. solve_decision. Defined.

Definition OciImageManifest_validate_for (self : OciImageManifest) (limits : OciReadLimits) (target : list N)
    : outcome OciError unit :=
  if negb (om_schema_version self =? 2)
  then Err (InvalidDescriptor target (lit "image manifest schemaVersion must be 2"))
  else if negb (bool_decide (om_media_type self = OCI_IMAGE_MANIFEST_MEDIA_TYPE))
  then Err (InvalidDescriptor target (lit "image manifest mediaType is not the OCI image manifest type"))
  else if max_manifest_layers limits <? usize_len (om_layers self)
  then Err (SizeLimitExceeded target (max_manifest_layers limits) (usize_len (om_layers self)))
  else
    _ ← OciDescriptor_validate_for (om_config self) target (max_buffered_blob_bytes limits);
    if negb (bool_decide (od_media_type (om_config self) = OCI_IMAGE_CONFIG_MEDIA_TYPE))
    then Err (InvalidDescriptor target (lit "manifest config has an invalid media type"))
    else for_each (λ layer, OciDescriptor_validate_for layer target (max_buffered_blob_bytes limits))
           (om_layers self).

Definition validate_v8_annotations (ann : annotations) (system : SystemArch) (merkle_root target : list N)
    : outcome OciError unit :=
  let annotation_system :=
    s ← SystemArch_from <$> ann !! SYSTEM_KEY; if SystemArch_is_known s then Some s else None in
  if negb (bool_decide (annotation_system = Some system))
     || negb (bool_decide (ann !! SCHEMA_KEY = Some (lit "8")))
     || negb (bool_decide (ann !! MERKLE_ROOT_KEY = Some merkle_root))
  then Err (InvalidDescriptor target (lit "Schema v8 annotations are missing or inconsistent"))
  else
    _ ← map_err (λ _, InvalidDescriptor target (lit "Schema v8 merkle_root is not a canonical SHA-256 digest"))
          (ContentDigest_parse merkle_root);
    Ok tt.

Definition validate_schema_v8_root (self : OciImageManifest) (system : SystemArch) (merkle_root : list N)
    (limits : OciReadLimits) (target : list N) : outcome OciError OciDescriptor :=
  _ ← OciImageManifest_validate_for self limits target;
  match om_layers self with
  | [layer] =>
      ann ← ok_or (InvalidDescriptor target (lit "Schema v8 root manifest annotations are missing"))
              (om_annotations self);
      _ ← validate_v8_annotations ann system merkle_root target;
      if negb (bool_decide (od_media_type layer = ROOT_INDEX_V8_ZSTD))
      then Err (UnsupportedMediaType (od_media_type layer))
      else if negb (bool_decide (platform_system layer = Some system))
      then Err (InvalidDescriptor (od_digest layer) (lit "root layer platform does not match requested system"))
      else
        layer_annotations ← ok_or (InvalidDescriptor (od_digest layer)
            (lit "Schema v8 root layer annotations are missing")) (od_annotations layer);
        _ ← validate_v8_annotations layer_annotations system merkle_root (od_digest layer);
        Ok layer
  | _ => Err LayerDescriptorMissing
  end.

Definition first_layer_digest (self : OciImageManifest) : option (list N) := od_digest <$> head (om_layers self).

(** ** Either of the two *)

Inductive OciArtifactManifest :=
| ArtifactIndex (index : OciImageIndex)
| ArtifactManifest (manifest : OciImageManifest).

Definition Artifact_schema_version (self : OciArtifactManifest) : N :=
  match self with ArtifactIndex i => oi_schema_version i | ArtifactManifest m => om_schema_version m end.
Definition Artifact_media_type (self : OciArtifactManifest) : list N :=
  match self with ArtifactIndex i => oi_media_type i | ArtifactManifest m => om_media_type m end.
Definition as_index (self : OciArtifactManifest) : option OciImageIndex :=
  match self with ArtifactIndex i => Some i | ArtifactManifest _ => None end.
Definition as_manifest (self : OciArtifactManifest) : option OciImageManifest :=
  match self with ArtifactIndex _ => None | ArtifactManifest m => Some m end.
Definition Artifact_validate_for (self : OciArtifactManifest) (limits : OciReadLimits) (target : list N)
    : outcome OciError unit :=
  match self with
  | ArtifactIndex i => OciImageIndex_validate_for i limits target
  | ArtifactManifest m => OciImageManifest_validate_for m limits target
  end.

(** ** Builders *)

Record ShardedArchIndexManifestParams := {
  sp_root_blob_digest : list N;
  sp_root_blob_size : N;
  sp_config_digest : list N;
  sp_config_size : N;
  sp_system : SystemArch;
  sp_merkle_root : list N }.

(** [now] is the text of [Utc::now().to_rfc3339_opts(Secs, true)]. *)
Definition build_sharded_arch_index_manifest (params : ShardedArchIndexManifestParams) (now : list N)
    : OciImageManifest :=
  let system := SystemArch_as_str (sp_system params) in
  let root_layer_annotations : annotations :=
    <[SCHEMA_KEY := lit "8"]> (<[MERKLE_ROOT_KEY := sp_merkle_root params]> {[SYSTEM_KEY := system]}) in
  let manifest_annotations : annotations :=
    <[SCHEMA_KEY := lit "8"]> (<[MERKLE_ROOT_KEY := sp_merkle_root params]> (<[SYSTEM_KEY := system]>
      (<[lit "org.opencontainers.image.description" := lit "NixCache Sharded Merkle Baseline (" ++ system ++ lit ")"]>
        {[lit "org.opencontainers.image.created" := now]}))) in
  {| om_schema_version := 2;
     om_media_type := OCI_IMAGE_MANIFEST_MEDIA_TYPE;
     om_config := {| od_media_type := OCI_IMAGE_CONFIG_MEDIA_TYPE; od_digest := sp_config_digest params;
                     od_size := sp_config_size params; od_platform := None; od_annotations := None |};
     om_layers := [{| od_media_type := ROOT_INDEX_V8_ZSTD; od_digest := sp_root_blob_digest params;
                      od_size := sp_root_blob_size params;
                      od_platform := Some (OciPlatform_from_system (sp_system params));
                      od_annotations := Some root_layer_annotations |}];
     om_annotations := Some manifest_annotations |}.

Definition build_image_index (manifest_descriptors : list OciDescriptor) (description now : list N)
    : OciImageIndex :=
  {| oi_schema_version := 2; oi_media_type := OCI_IMAGE_INDEX_MEDIA_TYPE;
     oi_manifests := manifest_descriptors;
     oi_annotations := Some (<[lit "org.opencontainers.image.description" := description]>
                               {[lit "org.opencontainers.image.created" := now]}) |}.

(** ** JSON and the codec *)

(** What serde and serde_json derive for a record: its text, and the record read
    from a text or from bytes; errors are texts.  For the records whose
    [Deserialize] is written out in nixcache-core, the record read is the wire
    record, before its validation. *)
Class Serde (T : Type) := {
  to_json : T → outcome (list N) (list N);
  from_json_str : list N → outcome (list N) T;
  from_json_slice : list N → outcome (list N) T }.
(** Reading gives back what was written. *)
Class SerdeOk (T : Type) `{!Serde T} :=
  serde_roundtrip (x : T) (s : list N) :
    to_json x = Ok s → from_json_str s = Ok x ∧ from_json_slice (utf8 s) = Ok x.

(** [serde::de::Error::custom] raised by a [Deserialize] on an input, and the text
    of a [Utf8Error]. *)
Class SerdeErrors := {
  serde_custom : list N → CoreError → list N;
  utf8_error : list N → list N }.

(** The compressor of the [zstd] crate. *)
Class ZstdEncoder := { zstd_compress : list N → Z → outcome CompressionError (list N) }.
Definition DEFAULT_ZSTD_COMPRESSION_LEVEL : Z := 3.

Section codec.
Context `{Zstd} `{ZstdEncoder} `{SerdeErrors}.

(** [serde_json::from_slice] at a type with a validating [Deserialize]. *)
Definition from_slice_validated {T} `{!Serde T} (deserialize : T → outcome CoreError T) (bytes : list N)
    : outcome (list N) T :=
  wire ← from_json_slice bytes;
  map_err (serde_custom bytes) (deserialize wire).

(** [serde_json::from_str::<OciArtifactManifest>]: untagged, the index first. *)
Definition artifact_from_str `{!Serde OciImageIndex} `{!Serde OciImageManifest} (mismatch : list N) (body : list N)
    : outcome (list N) OciArtifactManifest :=
  match from_json_str body with
  | Ok index => Ok (ArtifactIndex index)
  | Panic => Panic
  | Err _ =>
      match from_json_str body with
      | Ok manifest => Ok (ArtifactManifest manifest)
      | Panic => Panic
      | Err _ => Err mismatch
      end
  end.

Definition encode_zstd {T} `{!Serde T} (data : T) (level : Z) : outcome OciError (list N) :=
  json ← map_err OciJson (to_json data);
  map_err OciCompression (zstd_compress (utf8 json) level).

Record DecodedIndex (T : Type) := { di_value : T; di_uncompressed_size : N }.
Arguments di_value {T}. Arguments di_uncompressed_size {T}.

(** [decode_zstd::<T>], [parse] being [serde_json::from_slice::<T>]. *)
Definition decode_zstd {T} (parse : list N → outcome (list N) T) (raw_bytes media_type_str : list N)
    (max_uncompressed_bytes : N) : outcome OciError (DecodedIndex T) :=
  _ ← ok_or (UnsupportedMediaType media_type_str) (CacheLayerMediaType_parse media_type_str);
  uncompressed ← map_err OciCompression (decompress_limited raw_bytes max_uncompressed_bytes);
  parsed ← map_err OciJson (parse uncompressed);
  Ok {| di_value := parsed; di_uncompressed_size := usize_len uncompressed |}.
End codec.
Arguments di_value {T}. Arguments di_uncompressed_size {T}.

(** What the compressor and the decoder promise together (RFC 8878). *)
Class ZstdRoundTrip `{Zstd} `{ZstdEncoder} :=
  zstd_roundtrip (data frame : list N) (level : Z) :
    zstd_compress data level = Ok frame →
    is_valid_magic frame = true ∧
    ∃ decoder, zstd_open frame = Ok decoder ∧ ∀ n, zstd_read decoder n = Ok (take (N.to_nat n) data).

(** ** Facts: descriptors and indexes *)

Lemma OciDescriptor_validate_ok d target max u :
  OciDescriptor_validate_for d target max = Ok u ↔
  is_sha256 (od_digest d) = true ∧ od_size d ≤ max ∧ trim (od_media_type d) ≠ [].
Proof.
  destruct u. unfold OciDescriptor_validate_for. rewrite ContentDigest_parse_is_sha256.
  destruct (is_sha256 (od_digest d)); cbn [map_err mbind outcome_bind]; [|split; [done|by intros [? _]]].
  destruct (N.ltb_spec max (od_size d)); [split; [done|lia]|].
  destruct (is_empty (trim (od_media_type d))) eqn:He.
  - apply is_empty_true in He. split; [done|]. by intros (_ & _ & ?).
  - apply is_empty_false in He. naive_solver.
Qed.

(** The system a validated child of an index is for. *)
Definition child_system (d : OciDescriptor) : option SystemArch :=
  match platform_system d with Some s => Some s | None => annotation_system d end.

(** What one round of the loop accepts. *)
Definition child_ok (limits : OciReadLimits) (d : OciDescriptor) : Prop :=
  is_sha256 (od_digest d) = true ∧ od_size d ≤ max_manifest_bytes limits ∧
  od_media_type d = OCI_IMAGE_MANIFEST_MEDIA_TYPE ∧
  (∀ s, platform_system d = Some s → SystemArch_is_known s = true) ∧
  (∀ s, annotation_system d = Some s → SystemArch_is_known s = true) ∧
  (∀ s s', platform_system d = Some s → annotation_system d = Some s' → s = s') ∧
  is_Some (child_system d).

Lemma validate_child_ok limits target systems d systems' :
  validate_child limits target systems d = Ok systems' ↔
  child_ok limits d ∧ ∃ s, child_system d = Some s ∧ s ∉ systems ∧ systems' = {[s]} ∪ systems.
Proof.
  unfold validate_child, child_ok, child_system. split.
  - intros (u & (Hd & Hsz & _)%OciDescriptor_validate_ok & Hok)%bind_ok.
    destruct (bool_decide_reflect (od_media_type d = OCI_IMAGE_MANIFEST_MEDIA_TYPE)) as [Hm|]; [|done].
    cbn [negb] in Hok.
    assert (Hin : ∀ s : SystemArch, (if bool_decide (s ∈ systems) then Err (InvalidDescriptor (od_digest d)
        (lit "image index contains duplicate platforms")) else Ok ({[s]} ∪ systems)) = Ok systems' →
      s ∉ systems ∧ systems' = {[s]} ∪ systems).
    { intros s. case_bool_decide; [done|]. by intros [= <-]. }
    destruct (platform_system d) as [p|], (annotation_system d) as [a|]; simpl in Hok; [| | |done].
    + destruct (SystemArch_is_known p) eqn:Hp, (SystemArch_is_known a) eqn:Ha,
        (bool_decide_reflect (p = a)) as [<-|]; simpl in Hok; try done.
      apply Hin in Hok. split; [split_and!; naive_solver|eauto].
    + destruct (SystemArch_is_known p) eqn:Hp; simpl in Hok; [|done].
      apply Hin in Hok. split; [split_and!; naive_solver|eauto].
    + destruct (SystemArch_is_known a) eqn:Ha; simpl in Hok; [|done].
      apply Hin in Hok. split; [split_and!; naive_solver|eauto].
  - intros ((Hd & Hsz & Hm & Hp & Ha & Hpa & _) & s & Hs & Hin & ->).
    assert (OciDescriptor_validate_for d target (max_manifest_bytes limits) = Ok ()) as ->.
    { apply OciDescriptor_validate_ok. split_and!; [done..|]. rewrite Hm. by vm_compute. }
    rewrite (bool_decide_eq_true_2 _ Hm). cbn [negb mbind outcome_bind].
    destruct (platform_system d) as [p|], (annotation_system d) as [a|]; simplify_eq/=.
    + rewrite <-(Hpa s a), (Hp s), bool_decide_eq_true_2 by done. simpl. by rewrite bool_decide_eq_false_2.
    + rewrite (Hp s) by done. simpl. by rewrite bool_decide_eq_false_2.
    + rewrite (Ha s) by done. simpl. by rewrite bool_decide_eq_false_2.
Qed.

Lemma validate_children_ok limits target systems l :
  (∃ systems', fold_m (validate_child limits target) systems l = Ok systems') ↔
  Forall (child_ok limits) l ∧ NoDup (omap child_system l) ∧ ∀ s, s ∈ omap child_system l → s ∉ systems.
Proof.
  revert systems. induction l as [|d l IH]; intros systems; cbn [fold_m].
  { split; [|by eauto]. intros _. split_and!; [done|constructor|]. intros s Hs. by apply elem_of_nil in Hs. }
  split.
  - intros (systems' & (s1 & (Hd & s & Hs & Hin & ->)%validate_child_ok & Hl)%bind_ok).
    destruct (proj1 (IH _) (ex_intro _ _ Hl)) as (Hall & Hnd & Hdis). simpl. rewrite Hs.
    split_and!; [by constructor| |].
    + constructor; [|done]. intros Hs'. apply (Hdis s Hs'). set_solver.
    + intros s' [->|Hs']%elem_of_cons; [done|]. specialize (Hdis s' Hs'). set_solver.
  - intros ([Hd Hall]%Forall_cons & Hnd & Hdis). simpl in Hnd, Hdis.
    pose proof Hd as (_ & _ & _ & _ & _ & _ & [s Hs]). rewrite Hs in Hnd, Hdis.
    apply NoDup_cons in Hnd as [Hns Hnd]. destruct (proj2 (IH ({[s]} ∪ systems))) as [systems' Hl].
    { split_and!; [done..|]. intros s' Hs' [->%elem_of_singleton|Hin]%elem_of_union; [done|].
      by apply (Hdis s'); [right|]. }
    exists systems'. apply bind_ok. exists ({[s]} ∪ systems). split; [|done]. apply validate_child_ok.
    split; [done|]. exists s. split_and!; [done| |done]. apply Hdis. by left.
Qed.

Lemma OciImageIndex_validate_ok index limits target u :
  OciImageIndex_validate_for index limits target = Ok u ↔
  oi_schema_version index = 2 ∧ oi_media_type index = OCI_IMAGE_INDEX_MEDIA_TYPE ∧
  usize_len (oi_manifests index) ≤ max_image_index_descriptors limits ∧
  Forall (child_ok limits) (oi_manifests index) ∧ NoDup (omap child_system (oi_manifests index)).
Proof.
  destruct u. unfold OciImageIndex_validate_for.
  destruct (N.eqb_spec (oi_schema_version index) 2) as [Hv|]; cbn [negb]; [|naive_solver].
  case_bool_decide as Hm; cbn [negb]; [|naive_solver].
  destruct (N.ltb_spec (max_image_index_descriptors limits) (usize_len (oi_manifests index)));
    [split; [done|intros (_ & _ & ? & _); lia]|].
  rewrite bind_ok. split.
  - intros (s & Hf & _). destruct (proj1 (validate_children_ok limits target ∅ _) (ex_intro _ _ Hf)) as (? & ? & _).
    done.
  - intros (_ & _ & _ & Hall & Hnd). destruct (proj2 (validate_children_ok limits target ∅ (oi_manifests index)))
      as [s Hs]; [|by exists s]. split_and!; [done..|]. intros s _. apply not_elem_of_empty.
Qed.

Lemma to_system_from_system s : SystemArch_is_known s = true → OciPlatform_to_system (OciPlatform_from_system s) = s.
Proof. by destruct s; vm_compute. Qed.
Lemma from_as_str s : SystemArch_is_known s = true → SystemArch_from (SystemArch_as_str s) = s.
Proof. by destruct s; vm_compute. Qed.

(** A descriptor that the search accepts is for the system. *)
Lemma is_manifest_for_sound limits s d : SystemArch_is_known s = true → child_ok limits d →
  is_manifest_for s d = true → child_system d = Some s.
Proof.
  intros Hs (_ & _ & _ & _ & _ & Hpa & _) Hm. unfold is_manifest_for in Hm. unfold child_system, platform_system in *.
  destruct (od_platform d) as [p|]; simpl in *.
  - case_bool_decide as Hp; [by rewrite Hp, to_system_from_system|].
    unfold annotation_system in Hpa. destruct (annotation_of _ _) as [t|]; [|done].
    apply bool_decide_eq_true in Hm as ->. simpl in Hpa. rewrite from_as_str in Hpa by done.
    by rewrite (Hpa _ s eq_refl eq_refl).
  - unfold annotation_system. destruct (annotation_of _ _) as [t|]; [|done].
    apply bool_decide_eq_true in Hm as ->. simpl. by rewrite from_as_str.
Qed.

(** Two children of a validated index for one system are the same. *)
Lemma child_unique (l : list OciDescriptor) d d' s : NoDup (omap child_system l) → d ∈ l → d' ∈ l →
  child_system d = Some s → child_system d' = Some s → d = d'.
Proof.
  induction l as [|x l IH]; intros Hnd Hd Hd' Hs Hs'; [by apply elem_of_nil in Hd|]. simpl in Hnd.
  assert (Htail : ∀ y, y ∈ l → child_system y = Some s → s ∈ omap child_system l).
  { intros y Hy Hys. apply list_elem_of_omap. eauto. }
  apply elem_of_cons in Hd as [->|Hd], Hd' as [->|Hd']; [done|..].
  - rewrite Hs in Hnd. apply NoDup_cons in Hnd as [Hn _]. destruct Hn. eauto.
  - rewrite Hs' in Hnd. apply NoDup_cons in Hnd as [Hn _]. destruct Hn. eauto.
  - apply IH; try done. destruct (child_system x); [by apply NoDup_cons in Hnd as [_ ?]|done].
Qed.

(** In an image index that passes [validate_for], [find_manifest_for_system] finds a child
    only if it is for the requested system, and then it is the only such child, so the platform
    check of the index client cannot fail; it finds every child that names the system the way
    this program writes it, by the canonical platform or by the canonical annotation. *)
Theorem find_manifest_exact (index : OciImageIndex) (limits : OciReadLimits) (target : list N) (s : SystemArch)
    (Hv : OciImageIndex_validate_for index limits target = Ok ()) (Hs : SystemArch_is_known s = true) :
  (∀ d, find_manifest_for_system index s = Some d →
     d ∈ oi_manifests index ∧ child_system d = Some s ∧ od_media_type d = OCI_IMAGE_MANIFEST_MEDIA_TYPE ∧
     od_size d ≤ max_manifest_bytes limits ∧
     ∀ d', d' ∈ oi_manifests index → child_system d' = Some s → d' = d) ∧
  (∀ d, d ∈ oi_manifests index →
     od_platform d = Some (OciPlatform_from_system s) ∨
     annotation_of (od_annotations d) SYSTEM_KEY = Some (SystemArch_as_str s) →
     find_manifest_for_system index s = Some d).
Proof.
  apply OciImageIndex_validate_ok in Hv as (_ & _ & _ & Hall & Hnd). rewrite Forall_forall in Hall.
  assert (Hfind : ∀ d, find_manifest_for_system index s = Some d →
    d ∈ oi_manifests index ∧ is_manifest_for s d = true).
  { unfold find_manifest_for_system. intros d. destruct (list_find _ _) as [[i m]|] eqn:Hf; [|done].
    intros [= <-]. apply list_find_Some in Hf as (Hi & Hm & _). split; [by eapply list_elem_of_lookup_2|done]. }
  split.
  - intros d [Hin Hm]%Hfind. pose proof (Hall d Hin) as Hd.
    pose proof (is_manifest_for_sound _ _ _ Hs Hd Hm) as Hsd. destruct Hd as (_ & ? & ? & _).
    split_and!; try done. intros d' Hd' Hs'. by eapply child_unique.
  - intros d Hd Hc. assert (Hm : is_manifest_for s d = true).
    { unfold is_manifest_for. destruct Hc as [->| ->]; [by rewrite bool_decide_eq_true_2|].
      destruct (match od_platform d with Some _ => _ | None => _ end); [done|]. by rewrite bool_decide_eq_true_2. }
    destruct (find_manifest_for_system index s) as [d'|] eqn:Hf.
    + destruct (Hfind d' eq_refl) as [Hin' Hm']. f_equal. eapply (child_unique (oi_manifests index) d' d s); try done;
        by eapply is_manifest_for_sound; [..|apply Hall|].
    + unfold find_manifest_for_system in Hf. apply fmap_None, list_find_None in Hf.
      rewrite Forall_forall in Hf. by destruct (Hf d Hd).
Qed.

(** ** Facts: root manifests *)

Lemma validate_v8_annotations_ok ann s m target u :
  validate_v8_annotations ann s m target = Ok u ↔
  SystemArch_is_known s = true ∧ SystemArch_from <$> ann !! SYSTEM_KEY = Some s ∧
  ann !! SCHEMA_KEY = Some (lit "8") ∧ ann !! MERKLE_ROOT_KEY = Some m ∧ is_sha256 m = true.
Proof.
  destruct u. unfold validate_v8_annotations. rewrite ContentDigest_parse_is_sha256.
  assert (Hsys : (s' ← SystemArch_from <$> ann !! SYSTEM_KEY; if SystemArch_is_known s' then Some s' else None) = Some s
    ↔ SystemArch_is_known s = true ∧ SystemArch_from <$> ann !! SYSTEM_KEY = Some s).
  { destruct (SystemArch_from <$> ann !! SYSTEM_KEY) as [s'|]; simpl; [|naive_solver].
    destruct (SystemArch_is_known s') eqn:Hk; split; [by intros [= <-]|by intros [_ ?]|done|].
    intros [Hk' [= <-]]. congruence. }
  do 3 case_bool_decide; cbn [negb orb]; [|naive_solver..].
  destruct (is_sha256 m); cbn [map_err mbind outcome_bind]; naive_solver.
Qed.

(** The annotations [build_sharded_arch_index_manifest] writes on both levels. *)
Lemma built_annotations_ok (rest : annotations) p s m target u :
  validate_v8_annotations (<[SCHEMA_KEY := lit "8"]> (<[MERKLE_ROOT_KEY := sp_merkle_root p]>
    (<[SYSTEM_KEY := SystemArch_as_str (sp_system p)]> rest))) s m target = Ok u ↔
  SystemArch_is_known s = true ∧ SystemArch_from (SystemArch_as_str (sp_system p)) = s ∧
  m = sp_merkle_root p ∧ is_sha256 m = true.
Proof.
  rewrite validate_v8_annotations_ok. rewrite lookup_insert_ne by done.
  rewrite lookup_insert_ne by done. rewrite lookup_insert_eq, lookup_insert_eq, lookup_insert_ne by done.
  rewrite lookup_insert_eq. simpl. naive_solver.
Qed.

(** What the builder writes passes the checks, and the layer it is read back as. *)
Section built.
Context (p : ShardedArchIndexManifestParams) (now : list N) (limits : OciReadLimits) (target : list N).
Context (Hs : SystemArch_is_known (sp_system p) = true) (Hm : is_sha256 (sp_merkle_root p) = true)
  (Hr : is_sha256 (sp_root_blob_digest p) = true) (Hc : is_sha256 (sp_config_digest p) = true)
  (Hrs : sp_root_blob_size p ≤ max_buffered_blob_bytes limits)
  (Hcs : sp_config_size p ≤ max_buffered_blob_bytes limits) (Hl : 1 ≤ max_manifest_layers limits).
Let built := build_sharded_arch_index_manifest p now.

Lemma built_manifest_valid : OciImageManifest_validate_for built limits target = Ok ().
Proof.
  unfold OciImageManifest_validate_for, built, build_sharded_arch_index_manifest.
  cbn [om_schema_version om_media_type om_layers om_config N.eqb Pos.eqb negb].
  rewrite bool_decide_eq_true_2 by done. cbn [negb]. unfold usize_len. cbn [length].
  destruct (N.ltb_spec (max_manifest_layers limits) (N.of_nat 1)); [lia|].
  apply bind_ok. exists (). split; [by apply OciDescriptor_validate_ok|]. cbn [od_media_type].
  rewrite bool_decide_eq_true_2 by done. cbn [negb]. apply for_each_ok. constructor; [|constructor].
  by apply OciDescriptor_validate_ok.
Qed.

Lemma built_root_layer : ∃ layer, om_layers built = [layer] ∧
  validate_schema_v8_root built (sp_system p) (sp_merkle_root p) limits target = Ok layer.
Proof.
  unfold validate_schema_v8_root. rewrite built_manifest_valid. cbn [mbind outcome_bind].
  eexists. split; [reflexivity|]. unfold built, build_sharded_arch_index_manifest.
  cbn [om_layers om_annotations ok_or mbind outcome_bind od_media_type od_annotations].
  apply bind_ok. exists (). split; [apply built_annotations_ok; by rewrite from_as_str|].
  rewrite bool_decide_eq_true_2 by done. cbn [negb]. rewrite bool_decide_eq_true_2.
  2:{ unfold platform_system. simpl. by rewrite to_system_from_system. }
  cbn [negb]. apply bind_ok. exists (). split; [|done].
  rewrite <-(insert_empty (M := gmap (list N))). apply built_annotations_ok. by rewrite from_as_str.
Qed.
End built.

(** The root manifest this program builds is read back: [validate_schema_v8_root] accepts it
    for the system and Merkle root it was built from, returning the layer with the digest and the
    size of the root blob, and rejects it for every other system or root. *)
Theorem built_root_manifest_accepted (p : ShardedArchIndexManifestParams) (now : list N)
    (limits : OciReadLimits) (target : list N) (s : SystemArch) (m : list N)
    (Hs : SystemArch_is_known (sp_system p) = true) (Hm : is_sha256 (sp_merkle_root p) = true)
    (Hr : is_sha256 (sp_root_blob_digest p) = true) (Hc : is_sha256 (sp_config_digest p) = true)
    (Hrs : sp_root_blob_size p ≤ max_buffered_blob_bytes limits)
    (Hcs : sp_config_size p ≤ max_buffered_blob_bytes limits) (Hl : 1 ≤ max_manifest_layers limits) :
  (∃ layer, validate_schema_v8_root (build_sharded_arch_index_manifest p now) (sp_system p)
       (sp_merkle_root p) limits target = Ok layer ∧
     od_digest layer = sp_root_blob_digest p ∧ od_size layer = sp_root_blob_size p) ∧
  (is_ok (validate_schema_v8_root (build_sharded_arch_index_manifest p now) s m limits target) = true →
   s = sp_system p ∧ m = sp_merkle_root p).
Proof.
  split.
  - destruct (built_root_layer p now limits target) as (layer & Hlayer & Hok); [done..|].
    exists layer. injection Hlayer as <-. done.
  - unfold validate_schema_v8_root. rewrite built_manifest_valid by done. cbn [mbind outcome_bind].
    unfold build_sharded_arch_index_manifest. cbn [om_layers om_annotations ok_or mbind outcome_bind].
    destruct (validate_v8_annotations _ s m target) as [u| |] eqn:Ha; [|done..]. intros _.
    apply built_annotations_ok in Ha as (_ & Hs' & -> & _). by rewrite from_as_str in Hs'.
Qed.

(** What the codec encodes it decodes: a value compressed to a frame decodes under either
    supported media type to the same value with the length of its JSON, when that length is
    within the limit, and to [OutputLimitExceeded] when it is not; any other media type is
    rejected before the frame is read. *)
Theorem codec_roundtrip {T : Type} `{Zstd} `{ZstdEncoder} `{!Serde T} `{!SerdeOk T} `{!ZstdRoundTrip}
    (data : T) (level : Z) (frame json media_type : list N) (max : N)
    (Henc : encode_zstd data level = Ok frame) (Hjson : to_json data = Ok json) (Hmax : max + 1 < u64_bound) :
  decode_zstd from_json_slice frame media_type max =
    if bool_decide (media_type = ROOT_INDEX_V8_ZSTD) || bool_decide (media_type = SHARD_DATA_V8_ZSTD) then
      if usize_len (utf8 json) <=? max
      then Ok {| di_value := data; di_uncompressed_size := usize_len (utf8 json) |}
      else Err (OciCompression (OutputLimitExceeded max (max + 1)))
    else Err (UnsupportedMediaType media_type).
Proof.
  unfold encode_zstd in Henc. rewrite Hjson in Henc. cbn [map_err mbind outcome_bind] in Henc.
  apply map_err_ok, zstd_roundtrip in Henc as (Hmagic & decoder & Hopen & Hread).
  unfold decode_zstd, CacheLayerMediaType_parse, decompress_limited.
  assert (Hne : is_empty frame = false) by (by destruct frame).
  rewrite Hne, Hmagic, Hopen. cbn [negb ensure mbind outcome_bind].
  unfold saturating_add64. rewrite N.min_l by lia. rewrite Hread.
  assert (Hlen : usize_len (take (N.to_nat (max + 1)) (utf8 json)) = N.min (max + 1) (usize_len (utf8 json))).
  { unfold usize_len. rewrite length_take. lia. }
  destruct (N.leb_spec (usize_len (utf8 json)) max) as [Hle|Hgt].
  - rewrite take_ge by (unfold usize_len in Hle; lia).
    assert (Hlt : max <? usize_len (utf8 json) = false) by (by apply N.ltb_ge).
    destruct (serde_roundtrip data json Hjson) as [_ Hs].
    do 2 case_bool_decide; cbn [orb ok_or mbind outcome_bind map_err]; rewrite ?Hlt; cbn [map_err mbind outcome_bind];
      rewrite ?Hs; done.
  - assert (Hlt : max <? usize_len (take (N.to_nat (max + 1)) (utf8 json)) = true).
    { apply N.ltb_lt. rewrite Hlen. lia. }
    do 2 case_bool_decide; cbn [orb ok_or mbind outcome_bind map_err]; rewrite ?Hlt, ?Hlen; cbn [map_err mbind outcome_bind];
      try done; do 3 f_equal; lia.
Qed.

(** ** Witnesses *)

Definition sample_child (p : OciPlatform) : OciDescriptor := {|
  od_media_type := OCI_IMAGE_MANIFEST_MEDIA_TYPE; od_digest := sample_digest; od_size := 400;
  od_platform := Some p; od_annotations := None |}.

Lemma find_manifest_exact_witness :
  find_manifest_for_system (build_image_index
    [sample_child (OciPlatform_from_system X86_64Linux); sample_child (OciPlatform_from_system Aarch64Linux)]
    (lit "cache") (lit "now")) Aarch64Linux = Some (sample_child (OciPlatform_from_system Aarch64Linux)).
Proof.
  apply (find_manifest_exact _ OciReadLimits_default (lit "latest") Aarch64Linux).
  - by vm_compute.
  - done.
  - right. left.
  - by left.
Defined.

(** A child written by another tool, with the variant Docker gives to 64-bit ARM, is validated as a
    child for [aarch64-linux] but not found for it. *)
Lemma variant_child_not_found :
  let index := build_image_index
    [sample_child (OciPlatform_with_variant (OciPlatform_new (lit "linux") (lit "arm64")) (lit "v8"))] [] [] in
  OciImageIndex_validate_for index OciReadLimits_default (lit "latest") = Ok () ∧
  omap child_system (oi_manifests index) = [Aarch64Linux] ∧
  find_manifest_for_system index Aarch64Linux = None.
Proof. by vm_compute. Qed.

Definition sample_params : ShardedArchIndexManifestParams := {|
  sp_root_blob_digest := sample_digest; sp_root_blob_size := 1000; sp_config_digest := sample_digest;
  sp_config_size := EMPTY_CONFIG_SIZE; sp_system := X86_64Linux; sp_merkle_root := sample_digest |}.

Lemma built_root_manifest_accepted_witness :
  ∃ layer, validate_schema_v8_root (build_sharded_arch_index_manifest sample_params (lit "now")) X86_64Linux
    sample_digest OciReadLimits_default (lit "latest") = Ok layer ∧
  od_digest layer = sample_digest ∧ od_size layer = 1000.
Proof.
  destruct (built_root_manifest_accepted sample_params (lit "now") OciReadLimits_default (lit "latest")
    X86_64Linux sample_digest) as [Hl _]; [by vm_compute..|exact Hl].
Defined.

(** A frame of the sample decoder is the magic number and the data. *)
Definition sample_encoder : ZstdEncoder := {| zstd_compress := λ data _, Ok (ZSTD_MAGIC ++ data) |}.
Lemma sample_zstd_roundtrip : @ZstdRoundTrip sample_zstd sample_encoder.
Proof. intros data frame level [= <-]. split; [by vm_compute|]. by exists data. Qed.

Definition bool_from_json (s : list N) : outcome (list N) bool :=
  if bool_decide (s = lit "true") then Ok true else if bool_decide (s = lit "false") then Ok false else Err s.
Definition bool_serde : Serde bool := {|
  to_json := λ b : bool, Ok (if b then lit "true" else lit "false");
  from_json_str := bool_from_json; from_json_slice := bool_from_json |}.
Lemma bool_serde_ok : @SerdeOk bool bool_serde.
Proof. intros [] s [= <-]; split; by vm_compute. Qed.

Lemma codec_roundtrip_witness :
  let frame := ZSTD_MAGIC ++ lit "false" in
  @decode_zstd sample_zstd bool (@from_json_slice bool bool_serde) frame SHARD_DATA_V8_ZSTD 5
    = Ok {| di_value := false; di_uncompressed_size := 5 |} ∧
  @decode_zstd sample_zstd bool (@from_json_slice bool bool_serde) frame SHARD_DATA_V8_ZSTD 4
    = Err (OciCompression (OutputLimitExceeded 4 5)).
Proof.
  intros frame. split.
  - apply (@codec_roundtrip bool sample_zstd sample_encoder bool_serde bool_serde_ok sample_zstd_roundtrip
      false 3 frame (lit "false") SHARD_DATA_V8_ZSTD 5); by vm_compute.
  - apply (@codec_roundtrip bool sample_zstd sample_encoder bool_serde bool_serde_ok sample_zstd_roundtrip
      false 3 frame (lit "false") SHARD_DATA_V8_ZSTD 4); by vm_compute.
Defined.
