(* ===== verification/ManifestClient.v ===== *)
(** * ManifestClient: manifests and tags over the wire
    (crates/nixcache-oci/src/client/manifest.rs, the descriptor read of
    client/blob.rs and [push_zstd] of client/upload.rs)

    The permits of [acquire_index_read] only limit how many reads run at a time
    and are left out. *)

From S2P Require Import Prelude Machine Str Text Error Types Sharding Index Filter OciError Transport Endpoint Auth Request Driver Upload Manifest.

Local Open Scope N_scope.

(** ** Text *)

(** [str::contains] of a string. *)
Fixpoint contains_str (p s : list N) : bool :=
  starts_with p s || match s with [] => false | _ :: s => contains_str p s end.

(** [trim_start_matches] of a non-empty string; each round drops at least a character. *)
Fixpoint trim_start_matches (fuel : nat) (p s : list N) : list N :=
  match fuel with
  | O => s
  | S fuel => match strip_prefix p s with Some s => trim_start_matches fuel p s | None => s end
  end.
Definition trim_char_start (c : N) (s : list N) : list N := drop_while (N.eqb c) s.
Definition trim_char_end (c : N) (s : list N) : list N := reverse (trim_char_start c (reverse s)).

(** [str::from_utf8]: the well-formed sequences of the Unicode standard, table 3-7. *)
Definition utf8_tail (b : N) : bool := in_range 0x80 0xBF b.
Definition from_utf8_char (s : list N) : option (N * list N) :=
  match s with
  | [] => None
  | b0 :: s =>
      if b0 <? 0x80 then Some (b0, s)
      else match s with
      | [] => None
      | b1 :: s =>
          if in_range 0xC2 0xDF b0 then
            if utf8_tail b1 then Some ((b0 - 0xC0) * 64 + (b1 - 0x80), s) else None
          else match s with
          | [] => None
          | b2 :: s =>
              if in_range 0xE0 0xEF b0 then
                if in_range (if b0 =? 0xE0 then 0xA0 else 0x80) (if b0 =? 0xED then 0x9F else 0xBF) b1 && utf8_tail b2
                then Some ((b0 - 0xE0) * 4096 + (b1 - 0x80) * 64 + (b2 - 0x80), s) else None
              else match s with
              | [] => None
              | b3 :: s =>
                  if in_range 0xF0 0xF4 b0
                     && in_range (if b0 =? 0xF0 then 0x90 else 0x80) (if b0 =? 0xF4 then 0x8F else 0xBF) b1
                     && utf8_tail b2 && utf8_tail b3
                  then Some ((b0 - 0xF0) * 262144 + (b1 - 0x80) * 4096 + (b2 - 0x80) * 64 + (b3 - 0x80), s)
                  else None
              end
          end
      end
  end.
Fixpoint from_utf8_fuel (fuel : nat) (s : list N) : option (list N) :=
  match s, fuel with
  | [], _ => Some []
  | _, O => None
  | _, S fuel => '(c, s) ← from_utf8_char s; t ← from_utf8_fuel fuel s; Some (c :: t)
  end.
Definition from_utf8 (s : list N) : option (list N) := from_utf8_fuel (length s) s.

Lemma split64 q r : r < 64 → (q * 64 + r) / 64 = q ∧ (q * 64 + r) mod 64 = r.
Proof.
  intros Hr. split; [symmetry; apply (N.div_unique _ 64 q r)|symmetry; apply (N.mod_unique _ 64 q r)]; lia.
Qed.

Lemma utf8_char2 x y : 2 ≤ x < 32 → y < 64 → utf8_char (x * 64 + y) = [0xC0 + x; 0x80 + y].
Proof.
  intros Hx Hy. destruct (split64 x y Hy) as [Hd Hm]. unfold utf8_char. rewrite Hd, Hm.
  destruct (N.ltb_spec (x * 64 + y) 0x80); [lia|]. by destruct (N.ltb_spec (x * 64 + y) 0x800); [|lia].
Qed.
Lemma utf8_char3 x y z : x < 16 → y < 64 → z < 64 → 0x800 ≤ (x * 64 + y) * 64 + z →
  utf8_char ((x * 64 + y) * 64 + z) = [0xE0 + x; 0x80 + y; 0x80 + z].
Proof.
  intros Hx Hy Hz Hc. destruct (split64 (x * 64 + y) z Hz) as [Hd Hm]. destruct (split64 x y Hy) as [Hd1 Hm1].
  set (c := (x * 64 + y) * 64 + z) in *. assert (Hd2 : c / 4096 = x).
  { change 4096 with (64 * 64). by rewrite <-N.Div0.div_div, Hd. }
  unfold utf8_char. rewrite Hd2, Hd, Hm, Hm1.
  destruct (N.ltb_spec c 0x80); [lia|]. destruct (N.ltb_spec c 0x800); [lia|].
  by destruct (N.ltb_spec c 0x10000); [|lia].
Qed.
Lemma utf8_char4 x y z t : y < 64 → z < 64 → t < 64 → 0x10000 ≤ ((x * 64 + y) * 64 + z) * 64 + t →
  utf8_char (((x * 64 + y) * 64 + z) * 64 + t) = [0xF0 + x; 0x80 + y; 0x80 + z; 0x80 + t].
Proof.
  intros Hy Hz Ht Hc. destruct (split64 ((x * 64 + y) * 64 + z) t Ht) as [Hd Hm].
  destruct (split64 (x * 64 + y) z Hz) as [Hd1 Hm1]. destruct (split64 x y Hy) as [Hd2 Hm2].
  set (c := ((x * 64 + y) * 64 + z) * 64 + t) in *. assert (Hd3 : c / 4096 = x * 64 + y).
  { change 4096 with (64 * 64). by rewrite <-N.Div0.div_div, Hd. }
  assert (Hd4 : c / 262144 = x).
  { change 262144 with (4096 * 64). by rewrite <-N.Div0.div_div, Hd3. }
  unfold utf8_char. rewrite Hd4, Hd3, Hd, Hm, Hm1, Hm2.
  destruct (N.ltb_spec c 0x80); [lia|]. destruct (N.ltb_spec c 0x800); [lia|].
  by destruct (N.ltb_spec c 0x10000); [lia|].
Qed.

Lemma in_range_spec lo hi c : in_range lo hi c = true → lo ≤ c ≤ hi.
Proof. unfold in_range. rewrite andb_true_iff, !N.leb_le. done. Qed.

Lemma from_utf8_char_sound s c r : from_utf8_char s = Some (c, r) → utf8_char c ++ r = s.
Proof.
  unfold from_utf8_char, utf8_tail.
  destruct s as [|b0 s]; [done|]. destruct (N.ltb_spec b0 0x80) as [Hb|Hb].
  { intros [= <- <-]. unfold utf8_char. by destruct (N.ltb_spec b0 0x80); [|lia]. }
  destruct s as [|b1 s]; [done|]. destruct (in_range 0xC2 0xDF b0) eqn:H2.
  { destruct (in_range 0x80 0xBF b1) eqn:Hb1; [|done]. intros [= <- <-]. apply in_range_spec in H2, Hb1.
    rewrite utf8_char2 by lia. simpl. do 2 f_equal; lia. }
  destruct s as [|b2 s]; [done|]. destruct (in_range 0xE0 0xEF b0) eqn:H3.
  { destruct (in_range (if b0 =? 0xE0 then _ else _) _ b1) eqn:Hb1; [|done].
    destruct (in_range 0x80 0xBF b2) eqn:Hb2; [|done]. intros [= <- <-]. apply in_range_spec in H3, Hb1, Hb2.
    replace ((b0 - 0xE0) * 4096 + (b1 - 0x80) * 64 + (b2 - 0x80))
      with (((b0 - 0xE0) * 64 + (b1 - 0x80)) * 64 + (b2 - 0x80)) by lia.
    destruct (N.eqb_spec b0 0xE0), (N.eqb_spec b0 0xED); rewrite utf8_char3 by lia; simpl; repeat f_equal; lia. }
  destruct s as [|b3 s]; [done|]. destruct (in_range 0xF0 0xF4 b0) eqn:H4; [|done]. cbn [andb].
  destruct (in_range (if b0 =? 0xF0 then _ else _) _ b1) eqn:Hb1; [|done].
  destruct (in_range 0x80 0xBF b2) eqn:Hb2; [|done]. destruct (in_range 0x80 0xBF b3) eqn:Hb3; [|done].
  intros [= <- <-]. apply in_range_spec in H4, Hb1, Hb2, Hb3.
  replace ((b0 - 0xF0) * 262144 + (b1 - 0x80) * 4096 + (b2 - 0x80) * 64 + (b3 - 0x80))
    with ((((b0 - 0xF0) * 64 + (b1 - 0x80)) * 64 + (b2 - 0x80)) * 64 + (b3 - 0x80)) by lia.
  destruct (N.eqb_spec b0 0xF0), (N.eqb_spec b0 0xF4); rewrite utf8_char4 by lia; simpl; repeat f_equal; lia.
Qed.

Lemma from_utf8_sound bytes s : from_utf8 bytes = Some s → utf8 s = bytes.
Proof.
  unfold from_utf8. generalize (length bytes) as fuel. intros fuel. revert bytes s.
  induction fuel as [|fuel IH]; intros [|b bytes] s; cbn [from_utf8_fuel]; try (by intros [= <-]).
  destruct (from_utf8_char (b :: bytes)) as [[c r]|] eqn:Hc; [|done]. cbn [mbind option_bind].
  destruct (from_utf8_fuel fuel r) as [t|] eqn:Ht; [|done]. intros [= <-].
  rewrite utf8_cons, (IH _ _ Ht). by apply from_utf8_char_sound.
Qed.

(** ** Blobs by descriptor *)

Section client.
Context {W : Type} `{HttpHeaders} `{UriLib} `{!TransportOps W} `{!TokenOps W} `{Sha2} `{Build}.
Context `{Zstd} `{ZstdEncoder} `{SerdeErrors} `{OciFormat}.
Context `{!Serde OciImageIndex} `{!Serde OciImageManifest}.
Context (self : OciClient).

Definition blob_get_descriptor (descriptor : OciDescriptor) : IO W (list N) :=
  _ ← lift (OciDescriptor_validate_for descriptor (lit "blob descriptor")
              (max_buffered_blob_bytes (cl_limits self)));
  blob_get_verified self (od_digest descriptor) (Some (od_size descriptor)).

(** The pushed digest, the compressed size and the size of the JSON. *)
Definition push_zstd {T} `{!Serde T} (data : T) : IO W (ContentDigest * N * N) :=
  raw_json ← lift (map_err OciJson (to_json data));
  let uncompressed_size := usize_len (utf8 raw_json) in
  compressed_bytes ← lift (encode_zstd data DEFAULT_ZSTD_COMPRESSION_LEVEL);
  let compressed_size := usize_len compressed_bytes in
  pushed_digest ← push_bytes self compressed_bytes;
  mret (pushed_digest, compressed_size, uncompressed_size).

(** ** Manifests *)

Inductive ManifestCasCondition := CreateOnly | Match (digest : list N).
Record FetchedOciArtifact := { fa_manifest : OciArtifactManifest; fa_digest : list N }.
Record TagList := { tl_tags : list (list N); tl_pages_fetched : N }.

Definition get_with_expected_size (tag : list N) (expected_size : option N) : IO W (option (list N * list N)) :=
  _ ← match expected_size with
      | Some n => lift (ensure (negb (max_manifest_bytes (cl_limits self) <? n))
                    (SizeLimitExceeded tag (max_manifest_bytes (cl_limits self)) n))
      | None => mret tt
      end;
  let url := manifest_url (cl_endpoint self) (cl_repo self) tag in
  r ← request_get_with_auth_retry url (lit "get manifest") (max_manifest_bytes (cl_limits self));
  let '(status, response_headers, bytes) := r in
  if status =? 200 then
    request_digest ← (if starts_with (lit "sha256:") tag
                      then d ← lift (ContentDigest_parse tag); mret (Some d) else mret None);
    content_length ← lift (map_err OciTransport (parse_content_length response_headers));
    digest ← lift (verify_buffered_body url (cd_str <$> request_digest)
                     (header_get response_headers (lit "docker-content-digest")) expected_size content_length bytes);
    body ← lift (ok_or (InvalidUtf8Manifest (utf8_error bytes)) (from_utf8 bytes));
    mret (Some (body, cd_str digest))
  else if status =? 404 then mret None
  else lift (Err (ManifestFetchFailed status)).

Definition get_with_digest (tag : list N) : IO W (option (list N * list N)) := get_with_expected_size tag None.
Definition get_with_digest_and_size (reference : list N) (expected_size : N) : IO W (option (list N * list N)) :=
  get_with_expected_size reference (Some expected_size).
Definition manifest_get (tag : list N) : IO W (option (list N)) :=
  r ← get_with_digest tag; mret (fst <$> r).

(** The digest header, or else the entity tag, without quotes and weak marker. *)
Definition digest_or_etag (headers : HeaderMap) : option (list N) :=
  value ← match header_get headers (lit "docker-content-digest") with
          | Some v => Some v
          | None => header_get headers (lit "etag")
          end;
  value ← header_to_str value;
  let value := trim_char_end 34 (trim_char_start 34 value) in
  Some (trim_char_end 34 (trim_start_matches (length value) (lit "W/" ++ [34]) value)).

Definition manifest_head (tag : list N) : IO W (option (list N)) :=
  r ← request_head_with_auth_retry (manifest_url (cl_endpoint self) (cl_repo self) tag) (lit "head manifest");
  if r.1 =? 200 then mret (digest_or_etag r.2)
  else if r.1 =? 404 then mret None
  else lift (Err (ManifestFetchFailed r.1)).

(** The message of serde for an untagged enum is fixed. *)
Definition fetch_artifact (tag_or_digest : list N) : IO W (option FetchedOciArtifact) :=
  r ← get_with_digest tag_or_digest;
  match r with
  | None => mret None
  | Some (body, digest) =>
      manifest ← lift (map_err OciJson (artifact_from_str
        (lit "data did not match any variant of untagged enum OciArtifactManifest") body));
      _ ← lift (Artifact_validate_for manifest (cl_limits self) tag_or_digest);
      mret (Some {| fa_manifest := manifest; fa_digest := digest |})
  end.

Definition pushed (status : StatusCode) : outcome OciError unit :=
  if (status =? 200) || (status =? 201) || (status =? 202) then Ok tt else Err (ManifestPushFailed status).

Definition manifest_put (tag manifest : list N) : IO W unit :=
  _ ← (if contains_str EMPTY_CONFIG_DIGEST manifest then ensure_empty_config self else mret tt);
  let url := manifest_url (cl_endpoint self) (cl_repo self) tag in
  headers ← get_auth_headers;
  let headers := insert_static (lit "content-type") OCI_IMAGE_MANIFEST_MEDIA_TYPE headers in
  status ← request_put_bytes_with_auth_retry url headers (utf8 manifest) (lit "push manifest");
  lift (pushed status).

Definition ensure_cas_supported (tag : list N) : outcome OciError unit :=
  ensure (bool_decide (manifest_cas_support (driver_capabilities (cl_driver self)) = IfMatch))
    (CasUnsupported tag (cl_driver self)).

(** The headers with the condition, and the expected digest. *)
Definition insert_cas_condition (headers : HeaderMap) (condition : ManifestCasCondition)
    : outcome OciError (HeaderMap * option (list N)) :=
  match condition with
  | CreateOnly => Ok (insert_static (lit "if-none-match") (lit "*") headers, None)
  | Match expected =>
      value ← ok_or (OciTransport (HeaderParse (lit "If-Match"))) (header_value_from_str expected);
      Ok (header_insert (lit "if-match") value headers, Some expected)
  end.

(** The end of both conditional puts: the request, and what its status means. *)
Definition put_conditionally (url tag : list N) (headers : HeaderMap) (expected : option (list N))
    (body operation : list N) : IO W unit :=
  status ← request_put_bytes_with_auth_retry url headers body operation;
  if (status =? 412) || (status =? 409) then lift (Err (CasPreconditionFailed tag expected None))
  else lift (pushed status).

Definition manifest_put_cas (tag manifest : list N) (condition : ManifestCasCondition) : IO W unit :=
  _ ← lift (ensure_cas_supported tag);
  _ ← (if contains_str EMPTY_CONFIG_DIGEST manifest then ensure_empty_config self else mret tt);
  let url := manifest_url (cl_endpoint self) (cl_repo self) tag in
  headers ← get_auth_headers;
  let headers := insert_static (lit "content-type") OCI_IMAGE_MANIFEST_MEDIA_TYPE headers in
  r ← lift (insert_cas_condition headers condition);
  put_conditionally url tag r.1 r.2 (utf8 manifest) (lit "push manifest with CAS").

(** ** Tags *)

Definition PAGE_SIZE : N := 100.
Definition MAX_TAG_PAGES : N := 10000.
Definition MAX_TAGS : N := 2000000.

Record TagState := { ts_all_tags : list (list N); ts_last_tag : option (list N); ts_pages_fetched : N }.

Definition pagination_failed (st : TagState) (details : list N) : OciError :=
  PaginationFailed (cl_repo self) (ts_last_tag st) (ts_pages_fetched st) (usize_len (ts_all_tags st)) details.

(** A page of the listing: the request and the [tags] of its body, [null] for none. *)
Definition fetch_tag_page `{!Serde (option (list (list N)))} (st : TagState) : IO W (list (list N)) :=
  let base_url := tags_url (cl_endpoint self) (cl_repo self) in
  let url := match ts_last_tag st with
             | Some cursor => with_last_cursor base_url cursor
             | None => base_url ++ lit "?n=100"
             end in
  r ← io_map_err (λ error, pagination_failed st (display_oci_error error))
        (request_get_with_auth_retry url (lit "list tags") (max_manifest_bytes (cl_limits self)));
  let '(status, _, body) := r in
  if negb (is_success status)
  then lift (Err (pagination_failed st (lit "HTTP " ++ fmt_status status ++ lit " while requesting " ++ url)))
  else
    tags ← lift (map_err (pagination_failed st) (from_json_slice body));
    mret (default [] tags).

(** What a page does to the listing: [inl] to ask for the next page, [inr] with
    the result. *)
Definition absorb_page (st : TagState) (tags : list (list N)) : outcome OciError (TagState + TagList) :=
  let st := {| ts_all_tags := ts_all_tags st; ts_last_tag := ts_last_tag st;
               ts_pages_fetched := ts_pages_fetched st + 1 |} in
  if usize_len tags =? 0 then
    match ts_last_tag st with
    | None => Ok (inr {| tl_tags := ts_all_tags st; tl_pages_fetched := ts_pages_fetched st |})
    | Some _ => Err (pagination_failed st (lit "registry returned an empty page after a full page"))
    end
  else
    let count := usize_len tags in
    let new_last := last tags in
    if MAX_TAGS <? N.min (usize_len (ts_all_tags st) + count) (usize_bound - 1)
    then Err (pagination_failed st (lit "tag pagination exceeded the " ++ show_N MAX_TAGS ++ lit "-tag limit"))
    else
      let previous_count := usize_len (ts_all_tags st) in
      let st := {| ts_all_tags := dedup (sorted_strings (ts_all_tags st ++ tags)); ts_last_tag := ts_last_tag st;
                   ts_pages_fetched := ts_pages_fetched st |} in
      if match ts_last_tag st with Some _ => usize_len (ts_all_tags st) =? previous_count | None => false end
      then Err (pagination_failed st (lit "registry returned a duplicate page with no new tags"))
      else if count <? PAGE_SIZE
      then Ok (inr {| tl_tags := ts_all_tags st; tl_pages_fetched := ts_pages_fetched st |})
      else if bool_decide (new_last = ts_last_tag st) || match new_last with None => true | Some _ => false end
      then Err (pagination_failed st (lit "registry returned a non-advancing pagination cursor"))
      else Ok (inl {| ts_all_tags := ts_all_tags st; ts_last_tag := new_last;
                      ts_pages_fetched := ts_pages_fetched st |}).

(** The loop; [None] is fuel used up. *)
Fixpoint list_tags_loop `{!Serde (option (list (list N)))} (fuel : nat) (st : TagState) : IO W (option TagList) :=
  match fuel with
  | O => mret None
  | S fuel =>
      if MAX_TAG_PAGES <=? ts_pages_fetched st
      then lift (Err (pagination_failed st (lit "tag pagination exceeded the " ++ show_N MAX_TAG_PAGES
                                            ++ lit "-page limit")))
      else
        tags ← fetch_tag_page st;
        next ← lift (absorb_page st tags);
        match next with
        | inl st => list_tags_loop fuel st
        | inr result => mret (Some result)
        end
  end.
(** One round per page, and one to notice the limit. *)
Definition list_tags_fuel : nat := N.to_nat (MAX_TAG_PAGES + 1).
Definition list_tags `{!Serde (option (list (list N)))} : IO W (option TagList) :=
  list_tags_loop list_tags_fuel {| ts_all_tags := []; ts_last_tag := None; ts_pages_fetched := 0 |}.
End client.

(** ** Facts: reads are authenticated *)

Section authentic.
Context {W : Type} `{HttpHeaders} `{UriLib} `{!TransportOps W} `{!TokenOps W} `{Sha2Ok} `{Build}.
Context `{SerdeErrors}.
Context (self : OciClient).

Lemma blob_get_verified_authentic digest size (w w' : W) bytes :
  blob_get_verified self digest size w = (w', Ok bytes) →
  digest = cd_str (ContentDigest_from_bytes bytes) ∧ ∀ n, size = Some n → n = usize_len bytes.
Proof.
  intros Hg. unfold blob_get_verified in Hg. apply io_bind_ok in Hg as (w1 & d & _ & Hg).
  apply io_bind_ok in Hg as (w2 & [[status headers] body] & _ & Hg).
  destruct (is_success status); [|by case_match].
  apply io_bind_ok in Hg as (w3 & cl & _ & Hg). apply io_bind_ok in Hg as (w4 & d' & Hv & Hg).
  injection Hg as _ ->. apply lift_ok in Hv as [_ Hv].
  apply verify_buffered_body_spec in Hv as (-> & Hn & _ & He). split; [by apply He|]. naive_solver.
Qed.

Lemma blob_get_descriptor_authentic d (w w' : W) bytes :
  blob_get_descriptor self d w = (w', Ok bytes) →
  od_digest d = cd_str (ContentDigest_from_bytes bytes) ∧ od_size d = usize_len bytes ∧
  usize_len bytes ≤ max_buffered_blob_bytes (cl_limits self).
Proof.
  intros Hg. unfold blob_get_descriptor in Hg. apply io_bind_ok in Hg as (w1 & u & Hv & Hg).
  apply lift_ok in Hv as [-> (_ & Hsz & _)%OciDescriptor_validate_ok].
  apply blob_get_verified_authentic in Hg as [Hd Hn]. specialize (Hn _ eq_refl). split_and!; [done..|]. lia.
Qed.

Lemma get_with_expected_size_authentic tag size (w w' : W) body digest :
  get_with_expected_size self tag size w = (w', Ok (Some (body, digest))) →
  digest = cd_str (ContentDigest_from_bytes (utf8 body)) ∧
  (starts_with (lit "sha256:") tag = true → digest = tag) ∧
  ∀ n, size = Some n → usize_len (utf8 body) = n ∧ n ≤ max_manifest_bytes (cl_limits self).
Proof.
  intros Hg. unfold get_with_expected_size in Hg. apply io_bind_ok in Hg as (w1 & u & Hlim & Hg).
  apply io_bind_ok in Hg as (w2 & [[status headers] bytes] & _ & Hg).
  destruct (status =? 200); [|by case_match].
  apply io_bind_ok in Hg as (w3 & rd & Hrd & Hg). apply io_bind_ok in Hg as (w4 & cl & _ & Hg).
  apply io_bind_ok in Hg as (w5 & d & Hv & Hg). apply lift_ok in Hv as [_ Hv].
  apply io_bind_ok in Hg as (w6 & b & Hb & Hg). apply lift_ok in Hb as [_ Hb%ok_or_ok%from_utf8_sound].
  injection Hg as _ -> <-. subst bytes. apply verify_buffered_body_spec in Hv as (-> & Hn & _ & He).
  split; [done|]. split.
  - intros Ht. rewrite Ht in Hrd. apply io_bind_ok in Hrd as (w7 & d & Hd & [= _ <-]).
    apply lift_ok in Hd as [_ Hd]. rewrite ContentDigest_parse_is_sha256 in Hd. case_match; [|done].
    injection Hd as <-. symmetry. by apply He.
  - intros n ->. apply lift_ok in Hlim as [_ Hlim%ensure_ok]. rewrite negb_true_iff, N.ltb_ge in Hlim.
    split; [|done]. symmetry. apply Hn. by left.
Qed.
End authentic.

(** ** Facts: listing tags *)

Section tags.
Context {W : Type} `{HttpHeaders} `{UriLib} `{!TransportOps W} `{!TokenOps W} `{Build}.
Context `{OciFormat} `{!Serde (option (list (list N)))}.
Context (self : OciClient).

Lemma absorb_page_pages st tags next : absorb_page self st tags = Ok next →
  match next with inl st' => ts_pages_fetched st' | inr r => tl_pages_fetched r end = ts_pages_fetched st + 1.
Proof. unfold absorb_page. intros Ha. repeat (case_match; try done); by injection Ha as <-. Qed.

Lemma list_tags_loop_total fuel st (w : W) :
  MAX_TAG_PAGES < ts_pages_fetched st + N.of_nat fuel → (0 < fuel)%nat → (list_tags_loop self fuel st w).2 ≠ Ok None.
Proof.
  revert st w. induction fuel as [|fuel IH]; intros st w Hf Hpos; cbn [list_tags_loop]; [lia|].
  destruct (N.leb_spec MAX_TAG_PAGES (ts_pages_fetched st)); [done|].
  unfold mbind, io_bind. destruct (fetch_tag_page _ st w) as [w1 [tags|e|]]; try done.
  unfold lift. destruct (absorb_page self st tags) as [next|e|] eqn:Ha; try done.
  apply absorb_page_pages in Ha. destruct next as [st'|r]; [|done]. apply IH; lia.
Qed.

(** What holds of the listing between pages. *)
Definition tags_sorted (tags : list (list N)) : Prop :=
  StronglySorted str_le tags ∧ NoDup tags ∧ usize_len tags ≤ MAX_TAGS.

Lemma length_dedup_le {A} `{EqDecision A} (l : list A) : (length (dedup l) ≤ length l)%nat.
Proof.
  induction l as [|x [|y l] IH]; [done..|].
  change (dedup (x :: y :: l)) with (if decide (x = y) then dedup (y :: l) else x :: dedup (y :: l)).
  case_decide; simpl in *; lia.
Qed.

Lemma absorb_page_sorted st tags next : MAX_TAGS < usize_bound - 1 →
  tags_sorted (ts_all_tags st) → absorb_page self st tags = Ok next →
  tags_sorted (match next with inl st' => ts_all_tags st' | inr r => tl_tags r end).
Proof.
  intros Hmax Hs. unfold absorb_page. cbn [ts_all_tags ts_last_tag ts_pages_fetched].
  destruct (usize_len tags =? 0); [case_match; [done|by intros [= <-]]|].
  destruct (N.ltb_spec MAX_TAGS (N.min (usize_len (ts_all_tags st) + usize_len tags) (usize_bound - 1))) as [|Hlen]; [done|].
  assert (Hnew : tags_sorted (dedup (sorted_strings (ts_all_tags st ++ tags)))).
  { destruct (dedup_strictly_sorted str_le (sorted_strings (ts_all_tags st ++ tags))) as [Hss Hnd].
    { apply StronglySorted_merge_sort; apply _. }
    split_and!; [done..|]. unfold usize_len in *.
    pose proof (length_dedup_le (sorted_strings (ts_all_tags st ++ tags))) as Hd.
    assert (Hms : length (sorted_strings (ts_all_tags st ++ tags)) = length (ts_all_tags st ++ tags)).
    { unfold sorted_strings. by rewrite merge_sort_Permutation. }
    rewrite length_app in Hms. lia. }
  intros Ha. repeat (case_match; try done); by injection Ha as <-.
Qed.

Lemma list_tags_loop_sorted fuel st (w w' : W) r : MAX_TAGS < usize_bound - 1 →
  tags_sorted (ts_all_tags st) → list_tags_loop self fuel st w = (w', Ok (Some r)) →
  tags_sorted (tl_tags r) ∧ tl_pages_fetched r ≤ MAX_TAG_PAGES.
Proof.
  intros Hmax. revert st w. induction fuel as [|fuel IH]; intros st w Hs; cbn [list_tags_loop]; [done|].
  destruct (N.leb_spec MAX_TAG_PAGES (ts_pages_fetched st)); [done|]. intros Hl.
  apply io_bind_ok in Hl as (w1 & tags & _ & Hl). apply io_bind_ok in Hl as (w2 & next & Ha & Hl).
  apply lift_ok in Ha as [-> Ha]. pose proof (absorb_page_pages _ _ _ Ha) as Hp.
  apply absorb_page_sorted in Ha; [|done..]. destruct next as [st'|r']; [by eapply IH|].
  injection Hl as _ <-. split; [done|]. lia.
Qed.
End tags.

(** Listing the tags ends: whatever the registry answers, [list_tags] returns after at most
    10,000 pages, never runs out of the rounds of the model, and what it returns is strictly
    sorted, without repetition, and within the limit on tags. *)
Theorem list_tags_bounded {W : Type} `{HttpHeaders} `{UriLib} `{!TransportOps W} `{!TokenOps W} `{Build}
    `{OciFormat} `{!Serde (option (list (list N)))} (self : OciClient) (w : W) :
  (list_tags self w).2 ≠ Ok None ∧
  ∀ r, (list_tags self w).2 = Ok (Some r) → 20 < usize_bits →
    StronglySorted str_le (tl_tags r) ∧ NoDup (tl_tags r) ∧ usize_len (tl_tags r) ≤ MAX_TAGS ∧
    tl_pages_fetched r ≤ MAX_TAG_PAGES.
Proof.
  split; [apply list_tags_loop_total; unfold list_tags_fuel, MAX_TAG_PAGES; simpl ts_pages_fetched; lia|]. intros r Hr Hbits.
  destruct (list_tags self w) as [w' o] eqn:Hl. simpl in Hr. subst o.
  apply list_tags_loop_sorted in Hl as [(? & ? & ?) ?]; [done| |].
  - unfold MAX_TAGS, usize_bound. assert (2 ^ 21 ≤ 2 ^ usize_bits) as Hle; [|lia]. apply N.pow_le_mono_r; lia.
  - split_and!; [constructor|constructor|done].
Qed.

(** *** Against a registry that lists its tags as the OCI specification says *)

(** The tags after a cursor, in lexical order. *)
Definition tags_after (cursor : option (list N)) (tags : list (list N)) : list (list N) :=
  match cursor with None => tags | Some c => filter (λ t, ¬ str_le t c) tags end.

(** The registry has a fixed set of tags, sorted; a successful page has the next 100 of them. *)
Class TagServer (W : Type) `{HttpHeaders} `{!TransportOps W} `{!TokenOps W}
    `{!Serde (option (list (list N)))} (self : OciClient) := {
  tags_of : W → list (list N);
  tg_sorted : ∀ w, StronglySorted str_le (tags_of w) ∧ NoDup (tags_of w);
  tg_cached : ∀ w, tags_of (tm_cached_token w).1 = tags_of w;
  tg_refresh : ∀ c w, tags_of (tm_refresh_token c w).1 = tags_of w;
  tg_get : ∀ url h n w, tags_of (tr_get url h n w).1 = tags_of w;
  tg_page : ∀ cursor h n w w' status headers body,
    tr_get (match cursor with
            | Some c => with_last_cursor (tags_url (cl_endpoint self) (cl_repo self)) c
            | None => tags_url (cl_endpoint self) (cl_repo self) ++ lit "?n=100"
            end) h n w = (w', Ok (status, headers, body)) →
    is_success status = true →
    from_json_slice body = Ok (Some (take 100 (tags_after cursor (tags_of w)))) }.

Section tag_server.
Context {W : Type} `{HttpHeaders} `{UriLib} `{!TransportOps W} `{!TokenOps W} `{Build}.
Context `{OciFormat} `{!Serde (option (list (list N)))}.
Context (self : OciClient) `{!TagServer W self}.

Definition same_tags (w w' : W) : Prop := tags_of w' = tags_of w.
#[local] Instance same_tags_preorder : PreOrder same_tags.
Proof. unfold same_tags. split; [done|intros ???; congruence]. Qed.

Lemma fetch_tag_page_honest st (w w' : W) page :
  fetch_tag_page self st w = (w', Ok page) →
  page = take 100 (tags_after (ts_last_tag st) (tags_of w)) ∧ tags_of w' = tags_of w.
Proof.
  intros Hf. unfold fetch_tag_page in Hf. apply io_bind_ok in Hf as (w1 & [[status hd] body] & Hr & Hf).
  destruct (is_success status) eqn:Hok; cbn [negb] in Hf; [|done].
  apply io_bind_ok in Hf as (w2 & tags & Ht & Hf). apply lift_ok in Ht as [-> Ht%map_err_ok].
  injection Hf as -> <-. unfold io_map_err, request_get_with_auth_retry in Hr.
  destruct ((get_auth_headers ≫= _) w) as [w3 o] eqn:Hg in Hr. destruct o as [r|e|]; [|done|done]. injection Hr as -> ->.
  apply io_bind_ok in Hg as (w4 & h & Hh & Hg).
  assert (Hw4 : same_tags w w4).
  { pose proof (preserves_auth_headers same_tags (λ w, tg_cached w) w) as Hp. by rewrite Hh in Hp. }
  apply (auth_retry_last same_tags) in Hg as (h1 & w5 & Hw5 & Hs).
  - apply io_transport_ok in Hs. pose proof (tg_get (match ts_last_tag st with
      | Some c => with_last_cursor (tags_url (cl_endpoint self) (cl_repo self)) c
      | None => tags_url (cl_endpoint self) (cl_repo self) ++ lit "?n=100"
      end) h1 (max_manifest_bytes (cl_limits self)) w5) as Hw'.
    rewrite Hs in Hw'. simpl in Hw'. apply tg_page in Hs; [|done]. rewrite Hs in Ht. injection Ht as <-.
    unfold same_tags in *. simpl. split; congruence.
  - apply tg_cached.
  - intros c w0. apply tg_refresh.
  - intros h' w0 w0' r Hs _. apply io_transport_ok in Hs. unfold same_tags.
    match type of Hs with tr_get ?u ?h ?n _ = _ => pose proof (tg_get u h n w0) as Hp end. by rewrite Hs in Hp.
Qed.

Lemma filter_none {A} (P : A → Prop) `{∀ x, Decision (P x)} (l : list A) : (∀ x, x ∈ l → ¬ P x) → filter P l = [].
Proof.
  induction l as [|x l IH]; intros Hl; [done|]. rewrite filter_cons_False by (apply Hl; left).
  apply IH. intros y Hy. apply Hl. by right.
Qed.
Lemma filter_all {A} (P : A → Prop) `{∀ x, Decision (P x)} (l : list A) : (∀ x, x ∈ l → P x) → filter P l = l.
Proof.
  induction l as [|x l IH]; intros Hl; [done|]. rewrite filter_cons_True by (apply Hl; left).
  f_equal. apply IH. intros y Hy. apply Hl. by right.
Qed.

(** In a strictly sorted list, what comes after an element is what follows it. *)
Lemma tags_after_last (pre post : list (list N)) c :
  StronglySorted str_le (pre ++ post) → NoDup (pre ++ post) → last pre = Some c →
  tags_after (Some c) (pre ++ post) = post.
Proof.
  intros Hs Hnd Hl. unfold tags_after. rewrite filter_app.
  destruct pre as [|x pre _] using rev_ind; [done|]. rewrite last_snoc in Hl. injection Hl as ->.
  apply NoDup_app in Hnd as (_ & Hdis & _).
  assert (Hpre : filter (λ t, ¬ str_le t c) (pre ++ [c]) = []).
  { apply filter_none. intros t Ht Hle. apply Hle.
    apply elem_of_app in Ht as [Ht|Ht%list_elem_of_singleton]; [|subst; by destruct (total str_le c c)].
    rewrite <-app_assoc in Hs. eapply (StronglySorted_app_1_elem_of str_le pre ([c] ++ post)); [done..|]. simpl. by left. }
  rewrite Hpre. apply filter_all. intros t Ht Hle.
  assert (str_le c t).
  { eapply (StronglySorted_app_1_elem_of str_le (pre ++ [c]) post); [done| |done].
    apply elem_of_app. right. by left. }
  assert (t = c) as ->; [by apply (anti_symm str_le)|]. apply (Hdis c); [apply elem_of_app; right; by left|done].
Qed.
Lemma dedup_NoDup {A} `{EqDecision A} (l : list A) : NoDup l → dedup l = l.
Proof.
  induction l as [|x [|y l] IH]; intros Hnd; [done..|]. apply NoDup_cons in Hnd as [Hx Hnd].
  change (dedup (x :: y :: l)) with (if decide (x = y) then dedup (y :: l) else x :: dedup (y :: l)).
  rewrite IH by done. case_decide as Heq; [|done]. destruct Hx. rewrite Heq. by left.
Qed.
Lemma sorted_dedup_id l : StronglySorted str_le l → NoDup l → dedup (sorted_strings l) = l.
Proof.
  intros Hs Hnd. assert (sorted_strings l = l) as ->; [|by apply dedup_NoDup].
  unfold sorted_strings. apply (Sorted_unique str_le).
  - apply Sorted_merge_sort, _.
  - by apply StronglySorted_Sorted.
  - apply merge_sort_Permutation.
Qed.

(** The state after whole pages: the tags [pre], before the tags [post]. *)
Definition tag_progress (st : TagState) (pre post : list (list N)) : Prop :=
  ts_all_tags st = pre ∧ ts_last_tag st = last pre ∧ (length pre mod 100 = 0)%nat ∧
  StronglySorted str_le (pre ++ post) ∧ NoDup (pre ++ post).

Lemma absorb_page_honest st pre post next :
  tag_progress st pre post → absorb_page self st (take 100 post) = Ok next →
  match next with
  | inl st' => ∃ pre' post', pre ++ post = pre' ++ post' ∧ tag_progress st' pre' post'
  | inr r => tl_tags r = pre ++ post ∧ (pre ++ post = [] ∨ length (pre ++ post) mod 100 ≠ 0)%nat
  end.
Proof.
  intros (Hall & Hlast & Hmod & Hs & Hnd). unfold absorb_page. cbn [ts_all_tags ts_last_tag ts_pages_fetched].
  rewrite Hall, Hlast. set (page := take 100 post).
  assert (Hsplit : pre ++ post = (pre ++ page) ++ drop 100 post) by (by rewrite <-app_assoc; unfold page; rewrite take_drop).
  assert (Hnew : dedup (sorted_strings (pre ++ page)) = pre ++ page).
  { rewrite Hsplit in Hs, Hnd. apply sorted_dedup_id; [by eapply StronglySorted_app_1_l|by apply NoDup_app in Hnd as [? _]]. }
  destruct (N.eqb_spec (usize_len page) 0) as [Hz|Hz].
  { assert (post = []) as ->. { unfold usize_len, page in Hz. rewrite length_take in Hz. destruct post; [done|simpl in Hz; lia]. }
    destruct (last pre) eqn:Hl; [done|]. intros [= <-]. apply last_None in Hl as ->. simpl. auto. }
  destruct (N.ltb _ _); [done|]. rewrite Hnew.
  destruct (match last pre with Some _ => _ | None => false end); [done|].
  assert (Hplen : (length page ≤ 100)%nat) by (unfold page; rewrite length_take; lia).
  destruct (N.ltb_spec (usize_len page) PAGE_SIZE) as [Hlt|Hge]; unfold usize_len, PAGE_SIZE in *.
  - intros [= <-]. cbn [tl_tags]. assert (Hpp : page = post).
    { unfold page in *. rewrite length_take in Hlt. apply take_ge. lia. }
    rewrite Hpp in *. split; [done|]. right. rewrite length_app.
    rewrite <-Nat.Div0.add_mod_idemp_l, Hmod, Nat.add_0_l, Nat.mod_small by lia. lia.
  - destruct (_ || _); [done|]. intros [= <-]. exists (pre ++ page), (drop 100 post). split; [done|].
    split_and!; cbn [ts_all_tags ts_last_tag]; [done| | |by rewrite <-Hsplit..].
    + rewrite last_app. destruct (last page) eqn:Hl; [done|]. apply last_None in Hl. by rewrite Hl in Hz.
    + assert (length page = 100%nat) as Hp by lia. rewrite length_app, Hp.
      rewrite <-Nat.Div0.add_mod_idemp_l, Hmod. done.
Qed.

Lemma list_tags_loop_honest fuel st pre post (w w' : W) r :
  tags_of w = pre ++ post → tag_progress st pre post →
  list_tags_loop self fuel st w = (w', Ok (Some r)) →
  tl_tags r = pre ++ post ∧ (pre ++ post = [] ∨ length (pre ++ post) mod 100 ≠ 0)%nat.
Proof.
  revert st pre post w. induction fuel as [|fuel IH]; intros st pre post w Ht Hp; cbn [list_tags_loop]; [done|].
  destruct (_ <=? _); [done|]. intros Hl.
  apply io_bind_ok in Hl as (w1 & page & Hf & Hl). apply fetch_tag_page_honest in Hf as [-> Hw1].
  apply io_bind_ok in Hl as (w2 & next & Ha & Hl). apply lift_ok in Ha as [-> Ha].
  pose proof Hp as (_ & Hlast & _ & Hs & Hnd). rewrite Ht, Hlast in Ha.
  assert (Hafter : tags_after (last pre) (pre ++ post) = post).
  { destruct (last pre) as [c|] eqn:Hl'; [by apply tags_after_last|]. by apply last_None in Hl' as ->. }
  rewrite Hafter in Ha. apply (absorb_page_honest st pre post) in Ha; [|done]. destruct next as [st'|r'].
  - destruct Ha as (pre' & post' & Heq & Hp'). rewrite Heq in *.
    apply (IH st' pre' post' w1); [by rewrite Hw1|done..].
  - by injection Hl as _ <-.
Qed.
End tag_server.

(** Against a registry that lists its tags in pages of 100 in lexical order, a listing that
    succeeds is exactly the registry's tags.  It can succeed only if their number is zero or not
    a multiple of 100: after a full last page the client asks for one more, gets the empty page
    the specification prescribes, and reports an error. *)
Theorem list_tags_complete {W : Type} `{HttpHeaders} `{UriLib} `{!TransportOps W} `{!TokenOps W} `{Build}
    `{OciFormat} `{!Serde (option (list (list N)))} (self : OciClient) `{!TagServer W self} (w w' : W) r :
  list_tags self w = (w', Ok (Some r)) →
  tl_tags r = tags_of w ∧ (tags_of w = [] ∨ length (tags_of w) mod 100 ≠ 0)%nat.
Proof.
  intros Hl. pose proof (tg_sorted w) as [Hs Hnd].
  by apply (list_tags_loop_honest self _ _ [] (tags_of w)) in Hl.
Qed.

(** ** Witnesses *)

Definition sample_format : OciFormat := {|
  fmt_status := show_N; fmt_duration := show_N; fmt_debug_str := quoted |}.
Definition no_tokens : TokenOps unit := {|
  tm_cached_token := λ w, (w, None); tm_refresh_token := λ _ w, (w, Ok []) |}.

(** A read-only registry: [get] answers every GET. *)
Definition read_only_transport (get : list N → N * list N) : @TransportOps unit sample_http :=
  let refused {A} (w : unit) : unit * outcome TransportError (StatusCode * A) := (w, Err (TransportIo [])) in
  @Build_TransportOps unit sample_http (λ _ _, refused)
    (λ url _ _ w, (w, let '(status, body) := get url in Ok (status, [], body)))
    (λ _ _ _ w, (w, Err (TransportIo []))) (λ _ _, refused) (λ _ _ _, refused) (λ _ _ _, refused)
    (λ _ _ _ _ w, (w, Err (TransportIo []))) (λ _ _ _, refused) (λ _ _, refused) (λ _ w, w).

Definition first_page_url : list N := tags_url (cl_endpoint sample_client) (cl_repo sample_client) ++ lit "?n=100".
(** The sample bodies: [n] for a list of [n] tags. *)
Definition sample_tag_page (n : nat) : list (list N) := (λ i, [100 + N.of_nat i]) <$> seq 0 n.
Definition sample_tags_serde : Serde (option (list (list N))) := {|
  to_json := λ _, Err [];
  from_json_str := λ _, Err [];
  from_json_slice := λ body, match body with [n] => Ok (Some (sample_tag_page (N.to_nat n))) | _ => Ok None end |}.

Definition two_tags_transport : @TransportOps unit sample_http :=
  read_only_transport (λ url, if decide (url = first_page_url) then (200, [2]) else (500, [])).

Definition two_tags_server : @TagServer unit sample_http two_tags_transport no_tokens sample_tags_serde sample_client.
Proof.
  refine (@Build_TagServer unit sample_http two_tags_transport no_tokens sample_tags_serde sample_client
    (λ _, sample_tag_page 2) _ _ _ _ _).
  - intros w. split.
    + apply (bool_decide_unpack _). by vm_compute.
    + apply (bool_decide_unpack _). by vm_compute.
  - done.
  - done.
  - done.
  - intros cursor h n w w' status headers body Hg Hok.
    unfold two_tags_transport, read_only_transport in Hg. cbn [tr_get] in Hg. destruct cursor as [c|].
    + rewrite decide_False in Hg; [by injection Hg as _ <- _ _|].
      unfold first_page_url, with_last_cursor. intros Heq%app_inv_head. discriminate.
    + rewrite decide_True in Hg by done. by injection Hg as _ _ _ <-.
Defined.

Lemma list_tags_complete_witness :
  ∃ r, @list_tags unit sample_http sample_uri two_tags_transport no_tokens sample_build sample_format
      sample_client sample_tags_serde tt = (tt, Ok (Some r)) ∧
    tl_tags r = sample_tag_page 2.
Proof.
  exists {| tl_tags := sample_tag_page 2; tl_pages_fetched := 1 |}.
  split; [by vm_compute|].
  apply (@list_tags_complete unit sample_http sample_uri two_tags_transport no_tokens sample_build sample_format
    sample_tags_serde sample_client two_tags_server tt tt). by vm_compute.
Defined.

(** A registry with exactly 100 tags: the listing fails on the empty second page. *)
Example list_tags_hundred_fails :
  (@list_tags unit sample_http sample_uri
     (read_only_transport (λ url, if decide (url = first_page_url) then (200, [100]) else (200, [0])))
     no_tokens sample_build sample_format sample_client sample_tags_serde tt).2
  = Err (PaginationFailed (lit "org/app") (last (sample_tag_page 100)) 2 100
           (lit "registry returned an empty page after a full page")).
Proof. by vm_compute. Qed.
