(* ===== verification/IndexClient.v ===== *)
(** * IndexClient: root indexes, shards and compare-and-swap updates
    (crates/nixcache-oci/src/client/index.rs, client/index/update.rs)

    The closure of an update may have state of its own, which is part of [W]. *)

From S2P Require Import Prelude Machine Str Text Error Types Sharding Index OciError Transport Endpoint Auth Request Driver Upload Manifest ManifestClient.

Local Open Scope N_scope.

(** [Utc::now().to_rfc3339_opts(Secs, true)]. *)
Class ClockOps (W : Type) := { clock_now : W → W * list N }.

Section index_client.
Context {W : Type} `{HttpHeaders} `{UriLib} `{!TransportOps W} `{!TokenOps W} `{!ClockOps W}.
Context `{Sha2} `{Chrono} `{HashIter} `{Build} `{Zstd} `{ZstdEncoder} `{SerdeErrors}.
Context `{!Serde OciImageIndex} `{!Serde OciImageManifest}.
Context `{!Serde ShardedArchCacheIndexData} `{!Serde ShardDataPayload}.
Context (self : OciClient).

(** ** Reading *)

Definition get_image_manifest (tag : list N) : IO W (option (OciImageManifest * list N)) :=
  r ← get_with_digest self tag;
  match r with
  | Some (json, digest) =>
      manifest ← lift (map_err OciJson (from_json_str json));
      _ ← lift (OciImageManifest_validate_for manifest (cl_limits self) tag);
      mret (Some (manifest, digest))
  | None => mret None
  end.

Definition get_image_index (tag : list N) : IO W (option (OciImageIndex * list N)) :=
  r ← get_with_digest self tag;
  match r with
  | Some (json, digest) =>
      index ← lift (map_err OciJson (from_json_str json));
      _ ← lift (OciImageIndex_validate_for index (cl_limits self) tag);
      mret (Some (index, digest))
  | None => mret None
  end.

Definition decode_root_manifest (manifest : OciImageManifest) (system : SystemArch) (target : list N)
    : IO W ShardedArchCacheIndexData :=
  merkle_root ← lift (ok_or (InvalidDescriptor target
      (lit "Schema v8 root manifest merkle_root annotation is missing"))
      (annotation_of (om_annotations manifest) MERKLE_ROOT_KEY));
  layer ← lift (validate_schema_v8_root manifest system merkle_root (cl_limits self) target);
  blob_bytes ← blob_get_descriptor self layer;
  decoded ← lift (decode_zstd (from_slice_validated Index_deserialize) blob_bytes (od_media_type layer)
                    (max_index_uncompressed_bytes (cl_limits self)));
  let root_data := di_value decoded in
  _ ← lift (map_err OciCore (Index_validate_for root_data system (cl_repo self)
              (re_authority (cl_endpoint self)) (index_validation_limits (cl_limits self))));
  _ ← lift (for_each (λ shard,
        ensure (ShardDescriptor_is_empty shard
                || negb (max_buffered_blob_bytes (cl_limits self) <? sd_compressed_size shard))
          (SizeLimitExceeded (sd_blob_digest shard) (max_buffered_blob_bytes (cl_limits self))
             (sd_compressed_size shard))) (ix_shards root_data));
  _ ← lift (ensure (bool_decide (ix_merkle_root root_data = merkle_root))
              (DigestMismatch target merkle_root (ix_merkle_root root_data)));
  mret root_data.

Definition arch_tag (tag : list N) (system : SystemArch) : list N :=
  if ends_with (SystemArch_as_str system) tag then tag else tag ++ lit "-" ++ SystemArch_as_str system.

Definition get_sharded_root (tag : list N) (system : SystemArch)
    : IO W (option (ShardedArchCacheIndexData * list N)) :=
  let arch := arch_tag tag system in
  sub ← get_image_manifest arch;
  match sub with
  | Some (sub_manifest, sub_digest) =>
      root_data ← decode_root_manifest sub_manifest system arch;
      mret (Some (root_data, sub_digest))
  | None =>
      artifact ← fetch_artifact self tag;
      match artifact with
      | None => mret None
      | Some artifact =>
          match fa_manifest artifact with
          | ArtifactIndex index =>
              match find_manifest_for_system index system with
              | None => mret None
              | Some descriptor =>
                  let descriptor_system :=
                    match platform_system descriptor with
                    | Some s => Some s
                    | None => annotation_system descriptor
                    end in
                  if negb (bool_decide (descriptor_system = Some system))
                  then lift (Err (InvalidDescriptor (od_digest descriptor)
                         (lit "image index descriptor platform does not match the request")))
                  else
                    sub ← get_with_digest_and_size self (od_digest descriptor) (od_size descriptor);
                    sub ← lift (ok_or (SubManifestMissing (od_digest descriptor)) sub);
                    sub_manifest ← lift (map_err OciJson (from_json_str sub.1));
                    _ ← lift (OciImageManifest_validate_for sub_manifest (cl_limits self) (od_digest descriptor));
                    root_data ← decode_root_manifest sub_manifest system (od_digest descriptor);
                    mret (Some (root_data, fa_digest artifact))
              end
          | ArtifactManifest manifest =>
              root_data ← decode_root_manifest manifest system tag;
              mret (Some (root_data, fa_digest artifact))
          end
      end
  end.

Definition shard_mismatch (descriptor : ShardDescriptor) (expected actual : N) : OciError :=
  SizeMismatch (sd_blob_digest descriptor) expected actual.

Definition get_shard_data (descriptor : ShardDescriptor) (system : SystemArch) : IO W ShardDataPayload :=
  _ ← lift (map_err OciCore (ShardDescriptor_validate_structure descriptor));
  if sd_entry_count descriptor =? 0 then
    mismatch ←
      (if (N.of_nat NUM_SHARDS <=? sd_shard_id descriptor) || negb (is_empty (sd_blob_digest descriptor))
          || negb (sd_compressed_size descriptor =? 0) || negb (sd_uncompressed_size descriptor =? 0)
       then mret true
       else
         empty ← lift (map_err OciCore (Payload_new (sd_shard_id descriptor)));
         hash ← lift (map_err OciCore (Payload_compute_merkle_hash empty));
         mret (negb (bool_decide (sd_merkle_hash descriptor = hash))));
    if (mismatch : bool)
    then lift (Err (InvalidDescriptor (show_N (sd_shard_id descriptor))
           (lit "empty shard descriptor has non-empty metadata")))
    else lift (map_err OciCore (Payload_new (sd_shard_id descriptor)))
  else
    let blob_descriptor := {| od_media_type := SHARD_DATA_V8_ZSTD; od_digest := sd_blob_digest descriptor;
                              od_size := sd_compressed_size descriptor; od_platform := None;
                              od_annotations := None |} in
    blob_bytes ← blob_get_descriptor self blob_descriptor;
    decoded ← lift (decode_zstd (from_slice_validated Payload_deserialize) blob_bytes SHARD_DATA_V8_ZSTD
                      (max_index_uncompressed_bytes (cl_limits self)));
    _ ← lift (ensure (di_uncompressed_size decoded =? sd_uncompressed_size descriptor)
                (shard_mismatch descriptor (sd_uncompressed_size descriptor) (di_uncompressed_size decoded)));
    let payload := di_value decoded in
    _ ← lift (map_err OciCore (Payload_validate_for payload (sd_shard_id descriptor) system
                (index_validation_limits (cl_limits self))));
    _ ← lift (ensure (Payload_len payload =? sd_entry_count descriptor)
                (shard_mismatch descriptor (sd_entry_count descriptor) (Payload_len payload)));
    _ ← lift (map_err OciCore (Payload_validate_merkle_hash payload (sd_merkle_hash descriptor)));
    mret payload.

(** ** Writing *)

Definition push_shard_data (payload : ShardDataPayload) : IO W (list N * N * N) :=
  _ ← lift (map_err OciCore (Payload_validate_structure payload));
  r ← push_zstd self payload;
  let '(digest, compressed, uncompressed) := r in
  mret (cd_str digest, compressed, uncompressed).

(** What both pushes of a root do before the manifest is put: its JSON. *)
Definition push_root_blob (root_data : ShardedArchCacheIndexData) : IO W (list N) :=
  _ ← lift (map_err OciCore (Index_validate_structure root_data));
  r ← push_zstd self root_data;
  let '(root_blob_digest, root_compressed_size, _) := r in
  now ← io_call clock_now;
  let manifest := build_sharded_arch_index_manifest {|
      sp_root_blob_digest := cd_str root_blob_digest; sp_root_blob_size := root_compressed_size;
      sp_config_digest := EMPTY_CONFIG_DIGEST; sp_config_size := EMPTY_CONFIG_SIZE;
      sp_system := ix_system root_data; sp_merkle_root := ix_merkle_root root_data |} now in
  lift (map_err OciJson (to_json manifest)).

Definition compute_sha256_digest (bytes : list N) : list N := cd_str (ContentDigest_from_bytes bytes).

Definition push_sharded_root (tag : list N) (root_data : ShardedArchCacheIndexData) : IO W (list N) :=
  manifest_json ← push_root_blob root_data;
  _ ← manifest_put self tag manifest_json;
  mret (compute_sha256_digest (utf8 manifest_json)).

Definition push_sharded_root_cas (tag : list N) (root_data : ShardedArchCacheIndexData)
    (condition : ManifestCasCondition) : IO W (list N) :=
  _ ← lift (ensure_cas_supported self tag);
  manifest_json ← push_root_blob root_data;
  _ ← manifest_put_cas self tag manifest_json condition;
  mret (compute_sha256_digest (utf8 manifest_json)).

Definition index_put (tag : list N) (index : OciImageIndex) : IO W unit :=
  let url := manifest_url (cl_endpoint self) (cl_repo self) tag in
  headers ← get_auth_headers;
  let headers := insert_static (lit "content-type") OCI_IMAGE_INDEX_MEDIA_TYPE headers in
  index_json ← lift (map_err OciJson (to_json index));
  status ← request_put_bytes_with_auth_retry url headers (utf8 index_json) (lit "push image index");
  lift (pushed status).

Definition index_put_cas (tag : list N) (index : OciImageIndex) (condition : ManifestCasCondition) : IO W unit :=
  _ ← lift (ensure_cas_supported self tag);
  let url := manifest_url (cl_endpoint self) (cl_repo self) tag in
  headers ← get_auth_headers;
  let headers := insert_static (lit "content-type") OCI_IMAGE_INDEX_MEDIA_TYPE headers in
  r ← lift (insert_cas_condition headers condition);
  index_json ← lift (map_err OciJson (to_json index));
  put_conditionally url tag r.1 r.2 (utf8 index_json) (lit "push image index with CAS").

(** ** Updates *)

Definition backoff_ms (base modulus pid attempt : N) : N :=
  base * N.shiftl 1 (N.min attempt 5) + (pid * 37 + attempt * 53) mod modulus.

(** The loop of both updates: read the current version with the condition that
    it is still current, compute the new one, put it on that condition, and on a
    conflict wait and start over; [None] is fuel used up. *)
Fixpoint cas_loop {A B R} (fuel : nat) (base modulus pid max_retries attempt : N)
    (read : IO W (option A * ManifestCasCondition)) (mutator : option A → IO W B)
    (put : B → ManifestCasCondition → IO W R) : IO W (option R) :=
  match fuel with
  | O => mret None
  | S fuel =>
      attempt ← lift (arith_add usize_bound attempt 1);
      r ← read;
      updated ← mutator r.1;
      result ← io_catch (put updated r.2);
      match result with
      | Ok x => mret (Some x)
      | Err (CasPreconditionFailed _ _ _ as error) =>
          if attempt <=? max_retries then
            _ ← io_call (λ w, (tr_sleep (backoff_ms base modulus pid attempt) w, tt));
            cas_loop fuel base modulus pid max_retries attempt read mutator put
          else lift (Err error)
      | Err error => lift (Err error)
      | Panic => lift Panic
      end
  end.
Definition cas_fuel (max_retries : N) : nat := N.to_nat (max_retries + 1).

Definition read_artifact (tag : list N) : IO W (option OciImageIndex * ManifestCasCondition) :=
  artifact ← fetch_artifact self tag;
  mret (match artifact with
        | Some artifact => (as_index (fa_manifest artifact), Match (fa_digest artifact))
        | None => (None, CreateOnly)
        end).

Definition update_cas (pid : N) (tag : list N) (max_retries : N) (mutator : option OciImageIndex → IO W OciImageIndex)
    : IO W (option unit) :=
  _ ← lift (ensure_cas_supported self tag);
  cas_loop (cas_fuel max_retries) 500 150 pid max_retries 0 (read_artifact tag) mutator (index_put_cas tag).

Definition update_single_writer (tag : list N) (mutator : option OciImageIndex → IO W OciImageIndex) : IO W unit :=
  artifact ← fetch_artifact self tag;
  updated_index ← mutator (artifact ← artifact; as_index (fa_manifest artifact));
  index_put tag updated_index.

Definition read_root (arch : list N) (system : SystemArch)
    : IO W (option ShardedArchCacheIndexData * ManifestCasCondition) :=
  root ← get_sharded_root arch system;
  mret (match root with
        | Some (data, digest) => (Some data, Match digest)
        | None => (None, CreateOnly)
        end).

Definition update_sharded_cas (pid : N) (tag : list N) (system : SystemArch) (max_retries : N)
    (mutator : option ShardedArchCacheIndexData → IO W ShardedArchCacheIndexData) : IO W (option (list N)) :=
  _ ← lift (ensure_cas_supported self tag);
  let arch := arch_tag tag system in
  cas_loop (cas_fuel max_retries) 100 100 pid max_retries 0 (read_root arch system) mutator
    (push_sharded_root_cas arch).

Definition update_sharded_single_writer (tag : list N) (system : SystemArch)
    (mutator : option ShardedArchCacheIndexData → IO W ShardedArchCacheIndexData) : IO W (list N) :=
  let arch := arch_tag tag system in
  root ← get_sharded_root arch system;
  updated_root ← mutator (fst <$> root);
  push_sharded_root arch updated_root.
End index_client.

(** ** Facts: what a read returns *)

Section reads.
Context {W : Type} `{HttpHeaders} `{UriLib} `{!TransportOps W} `{!TokenOps W} `{!ClockOps W}.
Context `{Sha2Ok} `{Chrono} `{HashIter} `{Build} `{Zstd} `{ZstdEncoder} `{SerdeErrors}.
Context `{!Serde OciImageIndex} `{!Serde OciImageManifest}.
Context `{!Serde ShardedArchCacheIndexData} `{!Serde ShardDataPayload}.
Context (self : OciClient).

(** What the client requires of a root index. *)
Definition root_accepted (ix : ShardedArchCacheIndexData) (system : SystemArch) : Prop :=
  index_valid ix ∧ ix_system ix = system ∧ ix_repo ix = cl_repo self ∧
  ix_registry ix = re_authority (cl_endpoint self) ∧
  Forall (λ d, ShardDescriptor_is_empty d = true ∨
    sd_compressed_size d ≤ max_buffered_blob_bytes (cl_limits self)) (ix_shards ix).

Lemma decode_root_manifest_accepted manifest system target (w w' : W) ix :
  decode_root_manifest self manifest system target w = (w', Ok ix) →
  root_accepted ix system ∧ annotation_of (om_annotations manifest) MERKLE_ROOT_KEY = Some (ix_merkle_root ix).
Proof.
  intros Hd. unfold decode_root_manifest in Hd. apply io_bind_ok in Hd as (w1 & mr & Hmr & Hd).
  apply lift_ok in Hmr as [-> Hmr%ok_or_ok]. apply io_bind_ok in Hd as (w2 & layer & _ & Hd).
  apply io_bind_ok in Hd as (w3 & bytes & _ & Hd). apply io_bind_ok in Hd as (w4 & decoded & _ & Hd).
  apply io_bind_ok in Hd as (w5 & u & Hv & Hd). apply lift_ok in Hv as [-> Hv%map_err_ok].
  apply io_bind_ok in Hd as (w6 & u1 & Hf & Hd). apply lift_ok in Hf as [-> Hf%for_each_ok].
  apply io_bind_ok in Hd as (w7 & u2 & Hm & Hd). apply lift_ok in Hm as [-> Hm%ensure_ok%bool_decide_eq_true].
  injection Hd as _ <-. rewrite Hm. split; [|done]. unfold Index_validate_for in Hv.
  apply bind_ok in Hv as (u3 & Hs%Index_validate_ok & Hv).
  apply bind_ok in Hv as (u4 & Hsys%ensure_ok%bool_decide_eq_true & Hv).
  apply bind_ok in Hv as (u5 & Hrr%ensure_ok & _). apply andb_true_iff in Hrr as [Hr1 Hr2].
  apply bool_decide_eq_true in Hr1, Hr2. split_and!; [done..|].
  eapply Forall_impl; [exact Hf|]. intros d Hd%ensure_ok%orb_true_iff.
  rewrite negb_true_iff, N.ltb_ge in Hd. done.
Qed.

(** On every way a root comes out of the same decoder. *)
Lemma get_sharded_root_decoded tag system (w w' : W) ix digest :
  get_sharded_root self tag system w = (w', Ok (Some (ix, digest))) →
  ∃ manifest target w1 w2, decode_root_manifest self manifest system target w1 = (w2, Ok ix).
Proof.
  intros Hg. unfold get_sharded_root in Hg. apply io_bind_ok in Hg as (w1 & sub & _ & Hg).
  destruct sub as [[sub sd]|].
  { apply io_bind_ok in Hg as (w2 & root & Hr & Hg). injection Hg as _ -> _. eauto. }
  apply io_bind_ok in Hg as (w2 & artifact & _ & Hg). destruct artifact as [artifact|]; [|done].
  destruct (fa_manifest artifact) as [index|manifest].
  - destruct (find_manifest_for_system index system) as [d|]; [|done].
    destruct (negb _); [done|]. apply io_bind_ok in Hg as (w3 & s1 & _ & Hg).
    apply io_bind_ok in Hg as (w4 & s2 & _ & Hg). apply io_bind_ok in Hg as (w5 & m & _ & Hg).
    apply io_bind_ok in Hg as (w6 & u & _ & Hg).
    apply io_bind_ok in Hg as (w7 & root & Hr & Hg). injection Hg as _ -> _. eauto.
  - apply io_bind_ok in Hg as (w3 & root & Hr & Hg). injection Hg as _ -> _. eauto.
Qed.
Lemma get_sharded_root_accepted tag system (w w' : W) ix digest :
  get_sharded_root self tag system w = (w', Ok (Some (ix, digest))) → root_accepted ix system.
Proof. intros (m & target & w1 & w2 & [Hr _]%decode_root_manifest_accepted)%get_sharded_root_decoded. done. Qed.
Lemma get_sharded_root_validated tag system (w w' : W) ix digest :
  get_sharded_root self tag system w = (w', Ok (Some (ix, digest))) →
  Index_validate_for ix system (cl_repo self) (re_authority (cl_endpoint self))
    (index_validation_limits (cl_limits self)) = Ok ().
Proof.
  intros (m & target & w1 & w2 & Hd)%get_sharded_root_decoded. unfold decode_root_manifest in Hd.
  apply io_bind_ok in Hd as (w3 & mr & _ & Hd). apply io_bind_ok in Hd as (w4 & layer & _ & Hd).
  apply io_bind_ok in Hd as (w5 & bytes & _ & Hd). apply io_bind_ok in Hd as (w6 & decoded & _ & Hd).
  apply io_bind_ok in Hd as (w7 & [] & Hv & Hd). apply lift_ok in Hv as [-> Hv%map_err_ok].
  apply io_bind_ok in Hd as (w8 & u1 & _ & Hd). apply io_bind_ok in Hd as (w9 & u2 & _ & Hd). by injection Hd as _ <-.
Qed.

Lemma get_shard_data_accepted d system (w w' : W) p :
  get_shard_data self d system w = (w', Ok p) →
  descriptor_valid d ∧ pl_shard_id p = sd_shard_id d ∧ Payload_len p = sd_entry_count d ∧
  Payload_compute_merkle_hash p = Ok (sd_merkle_hash d) ∧
  map_Forall (λ _ e, Types.system e = Some system) (pl_entries p).
Proof.
  intros Hg. unfold get_shard_data in Hg. apply io_bind_ok in Hg as (w1 & u & Hv & Hg).
  apply lift_ok in Hv as [-> Hv%map_err_ok%ShardDescriptor_validate_ok]. split; [done|].
  destruct (N.eqb_spec (sd_entry_count d) 0) as [Hz|Hz].
  - apply io_bind_ok in Hg as (w2 & mismatch & Hm & Hg). destruct mismatch; [done|].
    apply lift_ok in Hg as [-> Hg%map_err_ok]. destruct (_ || _) in Hm; [done|].
    apply io_bind_ok in Hm as (w3 & e & He & Hm). apply lift_ok in He as [-> He%map_err_ok].
    rewrite Hg in He. injection He as <-. apply io_bind_ok in Hm as (w4 & h & Hh & Hm).
    apply lift_ok in Hh as [-> Hh%map_err_ok]. injection Hm as _ Hm.
    apply negb_false_iff, bool_decide_eq_true in Hm as ->.
    unfold Payload_new in Hg. destruct (_ <=? _); [done|]. injection Hg as <-.
    split_and!; [done| |done|apply map_Forall_empty]. unfold Payload_len. simpl. by rewrite map_size_empty, Hz.
  - apply io_bind_ok in Hg as (w2 & bytes & _ & Hg). apply io_bind_ok in Hg as (w3 & decoded & _ & Hg).
    apply io_bind_ok in Hg as (w4 & u1 & _ & Hg). apply io_bind_ok in Hg as (w5 & u2 & Hf & Hg).
    apply lift_ok in Hf as [-> Hf%map_err_ok]. apply io_bind_ok in Hg as (w6 & u3 & Hl & Hg).
    apply lift_ok in Hl as [-> Hl%ensure_ok%N.eqb_eq]. apply io_bind_ok in Hg as (w7 & u4 & Hm & Hg).
    apply lift_ok in Hm as [-> Hm%map_err_ok]. injection Hg as _ <-.
    apply bind_ok in Hm as (v & Hc & ->%ensure_ok%bool_decide_eq_true).
    unfold Payload_validate_for in Hf. apply bind_ok in Hf as (u5 & _ & Hf).
    apply bind_ok in Hf as (u6 & Hid%ensure_ok & Hf). apply bind_ok in Hf as (u7 & _ & Hf).
    apply bind_ok in Hf as (u8 & _ & Hf%for_each_ok).
    rewrite negb_true_iff, orb_false_iff, negb_false_iff, N.eqb_eq in Hid. destruct Hid as [_ Hid].
    split_and!; [done..|]. intros h e He%elem_of_hash_iter. rewrite Forall_forall in Hf. apply Hf in He.
    by apply bind_ok in He as (u9 & ?%ensure_ok%bool_decide_eq_true & _).
Qed.
End reads.

(** C2: The read path is authenticated by the Merkle root alone.  Whatever the registry, the
    network and the token server answer: a root index that [get_sharded_root] returns is valid,
    for the requested system, repository and registry, and a payload that [get_shard_data]
    returns for one of its shards has the entries of the payload that was published under a root
    with the same Merkle root, all of them for the requested system, unless two distinct
    messages of the trees collide under SHA-256. *)
Theorem read_path_authenticated {W : Type} `{HttpHeaders} `{UriLib} `{!TransportOps W} `{!TokenOps W}
    `{Sha2Ok} `{Chrono} `{HashIter} `{Zstd} `{SerdeErrors}
    `{!Serde OciImageIndex} `{!Serde OciImageManifest} `{!Serde ShardedArchCacheIndexData} `{!Serde ShardDataPayload}
    (self : OciClient) (tag : list N) (arch : SystemArch) (w1 w1' w2 w2' : W)
    (ix published_ix : ShardedArchCacheIndexData) (digest : list N) (id : N) (d published_d : ShardDescriptor)
    (p published : ShardDataPayload)
    (Hroot : get_sharded_root self tag arch w1 = (w1', Ok (Some (ix, digest))))
    (Hd : Index_find_shard_by_id ix id = Some d)
    (Hshard : get_shard_data self d arch w2 = (w2', Ok p))
    (Hpix : Index_validate_structure published_ix = Ok ())
    (Hpd : Index_find_shard_by_id published_ix id = Some published_d)
    (Hpp : Payload_compute_merkle_hash published = Ok (sd_merkle_hash published_d))
    (Hmerkle : ix_merkle_root ix = ix_merkle_root published_ix)
    (Hrep : Forall descriptor_rep (ix_shards ix) ∧ Forall descriptor_rep (ix_shards published_ix) ∧
      map_Forall (λ _, entry_rep) (pl_entries p) ∧ map_Forall (λ _, entry_rep) (pl_entries published) ∧
      Payload_len p < u64_bound ∧ Payload_len published < u64_bound) :
  root_accepted self ix arch ∧ map_Forall (λ _ e, system e = Some arch) (pl_entries p) ∧
  ((d = published_d ∧ pl_shard_id p = pl_shard_id published ∧ pl_entries p = pl_entries published) ∨
   collides (root_messages (ix_shards ix) ++ root_messages (ix_shards published_ix)) ∨
   collides (shard_messages (pl_shard_id p) (pl_entries p)
             ++ shard_messages (pl_shard_id published) (pl_entries published))).
Proof.
  apply get_sharded_root_accepted in Hroot. apply get_shard_data_accepted in Hshard as (_ & _ & _ & Hm & Hall).
  split; [done|]. split; [done|]. destruct Hroot as [Hv _]. apply Index_validate_ok in Hpix.
  destruct Hrep as (? & ? & ? & ? & ? & ?). by eapply payload_binding.
Qed.

(** ** Facts: compare-and-swap *)

(** What the [http] crate promises about header maps and values. *)
Class HttpOk `{HttpHeaders} : Prop := {
  ho_get_insert : ∀ k k' v m, header_get (header_insert k v m) k' = if decide (k = k') then Some v else header_get m k';
  ho_iter_new : header_iter header_new = [];
  ho_iter_insert : ∀ k v m, header_iter (header_insert k v m) ≡ₚ (k, v) :: filter (λ p, p.1 ≠ k) (header_iter m);
  ho_value : ∀ s v, header_value_from_str s = Some v → header_to_str v = Some s;
  ho_visible : ∀ s, Forall (λ c, 32 ≤ c < 127) s → is_Some (header_value_from_str s) }.

(** The text of a header. *)
Definition header_text `{HttpHeaders} (h : HeaderMap) (name : list N) : option (list N) :=
  v ← header_get h name; header_to_str v.

(** A registry that supports conditional puts, seen through one tag: the versions the tag
    has had, oldest first, [None] while it does not exist.  Other clients may add versions during
    any call.  A put that succeeds on [If-Match] has replaced a version with that digest, and on
    [If-None-Match: *] has created the tag. *)
Class CasRegistry (W : Type) `{HttpHeaders} `{Sha2} `{!TransportOps W} `{!TokenOps W} `{!ClockOps W}
    (url : list N) := {
  history : W → list (option (list N));
  grows (w w' : W) : Prop := history w `prefix_of` history w';
  cr_cached : ∀ w, grows w (tm_cached_token w).1;
  cr_refresh : ∀ c w, grows w (tm_refresh_token c w).1;
  cr_clock : ∀ w, grows w (clock_now w).1;
  cr_sleep : ∀ n w, grows w (tr_sleep n w);
  cr_head : ∀ url h w, grows w (tr_head_with_headers url h w).1;
  cr_get : ∀ url h n w, grows w (tr_get url h n w).1;
  cr_post : ∀ url h w, grows w (tr_post url h w).1;
  cr_post_bytes : ∀ url h b w, grows w (tr_post_bytes url h b w).1;
  cr_put : ∀ url h b w, grows w (tr_put_bytes_with_headers url h b w).1;
  cr_delete : ∀ url h w, grows w (tr_delete_with_headers url h w).1;
  cr_put_match : ∀ h body w w' status headers d,
    tr_put_bytes_with_headers url h body w = (w', Ok (status, headers)) → is_success status = true →
    header_text h (lit "if-match") = Some d →
    ∃ pre old post, history w' = pre ++ Some old :: Some body :: post ∧
      (length (history w) ≤ S (length pre))%nat ∧ cd_str (ContentDigest_from_bytes old) = d;
  cr_put_create : ∀ h body w w' status headers,
    tr_put_bytes_with_headers url h body w = (w', Ok (status, headers)) → is_success status = true →
    header_text h (lit "if-none-match") = Some (lit "*") →
    ∃ pre post, history w' = pre ++ None :: Some body :: post ∧ (length (history w) ≤ S (length pre))%nat }.

Section carry.
Context `{HttpHeaders} `{!HttpOk}.

(** A header that occurs once is carried over to the retry. *)
Lemma carry_headers_get headers k v h' :
  (k, v) ∈ header_iter headers → (∀ v', (k, v') ∈ header_iter headers → v' = v) → k ≠ lit "authorization" →
  header_get (carry_headers headers h') k = Some v.
Proof.
  unfold carry_headers. intros Hin Huniq Hk.
  assert (Hgen : ∀ l acc, (∀ v', (k, v') ∈ l → v' = v) → (k, v) ∈ l ∨ header_get acc k = Some v →
    header_get (foldl (λ acc '(name, value), if bool_decide (name = lit "authorization") then acc
                        else header_insert name value acc) acc l) k = Some v); [|by apply Hgen; [|left]].
  intros l. induction l as [|[k' v'] l IH]; intros acc Hu Hor; cbn [foldl].
  { destruct Hor as [Hin'|]; [by apply elem_of_nil in Hin'|done]. }
  apply IH; [intros v'' Hv''; apply Hu; by right|].
  destruct Hor as [[Heq|Hin']%elem_of_cons|Hget]; [|by left|].
  - injection Heq as <- <-. right. rewrite bool_decide_eq_false_2 by done. rewrite ho_get_insert. by case_decide.
  - right. case_bool_decide; [done|]. rewrite ho_get_insert. case_decide as Heq; [|done]. subst.
    f_equal. apply Hu. by left.
Qed.

(** The headers of a conditional put, and those of its retry, state its condition. *)
Definition states_condition (h : HeaderMap) (condition : ManifestCasCondition) : Prop :=
  match condition with
  | CreateOnly => header_text h (lit "if-none-match") = Some (lit "*")
  | Match d => header_text h (lit "if-match") = Some d
  end.

Lemma insert_cas_condition_states headers condition h expected : 
  insert_cas_condition headers condition = Ok (h, expected) →
  states_condition h condition ∧ ∀ x, states_condition (carry_headers h x) condition.
Proof.
  assert (Hins : ∀ k v s, header_value_from_str s = Some v → k ≠ lit "authorization" →
    header_text (header_insert k v headers) k = Some s ∧
    ∀ x, header_text (carry_headers (header_insert k v headers) x) k = Some s).
  { intros k v s Hv Hk. unfold header_text. split.
    - rewrite ho_get_insert. case_decide; [|done]. simpl. by apply ho_value.
    - intros x. rewrite (carry_headers_get _ k v).
      + simpl. by apply ho_value.
      + rewrite ho_iter_insert. by left.
      + intros v'. rewrite ho_iter_insert. intros [[=]|Hf]%elem_of_cons; [done|].
        by apply list_elem_of_filter in Hf as [? _].
      + done. }
  unfold insert_cas_condition, insert_static. destruct condition as [|d]; simpl.
  - destruct (ho_visible (lit "*")) as [v Hv]; [by repeat constructor|]. rewrite Hv. intros [= <- <-].
    by apply Hins.
  - destruct (header_value_from_str d) as [v|] eqn:Hv; [|done]. intros [= <- <-]. by apply Hins.
Qed.
End carry.

Section cas.
Context {W : Type} `{HttpHeaders} `{!HttpOk} `{UriLib} `{!TransportOps W} `{!TokenOps W} `{!ClockOps W}.
Context `{Sha2Ok} `{Chrono} `{HashIter} `{Build} `{Zstd} `{ZstdEncoder} `{SerdeErrors}.
Context `{!Serde OciImageIndex} `{!Serde OciImageManifest}.
Context `{!Serde ShardedArchCacheIndexData} `{!Serde ShardDataPayload}.
Context (self : OciClient) (tag : list N).
Context `{!CasRegistry W (manifest_url (cl_endpoint self) (cl_repo self) tag)}.

Definition grown (w w' : W) : Prop := history w `prefix_of` history w'.
#[local] Instance grown_preorder : PreOrder grown.
Proof. unfold grown. split; [intros w; reflexivity|intros w1 w2 w3; apply transitivity]. Qed.

Lemma grown_transport {A} (m : W → W * outcome TransportError A) :
  (∀ w, grown w (m w).1) → preserves grown (io_transport m).
Proof. intros Hm w. specialize (Hm w). unfold io_transport. by destruct (m w). Qed.
Lemma grown_call {A} (m : W → W * A) : (∀ w, grown w (m w).1) → preserves grown (io_call m).
Proof. intros Hm w. specialize (Hm w). unfold io_call. by destruct (m w). Qed.

Lemma grown_headers : preserves grown get_auth_headers.
Proof. apply (preserves_auth_headers grown), cr_cached. Qed.
Lemma grown_retry {A} op (st : A → N) hd send h carry :
  (∀ h, preserves grown (send h)) → preserves grown (auth_retry op st hd send h carry).
Proof. apply (preserves_auth_retry grown); [apply cr_cached|]. intros c w. apply cr_refresh. Qed.

Ltac grown :=
  repeat first
    [ apply grown_retry | apply (preserves_ret grown) | apply (preserves_lift grown) | apply grown_headers
    | apply (preserves_bind grown) | apply (preserves_catch grown) | apply (preserves_map_err grown)
    | apply grown_transport | apply grown_call
    | apply cr_head | apply cr_get | apply cr_post | apply cr_post_bytes | apply cr_put | apply cr_delete
    | apply cr_clock | apply cr_sleep | apply cr_cached
    | progress intros | case_match ].

Lemma grown_push_bytes bytes : preserves grown (push_bytes self bytes).
Proof.
  assert (Htwo : ∀ d, preserves grown (execute_two_step_put self d bytes)).
  { intros d. unfold execute_two_step_put, initialize_upload, request_post_with_auth_retry, or_abort,
      abort_upload_session, request_delete_with_auth_retry, request_put_bytes_with_auth_retry. grown. }
  unfold push_bytes, push_bytes_with_digest, blob_head, request_head_with_auth_retry,
    request_post_bytes_with_auth_retry. repeat first [apply Htwo | progress grown].
Qed.

Lemma grown_get t size : preserves grown (get_with_expected_size self t size).
Proof. unfold get_with_expected_size, request_get_with_auth_retry. grown. Qed.
Lemma grown_fetch_artifact t : preserves grown (fetch_artifact self t).
Proof.
  unfold fetch_artifact, get_with_digest. apply (preserves_bind grown); [apply grown_get|]. grown.
Qed.
Lemma grown_put_conditionally url h expected body op : preserves grown (put_conditionally url tag h expected body op).
Proof. unfold put_conditionally, request_put_bytes_with_auth_retry. grown. Qed.

Lemma auth_retry_sent {A} op (st : A → N) hd send h carry (w w' : W) r :
  (∀ h, preserves grown (send h)) → auth_retry op st hd send h carry w = (w', Ok r) →
  ∃ h1 w1, (h1 = h ∨ ∃ x, h1 = carry x) ∧ grown w w1 ∧ send h1 w1 = (w', Ok r).
Proof.
  intros Hs Ha. unfold auth_retry in Ha. apply io_bind_ok in Ha as (w1 & first & Hf & Ha).
  destruct (st first =? 401); cbn [negb] in Ha.
  - apply io_bind_ok in Ha as (w2 & retry & Hretry & Ha). apply io_bind_ok in Ha as (w3 & second & Hsec & Ha).
    destruct (_ =? _); [done|]. injection Ha as <- <-. exists (carry retry.2), w2.
    split; [by right; eexists|]. split; [|done].
    pose proof (Hs h w) as Hp1. rewrite Hf in Hp1.
    pose proof (preserves_challenge grown cr_cached (λ c w, cr_refresh c w) op (st first) (hd first) w1) as Hp2.
    rewrite Hretry in Hp2. by etrans.
  - injection Ha as <- <-. exists h, w. split; [by left|]. split; [reflexivity|done].
Qed.

(** The version a conditional put replaced satisfies its condition. *)
Definition condition_holds (old : option (list N)) (condition : ManifestCasCondition) : Prop :=
  match condition with
  | CreateOnly => old = None
  | Match d => ∃ o, old = Some o ∧ cd_str (ContentDigest_from_bytes o) = d
  end.
(** [body] was installed in the place of [old], not before [w]. *)
Definition replaced (w w' : W) (old : option (list N)) (body : list N) : Prop :=
  ∃ pre post, history w' = pre ++ old :: Some body :: post ∧ (length (history w) ≤ S (length pre))%nat.

Lemma replaced_grown w0 w w' old body : grown w0 w → replaced w w' old body → replaced w0 w' old body.
Proof.
  intros Hg%prefix_length (pre & post & Hh & Hle). exists pre, post. split; [done|]. lia.
Qed.

Lemma put_conditionally_replaces h condition expected body op (w w' : W) :
  states_condition h condition → (∀ x, states_condition (carry_headers h x) condition) →
  put_conditionally (manifest_url (cl_endpoint self) (cl_repo self) tag) tag h expected body op w = (w', Ok tt) →
  ∃ old, replaced w w' old body ∧ condition_holds old condition.
Proof.
  intros Hh Hc Hp. unfold put_conditionally in Hp. apply io_bind_ok in Hp as (w1 & status & Hreq & Hp).
  destruct (_ || _) in Hp; [done|]. apply lift_ok in Hp as [-> Hp]. unfold pushed in Hp.
  destruct ((status =? 200) || (status =? 201) || (status =? 202)) eqn:Hst; [|done].
  assert (Hok : is_success status = true).
  { rewrite !orb_true_iff, !N.eqb_eq in Hst. by destruct Hst as [[->| ->]| ->]. }
  unfold request_put_bytes_with_auth_retry in Hreq. apply io_bind_ok in Hreq as (w2 & [st hd] & Ha & Hst').
  injection Hst' as <- <-. apply auth_retry_sent in Ha as (h1 & w3 & Hh1 & Hg & Hs); [|grown].
  apply io_transport_ok in Hs. simpl in Hok.
  assert (Hh1' : states_condition h1 condition) by (by destruct Hh1 as [->|[x ->]]).
  destruct condition as [|d]; simpl in Hh1'.
  - eapply cr_put_create in Hs as (pre & post & Hh' & Hle); [|done..]. exists None. split; [|done].
    eapply replaced_grown; [done|]. by exists pre, post.
  - eapply cr_put_match in Hs as (pre & old & post & Hh' & Hle & Hd); [|done..]. exists (Some old).
    split; [|by exists old]. eapply replaced_grown; [done|]. by exists pre, post.
Qed.

Lemma index_put_cas_replaces index condition (w w' : W) :
  index_put_cas self tag index condition w = (w', Ok tt) →
  ∃ json old, to_json index = Ok json ∧ replaced w w' old (utf8 json) ∧ condition_holds old condition.
Proof.
  intros Hp. unfold index_put_cas in Hp. apply io_bind_ok in Hp as (w1 & u & Hu & Hp). apply lift_ok in Hu as [-> _].
  apply io_bind_ok in Hp as (w2 & h & Hh & Hp). apply io_bind_ok in Hp as (w3 & [h' expected] & Hc & Hp).
  apply lift_ok in Hc as [-> [Hs1 Hs2]%insert_cas_condition_states].
  apply io_bind_ok in Hp as (w4 & json & Hj & Hp). apply lift_ok in Hj as [-> Hj%map_err_ok].
  eapply put_conditionally_replaces in Hp as (old & Hr & Hc); [|done..]. exists json, old. split; [done|].
  split; [|done]. eapply replaced_grown; [|done]. pose proof (grown_headers w) as Hg. by rewrite Hh in Hg.
Qed.

Lemma grown_index_put_cas index condition : preserves grown (index_put_cas self tag index condition).
Proof. unfold index_put_cas, put_conditionally, request_put_bytes_with_auth_retry. grown. Qed.

(** A loop that ends with success did so in a round that started from the version
    it read. *)
Lemma cas_loop_last {A B R} fuel base modulus pid max_retries attempt
    (read : IO W (option A * ManifestCasCondition)) (mutator : option A → IO W B)
    (put : B → ManifestCasCondition → IO W R) (w w' : W) x :
  preserves grown read → (∀ a, preserves grown (mutator a)) → (∀ b c, preserves grown (put b c)) →
  cas_loop fuel base modulus pid max_retries attempt read mutator put w = (w', Ok (Some x)) →
  ∃ w0 w1 w2 seen c b, grown w w0 ∧ read w0 = (w1, Ok (seen, c)) ∧ mutator seen w1 = (w2, Ok b) ∧
    put b c w2 = (w', Ok x).
Proof.
  intros Hread Hmut Hput. revert attempt w. induction fuel as [|fuel IH]; intros attempt w; cbn [cas_loop]; [done|].
  intros Hl. apply io_bind_ok in Hl as (w0 & attempt' & Ha & Hl). apply lift_ok in Ha as [-> _].
  apply io_bind_ok in Hl as (w1 & [seen c] & Hr & Hl). apply io_bind_ok in Hl as (w2 & b & Hm & Hl).
  apply io_bind_ok in Hl as (w3 & result & Hres & Hl). unfold io_catch in Hres. simpl in Hm, Hres.
  destruct (put b c w2) as [w4 o] eqn:Hp. injection Hres as <- <-.
  destruct o as [y|e|]; [|destruct e; try done|done].
  { injection Hl as <- <-. exists w, w1, w2, seen, c, b. split; [reflexivity|done]. }
  destruct (_ <=? _); [|done]. apply io_bind_ok in Hl as (w5 & u & Hsl & Hl).
  apply IH in Hl as (w0 & w1' & w2' & seen' & c' & b' & Hg & Hrest).
  exists w0, w1', w2', seen', c', b'. split; [|done]. injection Hsl as <- _.
  pose proof (Hread w) as G1. rewrite Hr in G1. pose proof (Hmut seen w1) as G2. rewrite Hm in G2.
  pose proof (Hput b c w2) as G3. rewrite Hp in G3. pose proof (cr_sleep (backoff_ms base modulus pid attempt') w4) as G4.
  etrans; [exact G1|]. etrans; [exact G2|]. etrans; [exact G3|]. etrans; [exact G4|]. exact Hg.
Qed.

Lemma cas_loop_total {A B R} fuel base modulus pid max_retries attempt
    (read : IO W (option A * ManifestCasCondition)) (mutator : option A → IO W B)
    (put : B → ManifestCasCondition → IO W R) (w : W) :
  max_retries + 1 < usize_bound → attempt ≤ max_retries → max_retries < attempt + N.of_nat fuel →
  (cas_loop fuel base modulus pid max_retries attempt read mutator put w).2 ≠ Ok None.
Proof.
  intros Hmax. revert attempt w. induction fuel as [|fuel IH]; intros attempt w Ha Hf; [lia|]. cbn [cas_loop].
  unfold arith_add, arith. destruct (N.ltb_spec (attempt + 1) usize_bound); [|lia].
  unfold mbind, io_bind, lift, io_catch, io_call. destruct (read w) as [w1 [[seen c]|e|]]; try done.
  simpl. destruct (mutator seen w1) as [w2 [b|e|]]; try done.
  destruct (put b c w2) as [w3 [x|e|]]; try done. destruct e; try done.
  destruct (N.leb_spec (attempt + 1) max_retries); [|done]. apply IH; lia.
Qed.

Lemma same_digest_same_bytes (a b : list N) :
  cd_str (ContentDigest_from_bytes a) = cd_str (ContentDigest_from_bytes b) → a = b ∨ collides [a; b].
Proof.
  intros Heq. apply format_digest_inj in Heq; [|apply sha256_digest_bytes..]. simpl in Heq.
  destruct (decide (a = b)) as [|Hne]; [by left|]. right. exists a, b. set_solver.
Qed.

(** The index an update started from is that of the version it replaced. *)
Definition started_from (old : option (list N)) (seen : option OciImageIndex) : Prop :=
  match old with
  | None => seen = None
  | Some o => ∃ body m, artifact_from_str
      (lit "data did not match any variant of untagged enum OciArtifactManifest") body = Ok m ∧
      Artifact_validate_for m (cl_limits self) tag = Ok tt ∧ seen = as_index m ∧
      (utf8 body = o ∨ collides [utf8 body; o])
  end.

Lemma read_artifact_condition (w w' : W) seen condition old :
  read_artifact self tag w = (w', Ok (seen, condition)) → condition_holds old condition → started_from old seen.
Proof.
  intros Hr Hc. unfold read_artifact in Hr. apply io_bind_ok in Hr as (w1 & artifact & Hf & Hr).
  destruct artifact as [artifact|]; injection Hr as _ <- <-; [|by rewrite Hc].
  destruct Hc as (o & -> & Hd). unfold fetch_artifact in Hf. apply io_bind_ok in Hf as (w2 & r & Hg & Hf).
  destruct r as [[body digest]|]; [|done]. apply io_bind_ok in Hf as (w3 & m & Hm & Hf).
  apply lift_ok in Hm as [-> Hm%map_err_ok]. apply io_bind_ok in Hf as (w4 & u & Hv & Hf).
  apply lift_ok in Hv as [-> Hv]. destruct u. injection Hf as _ <-. exists body, m.
  split; [done|]. split; [done|]. split; [done|]. apply same_digest_same_bytes.
  unfold get_with_digest in Hg. apply get_with_expected_size_authentic in Hg as (Hdig & _). cbn [fa_digest] in Hd. congruence.
Qed.

Lemma grown_read_artifact : preserves grown (read_artifact self tag).
Proof. unfold read_artifact. apply (preserves_bind grown); [apply grown_fetch_artifact|]. grown. Qed.

(** *** The same for roots *)

Lemma grown_get_descriptor d : preserves grown (blob_get_descriptor self d).
Proof. unfold blob_get_descriptor, blob_get_verified, request_get_with_auth_retry. grown. Qed.
Lemma grown_decode_root m system target : preserves grown (decode_root_manifest self m system target).
Proof. unfold decode_root_manifest. repeat first [apply grown_get_descriptor | progress grown]. Qed.
Lemma grown_get_image_manifest t : preserves grown (get_image_manifest self t).
Proof. unfold get_image_manifest, get_with_digest. apply (preserves_bind grown); [apply grown_get|]. grown. Qed.

Lemma grown_get_sharded_root t system : preserves grown (get_sharded_root self t system).
Proof.
  unfold get_sharded_root, get_with_digest_and_size.
  repeat first [apply grown_get_image_manifest | apply grown_fetch_artifact | apply grown_decode_root
               | apply grown_get | progress grown].
Qed.
Lemma grown_read_root t system : preserves grown (read_root self t system).
Proof. unfold read_root. apply (preserves_bind grown); [apply grown_get_sharded_root|]. grown. Qed.

Lemma grown_push_root_blob root : preserves grown (push_root_blob self root).
Proof. unfold push_root_blob, push_zstd. repeat first [apply grown_push_bytes | progress grown]. Qed.
Lemma grown_empty_config : preserves grown (ensure_empty_config self).
Proof. unfold ensure_empty_config. repeat first [apply grown_push_bytes | progress grown]. Qed.
Lemma grown_push_root_cas root condition : preserves grown (push_sharded_root_cas self tag root condition).
Proof.
  unfold push_sharded_root_cas, manifest_put_cas.
  repeat first [apply grown_push_root_blob | apply grown_empty_config | apply grown_put_conditionally | progress grown].
Qed.

Lemma manifest_put_cas_replaces json condition (w w' : W) :
  manifest_put_cas self tag json condition w = (w', Ok tt) →
  ∃ old, replaced w w' old (utf8 json) ∧ condition_holds old condition.
Proof.
  intros Hp. unfold manifest_put_cas in Hp. apply io_bind_ok in Hp as (w1 & u & Hu & Hp). apply lift_ok in Hu as [-> _].
  apply io_bind_ok in Hp as (w1 & u1 & He & Hp).
  apply io_bind_ok in Hp as (w2 & h & Hh & Hp). apply io_bind_ok in Hp as (w3 & [h' expected] & Hc & Hp).
  apply lift_ok in Hc as [-> [Hs1 Hs2]%insert_cas_condition_states].
  eapply put_conditionally_replaces in Hp as (old & Hr & Hc); [|done..]. exists old. split; [|done].
  eapply replaced_grown; [|done]. pose proof (grown_headers w1) as G1. rewrite Hh in G1.
  assert (G2 : grown w w1); [|by etrans]. destruct (contains_str _ _).
  - pose proof (grown_empty_config w) as G. by rewrite He in G.
  - injection He as <- _. reflexivity.
Qed.

(** The JSON of the manifest that a root was pushed under. *)
Definition manifest_of_root (root : ShardedArchCacheIndexData) (json : list N) : Prop :=
  ∃ digest size now, Index_validate_structure root = Ok tt ∧
    to_json (build_sharded_arch_index_manifest {|
      sp_root_blob_digest := digest; sp_root_blob_size := size;
      sp_config_digest := EMPTY_CONFIG_DIGEST; sp_config_size := EMPTY_CONFIG_SIZE;
      sp_system := ix_system root; sp_merkle_root := ix_merkle_root root |} now) = Ok json.

Lemma push_root_cas_replaces root condition (w w' : W) digest :
  push_sharded_root_cas self tag root condition w = (w', Ok digest) →
  ∃ json old, manifest_of_root root json ∧ replaced w w' old (utf8 json) ∧ condition_holds old condition ∧
    digest = cd_str (ContentDigest_from_bytes (utf8 json)).
Proof.
  intros Hp. unfold push_sharded_root_cas in Hp. apply io_bind_ok in Hp as (w1 & u & Hu & Hp). apply lift_ok in Hu as [-> _].
  apply io_bind_ok in Hp as (w2 & json & Hj & Hp). apply io_bind_ok in Hp as (w3 & [] & Hm & Hp).
  injection Hp as <- <-. apply manifest_put_cas_replaces in Hm as (old & Hr & Hc). exists json, old.
  pose proof (grown_push_root_blob root w) as G. rewrite Hj in G. split; [|split; [by eapply replaced_grown|done]].
  unfold push_root_blob in Hj. apply io_bind_ok in Hj as (w4 & [] & Hv & Hj). apply lift_ok in Hv as [-> Hv%map_err_ok].
  apply io_bind_ok in Hj as (w5 & [[d size] un] & _ & Hj). apply io_bind_ok in Hj as (w6 & now & _ & Hj).
  apply lift_ok in Hj as [-> Hj%map_err_ok]. by exists (cd_str d), size, now.
Qed.
End cas.

(** [update_cas] is atomic.  Against a registry that honours [If-Match] and
    [If-None-Match], with other clients writing at any time: an update that succeeds has put the
    JSON of an index that the closure computed from exactly the version it replaced (from nothing
    if the tag did not exist), so no version in between is lost; the version replaced is not older
    than the update (up to a SHA-256 collision).  And the update ends after at most
    [max_retries + 1] rounds. *)
Theorem update_cas_atomic {W : Type} `{HttpHeaders} `{!HttpOk} `{UriLib} `{!TransportOps W} `{!TokenOps W}
    `{!ClockOps W} `{Sha2Ok} `{Build} `{SerdeErrors} `{!Serde OciImageIndex} `{!Serde OciImageManifest}
    (self : OciClient) (tag : list N) `{!CasRegistry W (manifest_url (cl_endpoint self) (cl_repo self) tag)}
    (pid max_retries : N) (mutator : option OciImageIndex → IO W OciImageIndex) (w : W)
    (Hmut : ∀ seen w, history w `prefix_of` history (mutator seen w).1) (Hmax : max_retries + 1 < usize_bound) :
  (update_cas self pid tag max_retries mutator w).2 ≠ Ok None ∧
  ∀ w', update_cas self pid tag max_retries mutator w = (w', Ok (Some tt)) →
    ∃ old json, replaced self tag w w' old (utf8 json) ∧
      ∃ seen w1 w2 index, started_from self tag old seen ∧ mutator seen w1 = (w2, Ok index) ∧ to_json index = Ok json.
Proof.
  unfold update_cas. split.
  - unfold mbind at 1, io_bind. unfold lift. destruct (ensure_cas_supported self tag); try done.
    apply cas_loop_total; unfold cas_fuel; lia.
  - intros w' Hu. apply io_bind_ok in Hu as (w0 & u & Hc & Hu). apply lift_ok in Hc as [-> _].
    apply (cas_loop_last self tag) in Hu as (w0 & w1 & w2 & seen & c & index & Hg & Hr & Hm & Hp).
    + apply (index_put_cas_replaces self tag) in Hp as (json & old & Hj & Hrep & Hc). exists old, json. split.
      * assert (Hg2 : grown self tag w w2).
        { pose proof (Hmut seen w1) as G2. rewrite Hm in G2.
          pose proof (grown_fetch_artifact self tag tag w0) as G1. unfold read_artifact, mbind, io_bind in Hr.
          destruct (fetch_artifact self tag w0) as [w3 o]. destruct o as [a|e|]; try done. injection Hr as <- _.
          unfold grown in *. etrans; [done|]. etrans; [done|]. done. }
        by eapply replaced_grown.
      * exists seen, w1, w2, index. split; [|done]. by eapply read_artifact_condition.
    + apply grown_read_artifact.
    + intros a w3. apply Hmut.
    + intros b c. apply grown_index_put_cas.
Qed.

(** C3: [update_sharded_cas] is atomic: against a registry with conditional puts, with other
    clients writing at any time, an update that succeeds has replaced, under the tag of the
    architecture, a version whose digest is that of the root the closure was given (or has
    created the tag, the closure being given nothing), by a manifest that names the Merkle root
    and the system of the valid root the closure returned; the digest returned is that of this
    manifest.  And the update ends after at most [max_retries + 1] rounds. *)
Theorem update_sharded_cas_atomic {W : Type} `{HttpHeaders} `{!HttpOk} `{UriLib} `{!TransportOps W} `{!TokenOps W}
    `{!ClockOps W} `{Sha2Ok} `{Chrono} `{HashIter} `{Build} `{Zstd} `{ZstdEncoder} `{SerdeErrors}
    `{!Serde OciImageIndex} `{!Serde OciImageManifest} `{!Serde ShardedArchCacheIndexData}
    (self : OciClient) (tag : list N) (arch : SystemArch)
    `{!CasRegistry W (manifest_url (cl_endpoint self) (cl_repo self) (arch_tag tag arch))}
    (pid max_retries : N) (mutator : option ShardedArchCacheIndexData → IO W ShardedArchCacheIndexData) (w : W)
    (Hmut : ∀ seen w, history w `prefix_of` history (mutator seen w).1) (Hmax : max_retries + 1 < usize_bound) :
  (update_sharded_cas self pid tag arch max_retries mutator w).2 ≠ Ok None ∧
  ∀ w' digest, update_sharded_cas self pid tag arch max_retries mutator w = (w', Ok (Some digest)) →
    ∃ old json, replaced self (arch_tag tag arch) w w' old (utf8 json) ∧
      digest = cd_str (ContentDigest_from_bytes (utf8 json)) ∧
      ∃ seen w0 w1 w2 root, get_sharded_root self (arch_tag tag arch) arch w0 = (w1, Ok seen) ∧
        old ≫= (λ o, Some (cd_str (ContentDigest_from_bytes o))) = snd <$> seen ∧
        mutator (fst <$> seen) w1 = (w2, Ok root) ∧ manifest_of_root root json.
Proof.
  unfold update_sharded_cas. split.
  - unfold mbind at 1, io_bind. unfold lift. destruct (ensure_cas_supported self tag); try done.
    apply cas_loop_total; unfold cas_fuel; lia.
  - intros w' digest Hu. apply io_bind_ok in Hu as (w0 & u & Hc & Hu). apply lift_ok in Hc as [-> _].
    apply (cas_loop_last self (arch_tag tag arch)) in Hu as (w0 & w1 & w2 & seen & c & root & Hg & Hr & Hm & Hp).
    + apply (push_root_cas_replaces self (arch_tag tag arch)) in Hp as (json & old & Hj & Hrep & Hc & ->). exists old, json.
      pose proof (grown_read_root self (arch_tag tag arch) (arch_tag tag arch) arch w0) as G1. rewrite Hr in G1.
      pose proof (Hmut seen w1) as G2. rewrite Hm in G2. split_and!; [|done|].
      * eapply replaced_grown; [|done]. unfold grown in *. etrans; [exact Hg|]. etrans; [exact G1|exact G2].
      * unfold read_root in Hr. apply io_bind_ok in Hr as (w3 & r & Hr & Hret). exists r, w0, w1, w2, root.
        destruct r as [[data d]|]; injection Hret as <- <- <-.
        -- destruct Hc as (o & -> & <-). done.
        -- simpl in Hc. subst old. done.
    + apply grown_read_root.
    + intros a w3. apply Hmut.
    + intros b c. apply grown_push_root_cas.
Qed.

(** ** Witnesses *)

Lemma sample_get_cons k v (m : list (list N * list N)) k' :
  @header_get sample_http ((k, v) :: m) k' = if decide (k = k') then Some v else @header_get sample_http m k'.
Proof.
  unfold header_get, sample_http. cbn [list_find fst]. destruct (decide (k = k')) as [->|]; [done|].
  by destruct (list_find _ m) as [[]|].
Qed.
Lemma sample_get_filter k (m : list (list N * list N)) k' : k ≠ k' →
  @header_get sample_http (filter (λ p, p.1 ≠ k) m) k' = @header_get sample_http m k'.
Proof.
  intros Hk. induction m as [|[k1 v1] m IH]; [done|]. rewrite filter_cons. destruct (decide _) as [Hd|Hd].
  - by rewrite !sample_get_cons, IH.
  - apply dec_stable in Hd. simpl in Hd. subst k1. by rewrite sample_get_cons, decide_False.
Qed.

Lemma sample_http_ok : @HttpOk sample_http.
Proof.
  split.
  - intros k k' v m. cbn [sample_http header_insert]. rewrite sample_get_cons. case_decide; [done|].
    by apply sample_get_filter.
  - done.
  - intros k v m. done.
  - intros s v. cbn. destruct (forallb _ s) eqn:Hs; [|done]. intros [= <-]. by rewrite Hs.
  - intros s Hs. cbn. assert (forallb (in_range 32 126) s = true) as ->; [|done].
    apply forallb_forall. intros c Hc%list_elem_of_In. rewrite Forall_forall in Hs. specialize (Hs c Hc).
    unfold in_range. apply andb_true_iff. rewrite !N.leb_le. lia.
Qed.

(** A registry with one tag, whose versions it keeps; it accepts every blob. *)
Definition CasWorld : Type := list (list N).
Definition cw_current (w : CasWorld) : option (list N) := last w.
Definition cw_digest `{Sha2} (o : option (list N)) : option (list N) :=
  o ← o; Some (cd_str (ContentDigest_from_bytes o)).
Definition cw_allowed `{Sha2} (h : @HeaderMap sample_http) (w : CasWorld) : bool :=
  match @header_text sample_http h (lit "if-match") with
  | Some d => bool_decide (cw_digest (cw_current w) = Some d)
  | None => true
  end &&
  match @header_text sample_http h (lit "if-none-match") with
  | Some _ => bool_decide (cw_current w = None)
  | None => true
  end.

Definition cas_transport `{Sha2} (url : list N) : @TransportOps CasWorld sample_http :=
  let accepted {A} (w : CasWorld) : CasWorld * outcome TransportError (StatusCode * list A) := (w, Ok (201, [])) in
  @Build_TransportOps CasWorld sample_http (λ _ _ w, (w, Ok (404, [])))
    (λ u _ _ w, (w, match (if decide (u = url) then cw_current w else None) with
                    | Some body => Ok (200, [], body)
                    | None => Ok (404, [], [])
                    end))
    (λ _ _ _ w, (w, Err (TransportIo []))) (λ _ _, accepted) (λ _ _ _, accepted)
    (λ u h body w, if negb (bool_decide (u = url)) then accepted w
                   else if cw_allowed h w then (w ++ [body], Ok (201, [])) else (w, Ok (412, [])))
    (λ _ _ _ _ w, (w, Err (TransportIo []))) (λ _ _ _, accepted) (λ _ _, accepted) (λ _ w, w).
Definition cas_tokens : TokenOps CasWorld := {|
  tm_cached_token := λ w, (w, None); tm_refresh_token := λ _ w, (w, Ok []) |}.
Definition cas_clock : ClockOps CasWorld := {| clock_now := λ w, (w, lit "2024-01-01T00:00:00Z") |}.

Definition cas_registry `{Sha2} (url : list N) :
  @CasRegistry CasWorld sample_http _ (cas_transport url) cas_tokens cas_clock url.
Proof.
  assert (Hput : ∀ h (body : list N) w, w `prefix_of` (tr_put_bytes_with_headers (TransportOps := cas_transport url) url h body w).1
    ∧ ∀ w' status headers, tr_put_bytes_with_headers (TransportOps := cas_transport url) url h body w = (w', Ok (status, headers)) →
      is_success status = true → cw_allowed h w = true ∧ w' = w ++ [body]).
  { intros h body w. cbn. rewrite bool_decide_eq_true_2 by done. cbn [negb].
    destruct (cw_allowed h w); simpl; [split; [by eexists|naive_solver]|]. split; [done|]. by intros ??? [= _ <- _]. }
  assert (Hhist : ∀ w : CasWorld, ∃ pre, None :: (Some <$> w) = pre ++ [cw_current w]).
  { intros w. unfold cw_current. destruct w as [|b w _] using rev_ind; [by exists []|].
    rewrite last_snoc, fmap_app. by eexists (None :: _). }
  refine (@Build_CasRegistry CasWorld sample_http _ (cas_transport url) cas_tokens cas_clock url
    (λ w, None :: (Some <$> w)) _ _ _ _ _ _ _ _ _ _ _ _); try by (intros; reflexivity).
  - intros u h b w. cbn. case_bool_decide; cbn [negb]; [|reflexivity].
    destruct (cw_allowed h w); [|reflexivity]. simpl. rewrite fmap_app. by eexists.
  - intros h body w w' status headers d Hp Hok Hd. destruct (proj2 (Hput h body w) _ _ _ Hp Hok) as [Ha ->].
    unfold cw_allowed in Ha. rewrite Hd in Ha. apply andb_true_iff in Ha as [Ha%bool_decide_eq_true _].
    destruct (Hhist w) as [pre Hpre]. destruct (cw_current w) as [old|]; [|done]. injection Ha as Ha.
    exists pre, old, []. rewrite fmap_app, app_comm_cons, Hpre, <-app_assoc. split_and!; [done| |done].
    rewrite length_app. simpl. lia.
  - intros h body w w' status headers Hp Hok Hd. destruct (proj2 (Hput h body w) _ _ _ Hp Hok) as [Ha ->].
    unfold cw_allowed in Ha. rewrite Hd in Ha. apply andb_true_iff in Ha as [_ Ha%bool_decide_eq_true].
    destruct (Hhist w) as [pre Hpre]. rewrite Ha in Hpre.
    exists pre, []. rewrite fmap_app, app_comm_cons, Hpre, <-app_assoc. split; [done|].
    rewrite length_app. simpl. lia.
Defined.

Definition cas_client : OciClient := {|
  cl_endpoint := sample_endpoint; cl_repo := lit "org/app"; cl_driver := GcpArtifactRegistry;
  cl_limits := OciReadLimits_default |}.
Definition sample_errors : SerdeErrors := {| serde_custom := λ _ _, []; utf8_error := λ _, [] |}.
(** An index as the letter [i] and the number of its children. *)
Definition sample_index_serde : Serde OciImageIndex :=
  let read s := match s with
    | [105; n] => Ok {| oi_schema_version := 2; oi_media_type := OCI_IMAGE_INDEX_MEDIA_TYPE;
                        oi_manifests := replicate (N.to_nat n - 48) (sample_child (OciPlatform_from_system X86_64Linux));
                        oi_annotations := None |}
    | _ => Err [] end in
  {| to_json := λ i, Ok [105; 48 + usize_len (oi_manifests i)]; from_json_str := read; from_json_slice := read |}.
(** A manifest as the letter [m]; the sample cannot read one. *)
Definition sample_manifest_serde : Serde OciImageManifest := {|
  to_json := λ _, Ok [109]; from_json_str := λ _, Err []; from_json_slice := λ _, Err [] |}.

(** The closure adds a child. *)
Definition add_child (seen : option OciImageIndex) : IO CasWorld OciImageIndex :=
  let index := default OciImageIndex_new seen in
  mret {| oi_schema_version := 2; oi_media_type := OCI_IMAGE_INDEX_MEDIA_TYPE;
          oi_manifests := sample_child (OciPlatform_from_system X86_64Linux) :: oi_manifests index;
          oi_annotations := None |}.
Definition latest_url : list N := manifest_url (cl_endpoint cas_client) (cl_repo cas_client) (lit "latest").

Lemma update_cas_atomic_witness :
  @update_cas CasWorld sample_http sample_uri (@cas_transport sample_sha2 latest_url) cas_tokens sample_sha2 sample_build
    sample_errors sample_index_serde sample_manifest_serde cas_client 7 (lit "latest") 3 add_child [lit "i0"]
  = ([lit "i0"; lit "i1"], Ok (Some tt)) ∧
  ∃ old json, @replaced CasWorld sample_http (@cas_transport sample_sha2 latest_url) cas_tokens cas_clock sample_sha2
    cas_client (lit "latest") (@cas_registry sample_sha2 latest_url) [lit "i0"] [lit "i0"; lit "i1"] old (utf8 json).
Proof.
  split; [by vm_compute|].
  destruct (@update_cas_atomic CasWorld sample_http sample_http_ok sample_uri (@cas_transport sample_sha2 latest_url)
    cas_tokens cas_clock sample_sha2 sample_sha2_ok sample_build sample_errors sample_index_serde sample_manifest_serde
    cas_client (lit "latest") (@cas_registry sample_sha2 latest_url) 7 3 add_child [lit "i0"])
    as [_ Hc]; [by intros seen w; reflexivity|by vm_compute|].
  destruct (Hc [lit "i0"; lit "i1"]) as (old & json & Hr & _); [by vm_compute|]. by exists old, json.
Defined.

(** *** Roots *)

Section root_samples.
#[local] Existing Instance sample_sha2.
#[local] Existing Instance Types.sample_chrono.
#[local] Existing Instance map_order.
#[local] Existing Instance sample_http.
#[local] Existing Instance sample_uri.
#[local] Existing Instance sample_build.
#[local] Existing Instance sample_errors.
#[local] Existing Instance sample_zstd.
#[local] Existing Instance sample_encoder.
#[local] Existing Instance sample_index_serde.
#[local] Existing Instance sample_manifest_serde.
#[local] Existing Instance cas_tokens.
#[local] Existing Instance cas_clock.

Definition arch_url : list N :=
  manifest_url (cl_endpoint cas_client) (cl_repo cas_client) (arch_tag (lit "latest") X86_64Linux).
#[local] Instance arch_transport : TransportOps CasWorld := cas_transport arch_url.
Definition sample_root_serde : Serde ShardedArchCacheIndexData := {|
  to_json := λ _, Ok [114]; from_json_str := λ _, Err []; from_json_slice := λ _, Err [] |}.
#[local] Existing Instance sample_root_serde.

Lemma sample_push_root ix : Index_validate_structure ix = Ok () →
  push_sharded_root_cas cas_client (arch_tag (lit "latest") X86_64Linux) ix CreateOnly ([] : CasWorld)
  = ([[109]], Ok (cd_str (ContentDigest_from_bytes [109]))).
Proof.
  intros Hv. assert (Hb : push_root_blob cas_client ix ([] : CasWorld) = ([], Ok [109])).
  { unfold push_root_blob, mbind at 1, io_bind, lift at 1. rewrite Hv. by vm_compute. }
  unfold push_sharded_root_cas, mbind at 1, io_bind. 
  change (lift (ensure_cas_supported cas_client (arch_tag (lit "latest") X86_64Linux)) ([] : CasWorld)) with
    (([], Ok tt) : CasWorld * outcome OciError unit). cbv beta iota.
  unfold mbind at 1. rewrite Hb. by vm_compute.
Qed.

Lemma sample_update ix : Index_validate_structure ix = Ok () →
  update_sharded_cas cas_client 7 (lit "latest") X86_64Linux 3 (λ _, mret ix) ([] : CasWorld)
  = ([[109]], Ok (Some (cd_str (ContentDigest_from_bytes [109])))).
Proof.
  intros Hv. unfold update_sharded_cas, mbind, io_bind.
  change (lift (ensure_cas_supported cas_client (lit "latest")) ([] : CasWorld)) with
    (([], Ok tt) : CasWorld * outcome OciError unit). cbv beta iota zeta.
  change (cas_fuel 3) with 4%nat. cbn [cas_loop]. unfold mbind, io_bind.
  assert (Hr : read_root cas_client (arch_tag (lit "latest") X86_64Linux) X86_64Linux ([] : CasWorld)
    = ([], Ok (None, CreateOnly))) by (by vm_compute).
  change (lift (arith_add usize_bound 0 1) ([] : CasWorld)) with (([], Ok 1) : CasWorld * outcome OciError N).
  cbv beta iota. rewrite Hr. cbn [fst snd]. unfold mret, io_ret, io_catch. rewrite (sample_push_root ix Hv). done.
Qed.

Lemma update_sharded_cas_atomic_witness :
  ∃ ix old json, Index_validate_structure ix = Ok () ∧ manifest_of_root ix json ∧
    @replaced CasWorld sample_http arch_transport cas_tokens cas_clock sample_sha2
      cas_client (arch_tag (lit "latest") X86_64Linux) (cas_registry arch_url) [] [[109]] old (utf8 json).
Proof.
  destruct sample_index as (ix & Hv & _). exists ix.
  destruct (@update_sharded_cas_atomic CasWorld sample_http sample_http_ok sample_uri arch_transport cas_tokens cas_clock
    sample_sha2 sample_sha2_ok Types.sample_chrono map_order sample_build sample_zstd sample_encoder sample_errors
    sample_index_serde sample_manifest_serde sample_root_serde cas_client (lit "latest") X86_64Linux
    (cas_registry arch_url) 7 3 (λ _, mret ix) []) as [_ Hc]; [by intros seen w; reflexivity|by vm_compute|].
  destruct (Hc _ _ (sample_update ix Hv)) as (old & json & Hr & _ & seen & w0 & w1 & w2 & root & _ & _ & Hm & Hj).
  exists old, json. injection Hm as _ <-. done.
Defined.
End root_samples.

(** *** Reading a root and a shard *)

Section read_samples.
#[local] Existing Instance sample_sha2.
#[local] Existing Instance Types.sample_chrono.
#[local] Existing Instance map_order.
#[local] Existing Instance sample_http.
#[local] Existing Instance sample_uri.
#[local] Existing Instance sample_build.
#[local] Existing Instance sample_errors.
#[local] Existing Instance sample_zstd.
#[local] Existing Instance sample_index_serde.
#[local] Existing Instance no_tokens.

Definition root_frame : list N := ZSTD_MAGIC ++ [114].
Definition root_frame_digest : list N := cd_str (ContentDigest_from_bytes root_frame).
Definition read_tag : list N := arch_tag (lit "latest") X86_64Linux.
(** A registry with one root manifest and its blob. *)
#[local] Instance read_transport : TransportOps unit := read_only_transport (λ url,
  if decide (url = manifest_url (cl_endpoint sample_client) (cl_repo sample_client) read_tag) then (200, [109])
  else if decide (url = blob_url (cl_endpoint sample_client) (cl_repo sample_client) root_frame_digest)
  then (200, root_frame) else (404, [])).

(** The root that the blob and the manifest stand for. *)
Context (ix : ShardedArchCacheIndexData).
Definition read_params : ShardedArchIndexManifestParams := {|
  sp_root_blob_digest := root_frame_digest; sp_root_blob_size := 5;
  sp_config_digest := EMPTY_CONFIG_DIGEST; sp_config_size := EMPTY_CONFIG_SIZE;
  sp_system := ix_system ix; sp_merkle_root := ix_merkle_root ix |}.
#[local] Instance read_manifest_serde : Serde OciImageManifest := {|
  to_json := λ _, Ok [109];
  from_json_str := λ _, Ok (build_sharded_arch_index_manifest read_params (lit "now"));
  from_json_slice := λ _, Err [] |}.
#[local] Instance read_root_serde : Serde ShardedArchCacheIndexData := {|
  to_json := λ _, Ok [114]; from_json_str := λ _, Err [];
  from_json_slice := λ s, if bool_decide (s = [114]) then Ok ix else Err [] |}.

Hypothesis Hix : index_valid ix.
Hypothesis Hsys : ix_system ix = X86_64Linux.
Hypothesis Hrepo : ix_repo ix = cl_repo sample_client.
Hypothesis Hreg : ix_registry ix = re_authority (cl_endpoint sample_client).
Hypothesis Hempty : Forall (λ d, sd_entry_count d = 0) (ix_shards ix).
Hypothesis Hgc : ix_gc_roots ix = [].

Lemma sample_root_merkle : is_sha256 (ix_merkle_root ix) = true.
Proof. eapply compute_merkle_root_sha256, iv_root, Hix. Qed.

Lemma sample_built_layer target : ∃ layer,
  om_layers (build_sharded_arch_index_manifest read_params (lit "now")) = [layer] ∧
  validate_schema_v8_root (build_sharded_arch_index_manifest read_params (lit "now")) X86_64Linux (ix_merkle_root ix)
    (cl_limits sample_client) target = Ok layer.
Proof.
  destruct (built_root_layer read_params (lit "now") (cl_limits sample_client) target) as (layer & Hl & Hv);
    [by simpl; rewrite Hsys|exact sample_root_merkle|by vm_compute|by vm_compute|by vm_compute|by vm_compute|by vm_compute|].
  exists layer. split; [exact Hl|]. cbn [sp_system sp_merkle_root read_params] in Hv. rewrite Hsys in Hv. exact Hv.
Qed.

Lemma sample_decoded : decode_zstd (from_slice_validated Index_deserialize) root_frame ROOT_INDEX_V8_ZSTD
  (max_index_uncompressed_bytes (cl_limits sample_client)) = Ok {| di_value := ix; di_uncompressed_size := 1 |}.
Proof.
  unfold decode_zstd. change (CacheLayerMediaType_parse ROOT_INDEX_V8_ZSTD) with (Some RootIndexV8Zstd).
  cbn [ok_or mbind outcome_bind].
  assert (decompress_limited root_frame (max_index_uncompressed_bytes (cl_limits sample_client)) = Ok [114]) as ->.
  { set (max := max_index_uncompressed_bytes (cl_limits sample_client)). unfold decompress_limited.
    change (negb (is_empty root_frame)) with true. change (is_valid_magic root_frame) with true.
    cbn [ensure mbind outcome_bind]. change (zstd_open root_frame) with (@Ok CompressionError (list N) [114]).
    cbn [mbind outcome_bind]. assert (Hmax : 1 ≤ saturating_add64 max 1) by (by vm_compute).
    unfold zstd_read, sample_zstd. rewrite take_ge by (cbn [length]; lia).
    cbn [mbind outcome_bind]. assert (Hle : max <? usize_len [114] = false) by (by vm_compute). by rewrite Hle. }
  cbn [map_err mbind outcome_bind]. unfold from_slice_validated.
  change (from_json_slice [114]) with (@Ok (list N) _ ix). cbn [mbind outcome_bind].
  assert (Index_deserialize ix = Ok ix) as ->; [|done]. unfold Index_deserialize.
  assert (for_each (λ d, _ ← ShardDescriptor_deserialize d; Ok tt) (ix_shards ix) = Ok ()) as ->.
  { apply for_each_ok. destruct Hix as [_ _ _ _ _ Hd _]. eapply Forall_impl; [exact Hd|]. intros d Hv.
    unfold ShardDescriptor_deserialize. by rewrite (proj2 (ShardDescriptor_validate_ok d ()) Hv). }
  cbn [mbind outcome_bind]. by rewrite (proj2 (Index_validate_ok ix ()) Hix).
Qed.

Lemma sample_validate_for : Index_validate_for ix X86_64Linux (cl_repo sample_client)
  (re_authority (cl_endpoint sample_client)) (index_validation_limits (cl_limits sample_client)) = Ok ().
Proof.
  unfold Index_validate_for. rewrite (proj2 (Index_validate_ok ix ()) Hix), Hsys, Hrepo, Hreg.
  rewrite !bool_decide_eq_true_2 by done. cbn [ensure andb mbind outcome_bind].
  match goal with |- mbind _ (for_each ?f ?l) = _ => assert (for_each f l = Ok ()) as -> end.
  { apply for_each_ok. eapply Forall_impl; [exact Hempty|]. intros d Hd. unfold ShardDescriptor_is_empty. by rewrite Hd. }
  cbn [mbind outcome_bind]. by rewrite Hgc.
Qed.

Lemma sample_get_root : ∃ digest, get_sharded_root sample_client (lit "latest") X86_64Linux tt = (tt, Ok (Some (ix, digest))).
Proof.
  destruct (sample_built_layer read_tag) as (layer & Hlayer & Hval).
  assert (Hblob : blob_get_descriptor sample_client layer tt = (tt, Ok root_frame)).
  { injection Hlayer as <-. unfold blob_get_descriptor, OciDescriptor_validate_for, blob_get_verified.
    cbn [od_digest od_size od_media_type]. by vm_compute. }
  assert (Hmt : od_media_type layer = ROOT_INDEX_V8_ZSTD) by (by injection Hlayer as <-).
  exists (cd_str (ContentDigest_from_bytes [109])). unfold get_sharded_root. fold read_tag.
  assert (Hm : get_image_manifest sample_client read_tag tt
    = (tt, Ok (Some (build_sharded_arch_index_manifest read_params (lit "now"), cd_str (ContentDigest_from_bytes [109]))))).
  { unfold get_image_manifest, mbind, io_bind.
    assert (get_with_digest sample_client read_tag tt = (tt, Ok (Some ([109], cd_str (ContentDigest_from_bytes [109])))))
      as -> by (by vm_compute).
    change (lift (map_err OciJson (from_json_str [109])) tt) with
      ((tt, Ok (build_sharded_arch_index_manifest read_params (lit "now"))) : unit * outcome OciError OciImageManifest).
    cbv beta iota. unfold lift at 1. rewrite built_manifest_valid by (by vm_compute). done. }
  assert (Hroot : decode_root_manifest sample_client (build_sharded_arch_index_manifest read_params (lit "now"))
    X86_64Linux read_tag tt = (tt, Ok ix)).
  { unfold decode_root_manifest. apply io_bind_ok. exists tt, (ix_merkle_root ix). split; [done|].
    apply io_bind_ok. exists tt, layer. split; [apply lift_ok; split; [reflexivity|exact Hval]|].
    apply io_bind_ok. exists tt, root_frame. split; [exact Hblob|].
    apply io_bind_ok. eexists tt, _. split; [apply lift_ok; split; [reflexivity|rewrite Hmt; exact sample_decoded]|].
    cbn [di_value]. apply io_bind_ok. exists tt, (). split; [apply lift_ok; split; [reflexivity|rewrite sample_validate_for; reflexivity]|].
    apply io_bind_ok. exists tt, (). split.
    { apply lift_ok. split; [reflexivity|]. apply for_each_ok. eapply Forall_impl; [exact Hempty|]. intros d Hd.
      unfold ShardDescriptor_is_empty. by rewrite Hd. }
    apply io_bind_ok. exists tt, (). split; [|reflexivity].
    apply lift_ok. split; [reflexivity|]. rewrite bool_decide_eq_true_2 by reflexivity. reflexivity. }
  apply io_bind_ok. eexists tt, _. split; [exact Hm|]. cbv beta iota.
  apply io_bind_ok. eexists tt, _. split; [exact Hroot|reflexivity].
Qed.

Definition no_payload_serde : Serde ShardDataPayload := {|
  to_json := λ _, Err []; from_json_str := λ _, Err []; from_json_slice := λ _, Err [] |}.
#[local] Existing Instance no_payload_serde.
Definition empty_payload : ShardDataPayload := {|
  pl_version := SCHEMA_VERSION_V8; pl_shard_id := 0; pl_prefix := shard_id_to_prefix 0; pl_entries := ∅ |}.

Lemma sample_get_shard d : Index_find_shard_by_id ix 0 = Some d →
  get_shard_data sample_client d X86_64Linux tt = (tt, Ok empty_payload) ∧
  Payload_compute_merkle_hash empty_payload = Ok (sd_merkle_hash d).
Proof.
  intros Hd. destruct (index_valid_lookup ix 0 Hix) as (d' & Hd' & Hid & Hv); [lia|]. rewrite Hd in Hd'. injection Hd' as <-.
  assert (Hz : sd_entry_count d = 0).
  { rewrite Forall_forall in Hempty. apply Hempty. by eapply list_elem_of_lookup_2. }
  pose proof Hv as (_ & _ & Hm). unfold ShardDescriptor_is_empty in Hm. rewrite Hz, Hid in Hm. cbn [N.eqb] in Hm.
  destruct Hm as (Hb & Hc & Hu & Hm).
  assert (Hhash : Payload_compute_merkle_hash empty_payload = Ok (sd_merkle_hash d)).
  { rewrite Hm. apply compute_empty_shard. lia. }
  split; [|exact Hhash]. unfold get_shard_data. apply io_bind_ok. exists tt, ().
  split; [apply lift_ok; split; [reflexivity|]; by rewrite (proj2 (ShardDescriptor_validate_ok d ()) Hv)|].
  rewrite Hz, Hb, Hc, Hu, Hid. cbn [N.eqb]. apply io_bind_ok. exists tt, false. split; [|reflexivity].
  change (N.of_nat NUM_SHARDS <=? 0) with false. cbn [is_empty negb orb N.eqb].
  apply io_bind_ok. exists tt, empty_payload. split; [reflexivity|].
  apply io_bind_ok. exists tt, (sd_merkle_hash d). split; [apply lift_ok; split; [reflexivity|]; rewrite Hhash; reflexivity|].
  rewrite bool_decide_eq_true_2 by reflexivity. reflexivity.
Qed.
End read_samples.

(** A root without entries, for the sample client. *)
Lemma sample_read_index : ∃ ix, @index_valid sample_sha2 Types.sample_chrono map_order ix ∧ ix_system ix = X86_64Linux ∧
  ix_repo ix = cl_repo sample_client ∧ ix_registry ix = re_authority (cl_endpoint sample_client) ∧
  Forall (λ d, sd_entry_count d = 0) (ix_shards ix) ∧ ix_gc_roots ix = [] ∧ Forall descriptor_rep (ix_shards ix).
Proof.
  destruct (@empty_shards_ok sample_sha2 Types.sample_chrono map_order) as (shards & _ & Hids & Hv & Hz).
  exists {| ix_version := 8; ix_system := X86_64Linux; ix_repo := cl_repo sample_client;
    ix_registry := re_authority (cl_endpoint sample_client); ix_generated := @to_rfc3339_secs Types.sample_chrono 29;
    ix_public_key := []; ix_shards := shards;
    ix_merkle_root := format_digest (@sha256 sample_sha2 (@merkle_root_message sample_sha2 shards));
    ix_gc_roots := []; ix_last_promoted_run := None |}.
  split_and!; try reflexivity; [|exact Hz|].
  - split; cbn [ix_version ix_system ix_repo ix_registry ix_generated ix_shards ix_merkle_root].
    + reflexivity.
    + reflexivity.
    + by vm_compute.
    + by vm_compute.
    + exact Hids.
    + exact Hv.
    + apply (@compute_merkle_root_ok sample_sha2 sample_sha2_ok). exists shards.
      split_and!; [reflexivity|exact Hids|exact Hv|reflexivity].
  - apply Forall_forall. intros d Hd. rewrite Forall_forall in Hv, Hz. cbn [ix_shards] in Hd.
    destruct (Hv d Hd) as (_ & _ & Hdv). unfold ShardDescriptor_is_empty in Hdv. specialize (Hz d Hd).
    rewrite Hz in Hdv. cbn [N.eqb] in Hdv. destruct Hdv as (_ & Hc & Hu & _). unfold descriptor_rep. rewrite Hc, Hu, Hz.
    by vm_compute.
Qed.

Lemma read_path_authenticated_witness :
  ∃ ix, ix_system ix = X86_64Linux ∧ @root_accepted sample_sha2 Types.sample_chrono map_order sample_client ix X86_64Linux.
Proof.
  destruct sample_read_index as (ix & Hv & Hsys & Hrepo & Hreg & Hz & Hgc & Hrep). exists ix. split; [exact Hsys|].
  destruct (sample_get_root ix Hv Hsys Hrepo Hreg Hz Hgc) as [digest Hroot].
  destruct (@index_valid_lookup sample_sha2 Types.sample_chrono map_order ix 0 Hv) as (d & Hd & _); [lia|].
  destruct (sample_get_shard ix Hv Hz d Hd) as [Hshard Hhash].
  refine (proj1 (@read_path_authenticated unit sample_http sample_uri read_transport no_tokens sample_sha2 sample_sha2_ok
    Types.sample_chrono map_order sample_zstd sample_errors sample_index_serde (read_manifest_serde ix) (read_root_serde ix)
    no_payload_serde sample_client (lit "latest") X86_64Linux tt tt tt tt ix ix digest 0 d d empty_payload empty_payload
    Hroot Hd Hshard _ Hd Hhash eq_refl _)).
  - exact (proj2 (@Index_validate_ok sample_sha2 sample_sha2_ok Types.sample_chrono map_order ix ()) Hv).
  - split; [exact Hrep|]. split; [exact Hrep|]. split; [apply map_Forall_empty|]. split; [apply map_Forall_empty|].
    split; by vm_compute.
Defined.
