(* ===== verification/Ghcr.v ===== *)
(** * Ghcr: the GitHub Packages client (crates/nixcache-oci/src/backend/ghcr.rs)

    The type of the owner (unknown, organisation, user) is a cell of the client
    object that its calls fill in: it is part of the state, next to the world. *)

From S2P Require Import Prelude Machine Str Text Error Types OciError Transport Endpoint Auth Request Driver Upload Manifest ManifestClient.

Local Open Scope N_scope.

Definition MAX_GITHUB_API_RESPONSE_BYTES : N := 4 * 1024 * 1024.

Record GitHubContainerMetadata := { gc_tags : list (list N) }.
Record GitHubPackageVersionMetadata := { gm_container : option GitHubContainerMetadata }.
Record GitHubPackageVersion := {
  gv_id : N;
  gv_name : list N;
  gv_metadata : option GitHubPackageVersionMetadata }.

(** [OciTransport::delete]. *)
Class DeleteOps (W : Type) `{HttpHeaders} := {
  tr_delete : list N → HeaderMap → W → W * outcome TransportError StatusCode }.

Record GitHubPackagesClient := {
  gh_token : list N;
  gh_owner : list N;
  gh_package_name : list N }.

(** [str::replace('/', "%2F")]. *)
Definition escape_slashes (s : list N) : list N :=
  concat ((λ c, if c =? 47 then lit "%2F" else [c]) <$> s).

Definition GitHubPackagesClient_new (token repo_path : list N) : GitHubPackagesClient :=
  let clean := trim_slash repo_path in
  let '(owner, pkg) :=
    match split_once 47 clean with
    | Some (o, rest) =>
        let pkg_target := if ends_with (lit "/nix-cache") rest || bool_decide (rest = lit "nix-cache") then rest
                          else rest ++ lit "/nix-cache" in
        (o, escape_slashes pkg_target)
    | None => (clean, lit "nix-cache")
    end in
  {| gh_token := token; gh_owner := owner; gh_package_name := pkg |}.

(** An [i32] that is counted up and printed. *)
Definition i32_incr `{Build} (n : Z) : outcome OciError Z :=
  if (n =? 2 ^ 31 - 1)%Z then if overflow_checks then Panic else Ok (- 2 ^ 31)%Z else Ok (n + 1)%Z.
Definition show_Z (n : Z) : list N :=
  if (n <? 0)%Z then 45 :: show_N (Z.abs_N n) else show_N (Z.abs_N n).

Section ghcr.
Context {W : Type} `{HttpHeaders} `{!TransportOps W} `{!DeleteOps W} `{Build} `{OciFormat}.
Context `{!Serde (list GitHubPackageVersion)}.
Context (self : GitHubPackagesClient).

(** The state: the cell [owner_type] (0 unknown, 1 organisation, 2 user) and the world. *)
Definition owner_type : IO (N * W) N := λ s, (s, Ok s.1).
Definition set_owner_type (t : N) : IO (N * W) unit := λ s, ((t, s.2), Ok tt).
Definition gh_call {A} (m : W → W * outcome TransportError A) : IO (N * W) A :=
  λ s, let '(w, o) := io_transport m s.2 in ((s.1, w), o).

Definition get_headers : HeaderMap :=
  let headers := insert_static (lit "user-agent") (lit "nixcache-oci")
                   (insert_static (lit "x-github-api-version") (lit "2022-11-28")
                     (insert_static (lit "accept") (lit "application/vnd.github+json") header_new)) in
  if is_empty (gh_token self) then headers
  else match header_value_from_str (lit "Bearer " ++ gh_token self) with
       | Some val => header_insert (lit "authorization") val headers
       | None => headers
       end.

Definition format_url (is_org : bool) (endpoint_suffix : list N) : list N :=
  let prefix := if is_org then lit "orgs" else lit "users" in
  let suffix := if is_empty endpoint_suffix then []
                else if starts_with (lit "/") endpoint_suffix || starts_with (lit "?") endpoint_suffix
                then endpoint_suffix
                else lit "/" ++ endpoint_suffix in
  lit "https://api.github.com/" ++ prefix ++ lit "/" ++ gh_owner self ++ lit "/packages/container/"
    ++ gh_package_name self ++ suffix.

Definition handle_status_error (action : list N) (status : StatusCode) (body : list N) : OciError :=
  let details := trim (match from_utf8 body with Some s => s | None => lit "<invalid utf-8>" end) in
  let target := gh_owner self ++ lit "/" ++ gh_package_name self in
  if (status =? 403) || (status =? 401) then
    InsufficientPermission target (lit "delete:packages")
      (lit "HTTP " ++ fmt_status status ++ lit " when performing " ++ action ++ lit " on GHCR: " ++ details
       ++ lit ". Remedy: Ensure your token has 'delete:packages' (PAT) or 'packages: write' (GitHub Actions) permissions.")
  else
    DeletionFailed target status
      (lit "HTTP " ++ fmt_status status ++ lit " during " ++ action ++ lit ": " ++ details).

(** ** Listing *)

(** A page that was read: [inl] to ask for the next one, [inr] with the result. *)
Definition take_page (all_versions : list GitHubPackageVersion) (page : Z) (body : list N)
    : outcome OciError (list GitHubPackageVersion * Z + list GitHubPackageVersion) :=
  versions ← map_err OciJson (from_json_slice body);
  let all_versions := all_versions ++ versions in
  if usize_len versions <? 100 then Ok (inr all_versions)
  else page ← i32_incr page; Ok (inl (all_versions, page)).

(** A 404: the package does not exist, unless a page of it has been read. *)
Definition absent_page (all_versions : list GitHubPackageVersion)
    : outcome OciError (list GitHubPackageVersion * Z + list GitHubPackageVersion) :=
  match all_versions with
  | [] => Ok (inr [])
  | _ => Err (DeletionDiscoveryFailed (lit "ghcr_versions") (gh_package_name self)
                (lit "GHCR returned 404 after a partial version listing"))
  end.

(** One round of the loop. *)
Definition versions_page (cached_type : N) (page : Z) (all_versions : list GitHubPackageVersion)
    : IO (N * W) (list GitHubPackageVersion * Z + list GitHubPackageVersion) :=
  let try_orgs_first := negb (cached_type =? 2) in
  let url_suffix := lit "/versions?per_page=100&page=" ++ show_Z page in
  let is_org := if cached_type =? 0 then try_orgs_first else cached_type =? 1 in
  r ← gh_call (tr_get (format_url is_org url_suffix) get_headers MAX_GITHUB_API_RESPONSE_BYTES);
  let '(status, _, body) := r in
  if is_success status then
    _ ← (if cached_type =? 0 then set_owner_type (if is_org then 1 else 2) else mret tt);
    lift (take_page all_versions page body)
  else if (status =? 404) && (cached_type =? 0) && is_org then
    r ← gh_call (tr_get (format_url false url_suffix) get_headers MAX_GITHUB_API_RESPONSE_BYTES);
    let '(user_status, _, user_body) := r in
    if is_success user_status then
      _ ← set_owner_type 2;
      lift (take_page all_versions page user_body)
    else if user_status =? 404 then lift (absent_page all_versions)
    else lift (Err (handle_status_error (lit "list package versions") user_status user_body))
  else if status =? 404 then lift (absent_page all_versions)
  else lift (Err (handle_status_error (lit "list package versions") status body)).

(** The loop has no bound of its own: it asks for pages as long as they are full. *)
Fixpoint versions_loop (fuel : nat) (cached_type : N) (page : Z) (all_versions : list GitHubPackageVersion)
    : IO (N * W) (option (list GitHubPackageVersion)) :=
  match fuel with
  | O => mret None
  | S fuel =>
      next ← versions_page cached_type page all_versions;
      match next with
      | inl (all_versions, page) => versions_loop fuel cached_type page all_versions
      | inr result => mret (Some result)
      end
  end.
Definition list_package_versions (fuel : nat) : IO (N * W) (option (list GitHubPackageVersion)) :=
  cached_type ← owner_type;
  versions_loop fuel cached_type 1%Z [].

Definition version_tags (v : GitHubPackageVersion) : list (list N) :=
  match gv_metadata v with
  | Some meta => match gm_container meta with Some container => gc_tags container | None => [] end
  | None => []
  end.

Definition find_version_id_by_tag (fuel : nat) (tag : list N) : IO (N * W) (option (option N)) :=
  versions ← list_package_versions fuel;
  mret ((λ vs, gv_id <$> head (filter (λ v, tag ∈ version_tags v) vs)) <$> versions).

(** ** Deleting *)

Definition deleted_status (status : StatusCode) : bool := (status =? 204) || (status =? 200) || (status =? 202).

(** The deletion of a version and of the package: the organisation's route first,
    while the type of the owner is not known. *)
Definition delete_at (url_suffix action : list N) : IO (N * W) unit :=
  cached_type ← owner_type;
  let is_org := negb (cached_type =? 2) in
  status ← gh_call (tr_delete (format_url is_org url_suffix) get_headers);
  if deleted_status status then
    if cached_type =? 0 then set_owner_type (if is_org then 1 else 2) else mret tt
  else if (status =? 404) && (cached_type =? 0) && is_org then
    user_status ← gh_call (tr_delete (format_url false url_suffix) get_headers);
    if deleted_status user_status || (user_status =? 404) then set_owner_type 2
    else lift (Err (handle_status_error action user_status []))
  else if status =? 404 then mret tt
  else lift (Err (handle_status_error action status [])).

Definition delete_package_version (version_id : N) : IO (N * W) unit :=
  delete_at (lit "/versions/" ++ show_N version_id) (lit "delete package version").

Definition delete_by_tag (fuel : nat) (tag : list N) : IO (N * W) (option unit) :=
  found ← find_version_id_by_tag fuel tag;
  match found with
  | None => mret None
  | Some (Some version_id) => _ ← delete_package_version version_id; mret (Some tt)
  | Some None => mret (Some tt)
  end.

Definition ghcr_delete_entire_package : IO (N * W) unit := delete_at [] (lit "delete package").
End ghcr.

(** A new client does not know the type of the owner. *)
Definition run_ghcr {W A} (m : IO (N * W) A) : IO W A := λ w, let '((_, w), o) := m (0, w) in (w, o).

(** ** Against a server that keeps a package *)

(** A package of an organisation or of a user: its versions are listed 100 to a
    page under the route of its owner, a deleted version is gone, and the other
    route does not know the package. *)
Class GitHubServer (W : Type) `{HttpHeaders} `{!TransportOps W} `{!DeleteOps W}
    `{!Serde (list GitHubPackageVersion)} (self : GitHubPackagesClient) := {
  gs_versions : W → list GitHubPackageVersion;
  gs_is_org : bool;
  gs_list : ∀ org page h n w, (1 ≤ page)%Z → ∃ w' status headers body,
    tr_get (format_url self org (lit "/versions?per_page=100&page=" ++ show_Z page)) h n w
      = (w', Ok (status, headers, body)) ∧ gs_versions w' = gs_versions w ∧
    if bool_decide (org = gs_is_org)
    then status = 200 ∧
         from_json_slice body = Ok (take 100 (drop (100 * (Z.to_nat page - 1)) (gs_versions w)))
    else status = 404;
  gs_delete : ∀ org id h w, ∃ w' status,
    tr_delete (format_url self org (lit "/versions/" ++ show_N id)) h w = (w', Ok status) ∧
    if bool_decide (org = gs_is_org) && bool_decide (id ∈ gv_id <$> gs_versions w)
    then status = 204 ∧ gs_versions w' = filter (λ v, gv_id v ≠ id) (gs_versions w)
    else status = 404 ∧ gs_versions w' = gs_versions w }.

Section server.
Context {W : Type} `{HttpHeaders} `{!TransportOps W} `{!DeleteOps W} `{Build} `{OciFormat}.
Context `{!Serde (list GitHubPackageVersion)}.
Context (self : GitHubPackagesClient) `{!GitHubServer W self}.

(** The type of the owner as the client records it. *)
Definition owner_code : N := if gs_is_org then 1 else 2.

(** What a page does to a listing of [vs] that has read [k] full pages. *)
Definition page_result (vs : list GitHubPackageVersion) (k : nat)
    : list GitHubPackageVersion * Z + list GitHubPackageVersion :=
  if decide (length vs < 100 * S k)%nat then inr vs else inl (take (100 * S k) vs, Z.of_nat (k + 2)).

Lemma take_page_ok vs k body :
  from_json_slice body = Ok (take 100 (drop (100 * k) vs)) → (100 * k ≤ length vs)%nat →
  (Z.of_nat k + 1 < 2 ^ 31 - 1)%Z →
  take_page (take (100 * k) vs) (Z.of_nat k + 1) body = Ok (page_result vs k).
Proof.
  intros Hb Hk Hz. unfold take_page, page_result. rewrite Hb. cbn [map_err mbind outcome_bind].
  assert (Hl : length (take 100 (drop (100 * k) vs)) = min 100 (length vs - 100 * k))
    by (by rewrite length_take, length_drop).
  rewrite take_take_drop. replace (100 * k + 100)%nat with (100 * S k)%nat by lia.
  unfold usize_len. destruct (decide (length vs < 100 * S k)%nat) as [Hlt|Hge].
  - destruct (N.ltb_spec (N.of_nat (length (take 100 (drop (100 * k) vs)))) 100); [|lia].
    by rewrite take_ge by lia.
  - destruct (N.ltb_spec (N.of_nat (length (take 100 (drop (100 * k) vs)))) 100); [lia|].
    unfold i32_incr. destruct (Z.eqb_spec (Z.of_nat k + 1) (2 ^ 31 - 1)); [lia|].
    cbn [mbind outcome_bind]. do 3 f_equal. lia.
Qed.

Lemma versions_page_ok vs k t (w : W) c :
  gs_versions w = vs → (100 * k ≤ length vs)%nat → (Z.of_nat k + 1 < 2 ^ 31 - 1)%Z →
  c = 0 ∨ c = owner_code ∧ t = owner_code →
  ∃ w', versions_page self c (Z.of_nat k + 1) (take (100 * k) vs) (t, w)
          = ((owner_code, w'), Ok (page_result vs k)) ∧ gs_versions w' = vs.
Proof.
  intros Hvs Hk Hz Hc. unfold versions_page, gh_call, io_transport, mbind, io_bind. cbn [snd].
  set (suffix := lit "/versions?per_page=100&page=" ++ show_Z (Z.of_nat k + 1)).
  assert (Hpage : ∀ org (w : W), gs_versions w = vs → ∃ w' status headers body,
      tr_get (format_url self org suffix) (get_headers self) MAX_GITHUB_API_RESPONSE_BYTES w
        = (w', Ok (status, headers, body)) ∧ gs_versions w' = vs ∧
      if bool_decide (org = gs_is_org)
      then status = 200 ∧ take_page (take (100 * k) vs) (Z.of_nat k + 1) body = Ok (page_result vs k)
      else status = 404).
  { intros org w0 Hw0.
    destruct (gs_list org (Z.of_nat k + 1) (get_headers self) MAX_GITHUB_API_RESPONSE_BYTES w0)
      as (w' & st & hd & body & Hg & Hw' & Hst); [lia|].
    rewrite Hw0 in *. exists w', st, hd, body. split_and!; [done..|]. case_bool_decide; [|done].
    destruct Hst as [-> Hb]. split; [done|]. apply take_page_ok; [|done..].
    by replace (Z.to_nat (Z.of_nat k + 1) - 1)%nat with k in Hb by lia. }
  clearbody suffix. clear Hz. set (all := take (100 * k) vs) in *. clearbody all.
  set (page := (Z.of_nat k + 1)%Z) in *. clearbody page. unfold owner_code in *. destruct gs_is_org eqn:Horg.
  - destruct (Hpage true w Hvs) as (w' & st & hd & body & Hg & Hw' & -> & Ht). exists w'.
    destruct Hc as [->|[-> ->]]; cbn -[take_page format_url get_headers MAX_GITHUB_API_RESPONSE_BYTES]; rewrite Hg; cbn -[take_page format_url get_headers MAX_GITHUB_API_RESPONSE_BYTES]; by rewrite Ht.
  - destruct Hc as [->|[-> ->]].
    + destruct (Hpage true w Hvs) as (w1 & st & hd & body & Hg & Hw1 & ->).
      destruct (Hpage false w1 Hw1) as (w' & st & hd' & body' & Hg' & Hw' & -> & Ht). exists w'.
      cbn -[take_page format_url get_headers MAX_GITHUB_API_RESPONSE_BYTES]. rewrite Hg. cbn -[take_page format_url get_headers MAX_GITHUB_API_RESPONSE_BYTES]. rewrite Hg'. cbn -[take_page format_url get_headers MAX_GITHUB_API_RESPONSE_BYTES]. by rewrite Ht.
    + destruct (Hpage false w Hvs) as (w' & st & hd & body & Hg & Hw' & -> & Ht). exists w'.
      cbn -[take_page format_url get_headers MAX_GITHUB_API_RESPONSE_BYTES]. rewrite Hg. cbn -[take_page format_url get_headers MAX_GITHUB_API_RESPONSE_BYTES]. by rewrite Ht.
Qed.

Lemma versions_loop_ok fuel vs k t (w : W) c :
  gs_versions w = vs → (100 * k ≤ length vs)%nat → (length vs < 100 * (k + fuel))%nat →
  (Z.of_nat (length vs) < 100 * (2 ^ 31 - 3))%Z → c = 0 ∨ c = owner_code ∧ t = owner_code →
  ∃ w', versions_loop self fuel c (Z.of_nat k + 1) (take (100 * k) vs) (t, w)
          = ((owner_code, w'), Ok (Some vs)) ∧ gs_versions w' = vs.
Proof.
  revert k t w. induction fuel as [|fuel IH]; intros k t w Hvs Hk Hf Hz Hc; [lia|].
  destruct (versions_page_ok vs k t w c) as (w1 & Hp & Hw1); [done|done|lia|done|].
  cbn [versions_loop]. unfold mbind, io_bind. rewrite Hp. unfold page_result. case_decide.
  { by exists w1. }
  replace (Z.of_nat (k + 2)) with (Z.of_nat (S k) + 1)%Z by lia.
  apply IH; [done|lia|lia|done|]. destruct Hc as [->|[-> _]]; auto.
Qed.
End server.

(** The listing of a package is complete and ends: a client that does not know the type
    of the owner finds the package of an organisation and of a user alike, whatever the number of
    its versions (a multiple of the page size included), and records the type. *)
Lemma list_package_versions_complete {W : Type} `{HttpHeaders} `{!TransportOps W} `{!DeleteOps W} `{Build}
    `{OciFormat} `{!Serde (list GitHubPackageVersion)} (self : GitHubPackagesClient) `{!GitHubServer W self}
    (fuel : nat) (w : W) :
  (length (gs_versions w) < 100 * fuel)%nat → (Z.of_nat (length (gs_versions w)) < 100 * (2 ^ 31 - 3))%Z →
  ∃ w', list_package_versions self fuel (0, w) = ((owner_code self, w'), Ok (Some (gs_versions w))) ∧
        gs_versions w' = gs_versions w.
Proof.
  intros Hf Hz. apply (versions_loop_ok self fuel (gs_versions w) 0); [done|lia|lia|done|by left].
Qed.


(** ** Witness *)

(** A user's package with one version, which is there or deleted. *)
Definition sample_version : GitHubPackageVersion := {|
  gv_id := 7; gv_name := [];
  gv_metadata := Some {| gm_container := Some {| gc_tags := [lit "v1"; lit "latest"] |} |} |}.
Definition sample_package : GitHubPackagesClient := GitHubPackagesClient_new [] (lit "ada/cache").
Definition sample_versions (present : bool) : list GitHubPackageVersion := if present then [sample_version] else [].

Definition is_user_route (url : list N) : bool := starts_with (lit "https://api.github.com/users") url.
Definition gh_page_url : list N := format_url sample_package false (lit "/versions?per_page=100&page=1").
Definition gh_version_url : list N := format_url sample_package false (lit "/versions/7").

(** The body [[1]] is a page with the version, any other an empty page. *)
Definition gh_serde : Serde (list GitHubPackageVersion) := {|
  to_json := λ _, Err [];
  from_json_str := λ _, Err [];
  from_json_slice := λ body, Ok (sample_versions (bool_decide (body = [1]))) |}.

Definition gh_transport : @TransportOps bool sample_http :=
  let refused {A} (w : bool) : bool * outcome TransportError (StatusCode * A) := (w, Err (TransportIo [])) in
  @Build_TransportOps bool sample_http (λ _ _, refused)
    (λ url _ _ w, (w, Ok (if is_user_route url then 200 else 404, [],
                          if w && bool_decide (url = gh_page_url) then [1] else [])))
    (λ _ _ _ w, (w, Err (TransportIo []))) (λ _ _, refused) (λ _ _ _, refused) (λ _ _ _, refused)
    (λ _ _ _ _ w, (w, Err (TransportIo []))) (λ _ _ _, refused) (λ _ _, refused) (λ _ w, w).
Definition gh_deletes : @DeleteOps bool sample_http :=
  @Build_DeleteOps bool sample_http (λ url _ w,
    if w && bool_decide (url = gh_version_url) then (false, Ok 204) else (w, Ok 404)).

Lemma show_N_inj n m : show_N n = show_N m → n = m.
Proof.
  intros Heq. destruct (show_N_spec n) as (_ & _ & <-). destruct (show_N_spec m) as (_ & _ & <-). by rewrite Heq.
Qed.

Lemma format_url_user c s : s ≠ [] → starts_with (lit "/") s = true →
  format_url c false s = lit "https://api.github.com/users/" ++ gh_owner c ++ lit "/packages/container/"
    ++ gh_package_name c ++ s.
Proof. intros Hs Hs'. unfold format_url. destruct s; [done|]. cbn [is_empty]. by rewrite Hs'. Qed.

Definition gh_server : @GitHubServer bool sample_http gh_transport gh_deletes gh_serde sample_package.
Proof.
  refine (@Build_GitHubServer bool sample_http gh_transport gh_deletes gh_serde sample_package
    sample_versions false _ _).
  - intros [] page h n w Hp; eexists _, _, _, _; (split; [reflexivity|]); split; [done..|done|].
    split; [done|]. cbn [from_json_slice gh_serde]. f_equal. unfold gh_page_url.
    rewrite !format_url_user by done. destruct w; cbn [andb]; [|by destruct (Z.to_nat page) as [|[|k]]].
    destruct (decide (page = 1%Z)) as [->|Hne]; [by vm_compute|].
    rewrite (bool_decide_false (lit _ ++ _ = _)).
    + destruct (Z.to_nat page) as [|[|k]] eqn:Hk; [lia..|]. by rewrite drop_ge by (simpl; lia).
    + intros Heq. do 4 apply app_inv_head in Heq. apply (app_inv_head (lit "/versions?per_page=100&page=")) in Heq.
      unfold show_Z in Heq. destruct (Z.ltb_spec page 0); [lia|].
      apply (show_N_inj _ 1) in Heq. lia.
  - intros org id h w. unfold tr_delete, gh_deletes. destruct org.
    { eexists _, _. split; [|done]. rewrite (bool_decide_false (_ = gh_version_url)) by done.
      by rewrite andb_false_r. }
    unfold gh_version_url. rewrite !format_url_user by done. destruct w; cbn [andb].
    2:{ eexists _, _. by split; [reflexivity|]. }
    destruct (decide (id = 7)) as [->|Hne]; [eexists _, _; by split; [reflexivity|]|].
    rewrite (bool_decide_false (lit _ ++ _ = _)).
    + eexists _, _. split; [reflexivity|]. rewrite (bool_decide_false (id ∈ _)); [done|]. set_solver.
    + intros Heq. do 4 apply app_inv_head in Heq. apply (app_inv_head (lit "/versions/")) in Heq.
      by apply (show_N_inj _ 7) in Heq.
Defined.

