(* ===== verification/Discovery.v ===== *)
(** * Discovery: the objects reachable from the tags of a repository
    (crates/nixcache-oci/src/client/deletion/discovery.rs)

    The worklist of [discover_tag_reachable_graph] runs on fuel, which is proved
    not to run out; the listing of GHCR package versions has no bound in the
    source and its fuel is an argument. *)

From S2P Require Import Prelude Machine Str Text Error Types Sharding Index Filter OciError Transport Endpoint Auth Request Driver Upload Manifest ManifestClient IndexClient Ghcr.

Local Open Scope N_scope.

Definition MAX_DELETION_MANIFESTS : N := 100000.
Definition MAX_DELETION_BLOBS : N := 2000000.

Record DeletionPlan := {
  dp_tags : list (list N);
  dp_manifests : gmap (list N) (list N);
  dp_blobs : gmap (list N) N }.

(** [serde_json::Value] and [from_value]. *)
Class JsonValue := {
  Value : Type;
  value_from_str : list N → outcome (list N) Value;
  value_u64 : Value → list N → option N;
  value_str : Value → list N → option (list N);
  index_from_value : Value → outcome (list N) OciImageIndex;
  manifest_from_value : Value → outcome (list N) OciImageManifest }.

(** A loop over a list that carries a state. *)
Fixpoint io_fold {W A S} (f : S → A → IO W S) (s : S) (l : list A) : IO W S :=
  match l with
  | [] => mret s
  | x :: l => s ← f s x; io_fold f s l
  end.

Definition discovery_error (stage target details : list N) : OciError :=
  DeletionDiscoveryFailed stage target details.

Definition valid_digest (digest : list N) : bool := is_ok (ContentDigest_parse digest).

(** *** Reading a manifest *)

(** [serde_json::from_value::<OciArtifactManifest>]: untagged, the index first. *)
Definition artifact_from_value `{JsonValue} (value : Value) : outcome (list N) OciArtifactManifest :=
  match index_from_value value with
  | Ok index => Ok (ArtifactIndex index)
  | Panic => Panic
  | Err _ =>
      match manifest_from_value value with
      | Ok manifest => Ok (ArtifactManifest manifest)
      | Panic => Panic
      | Err _ => Err (lit "data did not match any variant of untagged enum OciArtifactManifest")
      end
  end.

Definition parse_discovered_manifest `{JsonValue} (body target : list N) : outcome OciError OciArtifactManifest :=
  let failed := discovery_error (lit "manifest_json") target in
  value ← map_err failed (value_from_str body);
  schema_version ← ok_or (failed (lit "missing schemaVersion")) (value_u64 value (lit "schemaVersion"));
  _ ← ensure (schema_version =? 2) (failed (lit "unsupported OCI schemaVersion"));
  media_type ← ok_or (failed (lit "missing mediaType")) (value_str value (lit "mediaType"));
  _ ← ensure (bool_decide (media_type = OCI_IMAGE_INDEX_MEDIA_TYPE)
              || bool_decide (media_type = OCI_IMAGE_MANIFEST_MEDIA_TYPE))
        (failed (lit "unsupported OCI manifest media type '" ++ media_type ++ lit "'"));
  map_err failed (artifact_from_value value).

(** *** The system of a shard that is a layer of its own *)

Definition system_candidates (manifest : OciImageManifest) (layer : OciDescriptor)
    : list (list N * SystemArch) :=
  let of_option name (o : option SystemArch) := match o with Some s => [(name, s)] | None => [] end in
  of_option (lit "manifest config platform") (platform_system (om_config manifest))
  ++ of_option (lit "shard layer platform") (platform_system layer)
  ++ of_option (lit "manifest system annotation")
       (SystemArch_from <$> annotation_of (om_annotations manifest) SYSTEM_KEY)
  ++ of_option (lit "shard layer system annotation")
       (SystemArch_from <$> annotation_of (od_annotations layer) SYSTEM_KEY).

Definition resolve_shard_system (manifest : OciImageManifest) (layer : OciDescriptor) (target : list N)
    : outcome OciError SystemArch :=
  let failed := discovery_error (lit "shard_context") target in
  resolved ← fold_m (λ resolved '(source, system),
      _ ← ensure (SystemArch_is_known system) (failed (source ++ lit " is unknown"));
      _ ← ensure (match resolved with Some previous => bool_decide (previous = system) | None => true end)
            (failed (lit "manifest and shard layer systems do not match"));
      Ok (Some system)) None (system_candidates manifest layer);
  ok_or (failed (lit "direct shard payload has no manifest or layer system")) resolved.

(** *** Blobs of the plan *)

(** [entry(digest).or_insert(size)]. *)
Definition or_insert (blobs : gmap (list N) N) (digest : list N) (size : N) : gmap (list N) N :=
  match blobs !! digest with Some _ => blobs | None => <[digest := size]> blobs end.
Definition with_blobs (plan : DeletionPlan) (blobs : gmap (list N) N) : DeletionPlan :=
  {| dp_tags := dp_tags plan; dp_manifests := dp_manifests plan; dp_blobs := blobs |}.

(** The end of both additions: the limit on new objects, and the insertion. *)
Definition record_blob (plan : DeletionPlan) (digest : list N) (size_ : N) (repo : list N)
    : outcome OciError DeletionPlan :=
  if (MAX_DELETION_BLOBS <=? N.of_nat (size (dp_blobs plan))) && bool_decide (dp_blobs plan !! digest = None)
  then Err (DeletionObjectLimitExceeded repo)
  else Ok (with_blobs plan (or_insert (dp_blobs plan) digest size_)).

Definition add_blob (plan : DeletionPlan) (digest : list N) (size_ : N) (target kind repo : list N)
    : outcome OciError DeletionPlan :=
  _ ← ensure (valid_digest digest)
        (discovery_error (lit "blob_descriptor") target
           (lit "manifest contains an invalid " ++ kind ++ lit " digest"));
  record_blob plan digest size_ repo.

Definition add_nar_blobs `{HashIter} (plan : DeletionPlan) (shard : ShardDataPayload) (target repo : list N)
    : outcome OciError DeletionPlan :=
  fold_m (λ plan entry,
      let digest := NarDigest_as_str (nar_digest entry) in
      _ ← ensure (valid_digest digest)
            (discovery_error (lit "shard_decode") target (lit "shard contains an invalid NAR digest"));
      record_blob plan digest (nar_size entry) repo) plan (map_values (pl_entries shard)).

(** *** The worklist *)

Record DiscoveryState := {
  ds_plan : DeletionPlan;
  ds_pending : list (list N * list N * list N);
  ds_queued : gset (list N);
  ds_decoded : gset (list N) }.

Definition with_plan (st : DiscoveryState) (plan : DeletionPlan) : DiscoveryState :=
  {| ds_plan := plan; ds_pending := ds_pending st; ds_queued := ds_queued st; ds_decoded := ds_decoded st |}.
Definition enqueue (st : DiscoveryState) (item : list N * list N * list N) : DiscoveryState :=
  {| ds_plan := ds_plan st; ds_pending := ds_pending st ++ [item];
     ds_queued := {[ item.1.1 ]} ∪ ds_queued st; ds_decoded := ds_decoded st |}.

Section discovery.
Context {W : Type} `{HttpHeaders} `{UriLib} `{!TransportOps W} `{!TokenOps W}.
Context `{Sha2} `{Chrono} `{HashIter} `{Build} `{Zstd} `{SerdeErrors} `{OciFormat} `{JsonValue}.
Context `{!Serde (option (list (list N)))} `{!Serde (list GitHubPackageVersion)}.
Context `{!Serde ShardedArchCacheIndexData} `{!Serde ShardDataPayload}.
Context (self : OciClient) (auth_token : list N).

Definition in_stage {A} (stage target : list N) (m : IO W A) : IO W A :=
  io_map_err (λ error, discovery_error stage target (display_oci_error error)) m.
Definition core_stage {A} (stage target : list N) (o : outcome CoreError A) : IO W A :=
  lift (map_err (λ error, discovery_error stage target (display_core_error error)) o).

Definition list_tags_for_deletion (fuel : nat) : IO W (option (list (list N))) :=
  listed ← list_tags self;
  match listed with
  | None => mret None
  | Some listed =>
      tags ←
        (if bool_decide (tl_tags listed = [])
            && bool_decide (deletion_strategy (driver_capabilities (cl_driver self)) = GitHubPackagesRestApi)
         then
           versions ← run_ghcr (list_package_versions (GitHubPackagesClient_new auth_token (cl_repo self)) fuel);
           mret ((λ vs, tl_tags listed ++ concat (version_tags <$> vs)) <$> versions)
         else mret (Some (tl_tags listed)));
      mret ((λ tags, dedup (sorted_strings tags)) <$> tags)
  end.

(** The manifest of a tag, when the tag has one that is not queued yet. *)
Definition queue_tag (st : DiscoveryState) (tag : list N) : IO W DiscoveryState :=
  r ← in_stage (lit "manifest_get") tag (get_with_digest self tag);
  match r with
  | None => mret st
  | Some (body, digest) =>
      if bool_decide (digest ∈ ds_queued st) then mret st
      else if MAX_DELETION_MANIFESTS <=? N.of_nat (size (ds_queued st))
      then lift (Err (DeletionObjectLimitExceeded (cl_repo self)))
      else mret (enqueue st (digest, body, tag))
  end.

(** A child of an image index. *)
Definition queue_child (digest source : list N) (st : DiscoveryState) (descriptor : OciDescriptor)
    : IO W DiscoveryState :=
  _ ← in_stage (lit "manifest_descriptor") digest
        (lift (OciDescriptor_validate_for descriptor digest (max_manifest_bytes (cl_limits self))));
  _ ← lift (ensure (bool_decide (od_media_type descriptor = OCI_IMAGE_INDEX_MEDIA_TYPE)
                    || bool_decide (od_media_type descriptor = OCI_IMAGE_MANIFEST_MEDIA_TYPE))
              (discovery_error (lit "manifest_descriptor") digest
                 (lit "unsupported child manifest media type '" ++ od_media_type descriptor ++ lit "'")));
  if bool_decide (od_digest descriptor ∈ ds_queued st) then mret st
  else if MAX_DELETION_MANIFESTS <=? N.of_nat (size (ds_queued st))
  then lift (Err (DeletionObjectLimitExceeded (od_digest descriptor)))
  else
    r ← in_stage (lit "manifest_get") (od_digest descriptor)
          (get_with_digest_and_size self (od_digest descriptor) (od_size descriptor));
    match r with
    | None => lift (Err (discovery_error (lit "manifest_get") (od_digest descriptor)
                           (lit "child manifest disappeared during discovery")))
    | Some (child_body, _) => mret (enqueue st (od_digest descriptor, child_body, source))
    end.

(** A shard that a root index lists. *)
Definition visit_shard (system : SystemArch) (layer_digest : list N) (st : DiscoveryState)
    (shard : ShardDescriptor) : IO W DiscoveryState :=
  if sd_entry_count shard =? 0 then mret st
  else
    let shard_digest := sd_blob_digest shard in
    plan ← lift (add_blob (ds_plan st) shard_digest (sd_compressed_size shard) layer_digest (lit "shard")
                   (cl_repo self));
    if bool_decide (shard_digest ∈ ds_decoded st) then mret (with_plan st plan)
    else
      shard_data ← in_stage (lit "shard_get") shard_digest (get_shard_data self shard system);
      plan ← lift (add_nar_blobs plan shard_data shard_digest (cl_repo self));
      mret {| ds_plan := plan; ds_pending := ds_pending st; ds_queued := ds_queued st;
              ds_decoded := {[ shard_digest ]} ∪ ds_decoded st |}.

(** What a layer of the cache holds, and the blobs it names. *)
Definition visit_cache_layer (manifest : OciImageManifest) (layer : OciDescriptor)
    (layer_type : CacheLayerMediaType) (st : DiscoveryState) : IO W DiscoveryState :=
  layer_bytes ← in_stage (lit "cache_layer_get") (od_digest layer) (blob_get_descriptor self layer);
  match layer_type with
  | RootIndexV8Zstd =>
      root ← in_stage (lit "root_index_decode") (od_digest layer)
               (lift (decode_zstd (from_slice_validated Index_deserialize) layer_bytes (od_media_type layer)
                        (max_index_uncompressed_bytes (cl_limits self))));
      let root := di_value root in
      _ ← core_stage (lit "root_index_validate") (od_digest layer)
            (Index_validate_for root (ix_system root) (cl_repo self) (re_authority (cl_endpoint self))
               (index_validation_limits (cl_limits self)));
      io_fold (visit_shard (ix_system root) (od_digest layer)) st (ix_shards root)
  | ShardDataV8Zstd =>
      shard ← in_stage (lit "shard_decode") (od_digest layer)
                (lift (decode_zstd (from_slice_validated Payload_deserialize) layer_bytes (od_media_type layer)
                         (max_index_uncompressed_bytes (cl_limits self))));
      let shard := di_value shard in
      system ← lift (resolve_shard_system manifest layer (od_digest layer));
      _ ← core_stage (lit "shard_validate") (od_digest layer)
            (Payload_validate_for shard (pl_shard_id shard) system (index_validation_limits (cl_limits self)));
      plan ← lift (add_nar_blobs (ds_plan st) shard (od_digest layer) (cl_repo self));
      mret (with_plan st plan)
  end.

Definition visit_layer (manifest : OciImageManifest) (digest : list N) (st : DiscoveryState)
    (layer : OciDescriptor) : IO W DiscoveryState :=
  plan ← lift (add_blob (ds_plan st) (od_digest layer) (od_size layer) digest (lit "layer") (cl_repo self));
  let st := with_plan st plan in
  match CacheLayerMediaType_parse (od_media_type layer) with
  | None => mret st
  | Some layer_type => visit_cache_layer manifest layer layer_type st
  end.

(** One manifest of the worklist. *)
Definition visit_manifest (digest body source : list N) (st : DiscoveryState) : IO W DiscoveryState :=
  artifact ← lift (parse_discovered_manifest body digest);
  let plan := ds_plan st in
  let st := with_plan st {| dp_tags := dp_tags plan; dp_manifests := <[digest := body]> (dp_manifests plan);
                            dp_blobs := dp_blobs plan |} in
  match artifact with
  | ArtifactIndex index => io_fold (queue_child digest source) st (oi_manifests index)
  | ArtifactManifest manifest =>
      plan ← lift (add_blob (ds_plan st) (od_digest (om_config manifest)) (od_size (om_config manifest)) digest
                     (lit "config") (cl_repo self));
      io_fold (visit_layer manifest digest) (with_plan st plan) (om_layers manifest)
  end.

(** The loop; [None] is fuel used up. *)
Fixpoint discovery_loop (fuel : nat) (st : DiscoveryState) : IO W (option DeletionPlan) :=
  match fuel with
  | O => mret None
  | S fuel =>
      match ds_pending st with
      | [] => mret (Some (ds_plan st))
      | (digest, body, source) :: pending =>
          let st := {| ds_plan := ds_plan st; ds_pending := pending; ds_queued := ds_queued st;
                       ds_decoded := ds_decoded st |} in
          if bool_decide (is_Some (dp_manifests (ds_plan st) !! digest)) then discovery_loop fuel st
          else if MAX_DELETION_MANIFESTS <=? N.of_nat (size (dp_manifests (ds_plan st)))
          then lift (Err (DeletionObjectLimitExceeded (cl_repo self)))
          else
            st ← visit_manifest digest body source st;
            discovery_loop fuel st
      end
  end.
(** One round per manifest, and one to see that none is left. *)
Definition discovery_fuel : nat := N.to_nat (MAX_DELETION_MANIFESTS + 1).

Definition discovery_start (tags : list (list N)) : DiscoveryState :=
  {| ds_plan := {| dp_tags := tags; dp_manifests := ∅; dp_blobs := ∅ |};
     ds_pending := []; ds_queued := ∅; ds_decoded := ∅ |}.

Definition discover_tag_reachable_graph (fuel : nat) : IO W (option DeletionPlan) :=
  listed ← list_tags_for_deletion fuel;
  match listed with
  | None => mret None
  | Some tags =>
      let tags := dedup (sorted_strings tags) in
      st ← io_fold queue_tag (discovery_start tags) tags;
      discovery_loop discovery_fuel st
  end.
End discovery.

(** ** What a plan has to cover

    Content is named by its digest: "the bytes of [digest]" are bytes that hash to it. *)

Section covered.
Context `{Sha2} `{Chrono} `{HashIter} `{Zstd} `{SerdeErrors} `{JsonValue}.
Context `{!Serde ShardedArchCacheIndexData} `{!Serde ShardDataPayload}.
Context (self : OciClient).

Definition bytes_of (digest bytes : list N) : Prop := digest = cd_str (ContentDigest_from_bytes bytes).

(** The blob [digest] holds the shard data [p], the root index [root]. *)
Definition holds_shard (digest : list N) (p : ShardDataPayload) : Prop :=
  ∃ bytes decoded, bytes_of digest bytes ∧ di_value decoded = p ∧
    decode_zstd (from_slice_validated Payload_deserialize) bytes SHARD_DATA_V8_ZSTD
      (max_index_uncompressed_bytes (cl_limits self)) = Ok decoded.
Definition holds_root (digest : list N) (root : ShardedArchCacheIndexData) : Prop :=
  ∃ bytes decoded, bytes_of digest bytes ∧ di_value decoded = root ∧
    decode_zstd (from_slice_validated Index_deserialize) bytes ROOT_INDEX_V8_ZSTD
      (max_index_uncompressed_bytes (cl_limits self)) = Ok decoded.

(** The blobs a shard, a layer and a manifest refer to. *)
Inductive shard_refers (digest : list N) : list N → Prop :=
| refers_nar p k e :
    holds_shard digest p → pl_entries p !! k = Some e →
    shard_refers digest (NarDigest_as_str (nar_digest e)).
Inductive layer_refers (layer : OciDescriptor) : list N → Prop :=
| refers_layer : layer_refers layer (od_digest layer)
| refers_shard root shard :
    CacheLayerMediaType_parse (od_media_type layer) = Some RootIndexV8Zstd → holds_root (od_digest layer) root →
    shard ∈ ix_shards root → sd_entry_count shard ≠ 0 → layer_refers layer (sd_blob_digest shard)
| refers_shard_nar root shard d :
    CacheLayerMediaType_parse (od_media_type layer) = Some RootIndexV8Zstd → holds_root (od_digest layer) root →
    shard ∈ ix_shards root → sd_entry_count shard ≠ 0 → shard_refers (sd_blob_digest shard) d → layer_refers layer d
| refers_layer_nar d :
    CacheLayerMediaType_parse (od_media_type layer) = Some ShardDataV8Zstd → shard_refers (od_digest layer) d →
    layer_refers layer d.
Inductive manifest_refers (m : OciImageManifest) : list N → Prop :=
| refers_config : manifest_refers m (od_digest (om_config m))
| refers_layers layer d : layer ∈ om_layers m → layer_refers layer d → manifest_refers m d.

(** The other direction, over a set of blobs. *)
Definition shard_covered (blobs : gset (list N)) (digest : list N) : Prop :=
  ∃ p, holds_shard digest p ∧ ∀ k e, pl_entries p !! k = Some e → NarDigest_as_str (nar_digest e) ∈ blobs.
Definition root_covered (blobs : gset (list N)) (digest : list N) : Prop :=
  ∃ root, holds_root digest root ∧ ∀ shard, shard ∈ ix_shards root → sd_entry_count shard ≠ 0 →
    sd_blob_digest shard ∈ blobs ∧ shard_covered blobs (sd_blob_digest shard).
Definition layer_covered (blobs : gset (list N)) (layer : OciDescriptor) : Prop :=
  od_digest layer ∈ blobs ∧
  match CacheLayerMediaType_parse (od_media_type layer) with
  | None => True
  | Some RootIndexV8Zstd => root_covered blobs (od_digest layer)
  | Some ShardDataV8Zstd => shard_covered blobs (od_digest layer)
  end.
Definition artifact_covered (manifests blobs : gset (list N)) (a : OciArtifactManifest) : Prop :=
  match a with
  | ArtifactIndex index => ∀ d, d ∈ oi_manifests index → od_digest d ∈ manifests
  | ArtifactManifest m =>
      od_digest (om_config m) ∈ blobs ∧ ∀ layer, layer ∈ om_layers m → layer_covered blobs layer
  end.

(** The manifests the tags reach, through the children of image indexes. *)
Inductive tag_reachable (roots : gset (list N)) (bodies : gmap (list N) (list N)) : list N → Prop :=
| reachable_tag d : d ∈ roots → tag_reachable roots bodies d
| reachable_child parent body index child :
    tag_reachable roots bodies parent → bodies !! parent = Some body →
    parse_discovered_manifest body parent = Ok (ArtifactIndex index) → child ∈ oi_manifests index →
    tag_reachable roots bodies (od_digest child).
(** The blobs its manifests refer to. *)
Definition blob_reachable (bodies : gmap (list N) (list N)) (d : list N) : Prop :=
  ∃ digest body m, bodies !! digest = Some body ∧
    parse_discovered_manifest body digest = Ok (ArtifactManifest m) ∧ manifest_refers m d.

Lemma shard_covered_mono b1 b2 d : b1 ⊆ b2 → shard_covered b1 d → shard_covered b2 d.
Proof. intros Hb (p & Hp & Hc). exists p. split; [done|]. intros k e He. by eapply Hb, Hc. Qed.
Lemma root_covered_mono b1 b2 d : b1 ⊆ b2 → root_covered b1 d → root_covered b2 d.
Proof.
  intros Hb (r & Hr & Hc). exists r. split; [done|]. intros s Hs He. destruct (Hc s Hs He).
  split; [by apply Hb|]. by eapply shard_covered_mono.
Qed.
Lemma layer_covered_mono b1 b2 l : b1 ⊆ b2 → layer_covered b1 l → layer_covered b2 l.
Proof.
  intros Hb [Hl Hc]. split; [by apply Hb|].
  destruct (CacheLayerMediaType_parse _) as [[]|]; eauto using root_covered_mono, shard_covered_mono.
Qed.
Lemma artifact_covered_mono m1 m2 b1 b2 a :
  m1 ⊆ m2 → b1 ⊆ b2 → artifact_covered m1 b1 a → artifact_covered m2 b2 a.
Proof.
  intros Hm Hb. destruct a; [intros Hc d Hd; by apply Hm, Hc|].
  intros [Hc Hl]. split; [by apply Hb|]. intros l Hl'. eapply layer_covered_mono; [done|by apply Hl].
Qed.
Lemma tag_reachable_mono roots m1 m2 d : m1 ⊆ m2 → tag_reachable roots m1 d → tag_reachable roots m2 d.
Proof.
  intros Hm. induction 1 as [d Hd|p b i c Hp IH Hb Hi Hc]; [by constructor|].
  eapply reachable_child; eauto using lookup_weaken.
Qed.
Lemma blob_reachable_mono m1 m2 d : m1 ⊆ m2 → blob_reachable m1 d → blob_reachable m2 d.
Proof. intros Hm (x & b & m & Hb & ? & ?). exists x, b, m. eauto using lookup_weaken. Qed.
End covered.

(** ** The worklist keeps its invariant *)

Lemma io_fold_inv {W A S} (f : S → A → IO W S) (I : S → Prop) (L : S → S → Prop) (C : A → S → Prop)
    `{!PreOrder L} (l : list A) :
  (∀ x s w w' s', x ∈ l → I s → f s x w = (w', Ok s') → I s' ∧ L s s' ∧ C x s') →
  (∀ x s s', L s s' → C x s → C x s') →
  ∀ s w w' s', I s → io_fold f s l w = (w', Ok s') → I s' ∧ L s s' ∧ ∀ x, x ∈ l → C x s'.
Proof.
  intros Hf Hmono. induction l as [|x l IH]; intros s w w' s' Hs; cbn [io_fold].
  { intros [= <- <-]. split_and!; [done..|]. intros x Hx. by apply elem_of_nil in Hx. }
  intros (w1 & s1 & H1 & H2)%io_bind_ok. destruct (Hf x s w w1 s1) as (HI & HL & HC); [by left|done..|].
  destruct (IH (λ y s0 w0 w0' s0' Hy, Hf y s0 w0 w0' s0' (list_elem_of_further _ _ _ Hy)) s1 w1 w' s') as (HI' & HL' & HC');
    [done..|].
  split_and!; [done|by etrans|]. intros y [->|Hy]%elem_of_cons; eauto.
Qed.

Section invariant.
Context {W : Type} `{HttpHeaders} `{UriLib} `{!TransportOps W} `{!TokenOps W}.
Context `{Sha2Ok} `{Chrono} `{HashIter} `{Build} `{Zstd} `{SerdeErrors} `{OciFormat} `{JsonValue}.
Context `{!Serde (option (list (list N)))} `{!Serde (list GitHubPackageVersion)}.
Context `{!Serde ShardedArchCacheIndexData} `{!Serde ShardDataPayload}.
Context (self : OciClient).

Definition pending_digests (st : DiscoveryState) : list (list N) := (λ item, item.1.1) <$> ds_pending st.
Definition plan_blobs (st : DiscoveryState) : gset (list N) := dom (dp_blobs (ds_plan st)).

(** The state while the manifests [ms] have been taken off the list, when all blobs
    satisfy [J] and all manifests queued satisfy [R]. *)
Record visiting (ms : gmap (list N) (list N)) (J R : list N → Prop) (st : DiscoveryState) : Prop := {
  vi_manifests : dp_manifests (ds_plan st) = ms;
  vi_queued : ds_queued st = dom ms ∪ list_to_set (pending_digests st);
  vi_nodup : NoDup (pending_digests st);
  vi_disjoint : ∀ d, d ∈ pending_digests st → d ∉ dom ms;
  vi_bound : N.of_nat (size (ds_queued st)) ≤ MAX_DELETION_MANIFESTS;
  vi_pending : Forall (λ item, bytes_of item.1.1 (utf8 item.1.2)) (ds_pending st);
  vi_decoded : ∀ d, d ∈ ds_decoded st → shard_covered self (plan_blobs st) d;
  vi_blobs : ∀ d, d ∈ plan_blobs st → J d;
  vi_reach : ∀ d, d ∈ ds_queued st → R d }.

Record extends (st st' : DiscoveryState) : Prop := {
  ex_queued : ds_queued st ⊆ ds_queued st';
  ex_blobs : plan_blobs st ⊆ plan_blobs st';
  ex_tags : dp_tags (ds_plan st) = dp_tags (ds_plan st') }.
#[local] Instance extends_preorder : PreOrder extends.
Proof. split; [done|]. intros x y z [] []. split; [set_solver..|congruence]. Qed.

Lemma in_stage_ok {A} stage target (m : IO W A) w w' a : in_stage stage target m w = (w', Ok a) → m w = (w', Ok a).
Proof. unfold in_stage, io_map_err. destruct (m w) as [w1 [x|e|]]; [|done..]. by intros [= <- <-]. Qed.

Lemma record_blob_ok plan d n repo plan' : record_blob plan d n repo = Ok plan' →
  dom (dp_blobs plan') = {[ d ]} ∪ dom (dp_blobs plan) ∧ dp_manifests plan' = dp_manifests plan ∧
  dp_tags plan' = dp_tags plan.
Proof.
  unfold record_blob. destruct (_ && _); [done|]. intros [= <-]. split_and!; [|done..]. simpl. unfold or_insert.
  destruct (dp_blobs plan !! d) eqn:Hd; [|by rewrite dom_insert_L]. apply elem_of_dom_2 in Hd. set_solver.
Qed.
Lemma add_blob_ok plan d n target kind repo plan' : add_blob plan d n target kind repo = Ok plan' →
  dom (dp_blobs plan') = {[ d ]} ∪ dom (dp_blobs plan) ∧ dp_manifests plan' = dp_manifests plan ∧
  dp_tags plan' = dp_tags plan.
Proof. unfold add_blob. intros (u & _ & Hr)%bind_ok. by apply record_blob_ok in Hr. Qed.

Lemma add_nar_blobs_ok plan p target repo plan' : add_nar_blobs plan p target repo = Ok plan' →
  (∀ d, d ∈ dom (dp_blobs plan') ↔
    d ∈ dom (dp_blobs plan) ∨ ∃ k e, pl_entries p !! k = Some e ∧ d = NarDigest_as_str (nar_digest e)) ∧
  dp_manifests plan' = dp_manifests plan ∧ dp_tags plan' = dp_tags plan.
Proof.
  unfold add_nar_blobs. intros Hf.
  enough (Hl : (∀ d, d ∈ dom (dp_blobs plan') ↔ d ∈ dom (dp_blobs plan) ∨
      ∃ e, e ∈ map_values (pl_entries p) ∧ d = NarDigest_as_str (nar_digest e)) ∧
      dp_manifests plan' = dp_manifests plan ∧ dp_tags plan' = dp_tags plan).
  { destruct Hl as (Hl & Hm & Ht). split_and!; [|done..]. intros d. rewrite Hl. f_equiv. split.
    - intros (e & He & ->). apply list_elem_of_fmap in He as ([k e'] & -> & He).
      apply elem_of_hash_iter in He. eauto.
    - intros (k & e & He & ->). exists e. split; [|done]. apply list_elem_of_fmap. exists (k, e).
      split; [done|]. by apply elem_of_hash_iter. }
  revert plan Hf. induction (map_values (pl_entries p)) as [|e l IH]; intros plan Hf; cbn [fold_m] in Hf.
  { injection Hf as ->. split_and!; [|done..]. set_solver. }
  apply bind_ok in Hf as (plan1 & Hr & Hf). apply bind_ok in Hr as (u & _ & (Hd & Hm & Ht)%record_blob_ok).
  apply IH in Hf as (Hd' & Hm' & Ht'). split_and!; [|congruence..]. intros d. rewrite Hd', Hd. set_solver.
Qed.

(** Changing only the blobs, by ones that satisfy [J]. *)
Lemma visiting_plan ms J R st plan : visiting ms J R st →
  plan_blobs st ⊆ dom (dp_blobs plan) → dp_manifests plan = dp_manifests (ds_plan st) →
  dp_tags plan = dp_tags (ds_plan st) → (∀ d, d ∈ dom (dp_blobs plan) → J d) →
  visiting ms J R (with_plan st plan) ∧ extends st (with_plan st plan).
Proof.
  intros [] Hb Hm Ht HJ. split; [|done]. split; try done.
  - by rewrite <-vi_manifests0.
  - intros d Hd. eapply shard_covered_mono; [done|by apply vi_decoded0].
Qed.

Lemma visiting_enqueue ms J R st digest body source : visiting ms J R st →
  digest ∉ ds_queued st → N.of_nat (size (ds_queued st)) < MAX_DELETION_MANIFESTS →
  bytes_of digest (utf8 body) → R digest →
  visiting ms J R (enqueue st (digest, body, source)) ∧ extends st (enqueue st (digest, body, source)).
Proof.
  intros [] Hd Hs Hb HR. split; [|split; [set_solver|done..]].
  assert (Hp : pending_digests (enqueue st (digest, body, source)) = pending_digests st ++ [digest])
    by (unfold pending_digests, enqueue; cbn [ds_pending]; by rewrite fmap_app).
  rewrite vi_queued0 in Hd. split; try done; try rewrite Hp.
  - simpl. rewrite vi_queued0, list_to_set_app_L. set_solver.
  - apply NoDup_app. split_and!; [done|set_solver|apply NoDup_singleton].
  - set_solver.
  - simpl. rewrite size_union by set_solver. rewrite size_singleton. lia.
  - apply Forall_app. by split; [|apply Forall_singleton].
  - set_solver.
Qed.

Lemma queue_tag_ok J (R : list N → Prop) tag st (w w' : W) st' : (∀ d, R d) → visiting ∅ J R st →
  queue_tag self st tag w = (w', Ok st') →
  visiting ∅ J R st' ∧ extends st st' ∧
  ∃ w1 w2 r, get_with_digest self tag w1 = (w2, Ok r) ∧ ∀ body d, r = Some (body, d) → d ∈ ds_queued st'.
Proof.
  intros HR Hv (w1 & r & Hg%in_stage_ok & Hq)%io_bind_ok. destruct r as [[body d]|].
  2:{ injection Hq as <- <-. split_and!; [done..|]. exists w, w1, None. by split. }
  case_bool_decide as Hd.
  { injection Hq as <- <-. split_and!; [done..|]. exists w, w1, (Some (body, d)). split; [done|]. by intros ?? [= <- <-]. }
  destruct (N.leb_spec MAX_DELETION_MANIFESTS (N.of_nat (size (ds_queued st)))); [done|]. injection Hq as <- <-.
  destruct (visiting_enqueue ∅ J R st d body tag) as [Hv' Hx]; [done..| |by apply HR|].
  { unfold get_with_digest in Hg. by apply get_with_expected_size_authentic in Hg as [Hb _]. }
  split_and!; [done..|]. exists w, w1, (Some (body, d)). split; [done|]. intros ?? [= <- <-]. simpl. set_solver.
Qed.

Lemma queue_child_ok ms J R digest source c st (w w' : W) st' : R (od_digest c) → visiting ms J R st →
  queue_child self digest source st c w = (w', Ok st') →
  visiting ms J R st' ∧ extends st st' ∧ od_digest c ∈ ds_queued st'.
Proof.
  intros HR Hv (w1 & u & Hd%in_stage_ok & Hq)%io_bind_ok. apply lift_ok in Hd as [-> Hd%OciDescriptor_validate_ok].
  apply io_bind_ok in Hq as (w2 & u1 & _ & Hq). case_bool_decide as Hin; [by injection Hq as <- <-|].
  destruct (N.leb_spec MAX_DELETION_MANIFESTS (N.of_nat (size (ds_queued st)))); [done|].
  apply io_bind_ok in Hq as (w3 & r & Hg%in_stage_ok & Hq). destruct r as [[body d]|]; [|done].
  injection Hq as <- <-. unfold get_with_digest_and_size in Hg.
  apply get_with_expected_size_authentic in Hg as (Hb & Hs & _).
  destruct (visiting_enqueue ms J R st (od_digest c) body source) as [Hv' Hx]; [done..| |done|].
  { rewrite <-Hs; [done|]. destruct Hd as [(hex & -> & _)%is_sha256_true _]. apply starts_with_true. eauto. }
  split_and!; [done..|]. simpl. set_solver.
Qed.

Lemma get_shard_data_blob d system (w w' : W) p : sd_entry_count d ≠ 0 →
  get_shard_data self d system w = (w', Ok p) → holds_shard self (sd_blob_digest d) p.
Proof.
  intros Hn Hg. unfold get_shard_data in Hg. apply io_bind_ok in Hg as (w1 & u & _ & Hg).
  destruct (N.eqb_spec (sd_entry_count d) 0); [done|].
  apply io_bind_ok in Hg as (w2 & bytes & Hb & Hg). apply blob_get_descriptor_authentic in Hb as (Hb & _).
  apply io_bind_ok in Hg as (w3 & decoded & Hd & Hg). apply lift_ok in Hd as [-> Hd].
  apply io_bind_ok in Hg as (w4 & u1 & _ & Hg). apply io_bind_ok in Hg as (w5 & u2 & _ & Hg).
  apply io_bind_ok in Hg as (w6 & u3 & _ & Hg). apply io_bind_ok in Hg as (w7 & u4 & _ & Hg).
  injection Hg as _ <-. by exists bytes, decoded.
Qed.

Lemma layer_type_spec s t : CacheLayerMediaType_parse s = Some t → s = CacheLayerMediaType_as_str t.
Proof. unfold CacheLayerMediaType_parse. repeat case_bool_decide; naive_solver. Qed.

(** The entries of a shard become blobs of the plan. *)
Lemma add_nar_blobs_visiting ms J R st plan digest p target repo plan' : visiting ms J R st →
  plan_blobs st ⊆ dom (dp_blobs plan) → dp_manifests plan = dp_manifests (ds_plan st) →
  dp_tags plan = dp_tags (ds_plan st) → (∀ d, d ∈ dom (dp_blobs plan) → J d) →
  holds_shard self digest p → (∀ d, shard_refers self digest d → J d) →
  add_nar_blobs plan p target repo = Ok plan' →
  visiting ms J R (with_plan st plan') ∧ extends st (with_plan st plan') ∧
  shard_covered self (dom (dp_blobs plan')) digest ∧ dom (dp_blobs plan) ⊆ dom (dp_blobs plan').
Proof.
  intros Hv Hb Hm Ht HJ Hp Hr (Hd & Hm' & Ht')%add_nar_blobs_ok.
  assert (Hsub : dom (dp_blobs plan) ⊆ dom (dp_blobs plan')) by (intros d Hd'; apply Hd; by left).
  destruct (visiting_plan ms J R st plan') as [Hv' Hx]; [done|set_solver|congruence..| |].
  { intros d [Hd'|(k & e & He & ->)]%Hd; [by apply HJ|]. apply Hr. by econstructor. }
  split_and!; [done..| |done]. exists p. split; [done|]. intros k e He. apply Hd. eauto.
Qed.

Lemma visit_shard_ok ms J R system layer shard st (w w' : W) st' :
  (sd_entry_count shard ≠ 0 → J (sd_blob_digest shard)) →
  (∀ d, sd_entry_count shard ≠ 0 → shard_refers self (sd_blob_digest shard) d → J d) →
  visiting ms J R st → visit_shard self system layer st shard w = (w', Ok st') →
  visiting ms J R st' ∧ extends st st' ∧
  (sd_entry_count shard ≠ 0 → sd_blob_digest shard ∈ plan_blobs st' ∧
     shard_covered self (plan_blobs st') (sd_blob_digest shard)).
Proof.
  intros HJ HJn Hv Hq. unfold visit_shard in Hq. destruct (N.eqb_spec (sd_entry_count shard) 0) as [|Hn].
  { by injection Hq as <- <-. }
  apply io_bind_ok in Hq as (w1 & plan & Ha & Hq). apply lift_ok in Ha as [-> (Hd & Hm & Ht)%add_blob_ok].
  assert (HJp : ∀ d, d ∈ dom (dp_blobs plan) → J d).
  { intros d. rewrite Hd, elem_of_union, elem_of_singleton. intros [->|Hd']; [by apply HJ|]. by apply Hv. }
  destruct (visiting_plan ms J R st plan) as [Hv1 Hx1]; [done|unfold plan_blobs; set_solver|done..|].
  case_bool_decide as Hdec.
  { injection Hq as <- <-. split_and!; [done..|]. intros _. unfold plan_blobs. simpl. split; [set_solver|].
    by apply Hv1. }
  apply io_bind_ok in Hq as (w2 & p & Hg%in_stage_ok & Hq). apply get_shard_data_blob in Hg; [|done].
  apply io_bind_ok in Hq as (w3 & plan' & Ha & Hq). apply lift_ok in Ha as [-> Ha].
  eapply (add_nar_blobs_visiting ms J R st) in Ha as ([] & Hx & Hc & Hsub); [|done|unfold plan_blobs; set_solver|done..|by eauto].
  injection Hq as <- <-. split_and!; [|by destruct Hx|].
  - split; try done. simpl. intros d [->%elem_of_singleton|Hd']%elem_of_union; [done|]. by apply vi_decoded0.
  - intros _. unfold plan_blobs. simpl. split; [set_solver|done].
Qed.

Lemma visit_cache_layer_ok ms J R m layer t st (w w' : W) st' :
  CacheLayerMediaType_parse (od_media_type layer) = Some t → (∀ d, layer_refers self layer d → J d) →
  od_digest layer ∈ plan_blobs st → visiting ms J R st →
  visit_cache_layer self m layer t st w = (w', Ok st') →
  visiting ms J R st' ∧ extends st st' ∧ layer_covered self (plan_blobs st') layer.
Proof.
  intros Ht HJ Hin Hv Hq. unfold layer_covered. rewrite Ht. pose proof (layer_type_spec _ _ Ht) as Hmt.
  apply io_bind_ok in Hq as (w1 & bytes & Hb%in_stage_ok & Hq).
  apply blob_get_descriptor_authentic in Hb as (Hb & _). destruct t; simpl in Hmt.
  - apply io_bind_ok in Hq as (w2 & root & Hd%in_stage_ok & Hq). apply lift_ok in Hd as [-> Hd].
    apply io_bind_ok in Hq as (w3 & u & _ & Hq). rewrite Hmt in Hd.
    assert (Hr : holds_root self (od_digest layer) (di_value root)) by (by exists bytes, root).
    eapply (io_fold_inv _ (visiting ms J R) extends (λ shard st, sd_entry_count shard ≠ 0 →
      sd_blob_digest shard ∈ plan_blobs st ∧ shard_covered self (plan_blobs st) (sd_blob_digest shard)))
      in Hq as (Hv' & Hx & Hc); [| | |done].
    + split_and!; [done..|by apply Hx|]. by exists (di_value root).
    + intros shard s w0 w0' s' Hs Hvs Hq'. eapply visit_shard_ok in Hq'; [done| | |done].
      * intros Hn. apply HJ. by eapply refers_shard.
      * intros d Hn Hd'. apply HJ. by eapply refers_shard_nar.
    + intros shard s s' [_ Hsub _] Hc Hn. destruct (Hc Hn) as [Hc1 Hc2].
      split; [by apply Hsub|]. by eapply shard_covered_mono.
  - apply io_bind_ok in Hq as (w2 & shard & Hd%in_stage_ok & Hq). apply lift_ok in Hd as [-> Hd].
    apply io_bind_ok in Hq as (w3 & system & _ & Hq). apply io_bind_ok in Hq as (w4 & u & _ & Hq).
    apply io_bind_ok in Hq as (w5 & plan & Ha & Hq). apply lift_ok in Ha as [-> Ha]. injection Hq as <- <-.
    rewrite Hmt in Hd.
    eapply add_nar_blobs_visiting in Ha as (Hv' & Hx & Hc & _); [|done..|apply Hv| |].
    + split_and!; [done..|by apply Hx|exact Hc].
    + by exists bytes, shard.
    + intros d Hd'. apply HJ. by apply refers_layer_nar.
Qed.

Lemma visit_layer_ok ms J R m digest layer st (w w' : W) st' : (∀ d, layer_refers self layer d → J d) →
  visiting ms J R st → visit_layer self m digest st layer w = (w', Ok st') →
  visiting ms J R st' ∧ extends st st' ∧ layer_covered self (plan_blobs st') layer.
Proof.
  intros HJ Hv Hq. apply io_bind_ok in Hq as (w1 & plan & Ha & Hq).
  apply lift_ok in Ha as [-> (Hd & Hm & Ht)%add_blob_ok].
  destruct (visiting_plan ms J R st plan) as [Hv1 Hx1]; [done|unfold plan_blobs; set_solver|done..| |].
  { intros d. rewrite Hd, elem_of_union, elem_of_singleton. intros [->|Hd']; [apply HJ; constructor|]. by apply Hv. }
  assert (Hin : od_digest layer ∈ plan_blobs (with_plan st plan)) by (unfold plan_blobs; simpl; set_solver).
  destruct (CacheLayerMediaType_parse _) as [t|] eqn:Hp.
  - eapply visit_cache_layer_ok in Hq as (Hv' & Hx & Hc); [|done..]. split_and!; [done|by etrans|done].
  - injection Hq as <- <-. split_and!; [done..|]. unfold layer_covered. by rewrite Hp.
Qed.

(** The invariant between two rounds: every manifest taken off the list is covered
    by what is queued and by the blobs of the plan, and nothing else is in the plan. *)
Record discovering (roots : gset (list N)) (st : DiscoveryState) : Prop := {
  di_visiting : visiting (dp_manifests (ds_plan st)) (blob_reachable self (dp_manifests (ds_plan st)))
    (tag_reachable roots (dp_manifests (ds_plan st))) st;
  di_covered : map_Forall (λ digest body, bytes_of digest (utf8 body) ∧
    ∃ a, parse_discovered_manifest body digest = Ok a ∧ artifact_covered self (ds_queued st) (plan_blobs st) a)
    (dp_manifests (ds_plan st)) }.

Definition popped (st : DiscoveryState) (pending : list (list N * list N * list N)) : DiscoveryState :=
  {| ds_plan := ds_plan st; ds_pending := pending; ds_queued := ds_queued st; ds_decoded := ds_decoded st |}.
Definition visited (st : DiscoveryState) (digest body : list N) : DiscoveryState :=
  with_plan st {| dp_tags := dp_tags (ds_plan st); dp_manifests := <[digest := body]> (dp_manifests (ds_plan st));
                  dp_blobs := dp_blobs (ds_plan st) |}.

(** Taking a manifest off the list. *)
Lemma visiting_pop roots st digest body source pending : discovering roots st →
  ds_pending st = (digest, body, source) :: pending →
  let ms := <[digest := body]> (dp_manifests (ds_plan st)) in
  visiting ms (blob_reachable self ms) (tag_reachable roots ms) (visited (popped st pending) digest body) ∧
  extends st (visited (popped st pending) digest body) ∧ digest ∉ dom (dp_manifests (ds_plan st)) ∧
  bytes_of digest (utf8 body).
Proof.
  intros [[] _] Hp ms. unfold pending_digests in *. rewrite Hp in *. cbn [fmap list_fmap fst] in *.
  apply NoDup_cons in vi_nodup0 as [Hnin Hnd]. apply Forall_cons in vi_pending0 as [Hb Hbs].
  assert (Hnew : digest ∉ dom (dp_manifests (ds_plan st))) by (apply vi_disjoint0; left).
  assert (Hms : dp_manifests (ds_plan st) ⊆ ms) by (apply insert_subseteq; by apply not_elem_of_dom).
  split_and!; [|done..]. split; try done.
  - simpl. unfold ms. rewrite vi_queued0, dom_insert_L. simpl. unfold pending_digests, popped. simpl. set_solver.
  - intros d Hd. unfold ms. rewrite dom_insert_L. assert (d ≠ digest) by (by intros ->).
    assert (d ∉ dom (dp_manifests (ds_plan st))) by (apply vi_disjoint0; by right). set_solver.
  - intros d Hd. eapply blob_reachable_mono; [done|]. by apply vi_blobs0.
  - intros d Hd. eapply tag_reachable_mono; [done|]. by apply vi_reach0.
Qed.

Lemma visit_manifest_ok roots st digest body source pending (w w' : W) st' : discovering roots st →
  ds_pending st = (digest, body, source) :: pending →
  visit_manifest self digest body source (popped st pending) w = (w', Ok st') →
  discovering roots st' ∧ extends st st' ∧
  dp_manifests (ds_plan st') = <[digest := body]> (dp_manifests (ds_plan st)).
Proof.
  intros Hi Hp Hq. destruct (visiting_pop roots st digest body source pending Hi Hp) as (Hv & Hx & Hnew & Hb).
  set (ms := <[digest := body]> (dp_manifests (ds_plan st))) in *.
  apply io_bind_ok in Hq as (w1 & a & Ha & Hq). apply lift_ok in Ha as [-> Ha].
  fold (visited (popped st pending) digest body) in Hq.
  assert (Hdig : digest ∈ ds_queued st).
  { destruct Hi as [[] _]. rewrite vi_queued0. unfold pending_digests. rewrite Hp. set_solver. }
  enough (Hend : visiting ms (blob_reachable self ms) (tag_reachable roots ms) st' ∧ extends st st' ∧
      artifact_covered self (ds_queued st') (plan_blobs st') a).
  { destruct Hend as (Hv' & Hx' & Hc). pose proof (vi_manifests _ _ _ _ Hv') as Hms.
    split_and!; [|done..]. split; rewrite Hms; [done|].
    intros d b [[<- <-]|[Hne Hd]]%lookup_insert_Some; [by eauto|].
    destruct (di_covered _ _ Hi d b Hd) as (Hb' & a' & Ha' & Hc'). split; [done|]. exists a'. split; [done|].
    eapply artifact_covered_mono; [by apply Hx'..|done]. }
  destruct a as [index|m].
  - eapply (io_fold_inv _ (visiting ms _ (tag_reachable roots ms)) extends (λ c st, od_digest c ∈ ds_queued st))
      in Hq as (Hv' & Hx' & Hc); [| | |exact Hv].
    + split_and!; [done|by etrans|done].
    + intros c s w0 w0' s' Hc Hvs Hq'. eapply queue_child_ok in Hq'; [done| |done].
      eapply reachable_child; [by eapply tag_reachable_mono, Hv; [|apply Hx]|apply lookup_insert_eq|done..].
    + intros c s s' [] Hc. set_solver.
  - apply io_bind_ok in Hq as (w2 & plan & Hpl & Hq). apply lift_ok in Hpl as [-> (Hd & Hm & Ht)%add_blob_ok].
    assert (HJ : ∀ d, manifest_refers self m d → blob_reachable self ms d).
    { intros d Hd'. exists digest, body, m. split; [apply lookup_insert_eq|done]. }
    eapply (visiting_plan ms _ _ _ plan) in Hv as [Hv1 Hx1]; [|unfold plan_blobs; set_solver|done..|].
    2:{ intros d. rewrite Hd, elem_of_union, elem_of_singleton. intros [->|Hd']; [apply HJ; constructor|]. by apply Hv. }
    eapply (io_fold_inv _ (visiting ms (blob_reachable self ms) (tag_reachable roots ms)) extends
      (λ layer st, layer_covered self (plan_blobs st) layer)) in Hq as (Hv' & Hx' & Hc); [| | |exact Hv1].
    + split_and!; [done|by do 2 (etrans; [done|])|]. split; [|done].
      apply Hx'. unfold plan_blobs. simpl. set_solver.
    + intros layer s w0 w0' s' Hl Hvs Hq'. eapply visit_layer_ok in Hq'; [done| |done].
      intros d Hd'. apply HJ. by eapply refers_layers.
    + intros layer s s' [] Hc. by eapply layer_covered_mono.
Qed.

Lemma discovering_size roots st : discovering roots st →
  N.of_nat (size (dp_manifests (ds_plan st))) ≤ MAX_DELETION_MANIFESTS.
Proof.
  intros [[] _]. rewrite <-size_dom.
  assert (Hle : (size (dom (dp_manifests (ds_plan st))) ≤ size (ds_queued st))%nat)
    by (apply subseteq_size; set_solver). lia.
Qed.

(** The loop ends before its fuel does, in a state with nothing left to visit. *)
Lemma discovery_loop_ok roots fuel st (w w' : W) o : discovering roots st →
  MAX_DELETION_MANIFESTS < N.of_nat (size (dp_manifests (ds_plan st))) + N.of_nat fuel →
  discovery_loop self fuel st w = (w', o) →
  o ≠ Ok None ∧ ∀ plan, o = Ok (Some plan) →
    ∃ st', discovering roots st' ∧ ds_pending st' = [] ∧ ds_plan st' = plan ∧ extends st st'.
Proof.
  revert st w. induction fuel as [|fuel IH]; intros st w Hi Hf; cbn [discovery_loop].
  { pose proof (discovering_size _ _ Hi). lia. }
  destruct (ds_pending st) as [|[[digest body] source] pending] eqn:Hp.
  { intros [= <- <-]. split; [done|]. intros plan [= <-]. by exists st. }
  destruct (visiting_pop roots st digest body source pending Hi Hp) as (_ & _ & Hnew & _).
  cbn [ds_plan]. rewrite bool_decide_false by (by rewrite <-elem_of_dom).
  destruct (N.leb_spec MAX_DELETION_MANIFESTS (N.of_nat (size (dp_manifests (ds_plan st))))).
  { by intros [= <- <-]. }
  fold (popped st pending). unfold mbind, io_bind.
  destruct (visit_manifest self digest body source (popped st pending) w) as [w1 [st1|e|]] eqn:Hq;
    [|by intros [= <- <-]..].
  eapply visit_manifest_ok in Hq as (Hi1 & Hx1 & Hm1); [|done..]. intros Hl.
  apply IH in Hl as [Hn Hok]; [|done|].
  - split; [done|]. intros plan Hplan. destruct (Hok plan Hplan) as (st' & ? & ? & ? & ?).
    exists st'. split_and!; [done..|by etrans].
  - rewrite Hm1, map_size_insert_None by (by apply not_elem_of_dom). lia.
Qed.

Lemma visiting_start J R tags : visiting ∅ J R (discovery_start tags).
Proof.
  split; try done; try set_solver. constructor.
Qed.

(** The tags give the roots. *)
Lemma queue_tags_ok tags (w w' : W) st : io_fold (queue_tag self) (discovery_start tags) tags w = (w', Ok st) →
  discovering (ds_queued st) st ∧ dp_manifests (ds_plan st) = ∅ ∧ dp_tags (ds_plan st) = tags ∧
  ∀ tag, tag ∈ tags → ∃ w1 w2 r, get_with_digest self tag w1 = (w2, Ok r) ∧
    ∀ body d, r = Some (body, d) → d ∈ ds_queued st.
Proof.
  intros Hq. eapply (io_fold_inv _ (visiting ∅ (λ _, False) (λ _, True)) extends (λ tag st,
    ∃ w1 w2 r, get_with_digest self tag w1 = (w2, Ok r) ∧ ∀ body d, r = Some (body, d) → d ∈ ds_queued st))
    in Hq as (Hv & Hx & Hc).
  - pose proof (vi_manifests _ _ _ _ Hv) as Hm. split_and!; [|done|by destruct Hx|done].
    split; rewrite Hm; [|by apply map_Forall_empty]. destruct Hv. split; try done.
    + intros d Hd. by apply vi_blobs0 in Hd.
    + intros d Hd. by constructor.
  - intros tag s w0 w0' s' _ Hv Hs. by eapply queue_tag_ok in Hs.
  - intros tag s s' [] (w1 & w2 & r & Hg & Hr). exists w1, w2, r. split; [done|]. intros body d Hd.
    by eapply ex_queued0, Hr.
  - apply visiting_start.
Qed.
End invariant.


(** C33: Discovery ends: on a registry that is not GHCR, whatever it answers, the walk over the
    manifests returns a plan or an error within the limit of 100,000 manifests. *)
Theorem discovery_terminates {W : Type} `{HttpHeaders} `{UriLib} `{!TransportOps W} `{!TokenOps W}
    `{Sha2Ok} `{Chrono} `{HashIter} `{Build} `{Zstd} `{SerdeErrors} `{OciFormat} `{JsonValue}
    `{!Serde (option (list (list N)))} `{!Serde (list GitHubPackageVersion)}
    `{!Serde ShardedArchCacheIndexData} `{!Serde ShardDataPayload}
    (self : OciClient) (auth_token : list N) (fuel : nat) (w : W) :
  cl_driver self ≠ Ghcr →
  (discover_tag_reachable_graph self auth_token fuel w).2 ≠ Ok None ∧
  ∀ plan, (discover_tag_reachable_graph self auth_token fuel w).2 = Ok (Some plan) →
    N.of_nat (size (dp_manifests plan)) ≤ MAX_DELETION_MANIFESTS.
Proof.
  intros Hd. unfold discover_tag_reachable_graph, list_tags_for_deletion, mbind, io_bind.
  pose proof (list_tags_loop_total self list_tags_fuel
    {| ts_all_tags := []; ts_last_tag := None; ts_pages_fetched := 0 |} w) as Ht.
  specialize (Ht ltac:(unfold list_tags_fuel, MAX_TAG_PAGES; simpl ts_pages_fetched; lia)
    ltac:(unfold list_tags_fuel, MAX_TAG_PAGES; lia)).
  fold (list_tags self) in Ht. destruct (list_tags self w) as [w1 [[listed|]|e|]]; try done.
  rewrite (bool_decide_false (deletion_strategy _ = _)) by (by destruct (cl_driver self)).
  rewrite andb_false_r. cbn -[io_fold discovery_fuel]. set (tags := dedup _).
  destruct (io_fold _ _ tags w1) as [w2 [st|e|]] eqn:Hq; [|done..]. apply queue_tags_ok in Hq as (Hi & Hm & _).
  destruct (discovery_loop self discovery_fuel st w2) as [w3 o] eqn:Hl.
  eapply discovery_loop_ok in Hl as [Hn Hok]; [|done|rewrite Hm; unfold discovery_fuel; rewrite map_size_empty; lia].
  split; [done|]. intros plan Hplan. destruct (Hok plan Hplan) as (st' & Hi' & _ & <- & _).
  by eapply discovering_size.
Qed.

(** ** Witnesses *)

(** A repository with one tag: an image index with one child, whose only layer is a
    shard with one entry.  The world is the list of the URLs that exist. *)
Section repo_samples.
#[local] Existing Instance sample_sha2.
#[local] Existing Instance sample_http.

Definition repo_manifest_body : list N := lit "m".
Definition repo_index_body : list N := lit "i".
Definition repo_manifest_digest : list N := cd_str (ContentDigest_from_bytes repo_manifest_body).
Definition repo_index_digest : list N := cd_str (ContentDigest_from_bytes repo_index_body).
Definition shard_frame : list N := ZSTD_MAGIC ++ [115].
Definition shard_frame_digest : list N := cd_str (ContentDigest_from_bytes shard_frame).
Definition repo_nar_digest : list N := lit "sha256:0d1b50428e2194f481ad1cf387f3b8908861cf12674e1d743a6d9627fb2e2ff0".

Definition repo_descriptor (media_type digest : list N) (size_ : N) : OciDescriptor := {|
  od_media_type := media_type; od_digest := digest; od_size := size_; od_platform := None; od_annotations := None |}.
Definition repo_manifest : OciImageManifest := {|
  om_schema_version := 2; om_media_type := OCI_IMAGE_MANIFEST_MEDIA_TYPE;
  om_config := repo_descriptor OCI_IMAGE_CONFIG_MEDIA_TYPE EMPTY_CONFIG_DIGEST 2;
  om_layers := [repo_descriptor SHARD_DATA_V8_ZSTD shard_frame_digest 5];
  om_annotations := Some {[ SYSTEM_KEY := lit "x86_64-linux" ]} |}.
Definition repo_index : OciImageIndex := {|
  oi_schema_version := 2; oi_media_type := OCI_IMAGE_INDEX_MEDIA_TYPE;
  oi_manifests := [repo_descriptor OCI_IMAGE_MANIFEST_MEDIA_TYPE repo_manifest_digest 1];
  oi_annotations := None |}.

Definition repo_url (digest : list N) : list N :=
  manifest_url (cl_endpoint sample_client) (cl_repo sample_client) digest.
Definition repo_blob (digest : list N) : list N :=
  blob_url (cl_endpoint sample_client) (cl_repo sample_client) digest.
Definition repo_world : list (list N) :=
  [repo_url repo_index_digest; repo_url repo_manifest_digest; repo_blob EMPTY_CONFIG_DIGEST;
   repo_blob shard_frame_digest; repo_blob repo_nar_digest].

(** The tag [[100]] names the index while it exists. *)
Definition repo_resolve (url : list N) : list N :=
  if bool_decide (url = repo_url [100]) then repo_url repo_index_digest else url.
Definition repo_get (w : list (list N)) (url : list N) : N * list N :=
  if bool_decide (url = first_page_url)
  then (200, [if bool_decide (repo_url repo_index_digest ∈ w) then 1 else 0])
  else
    let url := repo_resolve url in
    if bool_decide (url ∉ w) then (404, [])
    else (200, if bool_decide (url = repo_url repo_index_digest) then repo_index_body
               else if bool_decide (url = repo_url repo_manifest_digest) then repo_manifest_body else shard_frame).

Definition repo_transport : TransportOps (list (list N)) :=
  let refused {A} (w : list (list N)) : list (list N) * outcome TransportError (StatusCode * A) :=
    (w, Err (TransportIo [])) in
  @Build_TransportOps (list (list N)) sample_http
    (λ url _ w, (w, Ok (if bool_decide (repo_resolve url ∈ w) then 200 else 404, [])))
    (λ url _ _ w, (w, let '(status, body) := repo_get w url in Ok (status, [], body)))
    (λ _ _ _ w, (w, Err (TransportIo []))) (λ _ _, refused) (λ _ _ _, refused) (λ _ _ _, refused)
    (λ _ _ _ _ w, (w, Err (TransportIo []))) (λ _ _ _, refused)
    (λ url _ w, (filter (λ u, u ≠ repo_resolve url) w,
                 Ok (if bool_decide (repo_resolve url ∈ w) then 202 else 404, [])))
    (λ _ w, w).
Definition repo_tokens : TokenOps (list (list N)) := {|
  tm_cached_token := λ w, (w, None); tm_refresh_token := λ _ w, (w, Ok []) |}.
Definition repo_json : JsonValue := {|
  Value := list N;
  value_from_str := Ok;
  value_u64 := λ _ _, Some 2;
  value_str := λ v _, Some (if bool_decide (v = repo_index_body) then OCI_IMAGE_INDEX_MEDIA_TYPE
                            else OCI_IMAGE_MANIFEST_MEDIA_TYPE);
  index_from_value := λ v, if bool_decide (v = repo_index_body) then Ok repo_index else Err [];
  manifest_from_value := λ _, Ok repo_manifest |}.
Definition repo_payload_serde : Serde ShardDataPayload := {|
  to_json := λ _, Err []; from_json_str := λ _, Err []; from_json_slice := λ _, Ok sample_payload |}.
Definition repo_root_serde : Serde ShardedArchCacheIndexData := {|
  to_json := λ _, Err []; from_json_str := λ _, Err []; from_json_slice := λ _, Err [] |}.

Definition repo_plan : DeletionPlan := {|
  dp_tags := [[100]];
  dp_manifests := <[repo_manifest_digest := repo_manifest_body]> {[ repo_index_digest := repo_index_body ]};
  dp_blobs := <[repo_nar_digest := 100]> (<[shard_frame_digest := 5]> {[ EMPTY_CONFIG_DIGEST := 2 ]}) |}.

Definition repo_discover : IO (list (list N)) (option DeletionPlan) :=
  @discover_tag_reachable_graph (list (list N)) sample_http sample_uri repo_transport repo_tokens
    sample_sha2 Types.sample_chrono map_order sample_build sample_zstd sample_errors sample_format repo_json
    sample_tags_serde gh_serde repo_root_serde repo_payload_serde sample_client [] 0.

Lemma repo_discovered : repo_discover repo_world = (repo_world, Ok (Some repo_plan)).
Proof. by vm_compute. Qed.


Lemma discovery_terminates_witness :
  cl_driver sample_client ≠ Ghcr ∧ (repo_discover repo_world).2 ≠ Ok None ∧
  N.of_nat (size (dp_manifests repo_plan)) ≤ MAX_DELETION_MANIFESTS.
Proof.
  split; [done|].
  destruct (@discovery_terminates (list (list N)) sample_http sample_uri repo_transport repo_tokens sample_sha2
    sample_sha2_ok Types.sample_chrono map_order sample_build sample_zstd sample_errors sample_format repo_json
    sample_tags_serde gh_serde repo_root_serde repo_payload_serde sample_client [] 0 repo_world) as [Hn Hs]; [done|].
  split; [exact Hn|]. apply Hs. fold repo_discover. by rewrite repo_discovered.
Defined.
End repo_samples.
