(* ===== verification/Deletion.v ===== *)
(** * Deletion: tags, manifests, blobs and whole packages
    (crates/nixcache-oci/src/client/deletion.rs, client/deletion/operations.rs) *)

From S2P Require Import Prelude Machine Str Text Error Types Sharding Index Filter OciError Transport Endpoint Auth Request Driver Upload Manifest ManifestClient IndexClient Ghcr Discovery.

Local Open Scope N_scope.

(** ** Data *)

Record BlobDeletionTarget := { bt_digest : NarDigest; bt_size : N }.
Inductive ManifestDeletionOutcome := ManifestDeleted | ManifestAlreadyAbsent.
Inductive BlobDeletionOutcome := BlobDeleted (bytes : N) | BlobAlreadyAbsent.
Inductive DeletionObjectType := ManifestObject | BlobObject | TagObject.
Inductive DeletionFailureKind :=
| PermissionDenied | NotSupported | FailedHttpStatus | FailedTransport | FailedVerification | OtherFailure.
Record DeletionFailure := {
  df_digest : list N;
  df_object_type : DeletionObjectType;
  df_kind : DeletionFailureKind;
  df_details : list N }.

Record DeletionSummary := {
  su_requested : N;
  su_deleted : N;
  su_already_absent : N;
  su_failed : N;
  su_deleted_bytes : N;
  su_failures : list DeletionFailure }.
Definition DeletionSummary_default (requested : N) : DeletionSummary :=
  {| su_requested := requested; su_deleted := 0; su_already_absent := 0; su_failed := 0; su_deleted_bytes := 0;
     su_failures := [] |}.
Definition DeletionSummary_is_complete `{Build} (self : DeletionSummary) : bool :=
  (su_failed self =? 0) && (su_failed self =? usize_len (su_failures self))
  && (su_requested self =? N.min (su_deleted self + su_already_absent self) (usize_bound - 1)).
Inductive DeletionBatchResult := BatchComplete (s : DeletionSummary) | BatchPartial (s : DeletionSummary).

Inductive PackageDeletionScope := TagReachableGraph | NativePackageApi.
Record PackageDeletionSummary := {
  pd_scope : PackageDeletionScope;
  pd_counts_known : bool;
  pd_tags_discovered : N;
  pd_manifests_discovered : N;
  pd_blobs_discovered : N;
  pd_manifests_deleted : N;
  pd_blobs_deleted : N;
  pd_manifests_already_absent : N;
  pd_blobs_already_absent : N;
  pd_deleted_blob_bytes : N;
  pd_failures : list DeletionFailure;
  pd_complete : bool }.
Definition PackageDeletionSummary_default : PackageDeletionSummary := {|
  pd_scope := TagReachableGraph; pd_counts_known := true; pd_tags_discovered := 0; pd_manifests_discovered := 0;
  pd_blobs_discovered := 0; pd_manifests_deleted := 0; pd_blobs_deleted := 0; pd_manifests_already_absent := 0;
  pd_blobs_already_absent := 0; pd_deleted_blob_bytes := 0; pd_failures := []; pd_complete := true |}.

(** [DeletionPlan::summary]. *)
Definition plan_summary (plan : DeletionPlan) : PackageDeletionSummary := {|
  pd_scope := TagReachableGraph; pd_counts_known := true; pd_tags_discovered := usize_len (dp_tags plan);
  pd_manifests_discovered := N.of_nat (size (dp_manifests plan));
  pd_blobs_discovered := N.of_nat (size (dp_blobs plan)); pd_manifests_deleted := 0; pd_blobs_deleted := 0;
  pd_manifests_already_absent := 0; pd_blobs_already_absent := 0; pd_deleted_blob_bytes := 0; pd_failures := [];
  pd_complete := true |}.

(** Field updates of the summary. *)
Definition count_manifest (s : PackageDeletionSummary) (deleted absent : N) : PackageDeletionSummary :=
  {| pd_scope := pd_scope s; pd_counts_known := pd_counts_known s; pd_tags_discovered := pd_tags_discovered s;
     pd_manifests_discovered := pd_manifests_discovered s; pd_blobs_discovered := pd_blobs_discovered s;
     pd_manifests_deleted := pd_manifests_deleted s + deleted; pd_blobs_deleted := pd_blobs_deleted s;
     pd_manifests_already_absent := pd_manifests_already_absent s + absent;
     pd_blobs_already_absent := pd_blobs_already_absent s; pd_deleted_blob_bytes := pd_deleted_blob_bytes s;
     pd_failures := pd_failures s; pd_complete := pd_complete s |}.
Definition count_blob (s : PackageDeletionSummary) (deleted absent bytes : N) : PackageDeletionSummary :=
  {| pd_scope := pd_scope s; pd_counts_known := pd_counts_known s; pd_tags_discovered := pd_tags_discovered s;
     pd_manifests_discovered := pd_manifests_discovered s; pd_blobs_discovered := pd_blobs_discovered s;
     pd_manifests_deleted := pd_manifests_deleted s; pd_blobs_deleted := pd_blobs_deleted s + deleted;
     pd_manifests_already_absent := pd_manifests_already_absent s;
     pd_blobs_already_absent := pd_blobs_already_absent s + absent;
     pd_deleted_blob_bytes := saturating_add64 (pd_deleted_blob_bytes s) bytes;
     pd_failures := pd_failures s; pd_complete := pd_complete s |}.
Definition push_failure (s : PackageDeletionSummary) (f : DeletionFailure) : PackageDeletionSummary :=
  {| pd_scope := pd_scope s; pd_counts_known := pd_counts_known s; pd_tags_discovered := pd_tags_discovered s;
     pd_manifests_discovered := pd_manifests_discovered s; pd_blobs_discovered := pd_blobs_discovered s;
     pd_manifests_deleted := pd_manifests_deleted s; pd_blobs_deleted := pd_blobs_deleted s;
     pd_manifests_already_absent := pd_manifests_already_absent s;
     pd_blobs_already_absent := pd_blobs_already_absent s; pd_deleted_blob_bytes := pd_deleted_blob_bytes s;
     pd_failures := pd_failures s ++ [f]; pd_complete := pd_complete s |}.
Definition set_complete (s : PackageDeletionSummary) : PackageDeletionSummary :=
  {| pd_scope := pd_scope s; pd_counts_known := pd_counts_known s; pd_tags_discovered := pd_tags_discovered s;
     pd_manifests_discovered := pd_manifests_discovered s; pd_blobs_discovered := pd_blobs_discovered s;
     pd_manifests_deleted := pd_manifests_deleted s; pd_blobs_deleted := pd_blobs_deleted s;
     pd_manifests_already_absent := pd_manifests_already_absent s;
     pd_blobs_already_absent := pd_blobs_already_absent s; pd_deleted_blob_bytes := pd_deleted_blob_bytes s;
     pd_failures := pd_failures s;
     pd_complete := match pd_failures s with [] => true | _ => false end |}.

Definition failure_kind (error : OciError) : DeletionFailureKind :=
  match error with
  | InsufficientPermission _ _ _ => PermissionDenied
  | OperationNotSupported _ _ _ => NotSupported
  | DeletionFailed _ _ _ | BlobCheckFailed _ | BlobUploadFailed _ | ManifestFetchFailed _ | ManifestPushFailed _ =>
      FailedHttpStatus
  | OciTransport _ | OciIo _ => FailedTransport
  | DeletionVerificationFailed _ _ => FailedVerification
  | _ => OtherFailure
  end.
Definition deletion_failure `{OciFormat} (digest : list N) (object_type : DeletionObjectType) (error : OciError)
    : DeletionFailure :=
  {| df_digest := digest; df_object_type := object_type; df_kind := failure_kind error;
     df_details := display_oci_error error |}.

(** [Debug for RegistryDeletionStrategy]. *)
Definition debug_deletion_strategy (s : RegistryDeletionStrategy) : list N :=
  match s with
  | GitHubPackagesRestApi => lit "GitHubPackagesRestApi"
  | DockerHubRestApi => lit "DockerHubRestApi"
  | AwsEcrApi => lit "AwsEcrApi"
  | StandardOciDelete => lit "StandardOciDelete"
  | DeletionUnsupported => lit "Unsupported"
  end.

(** [StreamExt::buffer_unordered] of the [futures] crate: runs the tasks, at most so
    many at a time, and gives every task's result once, in the order they finish. *)
Class Unordered (W : Type) := {
  buffer_unordered : ∀ {K A}, N → list (K * IO W A) → W → W * list (K * outcome OciError A);
  buffer_unordered_all : ∀ {K A} n (tasks : list (K * IO W A)) w,
    (buffer_unordered n tasks w).2.*1 ≡ₚ tasks.*1 }.

(** ** Operations *)

Section deletion.
Context {W : Type} `{HttpHeaders} `{UriLib} `{!TransportOps W} `{!TokenOps W} `{!DeleteOps W} `{!Unordered W}.
Context `{Sha2} `{Chrono} `{HashIter} `{Build} `{Zstd} `{SerdeErrors} `{OciFormat} `{JsonValue}.
Context `{!Serde (option (list (list N)))} `{!Serde (list GitHubPackageVersion)}.
Context `{!Serde ShardedArchCacheIndexData} `{!Serde ShardDataPayload}.
Context (self : OciClient) (auth_token : list N).

Definition not_supported (operation reason : list N) : OciError :=
  OperationNotSupported operation (cl_driver self) reason.
Definition kind_text : list N := display_registry_kind (cl_driver self).

Definition ghcr : GitHubPackagesClient := GitHubPackagesClient_new auth_token (cl_repo self).

Definition delete_manifest_strict (digest : list N) : IO W ManifestDeletionOutcome :=
  let url := manifest_url (cl_endpoint self) (cl_repo self) digest in
  status ← request_delete_with_auth_retry url (lit "delete manifest");
  if is_success status || (status =? 202) || (status =? 204) then mret ManifestDeleted
  else if status =? 404 then mret ManifestAlreadyAbsent
  else if (status =? 401) || (status =? 403) then
    lift (Err (InsufficientPermission digest (lit "delete:manifest")
      (lit "HTTP " ++ fmt_status status ++ lit " from registry when deleting manifest " ++ digest)))
  else if status =? 405 then
    lift (Err (not_supported (lit "delete_manifest")
      (lit "Registry returned 405 Method Not Allowed for manifest deletion on " ++ digest
       ++ lit ". Backend deletion strategy: "
       ++ debug_deletion_strategy (deletion_strategy (driver_capabilities (cl_driver self))))))
  else
    lift (Err (DeletionFailed digest status
      (lit "HTTP " ++ fmt_status status ++ lit " when deleting manifest " ++ digest))).

(** The answer to a DELETE of a tag whose manifest is gone. *)
Definition delete_tag_strict (fuel : nat) (tag : list N) : IO W (option unit) :=
  match deletion_strategy (driver_capabilities (cl_driver self)) with
  | GitHubPackagesRestApi => run_ghcr (delete_by_tag ghcr fuel tag)
  | StandardOciDelete | DockerHubRestApi | AwsEcrApi =>
      let url := manifest_url (cl_endpoint self) (cl_repo self) tag in
      r ← request_get_with_auth_retry url (lit "get tag manifest") (max_manifest_bytes (cl_limits self));
      let '(status, headers, body) := r in
      if status =? 404 then mret (Some tt)
      else if (status =? 401) || (status =? 403) then
        lift (Err (InsufficientPermission tag (lit "pull,delete:manifest")
          (lit "HTTP " ++ fmt_status status ++ lit " when checking manifest tag " ++ tag)))
      else if negb (is_success status) then
        lift (Err (DeletionFailed tag status
          (lit "HTTP " ++ fmt_status status ++ lit " when retrieving tag manifest " ++ tag)))
      else
        content_length ← lift (map_err OciTransport (parse_content_length headers));
        digest ← lift (verify_buffered_body url None (header_get headers (lit "docker-content-digest")) None
                         content_length body);
        _ ← delete_manifest_strict (cd_str digest);
        tag_status ← request_delete_with_auth_retry url (lit "delete tag");
        if negb (tag_status =? 404) && negb (is_success tag_status) && negb (tag_status =? 202)
        then lift (Err (DeletionFailed tag tag_status (lit "registry rejected tag deletion")))
        else mret (Some tt)
  | DeletionUnsupported =>
      lift (Err (not_supported (lit "delete_tag")
        (lit "Registry backend '" ++ kind_text ++ lit "' does not support tag deletion")))
  end.

Definition no_blob_deletion (operation : list N) : OciError :=
  not_supported operation
    (lit "Backend '" ++ kind_text ++ lit "' does not support standalone physical OCI blob deletion. Blobs are automatically reclaimed with package/version removal.").

Definition delete_blob_strict (target : BlobDeletionTarget) : IO W BlobDeletionOutcome :=
  if negb (supports_blob_physical_deletion (driver_capabilities (cl_driver self)))
  then lift (Err (no_blob_deletion (lit "delete_blob")))
  else
    let digest := NarDigest_as_str (bt_digest target) in
    let url := blob_url (cl_endpoint self) (cl_repo self) digest in
    status ← request_delete_with_auth_retry url (lit "delete blob");
    if is_success status || (status =? 202) || (status =? 204) then mret (BlobDeleted (bt_size target))
    else if status =? 404 then mret BlobAlreadyAbsent
    else if (status =? 401) || (status =? 403) then
      lift (Err (InsufficientPermission digest (lit "delete:blob")
        (lit "HTTP " ++ fmt_status status ++ lit " from registry when deleting blob " ++ digest)))
    else if status =? 405 then
      lift (Err (not_supported (lit "delete_blob")
        (lit "Registry returned 405 Method Not Allowed for blob deletion " ++ digest)))
    else
      lift (Err (DeletionFailed digest status
        (lit "HTTP " ++ fmt_status status ++ lit " when deleting blob " ++ digest))).

(** *** Batches *)

(** One result of the batch; the counters are below the number of targets. *)
Definition batch_result (s : DeletionSummary) (r : list N * outcome OciError BlobDeletionOutcome)
    : outcome OciError DeletionSummary :=
  match r.2 with
  | Ok (BlobDeleted bytes) =>
      Ok {| su_requested := su_requested s; su_deleted := su_deleted s + 1;
            su_already_absent := su_already_absent s; su_failed := su_failed s;
            su_deleted_bytes := saturating_add64 (su_deleted_bytes s) bytes; su_failures := su_failures s |}
  | Ok BlobAlreadyAbsent =>
      Ok {| su_requested := su_requested s; su_deleted := su_deleted s;
            su_already_absent := su_already_absent s + 1; su_failed := su_failed s;
            su_deleted_bytes := su_deleted_bytes s; su_failures := su_failures s |}
  | Err error =>
      Ok {| su_requested := su_requested s; su_deleted := su_deleted s;
            su_already_absent := su_already_absent s; su_failed := su_failed s + 1;
            su_deleted_bytes := su_deleted_bytes s;
            su_failures := su_failures s ++ [deletion_failure r.1 BlobObject error] |}
  | Panic => Panic
  end.

Definition batch_delete_blobs_strict (targets : list BlobDeletionTarget) (concurrency : N)
    : IO W DeletionBatchResult :=
  match targets with
  | [] => mret (BatchComplete (DeletionSummary_default 0))
  | _ =>
      if negb (supports_blob_physical_deletion (driver_capabilities (cl_driver self)))
      then lift (Err (no_blob_deletion (lit "batch_delete_blobs")))
      else
        let concurrency := N.max 1 (N.min concurrency 32) in
        results ← io_call (buffer_unordered concurrency
                    ((λ target, (NarDigest_as_str (bt_digest target), delete_blob_strict target)) <$> targets));
        summary ← lift (fold_m batch_result (DeletionSummary_default (usize_len targets)) results);
        mret (if DeletionSummary_is_complete summary then BatchComplete summary else BatchPartial summary)
  end.

(** *** The whole package *)

Definition verify_manifest_absent (digest : list N) : IO W unit :=
  let url := manifest_url (cl_endpoint self) (cl_repo self) digest in
  r ← request_head_with_auth_retry url (lit "verify manifest deletion");
  if r.1 =? 404 then mret tt
  else if r.1 =? 200 then
    lift (Err (DeletionVerificationFailed digest (lit "manifest is still present after DELETE")))
  else lift (Err (DeletionVerificationFailed digest
                    (lit "manifest verification returned HTTP " ++ fmt_status r.1))).

(** The bodies of the five loops and the check of the tags between them. *)
Definition delete_listed_manifest (s : PackageDeletionSummary) (digest : list N) : IO W PackageDeletionSummary :=
  r ← io_catch (delete_manifest_strict digest);
  match r with
  | Ok ManifestDeleted => mret (count_manifest s 1 0)
  | Ok ManifestAlreadyAbsent => mret (count_manifest s 0 1)
  | Err error => mret (push_failure s (deletion_failure digest ManifestObject error))
  | Panic => lift Panic
  end.

Definition delete_listed_blob (plan : DeletionPlan) (s : PackageDeletionSummary) (digest : list N)
    : IO W PackageDeletionSummary :=
  parsed ← lift (map_err oci_from_type (NarDigest_parse digest));
  size_ ← lift (or_panic (dp_blobs plan !! digest));
  r ← io_catch (delete_blob_strict {| bt_digest := parsed; bt_size := size_ |});
  match r with
  | Ok (BlobDeleted bytes) => mret (count_blob s 1 0 bytes)
  | Ok BlobAlreadyAbsent => mret (count_blob s 0 1 0)
  | Err error => mret (push_failure s (deletion_failure digest BlobObject error))
  | Panic => lift Panic
  end.

Definition verify_tags (fuel : nat) (s : PackageDeletionSummary) : IO W (option PackageDeletionSummary) :=
  r ← io_catch (list_tags_for_deletion self auth_token fuel);
  match r with
  | Ok (Some []) => mret (Some s)
  | Ok (Some remaining_tags) =>
      mret (Some (push_failure s {| df_digest := cl_repo self; df_object_type := TagObject;
        df_kind := FailedVerification;
        df_details := show_N (usize_len remaining_tags) ++ lit " tag(s) remain after deleting the discovered graph" |}))
  | Ok None => mret None
  | Err error => mret (Some (push_failure s (deletion_failure (cl_repo self) TagObject error)))
  | Panic => lift Panic
  end.

Definition verify_listed_manifest (s : PackageDeletionSummary) (digest : list N) : IO W PackageDeletionSummary :=
  r ← io_catch (verify_manifest_absent digest);
  match r with
  | Ok _ => mret s
  | Err error => mret (push_failure s (deletion_failure digest ManifestObject error))
  | Panic => lift Panic
  end.

Definition verify_listed_blob (s : PackageDeletionSummary) (digest : list N) : IO W PackageDeletionSummary :=
  r ← io_catch (blob_head self digest);
  match r with
  | Ok true => mret (push_failure s {| df_digest := digest; df_object_type := BlobObject;
                 df_kind := FailedVerification; df_details := lit "blob is still present after DELETE" |})
  | Ok false => mret s
  | Err error => mret (push_failure s (deletion_failure digest BlobObject error))
  | Panic => lift Panic
  end.

(** From the discovered plan on. *)
Definition delete_plan (fuel : nat) (plan : DeletionPlan) : IO W (option PackageDeletionSummary) :=
  s ← io_fold delete_listed_manifest (plan_summary plan) (sorted_strings (map_keys (dp_manifests plan)));
  s ← io_fold (delete_listed_blob plan) s (sorted_strings (map_keys (dp_blobs plan)));
  s ← verify_tags fuel s;
  match s with
  | None => mret None
  | Some s =>
      s ← io_fold verify_listed_manifest s (map_keys (dp_manifests plan));
      s ← io_fold verify_listed_blob s (map_keys (dp_blobs plan));
      mret (Some (set_complete s))
  end.

Definition delete_entire_package_strict (fuel : nat) : IO W (option PackageDeletionSummary) :=
  match package_deletion_support (driver_capabilities (cl_driver self)) with
  | NativeComplete =>
      _ ← run_ghcr (ghcr_delete_entire_package ghcr);
      mret (Some {| pd_scope := NativePackageApi; pd_counts_known := false; pd_tags_discovered := 0;
        pd_manifests_discovered := 0; pd_blobs_discovered := 0; pd_manifests_deleted := 0; pd_blobs_deleted := 0;
        pd_manifests_already_absent := 0; pd_blobs_already_absent := 0; pd_deleted_blob_bytes := 0;
        pd_failures := []; pd_complete := true |})
  | TaggedGraphOnly =>
      plan ← discover_tag_reachable_graph self auth_token fuel;
      match plan with
      | None => mret None
      | Some plan => delete_plan fuel plan
      end
  | PackageDeletionUnsupported =>
      lift (Err (not_supported (lit "delete_package")
        (lit "Registry backend '" ++ kind_text ++ lit "' cannot prove complete package deletion")))
  end.

Definition preview_package (fuel : nat) : IO W (option PackageDeletionSummary) :=
  plan ← discover_tag_reachable_graph self auth_token fuel;
  mret (plan_summary <$> plan).
End deletion.

(** ** A deletion that reports to be complete *)

(** A registry nobody else writes to: a HEAD that is answered with 404 is true, the
    first page of the tags is empty only when there are none, and reading and
    authenticating create nothing. *)
Class DeletionRegistry (W : Type) `{HttpHeaders} `{!TransportOps W} `{!TokenOps W}
    `{!Serde (option (list (list N)))} (self : OciClient) := {
  dr_exists : W → list N → Prop;
  dr_tags : W → list (list N);
  dr_removes (w w' : W) := (∀ url, dr_exists w' url → dr_exists w url) ∧ (dr_tags w = [] → dr_tags w' = []);
  dr_cached : ∀ w, dr_removes w (tm_cached_token w).1;
  dr_refresh : ∀ c w, dr_removes w (tm_refresh_token c w).1;
  dr_head : ∀ url h w, dr_removes w (tr_head_with_headers url h w).1;
  dr_get : ∀ url h n w, dr_removes w (tr_get url h n w).1;
  dr_absent : ∀ url h w w' headers, tr_head_with_headers url h w = (w', Ok (404, headers)) → ¬ dr_exists w url;
  dr_page : ∀ h n w w' status headers body,
    tr_get (tags_url (cl_endpoint self) (cl_repo self) ++ lit "?n=100") h n w = (w', Ok (status, headers, body)) →
    is_success status = true → from_json_slice body = Ok (Some (take 100 (dr_tags w))) }.

Lemma io_fold_ind {W A S} (f : S → A → IO W S) (Inv : list A → W → S → Prop) (l : list A) s (w w' : W) s' :
  Inv [] w s →
  (∀ visited x w s w' s', Inv visited w s → f s x w = (w', Ok s') → Inv (visited ++ [x]) w' s') →
  io_fold f s l w = (w', Ok s') → Inv l w' s'.
Proof.
  intros Hi Hf. change l with ([] ++ l) at 2. revert Hi. generalize (@nil A) as visited. revert s w.
  induction l as [|x l IH]; intros s w visited Hi; cbn [io_fold].
  - intros [= <- <-]. by rewrite app_nil_r.
  - intros (w1 & s1 & H1 & H2)%io_bind_ok. replace (visited ++ x :: l) with ((visited ++ [x]) ++ l)
      by (by rewrite <-app_assoc). eapply IH; [|done]. by eapply Hf.
Qed.

Lemma dedup_nonempty {A} `{EqDecision A} (l : list A) : l ≠ [] → dedup l ≠ [].
Proof.
  induction l as [|x [|y l] IH]; [done..|]. intros _.
  change (dedup (x :: y :: l)) with (if decide (x = y) then dedup (y :: l) else x :: dedup (y :: l)).
  case_decide; [by apply IH|done].
Qed.

Lemma absorb_page_nonempty `{Build} self st tags next : ts_all_tags st ≠ [] ∨ tags ≠ [] →
  absorb_page self st tags = Ok next →
  match next with inl st' => ts_all_tags st' | inr r => tl_tags r end ≠ [].
Proof.
  intros Hne. unfold absorb_page. cbn [ts_all_tags ts_last_tag ts_pages_fetched].
  destruct (N.eqb_spec (usize_len tags) 0) as [Hz|Hz].
  { assert (tags = []) as -> by (by destruct tags). case_match; [done|]. intros [= <-]. by destruct Hne. }
  destruct (MAX_TAGS <? _); [done|].
  assert (Hd : dedup (sorted_strings (ts_all_tags st ++ tags)) ≠ []).
  { apply dedup_nonempty. unfold sorted_strings. intros Heq.
    pose proof (merge_sort_Permutation str_le (ts_all_tags st ++ tags)) as Hp. rewrite Heq in Hp.
    apply Permutation_nil_l in Hp. symmetry in Hp. apply app_nil in Hp as [Hp1 Hp2].
    by destruct Hne; subst. }
  intros Ha. repeat (case_match; try done); by injection Ha as <-.
Qed.

Section verified.
Context {W : Type} `{HttpHeaders} `{UriLib} `{!TransportOps W} `{!TokenOps W} `{!DeleteOps W} `{!Unordered W}.
Context `{Sha2} `{Chrono} `{HashIter} `{Build} `{Zstd} `{SerdeErrors} `{OciFormat} `{JsonValue}.
Context `{!Serde (option (list (list N)))} `{!Serde (list GitHubPackageVersion)}.
Context `{!Serde ShardedArchCacheIndexData} `{!Serde ShardDataPayload}.
Context (self : OciClient) (auth_token : list N) `{!DeletionRegistry W self}.

#[local] Instance dr_removes_preorder : PreOrder dr_removes.
Proof. split; [by split|]. intros x y z [Hx Hx'] [Hy Hy']. split; [intros url Hz; by apply Hx, Hy|auto]. Qed.

Lemma io_catch_ok {A} (m : IO W A) w w' (o : outcome OciError A) : io_catch m w = (w', Ok o) → m w = (w', o).
Proof. unfold io_catch. destruct (m w). by intros [= <- <-]. Qed.

(** A HEAD request: what it says of the world after it. *)
Lemma head_request_ok url op (w w' : W) r : request_head_with_auth_retry url op w = (w', Ok r) →
  dr_removes w w' ∧ (r.1 = 404 → ¬ dr_exists w' url).
Proof.
  intros (w1 & h & Hh & Hr)%io_bind_ok.
  pose proof (preserves_auth_headers dr_removes dr_cached w) as Hw1. rewrite Hh in Hw1.
  apply (auth_retry_last dr_removes) in Hr as (h2 & w2 & Hw2 & Hs%io_transport_ok).
  - pose proof (dr_head url h2 w2) as Hw'. rewrite Hs in Hw'. split; [by do 2 (etrans; [done|])|].
    destruct r as [st hd]. simpl. intros -> He. eapply dr_absent; [exact Hs|]. by apply Hw'.
  - apply dr_cached.
  - intros c w0. apply dr_refresh.
  - intros h0 w0 w0' r0 Hs%io_transport_ok _. pose proof (dr_head url h0 w0) as Hp. by rewrite Hs in Hp.
Qed.

Lemma verify_listed_manifest_ok s0 w0 visited x (w w' : W) s s' :
  (pd_failures s = [] → s = s0 ∧ dr_removes w0 w ∧
     ∀ d, d ∈ visited → ¬ dr_exists w (manifest_url (cl_endpoint self) (cl_repo self) d)) →
  verify_listed_manifest self s x w = (w', Ok s') →
  pd_failures s' = [] → s' = s0 ∧ dr_removes w0 w' ∧
     ∀ d, d ∈ visited ++ [x] → ¬ dr_exists w' (manifest_url (cl_endpoint self) (cl_repo self) d).
Proof.
  intros Hi (w1 & r & Hc%io_catch_ok & Hq)%io_bind_ok Hf. destruct r as [u|e|]; [| |done].
  2:{ injection Hq as <- <-. simpl in Hf. by destruct (pd_failures s). }
  injection Hq as <- <-. destruct (Hi Hf) as (-> & Hr & Hv).
  apply io_bind_ok in Hc as (w2 & [st hd] & [Hr' Ha]%head_request_ok & Hc). simpl in *.
  destruct (N.eqb_spec st 404) as [->|]; [|by destruct (st =? 200)]. injection Hc as <- _.
  split_and!; [done|by etrans|]. intros d [Hd| ->%list_elem_of_singleton]%elem_of_app; [|by apply Ha].
  intros He. eapply Hv, Hr'; done.
Qed.

Lemma verify_listed_blob_ok s0 w0 visited x (w w' : W) s s' :
  (pd_failures s = [] → s = s0 ∧ dr_removes w0 w ∧
     ∀ d, d ∈ visited → ¬ dr_exists w (blob_url (cl_endpoint self) (cl_repo self) d)) →
  verify_listed_blob self s x w = (w', Ok s') →
  pd_failures s' = [] → s' = s0 ∧ dr_removes w0 w' ∧
     ∀ d, d ∈ visited ++ [x] → ¬ dr_exists w' (blob_url (cl_endpoint self) (cl_repo self) d).
Proof.
  intros Hi (w1 & r & Hc%io_catch_ok & Hq)%io_bind_ok Hf. destruct r as [present|e|]; [destruct present| |done].
  1,3: injection Hq as <- <-; simpl in Hf; by destruct (pd_failures s).
  injection Hq as <- <-. destruct (Hi Hf) as (-> & Hr & Hv).
  apply io_bind_ok in Hc as (w2 & [st hd] & [Hr' Ha]%head_request_ok & Hc). simpl in *.
  destruct (st =? 200); [done|]. destruct (N.eqb_spec st 404) as [->|]; [|done]. injection Hc as <-.
  split_and!; [done|by etrans|]. intros d [Hd| ->%list_elem_of_singleton]%elem_of_app; [|by apply Ha].
  intros He. eapply Hv, Hr'; done.
Qed.

(** A listing without tags has read an empty first page. *)
Lemma list_tags_loop_nonempty fuel st (w w' : W) r : ts_all_tags st ≠ [] →
  list_tags_loop self fuel st w = (w', Ok (Some r)) → tl_tags r ≠ [].
Proof.
  revert st w. induction fuel as [|fuel IH]; intros st w Hne; cbn [list_tags_loop]; [done|].
  destruct (_ <=? _); [done|]. intros (w1 & tags & _ & Hl)%io_bind_ok.
  apply io_bind_ok in Hl as (w2 & next & Ha & Hl). apply lift_ok in Ha as [-> Ha].
  apply absorb_page_nonempty in Ha; [|by left]. destruct next as [st'|r']; [by eapply IH|]. by injection Hl as _ <-.
Qed.

Lemma list_tags_empty (w w' : W) r : list_tags self w = (w', Ok (Some r)) → tl_tags r = [] → dr_tags w' = [].
Proof.
  unfold list_tags. set (st := {| ts_all_tags := [] |}). destruct list_tags_fuel as [|fuel]; [done|]. cbn [list_tags_loop].
  change (MAX_TAG_PAGES <=? ts_pages_fetched st) with false. cbv iota. intros (w1 & page & Hf & Hl)%io_bind_ok Hr.
  apply io_bind_ok in Hl as (w2 & next & Ha & Hl). apply lift_ok in Ha as [-> Ha].
  destruct (decide (page = [])) as [->|Hne].
  2:{ apply absorb_page_nonempty in Ha; [|by right].
      destruct next as [st'|r']; [by eapply list_tags_loop_nonempty in Hl|]. by injection Hl as _ <-. }
  injection Ha as <-. injection Hl as <- _. unfold fetch_tag_page in Hf. cbn [ts_last_tag st] in Hf.
  apply io_bind_ok in Hf as (w2 & [[status hd] body] & Hq & Hf).
  destruct (is_success status) eqn:Hok; cbn [negb] in Hf; [|done].
  apply io_bind_ok in Hf as (w3 & tags & Ht & Hf). apply lift_ok in Ht as [-> Ht%map_err_ok]. injection Hf as <- Hnil.
  unfold io_map_err in Hq. destruct (request_get_with_auth_retry _ _ _ w) as [w3 [q|e|]] eqn:Hg; [|done..].
  injection Hq as -> ->. apply io_bind_ok in Hg as (w4 & h & _ & Hg).
  assert (PreOrder (λ _ _ : W, True)) by (by split).
  apply (auth_retry_last (λ _ _, True)) in Hg as (h1 & w5 & _ & Hs%io_transport_ok); [|done..].
  pose proof (dr_get (tags_url (cl_endpoint self) (cl_repo self) ++ lit "?n=100") h1
    (max_manifest_bytes (cl_limits self)) w5) as [_ Hr']. rewrite Hs in Hr'. apply dr_page in Hs; [|done].
  rewrite Hs in Ht. injection Ht as <-. apply Hr'. simpl in Hnil. by destruct (dr_tags w5).
Qed.

Lemma verify_tags_ok fuel s (w w' : W) s' : cl_driver self ≠ Ghcr →
  verify_tags self auth_token fuel s w = (w', Ok (Some s')) → pd_failures s' = [] → s' = s ∧ dr_tags w' = [].
Proof.
  intros Hd (w1 & r & Hc%io_catch_ok & Hq)%io_bind_ok Hf. destruct r as [[[|tag tags]|]|e|]; [| |done| |done].
  2,3: injection Hq as <- <-; simpl in Hf; by destruct (pd_failures s).
  injection Hq as <- <-. split; [done|]. apply io_bind_ok in Hc as (w2 & listed & Hl & Hc).
  destruct listed as [listed|]; [|done]. rewrite (bool_decide_false (deletion_strategy _ = _)) in Hc
    by (by destruct (cl_driver self)). rewrite andb_false_r in Hc. injection Hc as <- Hnil.
  eapply list_tags_empty; [done|]. apply dec_stable. intros Hne.
  apply (dedup_nonempty (sorted_strings (tl_tags listed))); [|done]. unfold sorted_strings. intros Heq.
  pose proof (merge_sort_Permutation str_le (tl_tags listed)) as Hp. rewrite Heq in Hp.
  by apply Permutation_nil_l in Hp.
Qed.

(** The deletions without a failure: each object is counted once. *)
Lemma delete_listed_manifest_ok s0 visited x (w w' : W) s s' :
  (pd_failures s = [] → pd_manifests_deleted s + pd_manifests_already_absent s
     = pd_manifests_deleted s0 + pd_manifests_already_absent s0 + usize_len visited ∧
   pd_blobs_deleted s = pd_blobs_deleted s0 ∧ pd_blobs_already_absent s = pd_blobs_already_absent s0) →
  delete_listed_manifest self s x w = (w', Ok s') →
  pd_failures s' = [] → pd_manifests_deleted s' + pd_manifests_already_absent s'
     = pd_manifests_deleted s0 + pd_manifests_already_absent s0 + usize_len (visited ++ [x]) ∧
   pd_blobs_deleted s' = pd_blobs_deleted s0 ∧ pd_blobs_already_absent s' = pd_blobs_already_absent s0.
Proof.
  intros Hi (w1 & r & _ & Hq)%io_bind_ok Hf. unfold usize_len in *. rewrite length_app. simpl.
  destruct r as [[]|e|]; [| | |done]; injection Hq as <- <-; simpl in *.
  3:{ by destruct (pd_failures s). }
  all: destruct (Hi Hf) as (Hm & Hb & Ha); split_and!; [lia|done..].
Qed.

Lemma delete_listed_blob_ok plan s0 visited x (w w' : W) s s' :
  (pd_failures s = [] → pd_blobs_deleted s + pd_blobs_already_absent s
     = pd_blobs_deleted s0 + pd_blobs_already_absent s0 + usize_len visited ∧
   pd_manifests_deleted s = pd_manifests_deleted s0 ∧ pd_manifests_already_absent s = pd_manifests_already_absent s0
   ∧ pd_failures s0 = []) →
  delete_listed_blob self plan s x w = (w', Ok s') →
  pd_failures s' = [] → pd_blobs_deleted s' + pd_blobs_already_absent s'
     = pd_blobs_deleted s0 + pd_blobs_already_absent s0 + usize_len (visited ++ [x]) ∧
   pd_manifests_deleted s' = pd_manifests_deleted s0 ∧ pd_manifests_already_absent s' = pd_manifests_already_absent s0
   ∧ pd_failures s0 = [].
Proof.
  intros Hi (w1 & parsed & _ & Hq)%io_bind_ok Hf. apply io_bind_ok in Hq as (w2 & size_ & _ & Hq).
  apply io_bind_ok in Hq as (w3 & r & _ & Hq). unfold usize_len in *. rewrite length_app. simpl.
  destruct r as [[bytes|]|e|]; [| | |done]; injection Hq as <- <-; simpl in *.
  3:{ by destruct (pd_failures s). }
  all: destruct (Hi Hf) as (Hb & Hm & Ha & Hs); split_and!; [lia|done..].
Qed.

Lemma delete_plan_ok fuel plan (w w' : W) s : cl_driver self ≠ Ghcr →
  delete_plan self auth_token fuel plan w = (w', Ok (Some s)) → pd_complete s = true →
  (∀ d, d ∈ dom (dp_manifests plan) → ¬ dr_exists w' (manifest_url (cl_endpoint self) (cl_repo self) d)) ∧
  (∀ d, d ∈ dom (dp_blobs plan) → ¬ dr_exists w' (blob_url (cl_endpoint self) (cl_repo self) d)) ∧
  dr_tags w' = [] ∧
  pd_manifests_deleted s + pd_manifests_already_absent s = N.of_nat (size (dp_manifests plan)) ∧
  pd_blobs_deleted s + pd_blobs_already_absent s = N.of_nat (size (dp_blobs plan)).
Proof.
  intros Hd (w1 & s1 & H1' & Hq)%io_bind_ok Hcomplete. apply io_bind_ok in Hq as (w2 & s2 & H2' & Hq).
  apply io_bind_ok in Hq as (w3 & o & H3' & Hq). destruct o as [s3|]; [|done].
  apply io_bind_ok in Hq as (w4 & s4 & H4' & Hq). apply io_bind_ok in Hq as (w5 & s5 & H5' & Hq).
  injection Hq as <- <-. assert (Hf : pd_failures s5 = []) by (simpl in Hcomplete; by destruct (pd_failures s5)).
  eapply (io_fold_ind _ (λ visited w s, pd_failures s = [] → s = s4 ∧ dr_removes w4 w ∧
    ∀ d, d ∈ visited → ¬ dr_exists w (blob_url (cl_endpoint self) (cl_repo self) d))) in H5';
    [|intros _; split_and!; [done..|set_solver]|intros; by eapply verify_listed_blob_ok|done].
  destruct H5' as (-> & Hr5 & Hblobs).
  eapply (io_fold_ind _ (λ visited w s, pd_failures s = [] → s = s3 ∧ dr_removes w3 w ∧
    ∀ d, d ∈ visited → ¬ dr_exists w (manifest_url (cl_endpoint self) (cl_repo self) d))) in H4';
    [|intros _; split_and!; [done..|set_solver]|intros; by eapply verify_listed_manifest_ok|done].
  destruct H4' as (-> & Hr4 & Hmans). apply verify_tags_ok in H3' as [-> Htags]; [|done..].
  eapply (io_fold_ind _ (λ visited w s, pd_failures s = [] → pd_blobs_deleted s + pd_blobs_already_absent s
      = pd_blobs_deleted s1 + pd_blobs_already_absent s1 + usize_len visited ∧
      pd_manifests_deleted s = pd_manifests_deleted s1 ∧
      pd_manifests_already_absent s = pd_manifests_already_absent s1 ∧ pd_failures s1 = [])) in H2';
    [|intros ?; split_and!; [unfold usize_len; simpl; lia|done..]|intros; by eapply delete_listed_blob_ok|done].
  destruct H2' as (Hb2 & Hm2 & Ha2 & Hf1).
  eapply (io_fold_ind _ (λ visited w s, pd_failures s = [] → pd_manifests_deleted s + pd_manifests_already_absent s
      = 0 + 0 + usize_len visited ∧ pd_blobs_deleted s = 0 ∧ pd_blobs_already_absent s = 0)) in H1';
    [|done|intros; by eapply (delete_listed_manifest_ok (plan_summary plan))|done].
  destruct H1' as (Hm1 & Hb1 & Ha1).
  assert (Hlen : ∀ (V : Type) (m : gmap (list N) V), usize_len (sorted_strings (map_keys m)) = N.of_nat (size m)).
  { intros V m. unfold usize_len, sorted_strings. rewrite merge_sort_Permutation. unfold map_keys.
    rewrite length_fmap, hash_iter_perm. by rewrite length_map_to_list. }
  rewrite Hlen in Hm1, Hb2. split_and!.
  - intros d Hd' He. eapply Hmans; [by apply elem_of_map_keys, elem_of_dom|by apply Hr5].
  - intros d Hd'. apply Hblobs. by apply elem_of_map_keys, elem_of_dom.
  - apply Hr5, Hr4, Htags.
  - simpl. lia.
  - simpl. lia.
Qed.
End verified.

(** C17: A package deletion that reports to be complete is complete.  On a registry whose objects are
    deleted one by one, when [delete_entire_package_strict] returns a summary marked complete,
    then every manifest and every blob of the plan that discovery computed is absent from the
    registry at the end, no tag is left, and the counts of the summary account for every object
    of the plan. *)
Theorem package_deletion_verified {W : Type} `{HttpHeaders} `{UriLib} `{!TransportOps W} `{!TokenOps W}
    `{!DeleteOps W} `{Sha2} `{Chrono} `{HashIter} `{Build} `{Zstd} `{SerdeErrors} `{OciFormat} `{JsonValue}
    `{!Serde (option (list (list N)))} `{!Serde (list GitHubPackageVersion)}
    `{!Serde ShardedArchCacheIndexData} `{!Serde ShardDataPayload}
    (self : OciClient) (auth_token : list N) `{!DeletionRegistry W self} (fuel : nat) (w w' : W)
    (s : PackageDeletionSummary) :
  package_deletion_support (driver_capabilities (cl_driver self)) = TaggedGraphOnly →
  delete_entire_package_strict self auth_token fuel w = (w', Ok (Some s)) → pd_complete s = true →
  ∃ plan w1, discover_tag_reachable_graph self auth_token fuel w = (w1, Ok (Some plan)) ∧
    (∀ d, d ∈ dom (dp_manifests plan) → ¬ dr_exists w' (manifest_url (cl_endpoint self) (cl_repo self) d)) ∧
    (∀ d, d ∈ dom (dp_blobs plan) → ¬ dr_exists w' (blob_url (cl_endpoint self) (cl_repo self) d)) ∧
    dr_tags w' = [] ∧
    pd_manifests_deleted s + pd_manifests_already_absent s = N.of_nat (size (dp_manifests plan)) ∧
    pd_blobs_deleted s + pd_blobs_already_absent s = N.of_nat (size (dp_blobs plan)).
Proof.
  intros Hsup Hd Hc. unfold delete_entire_package_strict in Hd. rewrite Hsup in Hd.
  apply io_bind_ok in Hd as (w1 & plan & Hp & Hd). destruct plan as [plan|]; [|done]. exists plan, w1.
  split; [done|]. eapply delete_plan_ok; [|done..]. intros Hg. by rewrite Hg in Hsup.
Qed.

(** ** Batches *)

Lemma batch_result_counts `{OciFormat} rs s s' : fold_m batch_result s rs = Ok s' →
  su_requested s' = su_requested s ∧
  su_deleted s' + su_already_absent s' + su_failed s'
    = su_deleted s + su_already_absent s + su_failed s + N.of_nat (length rs) ∧
  ∃ fs, su_failures s' = su_failures s ++ fs ∧ su_failed s' = su_failed s + N.of_nat (length fs) ∧
    (df_digest <$> fs) = fst <$> filter (λ r, is_ok r.2 = false) rs.
Proof.
  revert s. induction rs as [|[d r] rs IH]; intros s; cbn [fold_m].
  { intros [= <-]. split; [done|]. split; [simpl; lia|]. exists []. rewrite app_nil_r. simpl. split_and!; [done|lia|done]. }
  intros (s1 & Hr & (Hq & Hc & fs & Hf & Hn & Hd)%IH)%bind_ok. unfold batch_result in Hr. cbn [fst snd] in Hr.
  destruct r as [[bytes|]|e|]; [| | |done]; injection Hr as <-;
    cbn [su_requested su_deleted su_already_absent su_failed su_failures length] in *.
  1,2: split_and!; [done|lia|]; exists fs; split_and!; [done|lia|]; by rewrite filter_cons_False.
  split_and!; [done|lia|]. exists (deletion_failure d BlobObject e :: fs).
  split_and!; [by rewrite Hf, <-app_assoc|simpl; lia|]. rewrite filter_cons_True by done. cbn [fmap list_fmap]. by rewrite Hd.
Qed.

(** A batch of blob deletions accounts for every target.  Whatever the order in which the
    concurrent requests finish, the summary of a batch that returns counts each target once as
    deleted, already absent or failed, names exactly as many failures as it counts, and the
    batch is reported complete exactly when none failed. *)
Theorem batch_delete_accounts {W : Type} `{HttpHeaders} `{UriLib} `{!TransportOps W} `{!TokenOps W} `{!Unordered W}
    `{Build} `{OciFormat} (self : OciClient) (targets : list BlobDeletionTarget) (concurrency : N) (w w' : W)
    (r : DeletionBatchResult) :
  usize_len targets < usize_bound →
  batch_delete_blobs_strict self targets concurrency w = (w', Ok r) →
  let s := match r with BatchComplete s | BatchPartial s => s end in
  su_requested s = usize_len targets ∧
  su_deleted s + su_already_absent s + su_failed s = usize_len targets ∧
  su_failed s = usize_len (su_failures s) ∧
  (∀ f, f ∈ su_failures s → ∃ t, t ∈ targets ∧ df_digest f = NarDigest_as_str (bt_digest t)) ∧
  (r = BatchComplete s ↔ su_failed s = 0).
Proof.
  intros Hlen. unfold batch_delete_blobs_strict. destruct targets as [|t ts].
  { intros [= <- <-]. simpl. split_and!; [done..|set_solver|done]. }
  set (targets := t :: ts) in *. destruct (negb _); [done|]. intros (w1 & rs & Hrs & Hq)%io_bind_ok.
  apply io_bind_ok in Hq as (w2 & s & Hs & Hq). apply lift_ok in Hs as [-> Hs].
  apply batch_result_counts in Hs as (Hreq & Hc & fs & Hf & Hn & Hd). simpl in Hreq, Hc, Hf, Hn.
  unfold io_call in Hrs. destruct (buffer_unordered _ _ w) as [w3 rs'] eqn:Hb. injection Hrs as <- <-.
  pose proof (buffer_unordered_all (N.max 1 (N.min concurrency 32))
    ((λ target, (NarDigest_as_str (bt_digest target), delete_blob_strict self target)) <$> targets) w) as Hall.
  rewrite Hb in Hall. simpl in Hall.
  assert (Hl : length rs' = length targets).
  { pose proof (Permutation_length Hall) as Hl. rewrite !length_fmap in Hl. simpl in *. by rewrite !length_fmap in Hl. }
  rewrite Hl in Hc. unfold usize_len in *.
  assert (Hcomplete : DeletionSummary_is_complete s = bool_decide (su_failed s = 0)).
  { unfold DeletionSummary_is_complete. rewrite Hreq, Hf. unfold usize_len.
    destruct (N.eqb_spec (su_failed s) 0) as [Hz|Hz]; [|by rewrite bool_decide_false].
    rewrite bool_decide_true by done. destruct (N.eqb_spec (su_failed s) (N.of_nat (length fs))); [|lia].
    destruct (N.eqb_spec (N.of_nat (length targets))
      (N.min (su_deleted s + su_already_absent s) (usize_bound - 1))); [done|]. lia. }
  rewrite Hcomplete in Hq. assert (Hr : match r with BatchComplete s | BatchPartial s => s end = s)
    by (injection Hq as _ <-; by case_bool_decide).
  cbv zeta. rewrite Hr, Hf. split_and!; [done|lia|done| |].
  - intros f Hin. assert (Hin' : df_digest f ∈ rs'.*1).
    { assert (df_digest f ∈ df_digest <$> fs) as Hin' by (apply list_elem_of_fmap; eauto). rewrite Hd in Hin'.
      apply list_elem_of_fmap in Hin' as (x & -> & [_ Hx]%list_elem_of_filter). apply list_elem_of_fmap. eauto. }
    rewrite Hall in Hin'. change (df_digest f ∈ fst <$> ((λ target, (NarDigest_as_str (bt_digest target),
      delete_blob_strict self target)) <$> targets)) in Hin'. rewrite <-list_fmap_compose in Hin'.
    apply list_elem_of_fmap in Hin' as (x & Hx & Hx'). eauto.
  - injection Hq as _ <-. case_bool_decide; split; try done. 
Qed.

(** ** Witnesses *)

Definition repo_exists (w : list (list N)) (url : list N) : Prop := repo_resolve url ∈ w.
Definition repo_tags (w : list (list N)) : list (list N) :=
  if bool_decide (repo_url repo_index_digest ∈ w) then [[100]] else [].
Definition repo_registry : @DeletionRegistry (list (list N)) sample_http repo_transport repo_tokens
  sample_tags_serde sample_client.
Proof.
  refine (@Build_DeletionRegistry (list (list N)) sample_http repo_transport repo_tokens sample_tags_serde
    sample_client repo_exists repo_tags _ _ _ _ _ _).
  - by split.
  - by split.
  - by split.
  - by split.
  - intros url h w w' headers Hh He. unfold tr_head_with_headers, repo_transport in Hh.
    rewrite (bool_decide_true (repo_resolve url ∈ w)) in Hh by exact He. discriminate Hh.
  - intros h n w w' status headers body Hg _. unfold tr_get, repo_transport, repo_get in Hg.
    rewrite (bool_decide_true (_ = first_page_url)) in Hg by reflexivity.
    injection Hg as _ _ _ <-. unfold repo_tags. by destruct (bool_decide _).
Defined.
Definition repo_deletes : DeleteOps (list (list N)) :=
  @Build_DeleteOps (list (list N)) sample_http (λ _ _ w, (w, Ok 404)).

Definition repo_delete_package : IO (list (list N)) (option PackageDeletionSummary) :=
  @delete_entire_package_strict (list (list N)) sample_http sample_uri repo_transport repo_tokens repo_deletes
    sample_sha2 Types.sample_chrono map_order sample_build sample_zstd sample_errors sample_format repo_json
    sample_tags_serde gh_serde repo_root_serde repo_payload_serde sample_client [] 0.

(** The package of the sample repository is deleted: two manifests, three blobs. *)
Lemma package_deletion_verified_witness :
  ∃ s, repo_delete_package repo_world = ([], Ok (Some s)) ∧ pd_complete s = true ∧ repo_tags [] = [] ∧
    pd_manifests_deleted s + pd_manifests_already_absent s = 2.
Proof.
  eexists. split; [by vm_compute|]. split; [reflexivity|].
  edestruct (@package_deletion_verified (list (list N)) sample_http sample_uri repo_transport repo_tokens repo_deletes
    sample_sha2 Types.sample_chrono map_order sample_build sample_zstd sample_errors sample_format repo_json
    sample_tags_serde gh_serde repo_root_serde repo_payload_serde sample_client [] repo_registry 0 repo_world [])
    as (plan & w1 & Hd & _ & _ & Ht & Hm & _); [reflexivity|by vm_compute|reflexivity|].
  split; [exact Ht|]. rewrite Hm. pose proof repo_discovered as Hr. unfold repo_discover in Hr. rewrite Hd in Hr.
  injection Hr as _ ->. by vm_compute.
Defined.

(** One task after the other is a legitimate order. *)
Fixpoint run_in_order {W K A} (tasks : list (K * IO W A)) (w : W) : W * list (K * outcome OciError A) :=
  match tasks with
  | [] => (w, [])
  | (k, task) :: tasks =>
      let '(w, r) := task w in
      let '(w, rs) := run_in_order tasks w in
      (w, (k, r) :: rs)
  end.
Lemma run_in_order_keys {W K A} (tasks : list (K * IO W A)) w : (run_in_order tasks w).2.*1 = tasks.*1.
Proof.
  revert w. induction tasks as [|[k task] tasks IH]; intros w; [done|]. cbn [run_in_order].
  destruct (task w) as [w1 r]. specialize (IH w1). destruct (run_in_order tasks w1) as [w2 rs].
  cbn [snd fmap list_fmap fst] in *. by f_equal.
Qed.
Definition in_order (W : Type) : Unordered W.
Proof.
  refine (Build_Unordered W (λ K A _ tasks w, run_in_order tasks w) _).
  intros K A n tasks w. by rewrite run_in_order_keys.
Defined.

Lemma batch_delete_accounts_witness :
  let nar := {| bt_digest := mkNarDigest repo_nar_digest; bt_size := 100 |} in
  ∃ s, @batch_delete_blobs_strict (list (list N)) sample_http sample_uri repo_transport repo_tokens
      (in_order (list (list N))) sample_build sample_format sample_client [nar; nar] 4 repo_world
    = (take 4 repo_world, Ok (BatchComplete s)) ∧ su_deleted s + su_already_absent s + su_failed s = 2.
Proof.
  intros nar. eexists. split; [by vm_compute|].
  edestruct (@batch_delete_accounts (list (list N)) sample_http sample_uri repo_transport repo_tokens
    (in_order (list (list N))) sample_build sample_format sample_client [nar; nar] 4 repo_world (take 4 repo_world))
    as (_ & Hc & _); [by vm_compute|by vm_compute|]. exact Hc.
Defined.
