(* ===== verification/Builder.v ===== *)
(** * Builder: errors, effects and shard compaction of the builder
    (crates/nixcache-builder/src/error.rs, the steps that promote.rs and purge.rs
    share, and the client constructors of nixcache-oci/src/client.rs)

    A task of the builder is a function of the world it shares with the registry
    and with the other tasks, like the [IO] of the client, but it fails with a
    [BuilderError]. *)

From S2P Require Import Prelude Machine Str Text Error Types Sharding Index OciError Transport Endpoint Auth Request Driver Upload Manifest ManifestClient IndexClient.

Local Open Scope N_scope.

(** ** Errors

    An [io::Error], a library's error or an error of a part that is not modelled is
    its message. *)

Inductive CliError :=
  | CliIo (details : list N)
  | CliAddrParse (details : list N)
  | CliOci (e : OciError)
  | CliInvalidStoreHash (value : list N) (source : TypeError).
Inductive NixExecError :=
  | NixProcess (details : list N)
  | NixExitFailure (command status stderr : list N)
  | NixExecution (details : list N).
Inductive BuilderError :=
  | BuilderNix (e : NixExecError)
  | BuilderNarInfo (details : list N)
  | BuilderCompression (details : list N)
  | BuilderSigning (details : list N)
  | BuilderProxy (details : list N)
  | BuilderCore (e : CoreError)
  | BuilderOci (e : OciError)
  | BuilderCli (e : CliError)
  | ParallelExportFailed (failed_count : N)
  | BuilderIo (details : list N)
  | BuilderJoin (details : list N)
  | BuilderJson (details : list N).

(** ** Effects *)

Definition BIO (W A : Type) : Type := W → W * outcome BuilderError A.
#[export] Instance bio_ret W : MRet (BIO W) := λ A a w, (w, Ok a).
#[export] Instance bio_bind W : MBind (BIO W) := λ A B k m w,
  match m w with
  | (w, Ok a) => k a w
  | (w, Err e) => (w, Err e)
  | (w, Panic) => (w, Panic)
  end.
Definition fail {W A} (o : outcome BuilderError A) : BIO W A := λ w, (w, o).
(** [?] on a call of the client, on a pure call of nixcache-core. *)
Definition oci {W A} (m : IO W A) : BIO W A := λ w, let '(w, o) := m w in (w, map_err BuilderOci o).
Definition core {W A} (o : outcome CoreError A) : BIO W A := λ w, (w, map_err BuilderCore o).
Definition bio_call {W A} (m : W → W * A) : BIO W A := λ w, let '(w, a) := m w in (w, Ok a).
(** The result of a call of the client as a value. *)
Definition bio_catch {W A} (m : IO W A) : BIO W (outcome OciError A) := λ w,
  let '(w, o) := m w in (w, Ok o).
Fixpoint bio_fold {W A S} (f : S → A → BIO W S) (s : S) (l : list A) : BIO W S :=
  match l with
  | [] => mret s
  | a :: l => s ← f s a; bio_fold f s l
  end.

Lemma bio_bind_ok {W A B} (m : BIO W A) (k : A → BIO W B) w w' b :
  (m ≫= k) w = (w', Ok b) ↔ ∃ w1 a, m w = (w1, Ok a) ∧ k a w1 = (w', Ok b).
Proof. unfold mbind, bio_bind. destruct (m w) as [w1 [a|e|]]; naive_solver. Qed.
Lemma bio_ret_ok {W A} (a b : A) (w w' : W) : (mret a : BIO W A) w = (w', Ok b) ↔ w' = w ∧ b = a.
Proof. unfold mret, bio_ret. naive_solver. Qed.
Lemma oci_ok {W A} (m : IO W A) w w' a : oci m w = (w', Ok a) ↔ m w = (w', Ok a).
Proof. unfold oci. destruct (m w) as [w1 [x|e|]]; simpl; naive_solver. Qed.
Lemma core_ok {W A} (o : outcome CoreError A) (w w' : W) a : core o w = (w', Ok a) ↔ w' = w ∧ o = Ok a.
Proof. unfold core. destruct o; simpl; naive_solver. Qed.
Lemma bio_call_ok {W A} (m : W → W * A) w w' a : bio_call m w = (w', Ok a) ↔ m w = (w', a).
Proof. unfold bio_call. destruct (m w). naive_solver. Qed.

(** An invariant of a fold that holds of the state and of the items still to come. *)
Lemma bio_fold_inv {W A S} (P : S → list A → Prop) (f : S → A → BIO W S) l s (w w' : W) s' :
  P s l → (∀ s a l w w' s', P s (a :: l) → f s a w = (w', Ok s') → P s' l) →
  bio_fold f s l w = (w', Ok s') → P s' [].
Proof.
  revert s w. induction l as [|a l IH]; intros s w HP Hf Hr; simpl in Hr.
  - by apply bio_ret_ok in Hr as [_ ->].
  - apply bio_bind_ok in Hr as (w1 & s1 & H1 & Hr). eapply IH; [|done|exact Hr]. eauto.
Qed.

(** [try_join_all] of the [futures] crate: the futures run interleaved, their steps
    being steps of the one world they share and nothing else is done; when all succeed the
    results are theirs in the order of the futures. *)
Class JoinAll (W : Type) := {
  try_join_all : ∀ {A}, list (BIO W A) → BIO W (list A);
  try_join_all_ok : ∀ {A} (tasks : list (BIO W A)) w w' rs,
    try_join_all tasks w = (w', Ok rs) →
    Forall2 (λ task r, ∃ w1 w2, task w1 = (w2, Ok r)) tasks rs;
  try_join_all_only : ∀ {A} (tasks : list (BIO W A)) (R : W → W → Prop), PreOrder R →
    (∀ task w, task ∈ tasks → R w (task w).1) → ∀ w, R w (try_join_all tasks w).1 }.
(** [Utc::now()]. *)
Class UtcNow (W : Type) := { utc_now : W → W * Z }.
(** [env::var(..).ok()]. *)
Class EnvVars (W : Type) := { env_var : list N → W → option (list N) }.

(** ** The client of a registry and a repository *)

(** [OciClient::new]; the token manager and the semaphore are part of the world. *)
Definition OciClient_new `{UriLib} `{UnicodeCase} `{Build} (registry repo : list N) (driver : RegistryKind)
    (limits : OciReadLimits) : outcome OciError OciClient :=
  _ ← expect (OciReadLimits_validate limits);
  endpoint ← map_err InvalidEndpoint (canonicalize_endpoint driver registry);
  Ok {| cl_endpoint := endpoint; cl_repo := canonicalize_repository driver repo; cl_driver := driver;
        cl_limits := limits |}.
(** [OciClient::with_transport]. *)
Definition OciClient_with_transport `{UriLib} `{UnicodeCase} `{Build} (registry repo : list N) (limits : OciReadLimits)
    : outcome OciError OciClient :=
  OciClient_new registry repo (RegistryKind_detect registry) limits.
Definition create_tokio_reqwest_client `{UriLib} `{UnicodeCase} `{Build} (registry repo : list N)
    : outcome OciError OciClient :=
  OciClient_with_transport registry repo OciReadLimits_default.

(** ** One shard of a root *)

Section shard.
Context {W : Type} `{HttpHeaders} `{UriLib} `{!TransportOps W} `{!TokenOps W} `{!ClockOps W}.
Context `{Sha2} `{Chrono} `{HashIter} `{Build} `{Zstd} `{ZstdEncoder} `{SerdeErrors}.
Context `{!Serde ShardedArchCacheIndexData} `{!Serde ShardDataPayload}.
Context (self : OciClient).

(** [root_index.shards[shard_id as usize]], which panics out of range. *)
Definition shard_at (shards : list ShardDescriptor) (shard_id : N) : BIO W ShardDescriptor :=
  core (or_panic (shards !! N.to_nat shard_id)).

Definition with_entries (p : ShardDataPayload) (entries : gmap StoreHash IndexEntry) : ShardDataPayload :=
  {| pl_version := pl_version p; pl_shard_id := pl_shard_id p; pl_prefix := pl_prefix p; pl_entries := entries |}.

(** Pushes the payload and gives the descriptor with the five fields assigned. *)
Definition push_shard (desc : ShardDescriptor) (payload : ShardDataPayload) : BIO W ShardDescriptor :=
  r ← oci (push_shard_data self payload);
  let '(blob_digest, comp_size, uncomp_size) := r in
  merkle_hash ← core (Payload_compute_merkle_hash payload);
  mret {| sd_shard_id := sd_shard_id desc; sd_prefix := sd_prefix desc; sd_blob_digest := blob_digest;
          sd_compressed_size := comp_size; sd_uncompressed_size := uncomp_size;
          sd_entry_count := Payload_len payload; sd_merkle_hash := merkle_hash |}.

(** The descriptor of an image index for the pushed manifest of a system's root. *)
Definition child_descriptor (sys : SystemArch) (sub_manifest_digest merkle_root : list N) : OciDescriptor := {|
  od_media_type := OCI_IMAGE_MANIFEST_MEDIA_TYPE; od_digest := sub_manifest_digest; od_size := 0;
  od_platform := Some (OciPlatform_from_system sys);
  od_annotations := Some (<[MERKLE_ROOT_KEY := merkle_root]> {[SYSTEM_KEY := SystemArch_as_str sys]}) |}.

(** The closure of the final update: the existing index is not looked at. *)
Definition global_index (final_descriptors : list OciDescriptor) (_existing : option OciImageIndex)
    : IO W OciImageIndex :=
  now ← io_call clock_now;
  let index := build_image_index final_descriptors (lit "NixCache Multi-Architecture Global Index") now in
  mret {| oi_schema_version := 2; oi_media_type := oi_media_type index; oi_manifests := oi_manifests index;
          oi_annotations := oi_annotations index |}.

(** The systems the platforms of an artifact name. *)
Definition artifact_systems (consts_os consts_arch : list N) (systems : gset SystemArch) (artifact : OciArtifactManifest)
    : gset SystemArch :=
  match artifact with
  | ArtifactIndex index =>
      foldl (λ systems desc,
        match od_platform desc with
        | Some plat =>
            let sys := SystemArch_from_oci (op_os plat) (op_architecture plat) (op_variant plat) in
            if SystemArch_is_known sys then {[sys]} ∪ systems else systems
        | None => systems
        end) systems (oi_manifests index)
  | ArtifactManifest _ =>
      let detected := SystemArch_detect_current consts_os consts_arch in
      if SystemArch_is_known detected then {[detected]} ∪ systems else systems
  end.
End shard.

(** ** Facts *)

(** Peels the steps of a task that returned. *)
Ltac inv_bio_step H :=
  let w := fresh "w" in let a := fresh "a" in let Ha := fresh "Ha" in
  apply bio_bind_ok in H as (w & a & Ha & H);
  lazymatch type of Ha with
  | core _ _ = _ => apply core_ok in Ha as [-> Ha]
  | shard_at _ _ _ = _ => apply core_ok in Ha as [-> Ha]
  | oci _ _ = _ => apply oci_ok in Ha
  | bio_call _ _ = _ => apply bio_call_ok in Ha
  | _ => idtac
  end.

Section commitments.
Context {W : Type} `{HttpHeaders} `{UriLib} `{!TransportOps W} `{!TokenOps W} `{!ClockOps W}.
Context `{Sha2Ok} `{Chrono} `{HashIter} `{Build} `{Zstd} `{ZstdEncoder} `{SerdeErrors}.
Context `{!Serde ShardedArchCacheIndexData} `{!Serde ShardDataPayload}.
Context (self : OciClient).

(** The descriptor is the commitment to the payload that a reader checks. *)
Record authenticates (d : ShardDescriptor) (p : ShardDataPayload) : Prop := {
  au_shard : pl_shard_id p = sd_shard_id d;
  au_count : sd_entry_count d = Payload_len p;
  au_hash : Payload_compute_merkle_hash p = Ok (sd_merkle_hash d) }.

Lemma get_shard_data_authenticates d system (w w' : W) p :
  get_shard_data self d system w = (w', Ok p) → authenticates d p.
Proof. intros (_ & ? & ? & ? & _)%get_shard_data_accepted. done. Qed.

(** The entries of a payload that is read lie in its shard. *)
Lemma get_shard_data_placed d system (w w' : W) p h e :
  get_shard_data self d system w = (w', Ok p) → pl_entries p !! h = Some e → calculate_shard_id h = Some (sd_shard_id d).
Proof.
  intros Hg He. pose proof (get_shard_data_authenticates _ _ _ _ _ Hg) as [Hid _ _]. rewrite <- Hid. clear Hid.
  unfold get_shard_data in Hg. apply io_bind_ok in Hg as (w1 & u & _ & Hg).
  destruct (N.eqb_spec (sd_entry_count d) 0) as [Hz|Hz].
  - apply io_bind_ok in Hg as (w2 & mismatch & _ & Hg). destruct mismatch; [done|].
    apply lift_ok in Hg as [_ Hg%map_err_ok]. unfold Payload_new in Hg. destruct (_ <=? _); [done|].
    injection Hg as <-. simpl in He. by rewrite lookup_empty in He.
  - apply io_bind_ok in Hg as (w2 & bytes & _ & Hg). apply io_bind_ok in Hg as (w3 & decoded & _ & Hg).
    apply io_bind_ok in Hg as (w4 & u1 & _ & Hg). apply io_bind_ok in Hg as (w5 & u2 & Hf & Hg).
    apply lift_ok in Hf as [-> Hf%map_err_ok]. apply io_bind_ok in Hg as (w6 & u3 & _ & Hg).
    apply io_bind_ok in Hg as (w7 & u4 & _ & Hg). injection Hg as _ <-.
    unfold Payload_validate_for in Hf. apply bind_ok in Hf as (u5 & Hv%Payload_validate_ok & _).
    destruct Hv as (_ & _ & _ & Hv). by apply Hv in He as (_ & ? & _).
Qed.

Lemma empty_authenticates d p : descriptor_valid d → sd_entry_count d = 0 →
  Payload_new (sd_shard_id d) = Ok p → authenticates d p.
Proof.
  intros Hd Hz Hp. unfold Payload_new in Hp. destruct (N.leb_spec (N.of_nat NUM_SHARDS) (sd_shard_id d)) as [|Hlt]; [done|].
  injection Hp as <-. destruct Hd as (_ & _ & Hd). unfold ShardDescriptor_is_empty in Hd. rewrite Hz in Hd.
  destruct Hd as (_ & _ & _ & Hm). split; simpl; [done|by rewrite Hz; unfold Payload_len; simpl; rewrite map_size_empty|].
  unfold Payload_compute_merkle_hash. simpl. by rewrite compute_empty_shard, Hm.
Qed.

(** What is at the descriptor's digest: the compressed JSON of the payload. *)
Definition published (d : ShardDescriptor) (p : ShardDataPayload) : Prop :=
  authenticates d p ∧ Payload_validate_structure p = Ok () ∧
  ∃ json bytes, to_json p = Ok json ∧ encode_zstd p DEFAULT_ZSTD_COMPRESSION_LEVEL = Ok bytes ∧
    sd_blob_digest d = cd_str (ContentDigest_from_bytes bytes) ∧
    sd_compressed_size d = usize_len bytes ∧ sd_uncompressed_size d = usize_len (utf8 json).

Lemma push_zstd_ok {T} `{!Serde T} (data : T) (w w' : W) digest compressed uncompressed :
  push_zstd self data w = (w', Ok (digest, compressed, uncompressed)) →
  ∃ json bytes, to_json data = Ok json ∧ encode_zstd data DEFAULT_ZSTD_COMPRESSION_LEVEL = Ok bytes ∧
    digest = ContentDigest_from_bytes bytes ∧ compressed = usize_len bytes ∧ uncompressed = usize_len (utf8 json).
Proof.
  intros Hp. unfold push_zstd in Hp. apply io_bind_ok in Hp as (w1 & json & Hj & Hp).
  apply lift_ok in Hj as [-> Hj%map_err_ok]. apply io_bind_ok in Hp as (w2 & bytes & Hb & Hp).
  apply lift_ok in Hb as [-> Hb]. apply io_bind_ok in Hp as (w3 & digest' & Hd & Hp).
  unfold push_bytes in Hd. apply io_bind_ok in Hd as (w4 & u & _ & Hd).
  injection Hd as _ <-. injection Hp as _ <- <- <-. eauto 10.
Qed.

Lemma push_shard_published d p (w w' : W) d' : pl_shard_id p = sd_shard_id d →
  push_shard self d p w = (w', Ok d') → published d' p ∧ sd_shard_id d' = sd_shard_id d ∧ sd_prefix d' = sd_prefix d.
Proof.
  intros Hid Hp. unfold push_shard in Hp. inv_bio_step Hp. destruct a as [[digest comp] uncomp].
  inv_bio_step Hp. apply bio_ret_ok in Hp as [-> ->]. unfold push_shard_data in Ha.
  apply io_bind_ok in Ha as (w2 & [] & Hv & Ha). apply lift_ok in Hv as [-> Hv%map_err_ok].
  apply io_bind_ok in Ha as (w3 & [[digest' comp'] uncomp'] & Hz & Ha). injection Ha as _ <- <- <-.
  apply push_zstd_ok in Hz as (json & bytes & Hj & Hb & -> & -> & ->).
  split; [|done]. split; [done|]. split; [done|]. by exists json, bytes.
Qed.

(** The digest names a manifest of the root, whose only layer is the compressed JSON of
    the root. *)
Definition root_published `{!Serde OciImageManifest} (root : ShardedArchCacheIndexData) (digest : list N) : Prop :=
  index_valid root ∧ ∃ bytes now json, encode_zstd root DEFAULT_ZSTD_COMPRESSION_LEVEL = Ok bytes ∧
    to_json (build_sharded_arch_index_manifest {|
      sp_root_blob_digest := cd_str (ContentDigest_from_bytes bytes); sp_root_blob_size := usize_len bytes;
      sp_config_digest := EMPTY_CONFIG_DIGEST; sp_config_size := EMPTY_CONFIG_SIZE;
      sp_system := ix_system root; sp_merkle_root := ix_merkle_root root |} now) = Ok json ∧
    digest = compute_sha256_digest (utf8 json).

Lemma push_sharded_root_published `{!Serde OciImageManifest} tag root (w w' : W) digest :
  push_sharded_root self tag root w = (w', Ok digest) → root_published root digest.
Proof.
  intros Hp. unfold push_sharded_root in Hp. apply io_bind_ok in Hp as (w1 & json & Hj & Hp).
  apply io_bind_ok in Hp as (w2 & [] & _ & Hp). injection Hp as _ <-. unfold push_root_blob in Hj.
  apply io_bind_ok in Hj as (w4 & [] & Hv & Hj). apply lift_ok in Hv as [-> Hv%map_err_ok%Index_validate_ok].
  apply io_bind_ok in Hj as (w5 & [[d size] un] & Hz & Hj). apply io_bind_ok in Hj as (w6 & now & _ & Hj).
  apply push_zstd_ok in Hz as (raw & bytes & _ & Hb & -> & -> & _).
  apply lift_ok in Hj as [-> Hj%map_err_ok]. split; [done|]. by exists bytes, now, json.
Qed.

(** *** Loops over the shards *)

Definition well_sharded (shards : list ShardDescriptor) : Prop :=
  sd_shard_id <$> shards = shard_ids ∧ Forall descriptor_valid shards.

Lemma well_sharded_lookup shards id d : well_sharded shards → shards !! N.to_nat id = Some d →
  sd_shard_id d = id ∧ descriptor_valid d.
Proof.
  intros [Hi Hv] Hd. rewrite (ordered_id _ _ _ Hi Hd), N2Nat.id. split; [done|]. by eapply Forall_lookup_1.
Qed.

(** The bucket of a shard. *)
Definition bucket (id : N) (entries : gmap StoreHash IndexEntry) : gmap StoreHash IndexEntry :=
  filter (λ '(h, _), calculate_shard_id h = Some id) entries.

Lemma partition_buckets entries P : partition_entries_by_shard entries = Ok P → partitions P entries.
Proof.
  unfold partition_entries_by_shard. intros HP.
  assert (Hs : Forall (λ '(h, _), is_Some (calculate_shard_id h)) (hash_iter entries)).
  { revert HP. generalize (∅ : gmap N (gmap StoreHash IndexEntry)). induction (hash_iter entries) as [|[h e] l IH]; [done|].
    intros m Hm. cbn [fold_m] in Hm. apply bind_ok in Hm as (m' & Hh & Hm).
    apply bind_ok in Hh as (id & Hid%or_panic_ok & _). constructor; eauto. }
  destruct (partition_fold (hash_iter entries) ∅ ∅) as (P' & HP' & Hpart).
  { intros id. cbv zeta. rewrite map_filter_empty. by rewrite decide_True, lookup_empty. }
  { done. }
  rewrite foldl_insert_iter in Hpart. rewrite HP' in HP. by injection HP as <-.
Qed.

(** A loop over the shards that takes the bucket of each and assigns its descriptor:
    what one turn does to a descriptor, the loop does to each. *)
Lemma shard_loop {B} (R : N → ShardDescriptor → ShardDescriptor → Prop)
    (f : gmap N B * list ShardDescriptor → N → BIO W (gmap N B * list ShardDescriptor))
    (P : gmap N B) (shards : list ShardDescriptor) (w w' : W) st :
  well_sharded shards →
  (∀ P1 shards1 id w w' st d0, f (P1, shards1) id w = (w', Ok st) → shards1 !! N.to_nat id = Some d0 →
     shards !! N.to_nat id = Some d0 → sd_shard_id d0 = id → descriptor_valid d0 → P1 !! id = P !! id →
     ∃ d, st = (delete id P1, <[N.to_nat id := d]> shards1) ∧ R id d0 d) →
  bio_fold f (P, shards) shard_ids w = (w', Ok st) →
  ∀ id d0, shards !! N.to_nat id = Some d0 → ∃ d, st.2 !! N.to_nat id = Some d ∧ R id d0 d.
Proof.
  intros Hs Hstep Hf.
  set (Inv := λ (st : gmap N B * list ShardDescriptor) (todo : list N),
    NoDup todo ∧ (∀ id, id ∈ todo → is_Some (shards !! N.to_nat id)) ∧ ∀ id d0, shards !! N.to_nat id = Some d0 →
      if decide (id ∈ todo) then st.1 !! id = P !! id ∧ st.2 !! N.to_nat id = Some d0
      else ∃ d, st.2 !! N.to_nat id = Some d ∧ R id d0 d).
  assert (Hinv : Inv st []).
  { eapply (bio_fold_inv Inv); [| |exact Hf].
    - split; [apply shard_ids_NoDup|].
      assert (Hin : ∀ id, id ∈ shard_ids ↔ is_Some (shards !! N.to_nat id)).
      { intros id. rewrite <- (proj1 Hs), list_elem_of_lookup. setoid_rewrite list_lookup_fmap_Some. split.
        - intros (i & d & -> & Hd). rewrite (ordered_id _ _ _ (proj1 Hs) Hd), Nat2N.id. by exists d.
        - intros [d Hd]. exists (N.to_nat id), d. split; [|done]. by apply well_sharded_lookup in Hd as [-> _]. }
      split; [intros id; apply Hin|]. intros id d0 Hd0. rewrite decide_True; [done|]. apply Hin. by exists d0.
    - clear Hf. intros [P1 shards1] id todo w1 w1' st1 (Hnd & Hin & HI) Hc. apply NoDup_cons in Hnd as [Hnin Hnd].
      destruct (Hin id) as [d0 Hd0]; [by left|]. pose proof (HI id d0 Hd0) as Hid.
      rewrite decide_True in Hid by by left. destruct Hid as [HP Hd1]. simpl in HP, Hd1.
      destruct (well_sharded_lookup _ _ _ Hs Hd0) as [Hi Hv].
      destruct (Hstep _ _ _ _ _ _ d0 Hc Hd1 Hd0 Hi Hv HP) as (d & -> & Hm).
      split; [done|]. split; [intros id' ?; apply Hin; by right|]. intros id' d0' Hd0'. simpl.
      destruct (decide (id' = id)) as [->|Hne].
      + rewrite decide_False by done. rewrite Hd0 in Hd0'. injection Hd0' as <-. exists d. split; [|done].
        apply list_lookup_insert_eq. by eapply lookup_lt_Some.
      + specialize (HI id' d0' Hd0'). rewrite list_lookup_insert_ne by lia. rewrite lookup_delete_ne by done.
        destruct (decide (id' ∈ todo)) as [Ht|Ht].
        * by rewrite decide_True in HI by by right.
        * by rewrite decide_False in HI by (by intros [?|?]%elem_of_cons). }
  destruct Hinv as (_ & _ & Hinv). intros id d0 Hd0. specialize (Hinv id d0 Hd0).
  by rewrite decide_False in Hinv by apply not_elem_of_nil.
Qed.

(** A payload that was accepted for a shard under a blob digest. *)
Definition accepted_payload (id : N) (blob_digest : list N) (p : ShardDataPayload) : Prop :=
  ∃ d, sd_shard_id d = id ∧ sd_blob_digest d = blob_digest ∧ authenticates d p ∧
    map_Forall (λ h _, calculate_shard_id h = Some id) (pl_entries p).
Lemma fetched_payload_accepted d system (w w' : W) p :
  get_shard_data self d system w = (w', Ok p) →
  accepted_payload (sd_shard_id d) (sd_blob_digest d) p.
Proof.
  intros Hg. exists d. split_and!; [done|done|by eapply get_shard_data_authenticates|].
  intros h e He. by eapply get_shard_data_placed.
Qed.
End commitments.

(** ** Instances for the samples of the commands *)

(** A hash that is the same for all messages is enough where nothing is compared. *)
Definition flat_sha2 : Sha2 := {| sha256 := λ _, replicate 32 7 |}.
Lemma flat_sha2_ok : @Sha2Ok flat_sha2.
Proof. split; intros m; [done|]. simpl. by repeat constructor. Qed.

(** The futures one after the other. *)
Fixpoint run_in_turn {W A} (tasks : list (BIO W A)) : BIO W (list A) :=
  match tasks with
  | [] => mret []
  | t :: tasks => a ← t; rest ← run_in_turn tasks; mret (a :: rest)
  end.
Definition in_turn (W : Type) : JoinAll W.
Proof.
  refine {| try_join_all := @run_in_turn W |}; intros A tasks; induction tasks as [|t tasks IH].
  - intros w w' rs Hr. by apply bio_ret_ok in Hr as [_ ->].
  - intros w w' rs Hr. simpl in Hr. inv_bio_step Hr. inv_bio_step Hr. apply bio_ret_ok in Hr as [_ ->].
    constructor; [by eexists _, _|]. by eapply IH.
  - intros R HR _ w. reflexivity.
  - intros R HR Ht w. simpl. unfold mbind, bio_bind. pose proof (Ht t w ltac:(by left)) as Hw.
    destruct (t w) as [w1 [a|e|]]; [|done..]. simpl in Hw. etrans; [exact Hw|].
    pose proof (IH R HR (λ task w H, Ht task w (list_elem_of_further _ _ _ H)) w1) as Hw1.
    destruct (run_in_turn tasks w1) as [w2 [rs|e|]]; done.
Defined.

(** A root of one system with one entry, its blobs all of the one digest. *)
Section served.
#[local] Existing Instance flat_sha2.
#[local] Existing Instance Types.sample_chrono.
#[local] Existing Instance map_order.
(** Frames that store what follows the magic number. *)
Definition served_zstd : Zstd := {|
  ZstdDecoder := list N; zstd_open := λ raw, Ok (drop 4 raw);
  zstd_read := λ d n, Ok (take (N.to_nat (n `min` usize_len d)) d) |}.
Definition flat_digest : list N := format_digest (replicate 32 7).
Definition served_shard : ShardDescriptor := {|
  sd_shard_id := 838; sd_prefix := lit "s6"; sd_blob_digest := flat_digest; sd_compressed_size := 5;
  sd_uncompressed_size := 1; sd_entry_count := 1; sd_merkle_hash := flat_digest |}.
Definition served_root : outcome CoreError ShardedArchCacheIndexData :=
  root ← Index_new X86_64Linux (lit "owner/cache") (lit "us-docker.pkg.dev") 29;
  Ok {| ix_version := ix_version root; ix_system := ix_system root; ix_repo := ix_repo root;
        ix_registry := ix_registry root; ix_generated := ix_generated root; ix_public_key := ix_public_key root;
        ix_shards := <[838%nat := served_shard]> (ix_shards root); ix_merkle_root := ix_merkle_root root;
        ix_gc_roots := [sample_key]; ix_last_promoted_run := None |}.
Definition served_manifest_serde : Serde OciImageManifest := {|
  to_json := λ _, Ok [109];
  from_json_str := λ _, Ok (build_sharded_arch_index_manifest {|
    sp_root_blob_digest := flat_digest; sp_root_blob_size := 5; sp_config_digest := EMPTY_CONFIG_DIGEST;
    sp_config_size := EMPTY_CONFIG_SIZE; sp_system := X86_64Linux; sp_merkle_root := flat_digest |} (lit "now"));
  from_json_slice := λ _, Err [] |}.
End served.
