(* ===== verification/Cli.v ===== *)
(** * Cli: from arguments and the environment to selectors
    (crates/nixcache-cli/src/args/selector.rs, args/purge.rs, args/list.rs, args/oci.rs,
    the [GcArgs] of nixcache-builder/src/cli.rs, [Env] of nixcache-utils/src/env.rs)

    The environment of the process is a function; [clap] fills the records. *)

From stdpp Require Import relations.
From S2P Require Import Prelude Machine Str Text Error Types Sharding Filter Graph Query Purge Gc OciError Transport Endpoint Auth Driver Request Upload Manifest ManifestClient IndexClient Builder.

Local Open Scope N_scope.

(** [char::is_alphabetic]; on ASCII, the letters. *)
Class UnicodeAlpha := { is_alphabetic : N → bool }.
Class UnicodeAlphaOk `{UnicodeAlpha} := {
  is_alphabetic_ascii : ∀ c, c < 128 → is_alphabetic c = in_range 65 90 c || in_range 97 122 c }.

(** The durations of [chrono]: nanoseconds, [None] where the constructor panics, and the
    subtraction from an instant, [None] where it panics. *)
Class ChronoArith := {
  duration_days : Z → option Z;
  duration_hours : Z → option Z;
  duration_minutes : Z → option Z;
  duration_seconds : Z → option Z;
  dt_sub : Z → Z → option Z }.

(** ** The environment *)

(** [str::split] on a set of characters. *)
Fixpoint split_by (f : N → bool) (s : list N) : list (list N) :=
  match s with
  | [] => [[]]
  | c :: s =>
      if f c then [] :: split_by f s
      else match split_by f s with w :: ws => (c :: w) :: ws | [] => [[c]] end
  end.
Definition comma_or_space (c : N) : bool := (c =? 44) || (c =? 32).
(** [split([',', ' ']).map(trim).filter(non-empty)]. *)
Definition words (s : list N) : list (list N) :=
  filter (λ w, is_empty w = false) (trim <$> split_by comma_or_space s).

Section env.
Context `{UnicodeCase} (env : list N → option (list N)).

Definition non_empty_str (s : list N) : option (list N) :=
  let trimmed := trim s in if is_empty trimmed then None else Some trimmed.
Definition Env_get (key : list N) : option (list N) :=
  val ← env key; let trimmed := trim val in if is_empty trimmed then None else Some trimmed.
Fixpoint Env_get_first (keys : list (list N)) : option (list N) :=
  match keys with
  | [] => None
  | key :: keys => match Env_get key with Some v => Some v | None => Env_get_first keys end
  end.
Definition Env_parse_u64 (key : list N) : option N := s ← Env_get key; ok (parse_u64 s).
Definition Env_get_bool (key : list N) : option bool :=
  s ← Env_get key;
  let s := to_lowercase s in
  if bool_decide (s ∈ [lit "1"; lit "true"; lit "yes"; lit "on"]) then Some true
  else if bool_decide (s ∈ [lit "0"; lit "false"; lit "no"; lit "off"]) then Some false
  else None.
(** An argument that is given and not blank, or else the variable. *)
Definition arg_or_env (arg : option (list N)) (keys : list (list N)) : option (list N) :=
  match arg ≫= non_empty_str with Some s => Some s | None => Env_get_first keys end.
End env.

(** ** Sizes and times *)

Definition split_last (s : list N) : option (list N * N) :=
  match reverse s with [] => None | c :: r => Some (reverse r, c) end.

Definition to_ascii_uppercase_char (c : N) : N := if in_range 97 122 c then c - 32 else c.

(** [base * 1024 * ...], [n] factors. *)
Fixpoint times_1024 `{Build} {E} (n : nat) (base : N) : outcome E N :=
  match n with
  | O => Ok base
  | S n => x ← arith u64_bound (base * 1024); times_1024 n x
  end.

(** The cut before the last character is a panic when the character has more than one
    byte. *)
Definition parse_size_str `{Build} `{UnicodeAlpha} (s : list N) : outcome CliError (option N) :=
  let trimmed := trim s in
  match split_last trimmed with
  | None => Ok None
  | Some (front, last) =>
      parts ← (if is_alphabetic last
               then if last <? 128 then Ok (front, Some (to_ascii_uppercase_char last)) else Panic
               else Ok (trimmed, None));
      let '(num_part, unit_) := parts in
      match ok (parse_u64 (trim num_part)) with
      | None => Ok None
      | Some base =>
          match unit_ with
          | None | Some 66 => Ok (Some base)
          | Some 75 => x ← times_1024 1 base; Ok (Some x)
          | Some 77 => x ← times_1024 2 base; Ok (Some x)
          | Some 71 => x ← times_1024 3 base; Ok (Some x)
          | Some 84 => x ← times_1024 4 base; Ok (Some x)
          | Some _ => Ok None
          end
      end
  end.

(** [str::parse::<i64>]. *)
Definition parse_i64 (s : list N) : option Z :=
  match s with
  | [] | [43] | [45] => None
  | 45 :: s => n ← ok (parse_digits (2 ^ 63 + 1) 0 s); Some (- Z.of_N n)%Z
  | 43 :: s => n ← ok (parse_digits (2 ^ 63) 0 s); Some (Z.of_N n)
  | _ => n ← ok (parse_digits (2 ^ 63) 0 s); Some (Z.of_N n)
  end.

(** [now] is [Utc::now()]. *)
Definition parse_duration_or_datetime `{Chrono} `{ChronoArith} (s : list N) (now : Z) : outcome CliError (option Z) :=
  let trimmed := trim s in
  match split_last trimmed with
  | None => Ok None
  | Some (front, last) =>
      match parse_from_rfc3339 trimmed with
      | Some dt => Ok (Some dt)
      | None =>
          if negb (last <? 128) then Panic else
          match parse_i64 (trim front) with
          | None => Ok None
          | Some val =>
              let unit_ := to_ascii_lowercase_char last in
              let constructor :=
                if unit_ =? 100 then Some duration_days
                else if unit_ =? 104 then Some duration_hours
                else if unit_ =? 109 then Some duration_minutes
                else if unit_ =? 115 then Some duration_seconds
                else None in
              match constructor with
              | None => Ok None
              | Some make => d ← or_panic (make val); t ← or_panic (dt_sub now d); Ok (Some t)
              end
          end
      end
  end.

(** ** Selectors *)

Inductive DefaultScopePolicy := SelectAll | RequireExplicit.

Record CacheSelectorArgs := {
  sa_all : bool;
  sa_hashes : option (list N);
  sa_patterns : list (list N);
  sa_system : list (list N);
  sa_flake_path : option (list N);
  sa_attributes : option (list N);
  sa_older_than : option (list N);
  sa_newer_than : option (list N);
  sa_min_size : option (list N);
  sa_max_size : option (list N);
  sa_origin_job : list (list N);
  sa_origin_run : list N;
  sa_cascade : option (list N);
  sa_protect_gc_roots : bool }.
Definition CacheSelectorArgs_default : CacheSelectorArgs := {|
  sa_all := false; sa_hashes := None; sa_patterns := []; sa_system := []; sa_flake_path := None;
  sa_attributes := None; sa_older_than := None; sa_newer_than := None; sa_min_size := None;
  sa_max_size := None; sa_origin_job := []; sa_origin_run := []; sa_cascade := None;
  sa_protect_gc_roots := false |}.

Section selector.
Context `{UnicodeCase} `{UnicodeAlpha} `{Build} `{Chrono} `{ChronoArith}.
Context (env : list N → option (list N)) (self : CacheSelectorArgs).

Definition resolve_all : bool :=
  if sa_all self then true
  else default false (match Env_get_bool env (lit "NIXCACHE_FILTER_ALL") with
                      | Some b => Some b
                      | None => Env_get_bool env (lit "NIXCACHE_PURGE_ALL")
                      end).

Definition resolve_hashes : outcome CliError (list StoreHash) :=
  let hash_str := default [] (arg_or_env env (sa_hashes self)
                    [lit "NIXCACHE_FILTER_HASHES"; lit "NIXCACHE_PURGE_HASHES"]) in
  collect_m (λ value, map_err (CliInvalidStoreHash value) (StoreHash_parse value)) (words hash_str).

Definition resolve_patterns : list (list N) :=
  match sa_patterns self with
  | [] => match Env_get_first env [lit "NIXCACHE_FILTER_PATTERNS"; lit "NIXCACHE_PURGE_PATTERNS"] with
          | Some env_pats => words env_pats
          | None => []
          end
  | patterns => patterns
  end.

Definition resolve_systems : list SystemArch :=
  match sa_system self with
  | [] => match Env_get env (lit "NIXCACHE_SYSTEM") with
          | Some env_sys => SystemArch_from <$> words env_sys
          | None => []
          end
  | system => SystemArch_from <$> system
  end.

Definition resolve_flake_path : option (list N) := arg_or_env env (sa_flake_path self) [lit "NIXCACHE_FLAKE_PATH"].
Definition resolve_attributes : list (list N) :=
  words (default [] (arg_or_env env (sa_attributes self) [lit "NIXCACHE_ATTRIBUTES"])).

(** The time of the reading, for each of the two bounds. *)
Definition resolve_older_than (now : Z) : outcome CliError (option Z) :=
  match arg_or_env env (sa_older_than self) [lit "NIXCACHE_OLDER_THAN"] with
  | Some s => parse_duration_or_datetime s now
  | None => Ok None
  end.
Definition resolve_newer_than (now : Z) : outcome CliError (option Z) :=
  match arg_or_env env (sa_newer_than self) [lit "NIXCACHE_NEWER_THAN"] with
  | Some s => parse_duration_or_datetime s now
  | None => Ok None
  end.

Definition resolve_time_filter (now1 now2 : Z) : outcome CliError (option TimeFilter) :=
  older ← resolve_older_than now1;
  newer ← resolve_newer_than now2;
  Ok (match older, newer with
      | Some o, Some n => Some (if (n <=? o)%Z then Between n o else Between o n)
      | Some o, None => Some (Before o)
      | None, Some n => Some (After n)
      | None, None => None
      end).

Definition resolve_min_size : outcome CliError (option N) :=
  match arg_or_env env (sa_min_size self) [lit "NIXCACHE_MIN_SIZE"] with
  | Some s => parse_size_str s
  | None => Ok None
  end.
Definition resolve_max_size : outcome CliError (option N) :=
  match arg_or_env env (sa_max_size self) [lit "NIXCACHE_MAX_SIZE"] with
  | Some s => parse_size_str s
  | None => Ok None
  end.

Definition resolve_size_filter : outcome CliError (option SizeFilter) :=
  min ← resolve_min_size;
  max ← resolve_max_size;
  Ok (match min, max with
      | Some mi, Some ma => Some (Range mi ma)
      | Some mi, None => Some (MinBytes mi)
      | None, Some ma => Some (MaxBytes ma)
      | None, None => None
      end).

Definition resolve_cascade (default_mode : CascadeMode) : CascadeMode :=
  match to_ascii_lowercase <$> arg_or_env env (sa_cascade self) [lit "NIXCACHE_CASCADE"] with
  | Some m =>
      if bool_decide (m ∈ [lit "exact"; lit "none"]) then Exact
      else if bool_decide (m ∈ [lit "dependents"; lit "dependent"; lit "downstream"]) then Dependents
      else if bool_decide (m ∈ [lit "transitive"; lit "forward"; lit "dependencies"]) then Transitive
      else if bool_decide (m ∈ [lit "full"; lit "full-tree"; lit "all"]) then FullTree
      else default_mode
  | None => default_mode
  end.

Definition resolve_protect_gc_roots : bool :=
  if sa_protect_gc_roots self then true
  else default false (Env_get_bool env (lit "NIXCACHE_PROTECT_GC_ROOTS")).

Definition resolve_origin_jobs : gset (list N) :=
  match sa_origin_job self with
  | [] => match Env_get env (lit "NIXCACHE_ORIGIN_JOB") with
          | Some env_job => list_to_set (words env_job)
          | None => ∅
          end
  | jobs => list_to_set jobs
  end.
Definition resolve_origin_runs : gset N :=
  match sa_origin_run self with
  | [] => match Env_get env (lit "NIXCACHE_ORIGIN_RUN") with
          | Some env_runs => list_to_set (omap (λ s, ok (parse_u64 (trim s))) (split_by comma_or_space env_runs))
          | None => ∅
          end
  | runs => list_to_set runs
  end.

Definition resolve_predicates (extra_hashes : list StoreHash) (now1 now2 : Z) : outcome CliError FilterPredicates :=
  hashes ← resolve_hashes;
  time_filter ← resolve_time_filter now1 now2;
  size_filter ← resolve_size_filter;
  Ok {| store_hashes := list_to_set hashes ∪ list_to_set extra_hashes; patterns := resolve_patterns;
        systems := list_to_set resolve_systems; Filter.time_filter := time_filter;
        Filter.size_filter := size_filter; origin_jobs := resolve_origin_jobs; origin_runs := resolve_origin_runs |}.

Definition to_selector_with_policy (extra_hashes : list StoreHash) (default_cascade : CascadeMode)
    (policy : DefaultScopePolicy) (now1 now2 : Z) : outcome CliError CacheSelector :=
  predicates ← resolve_predicates extra_hashes now1 now2;
  Ok {| scope := if resolve_all then All (systems predicates)
                 else if FilterPredicates_is_empty predicates
                 then match policy with SelectAll => All (systems predicates) | RequireExplicit => ScopeNone end
                 else Filtered predicates;
        cascade_mode := resolve_cascade default_cascade; protect_gc_roots := resolve_protect_gc_roots |}.

Definition to_list_selector (extra_hashes : list StoreHash) (now1 now2 : Z) : outcome CliError CacheSelector :=
  to_selector_with_policy extra_hashes Exact SelectAll now1 now2.
Definition to_purge_selector (extra_hashes : list StoreHash) (now1 now2 : Z) : outcome CliError CacheSelector :=
  to_selector_with_policy extra_hashes Dependents RequireExplicit now1 now2.
End selector.

(** ** The commands *)

Record PurgeArgs := {
  pa_selector : CacheSelectorArgs;
  pa_delete_blobs : bool;
  pa_strict : option bool;
  pa_no_strict : bool;
  pa_dry_run : bool }.
Record GcArgs := {
  ga_retention_days : option N;
  ga_delete_blobs : bool;
  ga_strict : option bool;
  ga_no_strict : bool;
  ga_dry_run : bool }.

Section commands.
Context `{UnicodeCase} (env : list N → option (list N)).

Definition flag_or_env (flag : bool) (key : list N) : bool :=
  if flag then true else default false (Env_get_bool env key).
Definition strict_or_env (no_strict : bool) (strict : option bool) : bool :=
  if no_strict then false
  else match strict with Some s => s | None => default true (Env_get_bool env (lit "NIXCACHE_STRICT")) end.

Definition resolve_delete_blobs (self : PurgeArgs) : bool := flag_or_env (pa_delete_blobs self) (lit "NIXCACHE_DELETE_BLOBS").
Definition resolve_strict (self : PurgeArgs) : bool := strict_or_env (pa_no_strict self) (pa_strict self).
Definition resolve_dry_run (self : PurgeArgs) : bool := flag_or_env (pa_dry_run self) (lit "NIXCACHE_DRY_RUN").

Definition resolve_retention_days (self : GcArgs) : N :=
  match ga_retention_days self with
  | Some d => d
  | None => default 30 (Env_parse_u64 env (lit "NIXCACHE_RETENTION_DAYS"))
  end.
Definition to_purge_args (self : GcArgs) : PurgeArgs := {|
  pa_selector := {|
    sa_all := false; sa_hashes := None; sa_patterns := []; sa_system := []; sa_flake_path := None;
    sa_attributes := None; sa_older_than := Some (show_N (resolve_retention_days self) ++ lit "d");
    sa_newer_than := None; sa_min_size := None; sa_max_size := None; sa_origin_job := []; sa_origin_run := [];
    sa_cascade := Some (lit "exact"); sa_protect_gc_roots := true |};
  pa_delete_blobs := flag_or_env (ga_delete_blobs self) (lit "NIXCACHE_DELETE_BLOBS");
  pa_strict := Some (strict_or_env (ga_no_strict self) (ga_strict self));
  pa_no_strict := ga_no_strict self;
  pa_dry_run := ga_dry_run self |}.

(** *** The target *)

Definition DEFAULT_NIXCACHE_REPO : list N := lit "shaogme/nixcache-oci".
Definition DEFAULT_NIXCACHE_REGISTRY : list N := lit "ghcr.io".
Definition resolve_repo (repo : option (list N)) (default_repo : list N) : list N :=
  default default_repo (arg_or_env env repo [lit "NIXCACHE_REPO"]).
Definition resolve_registry (registry : option (list N)) (default_registry : list N) : list N :=
  default default_registry (arg_or_env env registry [lit "NIXCACHE_REGISTRY"]).

(** *** Listing *)

Definition resolve_sort_by (sort_by : option (list N)) : SortBy :=
  let field_str := to_ascii_lowercase (default (lit "date") (arg_or_env env sort_by [lit "NIXCACHE_SORT_BY"])) in
  if bool_decide (field_str ∈ [lit "size"; lit "narsize"; lit "bytes"]) then SortNarSize
  else if bool_decide (field_str ∈ [lit "name"; lit "package"; lit "pkg"]) then SortName
  else if bool_decide (field_str ∈ [lit "hash"; lit "storehash"]) then SortStoreHash
  else AddedDate.
Definition resolve_sort_order (sort_order : option (list N)) : SortOrder :=
  let order_str := to_ascii_lowercase (default (lit "desc") (arg_or_env env sort_order [lit "NIXCACHE_SORT_ORDER"])) in
  if bool_decide (order_str ∈ [lit "asc"; lit "ascending"]) then Asc else Desc.
End commands.

(** ** Facts *)

Lemma show_N_word n : no_ws (show_N n) ∧ trim (show_N n) = show_N n.
Proof.
  destruct (show_N_spec n) as (_ & Hd & _). apply digits_no_ws in Hd as [Hd _]. split; [done|].
  by apply trimmed_eq, trimmed_no_ws.
Qed.

Lemma split_last_snoc s c : split_last (s ++ [c]) = Some (s, c).
Proof. unfold split_last. by rewrite reverse_snoc, reverse_involutive. Qed.

Lemma number_with_unit n c : is_whitespace c = false → trim (show_N n ++ [c]) = show_N n ++ [c].
Proof.
  intros Hc. apply trimmed_eq, trimmed_no_ws, Forall_app. split; [apply show_N_word|]. by constructor.
Qed.

Lemma parse_i64_show n : n < 2 ^ 63 → parse_i64 (show_N n) = Some (Z.of_N n).
Proof.
  intros Hn. destruct (show_N_spec n) as (Hne & Hd & Hv).
  assert (Hp : parse_digits (2 ^ 63) 0 (show_N n) = Ok n).
  { rewrite parse_digits_value; rewrite ?Hv; done. }
  destruct (show_N n) as [|c ds]; [done|]. apply Forall_cons in Hd as [Hc _]. apply is_digit_range in Hc.
  assert (c = 48 ∨ c = 49 ∨ c = 50 ∨ c = 51 ∨ c = 52 ∨ c = 53 ∨ c = 54 ∨ c = 55 ∨ c = 56 ∨ c = 57)
    as Hcases by lia.
  unfold parse_i64. destruct_or! Hcases; subst; destruct ds; by rewrite Hp.
Qed.

Lemma arith_again `{Build} {E} a b :
  (x ← @arith _ E u64_bound a; arith u64_bound (x * b)) = arith u64_bound (a * b) ∨ b = 0.
Proof.
  destruct (N.eq_dec b 0) as [->|Hb]; [by right|]. left. unfold arith.
  destruct (N.ltb_spec a u64_bound) as [Ha|Ha]; [done|].
  rewrite (proj2 (N.ltb_ge (a * b) u64_bound)) by nia. destruct overflow_checks; [done|]. cbn [mbind outcome_bind].
  destruct (N.ltb_spec (a mod u64_bound * b) u64_bound) as [Hm|Hm]; f_equal.
  - rewrite <- (N.mod_small (a mod u64_bound * b) u64_bound) by done. by rewrite N.Div0.mul_mod_idemp_l.
  - by rewrite N.Div0.mul_mod_idemp_l.
Qed.

(** The products, when all are made, are the one product, whether they fit or not. *)
Lemma times_1024_ok `{Build} {E} k n : n < u64_bound →
  times_1024 k n = @arith _ E u64_bound (n * 1024 ^ N.of_nat k).
Proof.
  intros Hn. revert n Hn. induction k as [|k IH]; intros n Hn; cbn [times_1024].
  - rewrite N.mul_1_r. symmetry. by apply arith_ok.
  - replace (n * 1024 ^ N.of_nat (S k)) with (n * 1024 * 1024 ^ N.of_nat k)
      by (rewrite Nat2N.inj_succ, N.pow_succ_r'; lia).
    destruct (arith_again (E := E) (n * 1024) (1024 ^ N.of_nat k)) as [<-|Hz];
      [|by apply N.pow_nonzero in Hz].
    unfold arith at 1 3. destruct (_ <? _) eqn:Hlt; cbn [mbind outcome_bind].
    + by apply IH, N.ltb_lt.
    + destruct overflow_checks; [done|]. cbn [mbind outcome_bind]. apply IH, N.mod_lt. done.
Qed.

(** The units of a size and the power of 1024 each stands for. *)
Definition size_units : list (N * nat) :=
  [(66, 0%nat); (98, 0%nat); (75, 1%nat); (107, 1%nat); (77, 2%nat); (109, 2%nat); (71, 3%nat); (103, 3%nat);
   (84, 4%nat); (116, 4%nat)].

(** The variables that a selector reads. *)
Definition selector_keys : list (list N) :=
  [lit "NIXCACHE_FILTER_ALL"; lit "NIXCACHE_PURGE_ALL"; lit "NIXCACHE_FILTER_HASHES"; lit "NIXCACHE_PURGE_HASHES";
   lit "NIXCACHE_FILTER_PATTERNS"; lit "NIXCACHE_PURGE_PATTERNS"; lit "NIXCACHE_SYSTEM"; lit "NIXCACHE_OLDER_THAN";
   lit "NIXCACHE_NEWER_THAN"; lit "NIXCACHE_MIN_SIZE"; lit "NIXCACHE_MAX_SIZE"; lit "NIXCACHE_ORIGIN_JOB";
   lit "NIXCACHE_ORIGIN_RUN"; lit "NIXCACHE_CASCADE"; lit "NIXCACHE_PROTECT_GC_ROOTS"].

Lemma scope_none_selects_nothing `{Chrono} `{HashIter} entries gc_roots selector h :
  scope selector = ScopeNone → ¬ selected entries gc_roots selector h.
Proof. intros Hs (i & (e & _ & Hi & _) & _). unfold in_scope in Hi. by rewrite Hs in Hi. Qed.

(** ** Properties *)

(** a purge must be told what to purge.  Unless [--all] or one of its variables is given, the
    selector of a purge never covers everything; and when no filter is given, whatever the cascade,
    the purge it asks for removes no entry. *)
Theorem purge_requires_explicit `{UnicodeCase} `{UnicodeAlpha} `{Build} `{Chrono} `{ChronoArith} `{HashIter}
    (env : list N → option (list N)) (args : CacheSelectorArgs) (extra : list StoreHash) (now1 now2 : Z) sel
    (Hsel : to_purge_selector env args extra now1 now2 = Ok sel) (Hall : resolve_all env args = false) :
  (∀ systems, scope sel ≠ All systems) ∧
  ∀ predicates, resolve_predicates env args extra now1 now2 = Ok predicates →
    FilterPredicates_is_empty predicates = true →
    ∀ entries gc_roots p, evaluate_cache_purge entries gc_roots sel = Ok p →
      purged_entries p = ∅ ∧ kept_entries p = entries.
Proof.
  unfold to_purge_selector, to_selector_with_policy in Hsel. apply bind_ok in Hsel as (preds & Hp & [= <-]).
  rewrite Hall. cbn [scope]. split; [by intros systems; case_match|].
  intros preds' Hp' He entries gc_roots p Hpurge. rewrite Hp' in Hp. injection Hp as <-. rewrite He in Hpurge.
  apply evaluate_cache_purge_inv in Hpurge as (r & _ & Ha & _ & -> & -> & _). split; apply map_eq; intros h.
  - rewrite lookup_empty. destruct (matched_entries r !! h) eqn:Hm; [|done]. apply Ha in Hm as [_ Hs].
    by apply scope_none_selects_nothing in Hs.
  - apply option_eq. intros e. rewrite (qa_unmatched _ _ _ _ Ha). split; [by intros [? _]|]. intros Hh. split; [done|].
    by apply scope_none_selects_nothing.
Qed.

(** the garbage collection command is the garbage collection of the core: with no variable of
    the selector set and a retention the calendar can represent, the selector that [gc] gives to
    the purge engine is the one [evaluate_multi_arch_gc] uses, at the cutoff that lies the retention before now. *)
Theorem gc_command_is_gc `{UnicodeCase} `{UnicodeAlpha} `{Build} `{Chrono} `{ChronoArith}
    (env : list N → option (list N)) (args : GcArgs) (now1 now2 dur cutoff : Z)
    (Henv : Forall (λ key, env key = None) selector_keys)
    (Hdays : resolve_retention_days env args < 2 ^ 63)
    (Hdate : parse_from_rfc3339 (show_N (resolve_retention_days env args) ++ lit "d") = None)
    (Hdur : duration_days (Z.of_N (resolve_retention_days env args)) = Some dur)
    (Hsub : dt_sub now1 dur = Some cutoff) :
  to_purge_selector env (pa_selector (to_purge_args env args)) [] now1 now2 = Ok (gc_selector cutoff).
Proof.
  set (days := resolve_retention_days env args) in *.
  assert (Hold : resolve_older_than env (pa_selector (to_purge_args env args)) now1 = Ok (Some cutoff)).
  { unfold resolve_older_than, to_purge_args, arg_or_env. cbn [pa_selector sa_older_than mbind option_bind].
    fold days. unfold non_empty_str. change (lit "d") with [100].
    rewrite number_with_unit by done. rewrite is_empty_app_r by apply show_N_spec.
    unfold parse_duration_or_datetime. rewrite number_with_unit, split_last_snoc by done.
    change [100] with (lit "d"). rewrite Hdate, (proj2 (show_N_word days)), parse_i64_show by done.
    cbn. by rewrite Hdur; cbn; rewrite Hsub. }
  unfold selector_keys in Henv. repeat (apply Forall_cons in Henv as [?Hk Henv]).
  unfold to_purge_selector, to_selector_with_policy, resolve_predicates, resolve_hashes, resolve_time_filter.
  rewrite Hold. unfold resolve_all, resolve_newer_than, resolve_size_filter, resolve_min_size, resolve_max_size,
    resolve_patterns, resolve_systems, resolve_origin_jobs, resolve_origin_runs, resolve_protect_gc_roots,
    to_purge_args, arg_or_env, Env_get_first, Env_get_bool, Env_get.
  cbn [pa_selector sa_all sa_hashes sa_patterns sa_system sa_newer_than sa_min_size sa_max_size sa_origin_job
    sa_origin_run sa_protect_gc_roots mbind option_bind].
  repeat match goal with Hk : env _ = None |- _ => rewrite Hk; clear Hk end. done.
Qed.


(** ** Divergences *)

(** A duration whose last character is not ASCII is cut inside the character: [30天] panics. *)
Theorem duration_argument_panics `{Chrono} `{ChronoArith} now :
  parse_from_rfc3339 [51; 48; 22825] = None → parse_duration_or_datetime [51; 48; 22825] now = Panic.
Proof. intros Hd. unfold parse_duration_or_datetime. change (trim [51; 48; 22825]) with [51; 48; 22825]. cbn. by rewrite Hd. Qed.

(** In a release build a size of 2^64 bytes is the size 0: [--min-size 16777216T] selects every entry. *)
Theorem size_argument_wraps `{UnicodeAlphaOk} :
  @parse_size_str release64 _ (lit "16777216T") = Ok (Some 0).
Proof.
  unfold parse_size_str. replace (split_last (trim (lit "16777216T"))) with (Some (lit "16777216", 84)) by (by vm_compute).
  rewrite is_alphabetic_ascii by done. by vm_compute.
Qed.

(** The garbage collection reads the variable of [purge --all]: when it is set, the run that should
    remove expired entries asks for the deletion of the package. *)
Theorem gc_reads_purge_all (args : GcArgs) :
  let env := λ key, if decide (key = lit "NIXCACHE_PURGE_ALL") then Some (lit "true") else None in
  @resolve_all ascii_case env (pa_selector (@to_purge_args ascii_case env args)) = true.
Proof. reflexivity. Qed.

(** ** Witnesses *)

Section samples.
Definition ascii_alpha : UnicodeAlpha := {| is_alphabetic := λ c, in_range 65 90 c || in_range 97 122 c |}.
Definition ascii_alpha_ok : @UnicodeAlphaOk ascii_alpha.
Proof. split. by intros c _. Defined.
(** Days of 86400 seconds, without the bounds of the calendar. *)
Definition plain_arith : ChronoArith := {|
  duration_days := λ d, Some (d * 86400 * 10 ^ 9)%Z; duration_hours := λ d, Some (d * 3600 * 10 ^ 9)%Z;
  duration_minutes := λ d, Some (d * 60 * 10 ^ 9)%Z; duration_seconds := λ d, Some (d * 10 ^ 9)%Z;
  dt_sub := λ t d, Some (t - d)%Z |}.
Definition no_env : list N → option (list N) := λ _, None.
Definition sample_gc : GcArgs := {|
  ga_retention_days := None; ga_delete_blobs := false; ga_strict := None; ga_no_strict := false; ga_dry_run := false |}.

Lemma purge_requires_explicit_witness :
  ∃ p, @evaluate_cache_purge Types.sample_chrono map_order debug64 sample_entries sample_roots
    {| scope := ScopeNone; cascade_mode := Dependents; protect_gc_roots := false |} = Ok p ∧ purged_entries p = ∅.
Proof.
  destruct (@evaluate_cache_purge_total Types.sample_chrono map_order debug64 sample_entries sample_roots
    {| scope := ScopeNone; cascade_mode := Dependents; protect_gc_roots := false |}) as [p Hp];
    [exact sample_readable|by vm_compute|].
  exists p. split; [exact Hp|].
  destruct (@purge_requires_explicit ascii_case ascii_alpha debug64 Types.sample_chrono plain_arith map_order no_env
    CacheSelectorArgs_default [] 0 0 _ eq_refl eq_refl) as [_ Hnone].
  exact (proj1 (Hnone _ eq_refl eq_refl _ _ _ Hp)).
Defined.

Lemma gc_command_is_gc_witness :
  @to_purge_selector ascii_case ascii_alpha debug64 Types.sample_chrono plain_arith no_env
    (pa_selector (@to_purge_args ascii_case no_env sample_gc)) [] (40 * 86400 * 10 ^ 9)%Z 0
  = Ok (gc_selector (10 * 86400 * 10 ^ 9)%Z).
Proof.
  apply (@gc_command_is_gc ascii_case ascii_alpha debug64 Types.sample_chrono plain_arith no_env sample_gc
    (40 * 86400 * 10 ^ 9) 0 (30 * 86400 * 10 ^ 9) (10 * 86400 * 10 ^ 9)%Z); [by repeat constructor|done|by vm_compute|done|done].
Defined.

End samples.
