(* ===== verification/Promote.v ===== *)
(** * Promote: receipts merged into the published index
    (crates/nixcache-builder/src/promote.rs)

    The file system is the interface [Fs]; the step summary written at the end is
    reporting and left out. *)

From S2P Require Import Prelude Machine Str Text Error Types Sharding Index Receipt OciError Transport Endpoint Auth Request Driver Upload Manifest ManifestClient IndexClient Builder.

Local Open Scope N_scope.

(** ** Paths: [std::path] on Unix *)

Inductive Component := RootDir | CurDir | ParentDir | Normal (name : list N).
#[export] Instance Component_eq_dec : EqDecision Component.
Proof. solve_decision. Defined.

Definition components (p : list N) : list Component :=
  let parts := split 47 p in
  (if starts_with (lit "/") p then [RootDir]
   else if bool_decide (head parts = Some (lit ".")) then [CurDir] else [])
  ++ omap (λ part, if is_empty part || bool_decide (part = lit ".") then None
                   else if bool_decide (part = lit "..") then Some ParentDir else Some (Normal part)) parts.

Definition component_rank (c : Component) : N :=
  match c with RootDir => 0 | CurDir => 1 | ParentDir => 2 | Normal _ => 3 end.
Definition component_cmp (a b : Component) : comparison :=
  match a, b with
  | Normal x, Normal y => bytes_cmp (utf8 x) (utf8 y)
  | _, _ => component_rank a ?= component_rank b
  end.
Fixpoint components_cmp (a b : list Component) : comparison :=
  match a, b with
  | [], [] => Eq
  | [], _ :: _ => Lt
  | _ :: _, [] => Gt
  | x :: a, y :: b => match component_cmp x y with Eq => components_cmp a b | c => c end
  end.
Definition path_le (a b : list N) : Prop := components_cmp (components a) (components b) ≠ Gt.
#[export] Instance path_le_dec : RelDecision path_le.
Proof. unfold path_le. intros a b. apply _. Defined.

(** [Vec::dedup] with the equality of paths. *)
Fixpoint dedup_paths (l : list (list N)) : list (list N) :=
  match l with
  | a :: ((b :: _) as rest) =>
      if bool_decide (components a = components b)
      then match dedup_paths rest with [] => [a] | _ :: rest' => a :: rest' end
      else a :: dedup_paths rest
  | _ => l
  end.

Definition path_file_name (p : list N) : option (list N) :=
  match last (components p) with Some (Normal name) => Some name | _ => None end.
Definition extension (p : list N) : option (list N) :=
  name ← path_file_name p;
  '(before, after) ← rsplit_once 46 name;
  if is_empty before then None else Some after.
Definition is_json (p : list N) : bool := bool_decide (extension p = Some (lit "json")).

(** The file system: [Path::is_dir] and [is_file] follow symbolic links; a directory
    lists the entries up to the first error, with their own type when it is known;
    [None] when it cannot be opened. *)
Inductive FileType := FtDir | FtFile | FtOther.
Class Fs (W : Type) := {
  fs_is_dir : list N → W → W * bool;
  fs_is_file : list N → W → W * bool;
  fs_read_dir : list N → W → W * option (list (list N * option FileType));
  fs_read_to_string : list N → W → W * outcome (list N) (list N) }.

Section promote.
Context {W : Type} `{HttpHeaders} `{UriLib} `{UnicodeCase} `{!TransportOps W} `{!TokenOps W} `{!ClockOps W}.
Context `{!JoinAll W} `{!UtcNow W} `{!EnvVars W} `{!Fs W}.
Context `{Sha2} `{Chrono} `{HashIter} `{DebugOrigin} `{Build} `{Zstd} `{ZstdEncoder} `{SerdeErrors}.
Context `{!Serde OciImageIndex} `{!Serde OciImageManifest} `{!Serde BuildReceipt}.
Context `{!Serde ShardedArchCacheIndexData} `{!Serde ShardDataPayload}.

(** ** Receipt files *)

(** The first loop: the stack of directories (its top first) and the files. *)
Definition sort_argument (st : list (list N) * list (list N)) (p : list N) : BIO W (list (list N) * list (list N)) :=
  let '(dirs, files) := st in
  dir ← bio_call (fs_is_dir p);
  if (dir : bool) then mret (p :: dirs, files) else
  file ← bio_call (fs_is_file p);
  mret (if (file : bool) && is_json p then (dirs, files ++ [p]) else (dirs, files)).

Definition sort_entry (st : list (list N) * list (list N)) (entry : list N * option FileType)
    : list (list N) * list (list N) :=
  let '(dirs, files) := st in
  match entry.2 with
  | Some FtDir => (entry.1 :: dirs, files)
  | Some FtFile => if is_json entry.1 then (dirs, files ++ [entry.1]) else (dirs, files)
  | _ => (dirs, files)
  end.

(** [while let Some(current_dir) = dirs_to_visit.pop()]; [None] is fuel used up. *)
Fixpoint visit_dirs (fuel : nat) (dirs files : list (list N)) : BIO W (option (list (list N))) :=
  match fuel, dirs with
  | _, [] => mret (Some files)
  | O, _ => mret None
  | S fuel, current_dir :: dirs =>
      entries ← bio_call (fs_read_dir current_dir);
      let '(dirs, files) := foldl sort_entry (dirs, files) (default [] entries) in
      visit_dirs fuel dirs files
  end.

Definition collect_receipt_files (fuel : nat) (paths : list (list N)) : BIO W (option (list (list N))) :=
  st ← bio_fold sort_argument ([], []) paths;
  files ← visit_dirs fuel st.1 st.2;
  mret ((λ files, dedup_paths (merge_sort path_le files)) <$> files).

(** ** What the receipts bring, by system *)

Record Incoming := {
  in_entries : gmap SystemArch (gmap StoreHash IndexEntry);
  in_roots : gmap SystemArch (list StoreHash);
  in_public_key : list N }.

Definition take_receipt (st : Incoming) (receipt : BuildReceipt) : Incoming := {|
  in_public_key :=
    match rc_public_key receipt with
    | Some pk => if is_empty (in_public_key st) && negb (is_empty pk) then pk else in_public_key st
    | None => in_public_key st
    end;
  in_entries := <[rc_system receipt := rc_new_entries receipt ∪ default ∅ (in_entries st !! rc_system receipt)]>
                  (in_entries st);
  in_roots := <[rc_system receipt := default [] (in_roots st !! rc_system receipt) ++ rc_active_gc_roots receipt]>
                (in_roots st) |}.

(** A file that cannot be read or is no receipt is skipped with a warning. *)
Definition load_receipt (st : Incoming) (file_path : list N) : BIO W Incoming :=
  content ← bio_call (fs_read_to_string file_path);
  match content with
  | Ok content =>
      match wire ← from_json_str content; map_err (serde_custom (utf8 content)) (Receipt_deserialize wire) with
      | Ok receipt => mret (take_receipt st receipt)
      | Err _ => mret st
      | Panic => fail Panic
      end
  | Err _ => mret st
  | Panic => fail Panic
  end.
Definition load_receipts (files : list (list N)) : BIO W Incoming :=
  bio_fold load_receipt {| in_entries := ∅; in_roots := ∅; in_public_key := [] |} files.

(** ** The systems to publish *)

Definition SystemArch_rank (s : SystemArch) : nat :=
  default O (fst <$> list_find (λ v, v = s) SystemArch_VARIANTS).
Definition SystemArch_le (a b : SystemArch) : Prop := (SystemArch_rank a ≤ SystemArch_rank b)%nat.
#[local] Instance SystemArch_le_dec : RelDecision SystemArch_le.
Proof. unfold SystemArch_le. intros a b. apply _. Defined.

Context (consts_os consts_arch : list N).

Definition target_systems (self : OciClient) (target_tag : list N) (incoming : Incoming) : BIO W (list SystemArch) :=
  let systems : gset SystemArch := dom (in_entries incoming) ∪ dom (in_roots incoming) in
  artifact ← bio_catch (fetch_artifact self target_tag);
  systems ← match artifact with
            | Ok (Some artifact) => mret (artifact_systems consts_os consts_arch systems (fa_manifest artifact))
            | Panic => fail Panic
            | _ => mret systems
            end;
  let systems : gset SystemArch :=
    if bool_decide (systems = ∅)
    then let detected := SystemArch_detect_current consts_os consts_arch in
         if SystemArch_is_known detected then {[detected]} else {[X86_64Linux]}
    else systems in
  mret (merge_sort SystemArch_le (set_iter systems)).

(** ** Partial compaction of one system's root *)

(** One turn of the loop over the shards: the entries still to place and the
    descriptors. *)
Definition compact_shard (self : OciClient) (sys : SystemArch)
    (st : gmap N (gmap StoreHash IndexEntry) * list ShardDescriptor) (shard_id : N)
    : BIO W (gmap N (gmap StoreHash IndexEntry) * list ShardDescriptor) :=
  let '(partitioned_incoming, shards) := st in
  let rest := delete shard_id partitioned_incoming in
  match partitioned_incoming !! shard_id with
  | Some incoming =>
      if bool_decide (incoming = ∅) then mret (rest, shards) else
      existing_desc ← shard_at shards shard_id;
      shard_payload ← (if (0 <? sd_entry_count existing_desc) && negb (is_empty (sd_blob_digest existing_desc))
                       then oci (get_shard_data self existing_desc sys)
                       else core (Payload_new shard_id));
      let shard_payload := with_entries shard_payload (incoming ∪ pl_entries shard_payload) in
      desc ← push_shard self existing_desc shard_payload;
      mret (rest, <[N.to_nat shard_id := desc]> shards)
  | None => mret (rest, shards)
  end.

(** The existing root of the system, or a new one. *)
Definition base_root (self : OciClient) (repo registry target_tag : list N) (sys : SystemArch)
    : BIO W ShardedArchCacheIndexData :=
  existing ← oci (get_sharded_root self target_tag sys);
  match existing with
  | Some (data, _) => mret data
  | None => now ← bio_call utc_now; core (Index_new sys repo registry now)
  end.

Definition compact_root (self : OciClient) (base_pub_key : list N) (new_entries : gmap StoreHash IndexEntry)
    (new_roots : list StoreHash) (sys : SystemArch) (root : ShardedArchCacheIndexData)
    : BIO W ShardedArchCacheIndexData :=
  shards ← (if negb (Nat.eqb (length (ix_shards root)) NUM_SHARDS)
            then core (collect_m (λ id, ShardDescriptor_empty (N.of_nat id)) (seq 0 NUM_SHARDS))
            else mret (ix_shards root));
  partitioned ← core (partition_entries_by_shard new_entries);
  st ← bio_fold (compact_shard self sys) (partitioned, shards) shard_ids;
  recalculated ← core (Index_recalculate_merkle_root {|
    ix_version := ix_version root; ix_system := ix_system root; ix_repo := ix_repo root;
    ix_registry := ix_registry root; ix_generated := ix_generated root;
    ix_public_key := if negb (is_empty base_pub_key) && is_empty (ix_public_key root) then base_pub_key
                     else ix_public_key root;
    ix_shards := st.2; ix_merkle_root := ix_merkle_root root;
    ix_gc_roots := dedup (merge_sort StoreHash_le (ix_gc_roots root ++ new_roots));
    ix_last_promoted_run := ix_last_promoted_run root |});
  now ← bio_call utc_now;
  run_id ← bio_call (λ w, (w, env_var (lit "GITHUB_RUN_ID") w));
  mret {| ix_version := SCHEMA_VERSION_V8; ix_system := ix_system recalculated; ix_repo := ix_repo recalculated;
          ix_registry := ix_registry recalculated; ix_generated := to_rfc3339_secs now;
          ix_public_key := ix_public_key recalculated; ix_shards := ix_shards recalculated;
          ix_merkle_root := ix_merkle_root recalculated; ix_gc_roots := ix_gc_roots recalculated;
          ix_last_promoted_run := v ← run_id; ok (parse_u64 v) |}.

(** The future of one system. *)
Definition promote_system (self : OciClient) (repo registry target_tag : list N) (incoming : Incoming)
    (sys : SystemArch) : BIO W OciDescriptor :=
  root ← base_root self repo registry target_tag sys;
  root ← compact_root self (in_public_key incoming) (default ∅ (in_entries incoming !! sys))
           (default [] (in_roots incoming !! sys)) sys root;
  sub_manifest_digest ← oci (push_sharded_root self (target_tag ++ lit "-" ++ SystemArch_as_str sys) root);
  mret (child_descriptor sys sub_manifest_digest (ix_merkle_root root)).

Definition run_promote (fuel : nat) (receipt_paths : list (list N)) (repo registry target_tag : list N)
    : BIO W (option unit) :=
  self ← oci (lift (create_tokio_reqwest_client registry repo));
  receipt_files ← collect_receipt_files fuel receipt_paths;
  match receipt_files with
  | None => mret None
  | Some receipt_files =>
      incoming ← load_receipts receipt_files;
      systems ← target_systems self target_tag incoming;
      manifest_descriptors ← try_join_all (promote_system self repo registry target_tag incoming <$> systems);
      _ ← oci (update_single_writer self target_tag (global_index manifest_descriptors));
      mret (Some tt)
  end.
End promote.

(** ** Facts *)

Section facts.
Context {W : Type} `{HttpHeaders} `{UriLib} `{UnicodeCase} `{!TransportOps W} `{!TokenOps W} `{!ClockOps W}.
Context `{!JoinAll W} `{!UtcNow W} `{!EnvVars W} `{!Fs W}.
Context `{Sha2Ok} `{Chrono} `{HashIter} `{DebugOrigin} `{Build} `{Zstd} `{ZstdEncoder} `{SerdeErrors}.
Context `{!Serde OciImageIndex} `{!Serde OciImageManifest} `{!Serde BuildReceipt}.
Context `{!Serde ShardedArchCacheIndexData} `{!Serde ShardDataPayload}.
Context (self : OciClient).

(** What the descriptor of one shard becomes when [incoming] is merged into it. *)
Definition merged (incoming : gmap StoreHash IndexEntry) (d0 d : ShardDescriptor) : Prop :=
  (incoming = ∅ → d = d0) ∧
  (incoming ≠ ∅ → sd_shard_id d = sd_shard_id d0 ∧ ∃ p0 p, authenticates d0 p0 ∧ published d p ∧
     pl_entries p = incoming ∪ pl_entries p0).

Lemma compact_shard_merges sys partitioned shards id (w w' : W) st :
  compact_shard self sys (partitioned, shards) id w = (w', Ok st) →
  ∀ d0, shards !! N.to_nat id = Some d0 → sd_shard_id d0 = id → descriptor_valid d0 → ∃ d,
    st = (delete id partitioned, <[N.to_nat id := d]> shards) ∧
    merged (default ∅ (partitioned !! id)) d0 d.
Proof.
  intros Hc d0 Hd0 Hid Hv. unfold compact_shard in Hc.
  assert (Hsame : <[N.to_nat id := d0]> shards = shards) by by apply list_insert_id.
  destruct (partitioned !! id) as [incoming|]; simpl.
  2: { apply bio_ret_ok in Hc as [_ ->]. exists d0. by rewrite Hsame. }
  case_bool_decide as He.
  { apply bio_ret_ok in Hc as [_ ->]. exists d0. by rewrite Hsame. }
  inv_bio_step Hc. apply or_panic_ok in Ha. rewrite Hd0 in Ha. injection Ha as <-.
  apply bio_bind_ok in Hc as (w1 & p0 & Hp0 & Hc).
  assert (Hau : authenticates d0 p0).
  { destruct (_ && _) eqn:Hcond.
    - apply oci_ok in Hp0. by eapply get_shard_data_authenticates.
    - apply core_ok in Hp0 as [_ Hp0]. rewrite <- Hid in Hp0. apply (empty_authenticates d0 p0); [done| |done].
      apply andb_false_iff in Hcond as [Hz%N.ltb_ge|Hb]; [lia|]. destruct Hv as (_ & _ & Hv).
      unfold ShardDescriptor_is_empty in Hv. destruct (N.eqb_spec (sd_entry_count d0) 0) as [|_]; [done|].
      apply negb_false_iff, is_empty_true in Hb. rewrite Hb in Hv. by destruct Hv as [Hv _]. }
  inv_bio_step Hc. apply bio_ret_ok in Hc as [_ ->].
  apply push_shard_published in Ha as (Hpub & Hid' & _); [|by apply Hau].
  exists a. split; [done|]. split; [done|]. intros _. split; [done|]. by exists p0, (with_entries p0 (incoming ∪ pl_entries p0)).
Qed.

(** The loop over the shards: each descriptor is the old one with its bucket merged. *)
Lemma compaction_merges sys P shards (w w' : W) st : well_sharded shards →
  bio_fold (compact_shard self sys) (P, shards) shard_ids w = (w', Ok st) →
  ∀ id d0, shards !! N.to_nat id = Some d0 → ∃ d, st.2 !! N.to_nat id = Some d ∧ merged (default ∅ (P !! id)) d0 d.
Proof.
  intros Hs. apply (shard_loop (λ id, merged (default ∅ (P !! id)))); [done|].
  intros P1 shards1 id w1 w1' st1 d0 Hc Hd1 _ Hi Hv <-. by eapply compact_shard_merges.
Qed.

Lemma base_root_sharded repo registry tag sys (w w' : W) root :
  base_root self repo registry tag sys w = (w', Ok root) →
  well_sharded (ix_shards root) ∧ ix_system root = sys ∧
  (ix_repo root = cl_repo self ∧ ix_registry root = re_authority (cl_endpoint self) ∨
   ix_repo root = repo ∧ ix_registry root = registry).
Proof.
  intros Hb. unfold base_root in Hb. inv_bio_step Hb. destruct a as [[data digest]|].
  - apply bio_ret_ok in Hb as [_ ->]. apply get_sharded_root_accepted in Ha as (Hv & ? & ? & ? & _).
    split; [split; apply Hv|]. split; [done|]. by left.
  - inv_bio_step Hb. apply core_ok in Hb as [_ Hb]. unfold Index_new in Hb.
    destruct empty_shards_ok as (shards & Hc & Hi & Hv & _). rewrite Hc in Hb. cbn [mbind outcome_bind] in Hb.
    apply bind_ok in Hb as (mr & _ & Hb). injection Hb as <-. simpl. split; [done|]. split; [done|]. by right.
Qed.

(** What compaction makes of a root. *)
Record promoted (new_entries : gmap StoreHash IndexEntry) (new_roots : list StoreHash)
    (root0 root : ShardedArchCacheIndexData) : Prop := {
  pm_identity : ix_system root = ix_system root0 ∧ ix_repo root = ix_repo root0 ∧ ix_registry root = ix_registry root0;
  pm_shards : ∀ id d0, ix_shards root0 !! N.to_nat id = Some d0 →
    ∃ d, ix_shards root !! N.to_nat id = Some d ∧ merged (bucket id new_entries) d0 d;
  pm_merkle : compute_merkle_root (ix_shards root) = Ok (ix_merkle_root root);
  pm_sorted : StronglySorted StoreHash_le (ix_gc_roots root) ∧ NoDup (ix_gc_roots root);
  pm_roots : ∀ h, h ∈ ix_gc_roots root ↔ h ∈ ix_gc_roots root0 ∨ h ∈ new_roots }.

Lemma compact_root_promotes key entries roots sys root0 (w w' : W) root : well_sharded (ix_shards root0) →
  compact_root self key entries roots sys root0 w = (w', Ok root) → promoted entries roots root0 root.
Proof.
  intros Hs Hc. unfold compact_root in Hc. rewrite (shard_ids_length _ (proj1 Hs)), Nat.eqb_refl in Hc. cbn [negb] in Hc.
  apply bio_bind_ok in Hc as (w1 & shards & Hsh & Hc). apply bio_ret_ok in Hsh as [-> ->].
  inv_bio_step Hc. inv_bio_step Hc. inv_bio_step Hc. inv_bio_step Hc. inv_bio_step Hc.
  apply bio_ret_ok in Hc as [_ ->]. rename a into P, Ha into HP. apply partition_buckets in HP.
  apply bind_ok in Ha1 as (mr & Hmr & [= <-]).
  pose proof (sorted_roots_spec (ix_gc_roots root0 ++ roots)) as (Hsort & Hnd & Hin).
  split; simpl; [done| |done|done|].
  - intros id d0 Hd0. destruct (compaction_merges _ _ _ _ _ _ Hs Ha0 id d0 Hd0) as (d & Hd & Hm).
    exists d. split; [done|]. rewrite (HP id) in Hm. cbv zeta in Hm. unfold bucket. by case_decide as He; [rewrite He|].
  - intros h. by rewrite Hin, elem_of_app.
Qed.

Lemma elem_of_target_systems consts_os consts_arch tag incoming (w w' : W) systems sys :
  target_systems consts_os consts_arch self tag incoming w = (w', Ok systems) →
  is_Some (in_entries incoming !! sys) ∨ is_Some (in_roots incoming !! sys) → sys ∈ systems.
Proof.
  intros Ht Hin. unfold target_systems in Ht. apply bio_bind_ok in Ht as (w1 & artifact & _ & Ht).
  apply bio_bind_ok in Ht as (w2 & set & Hset & Ht). apply bio_ret_ok in Ht as [_ ->].
  rewrite elem_of_merge_sort, elem_of_set_iter. enough (sys ∈ set) as Hs.
  { rewrite bool_decide_eq_false_2; [done|]. intros ->. by apply not_elem_of_empty in Hs. }
  assert (Hd : sys ∈ dom (in_entries incoming) ∪ dom (in_roots incoming)).
  { rewrite elem_of_union, !elem_of_dom. done. }
  destruct artifact as [[artifact|]|e|]; [|by apply bio_ret_ok in Hset as [_ ->]..|done].
  apply bio_ret_ok in Hset as [_ ->]. unfold artifact_systems. destruct (fa_manifest artifact) as [index|m].
  - revert Hd. generalize (dom (in_entries incoming) ∪ dom (in_roots incoming)).
    induction (oi_manifests index) as [|d l IH]; [done|]. intros acc Hacc. simpl. apply IH.
    destruct (od_platform d); [|done]. case_match; [|done]. by apply elem_of_union_r.
  - case_match; [|done]. by apply elem_of_union_r.
Qed.

(** What is published for one system. *)
Definition system_promoted (repo registry tag : list N) (incoming : Incoming) (sys : SystemArch) (d : OciDescriptor)
    : Prop :=
  ∃ w w' root0 root digest, base_root self repo registry tag sys w = (w', Ok root0) ∧
    promoted (default ∅ (in_entries incoming !! sys)) (default [] (in_roots incoming !! sys)) root0 root ∧
    root_published root digest ∧ ix_system root = sys ∧ d = child_descriptor sys digest (ix_merkle_root root).

Lemma promote_system_ok repo registry tag incoming sys (w w' : W) d :
  promote_system self repo registry tag incoming sys w = (w', Ok d) → system_promoted repo registry tag incoming sys d.
Proof.
  intros Hp. unfold promote_system in Hp. inv_bio_step Hp. inv_bio_step Hp. inv_bio_step Hp.
  apply bio_ret_ok in Hp as [_ ->]. pose proof (base_root_sharded _ _ _ _ _ _ _ Ha) as (Hs & Hsys & _).
  apply (compact_root_promotes _ _ _ _ _ _ _ _ Hs) in Ha0. apply push_sharded_root_published in Ha1.
  exists w, w0, a, a0, a1. split_and!; [done..| |done]. by destruct Ha0 as [(-> & _) _ _ _ _].
Qed.

(** A merged shard holds what came in. *)
Lemma promoted_entry entries roots root0 root h e : well_sharded (ix_shards root0) →
  promoted entries roots root0 root → valid_store_hash (StoreHash_as_str h) → entries !! h = Some e →
  ∃ id d p, calculate_shard_id h = Some id ∧ ix_shards root !! N.to_nat id = Some d ∧ published d p ∧
    pl_entries p !! h = Some e.
Proof.
  intros [Hi Hv] Hp (id & Hid & Hlt & _)%calculate_shard_id_valid He.
  destruct (lookup_lt_is_Some_2 (ix_shards root0) (N.to_nat id)) as [d0 Hd0].
  { rewrite (shard_ids_length _ Hi). unfold NUM_SHARDS. lia. }
  destruct (pm_shards _ _ _ _ Hp id d0 Hd0) as (d & Hd & _ & Hm).
  assert (Hb : bucket id entries !! h = Some e) by (by apply map_lookup_filter_Some).
  destruct Hm as (_ & p0 & p & _ & Hpub & Hpe); [intros Hem; by rewrite Hem, lookup_empty in Hb|].
  exists id, d, p. split_and!; try done. rewrite Hpe. by apply lookup_union_Some_l.
Qed.

(** The entry can be reached from one of the children of the image index. *)
Definition published_in (children : list OciDescriptor) (sys : SystemArch) (h : StoreHash) (e : IndexEntry) : Prop :=
  ∃ child root id d p, child ∈ children ∧ root_published root (od_digest child) ∧ ix_system root = sys ∧
    calculate_shard_id h = Some id ∧ ix_shards root !! N.to_nat id = Some d ∧ published d p ∧ pl_entries p !! h = Some e.

Lemma system_promoted_entry repo registry tag incoming systems children sys entries h e :
  Forall2 (system_promoted repo registry tag incoming) systems children → sys ∈ systems →
  in_entries incoming !! sys = Some entries → entries !! h = Some e → valid_store_hash (StoreHash_as_str h) →
  published_in children sys h e.
Proof.
  intros Hall (i & Hi)%list_elem_of_lookup He Hh Hv. destruct (Forall2_lookup_l _ _ _ _ _ Hall Hi) as (child & Hc & Hp).
  destruct Hp as (w & w' & root0 & root & digest & Hb & Hpr & Hpub & Hsys & ->). rewrite He in Hpr. simpl in Hpr.
  apply base_root_sharded in Hb as [Hs _].
  destruct (promoted_entry _ _ _ _ _ _ Hs Hpr Hv Hh) as (id & d & p & Hid & Hd & Hpd & Hpe).
  eexists _, root, id, d, p. split; [by eapply list_elem_of_lookup_2|]. by split_and!.
Qed.
End facts.

(** ** Properties *)


(** ** Divergences *)

(** The children of a promoted index declare the size 0, so reading one through the index
    can only give an empty manifest: the sub-manifests are reachable by their own tag only. *)
Theorem promoted_child_unreadable {W : Type} `{HttpHeaders} `{UriLib} `{!TransportOps W} `{!TokenOps W} `{Sha2Ok}
    `{Build} `{SerdeErrors} (self : OciClient) sys digest merkle_root (w w' : W) body d :
  get_with_digest_and_size self (od_digest (child_descriptor sys digest merkle_root))
    (od_size (child_descriptor sys digest merkle_root)) w = (w', Ok (Some (body, d))) → body = [].
Proof.
  unfold get_with_digest_and_size. intros (_ & _ & Hs)%get_with_expected_size_authentic. destruct (Hs 0 eq_refl) as [Hl _].
  destruct body as [|c body]; [done|]. exfalso. unfold usize_len in Hl. rewrite utf8_cons, length_app in Hl.
  assert (length (utf8_char c) ≠ 0)%nat as Hc; [|lia]. unfold utf8_char. by repeat case_match.
Qed.

(** The first promotion writes the repository and the registry as given into the root,
    while the reader of the same client compares them with their canonical forms: for a
    repository with a capital letter no reader accepts the promoted root. *)
Theorem first_promotion_unreadable `{Sha2Ok} `{Chrono} `{HashIter} (root : ShardedArchCacheIndexData) sys :
  ix_repo root = lit "Owner/Cache" → ∃ self,
    @create_tokio_reqwest_client sample_uri ascii_case sample_build (lit "ghcr.io") (lit "Owner/Cache") = Ok self ∧
    ¬ root_accepted self root sys.
Proof.
  intros Hr. eexists. split; [by vm_compute|]. intros (_ & _ & Hc & _). rewrite Hr in Hc. by vm_compute in Hc.
Qed.

(** ** Witness: one receipt promoted to an empty registry *)

Section samples.
#[local] Existing Instance flat_sha2.
#[local] Existing Instance Types.sample_chrono.
#[local] Existing Instance map_order.
#[local] Existing Instance sample_http.
#[local] Existing Instance sample_uri.
#[local] Existing Instance ascii_case.
#[local] Existing Instance sample_build.
#[local] Existing Instance sample_debug.
#[local] Existing Instance sample_errors.
#[local] Existing Instance sample_zstd.
#[local] Existing Instance sample_encoder.
#[local] Existing Instance sample_index_serde.
#[local] Existing Instance sample_manifest_serde.
#[local] Existing Instance sample_root_serde.
#[local] Instance pushed_payload_serde : Serde ShardDataPayload := {|
  to_json := λ _, Ok [115]; from_json_str := λ _, Err []; from_json_slice := λ _, Err [] |}.
#[local] Existing Instance no_tokens.

#[local] Existing Instance in_turn.
#[local] Instance sample_utc : UtcNow unit := {| utc_now := λ w, (w, 29%Z) |}.
#[local] Instance sample_clock : ClockOps unit := {| clock_now := λ w, (w, lit "2024-01-01T00:00:00Z") |}.
#[local] Instance sample_env : EnvVars unit := {| env_var := λ _ _, Some (lit "42") |}.
#[local] Instance sample_fs : Fs unit := {|
  fs_is_dir := λ p w, (w, bool_decide (p = lit "receipts")); fs_is_file := λ _ w, (w, false);
  fs_read_dir := λ _ w, (w, Some [(lit "receipts/a.json", Some FtFile); (lit "receipts/b.txt", Some FtFile)]);
  fs_read_to_string := λ _ w, (w, Ok [114]) |}.
#[local] Instance sample_receipt_serde : Serde BuildReceipt := {|
  to_json := λ _, Ok [114]; from_json_str := λ _, Ok sample_receipt; from_json_slice := λ _, Ok sample_receipt |}.
#[local] Instance empty_registry : @TransportOps unit sample_http :=
  let accepted {A} (w : unit) : unit * outcome TransportError (StatusCode * list A) := (w, Ok (201, [])) in
  @Build_TransportOps unit sample_http (λ _ _ w, (w, Ok (404, []))) (λ _ _ _ w, (w, Ok (404, [], [])))
    (λ _ _ _ w, (w, Err (TransportIo []))) (λ _ _, accepted) (λ _ _ _, accepted) (λ _ _ _, accepted)
    (λ _ _ _ _ w, (w, Err (TransportIo []))) (λ _ _ _, accepted) (λ _ _, accepted) (λ _ w, w).

Definition sample_promote : unit * outcome BuilderError (option unit) :=
  run_promote (lit "linux") (lit "x86_64") 3 [lit "receipts"] (lit "owner/cache")
    (lit "us-docker.pkg.dev") (lit "cache-index") tt.

Lemma sample_receipt_read : Receipt_deserialize sample_receipt = Ok sample_receipt.
Proof.
  unfold Receipt_deserialize. by replace (Receipt_validate_structure sample_receipt) with (@Ok CoreError unit ()) by (by vm_compute).
Qed.

End samples.
