(* ===== verification/ReadOnly.v ===== *)
(** * ReadOnly: what the reading operations of the client leave alone

    A relation between worlds that the GET and HEAD requests and the token requests
    keep is kept by every operation of the client that only reads: fetching manifests,
    blobs, roots and shards, listing tags and package versions, and the discovery of a
    package.  The same for the tasks of the builder, step by step. *)

From S2P Require Import Prelude Machine Str Text Error Types Sharding Index OciError Transport Endpoint Auth Request Driver Upload Manifest ManifestClient IndexClient Ghcr Discovery Deletion Builder.

Local Open Scope N_scope.

(** What a relation between the world before and after has to be kept by. *)
Class ReadsKeep {W : Type} `{HttpHeaders} `{!TransportOps W} `{!TokenOps W} (R : W → W → Prop) : Prop := {
  #[global] rk_preorder :: PreOrder R;
  rk_head : ∀ url h w, R w (tr_head_with_headers url h w).1;
  rk_get : ∀ url h limit w, R w (tr_get url h limit w).1;
  rk_cached : ∀ w, R w (tm_cached_token w).1;
  rk_refresh : ∀ c w, R w (tm_refresh_token c w).1 }.

Lemma preserves_fold {W A S} (R : W → W → Prop) `{!PreOrder R} (f : S → A → IO W S) l s :
  (∀ s a, preserves R (f s a)) → preserves R (io_fold f s l).
Proof.
  intros Hf. revert s. induction l as [|a l IH]; intros s; simpl; [apply preserves_ret, _|].
  apply preserves_bind; [done|apply Hf|]. intros s'. apply IH.
Qed.

Section reads.
Context {W : Type} `{HttpHeaders} `{UriLib} `{!TransportOps W} `{!TokenOps W} `{!DeleteOps W} `{!ClockOps W}.
Context (R : W → W → Prop) `{!ReadsKeep R}.
Context `{Sha2} `{Chrono} `{HashIter} `{Build} `{Zstd} `{ZstdEncoder} `{SerdeErrors} `{OciFormat} `{JsonValue}.
Context `{!Serde OciImageIndex} `{!Serde OciImageManifest}.
Context `{!Serde (option (list (list N)))} `{!Serde (list GitHubPackageVersion)}.
Context `{!Serde ShardedArchCacheIndexData} `{!Serde ShardDataPayload}.
Context (self : OciClient) (auth_token : list N).

Lemma keep_transport {A} (m : W → W * outcome TransportError A) :
  (∀ w, R w (m w).1) → preserves R (io_transport m).
Proof. intros Hm w. specialize (Hm w). unfold io_transport. by destruct (m w). Qed.
Lemma keep_retry {A} op (st : A → N) hd send h carry :
  (∀ h, preserves R (send h)) → preserves R (auth_retry op st hd send h carry).
Proof. apply (preserves_auth_retry R); [apply rk_cached|]. intros c w. apply rk_refresh. Qed.
Lemma keep_headers : preserves R get_auth_headers.
Proof. apply (preserves_auth_headers R), rk_cached. Qed.

Ltac keep_step :=
  first
    [ apply keep_retry | apply (preserves_ret R) | apply (preserves_lift R) | apply keep_headers
    | apply (preserves_bind R) | apply (preserves_catch R) | apply (preserves_map_err R)
    | apply keep_transport | apply (preserves_fold R) | apply rk_head | apply rk_get
    | progress intros | case_match ].
Ltac keep := repeat keep_step.

Lemma keep_get t size : preserves R (get_with_expected_size self t size).
Proof. unfold get_with_expected_size, request_get_with_auth_retry. keep. Qed.
Lemma keep_get_blob d size : preserves R (blob_get_verified self d size).
Proof. unfold blob_get_verified, request_get_with_auth_retry. keep. Qed.
Lemma keep_blob_stream d : (∀ url h limit w, R w (tr_stream url h limit w).1) → preserves R (blob_stream self d).
Proof. intros Hs. unfold blob_stream, request_stream_with_auth_retry. repeat first [apply Hs | keep_step]. Qed.
Lemma keep_get_descriptor d : preserves R (blob_get_descriptor self d).
Proof. unfold blob_get_descriptor. apply (preserves_bind R); [keep|]. intros. apply keep_get_blob. Qed.
Lemma keep_fetch_artifact t : preserves R (fetch_artifact self t).
Proof. unfold fetch_artifact, get_with_digest. apply (preserves_bind R); [apply keep_get|]. keep. Qed.
Lemma keep_decode_root m system target : preserves R (decode_root_manifest self m system target).
Proof.
  unfold decode_root_manifest. repeat first [apply keep_get_descriptor | keep_step].
Qed.
Lemma keep_get_sharded_root t system : preserves R (get_sharded_root self t system).
Proof.
  unfold get_sharded_root, get_image_manifest, get_with_digest, get_with_digest_and_size.
  repeat first [apply keep_get | apply keep_fetch_artifact | apply keep_decode_root | keep_step].
Qed.
Lemma keep_get_shard_data d system : preserves R (get_shard_data self d system).
Proof. unfold get_shard_data. repeat first [apply keep_get_descriptor | keep_step]. Qed.

Lemma keep_manifest_head t : preserves R (manifest_head self t).
Proof. unfold manifest_head, request_head_with_auth_retry. keep. Qed.

(** *** Discovery *)

Lemma keep_list_tags : preserves R (list_tags self).
Proof.
  unfold list_tags. generalize {| ts_all_tags := []; ts_last_tag := None; ts_pages_fetched := 0 |}.
  induction list_tags_fuel as [|fuel IH]; intros st; cbn [list_tags_loop]; [keep|].
  unfold fetch_tag_page, request_get_with_auth_retry. repeat first [apply IH | keep_step].
Qed.

Definition on_snd (s s' : N * W) : Prop := R s.2 s'.2.
#[local] Instance on_snd_preorder : PreOrder on_snd.
Proof. split; [intros s; unfold on_snd; reflexivity|intros s1 s2 s3; unfold on_snd; apply transitivity]. Qed.
Lemma keep_gh_call {A} (m : W → W * outcome TransportError A) : (∀ w, R w (m w).1) → preserves on_snd (gh_call m).
Proof.
  intros Hm [t w]. specialize (Hm w). unfold gh_call, io_transport, on_snd. simpl. by destruct (m w).
Qed.
Lemma keep_list_versions client fuel : preserves R (run_ghcr (list_package_versions client fuel)).
Proof.
  assert (Hl : preserves on_snd (list_package_versions client fuel)).
  { unfold list_package_versions. apply (preserves_bind on_snd); [by intros s; unfold on_snd|]. intros t.
    generalize 1%Z, (@nil GitHubPackageVersion). induction fuel as [|fuel IH]; intros page all; cbn [versions_loop].
    { apply (preserves_ret on_snd). }
    apply (preserves_bind on_snd).
    - unfold versions_page. assert (Hset : ∀ x, preserves on_snd (set_owner_type x)) by by intros x s; unfold on_snd; simpl.
      repeat first [ apply (preserves_ret on_snd) | apply (preserves_lift on_snd) | apply Hset
        | apply keep_gh_call; intros; apply rk_get | apply (preserves_bind on_snd) | progress intros | case_match ].
    - intros [[vs p]|vs]; [apply IH|apply (preserves_ret on_snd)]. }
  intros w. specialize (Hl (0, w)). unfold run_ghcr. destruct (list_package_versions client fuel (0, w)) as [[t w'] o]. exact Hl.
Qed.

Lemma keep_list_tags_for_deletion fuel : preserves R (list_tags_for_deletion self auth_token fuel).
Proof.
  unfold list_tags_for_deletion. repeat first [apply keep_list_tags | apply keep_list_versions | keep_step].
Qed.

Lemma keep_visit_manifest digest body source st : preserves R (visit_manifest self digest body source st).
Proof.
  unfold visit_manifest, visit_layer, visit_cache_layer, visit_shard, queue_child, in_stage, core_stage, get_with_digest_and_size.
  repeat first [apply keep_get_descriptor | apply keep_get_shard_data | apply keep_get | keep_step].
Qed.

Lemma keep_discover fuel : preserves R (discover_tag_reachable_graph self auth_token fuel).
Proof.
  assert (Hloop : ∀ n st, preserves R (discovery_loop self n st)).
  { intros n. induction n as [|n IH]; intros st; cbn [discovery_loop]; [keep|].
    repeat first [apply IH | apply keep_visit_manifest | keep_step]. }
  unfold discover_tag_reachable_graph, queue_tag, in_stage, get_with_digest.
  repeat first [apply keep_list_tags_for_deletion | apply keep_get | apply Hloop | keep_step].
Qed.
Lemma keep_preview fuel : preserves R (preview_package self auth_token fuel).
Proof. unfold preview_package. apply (preserves_bind R); [apply keep_discover|]. keep. Qed.
End reads.

(** ** What a task of the builder keeps *)

Section keeps.
Context {W : Type} (R : W → W → Prop) `{!PreOrder R}.

Definition bio_keeps {A} (m : BIO W A) : Prop := ∀ w, R w (m w).1.
Lemma bio_keeps_ret {A} (a : A) : bio_keeps (mret a).
Proof. intros w. simpl. reflexivity. Qed.
Lemma bio_keeps_fail {A} (o : outcome BuilderError A) : bio_keeps (fail o).
Proof. intros w. simpl. reflexivity. Qed.
Lemma bio_keeps_core {A} (o : outcome CoreError A) : bio_keeps (core o).
Proof. intros w. simpl. reflexivity. Qed.
Lemma bio_keeps_bind {A B} (m : BIO W A) (k : A → BIO W B) :
  bio_keeps m → (∀ a, bio_keeps (k a)) → bio_keeps (m ≫= k).
Proof.
  intros Hm Hk w. specialize (Hm w). unfold mbind, bio_bind. destruct (m w) as [w1 [a|e|]]; [|done..].
  etrans; [exact Hm|apply Hk].
Qed.
Lemma bio_keeps_oci {A} (m : IO W A) : preserves R m → bio_keeps (oci m).
Proof. intros Hm w. specialize (Hm w). unfold oci. by destruct (m w). Qed.
Lemma bio_keeps_catch {A} (m : IO W A) : preserves R m → bio_keeps (bio_catch m).
Proof. intros Hm w. specialize (Hm w). unfold bio_catch. by destruct (m w). Qed.
Lemma bio_keeps_call {A} (m : W → W * A) : (∀ w, R w (m w).1) → bio_keeps (bio_call m).
Proof. intros Hm w. specialize (Hm w). unfold bio_call. by destruct (m w). Qed.
Lemma bio_keeps_fold {A S} (f : S → A → BIO W S) s l : (∀ s a, bio_keeps (f s a)) → bio_keeps (bio_fold f s l).
Proof.
  intros Hf. revert s. induction l as [|a l IH]; intros s; simpl; [apply bio_keeps_ret|]. by apply bio_keeps_bind.
Qed.
Lemma bio_keeps_join `{!JoinAll W} {A B} (f : A → BIO W B) l :
  (∀ a, bio_keeps (f a)) → bio_keeps (try_join_all (f <$> l)).
Proof.
  intros Hf w0. apply (try_join_all_only _ R); [done|]. intros task w (a & -> & _)%list_elem_of_fmap. apply Hf.
Qed.
End keeps.

Ltac bio_keep_step R :=
  first
    [ match goal with H : _ || true = false |- _ => by rewrite orb_true_r in H end
    | apply (bio_keeps_ret R) | apply (bio_keeps_fail R) | apply (bio_keeps_core R) | apply (bio_keeps_oci R)
    | apply (bio_keeps_catch R) | apply (bio_keeps_call R) | apply (bio_keeps_join R) | apply (bio_keeps_fold R)
    | apply (bio_keeps_bind R) | apply (preserves_lift R) | apply keep_get_sharded_root | apply keep_get_shard_data
    | apply keep_fetch_artifact | apply keep_preview | progress intros | case_match ].
Ltac bio_keep R := repeat bio_keep_step R.
