(* ===== verification/NixFilter.v ===== *)
(** * NixFilter: which store paths a build has to upload
    (crates/nixcache-builder/src/nix/filter.rs)

    The metadata of a store path and the classification of the paths of a closure:
    built here, substituted, cached already or not an artifact. *)

From S2P Require Import Prelude Machine Str Text Error Types Lookup.

Local Open Scope N_scope.

(** ** Data *)

Record NixPathInfoItem := {
  pi_path : list N;
  pi_nar_hash : list N;
  pi_nar_size : N;
  pi_references : list (list N);
  pi_deriver : option (list N);
  pi_signatures : list (list N);
  pi_ca : option (list N);
  pi_registration_time : option N }.
#[export] Instance NixPathInfoItem_eq_dec : EqDecision NixPathInfoItem.
Proof. solve_decision. Defined.
Definition NixPathInfoItem_default : NixPathInfoItem := {|
  pi_path := []; pi_nar_hash := []; pi_nar_size := 0; pi_references := []; pi_deriver := None;
  pi_signatures := []; pi_ca := None; pi_registration_time := None |}.
Definition with_path (self : NixPathInfoItem) (path : list N) : NixPathInfoItem := {|
  pi_path := path; pi_nar_hash := pi_nar_hash self; pi_nar_size := pi_nar_size self;
  pi_references := pi_references self; pi_deriver := pi_deriver self; pi_signatures := pi_signatures self;
  pi_ca := pi_ca self; pi_registration_time := pi_registration_time self |}.
Definition with_signatures (self : NixPathInfoItem) (signatures : list (list N)) : NixPathInfoItem := {|
  pi_path := pi_path self; pi_nar_hash := pi_nar_hash self; pi_nar_size := pi_nar_size self;
  pi_references := pi_references self; pi_deriver := pi_deriver self; pi_signatures := signatures;
  pi_ca := pi_ca self; pi_registration_time := pi_registration_time self |}.

(** A file name that is no prefix of a hash is [None]; a slice inside a character panics. *)
Definition PathInfo_store_hash {E} (self : NixPathInfoItem) : outcome E (option StoreHash) :=
  match file_name (pi_path self) with
  | None => Ok None
  | Some name =>
      if (32 <=? str_len name)%nat
      then s ← or_panic (slice_to 32 name); Ok (ok (StoreHash_parse s))
      else Ok None
  end.

Definition normalized_references (self : NixPathInfoItem) : list (list N) :=
  (λ r, default r (file_name r)) <$> pi_references self.

(** [sig.split(':').next().unwrap_or(sig)]. *)
Definition sig_prefix (sig : list N) : list N := default sig (head (split 58 sig)).

Definition has_upstream_signature (self : NixPathInfoItem) (trusted_upstream_prefixes : list (list N)) : bool :=
  if bool_decide (pi_signatures self = []) || bool_decide (trusted_upstream_prefixes = []) then false
  else existsb (λ sig, existsb (λ prefix, bool_decide (prefix = sig_prefix sig)) trusted_upstream_prefixes)
         (pi_signatures self).

Definition has_external_signature (self : NixPathInfoItem) (own_public_key : option (list N)) : bool :=
  if bool_decide (pi_signatures self = []) then false
  else
    match own_public_key with
    | Some own_key =>
        let own_key_prefix := sig_prefix own_key in
        existsb (λ sig, negb (bool_decide (sig_prefix sig = own_key_prefix))) (pi_signatures self)
    | None => negb (bool_decide (pi_signatures self = []))
    end.

Inductive ArtifactClassification :=
  | LocallyBuilt
  | Substituted (external_signatures : list (list N))
  | AlreadyCached (hash : StoreHash)
  | Ignored (reason : list N).
#[export] Instance ArtifactClassification_eq_dec : EqDecision ArtifactClassification.
Proof. solve_decision. Defined.

Record FilterDecisionReport := {
  fr_to_export : list NixPathInfoItem;
  fr_substituted_count : N;
  fr_already_cached_count : N;
  fr_ignored_count : N;
  fr_decisions : gmap (list N) ArtifactClassification }.
Definition FilterDecisionReport_default : FilterDecisionReport := {|
  fr_to_export := []; fr_substituted_count := 0; fr_already_cached_count := 0; fr_ignored_count := 0;
  fr_decisions := ∅ |}.

Record NixArtifactFilterContext := {
  fc_own_public_key : option (list N);
  fc_remote_cached_hashes : gset StoreHash;
  fc_trusted_upstream_prefixes : list (list N) }.

(** ** The classification *)

Section classify.
Context `{Build} {E : Type}.

Definition report_ignored (report : FilterDecisionReport) (path reason : list N) : outcome E FilterDecisionReport :=
  count ← arith_add usize_bound (fr_ignored_count report) 1;
  Ok {| fr_to_export := fr_to_export report; fr_substituted_count := fr_substituted_count report;
        fr_already_cached_count := fr_already_cached_count report; fr_ignored_count := count;
        fr_decisions := <[path := Ignored reason]> (fr_decisions report) |}.

(** The body of the loop. *)
Definition classify_item (ctx : NixArtifactFilterContext) (report : FilterDecisionReport) (item : NixPathInfoItem)
    : outcome E FilterDecisionReport :=
  let path_str := pi_path item in
  if ends_with (lit ".drv") path_str || ends_with (lit ".lock") path_str || ends_with (lit ".check") path_str
  then report_ignored report path_str (lit "drv/lock/check file")
  else
    hash ← PathInfo_store_hash item;
    match hash with
    | None => report_ignored report path_str (lit "invalid store hash format")
    | Some sh =>
        if bool_decide (sh ∈ fc_remote_cached_hashes ctx) then
          count ← arith_add usize_bound (fr_already_cached_count report) 1;
          Ok {| fr_to_export := fr_to_export report; fr_substituted_count := fr_substituted_count report;
                fr_already_cached_count := count; fr_ignored_count := fr_ignored_count report;
                fr_decisions := <[path_str := AlreadyCached sh]> (fr_decisions report) |}
        else if has_upstream_signature item (fc_trusted_upstream_prefixes ctx)
                || has_external_signature item (fc_own_public_key ctx) then
          count ← arith_add usize_bound (fr_substituted_count report) 1;
          Ok {| fr_to_export := fr_to_export report; fr_substituted_count := count;
                fr_already_cached_count := fr_already_cached_count report; fr_ignored_count := fr_ignored_count report;
                fr_decisions := <[path_str := Substituted (pi_signatures item)]> (fr_decisions report) |}
        else
          Ok {| fr_to_export := fr_to_export report ++ [item]; fr_substituted_count := fr_substituted_count report;
                fr_already_cached_count := fr_already_cached_count report; fr_ignored_count := fr_ignored_count report;
                fr_decisions := <[path_str := LocallyBuilt]> (fr_decisions report) |}
    end.

Definition classify_and_filter (items : list NixPathInfoItem) (ctx : NixArtifactFilterContext)
    : outcome E FilterDecisionReport :=
  fold_m (classify_item ctx) FilterDecisionReport_default items.
End classify.

(** ** What the classification means *)

(** The path of a derivation, a lock or a check output. *)
Definition temporary (path : list N) : Prop :=
  ends_with (lit ".drv") path = true ∨ ends_with (lit ".lock") path = true ∨ ends_with (lit ".check") path = true.

(** The item carries a signature of a trusted upstream, or one that is not our own. *)
Definition foreign_signature (ctx : NixArtifactFilterContext) (item : NixPathInfoItem) : Prop :=
  ∃ sig, sig ∈ pi_signatures item ∧
    (sig_prefix sig ∈ fc_trusted_upstream_prefixes ctx ∨
     ∀ own, fc_own_public_key ctx = Some own → sig_prefix sig ≠ sig_prefix own).

Inductive verdict (ctx : NixArtifactFilterContext) (item : NixPathInfoItem) : ArtifactClassification → Prop :=
  | verdict_temporary : temporary (pi_path item) → verdict ctx item (Ignored (lit "drv/lock/check file"))
  | verdict_nameless : ¬ temporary (pi_path item) → @PathInfo_store_hash Empty_set item = Ok None →
      verdict ctx item (Ignored (lit "invalid store hash format"))
  | verdict_cached sh : ¬ temporary (pi_path item) → @PathInfo_store_hash Empty_set item = Ok (Some sh) →
      sh ∈ fc_remote_cached_hashes ctx → verdict ctx item (AlreadyCached sh)
  | verdict_substituted sh : ¬ temporary (pi_path item) → @PathInfo_store_hash Empty_set item = Ok (Some sh) →
      sh ∉ fc_remote_cached_hashes ctx → foreign_signature ctx item →
      verdict ctx item (Substituted (pi_signatures item))
  | verdict_local sh : ¬ temporary (pi_path item) → @PathInfo_store_hash Empty_set item = Ok (Some sh) →
      sh ∉ fc_remote_cached_hashes ctx → ¬ foreign_signature ctx item → verdict ctx item LocallyBuilt.

Definition is_local (v : ArtifactClassification) : bool := match v with LocallyBuilt => true | _ => false end.
Definition is_substituted (v : ArtifactClassification) : bool := match v with Substituted _ => true | _ => false end.
Definition is_cached (v : ArtifactClassification) : bool := match v with AlreadyCached _ => true | _ => false end.
Definition is_ignored (v : ArtifactClassification) : bool := match v with Ignored _ => true | _ => false end.

Definition count_if {A} (f : A → bool) (l : list A) : N := usize_len (filter (λ a, f a = true) l).

(** The report on items with their verdicts. *)
Record reports (l : list (NixPathInfoItem * ArtifactClassification)) (r : FilterDecisionReport) : Prop := {
  rp_export : fr_to_export r = (filter (λ x, is_local x.2 = true) l).*1;
  rp_substituted : fr_substituted_count r = count_if (λ x, is_substituted x.2) l;
  rp_cached : fr_already_cached_count r = count_if (λ x, is_cached x.2) l;
  rp_ignored : fr_ignored_count r = count_if (λ x, is_ignored x.2) l;
  rp_decisions : fr_decisions r = foldl (λ m x, <[pi_path x.1 := x.2]> m) ∅ l }.

(** ** Facts *)

Lemma temporary_spec path :
  ends_with (lit ".drv") path || ends_with (lit ".lock") path || ends_with (lit ".check") path = true ↔ temporary path.
Proof. unfold temporary. rewrite !orb_true_iff. tauto. Qed.

Lemma foreign_signature_spec ctx item :
  has_upstream_signature item (fc_trusted_upstream_prefixes ctx) || has_external_signature item (fc_own_public_key ctx)
    = true ↔ foreign_signature ctx item.
Proof.
  rewrite orb_true_iff. unfold has_upstream_signature, has_external_signature, foreign_signature.
  destruct (pi_signatures item) as [|s l] eqn:Hs.
  { simpl. split; [by intros [?|?]|]. intros (sig & []%not_elem_of_nil & _). }
  rewrite <- Hs. rewrite (bool_decide_false (pi_signatures item = [])) by (by rewrite Hs). cbn [orb].
  assert (Hup : (if bool_decide (fc_trusted_upstream_prefixes ctx = []) then false
      else existsb (λ sig, existsb (λ prefix, bool_decide (prefix = sig_prefix sig)) (fc_trusted_upstream_prefixes ctx))
             (pi_signatures item)) = true ↔
      ∃ sig, sig ∈ pi_signatures item ∧ sig_prefix sig ∈ fc_trusted_upstream_prefixes ctx).
  { case_bool_decide as Ht.
    - rewrite Ht. split; [done|]. intros (? & _ & []%not_elem_of_nil).
    - rewrite existsb_exists. setoid_rewrite existsb_exists. setoid_rewrite bool_decide_eq_true.
      setoid_rewrite <- list_elem_of_In. naive_solver. }
  rewrite Hup. destruct (fc_own_public_key ctx) as [own|].
  - rewrite existsb_exists. setoid_rewrite negb_true_iff. setoid_rewrite bool_decide_eq_false.
    setoid_rewrite <- list_elem_of_In. naive_solver.
  - split; [intros _; exists s|by right]. split; [rewrite Hs; left|]. by right.
Qed.

Lemma store_hash_result {E F} item : (∃ o, @PathInfo_store_hash E item = Ok o ∧ @PathInfo_store_hash F item = Ok o) ∨
  @PathInfo_store_hash E item = Panic ∧ @PathInfo_store_hash F item = Panic.
Proof.
  unfold PathInfo_store_hash. destruct (file_name _) as [name|]; [|eauto]. destruct (_ <=? _)%nat; [|eauto].
  destruct (slice_to 32 name); simpl; eauto.
Qed.

Lemma verdict_fun ctx item v v' : verdict ctx item v → verdict ctx item v' → v = v'.
Proof. intros [] []; congruence || tauto. Qed.

(** The last decision on a path stands. *)
Lemma decisions_last (l : list (NixPathInfoItem * ArtifactClassification)) path v :
  foldl (λ m x, <[pi_path x.1 := x.2]> m) (∅ : gmap (list N) ArtifactClassification) l !! path = Some v ↔
  ∃ l1 x l2, l = l1 ++ x :: l2 ∧ pi_path x.1 = path ∧ x.2 = v ∧ Forall (λ y, pi_path y.1 ≠ path) l2.
Proof.
  induction l as [|y l IH] using rev_ind; simpl.
  - rewrite lookup_empty. split; [done|]. by intros ([] & ? & ? & ? & _).
  - rewrite foldl_app. simpl. destruct (decide (pi_path y.1 = path)) as [Hp|Hp].
    + rewrite Hp, lookup_insert_eq. split.
      * intros [= <-]. exists l, y, []. by rewrite Forall_nil.
      * intros (l1 & x & l2 & Heq & Hx & <- & Hall). destruct l2 as [|z l2 _] using rev_ind.
        { apply app_inj_tail in Heq as [_ ->]. done. }
        rewrite app_comm_cons, app_assoc in Heq. apply app_inj_tail in Heq as [_ ->].
        apply Forall_app in Hall as [_ Hall]. by inversion Hall.
    + rewrite lookup_insert_ne, IH by done. split.
      * intros (l1 & x & l2 & -> & Hx & Hv & Hall). exists l1, x, (l2 ++ [y]). rewrite Forall_app, <- app_assoc.
        by rewrite Forall_singleton.
      * intros (l1 & x & l2 & Heq & Hx & Hv & Hall). destruct l2 as [|z l2 _] using rev_ind.
        { apply app_inj_tail in Heq as [_ ->]. done. }
        rewrite app_comm_cons, app_assoc in Heq. apply app_inj_tail in Heq as [-> ->].
        apply Forall_app in Hall as [Hall _]. by exists l1, x, l2.
Qed.

Section facts.
Context `{Build}.

Lemma count_if_snoc {A} (f : A → bool) l a : count_if f (l ++ [a]) = count_if f l + (if f a then 1 else 0).
Proof.
  unfold count_if, usize_len. rewrite filter_app, length_app. destruct (f a) eqn:Hf.
  - rewrite filter_cons_True by done. simpl. lia.
  - rewrite filter_cons_False by (by rewrite Hf). simpl. lia.
Qed.
Lemma count_if_le {A} (f : A → bool) l : count_if f l ≤ usize_len l.
Proof. unfold count_if, usize_len. pose proof (length_filter (λ a, f a = true) l). lia. Qed.

Lemma classify_item_reports {E} ctx l r item : reports l r → usize_len l + 1 < usize_bound →
  match @classify_item _ E ctx r item with
  | Ok r' => ∃ v, verdict ctx item v ∧ reports (l ++ [(item, v)]) r'
  | Err _ => False
  | Panic => ¬ temporary (pi_path item) ∧ @PathInfo_store_hash Empty_set item = Panic
  end.
Proof.
  intros [Hx Hs Hc Hi Hd] Hl.
  assert (Hadd : ∀ f n, n = count_if (A := NixPathInfoItem * ArtifactClassification) f l →
    @arith_add _ E usize_bound n 1 = Ok (n + 1)).
  { intros f n ->. apply arith_ok. pose proof (count_if_le f l). lia. }
  assert (Hstep : ∀ v r', verdict ctx item v →
    fr_to_export r' = fr_to_export r ++ (if is_local v then [item] else []) →
    fr_substituted_count r' = fr_substituted_count r + (if is_substituted v then 1 else 0) →
    fr_already_cached_count r' = fr_already_cached_count r + (if is_cached v then 1 else 0) →
    fr_ignored_count r' = fr_ignored_count r + (if is_ignored v then 1 else 0) →
    fr_decisions r' = <[pi_path item := v]> (fr_decisions r) →
    ∃ v, verdict ctx item v ∧ reports (l ++ [(item, v)]) r').
  { intros v r' Hv H1 H2 H3 H4 H5. exists v. split; [done|]. split.
    - rewrite H1, Hx, filter_app, fmap_app. f_equal. destruct (is_local v) eqn:Hlo.
      + by rewrite filter_cons_True.
      + by rewrite filter_cons_False by (simpl; by rewrite Hlo).
    - by rewrite H2, Hs, count_if_snoc.
    - by rewrite H3, Hc, count_if_snoc.
    - by rewrite H4, Hi, count_if_snoc.
    - by rewrite H5, Hd, foldl_app. }
  unfold classify_item, report_ignored.
  cbv zeta. destruct (ends_with _ _ || ends_with _ _ || ends_with _ _) eqn:Ht.
  { apply temporary_spec in Ht. rewrite (Hadd _ _ Hi). simpl.
    eapply Hstep; [by apply verdict_temporary|simpl; rewrite ?app_nil_r, ?N.add_0_r; done..]. }
  assert (Hnt : ¬ temporary (pi_path item)) by (intros Hq%temporary_spec; congruence).
  destruct (@store_hash_result E Empty_set item) as [([sh|] & -> & He)|[-> He]]; simpl; [| |done].
  - case_bool_decide as Hin.
    { rewrite (Hadd _ _ Hc). simpl.
      eapply Hstep; [by eapply verdict_cached|simpl; rewrite ?app_nil_r, ?N.add_0_r; done..]. }
    destruct (has_upstream_signature _ _ || _) eqn:Hf.
    + apply foreign_signature_spec in Hf. rewrite (Hadd _ _ Hs). simpl.
      eapply Hstep; [by eapply verdict_substituted|simpl; rewrite ?app_nil_r, ?N.add_0_r; done..].
    + eapply Hstep; [eapply verdict_local; try done; intros Hq%foreign_signature_spec; congruence
        |simpl; rewrite ?app_nil_r, ?N.add_0_r; done..].
  - rewrite (Hadd _ _ Hi). simpl.
    eapply Hstep; [by apply verdict_nameless|simpl; rewrite ?app_nil_r, ?N.add_0_r; done..].
Qed.

Lemma classify_fold {E} ctx items l r : reports l r → usize_len l + usize_len items < usize_bound →
  match fold_m (@classify_item _ E ctx) r items with
  | Ok r' => ∃ vs, Forall2 (verdict ctx) items vs ∧ reports (l ++ zip items vs) r'
  | Err _ => False
  | Panic => ∃ item, item ∈ items ∧ ¬ temporary (pi_path item) ∧ @PathInfo_store_hash Empty_set item = Panic
  end.
Proof.
  revert l r. induction items as [|item items IH]; intros l r Hr Hl; cbn [fold_m].
  { exists []. simpl. by rewrite app_nil_r. }
  assert (Hlen : usize_len l + 1 + usize_len items < usize_bound) by (unfold usize_len in *; simpl in *; lia).
  pose proof (@classify_item_reports E ctx l r item Hr ltac:(lia)) as Hi.
  destruct (classify_item ctx r item) as [r1|e|]; simpl; [|done|].
  - destruct Hi as (v & Hv & Hr1). specialize (IH _ _ Hr1). destruct (fold_m _ r1 items) as [r2|e|].
    + destruct IH as (vs & Hvs & Hr2). { unfold usize_len in *. rewrite length_app. simpl. lia. }
      exists (v :: vs). split; [by constructor|]. simpl. by rewrite <- app_assoc in Hr2.
    + apply IH. unfold usize_len in *. rewrite length_app. simpl. lia.
    + destruct IH as (x & Hx & ?). { unfold usize_len in *. rewrite length_app. simpl. lia. }
      exists x. split; [by right|done].
  - exists item. split; [by left|done].
Qed.

Lemma classify_ok {E} ctx items r : usize_len items < usize_bound →
  @classify_and_filter _ E items ctx = Ok r →
  ∃ vs, Forall2 (verdict ctx) items vs ∧ reports (zip items vs) r.
Proof.
  intros Hl Hr. pose proof (@classify_fold E ctx items [] FilterDecisionReport_default) as Hf.
  unfold classify_and_filter in Hr. rewrite Hr in Hf. apply Hf; [by split|done].
Qed.

(** What is exported, item by item. *)
Lemma classified_export ctx items vs r : Forall2 (verdict ctx) items vs → reports (zip items vs) r →
  (∀ item, item ∈ fr_to_export r ↔ item ∈ items ∧ verdict ctx item LocallyBuilt) ∧ sublist (fr_to_export r) items.
Proof.
  intros Hv [Hx _ _ _ _]. rewrite Hx. clear Hx r. induction Hv as [|i v items vs Hi Hv [IH1 IH2]]; simpl.
  { split; [set_solver|constructor]. }
  destruct (is_local v) eqn:Hlo.
  - rewrite filter_cons_True by done. destruct v; try done. split; [|by constructor].
    intros item. simpl. rewrite !elem_of_cons, IH1. naive_solver.
  - rewrite filter_cons_False by (simpl; by rewrite Hlo). split; [|by constructor].
    intros item. rewrite IH1, elem_of_cons. split; [naive_solver|]. intros [[->|?] Hl]; [|done].
    by rewrite (verdict_fun _ _ _ _ Hi Hl) in Hlo.
Qed.

Lemma filter_exact_total {A} (f g h k : A → bool) (l : list A) :
  (∀ a, (if f a then 1 else 0) + (if g a then 1 else 0) + (if h a then 1 else 0) + (if k a then 1 else 0) = 1) →
  count_if f l + count_if g l + count_if h l + count_if k l = usize_len l.
Proof.
  intros Hone. induction l as [|a l IH] using rev_ind; [done|]. rewrite !count_if_snoc. specialize (Hone a).
  unfold usize_len in *. rewrite length_app. simpl. lia.
Qed.
Lemma reports_total l r : reports l r →
  usize_len (fr_to_export r) + fr_substituted_count r + fr_already_cached_count r + fr_ignored_count r = usize_len l.
Proof.
  intros [Hx Hs Hc Hi _].
  rewrite <- (filter_exact_total (λ x, is_local x.2) (λ x, is_substituted x.2) (λ x, is_cached x.2)
    (λ x, is_ignored x.2) l) by by intros [i []].
  rewrite Hx, Hs, Hc, Hi. unfold count_if, usize_len at 1. rewrite length_fmap. done.
Qed.
End facts.

(** A name whose 32nd byte is inside a character makes the filter panic, where the
    extraction of GC roots skips such a path. *)
Theorem path_info_hash_panics `{Build} :
  let item := with_path NixPathInfoItem_default (lit "/nix/store/0000000000000000000000000000000" ++ [233] ++ lit "-x") in
  @classify_and_filter _ Empty_set [item]
    {| fc_own_public_key := None; fc_remote_cached_hashes := ∅; fc_trusted_upstream_prefixes := [] |} = Panic.
Proof. reflexivity. Qed.

(** Without an own key every signature is foreign: a path that this repository signed is
    local to a capture, which knows the key, and substituted to a caller that does not give
    it, as [find_locally_built_paths] does. *)
Theorem own_signature_needs_key `{Build} :
  let item := with_signatures (with_path NixPathInfoItem_default
    (lit "/nix/store/44444444444444444444444444444444-own-signed")) [lit "my-repo-1:XYZ"] in
  let ctx key := {| fc_own_public_key := key; fc_remote_cached_hashes := ∅; fc_trusted_upstream_prefixes := [] |} in
  verdict (ctx (Some (lit "my-repo-1:ABCD"))) item LocallyBuilt ∧ verdict (ctx None) item (Substituted [lit "my-repo-1:XYZ"]).
Proof.
  split.
  - eapply verdict_local; [|reflexivity|set_solver|].
    + intros Ht. apply temporary_spec in Ht. by vm_compute in Ht.
    + intros Hf. apply foreign_signature_spec in Hf. by vm_compute in Hf.
  - eapply verdict_substituted; [|reflexivity|set_solver|].
    + intros Ht. apply temporary_spec in Ht. by vm_compute in Ht.
    + apply foreign_signature_spec. by vm_compute.
Qed.
