(* ===== verification/Nix.v ===== *)
(** * Nix: the driver of the [nix] command and the discovery of outputs
    (crates/nixcache-builder/src/nix/driver.rs, nix/discovery.rs, env_injector.rs)

    A process is run by the interface [Processes]: a command with its arguments and the
    variables it sets, and what it gives back.  The text of a path is its string; a path
    that is built is in the normal form of its components. *)

From S2P Require Import Prelude Machine Str Text Error Types Sharding Index Lookup NixFilter OciError Transport Endpoint Auth Request Driver Upload Manifest ManifestClient IndexClient Ghcr Discovery Deletion Builder Promote ReadOnly.

Local Open Scope N_scope.

(** ** Processes *)

Record Command := { cmd_program : list N; cmd_args : list (list N); cmd_envs : list (list N * list N) }.
(** [ExitStatus]: whether it is success, and its text. *)
Record ExitStatus := { es_success : bool; es_display : list N }.
Record Output := { out_status : ExitStatus; out_stdout : list N; out_stderr : list N }.

(** [Command::output], [status] and [spawn] of tokio; the error is the text of an
    [io::Error].  Of a child: a text written to its standard input (errors ignored), which
    is closed, and what it gives back; what the reads of its standard output give until
    the end or an error; its exit status; killing it. *)
Class Processes (W : Type) := {
  Child : Type;
  process_output : Command → W → W * outcome (list N) Output;
  process_status : Command → W → W * outcome (list N) ExitStatus;
  process_spawn : Command → W → W * outcome (list N) Child;
  child_communicate : Child → list N → W → W * outcome (list N) Output;
  child_reads : Child → W → W * list (outcome (list N) (list N));
  child_wait : Child → W → W * outcome (list N) ExitStatus;
  child_try_wait : Child → W → W * outcome (list N) (option ExitStatus);
  child_kill : Child → W → W }.
(** [fs::canonicalize], its result as text, and [Path::exists]. *)
Class FsPaths (W : Type) := {
  fs_canonicalize : list N → W → W * outcome (list N) (list N);
  fs_exists : list N → W → W * bool }.

Definition nix_command (args : list (list N)) : Command := {| cmd_program := lit "nix"; cmd_args := args; cmd_envs := [] |}.

(** ** Tasks *)

Section tasks.
Context {W : Type}.
(** [?] on an [io::Result]. *)
Definition io {A} (m : W → W * outcome (list N) A) : BIO W A := λ w,
  let '(w, o) := m w in (w, map_err BuilderIo o).
(** [?] on a [serde_json::Result]. *)
Definition json {A} (o : outcome (list N) A) : BIO W A := fail (map_err BuilderJson o).
(** The result of a task as a value. *)
Definition bio_try {A} (m : BIO W A) : BIO W (outcome BuilderError A) := λ w, let '(w, o) := m w in (w, Ok o).
(** [NixExecError::ExitFailure]. *)
Definition exit_failure {A} (command : list N) (status : ExitStatus) (stderr : list N) : BIO W A :=
  fail (Err (BuilderNix (NixExitFailure command (es_display status) stderr))).
End tasks.

(** Tasks that run concurrently, at most so many at a time ([buffer_unordered], a
    [JoinSet]): each runs once, their steps interleave, and their results come with the
    key of the task in the order they end. *)
Class Concurrent (W : Type) := {
  run_unordered : ∀ {K A}, N → list (K * BIO W A) → W → W * list (K * outcome BuilderError A);
  run_unordered_all : ∀ {K A} n (tasks : list (K * BIO W A)) w,
    ∃ rs, (run_unordered n tasks w).2 ≡ₚ rs ∧
      Forall2 (λ task r, r.1 = task.1 ∧ ∃ w1 w2, task.2 w1 = (w2, r.2)) tasks rs;
  run_unordered_only : ∀ {K A} n (tasks : list (K * BIO W A)) (R : W → W → Prop), PreOrder R →
    (∀ task w, task ∈ tasks → R w (task.2 w).1) → ∀ w, R w (run_unordered n tasks w).1 }.

(** ** [String::from_utf8_lossy] *)

(** Whether the second byte may follow the first of a sequence of three or four. *)
Definition second_byte (b0 b1 : N) : bool :=
  if in_range 0xE0 0xEF b0 then
    in_range (if b0 =? 0xE0 then 0xA0 else 0x80) (if b0 =? 0xED then 0x9F else 0xBF) b1
  else if in_range 0xF0 0xF4 b0 then
    in_range (if b0 =? 0xF0 then 0x90 else 0x80) (if b0 =? 0xF4 then 0x8F else 0xBF) b1
  else false.
(** The bytes that one replacement character stands for. *)
Definition invalid_prefix (s : list N) : nat :=
  match s with
  | b0 :: b1 :: s =>
      if second_byte b0 b1
      then match s with b2 :: _ => if in_range 0xF0 0xF4 b0 && utf8_tail b2 then 3 else 2 | [] => 2 end
      else 1
  | _ => 1
  end%nat.
Fixpoint lossy_fuel (fuel : nat) (s : list N) : list N :=
  match s, fuel with
  | [], _ => []
  | _, O => []
  | _, S fuel =>
      match from_utf8_char s with
      | Some (c, s) => c :: lossy_fuel fuel s
      | None => 0xFFFD :: lossy_fuel fuel (drop (invalid_prefix s) s)
      end
  end.
Definition from_utf8_lossy (s : list N) : list N := lossy_fuel (length s) s.

(** ** Path information *)

(** The methods of [serde_json::Value] in use; [item_from_value] is the derived
    [Deserialize] of [NixPathInfoItem]. *)
Class NixJson `{JsonValue} := {
  as_array : Value → option (list Value);
  as_object : Value → option (list (list N * Value));
  as_str : Value → option (list N);
  is_null : Value → bool;
  value_get : Value → list N → option Value;
  item_from_value : Value → outcome (list N) NixPathInfoItem }.

(** [slice::chunks]. *)
Fixpoint chunks_fuel {A} (fuel n : nat) (l : list A) : list (list A) :=
  match l, fuel with
  | [], _ => []
  | _, O => []
  | _, S fuel => take n l :: chunks_fuel fuel n (drop n l)
  end.
Definition chunks {A} (n : nat) (l : list A) : list (list A) := chunks_fuel (length l) n l.

(** [sort_by(|a, b| a.path.cmp(&b.path))], which is stable, and [dedup_by] on the path. *)
Fixpoint insert_by_path (item : NixPathInfoItem) (l : list NixPathInfoItem) : list NixPathInfoItem :=
  match l with
  | [] => [item]
  | i :: l => if bool_decide (str_le (pi_path item) (pi_path i)) then item :: i :: l else i :: insert_by_path item l
  end.
Definition sort_by_path (l : list NixPathInfoItem) : list NixPathInfoItem := foldr insert_by_path [] l.
Fixpoint dedup_from (last : list N) (l : list NixPathInfoItem) : list NixPathInfoItem :=
  match l with
  | [] => []
  | i :: l => if bool_decide (pi_path i = last) then dedup_from last l else i :: dedup_from (pi_path i) l
  end.
Definition dedup_by_path (l : list NixPathInfoItem) : list NixPathInfoItem :=
  match l with [] => [] | i :: l => i :: dedup_from (pi_path i) l end.

Section path_info.
Context `{NixJson}.

(** An entry of the object form; [null] is a path that is not valid. *)
Definition object_item (entry : list N * Value) : outcome BuilderError NixPathInfoItem :=
  let '(path, v) := entry in
  item ← (if is_null v then Ok (with_path NixPathInfoItem_default path)
          else map_err BuilderJson (item_from_value v));
  Ok (if is_empty (pi_path item) then with_path item path else item).

Definition parse_path_info_value_typed (parsed : Value) : outcome BuilderError (list NixPathInfoItem) :=
  match as_array parsed with
  | Some arr => collect_m (λ v, map_err BuilderJson (item_from_value v)) arr
  | None =>
      match as_object parsed with
      | Some obj => collect_m object_item obj
      | None => Err (BuilderNix (NixExecution (lit "Unexpected path-info JSON format")))
      end
  end.
Definition parse_path_info_items_typed (json_str : list N) : outcome BuilderError (list NixPathInfoItem) :=
  parsed ← map_err BuilderJson (value_from_str json_str);
  parse_path_info_value_typed parsed.

Definition extract_outputs_from_json (json_str : list N) (all_paths : list (list N))
    : outcome BuilderError (list (list N)) :=
  val ← map_err BuilderJson (value_from_str json_str);
  Ok (match as_array val with
      | Some arr =>
          all_paths ++ (arr ≫= λ item,
            match value_get item (lit "outputs") ≫= as_object with
            | Some outputs => omap as_str outputs.*2
            | None => []
            end)
      | None => all_paths
      end).
End path_info.

(** ** Build modes and targets *)

Inductive BuildMode := Flake | NonFlake.
#[export] Instance BuildMode_eq_dec : EqDecision BuildMode.
Proof. solve_decision. Defined.
Definition BuildMode_display (self : BuildMode) : list N :=
  match self with Flake => lit "flake" | NonFlake => lit "non-flake" end.
Definition BuildMode_from_str `{UnicodeCase} (s : list N) : outcome (list N) BuildMode :=
  let key := to_lowercase (trim s) in
  if bool_decide (key = lit "flake") then Ok Flake
  else if bool_decide (key = lit "non-flake") || bool_decide (key = lit "nonflake") then Ok NonFlake
  else Err (lit "Unknown build mode: " ++ s).

Record BuildConfig := {
  bc_system : option (list N);
  bc_mode : BuildMode;
  bc_flake_path : list N;
  bc_file : list N;
  bc_attributes : list (list N) }.

Inductive BuildTarget :=
  | FlakeTarget (flake_ref attribute : list N)
  | FileTarget (file : list N) (attribute : option (list N)).
#[export] Instance BuildTarget_eq_dec : EqDecision BuildTarget.
Proof. solve_decision. Defined.
Definition BuildTarget_display (self : BuildTarget) : list N :=
  match self with
  | FlakeTarget flake_ref attribute => flake_ref ++ lit "#" ++ attribute
  | FileTarget file (Some attr) => file ++ lit " -A " ++ attr
  | FileTarget file None => file
  end.

(** ** The environment of a build *)

Definition generate_nix_config (substituters trusted_public_keys : list (list N)) : list N :=
  join [10]
    ((if bool_decide (substituters = []) then []
      else [lit "extra-substituters = " ++ join [32] substituters;
            lit "extra-trusted-substituters = " ++ join [32] substituters])
     ++ (if bool_decide (trusted_public_keys = []) then []
         else [lit "extra-trusted-public-keys = " ++ join [32] trusted_public_keys])).

(** What is appended to the file, if anything. *)
Definition github_env_payload (nix_config : list N) : option (list N) :=
  if is_empty (trim nix_config) then None
  else
    let delimiter := lit "EOF_NIXCACHE_CONFIG" in
    Some (lit "NIX_CONFIG<<" ++ delimiter ++ [10] ++ nix_config ++ [10] ++ delimiter ++ [10]).

(** [existing] is the value of the variable in the environment of the process. *)
Definition apply_to_command (existing : option (list N)) (nix_config : list N) (cmd : Command) : Command :=
  if is_empty (trim nix_config) then cmd
  else
    let existing := default [] existing in
    let merged := if is_empty existing then nix_config else existing ++ [10] ++ nix_config in
    {| cmd_program := cmd_program cmd; cmd_args := cmd_args cmd; cmd_envs := cmd_envs cmd ++ [(lit "NIX_CONFIG", merged)] |}.

(** The variable that a build passes on is read twice and so set to its text twice over. *)
Theorem build_doubles_nix_config nix_config cmd : trim nix_config ≠ [] →
  cmd_envs (apply_to_command (Some nix_config) nix_config cmd)
    = cmd_envs cmd ++ [(lit "NIX_CONFIG", nix_config ++ [10] ++ nix_config)].
Proof.
  intros Ht. unfold apply_to_command. destruct (is_empty (trim nix_config)) eqn:He; [by apply is_empty_true in He|].
  simpl. destruct nix_config as [|c s]; [done|]. done.
Qed.

(** ** The driver *)

Section driver.
Context {W : Type} `{!Processes W} `{!FsPaths W} `{!Fs W} `{!EnvVars W} `{!Concurrent W}.
Context `{Chrono} `{HashIter} `{Build} `{NixJson}.

Definition current_system : BIO W (list N) :=
  output ← io (process_output (nix_command
    [lit "eval"; lit "--raw"; lit "--impure"; lit "--expr"; lit "builtins.currentSystem"]));
  if negb (es_success (out_status output))
  then exit_failure (lit "nix eval --raw --impure --expr builtins.currentSystem") (out_status output)
         (from_utf8_lossy (out_stderr output))
  else mret (trim (from_utf8_lossy (out_stdout output))).

(** The lines of an output that are not blank, trimmed. *)
Definition trimmed_lines (bytes : list N) : list (list N) :=
  filter (λ l, l ≠ []) (trim <$> lines (from_utf8_lossy bytes)).

(** A batch that is built: its outputs, or those [path-info] knows when the build fails. *)
Definition build_batch (nix_config : option (list N)) (cmd path_info_cmd : Command)
    (failure : Output → Output → BIO W (list (list N))) (all_paths : list (list N)) : BIO W (list (list N)) :=
  existing ← bio_call (λ w, (w, env_var (lit "NIX_CONFIG") w));
  output ← io (process_output (match nix_config with Some config => apply_to_command existing config cmd | None => cmd end));
  if es_success (out_status output)
  then fail (extract_outputs_from_json (from_utf8_lossy (out_stdout output)) all_paths)
  else
    path_info_out ← io (process_output path_info_cmd);
    if es_success (out_status path_info_out)
    then mret (all_paths ++ trimmed_lines (out_stdout path_info_out))
    else failure output path_info_out.

(** The target of a flake as an argument. *)
Definition flake_argument (target : BuildTarget) : option (list N) :=
  match target with
  | FlakeTarget flake_ref attribute => Some (flake_ref ++ lit "#" ++ attribute)
  | FileTarget _ _ => None
  end.
Definition build_flakes (nix_config : option (list N)) (arguments all_paths : list (list N)) : BIO W (list (list N)) :=
  if bool_decide (arguments = []) then mret all_paths
  else build_batch nix_config
    (nix_command ([lit "build"] ++ arguments ++ [lit "--no-link"; lit "--accept-flake-config"; lit "--json"]))
    (nix_command ([lit "path-info"] ++ arguments))
    (λ _ path_info_out, exit_failure (lit "nix path-info fallback for flake targets") (out_status path_info_out)
       (from_utf8_lossy (out_stderr path_info_out))) all_paths.

(** The attributes of the targets of each file. *)
Definition group_target (groups : gmap (list N) (list (option (list N)))) (target : BuildTarget)
    : gmap (list N) (list (option (list N))) :=
  match target with
  | FileTarget file attribute => <[file := default [] (groups !! file) ++ [attribute]]> groups
  | FlakeTarget _ _ => groups
  end.
Definition build_file (nix_config : option (list N)) (all_paths : list (list N))
    (group : list N * list (option (list N))) : BIO W (list (list N)) :=
  let '(file, attrs) := group in
  let attrs := omap id attrs in
  build_batch nix_config
    (nix_command ([lit "build"; lit "--file"; file] ++ attrs ++ [lit "--no-link"; lit "--json"]))
    (nix_command ([lit "path-info"; lit "--file"; file] ++ attrs))
    (λ output _, exit_failure (lit "nix build --file " ++ file) (out_status output)
       (from_utf8_lossy (out_stderr output))) all_paths.

Definition build_outputs (targets : list BuildTarget) : BIO W (list (list N)) :=
  if bool_decide (targets = []) then mret []
  else
    nix_config ← bio_call (λ w, (w, env_var (lit "NIX_CONFIG") w));
    all_paths ← build_flakes nix_config (omap flake_argument targets) [];
    all_paths ← bio_fold (build_file nix_config) all_paths (hash_iter (foldl group_target ∅ targets));
    mret (dedup (merge_sort str_le all_paths)).

(** One query of [path-info]. *)
Definition path_info_query (args : list (list N)) (label : list N) (paths : list (list N)) : BIO W (list NixPathInfoItem) :=
  output ← io (process_output (nix_command (args ++ paths)));
  if negb (es_success (out_status output))
  then exit_failure label (out_status output) (from_utf8_lossy (out_stderr output))
  else fail (parse_path_info_items_typed (from_utf8_lossy (out_stdout output))).
(** Batches of 128, the results sorted by path with one item per path. *)
Definition path_infos (args : list (list N)) (label : list N) (paths : list (list N)) : BIO W (list NixPathInfoItem) :=
  if bool_decide (paths = []) then mret []
  else
    all_items ← bio_fold (λ all chunk, items ← path_info_query args label chunk; mret (all ++ items)) []
                  (chunks 128 paths);
    mret (dedup_by_path (sort_by_path all_items)).
Definition get_path_infos_typed (paths : list (list N)) : BIO W (list NixPathInfoItem) :=
  path_infos [lit "path-info"; lit "--json"] (lit "nix path-info --json") paths.
Definition get_recursive_path_infos (paths : list (list N)) : BIO W (list NixPathInfoItem) :=
  path_infos [lit "path-info"; lit "--recursive"; lit "--json"] (lit "nix path-info --recursive --json") paths.

Definition find_locally_built_paths (paths own_hashes : list (list N)) : BIO W (list (list N)) :=
  if bool_decide (paths = []) then mret []
  else
    items ← path_info_query [lit "path-info"; lit "--json"; lit "--recursive"] (lit "nix path-info --json --recursive") paths;
    own_hashes_set ← core (map_err TypeErr (collect_m StoreHash_parse own_hashes));
    report ← fail (classify_and_filter items {|
      fc_own_public_key := None; fc_remote_cached_hashes := list_to_set own_hashes_set;
      fc_trusted_upstream_prefixes := [] |});
    mret (dedup (merge_sort str_le (pi_path <$> fr_to_export report))).

Definition get_own_public_key (signing_key_file : option (list N)) : BIO W (option (list N)) :=
  match signing_key_file with
  | None => mret None
  | Some key_file =>
      let pub_file := key_file ++ lit ".pub" in
      exists_ ← bio_call (fs_exists pub_file);
      if (exists_ : bool) then
        r ← bio_call (fs_read_to_string pub_file);
        mret (trim <$> ok r)
      else
        spawned ← bio_call (process_spawn (nix_command [lit "key"; lit "convert-secret-to-public"]));
        match spawned with
        | Ok child =>
            secret ← bio_call (fs_read_to_string key_file);
            match secret with
            | Ok secret =>
                res ← bio_call (child_communicate child (utf8 secret));
                mret (match res with
                      | Ok res => if es_success (out_status res) then Some (trim (from_utf8_lossy (out_stdout res))) else None
                      | _ => None
                      end)
            | _ => mret None
            end
        | _ => mret None
        end
  end.

(** *** Targets of expressions *)

Definition nix_flakes : list (list N) := [lit "--extra-experimental-features"; lit "nix-command flakes"].

Definition try_batch_path_info (targets : list (list N)) : BIO W (list (list N)) :=
  output ← io (process_output (nix_command (nix_flakes ++ [lit "path-info"; lit "--json"; lit "--accept-flake-config"] ++ targets)));
  let failed := fail (Err (BuilderNix (NixExecution (lit "Batch path-info failed")))) in
  if es_success (out_status output) then
    match parse_path_info_items_typed (from_utf8_lossy (out_stdout output)) with
    | Ok items => mret (filter (λ p, p ≠ []) (pi_path <$> items))
    | Panic => fail Panic
    | Err _ => failed
    end
  else failed.

(** [if let Ok(out) = cmd.output().await && out.status.success()]: the standard output. *)
Definition success_stdout (cmd : Command) : BIO W (option (list N)) :=
  r ← bio_call (process_output cmd);
  mret (match r with
        | Ok out => if es_success (out_status out) then Some (from_utf8_lossy (out_stdout out)) else None
        | _ => None
        end).

Definition store_paths_of (text : list N) : list (list N) :=
  filter (λ p, starts_with (lit "/nix/store/") p = true) (trim <$> lines text).

Definition resolve_single_target (target : list N) : BIO W (list (list N)) :=
  let by_path_info : BIO W (list (list N)) :=
    single_out ← success_stdout (nix_command (nix_flakes ++ [lit "path-info"; lit "--accept-flake-config"; target]));
    let resolved := match single_out with Some text => store_paths_of text | None => [] end in
    if bool_decide (resolved = [])
    then fail (Err (BuilderNix (NixExecution (lit "Failed to resolve target expression: " ++ target))))
    else mret resolved in
  eval_out ← success_stdout (nix_command (nix_flakes ++
    [lit "eval"; lit "--accept-flake-config"; lit "--raw"; target ++ lit ".outPath"]));
  match eval_out with
  | Some text =>
      let path := trim text in
      if starts_with (lit "/nix/store/") path then mret [path] else by_path_info
  | None => by_path_info
  end.

(** [join_next] on a task that panicked gives a [JoinError]. *)
Definition join_result {A} (r : outcome BuilderError A) : outcome BuilderError A :=
  match r with Panic => Err (BuilderJoin (lit "task panicked")) | _ => r end.

Definition resolve_flake_or_attr_targets (targets : list (list N)) : BIO W (list (list N)) :=
  if bool_decide (targets = []) then mret []
  else
    let trimmed := filter (λ t, t ≠ []) (trim <$> targets) in
    let resolved := filter (λ t, starts_with (lit "/nix/store/") t = true) trimmed in
    let to_query := filter (λ t, ¬ starts_with (lit "/nix/store/") t = true) trimmed in
    if bool_decide (to_query = []) then mret (dedup (merge_sort str_le resolved))
    else
      batch ← bio_try (try_batch_path_info to_query);
      match batch with
      | Ok paths => mret (dedup (merge_sort str_le (resolved ++ paths)))
      | Panic => fail Panic
      | Err _ =>
          results ← bio_call (run_unordered (usize_len to_query) ((λ t, (t, resolve_single_target t)) <$> to_query));
          resolved ← bio_fold (λ resolved r, paths ← fail (join_result r.2); mret (resolved ++ paths)) resolved results;
          mret (dedup (merge_sort str_le resolved))
      end.

(** *** The build closure *)

(** The requisites of a batch of derivers; a batch that cannot be queried adds nothing. *)
Definition requisites (build_paths : gset (list N)) (chunk : list (list N)) : BIO W (gset (list N)) :=
  output ← success_stdout {| cmd_program := lit "nix-store"; cmd_args := [lit "--query"; lit "--requisites"] ++ chunk;
                             cmd_envs := [] |};
  match output with
  | Some text => mret (build_paths ∪ list_to_set (store_paths_of text))
  | None =>
      pi_out ← success_stdout (nix_command ([lit "path-info"; lit "--recursive"] ++ chunk));
      mret (match pi_out with
            | Some text => build_paths ∪ list_to_set (store_paths_of text)
            | None => build_paths
            end)
  end.

Definition get_build_closure (paths : list (list N)) : BIO W (list (list N)) :=
  if bool_decide (paths = []) then mret []
  else
    items ← get_recursive_path_infos paths;
    let derivers := filter (λ d, d ≠ []) (omap pi_deriver items) in
    build_paths ← bio_fold requisites (list_to_set (pi_path <$> items)) (chunks 128 (dedup (merge_sort str_le derivers)));
    mret (merge_sort str_le (set_iter build_paths)).
End driver.

(** ** Discovery of the outputs of a flake *)

Record DiscoveredFlakeOutputs := {
  do_pkgs : list (list N);
  do_dev_shells : list (list N);
  do_nixos : list (list N) }.

(** The expression that is evaluated. *)
Definition outputs_expr (flake_ref system : list N) : list N :=
  let q s := [34] ++ s ++ [34] in
  join [10]
    [ lit "let";
      lit "  flake = builtins.getFlake " ++ q flake_ref ++ lit ";";
      lit "  sys = " ++ q system ++ lit ";";
      lit "  pkgs = builtins.attrNames (flake.packages.${sys} or {});";
      lit "  devShells = builtins.attrNames (flake.devShells.${sys} or {});";
      lit "  allNixos = flake.nixosConfigurations or {};";
      lit "  nixos = builtins.filter (name:";
      lit "    let cfg = allNixos.${name};";
      lit "    in (cfg.config.nixpkgs.system or cfg.pkgs.system or sys) == sys";
      lit "  ) (builtins.attrNames allNixos);";
      lit "in { inherit pkgs devShells nixos; }" ].

(** [Path::join]. *)
Definition path_join (base p : list N) : list N :=
  if starts_with (lit "/") p then p
  else if is_empty base || ends_with (lit "/") base then base ++ p
  else base ++ lit "/" ++ p.

Section discovery.
Context {W : Type} `{!Processes W} `{!FsPaths W} `{NixJson} `{!Serde DiscoveredFlakeOutputs}.

(** A name that is not blank, as the attribute of a target. *)
Definition named_targets (flake_ref : list N) (attribute : list N → list N) (names : list (list N)) : list BuildTarget :=
  (λ name, FlakeTarget flake_ref (attribute name)) <$> filter (λ n, n ≠ []) (trim <$> names).

Definition discover_flake (config : BuildConfig) : BIO W (list BuildTarget) :=
  system ← match bc_system config with
           | Some s => if is_empty (trim s) then current_system else mret (trim s)
           | None => current_system
           end;
  canonical ← io (fs_canonicalize (bc_flake_path config));
  let flake_ref := lit "path:" ++ canonical in
  locked ← bio_call (fs_exists (path_join (bc_flake_path config) (lit "flake.lock")));
  _ ← (if (locked : bool) then mret tt
       else
         status ← io (process_status (nix_command [lit "flake"; lit "update"; lit "--flake"; flake_ref]));
         if es_success status then mret tt
         else exit_failure (lit "nix flake update --flake " ++ flake_ref) status []);
  output ← io (process_output (nix_command
    [lit "eval"; lit "--json"; lit "--impure"; lit "--expr"; outputs_expr flake_ref system]));
  if negb (es_success (out_status output))
  then exit_failure (lit "nix eval --json --impure --expr") (out_status output) (from_utf8_lossy (out_stderr output))
  else
    discovered ← json (from_json_str (from_utf8_lossy (out_stdout output)));
    let targets :=
      named_targets flake_ref (λ n, lit "packages." ++ system ++ lit "." ++ n) (do_pkgs discovered)
      ++ named_targets flake_ref (λ n, lit "nixosConfigurations." ++ n ++ lit ".config.system.build.toplevel")
           (do_nixos discovered)
      ++ named_targets flake_ref (λ n, lit "devShells." ++ system ++ lit "." ++ n) (do_dev_shells discovered) in
    if bool_decide (targets = [])
    then fail (Err (BuilderNix (NixExecution (lit "No buildable outputs found for " ++ system ++ lit " in "
                                              ++ bc_flake_path config))))
    else mret targets.

Definition discover_outputs (config : BuildConfig) : BIO W (list BuildTarget) :=
  match bc_mode config with
  | Flake => discover_flake config
  | NonFlake =>
      mret (if bool_decide (bc_attributes config = []) then [FileTarget (bc_file config) None]
            else (λ attr, FileTarget (bc_file config) (Some attr)) <$> bc_attributes config)
  end.

(** The hash of an output path, pushed when there is one. *)
Definition push_hash (hashes : list StoreHash) (path : list N) : BIO W (list StoreHash) :=
  h ← core (map_err TypeErr (extract_store_hash path));
  mret (match h with Some h => hashes ++ [h] | None => hashes end).
(** [nix eval --raw <target>.outPath]. *)
Definition push_evaluated (hashes : list StoreHash) (target : list N) : BIO W (list StoreHash) :=
  out ← success_stdout (nix_command [lit "eval"; lit "--accept-flake-config"; lit "--raw"; target ++ lit ".outPath"]);
  match out with Some text => push_hash hashes (trim text) | None => mret hashes end.

(** The paths that the JSON of [path-info] names. *)
Definition json_paths (text : list N) : list (list N) :=
  match value_from_str text with
  | Ok val =>
      match as_object val with
      | Some obj => obj.*1
      | None =>
          match as_array val with
          | Some arr => omap (λ item, value_get item (lit "path") ≫= as_str) arr
          | None => []
          end
      end
  | _ => []
  end.

Definition resolve_attribute (abs_flake_path : list N) (hashes : list StoreHash) (attr : list N) : BIO W (list StoreHash) :=
  let target := lit "path:" ++ abs_flake_path ++ lit "#" ++ attr in
  out ← success_stdout (nix_command [lit "path-info"; lit "--accept-flake-config"; lit "--json"; target]);
  match out with
  | Some text => bio_fold push_hash hashes (json_paths text)
  | None => push_evaluated hashes target
  end.

Definition resolve_flake_output_hashes (flake_path : list N) (attributes : list (list N)) : BIO W (list StoreHash) :=
  canonical ← bio_call (fs_canonicalize flake_path);
  let abs_flake_path := match canonical with Ok p => p | _ => flake_path end in
  if negb (bool_decide (attributes = [])) then bio_fold (resolve_attribute abs_flake_path) [] attributes
  else
    discovered ← bio_try (discover_outputs {| bc_system := None; bc_mode := Flake; bc_flake_path := abs_flake_path;
                                              bc_file := lit "default.nix"; bc_attributes := [] |});
    match discovered with
    | Ok targets => bio_fold push_evaluated [] (omap flake_argument targets)
    | Err _ => mret []
    | Panic => fail Panic
    end.
End discovery.

(** ** Facts *)

Section facts.
Context {W : Type}.

Lemma io_ok {A} (m : W → W * outcome (list N) A) w w' a : io m w = (w', Ok a) ↔ m w = (w', Ok a).
Proof. unfold io. destruct (m w) as [w1 [x|e|]]; simpl; naive_solver. Qed.
Lemma fail_ok {A} (o : outcome BuilderError A) (w w' : W) a : fail o w = (w', Ok a) ↔ w' = w ∧ o = Ok a.
Proof. unfold fail. naive_solver. Qed.
Lemma exit_failure_ok {A} command status stderr (w w' : W) (a : A) :
  exit_failure command status stderr w = (w', Ok a) ↔ False.
Proof. unfold exit_failure. rewrite fail_ok. naive_solver. Qed.
Lemma bio_try_ok {A} (m : BIO W A) w w' o : bio_try m w = (w', Ok o) ↔ m w = (w', o).
Proof. unfold bio_try. destruct (m w). naive_solver. Qed.
End facts.

(** Peels a step of a task that returned. *)
Ltac inv_task H :=
  let w := fresh "w" in let a := fresh "a" in let Ha := fresh "Ha" in
  apply bio_bind_ok in H as (w & a & Ha & H);
  lazymatch type of Ha with
  | bio_call _ _ = _ => apply (proj1 (bio_call_ok _ _ _ _)) in Ha
  | fail _ _ = _ => apply fail_ok in Ha as [-> Ha]
  | core _ _ = _ => apply core_ok in Ha as [-> Ha]
  | oci _ _ = _ => apply oci_ok in Ha
  | io _ _ = _ => apply (proj1 (io_ok _ _ _ _)) in Ha
  | bio_try _ _ = _ => apply (proj1 (bio_try_ok _ _ _ _)) in Ha
  | _ => idtac
  end.

(** *** Sorting and batches *)

Lemma insert_by_path_perm i l : insert_by_path i l ≡ₚ i :: l.
Proof. induction l as [|j l IH]; simpl; [done|]. case_bool_decide; [done|]. rewrite IH. constructor. Qed.
Lemma sort_by_path_perm l : sort_by_path l ≡ₚ l.
Proof. induction l as [|i l IH]; simpl; [done|]. by rewrite insert_by_path_perm, IH. Qed.
Lemma concat_chunks {A} n (l : list A) : n ≠ 0%nat → concat (chunks n l) = l.
Proof.
  intros Hn. unfold chunks. assert (∀ fuel l, (length l ≤ fuel)%nat → concat (chunks_fuel (A := A) fuel n l) = l) as Hc.
  { clear l. intros fuel. induction fuel as [|fuel IH]; intros [|a l] Hl; try done; simpl in Hl; [lia|].
    cbn [chunks_fuel]. change (concat (?x :: ?y)) with (x ++ concat y). rewrite IH; [apply take_drop|].
    rewrite length_drop. simpl. lia. }
  by apply Hc.
Qed.

(** Sorting by path and keeping one item per path keeps the paths. *)
Lemma dedup_from_paths last l :
  (∀ p, p ∈ pi_path <$> dedup_from last l → p ∈ pi_path <$> l) ∧ (∀ p, p ∈ pi_path <$> l → p = last ∨ p ∈ pi_path <$> dedup_from last l) ∧
  (∀ i, i ∈ dedup_from last l → i ∈ l).
Proof.
  revert last. induction l as [|i l IH]; intros last; simpl; [set_solver|].
  case_bool_decide as Hi; simpl.
  - destruct (IH last) as (H1 & H2 & H3). set_solver.
  - destruct (IH (pi_path i)) as (H1 & H2 & H3). set_solver.
Qed.
Lemma dedup_by_path_paths l : (∀ p, p ∈ pi_path <$> dedup_by_path l ↔ p ∈ pi_path <$> l) ∧ (∀ i, i ∈ dedup_by_path l → i ∈ l).
Proof.
  destruct l as [|i l]; simpl; [done|]. destruct (dedup_from_paths (pi_path i) l) as (H1 & H2 & H3). set_solver.
Qed.

(** *** What running [nix] leaves alone *)

Class ProcessesKeep {W : Type} `{!Processes W} `{!FsPaths W} (R : W → W → Prop) : Prop := {
  #[global] pk_preorder :: PreOrder R;
  pk_output : ∀ cmd w, R w (process_output cmd w).1;
  pk_status : ∀ cmd w, R w (process_status cmd w).1;
  pk_canonicalize : ∀ p w, R w (fs_canonicalize p w).1;
  pk_exists : ∀ p w, R w (fs_exists p w).1 }.

Section keep.
Context {W : Type} `{!Processes W} `{!FsPaths W} `{NixJson} `{!Serde DiscoveredFlakeOutputs}.
Context (R : W → W → Prop) `{!ProcessesKeep R}.

Lemma keep_io {A} (m : W → W * outcome (list N) A) : (∀ w, R w (m w).1) → bio_keeps R (io m).
Proof. intros Hm w. specialize (Hm w). unfold io. by destruct (m w). Qed.
Lemma keep_try {A} (m : BIO W A) : bio_keeps R m → bio_keeps R (bio_try m).
Proof. intros Hm w. specialize (Hm w). unfold bio_try. by destruct (m w). Qed.
Lemma keep_exit_failure {A} command status stderr : bio_keeps R (exit_failure (A := A) command status stderr).
Proof. apply (bio_keeps_fail R). Qed.

Lemma keep_flake_hashes path attributes : bio_keeps R (resolve_flake_output_hashes path attributes).
Proof.
  unfold resolve_flake_output_hashes, resolve_attribute, push_evaluated, push_hash, discover_outputs, discover_flake,
    current_system, success_stdout, json.
  repeat first [ apply keep_io | apply keep_try | apply keep_exit_failure | apply pk_output | apply pk_status
    | apply pk_canonicalize | apply pk_exists | bio_keep_step R ].
Qed.
End keep.

(** *** A machine without [nix] *)

Definition no_processes {W} : Processes W := {|
  Child := Empty_set; process_output := λ _ w, (w, Err (lit "No such file or directory"));
  process_status := λ _ w, (w, Err (lit "No such file or directory"));
  process_spawn := λ _ w, (w, Err (lit "No such file or directory"));
  child_communicate := λ _ _ w, (w, Err []); child_reads := λ _ w, (w, []); child_wait := λ _ w, (w, Err []);
  child_try_wait := λ _ w, (w, Err []); child_kill := λ _ w, w |}.
Definition no_paths {W} : FsPaths W := {|
  fs_canonicalize := λ _ w, (w, Err (lit "No such file or directory")); fs_exists := λ _ w, (w, false) |}.
Definition no_nix_json `{JsonValue} : NixJson := {|
  as_array := λ _, None; as_object := λ _, None; as_str := λ _, None; is_null := λ _, false;
  value_get := λ _ _, None; item_from_value := λ _, Err [] |}.
Definition no_outputs_serde : Serde DiscoveredFlakeOutputs := {|
  to_json := λ _, Err []; from_json_str := λ _, Err []; from_json_slice := λ _, Err [] |}.

(** *** Tasks one after the other *)

Fixpoint run_each {W K A} (tasks : list (K * BIO W A)) (w : W) : W * list (K * outcome BuilderError A) :=
  match tasks with
  | [] => (w, [])
  | (k, task) :: tasks =>
      let '(w, r) := task w in
      let '(w, rs) := run_each tasks w in
      (w, (k, r) :: rs)
  end.
Definition one_by_one {W} : Concurrent W.
Proof.
  refine {| run_unordered := λ K A _ tasks w, run_each tasks w |}.
  - intros K A _ tasks w. exists (run_each tasks w).2. split; [done|]. revert w.
    induction tasks as [|[k task] tasks IH]; intros w; cbn [run_each]; [constructor|].
    destruct (task w) as [w1 r] eqn:Ht. specialize (IH w1). destruct (run_each tasks w1) as [w2 rs]. simpl in *.
    constructor; [|done]. split; [done|]. by exists w, w1.
  - intros K A _ tasks R HR. induction tasks as [|[k task] tasks IH]; intros Hk w; cbn [run_each]; [simpl; reflexivity|].
    pose proof (Hk (k, task) w ltac:(left)) as Ht. simpl in Ht. destruct (task w) as [w1 r]. simpl in Ht.
    assert (Hr : R w1 (run_each tasks w1).1) by (apply IH; intros t w0 Hin; apply Hk; by right).
    destruct (run_each tasks w1) as [w2 rs]. simpl in *. by etrans.
Defined.
