(* ===== verification/PurgeRun.v ===== *)
(** * PurgeRun: the purge and garbage collection commands
    (crates/nixcache-builder/src/purge.rs, gc.rs)

    The step summaries and the log are reporting and left out.  The loading of the roots and
    of their entries takes the tag: the listing loads the same way under a tag of its own. *)

From S2P Require Import Prelude Machine Str Text Error Types Sharding Index Filter Graph Query Purge Gc OciError Transport Endpoint Auth Request Driver Upload Manifest ManifestClient IndexClient Ghcr Discovery Deletion Builder Cli ReadOnly Lookup NixFilter Promote Nix.

Local Open Scope N_scope.

(** The tag of the promoted cache. *)
Definition CACHE_INDEX : list N := lit "cache-index".
Notation ArchData := (gmap SystemArch (ShardedArchCacheIndexData * gmap StoreHash IndexEntry)).

Section purge_run.
Context {W : Type} `{HttpHeaders} `{UriLib} `{UnicodeCase} `{UnicodeAlpha} `{!TransportOps W} `{!TokenOps W} `{!ClockOps W}.
Context `{!DeleteOps W} `{!Unordered W} `{!JoinAll W} `{!UtcNow W} `{!Processes W} `{!FsPaths W}.
Context `{Sha2} `{Chrono} `{ChronoArith} `{HashIter} `{Build} `{Zstd} `{ZstdEncoder} `{SerdeErrors} `{OciFormat} `{JsonValue} `{!NixJson} `{!Serde DiscoveredFlakeOutputs}.
Context `{!Serde OciImageIndex} `{!Serde OciImageManifest}.
Context `{!Serde (option (list (list N)))} `{!Serde (list GitHubPackageVersion)}.
Context `{!Serde ShardedArchCacheIndexData} `{!Serde ShardDataPayload}.
Context (consts_os consts_arch : list N).

(** ** Loading *)

Definition purge_systems (self : OciClient) (tag : list N) : BIO W (gset SystemArch) :=
  artifact ← bio_catch (fetch_artifact self tag);
  systems ← match artifact with
            | Ok (Some artifact) => mret (artifact_systems consts_os consts_arch ∅ (fa_manifest artifact))
            | Panic => fail Panic
            | _ => mret ∅
            end;
  mret (if bool_decide (systems = ∅) then list_to_set SystemArch_all else systems).

(** The future of one system: its root and all its entries. *)
Definition load_system (self : OciClient) (tag : list N) (sys : SystemArch)
    : BIO W (option (SystemArch * ShardedArchCacheIndexData * gmap StoreHash IndexEntry)) :=
  root ← oci (get_sharded_root self tag sys);
  match root with
  | Some (root_data, _) =>
      let non_empty_shards := filter (λ s, (0 <? sd_entry_count s) && negb (is_empty (sd_blob_digest s)) = true)
                                (ix_shards root_data) in
      payloads ← try_join_all ((λ descriptor, oci (get_shard_data self descriptor sys)) <$> non_empty_shards);
      mret (Some (sys, root_data, foldl (λ entries p, pl_entries p ∪ entries) ∅ payloads))
  | None => mret None
  end.

Definition load_archs (self : OciClient) (tag : list N)
    : BIO W (list (SystemArch * ShardedArchCacheIndexData * gmap StoreHash IndexEntry)) :=
  systems ← purge_systems self tag;
  loaded ← try_join_all (load_system self tag <$> set_iter systems);
  mret (omap id loaded).

Definition all_entries_of (loaded : list (SystemArch * ShardedArchCacheIndexData * gmap StoreHash IndexEntry))
    : gmap StoreHash IndexEntry := foldl (λ all '(_, _, entries), entries ∪ all) ∅ loaded.
Definition all_gc_roots_of (loaded : list (SystemArch * ShardedArchCacheIndexData * gmap StoreHash IndexEntry))
    : gmap SystemArch (list StoreHash) := foldl (λ roots '(sys, root, _), <[sys := ix_gc_roots root]> roots) ∅ loaded.
Definition arch_data_of (loaded : list (SystemArch * ShardedArchCacheIndexData * gmap StoreHash IndexEntry))
    : ArchData := foldl (λ archs '(sys, root, entries), <[sys := (root, entries)]> archs) ∅ loaded.

(** ** Rewriting one system *)

(** One turn of the loop: the buckets still to place and the descriptors. *)
Definition purge_shard (self : OciClient) (st : gmap N (gmap StoreHash IndexEntry) * list ShardDescriptor)
    (shard_id : N) : BIO W (gmap N (gmap StoreHash IndexEntry) * list ShardDescriptor) :=
  let '(partitioned_kept, shards) := st in
  let kept_for_shard := default ∅ (partitioned_kept !! shard_id) in
  let rest := delete shard_id partitioned_kept in
  desc ← shard_at shards shard_id;
  if bool_decide (kept_for_shard = ∅) then
    d ← core (ShardDescriptor_empty shard_id);
    mret (rest, <[N.to_nat shard_id := d]> shards)
  else if negb (sd_entry_count desc =? N.of_nat (size kept_for_shard)) then
    payload ← core (Payload_new shard_id);
    d ← push_shard self desc (with_entries payload kept_for_shard);
    mret (rest, <[N.to_nat shard_id := d]> shards)
  else mret (rest, shards).

Definition purge_root (self : OciClient) (purged : gset StoreHash) (updated_roots : list StoreHash)
    (root : ShardedArchCacheIndexData) (original_entries : gmap StoreHash IndexEntry) : BIO W ShardedArchCacheIndexData :=
  let kept_entries_for_sys := filter (λ '(h, _), h ∉ purged) original_entries in
  partitioned_kept ← core (partition_entries_by_shard kept_entries_for_sys);
  st ← bio_fold (purge_shard self) (partitioned_kept, ix_shards root) shard_ids;
  recalculated ← core (Index_recalculate_merkle_root {|
    ix_version := ix_version root; ix_system := ix_system root; ix_repo := ix_repo root;
    ix_registry := ix_registry root; ix_generated := ix_generated root; ix_public_key := ix_public_key root;
    ix_shards := st.2; ix_merkle_root := ix_merkle_root root; ix_gc_roots := updated_roots;
    ix_last_promoted_run := ix_last_promoted_run root |});
  now ← bio_call utc_now;
  mret {| ix_version := SCHEMA_VERSION_V8; ix_system := ix_system recalculated; ix_repo := ix_repo recalculated;
          ix_registry := ix_registry recalculated; ix_generated := to_rfc3339_secs now;
          ix_public_key := ix_public_key recalculated; ix_shards := ix_shards recalculated;
          ix_merkle_root := ix_merkle_root recalculated; ix_gc_roots := ix_gc_roots recalculated;
          ix_last_promoted_run := ix_last_promoted_run recalculated |}.

(** The future of one system. *)
Definition purge_system (self : OciClient) (purge_result : PurgeEvaluationResult)
    (arch : SystemArch * (ShardedArchCacheIndexData * gmap StoreHash IndexEntry)) : BIO W OciDescriptor :=
  let '(sys, (root, original_entries)) := arch in
  root ← purge_root self (list_to_set (purged_hashes purge_result))
           (default [] (updated_gc_roots purge_result !! sys)) root original_entries;
  sub_manifest_digest ← oci (push_sharded_root self (lit "cache-index-" ++ SystemArch_as_str sys) root);
  mret (child_descriptor sys sub_manifest_digest (ix_merkle_root root)).

(** All systems, then the image index; [None] is fuel used up, which it never is. *)
Definition apply_purge (self : OciClient) (pid : N) (purge_result : PurgeEvaluationResult) (arch_roots_data : ArchData)
    : BIO W (option unit) :=
  final_descriptors ← try_join_all (purge_system self purge_result <$> hash_iter arch_roots_data);
  match manifest_cas_support (driver_capabilities (cl_driver self)) with
  | IfMatch => oci (update_cas self pid CACHE_INDEX 5 (global_index final_descriptors))
  | CasNotSupported => _ ← oci (update_single_writer self CACHE_INDEX (global_index final_descriptors)); mret (Some tt)
  end.

(** ** Blobs *)

(** The deletion of the purged blobs, when it is asked for. *)
Definition delete_purged_blobs (self : OciClient) (registry repo : list N) (strict_mode delete_blobs : bool)
    (purge_result : PurgeEvaluationResult) : BIO W unit :=
  if negb delete_blobs || bool_decide (purged_blobs purge_result = []) then mret tt
  else if negb (supports_blob_physical_deletion (driver_capabilities (cl_driver self))) then
    if strict_mode
    then fail (Err (BuilderOci (OperationNotSupported (lit "delete_blob") (cl_driver self)
           (lit "Backend '" ++ display_registry_kind (cl_driver self)
            ++ lit "' does not support standalone OCI blob deletion. Blobs are managed via package versions. To delete unused data on GHCR, use tag deletion or 'purge --all'."))))
    else mret tt
  else
    let targets := (λ blob, {| bt_digest := blob_digest blob; bt_size := blob_size blob |}) <$> purged_blobs purge_result in
    result ← oci (batch_delete_blobs_strict self targets 8);
    match result with
    | BatchComplete _ => mret tt
    | BatchPartial summary =>
        if strict_mode
        then fail (Err (BuilderOci (DeletionVerificationFailed (registry ++ lit "/" ++ repo)
               (lit "blob deletion was partial with " ++ show_N (su_failed summary) ++ lit " failure(s)"))))
        else mret tt
    end.

(** ** The commands; [None] is fuel used up *)

Definition purge_package (self : OciClient) (auth_token registry repo : list N) (fuel : nat) (dry_run strict_mode : bool)
    : BIO W (option unit) :=
  match package_deletion_support (driver_capabilities (cl_driver self)) with
  | PackageDeletionUnsupported =>
      fail (Err (BuilderOci (OperationNotSupported (lit "delete_package") (cl_driver self)
        (lit "backend '" ++ display_registry_kind (cl_driver self)
         ++ lit "' cannot prove complete package deletion; use its native package API or garbage collection"))))
  | _ =>
      if dry_run then
        preview ← oci (preview_package self auth_token fuel);
        mret (match preview with Some _ => Some tt | None => None end)
      else
        summary ← oci (delete_entire_package_strict self auth_token fuel);
        match summary with
        | None => mret None
        | Some summary =>
            if strict_mode && negb (pd_complete summary)
            then fail (Err (BuilderOci (DeletionVerificationFailed (registry ++ lit "/" ++ repo)
                   (lit "package deletion was partial with " ++ show_N (usize_len (pd_failures summary))
                    ++ lit " failure(s)"))))
            else mret (Some tt)
        end
  end.

(** The hashes a flake brings in and the selector; the clock is read for the two time bounds. *)
Definition purge_selector (env : list N → option (list N)) (args : PurgeArgs) : BIO W CacheSelector :=
  extra_hashes ← match resolve_flake_path env (pa_selector args) with
                 | Some flake_path =>
                     resolve_flake_output_hashes flake_path (resolve_attributes env (pa_selector args))
                 | None => mret []
                 end;
  now1 ← bio_call utc_now;
  now2 ← bio_call utc_now;
  fail (map_err BuilderCli (to_purge_selector env (pa_selector args) extra_hashes now1 now2)).

Definition purge_entries (self : OciClient) (env : list N → option (list N)) (args : PurgeArgs)
    (pid : N) (registry repo : list N) : BIO W (option unit) :=
  loaded ← load_archs self CACHE_INDEX;
  let all_entries := all_entries_of loaded in
  if bool_decide (all_entries = ∅) then mret (Some tt) else
  selector ← purge_selector env args;
  purge_result ← core (evaluate_cache_purge all_entries (all_gc_roots_of loaded) selector);
  if bool_decide (purged_entries purge_result = ∅) || resolve_dry_run env args then mret (Some tt) else
  done ← apply_purge self pid purge_result (arch_data_of loaded);
  match done with
  | None => mret None
  | Some _ =>
      _ ← delete_purged_blobs self registry repo (resolve_strict env args) (resolve_delete_blobs env args) purge_result;
      mret (Some tt)
  end.

Definition run_purge (env : list N → option (list N)) (args : PurgeArgs) (auth_token : list N) (pid : N) (fuel : nat)
    (repo registry : list N) : BIO W (option unit) :=
  self ← oci (lift (create_tokio_reqwest_client registry repo));
  if resolve_all env (pa_selector args)
  then purge_package self auth_token registry repo fuel (resolve_dry_run env args) (resolve_strict env args)
  else purge_entries self env args pid registry repo.

Definition run_gc (env : list N → option (list N)) (args : GcArgs) (auth_token : list N) (pid : N) (fuel : nat)
    (repo registry : list N) : BIO W (option unit) :=
  run_purge env (to_purge_args env args) auth_token pid fuel repo registry.
End purge_run.

(** ** Facts: what is loaded *)

(** Payloads of different shards, their entries in their shards, put together. *)
Lemma union_payloads_lookup (ps : list ShardDataPayload) m0 h :
  Forall (λ p, map_Forall (λ h _, calculate_shard_id h = Some (pl_shard_id p)) (pl_entries p)) ps →
  NoDup (pl_shard_id <$> ps) →
  (∀ p, p ∈ ps → calculate_shard_id h = Some (pl_shard_id p) →
     foldl (λ entries p, pl_entries p ∪ entries) m0 ps !! h = (pl_entries p ∪ m0) !! h) ∧
  ((∀ p, p ∈ ps → calculate_shard_id h ≠ Some (pl_shard_id p)) →
     foldl (λ entries p, pl_entries p ∪ entries) m0 ps !! h = m0 !! h).
Proof.
  revert m0. induction ps as [|q ps IH]; intros m0 Hp Hnd; [split; [by intros p ?%elem_of_nil|done]|].
  apply Forall_cons in Hp as [Hq Hp]. rewrite fmap_cons in Hnd. apply NoDup_cons in Hnd as [Hnin Hnd]. cbn [foldl].
  assert (Hother : calculate_shard_id h ≠ Some (pl_shard_id q) → (pl_entries q ∪ m0) !! h = m0 !! h).
  { intros Hne. apply lookup_union_r. destruct (pl_entries q !! h) eqn:He; [|done]. by apply Hq in He. }
  destruct (IH (pl_entries q ∪ m0) Hp Hnd) as [IH1 IH2]. split.
  - intros p [->|Hin]%elem_of_cons Hid.
    + apply IH2. intros p' Hp' Hid'. rewrite Hid in Hid'. injection Hid' as Hid'. apply Hnin. rewrite Hid'.
      by apply list_elem_of_fmap_2.
    + rewrite (IH1 p Hin Hid), (lookup_union _ (pl_entries q ∪ m0)), (lookup_union (pl_entries p) m0), Hother; [done|]. rewrite Hid. intros [= Hi]. apply Hnin.
      rewrite <- Hi. by apply list_elem_of_fmap_2.
  - intros Hall. rewrite IH2 by (intros p Hin; apply Hall; by right). apply Hother, Hall. by left.
Qed.

Section facts.
Context {W : Type} `{HttpHeaders} `{UriLib} `{!TransportOps W} `{!TokenOps W} `{!ClockOps W} `{!JoinAll W} `{!UtcNow W}.
Context `{Sha2Ok} `{Chrono} `{HashIter} `{Build} `{Zstd} `{ZstdEncoder} `{SerdeErrors}.
Context `{!Serde OciImageIndex} `{!Serde OciImageManifest}.
Context `{!Serde ShardedArchCacheIndexData} `{!Serde ShardDataPayload}.
Context (self : OciClient).

Lemma well_sharded_unique shards id d d' : well_sharded shards → shards !! N.to_nat id = Some d →
  d' ∈ shards → sd_shard_id d' = id → d' = d.
Proof.
  intros Hs Hd (i & Hi)%list_elem_of_lookup Hid. destruct Hs as [Hids _].
  pose proof (ordered_id _ _ _ Hids Hi) as Hi'. assert (i = N.to_nat id) as -> by lia. by simplify_eq.
Qed.

Lemma read_payloads_placed sys l ps :
  Forall2 (λ d p, ∃ w1 w2, get_shard_data (W := W) self d sys w1 = (w2, Ok p)) l ps →
  pl_shard_id <$> ps = sd_shard_id <$> l ∧
  Forall (λ p, map_Forall (λ h _, calculate_shard_id h = Some (pl_shard_id p)) (pl_entries p)) ps.
Proof.
  intros Hread. induction Hread as [|d p l ps (w1 & w2 & Hp) _ [IH1 IH2]]; [by split; [|constructor]|].
  pose proof (get_shard_data_authenticates _ _ _ _ _ _ Hp) as [Hid _ _]. split; [by rewrite !fmap_cons, IH1, Hid|].
  constructor; [|done]. intros h e He. rewrite Hid. by eapply get_shard_data_placed.
Qed.

(** Every shard of a loaded root authenticates its bucket of the loaded entries. *)
Lemma load_system_ok tag sys (w w' : W) sys' root entries :
  load_system self tag sys w = (w', Ok (Some (sys', root, entries))) →
  sys' = sys ∧ ix_system root = sys ∧ well_sharded (ix_shards root) ∧
  ∀ id d, ix_shards root !! N.to_nat id = Some d → ∃ p, authenticates d p ∧ pl_entries p = bucket id entries.
Proof.
  intros Hl. unfold load_system in Hl. inv_bio_step Hl. destruct a as [[root_data digest]|].
  2: { by apply bio_ret_ok in Hl as [_ ?]. }
  apply get_sharded_root_accepted in Ha as (Hv & Hsys & _).
  assert (Hs : well_sharded (ix_shards root_data)) by (split; apply Hv). clear Hv.
  set (l := filter _ _) in Hl. inv_bio_step Hl. apply bio_ret_ok in Hl as [_ [= -> -> ->]].
  split; [done|]. split; [done|]. split; [done|]. apply try_join_all_ok in Ha. rewrite Forall2_fmap_l in Ha.
  assert (Hread : Forall2 (λ d p, ∃ w1 w2, get_shard_data self d sys w1 = (w2, Ok p)) l a).
  { eapply Forall2_impl; [exact Ha|]. intros d p (w3 & w4 & Hp%oci_ok). by exists w3, w4. }
  clear Ha. destruct (read_payloads_placed _ _ _ Hread) as [Hids Hplaced].
  assert (Hnd : NoDup (pl_shard_id <$> a)).
  { rewrite Hids. eapply sublist_NoDup; [apply shard_ids_NoDup|]. rewrite <- (proj1 Hs).
    apply fmap_sublist, sublist_filter. }
  intros id d Hd. destruct (well_sharded_lookup _ _ _ Hs Hd) as [Hid Hv].
  destruct (decide (d ∈ l)) as [Hin|Hnin].
  - apply list_elem_of_lookup in Hin as [i Hi]. destruct (Forall2_lookup_l _ _ _ _ _ Hread Hi) as (p & Hp & w3 & w4 & Hg).
    pose proof (get_shard_data_authenticates _ _ _ _ _ _ Hg) as Hau. exists p. split; [done|].
    apply map_eq. intros h. apply option_eq. intros e. unfold bucket. rewrite map_lookup_filter_Some.
    destruct (union_payloads_lookup a ∅ h Hplaced Hnd) as [Hu _].
    assert (Hpid : pl_shard_id p = id) by (rewrite (au_shard _ _ Hau); done).
    specialize (Hu p (list_elem_of_lookup_2 _ _ _ Hp)). rewrite Hpid, (right_id_L ∅ (∪)) in Hu. split.
    + intros He. pose proof (get_shard_data_placed _ _ _ _ _ _ _ _ Hg He) as Hc. rewrite Hid in Hc.
      by rewrite Hu.
    + intros [He Hc]. by rewrite <- Hu.
  - assert (Hz : sd_entry_count d = 0).
    { destruct Hv as (_ & _ & Hv). unfold ShardDescriptor_is_empty in Hv.
      destruct (N.eqb_spec (sd_entry_count d) 0) as [|Hne]; [done|]. exfalso. apply Hnin, list_elem_of_filter.
      split; [|by eapply list_elem_of_lookup_2]. destruct (sd_blob_digest d) eqn:Hb; [by destruct Hv|].
      simpl. rewrite andb_true_r. apply N.ltb_lt. lia. }
    destruct (Payload_new (sd_shard_id d)) as [p| |] eqn:Hp.
    2-3: exfalso; unfold Payload_new in Hp; destruct (N.leb_spec (N.of_nat NUM_SHARDS) (sd_shard_id d)); [|done];
      destruct Hv as [Hv _]; change (N.of_nat NUM_SHARDS) with 1024 in *; lia.
    exists p. split; [by apply empty_authenticates|]. unfold Payload_new in Hp. destruct (_ <=? _); [done|].
    injection Hp as <-. simpl. symmetry. apply map_empty. intros h. apply map_lookup_filter_None. right. intros e He Hc.
    destruct (union_payloads_lookup a ∅ h Hplaced Hnd) as [_ Hu]. rewrite Hu in He; [by rewrite lookup_empty in He|].
    intros p Hpin Hpc. rewrite Hc in Hpc. injection Hpc as Hpc. apply Hnin.
    assert (Hin : pl_shard_id p ∈ pl_shard_id <$> a) by by apply list_elem_of_fmap_2. rewrite Hids in Hin.
    apply list_elem_of_fmap in Hin as (d' & Hd' & Hin). rewrite <- Hpc in Hd'.
    rewrite <- (well_sharded_unique _ id d d' Hs Hd); [done| |done]. by apply list_elem_of_filter in Hin as [_ ?].
Qed.

(** What one shard becomes: its payload without the purged entries. *)
Definition shard_purged (purged : gset StoreHash) (d0 d : ShardDescriptor) : Prop :=
  ∃ p0 p, authenticates d0 p0 ∧ authenticates d p ∧ pl_entries p = filter (λ '(h, _), h ∉ purged) (pl_entries p0).

Lemma bucket_filter id (purged : gset StoreHash) entries :
  bucket id (filter (λ '(h, _), h ∉ purged) entries) = filter (λ '(h, _), h ∉ purged) (bucket id entries).
Proof. unfold bucket. apply map_filter_comm. Qed.

(** A descriptor that counts as many entries as are kept is kept: it has them all. *)
Lemma purge_shard_purges purged entries P shards id (w w' : W) st d0 p0 :
  purge_shard self (P, shards) id w = (w', Ok st) → shards !! N.to_nat id = Some d0 →
  sd_shard_id d0 = id → descriptor_valid d0 →
  authenticates d0 p0 → pl_entries p0 = bucket id entries →
  default ∅ (P !! id) = filter (λ '(h, _), h ∉ purged) (bucket id entries) →
  ∃ d, st = (delete id P, <[N.to_nat id := d]> shards) ∧ shard_purged purged d0 d.
Proof.
  intros Hp Hd0 Hid Hv Hau Hp0 HP. unfold purge_shard in Hp. rewrite HP, <- Hp0 in Hp.
  inv_bio_step Hp. apply or_panic_ok in Ha. rewrite Hd0 in Ha. injection Ha as <-.
  assert (Hlt : id < 1024) by (rewrite <- Hid; apply Hv).
  set (kept := filter _ (pl_entries p0)) in Hp. case_bool_decide as He.
  - inv_bio_step Hp. apply bio_ret_ok in Hp as [_ ->]. exists a. split; [done|].
    destruct (empty_descriptor_ok id Hlt) as (d & Hd & Hdv & Hdi & Hdz). rewrite Hd in Ha. injection Ha as <-.
    assert (Hnew : Payload_new (sd_shard_id d) = Ok {| pl_version := SCHEMA_VERSION_V8; pl_shard_id := id;
      pl_prefix := shard_id_to_prefix id; pl_entries := ∅ |}).
    { rewrite Hdi. unfold Payload_new. change (N.of_nat NUM_SHARDS) with 1024. by rewrite (proj2 (N.leb_gt _ _) Hlt). }
    exists p0, {| pl_version := SCHEMA_VERSION_V8; pl_shard_id := id; pl_prefix := shard_id_to_prefix id; pl_entries := ∅ |}.
    split; [done|]. split; [by apply empty_authenticates|]. by fold kept; rewrite He.
  - destruct (N.eqb_spec (sd_entry_count d0) (N.of_nat (size kept))) as [Hc|Hc]; cbn [negb] in Hp.
    + apply bio_ret_ok in Hp as [_ ->]. exists d0. rewrite list_insert_id by done. split; [done|].
      exists p0, p0. split; [done|]. split; [done|]. symmetry. apply map_subseteq_size_eq; [apply map_filter_subseteq|].
      pose proof (au_count _ _ Hau) as Hn. unfold Payload_len in Hn. fold kept. lia.
    + inv_bio_step Hp. inv_bio_step Hp. apply bio_ret_ok in Hp as [_ ->]. exists a0. split; [done|].
      unfold Payload_new in Ha. destruct (_ <=? _); [done|]. injection Ha as <-.
      apply push_shard_published in Ha0 as ((Hpub & _) & _); [|done]. by exists p0, (with_entries
        {| pl_version := SCHEMA_VERSION_V8; pl_shard_id := id; pl_prefix := shard_id_to_prefix id; pl_entries := ∅ |} kept).
Qed.

(** What a root becomes. *)
Record root_purged (purged : gset StoreHash) (roots : list StoreHash) (root0 root : ShardedArchCacheIndexData) : Prop := {
  rp_identity : ix_system root = ix_system root0 ∧ ix_repo root = ix_repo root0 ∧ ix_registry root = ix_registry root0
    ∧ ix_public_key root = ix_public_key root0;
  rp_shards : ∀ id d0, ix_shards root0 !! N.to_nat id = Some d0 →
    ∃ d, ix_shards root !! N.to_nat id = Some d ∧ shard_purged purged d0 d;
  rp_merkle : compute_merkle_root (ix_shards root) = Ok (ix_merkle_root root);
  rp_roots : ix_gc_roots root = roots }.

Lemma purge_root_purges purged roots root0 entries (w w' : W) root :
  well_sharded (ix_shards root0) →
  (∀ id d, ix_shards root0 !! N.to_nat id = Some d → ∃ p, authenticates d p ∧ pl_entries p = bucket id entries) →
  purge_root self purged roots root0 entries w = (w', Ok root) → root_purged purged roots root0 root.
Proof.
  intros Hs Hall Hp. unfold purge_root in Hp. inv_bio_step Hp. inv_bio_step Hp. inv_bio_step Hp. inv_bio_step Hp.
  apply bio_ret_ok in Hp as [_ ->]. apply partition_buckets in Ha. apply bind_ok in Ha1 as (mr & Hmr & [= <-]).
  split; simpl; [done| |done|done]. refine (shard_loop (λ _, shard_purged purged) _ _ _ _ _ _ Hs _ Ha0).
  intros P1 shards1 id w5 w6 st d0 Hc Hd1 Hd0 Hi Hv HP. destruct (Hall id d0 Hd0) as (p0 & Hau & Hp0).
  eapply purge_shard_purges; [done..|]. rewrite HP, (Ha id), <- bucket_filter. cbv zeta. unfold bucket.
  by case_decide as He; [rewrite He|].
Qed.

(** What is published for one system. *)
Definition system_purged (result : PurgeEvaluationResult)
    (arch : SystemArch * (ShardedArchCacheIndexData * gmap StoreHash IndexEntry)) (child : OciDescriptor) : Prop :=
  ∃ root digest, root_purged (list_to_set (purged_hashes result)) (default [] (updated_gc_roots result !! arch.1))
    arch.2.1 root ∧ root_published root digest ∧ child = child_descriptor arch.1 digest (ix_merkle_root root).

Lemma arch_data_loaded loaded sys root entries :
  arch_data_of loaded !! sys = Some (root, entries) → (sys, root, entries) ∈ loaded.
Proof.
  unfold arch_data_of. assert (Hgen : ∀ m : ArchData,
    foldl (λ archs '(sys, root, entries), <[sys := (root, entries)]> archs) m loaded !! sys = Some (root, entries) →
    (sys, root, entries) ∈ loaded ∨ m !! sys = Some (root, entries)).
  { induction loaded as [|[[sys' root'] entries'] l IH]; intros m Hm; [by right|]. simpl in Hm.
    apply IH in Hm as [?|Hm]; [left; by right|]. apply lookup_insert_Some in Hm as [[-> [= -> ->]]|[_ Hm]].
    - left. by left.
    - by right. }
  intros [?|Hm]%Hgen; [done|]. by rewrite lookup_empty in Hm.
Qed.

Lemma load_archs_loaded tag consts_os consts_arch (w w' : W) loaded :
  load_archs consts_os consts_arch self tag w = (w', Ok loaded) →
  Forall (λ x, ∃ w1 w2, load_system self tag x.1.1 w1 = (w2, Ok (Some x))) loaded.
Proof.
  intros Hl. unfold load_archs in Hl. apply bio_bind_ok in Hl as (w1 & systems & _ & Hl).
  apply bio_bind_ok in Hl as (w2 & rs & Hj & Hl). apply bio_ret_ok in Hl as [_ ->].
  apply try_join_all_ok in Hj. rewrite Forall2_fmap_l in Hj. apply Forall_forall. intros [[sys root] entries] Hin.
  apply list_elem_of_omap in Hin as (r & Hr & Hx). simpl in Hx. subst r. apply list_elem_of_lookup in Hr as [i Hi].
  destruct (Forall2_lookup_r _ _ _ _ _ Hj Hi) as (sys' & _ & w3 & w4 & Hload).
  pose proof (load_system_ok _ _ _ _ _ _ _ Hload) as [-> _]. by exists w3, w4.
Qed.

Lemma purge_system_ok result sys root0 entries (w w' : W) child :
  (∃ w1 w2, load_system self CACHE_INDEX sys w1 = (w2, Ok (Some (sys, root0, entries)))) →
  purge_system self result (sys, (root0, entries)) w = (w', Ok child) → system_purged result (sys, (root0, entries)) child.
Proof.
  intros (w1 & w2 & (_ & _ & Hs & Hall)%load_system_ok) Hp. unfold purge_system in Hp. inv_bio_step Hp. inv_bio_step Hp.
  apply bio_ret_ok in Hp as [_ ->]. apply push_sharded_root_published in Ha0.
  apply (purge_root_purges _ _ _ _ _ _ _ Hs Hall) in Ha. by exists a, a0.
Qed.

(** The index that the purge puts at the tag. *)
Definition index_published (children : list OciDescriptor) : Prop :=
  ∃ w w' now condition, let index := {| oi_schema_version := 2; oi_media_type := OCI_IMAGE_INDEX_MEDIA_TYPE;
      oi_manifests := children;
      oi_annotations := oi_annotations (build_image_index children (lit "NixCache Multi-Architecture Global Index") now) |} in
    index_put (W := W) self CACHE_INDEX index w = (w', Ok tt) ∨
    index_put_cas (W := W) self CACHE_INDEX index condition w = (w', Ok tt).

Lemma cas_loop_put {A B R} fuel base modulus pid max_retries attempt
    (read : IO W (option A * ManifestCasCondition)) (mutator : option A → IO W B)
    (put : B → ManifestCasCondition → IO W R) (w w' : W) x :
  cas_loop fuel base modulus pid max_retries attempt read mutator put w = (w', Ok (Some x)) →
  ∃ w1 w2 seen c b, mutator seen w1 = (w2, Ok b) ∧ put b c w2 = (w', Ok x).
Proof.
  revert attempt w. induction fuel as [|fuel IH]; intros attempt w; cbn [cas_loop]; [done|].
  intros Hl. apply io_bind_ok in Hl as (w0 & attempt' & Ha & Hl). apply lift_ok in Ha as [-> _].
  apply io_bind_ok in Hl as (w1 & [seen c] & Hr & Hl). apply io_bind_ok in Hl as (w2 & b & Hm & Hl).
  apply io_bind_ok in Hl as (w3 & result & Hres & Hl). unfold io_catch in Hres. simpl in Hm, Hres.
  destruct (put b c w2) as [w4 o] eqn:Hp. injection Hres as <- <-.
  destruct o as [y|e|]; [|destruct e; try done|done].
  { injection Hl as <- <-. by exists w1, w2, seen, c, b. }
  destruct (_ <=? _); [|done]. apply io_bind_ok in Hl as (w5 & u & _ & Hl). by eapply IH.
Qed.

Lemma global_index_ok children seen (w w' : W) index : global_index children seen w = (w', Ok index) →
  ∃ now, index = {| oi_schema_version := 2; oi_media_type := OCI_IMAGE_INDEX_MEDIA_TYPE; oi_manifests := children;
    oi_annotations := oi_annotations (build_image_index children (lit "NixCache Multi-Architecture Global Index") now) |}.
Proof.
  intros Hg. unfold global_index in Hg. apply io_bind_ok in Hg as (w5 & now & _ & Hg). injection Hg as _ <-. by exists now.
Qed.

Lemma apply_purge_ok pid result archs (w w' : W) :
  map_Forall (λ sys a, ∃ w1 w2, load_system self CACHE_INDEX sys w1 = (w2, Ok (Some (sys, a.1, a.2)))) archs →
  apply_purge self pid result archs w = (w', Ok (Some tt)) →
  ∃ children, Forall2 (system_purged result) (hash_iter archs) children ∧ index_published children.
Proof.
  intros Hall Ha. unfold apply_purge in Ha. apply bio_bind_ok in Ha as (w1 & children & Hj & Ha).
  exists children. apply try_join_all_ok in Hj. rewrite Forall2_fmap_l in Hj. split.
  - clear Ha. assert (Hin : ∀ x, x ∈ hash_iter archs → archs !! x.1 = Some x.2) by (intros [??]; apply elem_of_hash_iter).
    revert Hin Hj. generalize (hash_iter archs) as l. intros l Hin Hj.
    induction Hj as [|[sys [root0 entries]] child l cs (w2 & w3 & Hp) _ IH]; constructor.
    + eapply purge_system_ok; [|exact Hp]. destruct (Hall sys (root0, entries)) as (w4 & w5 & Hl); [by apply (Hin (sys, _)); left|].
      by exists w4, w5.
    + apply IH. intros x Hx. apply Hin. by right.
  - destruct (manifest_cas_support _).
    + apply oci_ok in Ha. unfold update_cas in Ha. apply io_bind_ok in Ha as (w2 & u & _ & Ha).
      apply cas_loop_put in Ha as (w3 & w4 & seen & c & index & (now & ->)%global_index_ok & Hput).
      exists w4, w', now, c. by right.
    + apply bio_bind_ok in Ha as (w2 & [] & Hu & _). apply oci_ok in Hu. unfold update_single_writer in Hu.
      apply io_bind_ok in Hu as (w3 & artifact & _ & Hu). apply io_bind_ok in Hu as (w4 & index & Hg & Hput).
      apply global_index_ok in Hg as [now ->]. exists w4, w2, now, CreateOnly. by left.
Qed.
End facts.

(** A dry run keeps what its reads keep. *)
Lemma keep_dry_run {W : Type} `{HttpHeaders} `{UriLib} `{UnicodeCase} `{UnicodeAlpha} `{!TransportOps W}
    `{!TokenOps W} `{!ClockOps W} `{!DeleteOps W} `{!Unordered W} `{!JoinAll W} `{!UtcNow W} `{!Processes W} `{!FsPaths W} `{Sha2}
    `{Chrono} `{ChronoArith} `{HashIter} `{Build} `{Zstd} `{ZstdEncoder} `{SerdeErrors} `{OciFormat} `{JsonValue}
    `{!NixJson} `{!Serde DiscoveredFlakeOutputs} `{!Serde OciImageIndex} `{!Serde OciImageManifest} `{!Serde (option (list (list N)))}
    `{!Serde (list GitHubPackageVersion)} `{!Serde ShardedArchCacheIndexData} `{!Serde ShardDataPayload}
    (consts_os consts_arch : list N) env args (auth_token : list N) pid fuel (repo registry : list N)
    (R : W → W → Prop) (Hreads : ReadsKeep R) (Hnow : ∀ w, R w (utc_now w).1)
    (Hnix : ProcessesKeep R)
    (Hdry : resolve_dry_run env args = true) :
  bio_keeps R (run_purge consts_os consts_arch env args auth_token pid fuel repo registry).
Proof.
  unfold run_purge, purge_package, purge_entries, purge_selector, load_archs, load_system, purge_systems. rewrite Hdry.
  repeat first [apply (keep_flake_hashes R) | bio_keep_step R]. all: first [apply Hnow | done].
Qed.

(** ** Properties *)

(** C23: a dry run of [purge] reads only.  Any preorder on the worlds that the GET and HEAD
    requests, the token requests, the clock and the [nix] processes that evaluate a flake keep is kept by
    the whole command, on every path and whether it succeeds or not: nothing is uploaded,
    put or deleted, neither with [--all] nor with a selection. *)
Theorem dry_run_read_only {W : Type} `{HttpHeaders} `{UriLib} `{UnicodeCase} `{UnicodeAlpha} `{!TransportOps W}
    `{!TokenOps W} `{!ClockOps W} `{!DeleteOps W} `{!Unordered W} `{!JoinAll W} `{!UtcNow W} `{!Processes W} `{!FsPaths W} `{Sha2}
    `{Chrono} `{ChronoArith} `{HashIter} `{Build} `{Zstd} `{ZstdEncoder} `{SerdeErrors} `{OciFormat} `{JsonValue}
    `{!NixJson} `{!Serde DiscoveredFlakeOutputs} `{!Serde OciImageIndex} `{!Serde OciImageManifest} `{!Serde (option (list (list N)))}
    `{!Serde (list GitHubPackageVersion)} `{!Serde ShardedArchCacheIndexData} `{!Serde ShardDataPayload}
    (consts_os consts_arch : list N) env args (auth_token : list N) pid fuel (repo registry : list N)
    (R : W → W → Prop) (Hreads : ReadsKeep R) (Hnow : ∀ w, R w (utc_now w).1)
    (Hnix : ProcessesKeep R)
    (Hdry : resolve_dry_run env args = true) (w : W) :
  R w (run_purge consts_os consts_arch env args auth_token pid fuel repo registry w).1.
Proof.
  by apply keep_dry_run.
Qed.


(** ** Witnesses: a cache of one entry, purged by its hash *)

Section samples.
#[local] Existing Instance flat_sha2.
#[local] Existing Instance flat_sha2_ok.
#[local] Existing Instance Types.sample_chrono.
#[local] Existing Instance plain_arith.
#[local] Existing Instance map_order.
#[local] Existing Instance sample_http.
#[local] Existing Instance sample_uri.
#[local] Existing Instance ascii_case.
#[local] Existing Instance ascii_alpha.
#[local] Existing Instance sample_build.
#[local] Existing Instance sample_errors.
#[local] Existing Instance sample_format.
#[local] Existing Instance served_zstd.
#[local] Existing Instance sample_encoder.
#[local] Existing Instance sample_index_serde.
#[local] Existing Instance sample_tags_serde.
#[local] Existing Instance gh_serde.
#[local] Existing Instance repo_json.

#[local] Existing Instance served_manifest_serde.
#[local] Instance served_root_serde : Serde ShardedArchCacheIndexData := {|
  to_json := λ _, Ok [114]; from_json_str := λ _, Err []; from_json_slice := λ _, map_err (λ _, []) served_root |}.
#[local] Instance served_payload_serde : Serde ShardDataPayload := {|
  to_json := λ _, Ok [115]; from_json_str := λ _, Err []; from_json_slice := λ _, Ok sample_payload |}.

(** The world counts the requests that write. *)
Notation World := N (only parsing).
#[local] Instance served_tokens : TokenOps World := {|
  tm_cached_token := λ w, (w, None); tm_refresh_token := λ _ w, (w, Ok []) |}.
#[local] Instance served_transport : TransportOps World :=
  let accepted {A} (w : World) : World * outcome TransportError (StatusCode * list A) := (w + 1, Ok (201, [])) in
  @Build_TransportOps World sample_http (λ _ _ w, (w, Ok (404, [])))
    (λ url _ _ w, (w, Ok (200, [], if contains (lit "/manifests/") url then [109] else ZSTD_MAGIC ++ [114])))
    (λ _ _ _ w, (w, Err (TransportIo []))) (λ _ _, accepted) (λ _ _ _, accepted) (λ _ _ _, accepted)
    (λ _ _ _ _ w, (w + 1, Err (TransportIo []))) (λ _ _ _, accepted) (λ _ _, accepted) (λ _ w, w).
#[local] Instance served_deletes : DeleteOps World := @Build_DeleteOps World sample_http (λ _ _ w, (w + 1, Ok 404)).
#[local] Instance served_clock : ClockOps World := {| clock_now := λ w, (w, lit "2024-01-01T00:00:00Z") |}.
#[local] Instance served_utc : UtcNow World := {| utc_now := λ w, (w, 29%Z) |}.
#[local] Existing Instance no_processes.
#[local] Existing Instance no_paths.
#[local] Existing Instance no_nix_json.
#[local] Existing Instance no_outputs_serde.
#[local] Existing Instance in_order.
#[local] Existing Instance in_turn.

Definition purge_by_hash (dry_run : bool) : PurgeArgs := {|
  pa_selector := {| sa_all := false; sa_hashes := Some sample_hash; sa_patterns := []; sa_system := [];
    sa_flake_path := None; sa_attributes := None; sa_older_than := None; sa_newer_than := None; sa_min_size := None;
    sa_max_size := None; sa_origin_job := []; sa_origin_run := []; sa_cascade := None; sa_protect_gc_roots := false |};
  pa_delete_blobs := false; pa_strict := None; pa_no_strict := false; pa_dry_run := dry_run |}.
Definition sample_purge (dry_run : bool) : World * outcome BuilderError (option unit) :=
  run_purge (lit "linux") (lit "x86_64") no_env (purge_by_hash dry_run) [] 1 0 (lit "owner/cache")
    (lit "us-docker.pkg.dev") 0.

Lemma sample_purged : sample_purge false = (3, Ok (Some tt)).
Proof. vm_cast_no_check (eq_refl (3, @Ok BuilderError _ (Some tt))). Qed.

(** The purge takes the way that rewrites. *)
Definition sample_selects : bool :=
  match create_tokio_reqwest_client (lit "us-docker.pkg.dev") (lit "owner/cache") with
  | Ok self =>
      match load_archs (W := World) (lit "linux") (lit "x86_64") self CACHE_INDEX 0 with
      | (w1, Ok loaded) =>
          match purge_selector no_env (purge_by_hash false) w1 with
          | (_, Ok selector) =>
              match evaluate_cache_purge (all_entries_of loaded) (all_gc_roots_of loaded) selector with
              | Ok result => negb (bool_decide (all_entries_of loaded = ∅)) && negb (bool_decide (purged_entries result = ∅))
              | _ => false
              end
          | _ => false
          end
      | _ => false
      end
  | _ => false
  end.
Lemma sample_selected : sample_selects = true.
Proof. vm_cast_no_check (eq_refl true). Qed.


Lemma dry_run_read_only_witness : (sample_purge true).1 = 0.
Proof.
  assert (Hk : ReadsKeep (W := World) eq) by (split; [apply _|done..]).
  assert (Hp : ProcessesKeep (W := World) eq) by (split; [apply _|done..]).
  pose proof (dry_run_read_only (W := World) (lit "linux") (lit "x86_64") no_env (purge_by_hash true) [] 1 0
    (lit "owner/cache") (lit "us-docker.pkg.dev") eq Hk (λ _, eq_refl) Hp eq_refl 0) as Hr.
  unfold sample_purge. rewrite <- Hr. reflexivity.
Defined.
End samples.
