(* ===== verification/Export.v ===== *)
(** * Export: store paths compressed and uploaded as they are read
    (crates/nixcache-builder/src/nix/exporter.rs)

    A path is dumped by [nix-store], compressed by a task of its own and pushed through a
    pipe; the entry of the index is made from the digest of what was pushed. *)

From S2P Require Import Prelude Machine Str Text Error Types Sharding Index Lookup NixFilter OciError Transport Endpoint Auth Request Driver Upload Manifest ManifestClient IndexClient Ghcr Discovery Builder Promote Nix.

Local Open Scope N_scope.

(** ** Interfaces *)

(** The encoder of [async_compression] over a writer: what a call writes out, and whether
    it fails. *)
Class AsyncZstd := {
  Encoder : Type;
  encoder_with_quality : Z → Encoder;
  encoder_write_all : Encoder → list N → Encoder * list N * outcome (list N) unit;
  encoder_shutdown : Encoder → list N * outcome (list N) unit }.
(** What the data given to an encoder, all accepted, has made it write. *)
Inductive encoder_wrote `{AsyncZstd} (level : Z) : list N → Encoder → list N → Prop :=
  | wrote_nothing : encoder_wrote level [] (encoder_with_quality level) []
  | wrote_more data enc out buf enc' more : encoder_wrote level data enc out →
      encoder_write_all enc buf = (enc', more, Ok tt) → encoder_wrote level (data ++ buf) enc' (out ++ more).
(** Documented: what is written until the end of [shutdown] is a frame of the data. *)
Class AsyncZstdOk `{AsyncZstd} `{Zstd} : Prop :=
  async_zstd_roundtrip level data enc out last :
    encoder_wrote level data enc out → encoder_shutdown enc = (last, Ok tt) →
    ∃ decoder, zstd_open (out ++ last) = Ok decoder ∧ ∀ n, zstd_read decoder n = Ok (take (N.to_nat n) data).

(** [tokio::io::duplex] read through a [ReaderStream]: the bytes that were written, in
    pieces. *)
Class DuplexPipe (W : Type) := {
  pipe_items : list N → W → W * list (list N);
  pipe_items_concat : ∀ bytes w, concat (pipe_items bytes w).2 = bytes }.

(** ** Data *)

Record ParallelExportConfig := {
  pe_concurrency : N;
  pe_signing_key_file : option (list N);
  pe_strict : bool;
  pe_upload_config : UploadConfig;
  pe_system : SystemArch;
  pe_origin : option OriginMetadata }.
Definition adaptive_concurrency (cpus : N) : N := if cpus <=? 2 then 2 else if cpus <=? 4 then 3 else 4.
Definition ParallelExportConfig_default_adaptive (cpus : N) (consts_os consts_arch : list N) : ParallelExportConfig := {|
  pe_concurrency := adaptive_concurrency cpus; pe_signing_key_file := None; pe_strict := false;
  pe_upload_config := UploadConfig_default; pe_system := SystemArch_detect_current consts_os consts_arch;
  pe_origin := None |}.

Record ExportedStorePath := { ex_store_hash : StoreHash; ex_index_entry : IndexEntry; ex_file_size : N }.
(** A failure keeps the error itself instead of its text; the elapsed time is left out. *)
Record ParallelExportReport := {
  er_successful : list ExportedStorePath;
  er_failed : list (list N * BuilderError);
  er_total_bytes_uploaded : N }.
Definition ParallelExportReport_default : ParallelExportReport := {|
  er_successful := []; er_failed := []; er_total_bytes_uploaded := 0 |}.

Definition invalid_store_path (path : list N) : BuilderError :=
  BuilderNarInfo (lit "Invalid / unexpected store path '" ++ path ++ lit "'").
Definition zstd_failure (e : list N) : BuilderError := BuilderCompression (lit "Zstd compression stream failure: " ++ e).

(** ** The compressing task *)

Section compress.
Context `{AsyncZstd} `{Build}.

(** The encoder and what was written when the copy ends, and its result: the bytes read.
    The end of the input is a read of no bytes. *)
Fixpoint copy_nar_stream (reads : list (outcome (list N) (list N))) (writer : Encoder) (out : list N) (total_bytes : N)
    : Encoder * list N * outcome (list N) N :=
  match reads with
  | [] => (writer, out, Ok total_bytes)
  | Ok buf :: reads =>
      if is_empty buf then (writer, out, Ok total_bytes)
      else
        let '(writer, more, written) := encoder_write_all writer buf in
        match written with
        | Ok _ =>
            match arith_add u64_bound total_bytes (usize_len buf) with
            | Ok total_bytes => copy_nar_stream reads writer (out ++ more) total_bytes
            | Err e => (writer, out ++ more, Err e)
            | Panic => (writer, out ++ more, Panic)
            end
        | Err e => (writer, out ++ more, Err e)
        | Panic => (writer, out ++ more, Panic)
        end
  | Err e :: _ => (writer, out, Err e)
  | Panic :: _ => (writer, out, Panic)
  end.

(** The spawned task: what it writes into the pipe, and its result. *)
Definition compress_task (reads : list (outcome (list N) (list N))) : list N * outcome BuilderError unit :=
  let '(encoder, out, res) := copy_nar_stream reads (encoder_with_quality 3) [] 0 in
  match res with
  | Panic => (out, Panic)
  | _ =>
      let '(last, shutdown_res) := encoder_shutdown encoder in
      (out ++ last,
       match res, shutdown_res with
       | Err e, _ => Err (zstd_failure e)
       | _, Err e => Err (zstd_failure e)
       | _, Panic => Panic
       | _, Ok _ => Ok tt
       end)
  end.
End compress.

(** ** The exporter *)

Section exporter.
Context {W : Type} `{HttpHeaders} `{UriLib} `{!TransportOps W} `{!TokenOps W} `{!UtcNow W}.
Context `{!Processes W} `{!FsPaths W} `{!Fs W} `{!EnvVars W} `{!Concurrent W} `{!DuplexPipe W}.
Context `{Sha2} `{Chrono} `{HashIter} `{Build} `{AsyncZstd} `{NixJson}.

(** [&s[n..]]; [None] is the panic. *)
Definition slice_from (n : nat) (s : list N) : option (list N) :=
  prefix ← slice_to n s; Some (drop (length prefix) s).

(** The name, the hash and its text. *)
Definition export_names (store_path : list N) : outcome BuilderError (list N * list N * StoreHash) :=
  file_name ← ok_or (invalid_store_path store_path) (file_name store_path);
  _ ← ensure (32 <=? str_len file_name)%nat (invalid_store_path (lit "Path name too short: " ++ file_name));
  hash ← or_panic (slice_to 32 file_name);
  store_hash ← map_err (λ e, BuilderCore (TypeErr e)) (StoreHash_parse hash);
  rest ← or_panic (slice_from 32 file_name);
  _ ← ensure (starts_with (lit "-") rest) (invalid_store_path store_path);
  Ok (file_name, hash, store_hash).

Definition dump_command (store_path : list N) : Command :=
  {| cmd_program := lit "nix-store"; cmd_args := [lit "--dump"; store_path]; cmd_envs := [] |}.

(** What is pushed: its digest and size, once the dump and the compression have succeeded
    too.  The fuel of the upload is never used up ([push_resumable_returns]). *)
Definition stream_dump (self : OciClient) (upload_config : UploadConfig) (store_path : list N)
    : BIO W (ContentDigest * N) :=
  spawned ← bio_call (process_spawn (dump_command store_path));
  dump_proc ← fail (map_err (λ e, BuilderNix (NixProcess e)) spawned);
  reads ← bio_call (child_reads dump_proc);
  let '(written, compressed) := compress_task reads in
  items ← bio_call (pipe_items written);
  pushed ← oci (push_resumable self (Ok <$> items) upload_config);
  match pushed with
  | None => fail Panic
  | Some (nar_digest, nar_size) =>
      _ ← fail (join_result compressed);
      waited ← bio_call (child_wait dump_proc);
      dump_status ← fail (map_err (λ e, BuilderNix (NixProcess e)) waited);
      if negb (es_success dump_status)
      then exit_failure (lit "nix-store --dump " ++ store_path) dump_status []
      else mret (nar_digest, nar_size)
  end.

Definition export_single_item_stream (item : NixPathInfoItem) (self : OciClient) (upload_config : UploadConfig)
    (system : SystemArch) (origin : option OriginMetadata) : BIO W ExportedStorePath :=
  let store_path := pi_path item in
  names ← fail (export_names store_path);
  let '(fname, hash, store_hash) := names in
  pushed ← stream_dump self upload_config store_path;
  let '(nar_digest, nar_size) := pushed in
  nar_digest_obj ← core (map_err TypeErr (NarDigest_parse (cd_str nar_digest)));
  deriver_bname ← fail (match pi_deriver item with
                        | Some deriver => Some <$> ok_or (invalid_store_path deriver) (file_name deriver)
                        | None => Ok None
                        end);
  let meta := {|
    store_path := store_path; nar_basename := hash ++ lit ".nar.zst"; compression := Some (lit "zstd");
    file_hash := Some (NarDigest_as_str nar_digest_obj); file_size := Some nar_size;
    nar_hash := pi_nar_hash item; references := normalized_references item; deriver := deriver_bname;
    signatures := pi_signatures item; ca := pi_ca item |} in
  name ← fail (ok_or (invalid_store_path store_path) (snd <$> split_once 45 fname));
  now ← bio_call utc_now;
  let index_entry := {|
    name := name; system := Some system; narinfo_meta := meta; nar_digest := nar_digest_obj;
    nar_size := N.max nar_size (pi_nar_size item); added := to_rfc3339_secs now; Types.origin := origin |} in
  _ ← core (IndexEntry_validate_structure index_entry);
  mret {| ex_store_hash := store_hash; ex_index_entry := index_entry; ex_file_size := nar_size |}.

(** A result that has come in. *)
Definition take_export (strict : bool) (report : ParallelExportReport)
    (result : list N * outcome BuilderError ExportedStorePath) : BIO W ParallelExportReport :=
  match result.2 with
  | Ok exported =>
      total ← fail (arith_add u64_bound (er_total_bytes_uploaded report) (ex_file_size exported));
      mret {| er_successful := er_successful report ++ [exported]; er_failed := er_failed report;
              er_total_bytes_uploaded := total |}
  | Err e =>
      if strict then fail (Err e)
      else mret {| er_successful := er_successful report; er_failed := er_failed report ++ [(result.1, e)];
                   er_total_bytes_uploaded := er_total_bytes_uploaded report |}
  | Panic => fail Panic
  end.

(** [nix store sign] in batches; a batch that fails is only warned about. *)
Definition batch_sign_paths (paths : list (list N)) (key_file : list N) : BIO W unit :=
  bio_fold (λ _ chunk,
    _ ← io (process_status (nix_command ([lit "store"; lit "sign"; lit "--key-file"; key_file] ++ chunk))); mret tt)
    tt (chunks 128 paths).

Definition export_and_upload_paths_with_preinfo (items : list NixPathInfoItem) (self : OciClient)
    (config : ParallelExportConfig) : BIO W ParallelExportReport :=
  if bool_decide (items = []) then mret ParallelExportReport_default
  else
    _ ← match pe_signing_key_file config with
        | Some key => batch_sign_paths (pi_path <$> items) key
        | None => mret tt
        end;
    results ← bio_call (run_unordered (N.max (pe_concurrency config) 1)
      ((λ item, (pi_path item, export_single_item_stream item self (pe_upload_config config) (pe_system config)
                                 (pe_origin config))) <$> items));
    bio_fold (take_export (pe_strict config)) ParallelExportReport_default results.

Definition batch_fetch_path_infos_typed (paths : list (list N)) (batch_size : N) : BIO W (list NixPathInfoItem) :=
  if bool_decide (paths = []) then mret []
  else
    let bsize := if batch_size =? 0 then 128 else batch_size in
    bio_fold (λ all chunk, items ← path_info_query [lit "path-info"; lit "--json"] (lit "nix path-info") chunk; mret (all ++ items))
      [] (chunks (N.to_nat bsize) paths).

Definition export_and_upload_paths (paths : list (list N)) (self : OciClient) (config : ParallelExportConfig)
    : BIO W ParallelExportReport :=
  if bool_decide (paths = []) then mret ParallelExportReport_default
  else
    _ ← match pe_signing_key_file config with Some key => batch_sign_paths paths key | None => mret tt end;
    items ← batch_fetch_path_infos_typed paths 128;
    export_and_upload_paths_with_preinfo items self {|
      pe_concurrency := pe_concurrency config; pe_signing_key_file := None; pe_strict := pe_strict config;
      pe_upload_config := pe_upload_config config; pe_system := pe_system config; pe_origin := pe_origin config |}.

(** The signatures after signing, put into the items that are still there. *)
Definition batch_sign_and_inject_signatures (items : list NixPathInfoItem) (signing_key_file : list N)
    : BIO W (list NixPathInfoItem) :=
  if bool_decide (items = []) then mret items
  else
    let paths := pi_path <$> items in
    _ ← batch_sign_paths paths signing_key_file;
    key ← bio_call (fs_read_to_string signing_key_file);
    _ ← fail (map_err (λ e, BuilderSigning (lit "Signing key file I/O failure: " ++ e)) key);
    updated_infos ← get_path_infos_typed paths;
    let sig_map : gmap (list N) (list (list N)) :=
      foldl (λ m info, <[pi_path info := pi_signatures info]> m) ∅ updated_infos in
    mret ((λ item, match sig_map !! pi_path item with Some sigs => with_signatures item sigs | None => item end) <$> items).
End exporter.

(** ** Facts: names *)

Lemma slice_to_Some n s p : slice_to n s = Some p → s = p ++ drop (length p) s ∧ str_len p = n.
Proof.
  revert n p. induction s as [|c s IH]; intros [|n] p; cbn [slice_to]; try (by intros [= <-]).
  destruct (Nat.ltb_spec (S n) (length (utf8_char c))) as [|Hle]; [done|].
  destruct (slice_to _ s) as [q|] eqn:Hq; [|done]. intros [= <-]. apply IH in Hq as [Hs Hl]. simpl.
  split; [by rewrite <- Hs|]. unfold str_len in *. rewrite utf8_cons, length_app, Hl. lia.
Qed.

(** A text of 32 bytes that is a hash is its own trimmed text. *)
Lemma parse_full_hash s h : str_len s = 32%nat → StoreHash_parse s = Ok h → StoreHash_as_str h = s ∧ valid_store_hash s.
Proof.
  intros Hl [Hh Hv]%StoreHash_parse_ok. enough (trim s = s) as Heq by (by rewrite Heq in Hh, Hv).
  destruct (trim_spec s) as (p & q & Hs & _). assert (Hlen : str_len (trim s) = 32%nat).
  { destruct Hv as [Hlen Hall]. unfold str_len. by rewrite nix_base32_utf8. }
  rewrite Hs in Hl. rewrite !utf8_len_app, Hlen in Hl. assert (Hz : ∀ t, str_len t = 0%nat → t = []).
  { intros [|c t]; [done|]. unfold str_len. rewrite utf8_cons, length_app. unfold utf8_char. repeat case_match; simpl; lia. }
  rewrite (Hz p), (Hz q) in Hs by lia. by rewrite app_nil_r in Hs.
Qed.

Lemma split_first_unique c (a b a' b' : list N) : c ∉ a → c ∉ a' → a ++ c :: b = a' ++ c :: b' → a = a' ∧ b = b'.
Proof.
  intros Ha Ha' Heq. assert (Hs : split_once c (a ++ c :: b) = Some (a, b)) by (by apply split_once_Some).
  rewrite Heq in Hs. assert (Hs' : split_once c (a' ++ c :: b') = Some (a', b')) by (by apply split_once_Some).
  rewrite Hs' in Hs. by injection Hs as <- <-.
Qed.

(** The name of a store path that is exported. *)
Lemma export_names_ok path fname hash sh : export_names path = Ok (fname, hash, sh) →
  file_name path = Some fname ∧ hash = StoreHash_as_str sh ∧ valid_store_hash hash ∧ ∃ rest, fname = hash ++ 45 :: rest.
Proof.
  unfold export_names. intros Hn. apply bind_ok in Hn as (fn & Hf%ok_or_ok & Hn). apply bind_ok in Hn as (u & _ & Hn).
  apply bind_ok in Hn as (h & Hh%or_panic_ok & Hn). apply bind_ok in Hn as (sh' & Hs%map_err_ok & Hn).
  apply bind_ok in Hn as (rest & Hr%or_panic_ok & Hn). apply bind_ok in Hn as (u' & Hd & Hn). injection Hn as <- <- <-.
  pose proof (slice_to_Some _ _ _ Hh) as [Hfn Hlen]. apply (parse_full_hash _ _ Hlen) in Hs as [Hs Hv].
  split; [done|]. split; [done|]. split; [done|]. unfold slice_from in Hr. rewrite Hh in Hr. injection Hr as Hr.
  unfold ensure in Hd. destruct (starts_with (lit "-") rest) eqn:Hst; [|done]. apply starts_with_true in Hst as [r Hst].
  exists r. rewrite Hr in Hfn. by rewrite Hfn, Hst.
Qed.

Lemma export_names_key {E} item fname hash sh : export_names (pi_path item) = Ok (fname, hash, sh) →
  @PathInfo_store_hash E item = Ok (Some sh).
Proof.
  intros (Hf & -> & Hv & rest & ->)%export_names_ok. unfold PathInfo_store_hash. rewrite Hf. destruct Hv as [Hl Hall].
  assert (Ha : Forall is_ascii (StoreHash_as_str sh)).
  { eapply Forall_impl; [exact Hall|]. intros c Hc. by apply nix_base32_char_facts in Hc as [? _]. }
  assert (Nat.leb 32 (str_len (StoreHash_as_str sh ++ 45 :: rest)) = true) as ->.
  { apply Nat.leb_le. rewrite utf8_len_app. unfold str_len at 1. rewrite utf8_ascii by done. lia. }
  rewrite slice_to_ascii by (done || lia). rewrite take_ge by lia. simpl.
  rewrite StoreHash_parse_valid by done. by destruct sh.
Qed.

(** The hash under which a valid entry is exported is its own. *)
Lemma export_names_identity path fname hash sh h : export_names path = Ok (fname, hash, sh) →
  validate_store_path path = Ok h → h = sh.
Proof.
  intros (Hf & Hsh & Hv & rest & Hname)%export_names_ok (b & -> & H47 & H92 & Hb)%validate_store_path_ok.
  apply validate_store_path_basename_ok in Hb as (hash' & nm & -> & H45 & Hsafe & Hp).
  assert (Hne : ∀ t, hash' ++ 45 :: nm = t → (45 ∉ t) → False).
  { intros t <- Hnin. apply Hnin, elem_of_app. right. by left. }
  rewrite file_name_store in Hf; [|by destruct hash'|done|by intros Hq; eapply Hne; [done|]; apply (bool_decide_unpack _); vm_compute..].
  injection Hf as <-. apply split_first_unique in Hname as [-> ->]; [|done|].
  - rewrite StoreHash_parse_valid in Hp by done. injection Hp as <-. rewrite Hsh. by destruct sh.
  - intros Hin. destruct Hv as [_ Hall]. rewrite Forall_forall in Hall. apply Hall in Hin. by vm_compute in Hin.
Qed.

(** ** Facts: what is compressed *)

(** The data of a stream that is read to its end without an error. *)
Fixpoint stream_data (reads : list (outcome (list N) (list N))) : option (list N) :=
  match reads with
  | [] => Some []
  | Ok buf :: reads => if is_empty buf then Some [] else rest ← stream_data reads; Some (buf ++ rest)
  | _ :: _ => None
  end.
(** The bytes are a frame of the data. *)
Definition frame_of `{Zstd} (frame data : list N) : Prop :=
  ∃ decoder, zstd_open frame = Ok decoder ∧ ∀ n, zstd_read decoder n = Ok (take (N.to_nat n) data).

Section compressed.
Context `{AsyncZstdOk} `{Build}.

Lemma copy_nar_stream_ok level reads enc out total data enc' out' n :
  encoder_wrote level data enc out → copy_nar_stream reads enc out total = (enc', out', Ok n) →
  ∃ more, stream_data reads = Some more ∧ encoder_wrote level (data ++ more) enc' out'.
Proof.
  revert enc out total data. induction reads as [|[buf|e|] reads IH]; intros enc out total data Hw; simpl; try done.
  { intros [= <- <- _]. exists []. by rewrite app_nil_r. }
  destruct (is_empty buf). { intros [= <- <- _]. exists []. by rewrite app_nil_r. }
  destruct (encoder_write_all enc buf) as [[enc1 more] [[]|e|]] eqn:He; try done.
  destruct (arith_add _ _ _) as [total'|e|]; try done. intros Hc.
  apply (IH _ _ _ (data ++ buf)) in Hc as (rest & -> & Hc); [|by eapply wrote_more].
  exists (buf ++ rest). by rewrite app_assoc.
Qed.

(** A compressing task that succeeds has written a frame of all that was dumped. *)
Lemma compress_task_ok reads frame : compress_task reads = (frame, Ok tt) →
  ∃ data, stream_data reads = Some data ∧ frame_of frame data.
Proof.
  unfold compress_task. destruct (copy_nar_stream _ _ _ _) as [[enc out] [n|e|]] eqn:Hc; [| |done].
  - destruct (encoder_shutdown enc) as [last [[]|e|]] eqn:Hs; [|done..]. intros [= <-].
    eapply copy_nar_stream_ok in Hc as (data & Hd & Hw); [|apply wrote_nothing].
    exists data. split; [done|]. by eapply async_zstd_roundtrip.
  - by destruct (encoder_shutdown enc) as [last [[]|e'|]].
Qed.
End compressed.

(** ** Facts: the digest of an upload *)

Section digest.
Context {W : Type} `{HttpHeaders} `{UriLib} `{!TransportOps W} `{!TokenOps W} `{Sha2} `{Build}.
Context (self : OciClient) (items : list (outcome TransportError (list N))).
Context (Hnp : Forall (λ item, item ≠ Panic) items).

Lemma send_chunks_hashed fuel config limit offset pre buf stream (s s' : list N * W) stream' :
  hashing_inv items stream → hs_hasher stream = pre ++ buf →
  send_chunks self fuel config limit offset buf stream s = (s', Ok (Some stream')) → hashing_inv items stream'.
Proof.
  revert offset pre buf stream s. induction fuel as [|fuel IH]; intros offset pre buf stream s Hi Hh; cbn [send_chunks]; [done|].
  destruct (fill_chunk limit buf stream) as [[filled stream1]|] eqn:Hfc; [|done].
  intros Hr. apply io_bind_ok in Hr as (s1 & [buf1 ended] & Hf & Hr). apply lift_ok in Hf as [-> ->].
  eapply (fill_chunk_hashed items Hnp _ pre) in Hfc as [Hi1 Hh1]; [|done..].
  destruct (is_empty buf1). { by injection Hr as _ <-. }
  apply io_bind_ok in Hr as (s2 & res & _ & Hr). destruct res as [u|]; [|done].
  apply io_bind_ok in Hr as (s3 & off & _ & Hr). destruct ended; [by injection Hr as _ <-|].
  eapply (IH _ (pre ++ take _ buf1)); [done| |exact Hr]. by rewrite <- app_assoc, take_drop.
Qed.

(** Whatever the registry answers, an upload that returns has read the stream to its end
    and gives its digest and its length. *)
Lemma push_resumable_digest config (w w' : W) d size :
  push_resumable self items config w = (w', Ok (Some (d, size))) →
  ∃ chunks, items = Ok <$> chunks ∧ d = ContentDigest_from_bytes (concat chunks) ∧
    size = wrap64 (usize_len (concat chunks)).
Proof.
  intros Hp. unfold push_resumable in Hp. apply io_bind_ok in Hp as (w0 & cap & _ & Hp).
  destruct (fill_buffer _ _ _ _) as [[filled stream1]|] eqn:Hf; [|done].
  apply io_bind_ok in Hp as (w1 & [buffer ended] & Hfl & Hp). apply lift_ok in Hfl as [-> ->].
  eapply (fill_buffer_hashed items Hnp _ _ []) in Hf as [Hi1 Hh1]; [|apply hashing_inv_new|done].
  destruct (_ || _).
  - destruct (fill_buffer _ _ buffer stream1) as [[filled2 stream2]|] eqn:Hf2; [|done].
    apply io_bind_ok in Hp as (w2 & [buffer2 ended2] & Hfl2 & Hp). apply lift_ok in Hfl2 as [-> ->].
    eapply (fill_buffer_hashed items Hnp _ _ []) in Hf2 as [Hi2 Hh2]; [|done|done].
    apply io_bind_ok in Hp as (w3 & sd & Hd & Hp). apply lift_ok in Hd as [-> Hd%ok_or_ok].
    destruct (hashing_inv_digest _ _ _ Hi2 Hd) as (chunks & Hitems & -> & _ & Hbytes).
    apply io_bind_ok in Hp as (w4 & pd & _ & Hp). destruct (negb _); [done|]. injection Hp as _ <- <-.
    by exists chunks.
  - apply io_bind_ok in Hp as (w2 & url & _ & Hp). unfold run_session in Hp.
    destruct (chunked_upload _ _ _ _ _ _ (url, w2)) as [[url3 w3] o] eqn:Hc.
    destruct o as [r|e|]; [|by apply io_bind_ok in Hp as (? & ? & _ & ?)|done]. injection Hp as <- ->.
    unfold chunked_upload in Hc. apply io_bind_ok in Hc as (s1 & res & Hsend & Hc). destruct res as [stream2|]; [|done].
    eapply (send_chunks_hashed _ _ _ _ []) in Hsend as Hi2; [|done..].
    apply io_bind_ok in Hc as (s2 & fd & Hd & Hc). apply lift_ok in Hd as [-> Hd%ok_or_ok].
    destruct (hashing_inv_digest _ _ _ Hi2 Hd) as (chunks & Hitems & -> & _ & Hbytes).
    apply io_bind_ok in Hc as (s3 & u & _ & Hc). apply io_bind_ok in Hc as (s4 & h & _ & Hc).
    apply io_bind_ok in Hc as (s5 & status & _ & Hc). destruct (_ || _); [|done]. injection Hc as _ <- <-.
    by exists chunks.
Qed.
End digest.

(** ** Facts: what is exported *)

#[local] Instance Ok_inj {E A} : Inj (=) (=) (@Ok E A).
Proof. by intros x y [= ->]. Qed.

Section exported.
Context {W : Type} `{HttpHeaders} `{UriLib} `{!TransportOps W} `{!TokenOps W} `{!UtcNow W}.
Context `{!Processes W} `{!FsPaths W} `{!Fs W} `{!EnvVars W} `{!Concurrent W} `{!DuplexPipe W}.
Context `{Sha2Ok} `{Chrono} `{HashIter} `{Build} `{AsyncZstdOk} `{NixJson}.

(** [nix-store --dump] of the path gave these bytes and ended well. *)
Definition dumped (path nar : list N) : Prop :=
  ∃ child reads status (w1 w2 w3 w4 w5 w6 : W), process_spawn (dump_command path) w1 = (w2, Ok child) ∧
    child_reads child w3 = (w4, reads) ∧ stream_data reads = Some nar ∧
    child_wait child w5 = (w6, Ok status) ∧ es_success status = true.

Lemma stream_dump_ok self config path (w w' : W) d n : stream_dump self config path w = (w', Ok (d, n)) →
  ∃ nar frame chunks w1 w2 child, dumped path nar ∧ frame_of frame nar ∧ concat chunks = frame ∧
    push_resumable self (Ok <$> chunks) config w1 = (w2, Ok (Some (d, n))) ∧ w' = (child_wait child w2).1.
Proof.
  unfold stream_dump. intros Hd. inv_task Hd. rename Ha into Hspawn, a into spawned.
  inv_task Hd. apply map_err_ok in Ha. subst spawned. rename a into child.
  inv_task Hd. rename Ha into Hreads, a into reads. destruct (compress_task reads) as [frame compressed] eqn:Hc.
  inv_task Hd. pose proof (pipe_items_concat frame w1) as Hcat. rewrite Ha in Hcat. simpl in Hcat. clear Ha.
  inv_task Hd. destruct a0 as [[d' n']|]; [|done]. rename Ha into Hpush.
  inv_task Hd. destruct compressed as [[]|e|]; [|done..]. destruct (compress_task_ok _ _ Hc) as (nar & Hnar & Hframe).
  inv_task Hd. rename Ha0 into Hwait. inv_task Hd. apply map_err_ok in Ha0. subst.
  destruct (es_success a2) eqn:Hs; simpl in Hd; [|by apply exit_failure_ok in Hd].
  apply bio_ret_ok in Hd as [-> [= -> ->]]. do 6 eexists. split_and!; [|done|reflexivity|done|].
  - unfold dumped. by do 9 eexists.
  - by rewrite Hwait.
Qed.

(** What the export of an item gives: a valid entry under its own hash, with the metadata
    of the item, for the compressed dump of its path. *)
Record exported_from (item : NixPathInfoItem) (arch : SystemArch) (orig : option OriginMetadata)
    (x : ExportedStorePath) : Prop := {
  xf_valid : entry_valid (ex_index_entry x);
  xf_hash : IndexEntry_store_hash (ex_index_entry x) = Some (ex_store_hash x);
  xf_key : @PathInfo_store_hash Empty_set item = Ok (Some (ex_store_hash x));
  xf_path : store_path (narinfo_meta (ex_index_entry x)) = pi_path item;
  xf_nar_hash : nar_hash (narinfo_meta (ex_index_entry x)) = pi_nar_hash item;
  xf_references : references (narinfo_meta (ex_index_entry x)) = normalized_references item;
  xf_signatures : signatures (narinfo_meta (ex_index_entry x)) = pi_signatures item;
  xf_system : system (ex_index_entry x) = Some arch;
  xf_origin : Types.origin (ex_index_entry x) = orig;
  xf_size : nar_size (ex_index_entry x) = N.max (ex_file_size x) (pi_nar_size item);
  xf_nar : ∃ nar frame, dumped (pi_path item) nar ∧ frame_of frame nar ∧
    NarDigest_as_str (nar_digest (ex_index_entry x)) = cd_str (ContentDigest_from_bytes frame) ∧
    ex_file_size x = wrap64 (usize_len frame) }.

Lemma digest_text bytes d : NarDigest_parse (cd_str (ContentDigest_from_bytes bytes)) = Ok d →
  NarDigest_as_str d = cd_str (ContentDigest_from_bytes bytes).
Proof. rewrite NarDigest_parse_canonical by apply from_hasher_canonical. by intros [= <-]. Qed.

Lemma no_panics {E A} (l : list A) : Forall (λ item : outcome E A, item ≠ Panic) (Ok <$> l).
Proof. apply Forall_fmap, Forall_true. done. Qed.

(** An export that returns: its push, and what it gives. *)
Lemma export_single_ok item self config arch orig (w w' : W) x :
  export_single_item_stream item self config arch orig w = (w', Ok x) →
  exported_from item arch orig x ∧
  ∃ nar frame chunks w1 w2 child d n, dumped (pi_path item) nar ∧ frame_of frame nar ∧ concat chunks = frame ∧
    push_resumable self (Ok <$> chunks) config w1 = (w2, Ok (Some (d, n))) ∧
    NarDigest_as_str (nar_digest (ex_index_entry x)) = cd_str d ∧ w' = (utc_now (child_wait child w2).1).1.
Proof.
  unfold export_single_item_stream. intros Hx. inv_task Hx. destruct a as [[fname hash] sh]. rename Ha into Hnames.
  inv_task Hx. destruct a as [d n].
  apply stream_dump_ok in Ha as (nar & frame & chunks & w1 & w2 & child & Hdump & Hframe & Hcat & Hpush & ->).
  pose proof (push_resumable_digest self _ (no_panics chunks) _ _ _ _ _ Hpush) as (chunks' & Hch & Hd & Hn).
  apply (inj (fmap Ok)) in Hch as <-. rewrite Hcat in Hd, Hn.
  inv_task Hx. apply map_err_ok in Ha. pose proof Ha as Htext. rewrite Hd in Htext. apply digest_text in Htext.
  inv_task Hx. inv_task Hx. inv_task Hx. inv_task Hx. apply bio_ret_ok in Hx as [-> ->]. rename Ha3 into Hvalid.
  destruct a3 as []. apply IndexEntry_validate_ok in Hvalid as Hev.
  split; [split; simpl|]; [done| |by eapply export_names_key|done..| |].
  - destruct Hev as [_ _ [[h Hh] _ _ _ _ _ _ _ _] _ _ _ _]. unfold IndexEntry_store_hash, NarInfoMeta_store_hash. simpl in *.
    rewrite Hh. simpl. f_equal. by eapply export_names_identity.
  - by exists nar, frame.
  - exists nar, frame, chunks, w1, w2, child, d, n. split_and!; try done; [by rewrite Hd|by rewrite Ha2].
Qed.

(** *** Reports *)

Definition export_task (self : OciClient) (config : ParallelExportConfig) (item : NixPathInfoItem)
    : BIO W ExportedStorePath :=
  export_single_item_stream item self (pe_upload_config config) (pe_system config) (pe_origin config).

Definition successes (rs : list (list N * outcome BuilderError ExportedStorePath)) : list ExportedStorePath :=
  omap (λ r, ok r.2) rs.
Definition failures (rs : list (list N * outcome BuilderError ExportedStorePath)) : list (list N * BuilderError) :=
  omap (λ r, match r.2 with Err e => Some (r.1, e) | _ => None end) rs.

Lemma take_exports strict rs report (w w' : W) report' :
  bio_fold (take_export strict) report rs w = (w', Ok report') →
  w' = w ∧ er_successful report' = er_successful report ++ successes rs ∧
  er_failed report' = er_failed report ++ failures rs ∧ (strict = true → failures rs = []) ∧
  Forall (λ r, r.2 ≠ Panic) rs.
Proof.
  revert report w. induction rs as [|[path r] rs IH]; intros report w Hr; cbn [bio_fold] in Hr.
  { apply bio_ret_ok in Hr as [-> ->]. unfold successes, failures. simpl. by rewrite !app_nil_r. }
  apply bio_bind_ok in Hr as (w1 & report1 & Ht & Hr). apply IH in Hr as (-> & Hs & Hf & Hstrict & Hall).
  unfold take_export in Ht. cbn [snd fst] in Ht. destruct r as [x|e|]; [| |by apply fail_ok in Ht as [_ ?]].
  - inv_task Ht. apply bio_ret_ok in Ht as [-> ->]. simpl in *. unfold successes, failures in *. simpl.
    rewrite Hs, Hf, <- app_assoc. split_and!; [done..|by constructor].
  - destruct strict; [by apply fail_ok in Ht as [_ ?]|]. apply bio_ret_ok in Ht as [-> ->]. simpl in *.
    unfold successes, failures in *. simpl. rewrite Hs, Hf, <- app_assoc. split_and!; [done..|by constructor].
Qed.

(** Every item was exported once, and is reported as exported or as failed. *)
Definition export_outcome (self : OciClient) (config : ParallelExportConfig) (item : NixPathInfoItem)
    (r : list N * outcome BuilderError ExportedStorePath) : Prop :=
  r.1 = pi_path item ∧ ∃ w1 w2 : W, export_task self config item w1 = (w2, r.2).

Lemma export_report_ok items self config (w w' : W) report :
  export_and_upload_paths_with_preinfo items self config w = (w', Ok report) →
  ∃ rs, Forall2 (export_outcome self config) items rs ∧ er_successful report ≡ₚ successes rs ∧
    er_failed report ≡ₚ failures rs ∧ (pe_strict config = true → failures rs = []) ∧ Forall (λ r, r.2 ≠ Panic) rs.
Proof.
  unfold export_and_upload_paths_with_preinfo. case_bool_decide as Hi.
  { intros [_ ->]%bio_ret_ok. exists []. by rewrite Hi. }
  intros Hr. inv_task Hr. inv_task Hr. rename a0 into results.
  destruct (run_unordered_all (N.max (pe_concurrency config) 1)
    ((λ item, (pi_path item, export_task self config item)) <$> items) w0) as (rs & Hp & Hall).
  unfold export_task in Hp, Hall. rewrite Ha0 in Hp. simpl in Hp.
  apply take_exports in Hr as (-> & Hs & Hf & Hstrict & Hnp). simpl in Hs, Hf. exists rs.
  split; [by apply Forall2_fmap_l in Hall|]. rewrite Hs, Hf. unfold successes, failures in *.
  split_and!; [by rewrite Hp..| |by rewrite <- Hp].
  intros Hq%Hstrict. apply Permutation_nil_r. by rewrite <- Hq, Hp.
Qed.
End exported.

(** ** Properties *)


(** ** Witness: a path of four bytes, dumped in two reads *)

Definition sample_async_zstd : AsyncZstd := {|
  Encoder := list N; encoder_with_quality := λ _, []; encoder_write_all := λ enc buf, (enc ++ buf, [], Ok tt);
  encoder_shutdown := λ enc, (ZSTD_MAGIC ++ enc, Ok tt) |}.
Lemma sample_async_zstd_ok : @AsyncZstdOk sample_async_zstd sample_zstd.
Proof.
  intros level data enc out last Hw [= <-]. assert (Hs : enc = data ∧ out = []).
  { induction Hw as [|data enc out buf enc' more Hw [-> ->] Hwr]; [done|]. by injection Hwr as <- <-. }
  destruct Hs as [-> ->]. by eexists.
Qed.
Definition whole_pipe {W} : DuplexPipe W :=
  {| pipe_items := λ bytes w, (w, [bytes]); pipe_items_concat := λ bytes w, app_nil_r bytes |}.
Definition sample_status : ExitStatus := {| es_success := true; es_display := lit "exit status: 0" |}.
(** Every command succeeds with the same output, and every child dumps the same bytes. *)
Definition sample_processes {W} (stdout : Command → list N) : Processes W := {|
  Child := unit;
  process_output := λ cmd w, (w, Ok {| out_status := sample_status; out_stdout := stdout cmd; out_stderr := [] |});
  process_status := λ _ w, (w, Ok sample_status);
  process_spawn := λ _ w, (w, Ok tt);
  child_communicate := λ _ _ w, (w, Ok {| out_status := sample_status; out_stdout := []; out_stderr := [] |});
  child_reads := λ _ w, (w, [Ok [1; 2; 3]; Ok [4]]); child_wait := λ _ w, (w, Ok sample_status);
  child_try_wait := λ _ w, (w, Ok None); child_kill := λ _ w, w |}.
Definition sample_path_info : NixPathInfoItem := {|
  pi_path := lit "/nix/store/" ++ sample_hash ++ lit "-hello"; pi_nar_hash := nar_hash (narinfo_meta (sample_entry sample_hash [] (lit "29")));
  pi_nar_size := 4; pi_references := []; pi_deriver := None; pi_signatures := []; pi_ca := None;
  pi_registration_time := None |}.
Definition sample_utc {W} : UtcNow W := {| utc_now := λ w, (w, 29%Z) |}.

Definition sample_export : RegWorld * outcome BuilderError ExportedStorePath :=
  @export_single_item_stream RegWorld sample_http sample_uri rw_transport rw_tokens sample_utc
    (sample_processes (λ _, [])) whole_pipe sample_sha2 Types.sample_chrono sample_build sample_async_zstd
    sample_path_info sample_client UploadConfig_default X86_64Linux None sample_upload_world.

