(* ===== verification/Capture.v ===== *)
(** * Capture: what a build session uploads and records
    (crates/nixcache-builder/src/session/capture.rs, session/init.rs, session/clean.rs,
    nix/closure.rs, nix/resolver.rs and the remote hashes of worker.rs)

    The targets of a session, the closure of the targets less the snapshot of the store
    taken before the build, the classification of what is left, its export, and the
    receipt.  The step summary is reporting and left out. *)

From S2P Require Import Prelude Machine Str Text Error Types Sharding Index Receipt Lookup Filter NixFilter OciError Transport Endpoint Auth Request Driver Upload Manifest ManifestClient IndexClient Ghcr Discovery Builder Promote Nix Export.

Local Open Scope N_scope.

(** ** The file system *)

(** [read_dir]: the names of the entries that could be read ([None] when one is not
    UTF-8), or an error; [symlink_metadata(..).is_symlink()]; [read_link]; writing. *)
Class FsDirs (W : Type) := {
  fs_list_dir : list N → W → W * outcome (list N) (list (outcome (list N) (option (list N))));
  fs_is_symlink : list N → W → W * outcome (list N) bool;
  fs_read_link : list N → W → W * outcome (list N) (list N);
  fs_write : list N → list N → W → W * outcome (list N) unit;
  fs_create_dir_all : list N → W → W * outcome (list N) unit;
  fs_remove_file : list N → W → W * outcome (list N) unit }.
(** The POST of the new entries to the proxy, whose result is only logged. *)
Class HotRegister (W : Type) := { post_entries : list N → gmap StoreHash IndexEntry → W → W }.

(** The text of components, and [Path::parent] in normal form. *)
Definition component_text (c : Component) : list N :=
  match c with RootDir => [] | CurDir => lit "." | ParentDir => lit ".." | Normal name => name end.
Definition components_text (l : list Component) : list N :=
  match l with [RootDir] => lit "/" | _ => join (lit "/") (component_text <$> l) end.
Definition path_parent (p : list N) : option (list N) :=
  match reverse (components p) with
  | RootDir :: _ | [] => None
  | _ :: rest => Some (components_text (reverse rest))
  end.

(** ** Snapshots of the store *)

Section snapshots.
Context {W : Type} `{!FsPaths W} `{!Fs W} `{!FsDirs W} `{HashIter}.

(** The lines of a snapshot that are not blank, trimmed. *)
Definition snapshot_lines (snap_content : list N) : gset (list N) :=
  list_to_set (filter (λ l, l ≠ []) (trim <$> lines snap_content)).
Definition load_snapshot_set (snapshot_file : list N) : BIO W (gset (list N)) :=
  present ← bio_call (fs_exists snapshot_file);
  if negb present then mret ∅
  else
    r ← bio_call (fs_read_to_string snapshot_file);
    mret (snapshot_lines (default [] (ok r))).

Definition scanned_name (name : list N) : bool :=
  negb (ends_with (lit ".drv") name) && negb (ends_with (lit ".lock") name).
Definition scan_store_names (store_path : list N) : BIO W (gset (list N)) :=
  entries ← io (fs_list_dir store_path);
  mret (list_to_set (filter (λ n, scanned_name n = true)
    (omap (λ e, match e with Ok (Some name) => Some name | _ => None end) entries))).

Definition snapshot_text (names : gset (list N)) : list N :=
  merge_sort str_le (set_iter names) ≫= λ path, path ++ [10].
Definition record_store_snapshot_from_dir (store_dir snap_path : list N) : BIO W unit :=
  names ← scan_store_names store_dir;
  _ ← match path_parent snap_path with
      | Some parent => r ← bio_call (fs_create_dir_all parent); mret tt
      | None => mret tt
      end;
  io (fs_write snap_path (utf8 (snapshot_text names))).
Definition record_store_snapshot (snap_path : list N) : BIO W unit :=
  record_store_snapshot_from_dir (lit "/nix/store") snap_path.

Definition run_session_clean (snapshot_path : option (list N)) : BIO W unit :=
  match snapshot_path with
  | Some path =>
      present ← bio_call (fs_exists path);
      if (present : bool) then io (fs_remove_file path) else mret tt
  | None => mret tt
  end.
End snapshots.

(** ** Capture modes *)

Inductive CaptureMode := RuntimeClosure | BuildClosure | RootsOnly | DiffAll.
#[export] Instance CaptureMode_eq_dec : EqDecision CaptureMode.
Proof. solve_decision. Defined.
Definition CaptureMode_from_str `{UnicodeCase} (s : list N) : outcome (list N) CaptureMode :=
  let key := (λ c, if c =? 95 then 45 else c) <$> to_lowercase (trim s) in
  if bool_decide (key ∈ [lit "runtime-closure"; lit "runtime"]) then Ok RuntimeClosure
  else if bool_decide (key ∈ [lit "build-closure"; lit "build"]) then Ok BuildClosure
  else if bool_decide (key ∈ [lit "roots-only"; lit "roots"]) then Ok RootsOnly
  else if bool_decide (key ∈ [lit "diff-all"; lit "diff"; lit "all"]) then Ok DiffAll
  else Err (lit "Invalid capture mode: " ++ key).
Definition CaptureMode_display (self : CaptureMode) : list N :=
  match self with
  | RuntimeClosure => lit "runtime-closure"
  | BuildClosure => lit "build-closure"
  | RootsOnly => lit "roots-only"
  | DiffAll => lit "diff-all"
  end.

(** ** Targets *)

Section targets.
Context {W : Type} `{!Processes W} `{!FsPaths W} `{!FsDirs W} `{!Concurrent W}.
Context `{HashIter} `{NixJson}.

(** The entries up to the first that cannot be read. *)
Fixpoint until_error {E A} (l : list (outcome E A)) : list A :=
  match l with Ok a :: l => a :: until_error l | _ => [] end.

(** A canonical path that is in the store. *)
Definition push_store_path (results : list (list N)) (canon : list N) : list (list N) :=
  if starts_with (lit "/nix/store/") canon then results ++ [canon] else results.

Definition visit_entry (base_dir search_dir file_pattern : list N) (results : list (list N))
    (entry : option (list N)) : BIO W (list (list N)) :=
  match entry with
  | None => mret results
  | Some entry_name =>
      if negb (matches_pattern file_pattern entry_name) then mret results
      else
        let entry_path := path_join search_dir entry_name in
        symlink_meta ← bio_call (fs_is_symlink entry_path);
        match symlink_meta with
        | Ok true =>
            link_target ← io (fs_read_link entry_path);
            let resolved_target :=
              if starts_with (lit "/") link_target then link_target
              else path_join (default base_dir (path_parent entry_path)) link_target in
            canon ← bio_call (fs_canonicalize resolved_target);
            match canon with
            | Ok canon => mret (push_store_path results canon)
            | _ => fail (Err (BuilderIo (lit "Dangling or broken symlink " ++ entry_path
                     ++ lit " pointing to non-existent " ++ resolved_target)))
            end
        | Ok false =>
            canon ← bio_call (fs_canonicalize entry_path);
            match canon with
            | Ok canon => mret (push_store_path results canon)
            | _ => mret results
            end
        | _ => mret results
        end
  end.

Definition find_symlink_targets (base_dir pattern : list N) : BIO W (list (list N)) :=
  let norm_pattern := default pattern (strip_prefix (lit "./") pattern) in
  let '(dir_rel, file_pattern) :=
    match path_parent norm_pattern with
    | Some parent =>
        if is_empty parent then ([], norm_pattern) else (parent, default (lit "*") (file_name norm_pattern))
    | None => ([], norm_pattern)
    end in
  let search_dir := if is_empty dir_rel then base_dir else path_join base_dir dir_rel in
  present ← bio_call (fs_exists search_dir);
  if negb present then mret []
  else
    listed ← bio_call (fs_list_dir search_dir);
    match listed with
    | Ok entries =>
        results ← bio_fold (visit_entry base_dir search_dir file_pattern) [] (until_error entries);
        mret (dedup (merge_sort str_le results))
    | _ => mret []
    end.

Definition resolve_target_roots (explicit_paths : list (list N)) (targets_expr out_link_pattern : option (list N))
    (workspace_root : list N) : BIO W (list (list N)) :=
  let roots : gset (list N) :=
    list_to_set (filter (λ p, starts_with (lit "/nix/store/") p = true) (trim <$> explicit_paths)) in
  resolved ← match targets_expr with
             | Some exprs => if is_empty (trim exprs) then mret []
                             else resolve_flake_or_attr_targets (split_whitespace exprs)
             | None => mret []
             end;
  let roots := roots ∪ list_to_set resolved in
  links ← match out_link_pattern with
          | Some pattern => if is_empty (trim pattern) then mret []
                            else find_symlink_targets workspace_root (trim pattern)
          | None => mret []
          end;
  let roots := roots ∪ list_to_set links in
  mret (merge_sort str_le (set_iter roots)).
End targets.

(** ** Closures *)

Record ClosureCandidateResult := { cc_items : list NixPathInfoItem; cc_active_gc_roots : list StoreHash }.

(** The hashes that the file names of the roots begin with. *)
Definition extract_gc_roots (target_roots : list (list N)) : list StoreHash :=
  let hashes := omap (λ p, name ← file_name p; slice_to 32 name) target_roots in
  dedup (merge_sort StoreHash_le (omap (λ h, ok (StoreHash_parse h)) hashes)).

Definition in_snapshot (snapshot : gset (list N)) (item : NixPathInfoItem) : Prop :=
  default (pi_path item) (file_name (pi_path item)) ∈ snapshot ∨ pi_path item ∈ snapshot.
#[export] Instance in_snapshot_dec snapshot item : Decision (in_snapshot snapshot item).
Proof. unfold in_snapshot. apply _. Defined.
Definition filter_snapshot_diff (items : list NixPathInfoItem) (snapshot_before_set : gset (list N)) : list NixPathInfoItem :=
  filter (λ item, ¬ in_snapshot snapshot_before_set item) items.

Section closures.
Context {W : Type} `{!Processes W} `{!FsDirs W} `{HashIter} `{NixJson}.

(** The paths of the store that the snapshot does not have. *)
Definition diff_paths (snap_set : gset (list N)) : BIO W (list (list N)) :=
  current ← bio_try (scan_store_names (lit "/nix/store"));
  let current_names := match current with Ok names => names | _ => ∅ end in
  mret ((λ name, lit "/nix/store/" ++ name) <$> set_iter (current_names ∖ snap_set)).

Definition no_targets_error : BuilderError :=
  BuilderNix (NixExecution (lit "No valid target outputs or result symlinks found to capture. Please ensure 'nix build' generated a result symlink, or explicitly specify 'targets' or 'out-link' in action inputs.")).

Definition compute_candidate_closure (target_roots : list (list N)) (snapshot_before_set : option (gset (list N)))
    (mode : CaptureMode) (strict_closure : bool) : BIO W ClosureCandidateResult :=
  if bool_decide (target_roots = []) then
    if strict_closure && negb (bool_decide (mode = DiffAll)) then fail (Err no_targets_error)
    else
      match snapshot_before_set with
      | Some snap_set =>
          paths ← diff_paths snap_set;
          raw_items ← get_path_infos_typed paths;
          mret {| cc_items := raw_items; cc_active_gc_roots := extract_gc_roots paths |}
      | None => mret {| cc_items := []; cc_active_gc_roots := [] |}
      end
  else
    raw_items ← match mode with
                | RootsOnly => get_path_infos_typed target_roots
                | RuntimeClosure => get_recursive_path_infos target_roots
                | BuildClosure =>
                    build_paths ← get_build_closure target_roots;
                    get_path_infos_typed build_paths
                | DiffAll =>
                    match snapshot_before_set with
                    | Some snap_set => paths ← diff_paths snap_set; get_path_infos_typed paths
                    | None => get_recursive_path_infos target_roots
                    end
                end;
    mret {| cc_items := match snapshot_before_set with
                        | Some snap_set => filter_snapshot_diff raw_items snap_set
                        | None => raw_items
                        end;
            cc_active_gc_roots := extract_gc_roots target_roots |}.
End closures.

(** ** The session *)

Record SessionCaptureOptions := {
  so_repo : list N;
  so_registry : list N;
  so_run_id : N;
  so_job_id : list N;
  so_system_opt : option (list N);
  so_signing_key_file : option (list N);
  so_baseline_tag : list N;
  so_output_receipt_path : option (list N);
  so_proxy_url : option (list N);
  so_snapshot_before : option (list N);
  so_export_concurrency : N;
  so_explicit_paths : list (list N);
  so_out_link_pattern : option (list N);
  so_targets_expr : option (list N);
  so_capture_mode : CaptureMode;
  so_strict_closure : bool;
  so_workspace_root : list N }.

Section capture.
Context {W : Type} `{HttpHeaders} `{UriLib} `{UnicodeCase} `{!TransportOps W} `{!TokenOps W} `{!UtcNow W}.
Context `{!Processes W} `{!FsPaths W} `{!Fs W} `{!FsDirs W} `{!EnvVars W} `{!Concurrent W} `{!DuplexPipe W} `{!HotRegister W}.
Context `{Sha2} `{Chrono} `{HashIter} `{DebugOrigin} `{Build} `{Zstd} `{AsyncZstd} `{SerdeErrors} `{NixJson}.
Context `{!Serde OciImageIndex} `{!Serde OciImageManifest} `{!Serde BuildReceipt}.
Context `{!Serde ShardedArchCacheIndexData} `{!Serde ShardDataPayload}.
Context (consts_os consts_arch : list N).

(** The hashes of the shards that could be read; a root or a shard that could not is
    left out. *)
Definition fetch_remote_arch_hashes (self : OciClient) (arch : SystemArch) (baseline_tag : list N) : BIO W (gset StoreHash) :=
  root ← bio_catch (get_sharded_root self baseline_tag arch);
  match root with
  | Ok (Some (root_data, _)) =>
      let non_empty_shards :=
        filter (λ s, (0 <? sd_entry_count s) && negb (is_empty (sd_blob_digest s)) = true) (ix_shards root_data) in
      payloads ← bio_call (run_unordered (usize_len non_empty_shards)
        ((λ descriptor, (sd_shard_id descriptor, bio_catch (get_shard_data self descriptor arch))) <$> non_empty_shards));
      bio_fold (λ own_hashes r,
        match r.2 with
        | Ok (Ok payload) => mret (own_hashes ∪ list_to_set (map_keys (pl_entries payload)))
        | Ok (Err _) | Err _ => mret own_hashes
        | Ok Panic | Panic => fail Panic
        end) ∅ payloads
  | Panic => fail Panic
  | _ => mret ∅
  end.

Definition capture_system (system_opt : option (list N)) : BIO W SystemArch :=
  let detect :=
    let detected := SystemArch_detect_current consts_os consts_arch in
    if SystemArch_is_known detected then mret detected
    else s ← current_system; mret (SystemArch_from s) in
  match system_opt with
  | Some s => if is_empty (trim s) then detect else mret (SystemArch_from (trim s))
  | None => detect
  end.

(** An export is taken into the entries: the entries, their count and their bytes. *)
Definition take_exported (st : gmap StoreHash IndexEntry * N * N) (exported : ExportedStorePath)
    : BIO W (gmap StoreHash IndexEntry * N * N) :=
  let '(new_entries, uploaded_count, total_bytes_uploaded) := st in
  count ← fail (arith_add usize_bound uploaded_count 1);
  bytes ← fail (arith_add u64_bound total_bytes_uploaded (ex_file_size exported));
  mret (<[ex_store_hash exported := ex_index_entry exported]> new_entries, count, bytes).

(** The filter of a capture trusts the official cache. *)
Definition capture_context (own_pub_key : option (list N)) (all_known_hashes : gset StoreHash) : NixArtifactFilterContext := {|
  fc_own_public_key := own_pub_key; fc_remote_cached_hashes := all_known_hashes;
  fc_trusted_upstream_prefixes := [lit "cache.nixos.org-1"] |}.

(** The items to export with the signatures they have once signed. *)
Definition sign_exports (signing_key_file : option (list N)) (to_export : list NixPathInfoItem) : BIO W (list NixPathInfoItem) :=
  match signing_key_file with
  | Some key_file =>
      if bool_decide (to_export = []) then mret to_export else batch_sign_and_inject_signatures to_export key_file
  | None => mret to_export
  end.

(** [p.trim_end_matches('/')]. *)
Definition trim_end_slash (s : list N) : list N := reverse (drop_while (N.eqb 47) (reverse s)).

Definition write_receipt (receipt_path : list N) (receipt : BuildReceipt) : BIO W unit :=
  _ ← match path_parent receipt_path with
      | Some parent =>
          if is_empty parent then mret tt else r ← bio_call (fs_create_dir_all parent); mret tt
      | None => mret tt
      end;
  receipt_json ← json (to_json receipt);
  io (fs_write receipt_path (utf8 receipt_json)).

Definition run_session_capture (opts : SessionCaptureOptions) : BIO W unit :=
  arch ← capture_system (so_system_opt opts);
  target_roots ← resolve_target_roots (so_explicit_paths opts) (so_targets_expr opts)
    (Some (default (lit "./result*") (so_out_link_pattern opts))) (so_workspace_root opts);
  snap_set ← match so_snapshot_before opts with
             | Some snap_file => s ← load_snapshot_set snap_file; mret (Some s)
             | None => mret None
             end;
  closure_res ← compute_candidate_closure target_roots snap_set (so_capture_mode opts) (so_strict_closure opts);
  self ← oci (lift (create_tokio_reqwest_client (so_registry opts) (so_repo opts)));
  all_known_hashes ← fetch_remote_arch_hashes self arch (so_baseline_tag opts);
  own_pub_key ← get_own_public_key (so_signing_key_file opts);
  report ← fail (classify_and_filter (cc_items closure_res) (capture_context own_pub_key all_known_hashes));
  to_export ← sign_exports (so_signing_key_file opts) (fr_to_export report);
  let orig := Some {| run_id := Some (so_run_id opts); job_id := Some (so_job_id opts) |} in
  exported ← export_and_upload_paths_with_preinfo to_export self {|
    pe_concurrency := so_export_concurrency opts; pe_signing_key_file := None; pe_strict := false;
    pe_upload_config := UploadConfig_default; pe_system := arch; pe_origin := orig |};
  taken ← bio_fold take_exported (∅, 0, 0) (er_successful exported);
  let '(new_entries, uploaded_count, total_bytes_uploaded) := taken in
  _ ← (if bool_decide (new_entries = ∅) then mret tt
       else bio_call (λ w, (post_entries (trim_end_slash (default (lit "http://127.0.0.1:37515") (so_proxy_url opts))
                                          ++ lit "/_session/register") new_entries w, tt)));
  candidate_count ← fail (arith_sum usize_bound [usize_len to_export; fr_substituted_count report;
                            fr_already_cached_count report; fr_ignored_count report]);
  now ← bio_call utc_now;
  receipt ← core (Receipt_new arch (so_repo opts) (to_rfc3339_secs now) own_pub_key new_entries
    (cc_active_gc_roots closure_res) {|
      discovered_outputs := candidate_count; built_paths := usize_len to_export; substituted_paths := fr_substituted_count report;
      uploaded_blobs := uploaded_count; total_bytes_uploaded := total_bytes_uploaded |} orig);
  write_receipt (default (lit "receipt.json") (so_output_receipt_path opts)) receipt.
End capture.

(** ** Facts: snapshots *)

(** A name that survives a line of a snapshot. *)
Definition line_name (name : list N) : Prop := name ≠ [] ∧ trimmed name ∧ 10 ∉ name.

Lemma lines_terminated names : Forall (λ n, 10 ∉ n ∧ trimmed n) names → lines (names ≫= λ n, n ++ [10]) = names.
Proof.
  intros Hn. unfold lines.
  assert (Hcons : ∀ cur n rest, 10 ∉ n → lines_from cur (n ++ 10 :: rest) = strip_cr (reverse cur ++ n) :: lines_from [] rest).
  { intros cur n rest. revert cur. induction n as [|c n IH]; intros cur Hni; cbn [app lines_from].
    - simpl. by rewrite app_nil_r.
    - destruct (N.eqb_spec c 10) as [->|Hc]; [set_solver|]. rewrite IH by set_solver.
      by rewrite reverse_cons, <- app_assoc. }
  induction Hn as [|n names [Hni Ht] _ IH]; [done|]. cbn [mbind list_bind]. rewrite <- app_assoc. cbn [app].
  rewrite Hcons by done. simpl. rewrite strip_cr_trimmed by done. by rewrite IH.
Qed.

(** Reading the text of a snapshot gives back the names it was made of. *)
Lemma snapshot_lines_text `{HashIter} (names : gset (list N)) :
  set_Forall line_name names → snapshot_lines (snapshot_text names) = names.
Proof.
  intros Hn. unfold snapshot_lines, snapshot_text. set (l := merge_sort str_le (set_iter names)).
  assert (Hl : ∀ n, n ∈ l ↔ n ∈ names) by (intros n; unfold l; by rewrite elem_of_merge_sort, elem_of_set_iter).
  assert (Hall : Forall line_name l) by (apply Forall_forall; intros n Hin%Hl; by apply Hn).
  rewrite lines_terminated by (eapply Forall_impl; [exact Hall|]; by intros n (_ & ? & ?)).
  assert (trim <$> l = l) as ->.
  { clear Hl. induction Hall as [|n l' (_ & Ht & _) _ IH]; [done|]. simpl. f_equal; [by apply trimmed_eq|done]. }
  apply leibniz_equiv. intros n. rewrite elem_of_list_to_set, list_elem_of_filter, Hl. split; [tauto|].
  intros Hin. split; [by apply (Hn n Hin)|done].
Qed.

(** ** Facts: closures *)

Section closure_facts.
Context {W : Type} `{!Processes W} `{!FsDirs W} `{HashIter} `{NixJson}.

(** With targets, nothing that the store had before the build is a candidate, and the
    roots are those of the targets. *)
Lemma closure_of_targets roots snap mode strict (w w' : W) r :
  compute_candidate_closure roots snap mode strict w = (w', Ok r) → roots ≠ [] →
  cc_active_gc_roots r = extract_gc_roots roots ∧
  ∀ s, snap = Some s → Forall (λ item, ¬ in_snapshot s item) (cc_items r).
Proof.
  unfold compute_candidate_closure. intros Hr Hne. rewrite bool_decide_false in Hr by done.
  inv_task Hr. apply bio_ret_ok in Hr as [_ ->]. split; [done|]. intros s ->. simpl. unfold filter_snapshot_diff.
  apply Forall_forall. by intros item [Hi _]%list_elem_of_filter.
Qed.

(** A strict capture without a target is refused, but in the mode that needs none. *)
Lemma closure_needs_targets snap mode (w : W) : mode ≠ DiffAll →
  compute_candidate_closure [] snap mode true w = (w, Err no_targets_error).
Proof. intros Hm. unfold compute_candidate_closure. by rewrite bool_decide_true, bool_decide_false. Qed.
End closure_facts.

(** The roots are the hashes of the targets that have one. *)
Lemma extract_gc_roots_spec targets h :
  h ∈ extract_gc_roots targets ↔
  ∃ p name s, p ∈ targets ∧ file_name p = Some name ∧ slice_to 32 name = Some s ∧ StoreHash_parse s = Ok h.
Proof.
  unfold extract_gc_roots. rewrite elem_of_dedup, elem_of_merge_sort, list_elem_of_omap. setoid_rewrite list_elem_of_omap. split.
  - intros (s & (p & Hp & Hn) & Hh). apply bind_Some in Hn as (name & Hn & Hs).
    destruct (StoreHash_parse s) eqn:He; [|done..]. injection Hh as ->. by exists p, name, s.
  - intros (p & name & s & Hp & Hn & Hs & Hh). exists s. rewrite Hh. split; [|done]. exists p. split; [done|]. by rewrite Hn.
Qed.

(** ** Facts: the session *)

(** The same path with other signatures. *)
Definition resigned (item item' : NixPathInfoItem) : Prop := item' = with_signatures item (pi_signatures item').
Lemma resigned_refl item : resigned item item.
Proof. by destruct item. Qed.
Lemma resigned_key {E} item item' : resigned item item' → @PathInfo_store_hash E item' = PathInfo_store_hash item.
Proof. unfold resigned, PathInfo_store_hash. by intros ->. Qed.

Section session_facts.
Context {W : Type} `{HttpHeaders} `{UriLib} `{UnicodeCase} `{!TransportOps W} `{!TokenOps W} `{!UtcNow W}.
Context `{!Processes W} `{!FsPaths W} `{!Fs W} `{!FsDirs W} `{!EnvVars W} `{!Concurrent W} `{!DuplexPipe W} `{!HotRegister W}.
Context `{Sha2Ok} `{Chrono} `{HashIter} `{DebugOrigin} `{Build} `{AsyncZstdOk} `{SerdeErrors} `{NixJson}.
Context `{!Serde OciImageIndex} `{!Serde OciImageManifest} `{!Serde BuildReceipt}.
Context `{!Serde ShardedArchCacheIndexData} `{!Serde ShardDataPayload}.
Context (consts_os consts_arch : list N).

Lemma sign_exports_ok key items (w w' : W) items' :
  sign_exports key items w = (w', Ok items') → Forall2 resigned items items'.
Proof.
  assert (Hrefl : Forall2 resigned items items) by (induction items; constructor; [apply resigned_refl|done]).
  unfold sign_exports. destruct key as [key|]; [|by intros [_ ->]%bio_ret_ok].
  case_bool_decide as Hi; [by intros [_ ->]%bio_ret_ok|]. unfold batch_sign_and_inject_signatures.
  rewrite bool_decide_false by done. intros Hs. repeat inv_task Hs. apply bio_ret_ok in Hs as [_ ->].
  clear. apply Forall2_fmap_r, Forall_Forall2_diag, Forall_true. intros item. unfold compose. case_match; [by destruct item|apply resigned_refl].
Qed.

Lemma take_exported_fold (xs : list ExportedStorePath) st (w w' : W) st' :
  bio_fold take_exported st xs w = (w', Ok st') →
  w' = w ∧ (∀ h e, st'.1.1 !! h = Some e → st.1.1 !! h = Some e ∨ ∃ x, x ∈ xs ∧ ex_store_hash x = h ∧ ex_index_entry x = e) ∧
  (∀ h, is_Some (st.1.1 !! h) → is_Some (st'.1.1 !! h)) ∧ (∀ x, x ∈ xs → is_Some (st'.1.1 !! ex_store_hash x)).
Proof.
  revert st w. induction xs as [|x xs IH]; intros [[m c] b] w Hf; cbn [bio_fold] in Hf.
  { apply bio_ret_ok in Hf as [-> ->]. split_and!; [done|by left|done|]. intros x []%not_elem_of_nil. }
  apply bio_bind_ok in Hf as (w1 & st1 & Ht & Hf). unfold take_exported in Ht. repeat inv_task Ht.
  apply bio_ret_ok in Ht as [-> ->]. apply IH in Hf as (-> & H1x & H2x & H3x). simpl in *. split_and!; [done|..].
  - intros h e He. apply H1x in He as [He|(y & Hy & ?)]; [|right; exists y; split; [by right|done]].
    apply lookup_insert_Some in He as [[<- <-]|[_ He]]; [right; exists x; split; [by left|done]|by left].
  - intros h Hs. apply H2x. destruct (decide (h = ex_store_hash x)) as [->|]; [by rewrite lookup_insert_eq|by rewrite lookup_insert_ne].
  - intros y [->|Hy]%elem_of_cons; [|by apply H3x]. apply H2x. by rewrite lookup_insert_eq.
Qed.

Lemma write_receipt_ok path receipt (w w' : W) : write_receipt path receipt w = (w', Ok tt) →
  ∃ json w1, to_json receipt = Ok json ∧ fs_write path (utf8 json) w1 = (w', Ok tt).
Proof.
  unfold write_receipt. intros Hw. inv_task Hw. clear Ha. apply bio_bind_ok in Hw as (w1 & js & Hj & Hw).
  unfold json in Hj. apply fail_ok in Hj as [-> Hj%map_err_ok]. apply io_ok in Hw. by exists js, w0.
Qed.

Definition session_origin (opts : SessionCaptureOptions) : option OriginMetadata :=
  Some {| run_id := Some (so_run_id opts); job_id := Some (so_job_id opts) |}.
Definition session_config (opts : SessionCaptureOptions) (arch : SystemArch) : ParallelExportConfig := {|
  pe_concurrency := so_export_concurrency opts; pe_signing_key_file := None; pe_strict := false;
  pe_upload_config := UploadConfig_default; pe_system := arch; pe_origin := session_origin opts |}.

(** What a session that returns has done. *)
Record captured (opts : SessionCaptureOptions) (self : OciClient) (arch : SystemArch) (closure : ClosureCandidateResult)
    (ctx : NixArtifactFilterContext) (receipt : BuildReceipt) : Prop := {
  cp_version : rc_version receipt = RECEIPT_VERSION;
  cp_system : rc_system receipt = arch;
  cp_repo : rc_repo receipt = so_repo opts;
  cp_time : ∃ now, rc_timestamp receipt = to_rfc3339_secs now;
  cp_key : rc_public_key receipt = fc_own_public_key ctx;
  cp_roots : rc_active_gc_roots receipt = cc_active_gc_roots closure;
  cp_origin : Receipt_validate_origin_consistency receipt = Ok tt;
  cp_export : ∃ report to_export rs, classify_and_filter (cc_items closure) ctx = @Ok BuilderError _ report ∧
    Forall2 resigned (fr_to_export report) to_export ∧
    Forall2 (export_outcome (W := W) self (session_config opts arch)) to_export rs ∧ Forall (λ r, r.2 ≠ Panic) rs ∧
    (∀ h e, rc_new_entries receipt !! h = Some e → ∃ x, x ∈ successes rs ∧ ex_store_hash x = h ∧ ex_index_entry x = e) ∧
    (∀ x, x ∈ successes rs → is_Some (rc_new_entries receipt !! ex_store_hash x)) }.

Lemma run_session_capture_ok opts (w w' : W) : run_session_capture consts_os consts_arch opts w = (w', Ok tt) →
  ∃ self arch roots snap closure key known receipt json (w1 w2 w3 w4 w5 : W),
    create_tokio_reqwest_client (so_registry opts) (so_repo opts) = Ok self ∧
    resolve_target_roots (so_explicit_paths opts) (so_targets_expr opts)
      (Some (default (lit "./result*") (so_out_link_pattern opts))) (so_workspace_root opts) w1 = (w2, Ok roots) ∧
    (snap = None ↔ so_snapshot_before opts = None) ∧
    compute_candidate_closure roots snap (so_capture_mode opts) (so_strict_closure opts) w3 = (w4, Ok closure) ∧
    to_json receipt = Ok json ∧
    fs_write (default (lit "receipt.json") (so_output_receipt_path opts)) (utf8 json) w5 = (w', Ok tt) ∧
    captured opts self arch closure (capture_context key known) receipt.
Proof.
  unfold run_session_capture. intros Hr.
  inv_task Hr. clear Ha. rename a into arch. inv_task Hr. rename a into roots, Ha into Hroots.
  inv_task Hr. rename a into snap, Ha into Hsnap. inv_task Hr. rename a into closure, Ha into Hclosure.
  inv_task Hr. rename a into self. apply lift_ok in Ha as [-> Hself].
  inv_task Hr. rename a into known. clear Ha. inv_task Hr. rename a into key. clear Ha.
  inv_task Hr. rename a into report, Ha into Hreport. inv_task Hr. rename a into to_export. apply sign_exports_ok in Ha as Hsigned. clear Ha.
  inv_task Hr. rename a into exported. apply export_report_ok in Ha as (rs & Hrs & Hsucc & _ & _ & Hnp).
  inv_task Hr. destruct a as [[new_entries count] bytes].
  apply take_exported_fold in Ha as (-> & Hfrom & _ & Hinto). simpl in Hfrom, Hinto.
  inv_task Hr. clear Ha. inv_task Hr. inv_task Hr. clear Ha0. inv_task Hr. rename a2 into receipt.
  unfold Receipt_new in Ha0. apply bind_ok in Ha0 as ([] & Hor & Hrec). injection Hrec as <-.
  apply write_receipt_ok in Hr as (json & w99 & Hj & Hw).
  do 14 eexists. split_and!; [exact Hself|exact Hroots| |exact Hclosure|exact Hj|exact Hw|].
  - destruct (so_snapshot_before opts); [|by apply bio_ret_ok in Hsnap as [_ ->]].
    inv_task Hsnap. apply bio_ret_ok in Hsnap as [_ ->]. done.
  - split; try done; [by eexists|]. exists report, to_export, rs. split_and!; try done.
    + intros h e [He|(x & Hx & ?)]%Hfrom; [by rewrite lookup_empty in He|]. exists x. by rewrite <- Hsucc.
    + intros x Hx. apply Hinto. by rewrite Hsucc.
Qed.

(** The entries of a receipt and the local builds of the closure. *)
Lemma captured_entries opts self arch closure ctx receipt :
  captured opts self arch closure ctx receipt → usize_len (cc_items closure) < usize_bound →
  (∀ h e, rc_new_entries receipt !! h = Some e → ∃ item item' x, item ∈ cc_items closure ∧ verdict ctx item LocallyBuilt ∧
     resigned item item' ∧ exported_from (W := W) item' arch (session_origin opts) x ∧
     ex_store_hash x = h ∧ ex_index_entry x = e) ∧
  (∀ item, item ∈ cc_items closure → verdict ctx item LocallyBuilt → ∃ item', resigned item item' ∧
     ((∃ h, @PathInfo_store_hash Empty_set item = Ok (Some h) ∧ is_Some (rc_new_entries receipt !! h)) ∨
      ∃ e (w1 w2 : W), export_task self (session_config opts arch) item' w1 = (w2, Err e))).
Proof.
  intros [_ _ _ _ _ _ _ (report & to_export & rs & Hrep & Hsigned & Hrs & Hnp & Hfrom & Hinto)] Hlen.
  apply classify_ok in Hrep as (vs & Hvs & Hrep); [|done].
  destruct (classified_export _ _ _ _ Hvs Hrep) as [Hlocal _]. split.
  - intros h e (x & Hx & <- & <-)%Hfrom. unfold successes in Hx. apply list_elem_of_omap in Hx as ([p r] & Hr & Hok).
    destruct r as [x'|?|]; [|done..]. injection Hok as ->. apply list_elem_of_lookup in Hr as [i Hr].
    destruct (Forall2_lookup_r _ _ _ _ _ Hrs Hr) as (item' & Hi' & _ & w1 & w2 & Ht).
    destruct (Forall2_lookup_r _ _ _ _ _ Hsigned Hi') as (item & Hi & Hre).
    apply list_elem_of_lookup_2, Hlocal in Hi as [Hin Hv]. apply export_single_ok in Ht as [Hexp _].
    by exists item, item', x.
  - intros item Hin Hv. assert (Hi : item ∈ fr_to_export report) by (by apply Hlocal).
    apply list_elem_of_lookup in Hi as [i Hi]. destruct (Forall2_lookup_l _ _ _ _ _ Hsigned Hi) as (item' & Hi' & Hre).
    destruct (Forall2_lookup_l _ _ _ _ _ Hrs Hi') as ([p r] & Hr & Hp & w1 & w2 & Ht). exists item'. split; [done|].
    simpl in Ht. destruct r as [x|e|].
    + left. exists (ex_store_hash x). pose proof Ht as [Hexp _]%export_single_ok.
      split; [rewrite <- (resigned_key _ _ Hre); apply Hexp|]. apply Hinto. unfold successes. apply list_elem_of_omap.
      exists (p, Ok x). split; [by eapply list_elem_of_lookup_2|done].
    + right. by exists e, w1, w2.
    + apply list_elem_of_lookup_2 in Hr. rewrite Forall_forall in Hnp. by apply Hnp in Hr.
Qed.

(** A receipt of a known system and a named repository passes the checks of its reader. *)
Lemma captured_valid opts self arch closure ctx receipt :
  captured opts self arch closure ctx receipt →
  (∀ now, bad_timestamp (to_rfc3339_secs now) = false) →
  SystemArch_is_known arch = true → trim (so_repo opts) ≠ [] → Receipt_validate_structure receipt = Ok tt.
Proof.
  intros [Hv Hs Hr [now Ht] _ _ Ho (report & to_export & rs & _ & _ & Hrs & _ & Hfrom & _)] Htime Hknown Hrepo.
  apply Receipt_validate_ok. rewrite Hs, Hr, Ht. split_and!; try done.
  intros h e (x & Hx & _ & <-)%Hfrom. unfold successes in Hx. apply list_elem_of_omap in Hx as ([p r] & Hx & Hok).
  destruct r as [x'|?|]; [|done..]. injection Hok as ->. apply list_elem_of_lookup in Hx as [i Hx].
  destruct (Forall2_lookup_r _ _ _ _ _ Hrs Hx) as (item' & _ & _ & w1 & w2 & [Hexp _]%export_single_ok). apply Hexp.
Qed.
End session_facts.

(** ** Properties *)


(** C8: what a session writes, a promotion reads.  When [run_session_capture] returns for a
    repository with a name on a known system, [load_receipt] of the promotion accepts the
    file it has written: it takes in exactly the entries, the GC roots and the public key of
    the receipt. *)
Theorem captured_receipt_promotes {W : Type} `{HttpHeaders} `{UriLib} `{UnicodeCase} `{!TransportOps W} `{!TokenOps W} `{!UtcNow W}
    `{!Processes W} `{!FsPaths W} `{!Fs W} `{!FsDirs W} `{!EnvVars W} `{!Concurrent W} `{!DuplexPipe W} `{!HotRegister W}
    `{Sha2Ok} `{Chrono} `{HashIter} `{DebugOrigin} `{Build} `{AsyncZstdOk} `{SerdeErrors} `{NixJson}
    `{!Serde OciImageIndex} `{!Serde OciImageManifest} `{!Serde BuildReceipt} `{!SerdeOk BuildReceipt}
    `{!Serde ShardedArchCacheIndexData} `{!Serde ShardDataPayload} (consts_os consts_arch : list N) opts (w w' : W)
    (Htime : ∀ now, bad_timestamp (to_rfc3339_secs now) = false) (Hrepo : trim (so_repo opts) ≠ [])
    (Hrun : run_session_capture consts_os consts_arch opts w = (w', Ok tt)) :
  ∃ receipt json (w1 : W),
    fs_write (default (lit "receipt.json") (so_output_receipt_path opts)) (utf8 json) w1 = (w', Ok tt) ∧
    to_json receipt = Ok json ∧
    (SystemArch_is_known (rc_system receipt) = true → ∀ st file (w2 w3 : W), fs_read_to_string file w2 = (w3, Ok json) →
       load_receipt st file w2 = (w3, Ok (take_receipt st receipt))).
Proof.
  apply run_session_capture_ok in Hrun
    as (self & arch & roots & snap & closure & key & known & receipt & json & w1 & w2 & w3 & w4 & w5 & _ & _ & _ & _ & Hj & Hw & Hcap).
  exists receipt, json, w5. split; [done|]. split; [done|]. intros Hknown st file w6 w7 Hread.
  destruct (serde_roundtrip _ _ Hj) as [Hfrom _]. pose proof (cp_system _ _ _ _ _ _ Hcap) as Hsys. rewrite Hsys in Hknown.
  unfold load_receipt. unfold mbind at 1, bio_bind at 1, bio_call. rewrite Hread, Hfrom. cbn [mbind outcome_bind].
  unfold Receipt_deserialize. by rewrite (captured_valid _ _ _ _ _ _ Hcap).
Qed.

(** the snapshot taken before a build is the one the capture compares with.  A recorded
    snapshot holds the names that were scanned, and when the file is read back, every name
    that has no line break and no blank at its ends, as the names of the store do, is read as
    it was. *)
Theorem snapshot_roundtrip {W : Type} `{!FsPaths W} `{!Fs W} `{!FsDirs W} `{HashIter} dir snap (w w' : W)
    (Hrun : record_store_snapshot_from_dir dir snap w = (w', Ok tt)) :
  ∃ names text (w1 w2 : W), scan_store_names dir w = (w1, Ok names) ∧ fs_write snap (utf8 text) w2 = (w', Ok tt) ∧
    (set_Forall line_name names → ∀ file (w3 w4 w5 : W), fs_exists file w3 = (w4, true) →
       fs_read_to_string file w4 = (w5, Ok text) → load_snapshot_set file w3 = (w5, Ok names)).
Proof.
  unfold record_store_snapshot_from_dir in Hrun. inv_task Hrun. inv_task Hrun. clear Ha0. apply io_ok in Hrun.
  exists a, (snapshot_text a), w0, w1. split; [done|]. split; [done|]. intros Hn file w3 w4 w5 Hex Hread.
  unfold load_snapshot_set, mbind, bio_bind, bio_call. rewrite Hex. simpl. rewrite Hread. simpl. unfold mret, bio_ret.
  by rewrite snapshot_lines_text.
Qed.

(** ** Witnesses: a session with one new path *)

Section samples.
#[local] Existing Instance sample_sha2.
#[local] Existing Instance sample_sha2_ok.
(** A clock that stands still. *)
#[local] Instance session_chrono : Chrono := {|
  parse_from_rfc3339 := λ s, if is_empty s then None else Some 29%Z;
  to_rfc3339 := λ _, lit "2026-08-29T00:00:00+00:00"; to_rfc3339_secs := λ _, lit "2026-08-29T00:00:00Z" |}.
#[local] Existing Instance map_order.
#[local] Existing Instance sample_http.
#[local] Existing Instance sample_uri.
#[local] Existing Instance ascii_case.
#[local] Existing Instance sample_build.
#[local] Existing Instance sample_errors.
#[local] Existing Instance sample_debug.
#[local] Existing Instance sample_zstd.
#[local] Existing Instance sample_async_zstd.
#[local] Existing Instance sample_async_zstd_ok.
#[local] Existing Instance sample_index_serde.
#[local] Existing Instance served_manifest_serde.
#[local] Existing Instance sample_root_serde.
#[local] Existing Instance no_payload_serde.
#[local] Existing Instance one_by_one.
#[local] Existing Instance whole_pipe.
#[local] Existing Instance sample_utc.

(** The world is the files that were written, the last first. *)
Notation World := (list (list N * list N)) (only parsing).
#[local] Instance session_tokens : TokenOps World := {|
  tm_cached_token := λ w, (w, None); tm_refresh_token := λ _ w, (w, Ok []) |}.
#[local] Instance session_transport : TransportOps World :=
  let accepted {A} (w : World) : World * outcome TransportError (StatusCode * list A) := (w, Ok (201, [])) in
  @Build_TransportOps World sample_http (λ _ _ w, (w, Ok (404, []))) (λ url _ _ w, (w, Ok (404, [], [])))
    (λ _ _ _ w, (w, Err (TransportIo []))) (λ _ _, accepted) (λ _ _ _, accepted) (λ _ _ _, accepted)
    (λ _ _ _ _ w, (w, Err (TransportIo []))) (λ _ _ _, accepted) (λ _ _, accepted) (λ _ w, w).
#[local] Instance session_processes : Processes World := sample_processes (λ _, [105]).
#[local] Instance session_paths : FsPaths World := {|
  fs_canonicalize := λ p w, (w, Ok p); fs_exists := λ p w, (w, bool_decide (p ∈ w.*1)) |}.
#[local] Instance session_fs : Fs World := {|
  fs_is_dir := λ _ w, (w, false); fs_is_file := λ _ w, (w, false); fs_read_dir := λ _ w, (w, None);
  fs_read_to_string := λ p w, (w, match list_find (λ f, f.1 = p) w with Some (_, (_, text)) => Ok text | None => Err [] end) |}.
#[local] Instance session_dirs : FsDirs World := {|
  fs_list_dir := λ _ w, (w, Ok [Ok (Some (sample_hash ++ lit "-hello")); Ok (Some (lit "a.lock")); Ok None]);
  fs_is_symlink := λ _ w, (w, Ok false); fs_read_link := λ _ w, (w, Err []);
  fs_write := λ p text w, ((p, text) :: w, Ok tt); fs_create_dir_all := λ _ w, (w, Ok tt);
  fs_remove_file := λ _ w, (w, Ok tt) |}.
#[local] Instance session_env : EnvVars World := {| env_var := λ _ _, None |}.
#[local] Instance session_register : HotRegister World := {| post_entries := λ _ _ w, w |}.
#[local] Instance session_json : JsonValue := {|
  Value := unit; value_from_str := λ _, Ok tt; value_u64 := λ _ _, None; value_str := λ _ _, None;
  index_from_value := λ _, Err []; manifest_from_value := λ _, Err [] |}.
#[local] Instance session_nix_json : NixJson := {|
  as_array := λ _, Some [tt]; as_object := λ _, None; as_str := λ _, None; is_null := λ _, false;
  value_get := λ _ _, None; item_from_value := λ _, Ok sample_path_info |}.

Definition session_opts (arch : list N) : SessionCaptureOptions := {|
  so_repo := lit "owner/cache"; so_registry := lit "us-docker.pkg.dev"; so_run_id := 7; so_job_id := lit "build";
  so_system_opt := Some arch; so_signing_key_file := None; so_baseline_tag := lit "cache-index";
  so_output_receipt_path := None; so_proxy_url := None; so_snapshot_before := None; so_export_concurrency := 2;
  so_explicit_paths := [pi_path sample_path_info]; so_out_link_pattern := None; so_targets_expr := None;
  so_capture_mode := RuntimeClosure; so_strict_closure := true; so_workspace_root := lit "/work" |}.
(** The receipts of the session on a known system, and on one that is not. *)
Definition session_export : gmap StoreHash IndexEntry :=
  match @export_single_item_stream World sample_http sample_uri session_transport session_tokens sample_utc
      session_processes whole_pipe sample_sha2 session_chrono sample_build sample_async_zstd
      sample_path_info sample_client UploadConfig_default X86_64Linux (session_origin (session_opts [])) [] with
  | (_, Ok x) => {[ex_store_hash x := ex_index_entry x]}
  | _ => ∅
  end.
Definition session_receipt (arch : SystemArch) (entries : gmap StoreHash IndexEntry) (bytes : N) : BuildReceipt := {|
  rc_version := RECEIPT_VERSION; rc_system := arch; rc_repo := lit "owner/cache";
  rc_origin := session_origin (session_opts []); rc_timestamp := to_rfc3339_secs 29; rc_public_key := None;
  rc_new_entries := entries; rc_active_gc_roots := [mkStoreHash sample_hash];
  rc_stats := {| discovered_outputs := 1; built_paths := 1; substituted_paths := 0; uploaded_blobs := N.of_nat (size entries);
                 total_bytes_uploaded := bytes |} |}.
#[local] Instance BuildStats_eq_dec : EqDecision BuildStats.
Proof. solve_decision. Defined.
#[local] Instance BuildReceipt_eq_dec : EqDecision BuildReceipt.
Proof. solve_decision. Defined.
(** JSON of the two receipts only. *)
Definition known_receipts : list (list N * BuildReceipt) :=
  [([107], session_receipt X86_64Linux session_export 8); ([63], session_receipt Unknown ∅ 0)].
Definition receipt_of_text (s : list N) : outcome (list N) BuildReceipt :=
  match list_find (λ x, x.1 = s) known_receipts with Some (_, (_, r)) => Ok r | None => Err [] end.
#[local] Instance session_serde : Serde BuildReceipt := {|
  to_json := λ r, match list_find (λ x, x.2 = r) known_receipts with Some (_, (s, _)) => Ok s | None => Err [] end;
  from_json_str := receipt_of_text; from_json_slice := receipt_of_text |}.
#[local] Instance session_serde_ok : SerdeOk BuildReceipt.
Proof.
  intros x s. unfold to_json, session_serde. destruct (list_find _ known_receipts) as [[i [t r]]|] eqn:Hf; [|done].
  intros [= <-]. apply list_find_Some in Hf as (Hl & Hr & _). simpl in Hr. subst r.
  destruct i as [|[|i]]; [injection Hl as <- <-..|done]; by split; vm_compute.
Qed.

Definition sample_session (arch : list N) : World * outcome BuilderError unit :=
  run_session_capture (lit "linux") (lit "x86_64") (session_opts arch) [].

Lemma sample_session_runs arch : arch = lit "x86_64-linux" ∨ arch = lit "mips-linux" →
  sample_session arch = ([(lit "receipt.json", if bool_decide (arch = lit "mips-linux") then [63] else [107])], Ok tt).
Proof. intros [-> | ->]; vm_compute; reflexivity. Qed.


Lemma captured_receipt_promotes_witness :
  ∃ receipt json (w1 : World),
    fs_write (lit "receipt.json") (utf8 json) w1 = ([(lit "receipt.json", [107])], Ok tt) ∧ to_json receipt = Ok json ∧
    (SystemArch_is_known (rc_system receipt) = true → ∀ st file (w2 w3 : World), fs_read_to_string file w2 = (w3, Ok json) →
       load_receipt st file w2 = (w3, Ok (take_receipt st receipt))).
Proof.
  apply (captured_receipt_promotes (lit "linux") (lit "x86_64") (session_opts (lit "x86_64-linux")) []).
  - intros now. reflexivity.
  - discriminate.
  - exact (sample_session_runs _ (or_introl eq_refl)).
Defined.

Lemma snapshot_roundtrip_witness :
  ∃ names text (w1 w2 : World), scan_store_names (lit "/nix/store") [] = (w1, Ok names) ∧
    fs_write (lit "snap") (utf8 text) w2 = ([(lit "snap", sample_hash ++ lit "-hello" ++ [10])], Ok tt) ∧
    (set_Forall line_name names → ∀ file (w3 w4 w5 : World), fs_exists file w3 = (w4, true) →
       fs_read_to_string file w4 = (w5, Ok text) → load_snapshot_set file w3 = (w5, Ok names)).
Proof.
  apply (snapshot_roundtrip (lit "/nix/store") (lit "snap") []). vm_compute. reflexivity.
Defined.

(** On a system whose name is not known nothing is uploaded, the session succeeds, and the
    receipt that it leaves is refused when it is read. *)
Theorem unknown_system_receipt_refused :
  (sample_session (lit "mips-linux")).2 = Ok tt ∧
  (sample_session (lit "mips-linux")).1 = [(lit "receipt.json", [63])] ∧
  rc_new_entries (session_receipt Unknown ∅ 0) = ∅ ∧ to_json (session_receipt Unknown ∅ 0) = Ok [63] ∧
  is_ok (Receipt_deserialize (session_receipt Unknown ∅ 0)) = false.
Proof. rewrite sample_session_runs by (by right). vm_compute. done. Qed.
End samples.
