(* ===== verification/BuildRun.v ===== *)
(** * BuildRun: the build worker and the start of a session
    (crates/nixcache-builder/src/worker.rs, session/init.rs, env_injector.rs)

    The proxy that is started beside a build, the build, the export of what it built, and
    the receipt.  The step summaries are reporting and left out. *)

From S2P Require Import Prelude Machine Str Text Error Types Sharding Index Receipt Lookup Filter NixFilter OciError Transport Endpoint Auth Request Driver Upload Manifest ManifestClient IndexClient Ghcr Discovery Builder Cli Promote ReadOnly Nix Export Capture.

Local Open Scope N_scope.

(** A GET whose answer is a success; a pause, in milliseconds; the time since some start,
    in milliseconds; appending to a file; the path of the running program. *)
Class ProxyOps (W : Type) := {
  http_probe : list N → W → W * bool;
  sleep_ms : N → W → W;
  elapsed_ms : W → W * N;
  fs_append : list N → list N → W → W * outcome (list N) unit;
  current_exe : W → option (list N) }.

Section build.
Context {W : Type} `{HttpHeaders} `{UriLib} `{UnicodeCase} `{!TransportOps W} `{!TokenOps W} `{!UtcNow W}.
Context `{!Processes W} `{!FsPaths W} `{!Fs W} `{!FsDirs W} `{!EnvVars W} `{!Concurrent W} `{!DuplexPipe W} `{!HotRegister W}.
Context `{!ProxyOps W}.
Context `{Sha2} `{Chrono} `{HashIter} `{DebugOrigin} `{Build} `{Zstd} `{AsyncZstd} `{SerdeErrors} `{NixJson}.
Context `{!Serde OciImageIndex} `{!Serde OciImageManifest} `{!Serde BuildReceipt} `{!Serde DiscoveredFlakeOutputs}.
Context `{!Serde ShardedArchCacheIndexData} `{!Serde ShardDataPayload}.

Definition get_env (key : list N) : BIO W (option (list N)) := bio_call (λ w, (w, env_var key w)).

(** ** The proxy of a build *)

(** [s.replacen(from, to, 1)] where [from] is a prefix. *)
Definition replace_prefix (from to s : list N) : list N :=
  match strip_prefix from s with Some rest => to ++ rest | None => s end.

(** The first candidate that exists. *)
Fixpoint first_existing (candidates : list (list N)) : BIO W (option (list N)) :=
  match candidates with
  | [] => mret None
  | p :: candidates =>
      present ← bio_call (fs_exists p);
      if (present : bool) then mret (Some p) else first_existing candidates
  end.
Definition find_proxy_binary : BIO W (list N) :=
  explicit ← bio_call (λ w, (w, Env_get_first (λ k, env_var k w) [lit "NIXCACHE_PROXY_BIN"; lit "PROXY_BIN"]));
  exe ← bio_call (λ w, (w, current_exe w));
  let siblings :=
    match exe with
    | Some exe =>
        match path_parent exe with
        | Some parent =>
            (match file_name exe with
             | Some name =>
                 if starts_with (lit "nixcache-builder") name
                 then [path_join parent (replace_prefix (lit "nixcache-builder") (lit "nixcache-proxy") name)] else []
             | None => []
             end) ++ [path_join parent (lit "nixcache-proxy"); path_join parent (lit "nixcache-proxy.exe")]
        | None => []
        end
    | None => []
    end in
  found ← first_existing (match explicit with Some p => [p] | None => [] end ++ siblings);
  mret (default (lit "nixcache-proxy") found).

Definition export_to_github_env (nix_config : list N) : BIO W unit :=
  path ← get_env (lit "GITHUB_ENV");
  match github_env_payload nix_config, path with
  | Some payload, Some path => io (fs_append path (utf8 payload))
  | _, _ => mret tt
  end.

Definition optional_username (registry_username : option (list N)) : list (list N * list N) :=
  match registry_username with Some u => [(lit "REGISTRY_USERNAME", u)] | None => [] end.

(** What the environment of the proxy of a build is set to. *)
Definition substituter_envs (repo registry baseline_tag github_token : list N) (registry_username : option (list N))
    : list (list N * list N) :=
  [(lit "NIXCACHE_REPO", repo); (lit "NIXCACHE_REGISTRY", registry); (lit "NIXCACHE_PORT", lit "37515");
   (lit "NIXCACHE_LISTEN", lit "127.0.0.1"); (lit "NIXCACHE_UPSTREAM", []);
   (lit "NIXCACHE_BASELINE_TAG", baseline_tag); (lit "GITHUB_TOKEN", github_token)]
  ++ optional_username registry_username.

Definition proxy_exited (status : ExitStatus) : BuilderError :=
  BuilderProxy (lit "Proxy process exited prematurely: exited with code: " ++ es_display status).

(** The rounds that wait for the proxy: [Some true] when it answers, [Some false] when it
    has exited or the rounds are used up. *)
Fixpoint await_proxy (rounds : nat) (child : Child) (strict : bool) : BIO W bool :=
  match rounds with
  | O => mret false
  | S rounds =>
      waited ← bio_call (child_try_wait child);
      match waited with
      | Ok (Some status) => if strict then fail (Err (proxy_exited status)) else mret false
      | _ =>
          answered ← bio_call (http_probe (lit "http://127.0.0.1:37515/nix-cache-info"));
          if (answered : bool) then mret true
          else
            _ ← bio_call (λ w, (sleep_ms 1000 w, tt));
            await_proxy rounds child strict
      end
  end.

(** [self.child.take()] killed. *)
Definition stop_proxy (child : option Child) (w : W) : W :=
  match child with Some child => child_kill child w | None => w end.

(** The child is killed as well when the task gives up on it. *)
Definition killing {A} (child : option Child) (m : BIO W A) : BIO W A := λ w,
  match m w with
  | (w, Ok a) => (w, Ok a)
  | (w, o) => (stop_proxy child w, o)
  end.

Definition own_keys (pub_key : option (list N)) : list (list N) := match pub_key with Some k => [k] | None => [] end.

Definition setup_self_substituter (repo registry baseline_tag github_token : list N) (registry_username signing_key_file : option (list N))
    (strict : bool) : BIO W (option Child) :=
  proxy_bin ← find_proxy_binary;
  spawned ← bio_call (process_spawn {| cmd_program := proxy_bin; cmd_args := [];
    cmd_envs := substituter_envs repo registry baseline_tag github_token registry_username |});
  match spawned with
  | Ok child =>
      ready ← await_proxy 15 child strict;
      if (ready : bool) then
        pub_key ← get_own_public_key signing_key_file;
        _ ← bio_try (export_to_github_env (generate_nix_config [lit "http://127.0.0.1:37515"] (own_keys pub_key)));
        mret (Some child)
      else if strict then
        _ ← bio_call (λ w, (child_kill child w, tt));
        fail (Err (BuilderProxy (lit "Failed to wait for proxy health check: Self-substituter proxy failed to become ready (timed out after 15s)")))
      else mret (Some child)
  | Err e =>
      if strict then fail (Err (BuilderProxy (lit "Proxy process failed to start or bind: Failed to spawn nixcache-proxy: " ++ e)))
      else mret None
  | Panic => fail Panic
  end.

(** ** The build worker *)

Record BuildWorkerOptions := {
  bo_build_config : BuildConfig;
  bo_repo : list N;
  bo_registry : list N;
  bo_signing_key_file : option (list N);
  bo_github_token : list N;
  bo_username : option (list N);
  bo_baseline_tag : list N;
  bo_output_receipt_path : list N;
  bo_strict : bool;
  bo_export_concurrency : N }.

Definition build_system (config : BuildConfig) : BIO W SystemArch :=
  match bc_system config with
  | Some s => if is_empty (trim s) then s ← current_system; mret (SystemArch_from s) else mret (SystemArch_from (trim s))
  | None => s ← current_system; mret (SystemArch_from s)
  end.

Definition build_origin : BIO W (option OriginMetadata) :=
  run ← get_env (lit "GITHUB_RUN_ID");
  job ← get_env (lit "GITHUB_JOB");
  let run_id := run ≫= λ v, ok (parse_u64 v) in
  let job_id := match job with Some v => if is_empty (trim v) then None else Some v | None => None end in
  mret (match run_id, job_id with None, None => None | _, _ => Some {| run_id := run_id; job_id := job_id |} end).

(** What the build leaves for the receipt. *)
Record BuiltOutputs := {
  bt_discovered : list BuildTarget;
  bt_output_paths : list (list N);
  bt_upload_list : list (list N);
  bt_entries : gmap StoreHash IndexEntry;
  bt_uploaded_count : N;
  bt_total_bytes : N }.

(** Steps 2 to 6, while the proxy runs. *)
Definition build_and_export (opts : BuildWorkerOptions) (arch : SystemArch) (orig : option OriginMetadata) : BIO W BuiltOutputs :=
  discovered ← discover_outputs (bo_build_config opts);
  output_paths ← build_outputs discovered;
  self ← oci (lift (create_tokio_reqwest_client (bo_registry opts) (bo_repo opts)));
  own_hashes ← fetch_remote_arch_hashes self arch (bo_baseline_tag opts);
  upload_list ← find_locally_built_paths output_paths (StoreHash_as_str <$> set_iter own_hashes);
  taken ←
    (if bool_decide (upload_list = []) then mret (∅, 0, 0)
     else
       report ← export_and_upload_paths upload_list self {|
         pe_concurrency := bo_export_concurrency opts; pe_signing_key_file := bo_signing_key_file opts;
         pe_strict := bo_strict opts; pe_upload_config := UploadConfig_default; pe_system := arch; pe_origin := orig |};
       taken ← bio_fold take_exported (∅, 0, 0) (er_successful report);
       if bo_strict opts && negb (bool_decide (er_failed report = []))
       then fail (Err (ParallelExportFailed (usize_len (er_failed report))))
       else mret taken);
  let '(new_entries, uploaded_count, total_bytes_uploaded) := taken in
  _ ← (if bool_decide (new_entries = ∅) then mret tt
       else
         answered ← bio_call (http_probe (lit "http://127.0.0.1:37515/nix-cache-info"));
         if (answered : bool)
         then bio_call (λ w, (post_entries (lit "http://127.0.0.1:37515/_session/register") new_entries w, tt))
         else mret tt);
  mret {| bt_discovered := discovered; bt_output_paths := output_paths; bt_upload_list := upload_list;
          bt_entries := new_entries; bt_uploaded_count := uploaded_count; bt_total_bytes := total_bytes_uploaded |}.

(** The hash of an output; a name that is cut inside a character panics. *)
Definition output_root (p : list N) : outcome CoreError (option StoreHash) :=
  match file_name p with
  | None => Ok None
  | Some name =>
      if (32 <=? str_len name)%nat then s ← or_panic (slice_to 32 name); Ok (ok (StoreHash_parse s)) else Ok None
  end.

(** The directory of the receipt must be there: an error of [create_dir_all] counts. *)
Definition write_build_receipt (receipt_path : list N) (receipt : BuildReceipt) : BIO W unit :=
  _ ← match path_parent receipt_path with
      | Some parent => if is_empty parent then mret tt else io (fs_create_dir_all parent)
      | None => mret tt
      end;
  receipt_json ← json (to_json receipt);
  io (fs_write receipt_path (utf8 receipt_json)).

Definition run_build_worker (opts : BuildWorkerOptions) : BIO W unit :=
  arch ← build_system (bo_build_config opts);
  orig ← build_origin;
  child ← setup_self_substituter (bo_repo opts) (bo_registry opts) (bo_baseline_tag opts) (bo_github_token opts)
            (bo_username opts) (bo_signing_key_file opts) (bo_strict opts);
  built ← killing child (build_and_export opts arch orig);
  _ ← bio_call (λ w, (stop_proxy child w, tt));
  roots ← core (collect_m output_root (bt_output_paths built));
  pub_key ← get_own_public_key (bo_signing_key_file opts);
  now ← bio_call utc_now;
  receipt ← core (Receipt_new arch (bo_repo opts) (to_rfc3339_secs now) pub_key (bt_entries built)
    (dedup (merge_sort StoreHash_le (omap id roots))) {|
      discovered_outputs := usize_len (bt_discovered built); built_paths := usize_len (bt_output_paths built);
      substituted_paths := 0; uploaded_blobs := bt_uploaded_count built; total_bytes_uploaded := bt_total_bytes built |} orig);
  write_build_receipt (bo_output_receipt_path opts) receipt.

(** ** The start of a session *)

Record SessionInitOptions := {
  si_repo : list N;
  si_registry : list N;
  si_port : N;
  si_listen : list N;
  si_upstream : list N;
  si_baseline_ttl : N;
  si_baseline_tag : list N;
  si_github_token : list N;
  si_registry_username : option (list N);
  si_signing_key_file : option (list N);
  si_snapshot_path : option (list N) }.

(** The loop that waits ten seconds for the proxy, with pauses that double up to a tenth of
    a second; [None] is fuel used up. *)
Fixpoint await_session (fuel : nat) (child : Child) (probe_url : list N) (backoff : N) : BIO W (option bool) :=
  match fuel with
  | O => mret None
  | S fuel =>
      elapsed ← bio_call elapsed_ms;
      if negb (elapsed <? 10000) then mret (Some false)
      else
        waited ← io (child_try_wait child);
        match waited with
        | Some status => fail (Err (proxy_exited status))
        | None =>
            answered ← bio_call (http_probe probe_url);
            if (answered : bool) then mret (Some true)
            else
              _ ← bio_call (λ w, (sleep_ms backoff w, tt));
              await_session fuel child probe_url (N.min (backoff * 2) 100)
        end
  end.

(** What the environment of the proxy of a session is set to. *)
Definition session_envs (opts : SessionInitOptions) : list (list N * list N) :=
  [(lit "NIXCACHE_REPO", si_repo opts); (lit "NIXCACHE_REGISTRY", si_registry opts);
   (lit "NIXCACHE_PORT", show_N (si_port opts)); (lit "NIXCACHE_LISTEN", si_listen opts);
   (lit "NIXCACHE_UPSTREAM", si_upstream opts); (lit "NIXCACHE_INDEX_TTL", show_N (si_baseline_ttl opts));
   (lit "NIXCACHE_BASELINE_TAG", si_baseline_tag opts); (lit "GITHUB_TOKEN", si_github_token opts)]
  ++ optional_username (si_registry_username opts).

Definition run_session_init (fuel : nat) (opts : SessionInitOptions) : BIO W (option unit) :=
  proxy_bin ← find_proxy_binary;
  child ← io (process_spawn {| cmd_program := proxy_bin; cmd_args := [];
    cmd_envs := session_envs opts |});
  let proxy_substituter := lit "http://" ++ si_listen opts ++ lit ":" ++ show_N (si_port opts) in
  ready ← await_session fuel child (proxy_substituter ++ lit "/nix-cache-info") 10;
  match ready with
  | None => mret None
  | Some false => fail (Err (BuilderProxy (lit "Failed to wait for proxy health check: Proxy failed to become ready on "
                                           ++ proxy_substituter)))
  | Some true =>
      pub_key ← get_own_public_key (si_signing_key_file opts);
      _ ← export_to_github_env (generate_nix_config [proxy_substituter] (own_keys pub_key));
      _ ← match si_snapshot_path opts with Some snap => record_store_snapshot snap | None => mret tt end;
      mret (Some tt)
  end.
End build.

(** ** Facts *)

Section facts.
Context {W : Type} `{HttpHeaders} `{UriLib} `{UnicodeCase} `{!TransportOps W} `{!TokenOps W} `{!UtcNow W}.
Context `{!Processes W} `{!FsPaths W} `{!Fs W} `{!FsDirs W} `{!EnvVars W} `{!Concurrent W} `{!DuplexPipe W} `{!HotRegister W}.
Context `{!ProxyOps W}.
Context `{Sha2Ok} `{Chrono} `{HashIter} `{DebugOrigin} `{Build} `{AsyncZstdOk} `{SerdeErrors} `{NixJson}.
Context `{!Serde OciImageIndex} `{!Serde OciImageManifest} `{!Serde BuildReceipt} `{!Serde DiscoveredFlakeOutputs}.
Context `{!Serde ShardedArchCacheIndexData} `{!Serde ShardDataPayload}.

(** What was queried once more before the export, and how the export went. *)
Lemma export_paths_ok paths self config (w w' : W) report :
  export_and_upload_paths paths self config w = (w', Ok report) → paths ≠ [] →
  ∃ items rs w1 w2, batch_fetch_path_infos_typed paths 128 w1 = (w2, Ok items) ∧
    Forall2 (export_outcome (W := W) self config) items rs ∧ er_successful report ≡ₚ successes rs ∧
    er_failed report ≡ₚ failures rs ∧ (pe_strict config = true → failures rs = []) ∧ Forall (λ r, r.2 ≠ Panic) rs.
Proof.
  unfold export_and_upload_paths. intros Hx Hne. rewrite bool_decide_false in Hx by done. inv_task Hx. inv_task Hx.
  apply export_report_ok in Hx as (rs & Hrs & Hs & Hf & Hstrict & Hnp). exists a0, rs, w0, w1. split_and!; try done.
Qed.

(** The entries of a build and the paths they come from. *)
Definition built_from (self : OciClient) (config : ParallelExportConfig) (items : list NixPathInfoItem)
    (entries : gmap StoreHash IndexEntry) : Prop :=
  (∀ h e, entries !! h = Some e → ∃ item x, item ∈ items ∧
     exported_from (W := W) item (pe_system config) (pe_origin config) x ∧ ex_store_hash x = h ∧ ex_index_entry x = e) ∧
  (∀ item, item ∈ items →
     (∃ h, @PathInfo_store_hash Empty_set item = Ok (Some h) ∧ is_Some (entries !! h)) ∨
     pe_strict config = false ∧ ∃ e (w1 w2 : W), export_task self config item w1 = (w2, Err e)).

Lemma built_entries self config items rs (xs : list ExportedStorePath) (w w' : W) entries count bytes :
  Forall2 (export_outcome (W := W) self config) items rs → xs ≡ₚ successes rs →
  (pe_strict config = true → failures rs = []) → Forall (λ r, r.2 ≠ Panic) rs →
  bio_fold take_exported (∅, 0, 0) xs w = (w', Ok (entries, count, bytes)) → built_from self config items entries.
Proof.
  intros Hrs Hxs Hstrict Hnp Hf. apply take_exported_fold in Hf as (_ & Hfrom & _ & Hinto). simpl in Hfrom, Hinto. split.
  - intros h e [He|(x & Hx & <- & <-)]%Hfrom; [by rewrite lookup_empty in He|]. rewrite Hxs in Hx.
    unfold successes in Hx. apply list_elem_of_omap in Hx as ([p r] & Hr & Hok).
    destruct r as [x'|?|]; [|done..]. injection Hok as ->. apply list_elem_of_lookup in Hr as [i Hr].
    destruct (Forall2_lookup_r _ _ _ _ _ Hrs Hr) as (item & Hi & _ & w1 & w2 & [Hexp _]%export_single_ok).
    exists item, x. split; [by eapply list_elem_of_lookup_2|done].
  - intros item [i Hi]%list_elem_of_lookup.
    destruct (Forall2_lookup_l _ _ _ _ _ Hrs Hi) as ([p r] & Hr & Hp & w1 & w2 & Ht).
    apply list_elem_of_lookup_2 in Hr. simpl in Ht. destruct r as [x|e|].
    + left. exists (ex_store_hash x). pose proof Ht as [Hexp _]%export_single_ok. split; [apply Hexp|]. apply Hinto.
      rewrite Hxs. unfold successes. apply list_elem_of_omap. by exists (p, Ok x).
    + right. split; [|by exists e, w1, w2]. destruct (pe_strict config); [|done]. exfalso.
      assert (Hin : (p, e) ∈ failures rs) by (unfold failures; apply list_elem_of_omap; by exists (p, Err e)).
      rewrite Hstrict in Hin by done. by apply not_elem_of_nil in Hin.
    + rewrite Forall_forall in Hnp. by apply Hnp in Hr.
Qed.

Definition build_config (opts : BuildWorkerOptions) (arch : SystemArch) (orig : option OriginMetadata) : ParallelExportConfig := {|
  pe_concurrency := bo_export_concurrency opts; pe_signing_key_file := bo_signing_key_file opts;
  pe_strict := bo_strict opts; pe_upload_config := UploadConfig_default; pe_system := arch; pe_origin := orig |}.

Lemma build_and_export_ok opts arch orig (w w' : W) built : build_and_export opts arch orig w = (w', Ok built) →
  ∃ self items (w1 w2 w3 w4 : W) known, build_outputs (bt_discovered built) w1 = (w2, Ok (bt_output_paths built)) ∧
    find_locally_built_paths (bt_output_paths built) known w3 = (w4, Ok (bt_upload_list built)) ∧
    (bt_upload_list built = [] ∧ items = [] ∨
     ∃ w5 w6 : W, batch_fetch_path_infos_typed (bt_upload_list built) 128 w5 = (w6, Ok items)) ∧
    built_from self (build_config opts arch orig) items (bt_entries built).
Proof.
  unfold build_and_export. intros Hb. inv_task Hb. rename a into discovered. clear Ha. inv_task Hb. rename a into outputs, Ha into Hout.
  inv_task Hb. rename a into self. apply lift_ok in Ha as [-> _]. inv_task Hb. rename a into own. clear Ha.
  inv_task Hb. rename a into uploads, Ha into Hup. inv_task Hb. destruct a as [[entries count] bytes]. rename Ha into Htaken.
  inv_task Hb. clear Ha. apply bio_ret_ok in Hb as [-> ->]. simpl. case_bool_decide as Hu.
  - apply bio_ret_ok in Htaken as [-> [= -> -> ->]]. exists self, []. do 5 eexists. split_and!; [done..|by left|].
    split; [intros h e He; by rewrite lookup_empty in He|]. intros item []%not_elem_of_nil.
  - inv_task Htaken. rename a0 into report. inv_task Htaken. destruct a0 as [[entries' count'] bytes'].
    destruct (_ && _); [by apply fail_ok in Htaken as [_ ?]|]. apply bio_ret_ok in Htaken as [-> [= -> -> ->]].
    apply export_paths_ok in Ha as (items & rs & wq1 & wq2 & Hq & Hrs & Hs & _ & Hstrict & Hnp); [|done].
    exists self, items. do 5 eexists. split_and!; [done..|right; by eauto|]. by eapply built_entries.
Qed.

Lemma killing_ok {A} child (m : BIO W A) w w' a : killing child m w = (w', Ok a) → m w = (w', Ok a).
Proof. unfold killing. destruct (m w) as [w1 [x|e|]]; naive_solver. Qed.
End facts.

(** ** Properties *)



(** ** Witnesses: a build of one path *)

Section samples.
#[local] Existing Instance sample_sha2.
#[local] Existing Instance sample_sha2_ok.
#[local] Existing Instance Types.sample_chrono.
#[local] Existing Instance map_order.
#[local] Existing Instance sample_http.
#[local] Existing Instance sample_uri.
#[local] Existing Instance ascii_case.
#[local] Existing Instance sample_build.
#[local] Existing Instance sample_errors.
#[local] Existing Instance sample_debug.
#[local] Existing Instance sample_zstd.
#[local] Existing Instance sample_async_zstd.
#[local] Existing Instance sample_async_zstd_ok.
#[local] Existing Instance sample_index_serde.
#[local] Existing Instance served_manifest_serde.
#[local] Existing Instance sample_root_serde.
#[local] Existing Instance no_payload_serde.
#[local] Existing Instance no_outputs_serde.
#[local] Existing Instance one_by_one.
#[local] Existing Instance whole_pipe.
#[local] Existing Instance sample_utc.

(** The world: whether the proxy runs, and the files that were written. *)
Notation World := (bool * list (list N * list N))%type (only parsing).
#[local] Instance build_tokens : TokenOps World := {|
  tm_cached_token := λ w, (w, None); tm_refresh_token := λ _ w, (w, Ok []) |}.
#[local] Instance build_transport : TransportOps World :=
  let accepted {A} (w : World) : World * outcome TransportError (StatusCode * list A) := (w, Ok (201, [])) in
  @Build_TransportOps World sample_http (λ _ _ w, (w, Ok (404, []))) (λ url _ _ w, (w, Ok (404, [], [])))
    (λ _ _ _ w, (w, Err (TransportIo []))) (λ _ _, accepted) (λ _ _ _, accepted) (λ _ _ _, accepted)
    (λ _ _ _ _ w, (w, Err (TransportIo []))) (λ _ _ _, accepted) (λ _ _, accepted) (λ _ w, w).
#[local] Instance build_processes : Processes World := {|
  Child := unit;
  process_output := λ _ w, (w, Ok {| out_status := sample_status; out_stdout := [105]; out_stderr := [] |});
  process_status := λ _ w, (w, Ok sample_status);
  process_spawn := λ cmd w, ((bool_decide (cmd_program cmd = lit "nixcache-proxy") || w.1, w.2), Ok tt);
  child_communicate := λ _ _ w, (w, Ok {| out_status := sample_status; out_stdout := []; out_stderr := [] |});
  child_reads := λ _ w, (w, [Ok [1; 2; 3]; Ok [4]]); child_wait := λ _ w, (w, Ok sample_status);
  child_try_wait := λ _ w, (w, Ok None); child_kill := λ _ w, (false, w.2) |}.
#[local] Instance build_paths_ops : FsPaths World := {|
  fs_canonicalize := λ p w, (w, Ok p); fs_exists := λ p w, (w, false) |}.
#[local] Instance build_fs : Fs World := {|
  fs_is_dir := λ _ w, (w, false); fs_is_file := λ _ w, (w, false); fs_read_dir := λ _ w, (w, None);
  fs_read_to_string := λ p w, (w, Err []) |}.
#[local] Instance build_dirs : FsDirs World := {|
  fs_list_dir := λ _ w, (w, Ok []); fs_is_symlink := λ _ w, (w, Ok false); fs_read_link := λ _ w, (w, Err []);
  fs_write := λ p text w, ((w.1, (p, text) :: w.2), Ok tt); fs_create_dir_all := λ _ w, (w, Ok tt);
  fs_remove_file := λ _ w, (w, Ok tt) |}.
#[local] Instance build_env : EnvVars World := {| env_var := λ k _, if bool_decide (k = lit "GITHUB_RUN_ID") then Some (lit "7") else None |}.
#[local] Instance build_register : HotRegister World := {| post_entries := λ _ _ w, w |}.
#[local] Instance build_proxy : ProxyOps World := {|
  http_probe := λ _ w, (w, w.1); sleep_ms := λ _ w, w; elapsed_ms := λ w, (w, 0);
  fs_append := λ _ _ w, (w, Ok tt); current_exe := λ _, None |}.
#[local] Instance build_json : JsonValue := {|
  Value := unit; value_from_str := λ _, Ok tt; value_u64 := λ _ _, None; value_str := λ _ _, None;
  index_from_value := λ _, Err []; manifest_from_value := λ _, Err [] |}.
#[local] Instance build_nix_json : NixJson := {|
  as_array := λ _, Some [tt]; as_object := λ _, Some [(lit "out", tt)]; as_str := λ _, Some (pi_path sample_path_info);
  is_null := λ _, false; value_get := λ _ _, Some tt; item_from_value := λ _, Ok sample_path_info |}.
#[local] Instance build_serde : Serde BuildReceipt := {|
  to_json := λ r, Ok (show_N (N.of_nat (size (rc_new_entries r)))); from_json_str := λ _, Err []; from_json_slice := λ _, Err [] |}.

Definition sample_worker : BuildWorkerOptions := {|
  bo_build_config := {| bc_system := Some (lit "x86_64-linux"); bc_mode := NonFlake; bc_flake_path := lit ".";
    bc_file := lit "default.nix"; bc_attributes := [lit "hello"] |};
  bo_repo := lit "owner/cache"; bo_registry := lit "us-docker.pkg.dev"; bo_signing_key_file := None;
  bo_github_token := []; bo_username := None; bo_baseline_tag := lit "cache-index";
  bo_output_receipt_path := lit "out/receipt.json"; bo_strict := true; bo_export_concurrency := 2 |}.
Lemma sample_build_runs : run_build_worker sample_worker (false, []) = ((false, [(lit "out/receipt.json", lit "1")]), Ok tt).
Proof. vm_compute. reflexivity. Qed.


End samples.
