(* ===== verification/Listing.v ===== *)
(** * Listing: the list command
    (crates/nixcache-builder/src/list.rs, crates/nixcache-cli/src/args/list.rs)

    The roots and entries under a tag are loaded as the purge loads them, the query engine
    selects, and the report is printed in one of five formats.  Standard output takes what
    is printed; the step summary is reporting and left out. *)

From S2P Require Import Prelude Machine Str Text Float64 Error Types Sharding Index Filter Graph Query Purge OciError Transport Endpoint Auth Request Driver Upload Manifest ManifestClient IndexClient Ghcr Discovery Deletion Builder Cli ReadOnly Lookup NixFilter Promote Nix PurgeRun Export Capture.

Local Open Scope N_scope.

(** Standard output, line by line, and [OpenOptions::new().create(true).append(true).open(..)],
    the file being dropped. *)
Class ListIo (W : Type) := {
  printed : W → list (list N);
  print_line : list N → W → W;
  printed_line : ∀ s w, printed (print_line s w) = printed w ++ [s];
  fs_open_append : list N → W → W }.

(** ** Arguments *)

Inductive OutputFormat := Table | Json | Ndjson | Paths | Summary.
Record ListArgs := {
  la_selector : CacheSelectorArgs;
  la_target_tag : option (list N);
  la_format : OutputFormat;
  la_sort_by : option (list N);
  la_sort_order : option (list N);
  la_limit : option N;
  la_details : bool }.

Section args.
Context `{UnicodeCase} `{Build} (env : list N → option (list N)) (self : ListArgs).

Definition resolve_target_tag : list N :=
  default (lit "cache-index") (arg_or_env env (la_target_tag self) [lit "NIXCACHE_TARGET_TAG"]).
Definition resolve_format : OutputFormat :=
  match Env_get env (lit "NIXCACHE_OUTPUT_FORMAT") with
  | Some env_fmt =>
      let fmt := to_ascii_lowercase env_fmt in
      if bool_decide (fmt = lit "json") then Json
      else if bool_decide (fmt = lit "ndjson") then Ndjson
      else if bool_decide (fmt ∈ [lit "paths"; lit "path"]) then Paths
      else if bool_decide (fmt = lit "summary") then Summary
      else if bool_decide (fmt = lit "table") then Table
      else la_format self
  | None => la_format self
  end.
(** [usize::from_str]. *)
Definition Env_parse_usize (key : list N) : option N :=
  s ← Env_get env key; n ← ok (parse_u64 s); if n <? usize_bound then Some n else None.
Definition resolve_limit : option N :=
  match la_limit self with Some n => Some n | None => Env_parse_usize (lit "NIXCACHE_LIMIT") end.
Definition resolve_details : bool :=
  if la_details self then true else default false (Env_get_bool env (lit "NIXCACHE_DETAILS")).
End args.

(** ** Sizes as text *)

(** [{:.2}] of a finite [f64] that is not negative: its hundredths, to nearest, ties to even. *)
Definition hundredths (x : f64) : N :=
  match x with
  | SpecFloat.S754_finite _ m (Zneg e) =>
      let d := 2 ^ Npos e in
      let q := Npos m * 100 / d in
      let r := Npos m * 100 mod d in
      match 2 * r ?= d with Lt => q | Gt => q + 1 | Eq => if N.even q then q else q + 1 end
  | SpecFloat.S754_finite _ m (Zpos e) => Npos m * 2 ^ Npos e * 100
  | SpecFloat.S754_finite _ m Z0 => Npos m * 100
  | _ => 0
  end.
Definition fmt_2 (x : f64) : list N :=
  let h := hundredths x in
  show_N (h / 100) ++ lit "." ++ show_N (h mod 100 / 10) ++ show_N (h mod 10).

Definition format_bytes (bytes : N) : list N :=
  let scaled unit suffix := fmt_2 (f64_div (f64_of_N bytes) (f64_of_N unit)) ++ suffix in
  if 2 ^ 40 <=? bytes then scaled (2 ^ 40) (lit " TiB")
  else if 2 ^ 30 <=? bytes then scaled (2 ^ 30) (lit " GiB")
  else if 2 ^ 20 <=? bytes then scaled (2 ^ 20) (lit " MiB")
  else if 2 ^ 10 <=? bytes then scaled (2 ^ 10) (lit " KiB")
  else show_N bytes ++ lit " B".

(** ** The report *)

Record ArchStat := { st_count : N; st_bytes : N; st_roots_count : N }.
Record ListItemDto := {
  li_hash : list N;
  li_name : list N;
  li_system : list N;
  li_store_path : list N;
  li_nar_basename : list N;
  li_nar_size : N;
  li_nar_size_human : list N;
  li_added : list N;
  li_reason : list N;
  li_references : list (list N);
  li_nar_digest : list N }.
Record CacheListSummaryReport := {
  rp_target_tag : list N;
  rp_registry : list N;
  rp_repo : list N;
  rp_total_entries : N;
  rp_total_bytes : N;
  rp_matched_entries : N;
  rp_matched_bytes : N;
  rp_arch_breakdown : gmap (list N) ArchStat;
  rp_items : list ListItemDto }.
Definition empty_stat : ArchStat := {| st_count := 0; st_bytes := 0; st_roots_count := 0 |}.

Definition system_text (s : option SystemArch) : list N :=
  match s with Some s => SystemArch_as_str s | None => lit "unknown" end.

(** [to_string_pretty] of the report, [to_string] of an item and of items. *)
Class ListJson := {
  report_json : CacheListSummaryReport → outcome (list N) (list N);
  item_json : ListItemDto → outcome (list N) (list N);
  items_json : list ListItemDto → outcome (list N) (list N) }.

Definition count_entry `{Build} (stats : gmap (list N) ArchStat) (entry : IndexEntry)
    : outcome BuilderError (gmap (list N) ArchStat) :=
  let key := system_text (system entry) in
  let stat := default empty_stat (stats !! key) in
  bytes ← arith_add u64_bound (st_bytes stat) (nar_size entry);
  Ok (<[key := {| st_count := st_count stat + 1; st_bytes := bytes; st_roots_count := st_roots_count stat |}]> stats).
Definition count_roots (stats : gmap (list N) ArchStat) (roots : SystemArch * list StoreHash) : gmap (list N) ArchStat :=
  let key := SystemArch_as_str roots.1 in
  let stat := default empty_stat (stats !! key) in
  <[key := {| st_count := st_count stat; st_bytes := st_bytes stat; st_roots_count := N.of_nat (length roots.2) |}]> stats.

Definition list_item (query_res : CacheQueryResult) (matched : StoreHash * IndexEntry) : ListItemDto :=
  let '(hash, entry) := matched in
  {| li_hash := StoreHash_as_str hash; li_name := name entry; li_system := system_text (system entry);
     li_store_path := store_path (narinfo_meta entry); li_nar_basename := nar_basename (narinfo_meta entry);
     li_nar_size := nar_size entry; li_nar_size_human := format_bytes (nar_size entry); li_added := added entry;
     li_reason := default (lit "Match") (reason_map query_res !! hash); li_references := references (narinfo_meta entry);
     li_nar_digest := NarDigest_as_str (nar_digest entry) |}.

(** [sort_by], which is stable: an element goes before those it is not greater than. *)
Fixpoint insert_by {A} (cmp : A → A → comparison) (x : A) (l : list A) : list A :=
  match l with
  | [] => [x]
  | y :: l => match cmp x y with Gt => y :: insert_by cmp x l | _ => x :: y :: l end
  end.
Definition sort_by {A} (cmp : A → A → comparison) (l : list A) : list A := foldr (insert_by cmp) [] l.

Definition str_cmp (a b : list N) : comparison := bytes_cmp (utf8 a) (utf8 b).
Definition item_cmp (field : SortBy) (a b : ListItemDto) : comparison :=
  match field with
  | AddedDate => str_cmp (li_added a) (li_added b)
  | SortNarSize => li_nar_size a ?= li_nar_size b
  | SortName => str_cmp (li_name a) (li_name b)
  | SortStoreHash => str_cmp (li_hash a) (li_hash b)
  end.
Definition item_order (field : SortBy) (order : SortOrder) (a b : ListItemDto) : comparison :=
  match order with Asc => item_cmp field a b | Desc => CompOpp (item_cmp field a b) end.

Definition list_report `{Build} `{HashIter} (target_tag registry repo : list N) (field : SortBy) (order : SortOrder)
    (all_entries : gmap StoreHash IndexEntry) (all_gc_roots : gmap SystemArch (list StoreHash)) (query_res : CacheQueryResult)
    : outcome BuilderError CacheListSummaryReport :=
  let values := (hash_iter all_entries).*2 in
  total_bytes ← arith_sum u64_bound (nar_size <$> values);
  counted ← fold_m count_entry ∅ values;
  Ok {| rp_target_tag := target_tag; rp_registry := registry; rp_repo := repo;
        rp_total_entries := N.of_nat (size all_entries); rp_total_bytes := total_bytes;
        rp_matched_entries := N.of_nat (size (matched_entries query_res)); rp_matched_bytes := matched_bytes query_res;
        rp_arch_breakdown := foldl count_roots counted (hash_iter all_gc_roots);
        rp_items := sort_by (item_order field order) (list_item query_res <$> hash_iter (matched_entries query_res)) |}.

(** ** Rendering *)

(** [{:<n}] and [{:>n}], which count characters. *)
Definition pad_right (n : nat) (s : list N) : list N := s ++ replicate (n - length s) 32.
Definition pad_left (n : nat) (s : list N) : list N := replicate (n - length s) 32 ++ s.
Definition rule : list N := replicate 88 9472 ++ [10].
Definition details_mark : list N := lit "     " ++ [9492; 9472].

Definition name_display (item : ListItemDto) : outcome BuilderError (list N) :=
  if (32 <? str_len (li_name item))%nat then s ← or_panic (slice_to 29 (li_name item)); Ok (s ++ lit "...")
  else if is_empty (li_name item) then Ok (li_hash item)
  else Ok (li_name item).
Definition added_display (item : ListItemDto) : outcome BuilderError (list N) :=
  if (19 <=? str_len (li_added item))%nat then or_panic (slice_to 19 (li_added item)) else Ok (li_added item).

Definition table_row (cells : list N * list N * list N * list N * list N * list N) : list N :=
  let '(a, b, c, d, e, f) := cells in
  pad_right 4 a ++ lit " " ++ pad_right 34 b ++ lit " " ++ pad_right 16 c ++ lit " " ++ pad_right 10 d ++ lit " "
  ++ pad_right 20 e ++ lit " " ++ f ++ [10].
Definition item_details (item : ListItemDto) : list N :=
  details_mark ++ lit " Path:   " ++ li_store_path item ++ [10]
  ++ details_mark ++ lit " Digest: " ++ li_nar_digest item ++ [10]
  ++ match li_references item with
     | [] => []
     | refs => details_mark ++ lit " References (" ++ show_N (usize_len refs) ++ lit "): " ++ join (lit ", ") refs ++ [10]
     end.
Definition item_row (details : bool) (acc : N * list N) (item : ListItemDto) : outcome BuilderError (N * list N) :=
  let '(idx, out) := acc in
  name ← name_display item;
  added ← added_display item;
  let row := table_row (show_N (idx + 1), name, li_system item, li_nar_size_human item, added, li_reason item) in
  Ok (idx + 1, out ++ row ++ if details then item_details item else []).

Definition sorted_archs `{HashIter} (breakdown : gmap (list N) ArchStat) : list (list N * ArchStat) :=
  sort_by (λ a b, str_cmp a.1 b.1) (hash_iter breakdown).
Definition arch_row (arch : list N * ArchStat) : list N :=
  lit "   " ++ [8226] ++ lit " " ++ pad_right 16 arch.1 ++ lit ": " ++ pad_left 4 (show_N (st_count arch.2)) ++ lit " entries | "
  ++ pad_left 10 (format_bytes (st_bytes arch.2)) ++ lit " | " ++ pad_left 3 (show_N (st_roots_count arch.2))
  ++ lit " active GC roots" ++ [10].

Definition format_table `{HashIter} (report : CacheListSummaryReport) (displayed_items : list ListItemDto) (details : bool)
    : outcome BuilderError (list N) :=
  let head :=
    10 :: 128230 :: lit " NixCache Build Cache Inspector: " ++ rp_registry report ++ lit "/" ++ rp_repo report
    ++ lit " [Tag: " ++ rp_target_tag report ++ lit "]" ++ [10]
    ++ 128202 :: lit " Total: " ++ show_N (rp_total_entries report) ++ lit " entries (" ++ format_bytes (rp_total_bytes report)
    ++ lit ") | Matched: " ++ show_N (rp_matched_entries report) ++ lit " entries (" ++ format_bytes (rp_matched_bytes report)
    ++ lit ")" ++ [10] ++ rule in
  rows ← (match displayed_items with
          | [] => Ok (lit "  No matching cache entries found." ++ [10])
          | _ =>
              r ← fold_m (item_row details) (0, []) displayed_items;
              Ok (table_row (lit "#", lit "Store Hash / Name", lit "Arch", lit "Size", lit "Added At", lit "Match Reason")
                  ++ rule ++ r.2)
          end);
  let breakdown :=
    if bool_decide (rp_arch_breakdown report = ∅) then []
    else 128421 :: 65039 :: lit "  Architecture Breakdown:" ++ [10] ++ concat (arch_row <$> sorted_archs (rp_arch_breakdown report)) in
  Ok (head ++ rows ++ rule ++ breakdown).

Definition arch_line (arch : list N * ArchStat) : list N :=
  lit "  " ++ [8226] ++ lit " " ++ arch.1 ++ lit ": " ++ show_N (st_count arch.2) ++ lit " items, "
  ++ format_bytes (st_bytes arch.2) ++ lit ", " ++ show_N (st_roots_count arch.2) ++ lit " roots" ++ [10].
Definition format_summary `{HashIter} (report : CacheListSummaryReport) : list N :=
  let volume n := format_bytes n ++ lit " (" ++ show_N n ++ lit " bytes)" ++ [10] in
  lit "Cache Summary [" ++ rp_repo report ++ lit " / tag: " ++ rp_target_tag report ++ lit "]:" ++ [10]
  ++ lit "- Total Entries: " ++ show_N (rp_total_entries report) ++ [10]
  ++ lit "- Total Volume: " ++ volume (rp_total_bytes report)
  ++ lit "- Matched Entries: " ++ show_N (rp_matched_entries report) ++ [10]
  ++ lit "- Matched Volume: " ++ volume (rp_matched_bytes report)
  ++ if bool_decide (rp_arch_breakdown report = ∅) then []
     else lit "- Architectures:" ++ [10] ++ concat (arch_line <$> sorted_archs (rp_arch_breakdown report)).

(** ** The command *)

Section list_run.
Context {W : Type} `{HttpHeaders} `{UriLib} `{UnicodeCase} `{UnicodeAlpha} `{!TransportOps W} `{!TokenOps W} `{!ClockOps W}.
Context `{!JoinAll W} `{!UtcNow W} `{!Processes W} `{!FsPaths W} `{!FsDirs W} `{!ListIo W}.
Context `{Sha2} `{Chrono} `{ChronoArith} `{HashIter} `{Build} `{Zstd} `{SerdeErrors} `{OciFormat}.
Context `{JsonValue} `{!NixJson} `{!Serde DiscoveredFlakeOutputs} `{ListJson}.
Context `{!Serde OciImageIndex} `{!Serde OciImageManifest}.
Context `{!Serde ShardedArchCacheIndexData} `{!Serde ShardDataPayload}.
Context (consts_os consts_arch : list N) (env : list N → option (list N)).

(** The key and the value as one line; what opening and writing give is not looked at. *)
Definition append_github_output (key value : list N) : BIO W unit :=
  match env (lit "GITHUB_OUTPUT") with
  | Some file_path =>
      if is_empty (trim file_path) then mret tt
      else
        let line := key ++ lit "=" ++ value ++ [10] in
        _ ← bio_call (λ w, (fs_open_append file_path w, tt));
        _ ← bio_call (fs_write file_path (utf8 line));
        mret tt
  | None => mret tt
  end.
Definition write_outputs (report : CacheListSummaryReport) (displayed_items : list ListItemDto) : BIO W unit :=
  _ ← append_github_output (lit "total_count") (show_N (rp_total_entries report));
  _ ← append_github_output (lit "total_size_bytes") (show_N (rp_total_bytes report));
  _ ← append_github_output (lit "matched_count") (show_N (rp_matched_entries report));
  _ ← append_github_output (lit "matched_size_bytes") (show_N (rp_matched_bytes report));
  match items_json displayed_items with
  | Ok entries_json => append_github_output (lit "entries_json") entries_json
  | Err _ => mret tt
  | Panic => fail Panic
  end.

Definition println (s : list N) : BIO W unit := bio_call (λ w, (print_line s w, tt)).
Definition print_report (format : OutputFormat) (report : CacheListSummaryReport) (displayed_items : list ListItemDto)
    (details : bool) : BIO W unit :=
  match format with
  | Table => table_str ← fail (format_table report displayed_items details); println table_str
  | Json => json_str ← json (report_json report); println json_str
  | Ndjson => bio_fold (λ _ item, json_line ← json (item_json item); println json_line) tt displayed_items
  | Paths => bio_fold (λ _ item, println (li_store_path item)) tt displayed_items
  | Summary => println (format_summary report)
  end.

(** The hashes a flake brings in and the selector; the clock is read for the two time bounds. *)
Definition list_selector (args : ListArgs) : BIO W CacheSelector :=
  extra_hashes ← match resolve_flake_path env (la_selector args) with
                 | Some flake_path => resolve_flake_output_hashes flake_path (resolve_attributes env (la_selector args))
                 | None => mret []
                 end;
  now1 ← bio_call utc_now;
  now2 ← bio_call utc_now;
  fail (map_err BuilderCli (to_list_selector env (la_selector args) extra_hashes now1 now2)).

(** [iter().take(n)]. *)
Definition displayed (limit : option N) (items : list ListItemDto) : list ListItemDto :=
  match limit with Some n => take (N.to_nat n) items | None => items end.

Definition run_list (args : ListArgs) (repo registry : list N) : BIO W unit :=
  let target_tag := resolve_target_tag env args in
  self ← oci (lift (create_tokio_reqwest_client registry repo));
  loaded ← load_archs consts_os consts_arch self target_tag;
  selector ← list_selector args;
  query_res ← core (evaluate_cache_query (all_entries_of loaded) (all_gc_roots_of loaded) selector);
  report ← fail (list_report target_tag registry repo (resolve_sort_by env (la_sort_by args))
                   (resolve_sort_order env (la_sort_order args)) (all_entries_of loaded) (all_gc_roots_of loaded) query_res);
  let displayed_items := displayed (resolve_limit env args) (rp_items report) in
  _ ← print_report (resolve_format env args) report displayed_items (resolve_details env args);
  write_outputs report displayed_items.
End list_run.

(** ** Facts: sorting *)

Section sorting.
Context {A : Type} (cmp : A → A → comparison).

Lemma insert_by_perm x l : insert_by cmp x l ≡ₚ x :: l.
Proof. induction l as [|y l IH]; simpl; [done|]. destruct (cmp x y); [done..|]. rewrite IH. constructor. Qed.
Lemma sort_by_perm l : sort_by cmp l ≡ₚ l.
Proof. induction l as [|x l IH]; simpl; [done|]. by rewrite insert_by_perm, IH. Qed.

Context (Htotal : ∀ x y, cmp x y = Gt → cmp y x ≠ Gt).
Context (Htrans : ∀ x y z, cmp x y ≠ Gt → cmp y z ≠ Gt → cmp x z ≠ Gt).
Lemma insert_by_sorted x l :
  StronglySorted (λ a b, cmp a b ≠ Gt) l → StronglySorted (λ a b, cmp a b ≠ Gt) (insert_by cmp x l).
Proof.
  induction 1 as [|y l Hl IH Hy]; simpl; [repeat constructor|].
  destruct (cmp x y) eqn:Hxy.
  1-2: constructor; [by constructor|]; constructor; [by rewrite Hxy|]; eapply Forall_impl; [exact Hy|]; intros z Hz;
    eapply Htrans; [by rewrite Hxy|done].
  constructor; [exact IH|]. rewrite insert_by_perm. constructor; [by apply Htotal|done].
Qed.
Lemma sort_by_sorted l : StronglySorted (λ a b, cmp a b ≠ Gt) (sort_by cmp l).
Proof. induction l as [|x l IH]; [constructor|]. by apply insert_by_sorted. Qed.
End sorting.

Lemma str_cmp_antisym a b : str_cmp b a = CompOpp (str_cmp a b).
Proof. apply bytes_cmp_antisym. Qed.
Lemma str_cmp_trans a b c : str_cmp a b ≠ Gt → str_cmp b c ≠ Gt → str_cmp a c ≠ Gt.
Proof. exact (str_le_trans a b c). Qed.
Lemma item_cmp_antisym field a b : item_cmp field b a = CompOpp (item_cmp field a b).
Proof. destruct field; [apply str_cmp_antisym|apply N.compare_antisym|apply str_cmp_antisym..]. Qed.
Lemma item_cmp_trans field a b c : item_cmp field a b ≠ Gt → item_cmp field b c ≠ Gt → item_cmp field a c ≠ Gt.
Proof. destruct field; simpl; [apply str_cmp_trans| |apply str_cmp_trans..]. rewrite !N.compare_le_iff. lia. Qed.
Lemma item_order_total field order a b : item_order field order a b = Gt → item_order field order b a ≠ Gt.
Proof. unfold item_order. rewrite (item_cmp_antisym field a b). by destruct order, (item_cmp field a b). Qed.
Lemma item_order_trans field order a b c :
  item_order field order a b ≠ Gt → item_order field order b c ≠ Gt → item_order field order a c ≠ Gt.
Proof.
  destruct order; simpl; rewrite <-?item_cmp_antisym; [intros ??; by eapply item_cmp_trans|apply item_cmp_trans].
Qed.

(** ** Facts: the statistics *)

Definition of_system (key : list N) (e : IndexEntry) : Prop := system_text (system e) = key.
#[export] Instance of_system_dec key e : Decision (of_system key e) := decide (_ = _).
Definition stat_at (stats : gmap (list N) ArchStat) (key : list N) : ArchStat := default empty_stat (stats !! key).

Lemma stat_at_eq stats k s : stat_at (<[k := s]> stats) k = s.
Proof. unfold stat_at. by rewrite lookup_insert_eq. Qed.
Lemma stat_at_ne stats k k' s : k ≠ k' → stat_at (<[k := s]> stats) k' = stat_at stats k'.
Proof. intros Hk. unfold stat_at. by rewrite lookup_insert_ne. Qed.

Lemma arith_add_mod `{Build} {E} bound a b c : bound ≠ 0 → @arith_add _ E bound a b = Ok c → c = (a + b) mod bound.
Proof.
  intros Hb. unfold arith_add, arith. destruct (N.ltb_spec (a + b) bound); [intros [= <-]; by rewrite N.mod_small|].
  destruct overflow_checks; [done|]. by intros [= <-].
Qed.
Lemma arith_sum_mod `{Build} {E} bound l n : bound ≠ 0 → @arith_sum _ E bound l = Ok n → n = sum_N l mod bound.
Proof.
  intros Hb. unfold arith_sum. assert (Hgen : ∀ acc, acc < bound → fold_m (@arith_add _ E bound) acc l = Ok n →
    n = (acc + sum_N l) mod bound).
  { induction l as [|x l IH]; intros acc Hacc; simpl; [intros [= <-]; by rewrite N.add_0_r, N.mod_small|].
    intros (y & ->%arith_add_mod & Hr)%bind_ok; [|done]. apply IH in Hr; [|by apply N.mod_lt].
    by rewrite Hr, N.Div0.add_mod_idemp_l, N.add_assoc. }
  intros Hr. rewrite (Hgen 0) by (done || lia). done.
Qed.

Lemma count_entries_stat `{Build} l stats stats' key : fold_m count_entry stats l = Ok stats' →
  (∀ k, st_bytes (stat_at stats k) < u64_bound) →
  st_count (stat_at stats' key) = st_count (stat_at stats key) + N.of_nat (length (filter (of_system key) l)) ∧
  st_bytes (stat_at stats' key) = (st_bytes (stat_at stats key) + sum_N (nar_size <$> filter (of_system key) l)) mod u64_bound ∧
  (is_Some (stats' !! key) ↔ is_Some (stats !! key) ∨ filter (of_system key) l ≠ []).
Proof.
  revert stats. induction l as [|e l IH]; intros stats Hr Hb; simpl in Hr.
  { injection Hr as <-. rewrite !N.add_0_r, N.mod_small by done. split_and!; [done|done|naive_solver]. }
  apply bind_ok in Hr as (stats1 & Hc & Hr). unfold count_entry in Hc. apply bind_ok in Hc as (bytes & Hbytes & Hc).
  apply arith_add_mod in Hbytes; [|done]. injection Hc as <-. apply IH in Hr; clear IH.
  2: { intros k. destruct (decide (system_text (system e) = k)) as [<-|Hk].
       - rewrite stat_at_eq. simpl. rewrite Hbytes. by apply N.mod_lt.
       - by rewrite stat_at_ne. }
  destruct Hr as (Hcount & Hby & Hsome). rewrite Hcount, Hby, Hsome. clear Hcount Hby Hsome.
  rewrite filter_cons. destruct (decide (of_system key e)) as [<-|Hk].
  - rewrite stat_at_eq, lookup_insert_eq. cbn [st_count st_bytes]. fold (stat_at stats (system_text (system e))) in Hbytes |- *.
    rewrite fmap_cons. cbn [length sum_N foldr]. fold (sum_N (nar_size <$> filter (of_system (system_text (system e))) l)).
    rewrite Hbytes, N.Div0.add_mod_idemp_l, N.add_assoc. split_and!; [lia|done|]. split; [by right|].
    intros _. left. by eexists.
  - by rewrite stat_at_ne, lookup_insert_ne.
Qed.

Lemma count_roots_entries l stats key :
  st_count (stat_at (foldl count_roots stats l) key) = st_count (stat_at stats key) ∧
  st_bytes (stat_at (foldl count_roots stats l) key) = st_bytes (stat_at stats key).
Proof.
  revert stats. induction l as [|r l IH]; intros stats; simpl; [done|]. destruct (IH (count_roots stats r)) as [-> ->].
  unfold count_roots. destruct (decide (SystemArch_as_str r.1 = key)) as [<-|Hk].
  - by rewrite stat_at_eq.
  - by rewrite stat_at_ne.
Qed.
Lemma as_str_inj a b : SystemArch_as_str a = SystemArch_as_str b → a = b.
Proof. by destruct a, b. Qed.
Lemma count_roots_roots l stats key :
  NoDup l.*1 →
  (∀ sys roots, (sys, roots) ∈ l → SystemArch_as_str sys = key →
     st_roots_count (stat_at (foldl count_roots stats l) key) = N.of_nat (length roots)) ∧
  (is_Some (foldl count_roots stats l !! key) ↔ is_Some (stats !! key) ∨ ∃ sys, sys ∈ l.*1 ∧ SystemArch_as_str sys = key) ∧
  ((∀ sys, sys ∈ l.*1 → SystemArch_as_str sys ≠ key) →
     st_roots_count (stat_at (foldl count_roots stats l) key) = st_roots_count (stat_at stats key)).
Proof.
  revert stats. induction l as [|[sys0 roots0] l IH]; intros stats Hnd; simpl.
  { split_and!; [by intros ?? ?%elem_of_nil| |done]. split; [by left|]. intros [?|(s & ?%elem_of_nil & _)]; done. }
  rewrite fmap_cons in Hnd. apply NoDup_cons in Hnd as [Hnin Hnd].
  destruct (IH (count_roots stats (sys0, roots0)) Hnd) as (IH1 & IH2 & IH3). clear IH.
  assert (Hat : ∀ k, stat_at (count_roots stats (sys0, roots0)) k = if decide (SystemArch_as_str sys0 = k)
    then {| st_count := st_count (stat_at stats k); st_bytes := st_bytes (stat_at stats k);
            st_roots_count := N.of_nat (length roots0) |} else stat_at stats k).
  { intros k. unfold count_roots. case_decide as Hk; [subst; by rewrite stat_at_eq|by rewrite stat_at_ne]. }
  split_and!.
  - intros sys roots [[= -> ->]|Hin]%elem_of_cons Hk; [|by apply (IH1 sys)]. rewrite IH3.
    + rewrite Hat. by rewrite decide_True.
    + intros s Hs He. apply Hnin. rewrite <- Hk in He. apply as_str_inj in He. by subst.
  - rewrite IH2. unfold count_roots. simpl. destruct (decide (SystemArch_as_str sys0 = key)) as [<-|Hk].
    + rewrite lookup_insert_eq. split; [|by left]. intros _. right. exists sys0. split; [by left|done].
    + rewrite lookup_insert_ne by done. split; [intros [?|(s & ? & ?)]; [by left|right; exists s; by split; [right|]]|].
      intros [?|(s & [->|?]%elem_of_cons & ?)]; [by left|done|right; by exists s].
  - intros Hall. rewrite IH3; [|intros s Hs; apply Hall; by right]. rewrite Hat, decide_False; [done|]. apply Hall. by left.
Qed.

(** ** What a report says *)

Record listing_of `{HashIter} (all_entries : gmap StoreHash IndexEntry) (all_gc_roots : gmap SystemArch (list StoreHash))
    (query_res : CacheQueryResult) (field : SortBy) (order : SortOrder) (report : CacheListSummaryReport) : Prop := {
  lo_total : rp_total_entries report = N.of_nat (size all_entries);
  lo_bytes : rp_total_bytes report = sum_N (nar_size <$> (map_to_list all_entries).*2) mod u64_bound;
  lo_matched : rp_matched_entries report = N.of_nat (length (rp_items report));
  lo_items : rp_items report ≡ₚ list_item query_res <$> map_to_list (matched_entries query_res);
  lo_sorted : StronglySorted (λ a b, item_order field order a b ≠ Gt) (rp_items report);
  (** A line for every system that has entries or a root, and no others. *)
  lo_archs : ∀ key, is_Some (rp_arch_breakdown report !! key) ↔
    filter (of_system key) (map_to_list all_entries).*2 ≠ [] ∨
    ∃ sys, sys ∈ dom all_gc_roots ∧ SystemArch_as_str sys = key;
  lo_counts : ∀ key,
    st_count (stat_at (rp_arch_breakdown report) key)
      = N.of_nat (length (filter (of_system key) (map_to_list all_entries).*2)) ∧
    st_bytes (stat_at (rp_arch_breakdown report) key)
      = sum_N (nar_size <$> filter (of_system key) (map_to_list all_entries).*2) mod u64_bound;
  lo_roots : ∀ sys roots, all_gc_roots !! sys = Some roots →
    st_roots_count (stat_at (rp_arch_breakdown report) (SystemArch_as_str sys)) = N.of_nat (length roots) }.

Lemma list_report_listing `{Build} `{HashIter} tag registry repo field order all_entries all_gc_roots q report :
  list_report tag registry repo field order all_entries all_gc_roots q = Ok report →
  listing_of all_entries all_gc_roots q field order report.
Proof.
  intros Hr. unfold list_report in Hr. apply bind_ok in Hr as (bytes & Hbytes & Hr).
  apply bind_ok in Hr as (counted & Hc & Hr). injection Hr as <-.
  assert (Hvalues : (hash_iter all_entries).*2 ≡ₚ (map_to_list all_entries).*2) by by rewrite hash_iter_perm.
  assert (Hstats : ∀ key, st_count (stat_at counted key)
      = N.of_nat (length (filter (of_system key) (map_to_list all_entries).*2)) ∧
    st_bytes (stat_at counted key) = sum_N (nar_size <$> filter (of_system key) (map_to_list all_entries).*2) mod u64_bound ∧
    (is_Some (counted !! key) ↔ filter (of_system key) (map_to_list all_entries).*2 ≠ [])).
  { intros key. destruct (count_entries_stat _ _ _ key Hc) as (H1 & H2 & H3); [by intros k|].
    rewrite H1, H2, H3, !lookup_empty. unfold stat_at. rewrite lookup_empty. cbn [default st_count st_bytes empty_stat].
    rewrite !N.add_0_l, <- (sum_N_perm _ _ (fmap_Permutation nar_size _ _ (filter_Permutation (of_system key) _ _ Hvalues))).
    pose proof (filter_Permutation (of_system key) _ _ Hvalues) as Hf.
    rewrite (Permutation_length Hf). split_and!; [done|done|]. split.
    - intros [[? ?]|Hne]; [done|]. intros He. apply Hne, Permutation_nil_r. by rewrite Hf, He.
    - intros Hne. right. intros He. apply Hne, Permutation_nil_r. by rewrite <-Hf, He. }
  assert (Hnd : NoDup (hash_iter all_gc_roots).*1) by apply NoDup_fst_hash_iter.
  split; cbn [rp_total_entries rp_total_bytes rp_matched_entries rp_items rp_arch_breakdown].
  - done.
  - apply arith_sum_mod in Hbytes; [|done]. rewrite Hbytes. f_equal. apply sum_N_perm. by rewrite Hvalues.
  - by rewrite (Permutation_length (sort_by_perm _ _)), length_fmap, hash_iter_length.
  - by rewrite sort_by_perm, hash_iter_perm.
  - apply sort_by_sorted; [apply item_order_total|apply item_order_trans].
  - intros key. destruct (count_roots_roots (hash_iter all_gc_roots) counted key Hnd) as (_ & -> & _).
    destruct (Hstats key) as (_ & _ & ->). apply or_iff_compat_l. split; intros (sys & Hs & Hk); exists sys; split; try done.
    + apply list_elem_of_fmap in Hs as ([s r] & -> & Hs%elem_of_hash_iter). by eapply elem_of_dom_2.
    + apply elem_of_dom in Hs as [r Hs]. apply list_elem_of_fmap. exists (sys, r). by rewrite elem_of_hash_iter.
  - intros key. destruct (count_roots_entries (hash_iter all_gc_roots) counted key) as [-> ->].
    by destruct (Hstats key) as (-> & -> & _).
  - intros sys roots Hs. eapply (proj1 (count_roots_roots (hash_iter all_gc_roots) counted _ Hnd)); [|done].
    by apply elem_of_hash_iter.
Qed.

Lemma print_paths `{!ListIo W} items (w w' : W) :
  bio_fold (λ _ item, println (li_store_path item)) tt items w = (w', Ok tt) →
  printed w' = printed w ++ (li_store_path <$> items).
Proof.
  revert w. induction items as [|i items IH]; intros w Hr; simpl in Hr.
  { apply bio_ret_ok in Hr as [-> _]. by rewrite app_nil_r. }
  apply bio_bind_ok in Hr as (w1 & u & Hp & Hr). unfold println, bio_call in Hp. injection Hp as <- _.
  destruct u. apply IH in Hr. by rewrite Hr, printed_line, <-app_assoc.
Qed.

(** What is loaded of a system: the entries that the shards of its root authenticate. *)
Definition system_loaded `{Sha2} `{Chrono} `{HashIter}
    (x : SystemArch * ShardedArchCacheIndexData * gmap StoreHash IndexEntry) : Prop :=
  let '(sys, root, entries) := x in
  ix_system root = sys ∧ well_sharded (ix_shards root) ∧
  ∀ id d, ix_shards root !! N.to_nat id = Some d → ∃ p, authenticates d p ∧ pl_entries p = bucket id entries.

(** ** Properties *)


(** ** Divergences *)

(** The outputs of the command are appended by name only: each of them replaces the file, so
    that the last one is all it holds. *)
Theorem github_output_keeps_last {W : Type} `{!FsDirs W} `{!ListIo W} `{ListJson} (content : W → list N → option (list N))
    (env : list N → option (list N)) report items (file_path entries_json : list N) (w : W) :
  (∀ p c w, content (fs_write p c w).1 p = Some c) →
  env (lit "GITHUB_OUTPUT") = Some file_path → is_empty (trim file_path) = false → items_json items = Ok entries_json →
  content (write_outputs env report items w).1 file_path = Some (utf8 (lit "entries_json=" ++ entries_json ++ [10])).
Proof.
  intros Hwrite He Hp Hj. unfold write_outputs, append_github_output. rewrite He, Hp, Hj.
  unfold mbind, bio_bind, bio_call, mret, bio_ret.
  repeat match goal with |- context [let '(_, _) := fs_write ?p ?c ?w in _] =>
    let Hc := fresh "Hc" in pose proof (Hwrite p c w) as Hc; destruct (fs_write p c w) as [? ?]; cbn [fst] in Hc end.
  done.
Qed.

(** A name is cut at byte 29 for the table without regard to its characters: a longer one with a
    character of two bytes there ends the command. *)
Theorem table_name_panics item : li_name item = replicate 28 97 ++ [233] ++ replicate 5 97 → name_display item = Panic.
Proof. intros Hn. unfold name_display. rewrite Hn. reflexivity. Qed.

(** The examples of the unit tests. *)
Example format_bytes_examples :
  format_bytes 500 = lit "500 B" ∧ format_bytes 1024 = lit "1.00 KiB" ∧
  format_bytes (50 * 2 ^ 20) = lit "50.00 MiB" ∧ format_bytes (2 * 2 ^ 30) = lit "2.00 GiB".
Proof. by vm_compute. Qed.

(** ** Witnesses: a cache of one entry, listed *)

Section samples.
#[local] Existing Instances flat_sha2 flat_sha2_ok Types.sample_chrono plain_arith map_order sample_http sample_uri ascii_case.
#[local] Existing Instances ascii_alpha sample_build sample_errors sample_format served_zstd sample_index_serde repo_json.
#[local] Existing Instances served_manifest_serde served_root_serde served_payload_serde.
#[local] Existing Instances no_processes no_paths no_nix_json no_outputs_serde in_turn.

(** The world is what was printed. *)
Notation World := (list (list N)) (only parsing).
#[local] Instance list_io : ListIo World.
Proof. refine {| printed := id; print_line := λ s w, w ++ [s]; fs_open_append := λ _ w, w |}. done. Defined.
#[local] Instance list_tokens : TokenOps World := {|
  tm_cached_token := λ w, (w, None); tm_refresh_token := λ _ w, (w, Ok []) |}.
#[local] Instance list_transport : TransportOps World :=
  let refused {A} (w : World) : World * outcome TransportError (StatusCode * A) := (w, Err (TransportIo [])) in
  @Build_TransportOps World sample_http (λ _ _, refused)
    (λ url _ _ w, (w, Ok (200, [], if contains (lit "/manifests/") url then [109] else ZSTD_MAGIC ++ [114])))
    (λ _ _ _ w, (w, Err (TransportIo []))) (λ _ _, refused) (λ _ _ _, refused) (λ _ _ _, refused)
    (λ _ _ _ _ w, (w, Err (TransportIo []))) (λ _ _ _, refused) (λ _ _, refused) (λ _ w, w).
#[local] Instance list_clock : ClockOps World := {| clock_now := λ w, (w, lit "2024-01-01T00:00:00Z") |}.
#[local] Instance list_utc : UtcNow World := {| utc_now := λ w, (w, 29%Z) |}.
#[local] Instance list_dirs : FsDirs World := {|
  fs_list_dir := λ _ w, (w, Err []); fs_is_symlink := λ _ w, (w, Err []); fs_read_link := λ _ w, (w, Err []);
  fs_write := λ _ _ w, (w, Err []); fs_create_dir_all := λ _ w, (w, Err []); fs_remove_file := λ _ w, (w, Err []) |}.
#[local] Instance list_json : ListJson := {|
  report_json := λ _, Err []; item_json := λ _, Err []; items_json := λ _, Ok [] |}.

Definition list_paths : ListArgs := {|
  la_selector := {| sa_all := false; sa_hashes := None; sa_patterns := []; sa_system := [];
    sa_flake_path := None; sa_attributes := None; sa_older_than := None; sa_newer_than := None; sa_min_size := None;
    sa_max_size := None; sa_origin_job := []; sa_origin_run := []; sa_cascade := None; sa_protect_gc_roots := false |};
  la_target_tag := None; la_format := Paths; la_sort_by := None; la_sort_order := None; la_limit := None;
  la_details := false |}.
Definition sample_listing : World * outcome BuilderError unit :=
  run_list (lit "linux") (lit "x86_64") no_env list_paths (lit "owner/cache") (lit "us-docker.pkg.dev") [].
Definition sample_lines : World := store_path ∘ narinfo_meta <$> (map_to_list (pl_entries sample_payload)).*2.

Lemma sample_listed : sample_listing = (sample_lines, Ok tt).
Proof. vm_cast_no_check (eq_refl (sample_lines, @Ok BuilderError _ tt)). Qed.
Lemma sample_lines_one : length sample_lines = 1%nat.
Proof. by vm_compute. Qed.

End samples.
