(* ===== verification/Task.v ===== *)
(** * Task: the asynchronous operations of the proxy and of the edge worker

    A task is a function of the world it shares with the registry, the file system, the
    clock and the other tasks; it returns, fails with an error of its own type or panics.
    The state that tasks share lives in the world: what the other tasks do between two
    accesses is part of what the world does, and what they leave alone is stated by a
    preorder on worlds that every step keeps ([task_keeps]). *)

From S2P Require Import Prelude Machine OciError Transport Request.

Definition Task (E W A : Type) : Type := W → W * outcome E A.
#[export] Instance task_ret E W : MRet (Task E W) := λ A a w, (w, Ok a).
#[export] Instance task_bind E W : MBind (Task E W) := λ A B k m w,
  match m w with
  | (w, Ok a) => k a w
  | (w, Err e) => (w, Err e)
  | (w, Panic) => (w, Panic)
  end.
Definition raise {E W A} (o : outcome E A) : Task E W A := λ w, (w, o).
Definition call {E W A} (m : W → W * A) : Task E W A := λ w, let '(w, a) := m w in (w, Ok a).
(** The result of a call as a value; a panic goes through. *)
Definition attempt {E E' W A} (m : W → W * outcome E' A) : Task E W (E' + A) := λ w,
  match m w with
  | (w, Ok a) => (w, Ok (inr a))
  | (w, Err e) => (w, Ok (inl e))
  | (w, Panic) => (w, Panic)
  end.
Definition try_pure {E E' W A} (o : outcome E' A) : Task E W (E' + A) := attempt (λ w, (w, o)).
(** [?] with [From]. *)
Definition convert {E E' W A} (f : E' → E) (m : W → W * outcome E' A) : Task E W A := λ w,
  let '(w, o) := m w in (w, map_err f o).

Section facts.
Context {E W : Type}.
Implicit Types w : W.

Lemma task_bind_ok {A B} (m : Task E W A) (k : A → Task E W B) w w' b :
  (m ≫= k) w = (w', Ok b) ↔ ∃ w1 a, m w = (w1, Ok a) ∧ k a w1 = (w', Ok b).
Proof. unfold mbind, task_bind. destruct (m w) as [w1 [a|e|]]; naive_solver. Qed.
Lemma task_ret_ok {A} (a b : A) w w' : (mret a : Task E W A) w = (w', Ok b) ↔ w' = w ∧ b = a.
Proof. unfold mret, task_ret. naive_solver. Qed.
Lemma raise_ok {A} (o : outcome E A) w w' a : raise o w = (w', Ok a) ↔ w' = w ∧ o = Ok a.
Proof. unfold raise. naive_solver. Qed.
Lemma call_ok {A} (m : W → W * A) w w' a : call (E := E) m w = (w', Ok a) ↔ m w = (w', a).
Proof. unfold call. destruct (m w). naive_solver. Qed.
Lemma attempt_ok {E' A} (m : W → W * outcome E' A) w w' a :
  attempt (E := E) m w = (w', Ok (inr a)) ↔ m w = (w', Ok a).
Proof. unfold attempt. destruct (m w) as [w1 [x|e|]]; naive_solver. Qed.
Lemma attempt_err {E' A} (m : W → W * outcome E' A) w w' e :
  attempt (E := E) m w = (w', Ok (inl e)) ↔ m w = (w', Err e).
Proof. unfold attempt. destruct (m w) as [w1 [x|e1|]]; naive_solver. Qed.
Lemma try_pure_ok {E' A} (o : outcome E' A) w w' r : try_pure (E := E) o w = (w', Ok r) →
  w' = w ∧ match r with inr a => o = Ok a | inl e => o = Err e end.
Proof. unfold try_pure, attempt. destruct o; naive_solver. Qed.
Lemma convert_ok {E' A} (f : E' → E) (m : W → W * outcome E' A) w w' a :
  convert f m w = (w', Ok a) ↔ m w = (w', Ok a).
Proof. unfold convert. destruct (m w) as [w1 [x|e|]]; simpl; naive_solver. Qed.

(** ** What a task keeps *)

Context (R : W → W → Prop) `{!PreOrder R}.
Definition task_keeps {A} (m : Task E W A) : Prop := ∀ w, R w (m w).1.
Lemma task_keeps_ret {A} (a : A) : task_keeps (mret a).
Proof. intros w. simpl. reflexivity. Qed.
Lemma task_keeps_raise {A} (o : outcome E A) : task_keeps (raise o).
Proof. intros w. simpl. reflexivity. Qed.
Lemma task_keeps_try {E' A} (o : outcome E' A) : task_keeps (try_pure o).
Proof. intros w. unfold try_pure, attempt. destruct o; simpl; reflexivity. Qed.
Lemma task_keeps_call {A} (m : W → W * A) : (∀ w, R w (m w).1) → task_keeps (call m).
Proof. intros Hm w. specialize (Hm w). unfold call. by destruct (m w). Qed.
Lemma task_keeps_attempt {E' A} (m : W → W * outcome E' A) : (∀ w, R w (m w).1) → task_keeps (attempt m).
Proof. intros Hm w. specialize (Hm w). unfold attempt. by destruct (m w) as [? []]. Qed.
Lemma task_keeps_convert {E' A} (f : E' → E) (m : W → W * outcome E' A) :
  (∀ w, R w (m w).1) → task_keeps (convert f m).
Proof. intros Hm w. specialize (Hm w). unfold convert. by destruct (m w). Qed.
Lemma task_keeps_bind {A B} (m : Task E W A) (k : A → Task E W B) :
  task_keeps m → (∀ a, task_keeps (k a)) → task_keeps (m ≫= k).
Proof.
  intros Hm Hk w. specialize (Hm w). unfold mbind, task_bind. destruct (m w) as [w1 [a|e|]]; [|done..].
  etrans; [exact Hm|apply Hk].
Qed.
(** What holds in the world where a result is given, for a step that comes first. *)
Lemma task_keeps_ok {A} (m : Task E W A) w w' a : task_keeps m → m w = (w', Ok a) → R w w'.
Proof. intros Hm Hr. specialize (Hm w). by rewrite Hr in Hm. Qed.
End facts.

(** A task over a list, one element after the other. *)
Fixpoint task_each {E W A} (f : A → Task E W unit) (l : list A) : Task E W unit :=
  match l with
  | [] => mret tt
  | a :: l => _ ← f a; task_each f l
  end.
Lemma task_keeps_each {E W A} (R : W → W → Prop) `{!PreOrder R} (f : A → Task E W unit) l :
  (∀ a, task_keeps R (f a)) → task_keeps R (task_each f l).
Proof.
  intros Hf. induction l as [|a l IH]; simpl; [by apply (task_keeps_ret R)|].
  apply (task_keeps_bind R); [apply Hf|]. intros _. exact IH.
Qed.

(** ** Invariants and results *)

(** From a world in which [I] holds the task stops in one in which it holds, however it
    stops, and a result it gives satisfies [Post]. *)
Definition triple {E W A} (I : W → Prop) (m : Task E W A) (Post : A → Prop) : Prop :=
  ∀ w, I w → I (m w).1 ∧ ∀ a, (m w).2 = Ok a → Post a.

Section triples.
Context {E W : Type} (I : W → Prop).

Lemma triple_ret {A} (a : A) (Post : A → Prop) : Post a → triple I (mret a : Task E W A) Post.
Proof. intros Ha w Hw. split; [done|]. by intros b [= <-]. Qed.
Lemma triple_raise {A} (o : outcome E A) (Post : A → Prop) : (∀ a, o = Ok a → Post a) → triple I (raise (W := W) o) Post.
Proof. intros Ho w Hw. by split. Qed.
Lemma triple_bind {A B} (m : Task E W A) (k : A → Task E W B) (P : A → Prop) (Q : B → Prop) :
  triple I m P → (∀ a, P a → triple I (k a) Q) → triple I (m ≫= k) Q.
Proof.
  intros Hm Hk w Hw. destruct (Hm w Hw) as [Hw1 Ha]. unfold mbind, task_bind.
  destruct (m w) as [w1 [a|e|]]; simpl in *; [|by split..]. apply Hk; [by apply Ha|done].
Qed.
Lemma triple_weaken {A} (m : Task E W A) (P Q : A → Prop) : triple I m P → (∀ a, P a → Q a) → triple I m Q.
Proof. intros Hm HPQ w Hw. destruct (Hm w Hw). split; eauto. Qed.
Lemma triple_call {A} (m : W → W * A) : (∀ w, I w → I (m w).1) → triple I (call (E := E) m) (λ _, True).
Proof. intros Hm w Hw. specialize (Hm w Hw). unfold call. destruct (m w). by split. Qed.
Lemma triple_attempt {E' A} (m : W → W * outcome E' A) (P : A → Prop) :
  (∀ w, I w → I (m w).1) → (∀ w w' a, m w = (w', Ok a) → P a) →
  triple I (attempt (E := E) m) (λ r, match r with inr a => P a | inl _ => True end).
Proof.
  intros Hm HP w Hw. specialize (Hm w Hw). unfold attempt. destruct (m w) as [w1 [a|e|]] eqn:Hr; (split; [done|]); [|by intros ? [= <-]|done].
  intros ? [= <-]. by eapply HP.
Qed.
(** A task in place of a call: its triple is that of the attempt and of the conversion. *)
Lemma triple_attempt_task {E' A} (m : Task E' W A) (P : A → Prop) : triple I m P →
  triple I (attempt (E := E) m) (λ r, match r with inr a => P a | inl _ => True end).
Proof.
  intros Hm w Hw. destruct (Hm w Hw) as [Hw' HP]. unfold attempt. destruct (m w) as [w1 [a|e|]]; (split; [done|]);
    [|by intros ? [= <-]|done]. intros ? [= <-]. by apply HP.
Qed.
Lemma triple_convert {E' A} (f : E' → E) (m : Task E' W A) (P : A → Prop) : triple I m P → triple I (convert f m) P.
Proof.
  intros Hm w Hw. destruct (Hm w Hw) as [Hw' HP]. unfold convert. destruct (m w) as [w1 [a|e|]]; (split; [done|]); [|done..].
  intros ? [= <-]. by apply HP.
Qed.
Lemma triple_try {E' A} (o : outcome E' A) :
  triple I (try_pure (E := E) (W := W) o) (λ r, match r with inr a => o = Ok a | inl e => o = Err e end).
Proof. intros w Hw. unfold try_pure, attempt. destruct o; (split; [done|]); by intros ? [= <-]. Qed.
Lemma triple_each {A} (f : A → Task E W unit) l :
  (∀ a, a ∈ l → triple I (f a) (λ _, True)) → triple I (task_each f l) (λ _, True).
Proof.
  induction l as [|a l IH]; intros Hf; simpl; [by apply triple_ret|].
  eapply triple_bind; [apply Hf; by left|]. intros _ _. apply IH. intros b Hb. apply Hf. by right.
Qed.
Lemma triple_run {A} (m : Task E W A) (Post : A → Prop) w w' o :
  triple I m Post → I w → m w = (w', o) → I w' ∧ ∀ a, o = Ok a → Post a.
Proof. intros Hm Hw Hr. destruct (Hm w Hw) as [H1 H2]. rewrite Hr in H1, H2. done. Qed.
End triples.

(** Peels one step of a task that returned. *)
Ltac inv_task_step H :=
  let w := fresh "w" in let a := fresh "a" in let Ha := fresh "Ha" in
  apply task_bind_ok in H as (w & a & Ha & H);
  lazymatch type of Ha with
  | raise _ _ = _ => apply raise_ok in Ha as [-> Ha]
  | try_pure _ _ = _ => apply try_pure_ok in Ha as [-> Ha]
  | call _ _ = _ => apply call_ok in Ha
  | convert _ _ _ = _ => apply convert_ok in Ha
  | mret _ _ = _ => apply task_ret_ok in Ha as [-> ->]
  | _ => idtac
  end.
