(* ===== verification/Args.v ===== *)
(** * Args: the argument groups of the programs
    (crates/nixcache-cli/src/args/auth.rs, cache.rs, oci.rs, server.rs, session.rs, signing.rs,
    the argument records of crates/nixcache-builder/src/cli.rs, Env of nixcache-utils)

    The records are what clap fills; every value falls back to the environment and then to a
    default.  A path is its text, and [num_cpus::get] an argument. *)

From S2P Require Import Prelude Machine Str Text Error Types Filter OciError Transport Endpoint Auth Request Driver Builder Cli Nix Export Capture Listing Task.

Local Open Scope N_scope.

Section env.
Context `{UnicodeCase} (env : list N → option (list N)).

(** A path is not trimmed. *)
Definition non_empty_path (p : list N) : option (list N) := if is_empty p then None else Some p.
Definition Env_parse {E A} (from_str : list N → outcome E A) (key : list N) : option A :=
  s ← Env_get env key; ok (from_str s).
Fixpoint Env_parse_first {E A} (from_str : list N → outcome E A) (keys : list (list N)) : option A :=
  match keys with
  | [] => None
  | key :: keys => match Env_parse from_str key with Some a => Some a | None => Env_parse_first from_str keys end
  end.
Definition path_or_env (path : option (list N)) (keys : list (list N)) : option (list N) :=
  match path ≫= non_empty_path with Some p => Some p | None => Env_get_first env keys end.
Definition given_or {A} (arg other : option A) : option A := match arg with Some a => Some a | None => other end.

(** ** The shared groups *)

Record OciTargetArgs := { ot_repo : option (list N); ot_registry : option (list N); ot_registry_kind : option RegistryKind }.
Definition OciTarget_resolve (self : OciTargetArgs) (default_repo : list N) : list N * list N :=
  (resolve_repo env (ot_repo self) default_repo, resolve_registry env (ot_registry self) DEFAULT_NIXCACHE_REGISTRY).
Definition resolve_kind `{UriLib} (self : OciTargetArgs) (default_registry : list N) : RegistryKind :=
  default (RegistryKind_detect (resolve_registry env (ot_registry self) default_registry))
    (given_or (ot_registry_kind self) (Env_parse RegistryKind_from_str (lit "NIXCACHE_REGISTRY_KIND"))).
Definition resolve_driver `{UriLib} (self : OciTargetArgs) (default_repo : list N) : list N * list N * RegistryKind :=
  (OciTarget_resolve self default_repo, resolve_kind self DEFAULT_NIXCACHE_REGISTRY).

Record AuthTokenArgs := { au_registry_username : option (list N); au_github_token : option (list N); au_gh_token : option (list N) }.
Definition resolve_token_sync (self : AuthTokenArgs) : list N :=
  default [] (match au_github_token self ≫= non_empty_str with
              | Some token => Some token
              | None => arg_or_env env (au_gh_token self) [lit "GITHUB_TOKEN"; lit "GH_TOKEN"]
              end).
Definition resolve_registry_username (self : AuthTokenArgs) : option (list N) :=
  arg_or_env env (au_registry_username self) [lit "REGISTRY_USERNAME"; lit "OCI_USERNAME"].
Definition credentials_from_token (self : AuthTokenArgs) (secret : list N) : RegistryCredentials :=
  match resolve_registry_username self with
  | Some username => credentials_with_username username secret
  | None => credentials_new secret
  end.
(** [gh auth token]: nothing when it cannot be run or fails. *)
Definition gh_auth_token {E W} `{!Processes W} : Task E W (list N) :=
  r ← attempt (process_output {| cmd_program := lit "gh"; cmd_args := [lit "auth"; lit "token"]; cmd_envs := [] |});
  mret (match r with
        | inr output => if es_success (out_status output) then trim (from_utf8_lossy (out_stdout output)) else []
        | inl _ => []
        end).
Definition resolve_token {E W} `{!Processes W} (self : AuthTokenArgs) : Task E W (list N) :=
  let token := resolve_token_sync self in
  if is_empty token then gh_auth_token else mret token.
Definition resolve_credentials {E W} `{!Processes W} (self : AuthTokenArgs) : Task E W RegistryCredentials :=
  secret ← resolve_token self; mret (credentials_from_token self secret).

Record ServerBindArgs := { sb_listen : option (list N); sb_port : option N }.
Definition DEFAULT_SERVER_LISTEN : list N := lit "127.0.0.1".
Definition DEFAULT_SERVER_PORT : N := 37515.
Definition ServerBind_resolve (self : ServerBindArgs) (default_listen : list N) (default_port : N) : list N * N :=
  (default default_listen (arg_or_env env (sb_listen self) [lit "NIXCACHE_LISTEN"]),
   default default_port (given_or (sb_port self) (Env_parse parse_u16 (lit "NIXCACHE_PORT")))).

Record CachePolicyArgs := {
  ca_upstream : option (list N);
  ca_baseline_ttl : option N;
  ca_baseline_tag : option (list N);
  ca_snapshot_path : option (list N);
  ca_index_dir : option (list N) }.
Definition CachePolicyArgs_default : CachePolicyArgs := {|
  ca_upstream := None; ca_baseline_ttl := None; ca_baseline_tag := None; ca_snapshot_path := None; ca_index_dir := None |}.
Definition DEFAULT_UPSTREAM_CACHE : list N := lit "https://cache.nixos.org".
Definition DEFAULT_BASELINE_TTL : N := 300.
Definition DEFAULT_BASELINE_TAG : list N := lit "cache-index".
Definition DEFAULT_SNAPSHOT_PATH : list N := lit "/tmp/nixcache-snapshot-before.txt".
Definition resolve_upstream (self : CachePolicyArgs) : list N :=
  default DEFAULT_UPSTREAM_CACHE (arg_or_env env (ca_upstream self) [lit "NIXCACHE_UPSTREAM"]).
Definition resolve_upstream_list (self : CachePolicyArgs) : list (list N) := split_whitespace (resolve_upstream self).
Definition resolve_baseline_ttl (self : CachePolicyArgs) : N :=
  default DEFAULT_BASELINE_TTL
    (given_or (ca_baseline_ttl self) (Env_parse_first parse_u64 [lit "NIXCACHE_BASELINE_TTL"; lit "NIXCACHE_INDEX_TTL"])).
Definition resolve_baseline_tag (self : CachePolicyArgs) : list N :=
  default DEFAULT_BASELINE_TAG (arg_or_env env (ca_baseline_tag self) [lit "NIXCACHE_BASELINE_TAG"]).
Definition resolve_snapshot_path (path : option (list N)) : list N :=
  default DEFAULT_SNAPSHOT_PATH (path_or_env path [lit "NIXCACHE_SNAPSHOT_PATH"]).
(** [repo.replace('/', dashes)], with two dashes. *)
Definition dashed (repo : list N) : list N := repo ≫= λ c, if c =? 47 then lit "--" else [c].
Definition resolve_index_dir (self : CachePolicyArgs) (repo : list N) : list N :=
  match path_or_env (ca_index_dir self) [lit "NIXCACHE_INDEX_DIR"; lit "CACHE_DIRECTORY"] with
  | Some dir => dir
  | None =>
      let home := default (lit ".") (Env_get_first env [lit "HOME"]) in
      path_join (path_join (path_join home (lit ".cache")) (lit "nixcache-proxy")) (dashed repo)
  end.

Record SessionContextArgs := {
  sc_run_id : option N;
  sc_branch : option (list N);
  sc_job_id : option (list N);
  sc_system : option (list N) }.
Definition resolve_run_id (self : SessionContextArgs) : option N :=
  given_or (sc_run_id self) (Env_parse_first parse_u64 [lit "NIXCACHE_RUN_ID"; lit "GITHUB_RUN_ID"]).
Definition resolve_branch (self : SessionContextArgs) : option (list N) :=
  arg_or_env env (sc_branch self) [lit "NIXCACHE_BRANCH"; lit "GITHUB_REF_NAME"; lit "GITHUB_HEAD_REF"].
Definition resolve_job_id (self : SessionContextArgs) (default_job : list N) : list N :=
  default default_job (arg_or_env env (sc_job_id self) [lit "NIXCACHE_JOB_ID"; lit "GITHUB_JOB"]).
(** The same of a session, of a build and of the proxy. *)
Definition resolve_system (system : option (list N)) : option (list N) := arg_or_env env system [lit "NIXCACHE_SYSTEM"].

(** The path as text. *)
Definition resolve_signing_key (signing_key_file : option (list N)) : option (list N) :=
  path_or_env signing_key_file [lit "NIXCACHE_SIGNING_KEY_FILE"].

(** ** The commands of the builder *)

Record SessionInitArgs := {
  ia_oci : OciTargetArgs;
  ia_bind : ServerBindArgs;
  ia_session : SessionContextArgs;
  ia_auth : AuthTokenArgs;
  ia_signing : option (list N);
  ia_cache : CachePolicyArgs }.

Record SessionCaptureArgs := {
  sk_oci : OciTargetArgs;
  sk_session : SessionContextArgs;
  sk_auth : AuthTokenArgs;
  sk_signing : option (list N);
  sk_out_link : option (list N);
  sk_targets : option (list N);
  sk_capture_mode : option CaptureMode;
  sk_strict_closure : option bool;
  sk_no_strict_closure : bool;
  sk_output_receipt : option (list N);
  sk_proxy_url : option (list N);
  sk_snapshot_before : option (list N);
  sk_export_concurrency : option N;
  sk_paths : list (list N) }.
Definition resolve_out_link (self : SessionCaptureArgs) : option (list N) :=
  arg_or_env env (sk_out_link self) [lit "NIXCACHE_OUT_LINK"].
Definition resolve_targets (self : SessionCaptureArgs) : option (list N) :=
  arg_or_env env (sk_targets self) [lit "NIXCACHE_TARGETS"].
Definition resolve_capture_mode (self : SessionCaptureArgs) : CaptureMode :=
  default RuntimeClosure (given_or (sk_capture_mode self) (Env_parse CaptureMode_from_str (lit "NIXCACHE_CAPTURE_MODE"))).
Definition resolve_strict_closure (self : SessionCaptureArgs) : bool :=
  if sk_no_strict_closure self then false
  else default true (given_or (sk_strict_closure self) (Env_get_bool env (lit "NIXCACHE_STRICT_CLOSURE"))).
Definition resolve_proxy_url (self : SessionCaptureArgs) : list N :=
  default (lit "http://127.0.0.1:37515") (arg_or_env env (sk_proxy_url self) [lit "NIXCACHE_PROXY_URL"]).
Definition resolve_output_receipt (output_receipt : option (list N)) : option (list N) :=
  path_or_env output_receipt [lit "NIXCACHE_OUTPUT_RECEIPT"].
Definition resolve_export_concurrency `{Build} (cpus : N) (export_concurrency : option N) : N :=
  default (adaptive_concurrency cpus)
    (given_or export_concurrency (Env_parse_usize env (lit "NIXCACHE_EXPORT_CONCURRENCY"))).

Record BuildArgs := {
  ba_oci : OciTargetArgs;
  ba_auth : AuthTokenArgs;
  ba_signing : option (list N);
  ba_system : option (list N);
  ba_mode : option BuildMode;
  ba_flake_path : option (list N);
  ba_config_dir : option (list N);
  ba_file : option (list N);
  ba_attributes : option (list N);
  ba_output_receipt : option (list N);
  ba_strict : option bool;
  ba_no_strict : bool;
  ba_export_concurrency : option N }.
Definition resolve_mode (self : BuildArgs) : BuildMode :=
  default Flake (given_or (ba_mode self) (Env_parse BuildMode_from_str (lit "NIXCACHE_MODE"))).
Definition build_flake_path (self : BuildArgs) : list N :=
  default (lit ".")
    (match ba_flake_path self ≫= non_empty_str with
     | Some path => Some path
     | None => arg_or_env env (ba_config_dir self) [lit "NIXCACHE_FLAKE_PATH"; lit "NIXCACHE_CONFIG_DIR"]
     end).
Definition resolve_file (self : BuildArgs) : list N :=
  default (lit "default.nix") (arg_or_env env (ba_file self) [lit "NIXCACHE_FILE"]).
Definition build_attributes (self : BuildArgs) : list (list N) :=
  words (default [] (arg_or_env env (ba_attributes self) [lit "NIXCACHE_ATTRIBUTES"])).
Definition build_receipt_path (self : BuildArgs) (system_name : option (list N)) : list N :=
  default (lit "receipt-" ++ default (lit "output") system_name ++ lit ".json")
    (resolve_output_receipt (ba_output_receipt self)).

Record PromoteArgs := {
  pr_oci : OciTargetArgs;
  pr_auth : AuthTokenArgs;
  pr_receipts_dir : option (list N);
  pr_receipts : list (list N);
  pr_positional_paths : list (list N);
  pr_target_tag : option (list N) }.
Definition promote_target_tag (self : PromoteArgs) : list N :=
  default (lit "cache-index") (arg_or_env env (pr_target_tag self) [lit "NIXCACHE_TARGET_TAG"]).
Definition resolve_receipt_paths (self : PromoteArgs) : list (list N) :=
  pr_receipts self
  ++ match path_or_env (pr_receipts_dir self) [lit "NIXCACHE_RECEIPTS_DIR"] with Some dir => [dir] | None => [] end
  ++ pr_positional_paths self.
End env.
