(* ===== verification/Reqwest.v ===== *)
(** * Reqwest: the transport of the native programs
    (crates/nixcache-oci-backend/src/tokio-reqwest.rs)

    The trait [OciTransport] over a reqwest client, an interface: a request is sent with a
    method, a URL, headers and a body, and fails or has a status, headers and a stream of
    bytes.  The body of a request is bytes or, wrapped by [reqwest::Body], a stream.
    [reqwest_transport] and [reqwest_deletes] are what the client of the registry
    is run with in the builder and in the proxy. *)

From S2P Require Import Prelude Machine Str Text Error Types OciError Transport Endpoint Auth Request Manifest ManifestClient IndexClient Ghcr Task.

Local Open Scope N_scope.

Inductive HttpMethod := HttpHead | HttpGet | HttpPost | HttpPatch | HttpPut | HttpDelete.

(** [reqwest::Client] with [RequestBuilder::send], and what is asked of an error. *)
Class ReqwestClient (W : Type) `{HttpHeaders} := {
  RwError : Type;
  RwResponse : Type;
  rw_send : HttpMethod → list N → HeaderMap → option (list N) → W → W * outcome RwError RwResponse;
  rw_send_stream : HttpMethod → list N → HeaderMap → list (outcome TransportError (list N)) → W →
    W * outcome RwError RwResponse;
  rw_status : RwResponse → StatusCode;
  rw_headers : RwResponse → HeaderMap;
  rw_bytes_stream : RwResponse → list (outcome RwError (list N));
  rw_is_timeout : RwError → bool;
  rw_error_status : RwError → option StatusCode;
  rw_is_builder : RwError → bool;
  rw_is_redirect : RwError → bool;
  rw_error_url : RwError → option (list N);
  rw_display : RwError → list N;
  rw_sleep : N → W → W }.

Section reqwest.
Context {W : Type} `{HttpHeaders} `{!ReqwestClient W}.
Notation T := (Task TransportError W).

Definition map_reqwest_error (err : RwError) : TransportError :=
  if rw_is_timeout err then Timeout 0
  else match rw_error_status err with
       | Some status => HttpStatus status (Some (rw_display err))
       | None =>
           if rw_is_builder err || rw_is_redirect err
           then InvalidUri (default [] (rw_error_url err)) (lit "Reqwest builder or redirect error")
           else ConnectionFailed (default (lit "unknown") (rw_error_url err)) (rw_display err)
       end.

(** [self.client.method(url).headers(headers).body(..).send().await.map_err(..)?]. *)
Definition send (method : HttpMethod) (url : list N) (headers : HeaderMap) (body : option (list N)) : T RwResponse :=
  convert map_reqwest_error (rw_send method url headers body).
Definition send_for_headers (method : HttpMethod) (url : list N) (headers : HeaderMap) (body : option (list N))
    : T (StatusCode * HeaderMap) :=
  resp ← send method url headers body; mret (rw_status resp, rw_headers resp).

(** The body as it arrives. *)
Definition body_stream (resp : RwResponse) : list (outcome TransportError (list N)) :=
  map_err map_reqwest_error <$> rw_bytes_stream resp.

Definition reqwest_get (url : list N) (headers : HeaderMap) (max_bytes : N) : T (StatusCode * HeaderMap * list N) :=
  resp ← send HttpGet url headers None;
  _ ← raise (check_content_length url (rw_headers resp) max_bytes);
  bytes ← raise (collect_limited url max_bytes (body_stream resp));
  mret (rw_status resp, rw_headers resp, bytes).
Definition reqwest_stream (url : list N) (headers : HeaderMap) (max_bytes : N)
    : T (StatusCode * HeaderMap * list (outcome TransportError (list N))) :=
  resp ← send HttpGet url headers None;
  _ ← raise (check_content_length url (rw_headers resp) max_bytes);
  mret (rw_status resp, rw_headers resp, body_stream resp).

(** [HeaderValue::from(n)] as the length, and the type of bytes unless one is given. *)
Definition with_length (n : N) (headers : HeaderMap) : HeaderMap :=
  insert_static (lit "content-length") (show_N n) headers.
Definition with_octets (headers : HeaderMap) : HeaderMap :=
  match header_get headers (lit "content-type") with
  | Some _ => headers
  | None => insert_static (lit "content-type") (lit "application/octet-stream") headers
  end.
Definition with_range (byte_range : N * N) (headers : HeaderMap) : HeaderMap :=
  insert_static (lit "content-range") (show_N byte_range.1 ++ lit "-" ++ show_N byte_range.2) headers.

Definition reqwest_post_bytes (url : list N) (headers : HeaderMap) (body : list N) : T (StatusCode * HeaderMap) :=
  send_for_headers HttpPost url (with_octets (with_length (usize_len body) headers)) (Some body).

(** What an upload session answers. *)
Definition chunk_response (status : StatusCode) (resp_headers : HeaderMap) : outcome TransportError UploadChunkResponse :=
  let location := v ← header_get resp_headers (lit "location"); header_to_str v in
  range ← match header_get resp_headers (lit "range") with
          | Some value =>
              text ← ok_or (HeaderParse (lit "Range")) (header_to_str value);
              r ← ok_or (HeaderParse (lit "Range")) (parse_range_header text);
              Ok (Some r)
          | None => Ok None
          end;
  Ok {| uc_status := status; uc_headers := resp_headers; uc_location := location; uc_range := range |}.

Definition chunk_headers (chunk : list N) (byte_range : N * N) (headers : HeaderMap) : HeaderMap :=
  with_octets (with_range byte_range (with_length (usize_len chunk) headers)).
Definition reqwest_patch_chunk (url : list N) (headers : HeaderMap) (chunk : list N) (byte_range : N * N)
    : T UploadChunkResponse :=
  resp ← send HttpPatch url (chunk_headers chunk byte_range headers) (Some chunk);
  raise (chunk_response (rw_status resp) (rw_headers resp)).

Definition reqwest_put_chunk_finish (url : list N) (headers : HeaderMap) (final_chunk : option (list N * (N * N)))
    : T (StatusCode * HeaderMap) :=
  match final_chunk with
  | Some (bytes, byte_range) => send_for_headers HttpPut url (chunk_headers bytes byte_range headers) (Some bytes)
  | None => send_for_headers HttpPut url (with_length 0 headers) None
  end.

(** The methods whose body is a stream. *)
Definition stream_for_headers (method : HttpMethod) (url : list N) (headers : HeaderMap)
    (stream : list (outcome TransportError (list N))) : T (StatusCode * HeaderMap) :=
  resp ← convert map_reqwest_error (rw_send_stream method url headers stream);
  mret (rw_status resp, rw_headers resp).
Definition reqwest_post_stream (url : list N) (headers : HeaderMap) (stream : list (outcome TransportError (list N)))
    (content_len : N) : T (StatusCode * HeaderMap) :=
  stream_for_headers HttpPost url (with_octets (with_length content_len headers)) stream.
Definition reqwest_patch_chunk_stream `{Build} (url : list N) (headers : HeaderMap)
    (stream : list (outcome TransportError (list N))) (byte_range : N * N) : T UploadChunkResponse :=
  chunk_len ← raise (arith_add u64_bound (byte_range.2 - byte_range.1) 1);
  sh ← stream_for_headers HttpPatch url (with_octets (with_range byte_range (with_length chunk_len headers))) stream;
  raise (chunk_response sh.1 sh.2).
Definition reqwest_put_stream_with_headers (url : list N) (headers : HeaderMap)
    (stream : list (outcome TransportError (list N))) (content_len : N) : T (StatusCode * HeaderMap) :=
  stream_for_headers HttpPut url (with_length content_len headers) stream.

#[export] Instance reqwest_transport : TransportOps W := {|
  tr_head_with_headers url headers := send_for_headers HttpHead url headers None;
  tr_get := reqwest_get;
  tr_stream := reqwest_stream;
  tr_post url headers := send_for_headers HttpPost url headers None;
  tr_post_bytes := reqwest_post_bytes;
  tr_put_bytes_with_headers url headers body := send_for_headers HttpPut url headers (Some body);
  tr_patch_chunk := reqwest_patch_chunk;
  tr_put_chunk_finish_with_headers := reqwest_put_chunk_finish;
  tr_delete_with_headers url headers := send_for_headers HttpDelete url headers None;
  tr_sleep := rw_sleep |}.
#[export] Instance reqwest_deletes : DeleteOps W := {|
  tr_delete url headers := resp ← send HttpDelete url headers None; mret (rw_status resp) |}.

(** ** Facts *)

(** The body of a GET is all that the server sent, none of it over the limit, and the length
    the server announced was not over it either. *)
Theorem reqwest_get_bounded url headers max_bytes (w w' : W) status resp_headers body : max_bytes < u64_bound - 1 →
  tr_get url headers max_bytes w = (w', Ok (status, resp_headers, body)) →
  ∃ resp chunks, rw_send HttpGet url headers None w = (w', Ok resp) ∧
    rw_bytes_stream resp = Ok <$> chunks ∧ body = concat chunks ∧ usize_len body ≤ max_bytes ∧
    status = rw_status resp ∧ resp_headers = rw_headers resp ∧
    (∀ n, parse_content_length resp_headers = Ok (Some n) → n ≤ max_bytes).
Proof.
  intros Hmax Hr. cbn [tr_get reqwest_transport] in Hr. unfold reqwest_get in Hr.
  inv_task_step Hr. inv_task_step Hr. inv_task_step Hr. apply task_ret_ok in Hr as [-> [= -> -> ->]].
  unfold send in Ha. apply convert_ok in Ha. apply collect_limited_spec in Ha1 as (chunks & Hs & -> & Hlen); [|done].
  exists a, chunks. split_and!; try done.
  - unfold body_stream in Hs. clear -Hs. revert chunks Hs. induction (rw_bytes_stream a) as [|i l IH]; intros [|c cs] Hs;
      try done. cbn [fmap list_fmap] in Hs. injection Hs as Hi Hs. destruct i; [|done..]. injection Hi as ->.
    cbn [fmap list_fmap]. f_equal. by apply IH.
  - intros n Hn. unfold check_content_length in Ha0. rewrite Hn in Ha0. cbn in Ha0.
    by destruct (N.ltb_spec max_bytes n).
Qed.

Context `{!HttpOk}.

Lemma digits_text n : Forall (λ c, 32 ≤ c < 127) (show_N n).
Proof. eapply Forall_impl; [apply show_N_spec|]. intros c Hc%is_digit_range. lia. Qed.
Lemma insert_static_get name value k h : Forall (λ c, 32 ≤ c < 127) value →
  header_text (insert_static name value h) k = if decide (name = k) then Some value else header_text h k.
Proof.
  intros Hv. unfold insert_static, header_text. destruct (ho_visible value Hv) as [v Hs]. rewrite Hs, ho_get_insert.
  case_decide; [|done]. by apply ho_value.
Qed.

(** A chunk travels with its length, its range and a type, and with the other headers as they
    were given, a bearer token among them. *)
Theorem reqwest_chunk_framed url headers chunk a b (w w' : W) r :
  tr_patch_chunk url headers chunk (a, b) w = (w', Ok r) →
  ∃ sent resp, rw_send HttpPatch url sent (Some chunk) w = (w', Ok resp) ∧
    header_text sent (lit "content-length") = Some (show_N (usize_len chunk)) ∧
    header_text sent (lit "content-range") = Some (show_N a ++ lit "-" ++ show_N b) ∧
    is_Some (header_get sent (lit "content-type")) ∧
    (∀ k, k ∉ [lit "content-length"; lit "content-range"; lit "content-type"] → header_text sent k = header_text headers k) ∧
    uc_status r = rw_status resp ∧ uc_headers r = rw_headers resp.
Proof.
  intros Hr. cbn [tr_patch_chunk reqwest_transport] in Hr. unfold reqwest_patch_chunk in Hr.
  inv_task_step Hr. apply raise_ok in Hr as [-> Hr]. unfold send in Ha. apply convert_ok in Ha.
  exists (chunk_headers chunk (a, b) headers), a0. split; [done|].
  assert (Hrange : Forall (λ c, 32 ≤ c < 127) (show_N a ++ lit "-" ++ show_N b)).
  { apply Forall_app. split; [apply digits_text|]. apply Forall_app. split; [by repeat constructor|apply digits_text]. }
  assert (Hocts : ∀ k h, k ≠ lit "content-type" → header_text (with_octets h) k = header_text h k).
  { intros k h Hk. unfold with_octets. destruct (header_get h (lit "content-type")); [done|].
    rewrite insert_static_get by (by repeat constructor). by rewrite decide_False. }
  unfold chunk_headers. split_and!.
  - rewrite Hocts by done. unfold with_range, with_length. rewrite !insert_static_get by (done || apply digits_text). done.
  - rewrite Hocts by done. unfold with_range. rewrite insert_static_get by done. done.
  - unfold with_octets. set (h := with_range _ _). destruct (header_get h (lit "content-type")) as [v|] eqn:Hv;
      [rewrite Hv; by eexists|]. unfold insert_static. destruct (ho_visible (lit "application/octet-stream")) as [v Hs]; [by repeat constructor|].
    rewrite Hs, ho_get_insert. by rewrite decide_True.
  - intros k Hk. rewrite Hocts by set_solver. unfold with_range, with_length.
    rewrite !insert_static_get by (done || apply digits_text). rewrite !decide_False by set_solver. done.
  - unfold chunk_response in Hr. apply bind_ok in Hr as (range & _ & Hr). by injection Hr as <-.
  - unfold chunk_response in Hr. apply bind_ok in Hr as (range & _ & Hr). by injection Hr as <-.
Qed.
End reqwest.
