(* ===== verification/ProxyIndex.v ===== *)
(** * ProxyIndex: the tiered index of the proxy
    (crates/nixcache-proxy/src/index.rs, error.rs)

    The maps of a [CacheIndex] are shared by all requests, which run on several threads:
    each access to a map is one step, before which the other tasks may have done any
    number of theirs ([others]).  Logging is left out. *)

From S2P Require Import Prelude Machine Str Text Error Types Sharding Index Lookup OciError Transport Endpoint Auth Request Driver Upload Manifest ManifestClient IndexClient Ghcr Discovery Deletion Builder ReadOnly Task.

Local Open Scope N_scope.

Inductive ProxyIndexError :=
  | ProxyOci (e : OciError)
  | ProxyCore (e : CoreError)
  | AggregatedRefreshFailure (failures : list (list N)).

(** A [Duration] is its nanoseconds. *)
Record CascadingProxyConfig := {
  pc_repo : list N;
  pc_registry : list N;
  pc_baseline_tag : list N;
  pc_upstream_caches : list (list N);
  pc_baseline_ttl : N;
  pc_index_dir : list N;
  pc_target_system : SystemArch }.
Definition CascadingProxyConfig_default (consts_os consts_arch : list N) : CascadingProxyConfig := {|
  pc_repo := []; pc_registry := lit "ghcr.io"; pc_baseline_tag := lit "cache-index";
  pc_upstream_caches := [lit "https://cache.nixos.org"]; pc_baseline_ttl := 300 * 10 ^ 9;
  pc_index_dir := lit "/tmp"; pc_target_system := SystemArch_detect_current consts_os consts_arch |}.

Record StatusEntryCounts := {
  tier0_hot_entries : N;
  baseline_entries : N;
  total_unique_entries : N }.
Record RemoteStatus := { rs_connected : bool; rs_error : option (list N) }.
Definition RemoteStatus_default : RemoteStatus := {| rs_connected := false; rs_error := None |}.

Record CachedBaselineEntry := { cb_root : ShardedArchCacheIndexData; cb_expires_at : N }.
Record ShardCacheEntry := {
  sc_payload : ShardDataPayload;
  sc_nar_lookup : gmap (list N) NarDigest;
  sc_blob_digest : list N;
  sc_expires_at : N }.

(** The shared fields of a [CacheIndex], and the others. *)
Record IndexState := {
  hot_entries : gmap StoreHash IndexEntry;
  hot_nar_lookup : gmap (list N) NarDigest;
  hot_count : N;
  baseline_cache : gmap (list N) CachedBaselineEntry;
  shard_cache : gmap N ShardCacheEntry;
  remote_status : RemoteStatus }.
Record CacheIndex := { ci_config : CascadingProxyConfig; ci_oci_client : OciClient }.

(** The world of the tasks: the shared state, and the steps of the other tasks. *)
Class SharedIndex (W : Type) := {
  index_state : W → IndexState;
  set_index_state : IndexState → W → W;
  others : W → W;
  index_state_set : ∀ s w, index_state (set_index_state s w) = s }.
(** [Instant]s, in nanoseconds; adding a duration panics past the last one. *)
Class Instants (W : Type) := { instant_now : W → W * N; instant_max : N }.
(** [tokio::fs]; the directory of the file is created before it is written, whatever comes of it. *)
Class BackupFs (W : Type) := {
  fs_create_parent : list N → W → W;
  fs_write : list N → list N → W → W * bool;
  fs_exists : list N → W → W * bool;
  fs_read : list N → W → W * option (list N) }.

(** [PathBuf::join] with a file name. *)
Definition path_join (dir name : list N) : list N :=
  if is_empty dir then name else if ends_with [47] dir then dir ++ name else dir ++ 47 :: name.

Section setters.
Context (s : IndexState).
Definition with_hot_entry (k : StoreHash) (e : IndexEntry) : IndexState := {|
  hot_entries := <[k := e]> (hot_entries s); hot_nar_lookup := hot_nar_lookup s; hot_count := hot_count s;
  baseline_cache := baseline_cache s; shard_cache := shard_cache s; remote_status := remote_status s |}.
Definition with_hot_nar (n : list N) (d : NarDigest) : IndexState := {|
  hot_entries := hot_entries s; hot_nar_lookup := <[n := d]> (hot_nar_lookup s); hot_count := hot_count s;
  baseline_cache := baseline_cache s; shard_cache := shard_cache s; remote_status := remote_status s |}.
Definition with_hot_count (n : N) : IndexState := {|
  hot_entries := hot_entries s; hot_nar_lookup := hot_nar_lookup s; hot_count := n;
  baseline_cache := baseline_cache s; shard_cache := shard_cache s; remote_status := remote_status s |}.
Definition with_baselines (m : gmap (list N) CachedBaselineEntry) : IndexState := {|
  hot_entries := hot_entries s; hot_nar_lookup := hot_nar_lookup s; hot_count := hot_count s;
  baseline_cache := m; shard_cache := shard_cache s; remote_status := remote_status s |}.
Definition with_shards (m : gmap N ShardCacheEntry) : IndexState := {|
  hot_entries := hot_entries s; hot_nar_lookup := hot_nar_lookup s; hot_count := hot_count s;
  baseline_cache := baseline_cache s; shard_cache := m; remote_status := remote_status s |}.
Definition with_status (r : RemoteStatus) : IndexState := {|
  hot_entries := hot_entries s; hot_nar_lookup := hot_nar_lookup s; hot_count := hot_count s;
  baseline_cache := baseline_cache s; shard_cache := shard_cache s; remote_status := r |}.
End setters.

Section index.
Context {W : Type} `{HttpHeaders} `{UriLib} `{UnicodeCase} `{!TransportOps W} `{!TokenOps W} `{!ClockOps W} `{!UtcNow W}.
Context `{!SharedIndex W} `{!Instants W} `{!BackupFs W}.
Context `{Sha2} `{Chrono} `{HashIter} `{Build} `{Zstd} `{ZstdEncoder} `{SerdeErrors} `{OciFormat}.
Context `{!Serde OciImageIndex} `{!Serde OciImageManifest}.
Context `{!Serde ShardedArchCacheIndexData} `{!Serde ShardDataPayload}.
Notation T := (Task ProxyIndexError W).

(** One access to the shared state. *)
Definition access {A} (f : IndexState → IndexState * A) : T A := λ w,
  let w := others w in
  let '(s, a) := f (index_state w) in (set_index_state s w, Ok a).
Definition read {A} (f : IndexState → A) : T A := access (λ s, (s, f s)).
Definition update (f : IndexState → IndexState) : T unit := access (λ s, (f s, tt)).

Definition instant_after (t ttl : N) : outcome ProxyIndexError N :=
  if t + ttl <=? instant_max then Ok (t + ttl) else Panic.
Definition expiry (ttl : N) : T N := now ← call instant_now; raise (instant_after now ttl).

(** [CacheIndex::with_config]: the client; the shared maps start empty. *)
Definition CacheIndex_with_config (config : CascadingProxyConfig) : outcome ProxyIndexError CacheIndex :=
  client ← map_err ProxyOci (create_tokio_reqwest_client (pc_registry config) (pc_repo config));
  Ok {| ci_config := config; ci_oci_client := client |}.
Definition initial_index : IndexState := {|
  hot_entries := ∅; hot_nar_lookup := ∅; hot_count := 0; baseline_cache := ∅; shard_cache := ∅;
  remote_status := RemoteStatus_default |}.

Context (self : CacheIndex).
Notation config := (ci_config self).
Notation client := (ci_oci_client self).

Definition set_remote_status (connected : bool) (error : option (list N)) : T unit :=
  update (λ s, with_status s {| rs_connected := connected; rs_error := error |}).
Definition get_remote_status : T (bool * option (list N)) :=
  read (λ s, (rs_connected (remote_status s), rs_error (remote_status s))).
Definition unreachable (e : OciError) : T unit :=
  set_remote_status false (Some (lit "Failed to connect to remote: " ++ display_oci_error e)).

(** The counter is atomic and wraps. *)
Definition register_hot_entries (entries : gmap StoreHash IndexEntry) : T unit :=
  let count := N.of_nat (size entries) in
  let nar_map := build_nar_lookup_map entries in
  _ ← task_each (λ '(key, entry), update (λ s, with_hot_entry s key entry)) (hash_iter entries);
  _ ← task_each (λ '(nar_name, digest), update (λ s, with_hot_nar s nar_name digest)) (hash_iter nar_map);
  update (λ s, with_hot_count s ((hot_count s + count) mod usize_bound)).

(** The payload a shard cache entry gives for a descriptor, if it is the right one and has not expired. *)
Definition cached_shard (shard_desc : ShardDescriptor) : T (option ShardDataPayload) :=
  cached ← read (λ s, shard_cache s !! sd_shard_id shard_desc);
  match cached with
  | Some cached =>
      if bool_decide (sc_blob_digest cached = sd_blob_digest shard_desc) then
        now ← call instant_now;
        mret (if now <? sc_expires_at cached then Some (sc_payload cached) else None)
      else mret None
  | None => mret None
  end.

Definition CacheIndex_get_shard_data (shard_desc : ShardDescriptor) : T (option ShardDataPayload) :=
  hit ← cached_shard shard_desc;
  match hit with
  | Some payload => mret (Some payload)
  | None =>
      if is_empty (sd_blob_digest shard_desc) then mret None
      else
        result ← attempt (get_shard_data client shard_desc (pc_target_system config));
        match result with
        | inr payload =>
            _ ← set_remote_status true None;
            let nar_map := build_nar_lookup_map (pl_entries payload) in
            expires_at ← expiry (pc_baseline_ttl config);
            _ ← update (λ s, with_shards s (<[sd_shard_id shard_desc := {|
                  sc_payload := payload; sc_nar_lookup := nar_map; sc_blob_digest := sd_blob_digest shard_desc;
                  sc_expires_at := expires_at |}]> (shard_cache s)));
            mret (Some payload)
        | inl e => _ ← unreachable e; mret None
        end
  end.

(** *** The baseline *)

Definition cache_key : list N := pc_baseline_tag config ++ lit "-" ++ SystemArch_as_str (pc_target_system config).
Definition backup_path : list N := path_join (pc_index_dir config)
  (lit "cache-index-v8-" ++ SystemArch_as_str (pc_target_system config) ++ lit ".json.zst").

(** The cached root, if it has not expired. *)
Definition cached_baseline : T (option ShardedArchCacheIndexData) :=
  entry ← read (λ s, baseline_cache s !! cache_key);
  match entry with
  | Some entry =>
      now ← call instant_now;
      mret (if now <? cb_expires_at entry then Some (cb_root entry) else None)
  | None => mret None
  end.

(** Drops the cached shards whose descriptors have changed. *)
Definition invalidate_changed (root_data : ShardedArchCacheIndexData) : T unit :=
  old_entry ← read (λ s, baseline_cache s !! cache_key);
  match old_entry with
  | Some old_entry =>
      if bool_decide (ix_merkle_root (cb_root old_entry) = ix_merkle_root root_data) then mret tt
      else
        changed ← try_pure (diff_shard_descriptors (ix_shards (cb_root old_entry)) (ix_shards root_data));
        task_each (λ sid, update (λ s, with_shards s (delete sid (shard_cache s))))
          (match changed with inr l => l | inl _ => [] end)
  | None => mret tt
  end.

Definition write_backup (root_data : ShardedArchCacheIndexData) : T unit :=
  _ ← call (λ w, (fs_create_parent backup_path w, tt));
  encoded ← try_pure (encode_zstd root_data DEFAULT_ZSTD_COMPRESSION_LEVEL);
  match encoded with
  | inr bytes => _ ← call (fs_write backup_path bytes); mret tt
  | inl _ => mret tt
  end.

Definition fetch_baseline : T (option ShardedArchCacheIndexData) :=
  result ← attempt (get_sharded_root client (pc_baseline_tag config) (pc_target_system config));
  match result with
  | inr (Some (root_data, _)) =>
      _ ← set_remote_status true None;
      _ ← invalidate_changed root_data;
      _ ← write_backup root_data;
      mret (Some root_data)
  | inr None => _ ← set_remote_status true None; mret None
  | inl e => _ ← unreachable e; mret None
  end.

Definition load_backup : T (option ShardedArchCacheIndexData) :=
  exists_ ← call (fs_exists backup_path);
  if negb exists_ then mret None
  else
    content ← call (fs_read backup_path);
    match content with
    | None => mret None
    | Some bytes =>
        decoded ← try_pure (decode_zstd (from_slice_validated Index_deserialize) bytes ROOT_INDEX_V8_ZSTD
                              (max_index_uncompressed_bytes (cl_limits client)));
        match decoded with
        | inl _ => mret None
        | inr decoded =>
            valid ← try_pure (Index_validate_for (di_value decoded) (pc_target_system config) (pc_repo config)
                                (pc_registry config) (index_validation_limits (cl_limits client)));
            mret (match valid with inr _ => Some (di_value decoded) | inl _ => None end)
        end
    end.

Definition get_baseline_data : T ShardedArchCacheIndexData :=
  hit ← cached_baseline;
  match hit with
  | Some root => mret root
  | None =>
      fetched ← fetch_baseline;
      fetched_baseline ← (match fetched with Some root => mret (Some root) | None => load_backup end);
      result ← (match fetched_baseline with
                | Some baseline => mret baseline
                | None =>
                    now ← call utc_now;
                    raise (map_err ProxyCore (Index_new (pc_target_system config) (pc_repo config) (pc_registry config) now))
                end);
      expires_at ← expiry (pc_baseline_ttl config);
      _ ← update (λ s, with_baselines s (<[cache_key := {| cb_root := result; cb_expires_at := expires_at |}]>
                                          (baseline_cache s)));
      mret result
  end.

(** *** Lookups *)

Definition CacheIndex_lookup (store_hash : list N) : T (option IndexEntry) :=
  parsed ← try_pure (StoreHash_parse store_hash);
  match parsed with
  | inl _ => mret None
  | inr parsed_hash =>
      hot ← read (λ s, hot_entries s !! parsed_hash);
      match hot with
      | Some entry => mret (Some entry)
      | None =>
          baseline ← get_baseline_data;
          shard_id ← raise (or_panic (calculate_shard_id parsed_hash));
          match Index_find_shard_by_id baseline shard_id with
          | None => mret None
          | Some shard_desc =>
              if ShardDescriptor_is_empty shard_desc || is_empty (sd_blob_digest shard_desc) then mret None
              else
                shard_payload ← CacheIndex_get_shard_data shard_desc;
                mret (payload ← shard_payload; pl_entries payload !! parsed_hash)
          end
      end
  end.

(** The scan of the loaded shards, in the order of the map. *)
Definition scan_shards (normalized : list N) (m : gmap N ShardCacheEntry) : option NarDigest :=
  head (omap (λ '(_, entry), sc_nar_lookup entry !! normalized) (hash_iter m)).

Definition find_nar_digest (nar_basename : list N) : T (option NarDigest) :=
  let normalized := extract_nar_basename nar_basename in
  hot ← read (λ s, hot_nar_lookup s !! normalized);
  match hot with
  | Some digest => mret (Some digest)
  | None =>
      store_hash ← raise (map_err (λ e, ProxyCore (TypeErr e)) (extract_store_hash nar_basename));
      entry ← (match store_hash with Some h => CacheIndex_lookup (StoreHash_as_str h) | None => mret None end);
      match entry with
      | Some entry => mret (Some (nar_digest entry))
      | None => read (λ s, scan_shards normalized (shard_cache s))
      end
  end.

Definition get_public_key : T (option (list N)) :=
  baseline ← get_baseline_data;
  mret (if is_empty (ix_public_key baseline) then None else Some (ix_public_key baseline)).

(** *** Counts and refreshing *)

Definition total_entries (root : ShardedArchCacheIndexData) : T N := raise (map_err ProxyCore (Index_total_entries root)).
Definition entries_at (key : list N) : T (option N) :=
  entry ← read (λ s, baseline_cache s !! key);
  match entry with
  | Some entry => n ← total_entries (cb_root entry); mret (Some n)
  | None => mret None
  end.

Definition get_entry_counts : T StatusEntryCounts :=
  hot ← read hot_count;
  for_system ← entries_at cache_key;
  baseline_count ← (match for_system with Some n => mret (Some n) | None => entries_at (pc_baseline_tag config) end);
  let baseline_count := default 0 baseline_count in
  total_unique ← (if 0 <? baseline_count then raise (arith_add usize_bound hot baseline_count) else mret hot);
  mret {| tier0_hot_entries := hot; baseline_entries := baseline_count; total_unique_entries := total_unique |}.

Definition force_refresh : T N :=
  _ ← update (λ s, with_baselines s (delete cache_key (baseline_cache s)));
  _ ← update (λ s, with_baselines s (delete (pc_baseline_tag config) (baseline_cache s)));
  _ ← update (λ s, with_shards s ∅);
  baseline ← get_baseline_data;
  n ← total_entries baseline;
  errs ← (if n =? 0 then
            status ← get_remote_status;
            mret (match status.2 with Some e => [lit "Baseline: " ++ e] | None => [] end)
          else mret []);
  counts ← get_entry_counts;
  if bool_decide (errs = []) || (0 <? total_unique_entries counts)
  then mret (total_unique_entries counts)
  else raise (Err (AggregatedRefreshFailure errs)).
End index.

(** ** Facts: what the shared state is *)

Section invariant.
Context {W : Type} `{HttpHeaders} `{UriLib} `{!TransportOps W} `{!TokenOps W} `{!UtcNow W}.
Context `{!SharedIndex W} `{!Instants W} `{!BackupFs W}.
Context `{Sha2Ok} `{Chrono} `{HashIter} `{Build} `{Zstd} `{ZstdEncoder} `{SerdeErrors} `{OciFormat}.
Context `{!Serde OciImageIndex} `{!Serde OciImageManifest}.
Context `{!Serde ShardedArchCacheIndexData} `{!Serde ShardDataPayload}.
(** The entries that have been registered, and the index. *)
Context (registered : StoreHash → IndexEntry → Prop) (self : CacheIndex).

(** A root that may answer: a valid one for the system, or one without entries. *)
Definition baseline_ok (root : ShardedArchCacheIndexData) : Prop :=
  (index_valid root ∧ ix_system root = pc_target_system (ci_config self)) ∨
  Forall (λ d, sd_entry_count d = 0) (ix_shards root).

Record index_inv (s : IndexState) : Prop := {
  inv_hot : map_Forall registered (hot_entries s);
  inv_hot_nar : map_Forall (λ n d, ∃ h e, registered h e ∧ IndexEntry_nar_basename e = n ∧ nar_digest e = d)
    (hot_nar_lookup s);
  inv_baselines : map_Forall (λ _ e, baseline_ok (cb_root e)) (baseline_cache s);
  inv_shards : map_Forall (λ id c, accepted_payload id (sc_blob_digest c) (sc_payload c) ∧
    sc_nar_lookup c = build_nar_lookup_map (pl_entries (sc_payload c))) (shard_cache s) }.

(** What a relation between worlds has to be kept by: the requests that read, the clocks,
    the file system, and the steps of the other tasks. *)
Class WorldKeeps (R : W → W → Prop) : Prop := {
  #[global] wk_reads :: ReadsKeep R;
  wk_others : ∀ w, R w (others w);
  wk_instant : ∀ w, R w (instant_now w).1;
  wk_utc : ∀ w, R w (utc_now w).1;
  wk_create : ∀ p w, R w (fs_create_parent p w);
  wk_write : ∀ p b w, R w (fs_write p b w).1;
  wk_exists : ∀ p w, R w (fs_exists p w).1;
  wk_read : ∀ p w, R w (fs_read p w).1 }.

(** The other tasks run the same operations: their steps keep the invariant. *)
Definition inv_kept (w w' : W) : Prop := index_inv (index_state w) → index_inv (index_state w').
Context `{!WorldKeeps inv_kept}.
Notation I := (λ w : W, index_inv (index_state w)).

Lemma triple_external {A} (m : W → W * A) : (∀ w, inv_kept w (m w).1) → triple I (call (E := ProxyIndexError) m) (λ _, True).
Proof. intros Hm. exact (triple_call I m Hm). Qed.
Lemma triple_request {A} (m : IO W A) (P : A → Prop) : preserves inv_kept m → (∀ w w' a, m w = (w', Ok a) → P a) →
  triple I (attempt (E := ProxyIndexError) m) (λ r, match r with inr a => P a | inl _ => True end).
Proof. intros Hm. exact (triple_attempt I m P Hm). Qed.
Lemma triple_access {A} (f : IndexState → IndexState * A) (Post : A → Prop) :
  (∀ s, index_inv s → index_inv (f s).1 ∧ Post (f s).2) → triple I (access f) Post.
Proof.
  intros Hf w Hw. unfold access. pose proof (Hf _ (wk_others w Hw)) as [Hs Ha].
  destruct (f (index_state (others w))) as [s a]. simpl in *. rewrite index_state_set. split; [done|]. by intros ? [= <-].
Qed.
Lemma triple_read {A} (f : IndexState → A) (Post : A → Prop) :
  (∀ s, index_inv s → Post (f s)) → triple I (read f) Post.
Proof. intros Hf. apply triple_access. intros s Hs. split; [done|]. by apply Hf. Qed.
Lemma triple_update (f : IndexState → IndexState) :
  (∀ s, index_inv s → index_inv (f s)) → triple I (update f) (λ _, True).
Proof. intros Hf. apply triple_access. intros s Hs. split; [|done]. by apply Hf. Qed.

Lemma triple_status connected error : triple I (set_remote_status connected error) (λ _, True).
Proof. apply triple_update. intros s []. by split. Qed.
Lemma triple_unreachable e : triple I (unreachable e) (λ _, True).
Proof. apply triple_status. Qed.
Lemma triple_expiry ttl : triple I (expiry ttl) (λ _, True).
Proof.
  unfold expiry. eapply triple_bind; [apply triple_external; intros w; apply wk_instant|]. intros now _. by apply triple_raise.
Qed.
Lemma triple_shards f : (∀ s, index_inv s → map_Forall (λ id c, accepted_payload id (sc_blob_digest c) (sc_payload c) ∧
    sc_nar_lookup c = build_nar_lookup_map (pl_entries (sc_payload c))) (f (shard_cache s))) →
  triple I (update (λ s, with_shards s (f (shard_cache s)))) (λ _, True).
Proof. intros Hf. apply triple_update. intros s Hs. pose proof (Hf s Hs). destruct Hs. by split. Qed.
Lemma triple_baselines f : (∀ s, index_inv s → map_Forall (λ _ e, baseline_ok (cb_root e)) (f (baseline_cache s))) →
  triple I (update (λ s, with_baselines s (f (baseline_cache s)))) (λ _, True).
Proof. intros Hf. apply triple_update. intros s Hs. pose proof (Hf s Hs). destruct Hs. by split. Qed.

Lemma triple_register entries : map_Forall registered entries →
  triple I (register_hot_entries entries) (λ _, True).
Proof.
  intros Hreg. unfold register_hot_entries. eapply triple_bind.
  { apply triple_each. intros [k e] Hke%elem_of_hash_iter. apply triple_update. intros s []. split; try done.
    apply map_Forall_insert_2; [by apply Hreg|done]. }
  intros _ _. eapply triple_bind.
  { apply triple_each. intros [n d] Hn%elem_of_hash_iter. apply triple_update. intros s []. split; try done.
    apply map_Forall_insert_2; [|done]. apply build_nar_lookup_map_spec in Hn as (_ & k & e & He & Hb & Hd).
    exists k, e. split; [by apply Hreg|done]. }
  intros _ _. apply triple_update. intros s []. by split.
Qed.

(** *** Shards *)

Lemma triple_cached_shard d :
  triple I (cached_shard d) (λ r, ∀ p, r = Some p → accepted_payload (sd_shard_id d) (sd_blob_digest d) p).
Proof.
  unfold cached_shard. eapply triple_bind.
  { apply (triple_read _ (λ r, ∀ c, r = Some c → accepted_payload (sd_shard_id d) (sc_blob_digest c) (sc_payload c))).
    intros s Hs c Hc. by apply (inv_shards _ Hs) in Hc as [? _]. }
  intros [c|] Hc; [|by apply triple_ret]. case_bool_decide as Hb; [|by apply triple_ret].
  eapply triple_bind; [apply triple_external; intros w; apply wk_instant|]. intros now _. apply triple_ret.
  intros p Hp. destruct (now <? sc_expires_at c); [|done]. injection Hp as <-. rewrite <- Hb. by apply Hc.
Qed.

Lemma triple_get_shard_data d :
  triple I (CacheIndex_get_shard_data self d) (λ r, ∀ p, r = Some p → accepted_payload (sd_shard_id d) (sd_blob_digest d) p).
Proof.
  unfold CacheIndex_get_shard_data. eapply triple_bind; [apply triple_cached_shard|]. intros [p|] Hp; [by apply triple_ret|].
  destruct (is_empty (sd_blob_digest d)); [by apply triple_ret|]. eapply triple_bind.
  { apply triple_request; [apply keep_get_shard_data, _|]. intros w w' p Hg. by eapply fetched_payload_accepted. }
  intros [e|p] Ha.
  { eapply triple_bind; [apply triple_unreachable|]. intros _ _. by apply triple_ret. }
  eapply triple_bind; [apply triple_status|]. intros _ _. eapply triple_bind; [apply triple_expiry|]. intros t _.
  eapply triple_bind.
  { apply triple_shards. intros s []. by apply map_Forall_insert_2. }
  intros _ _. apply triple_ret. by intros ? [= <-].
Qed.

(** *** The baseline *)

Lemma triple_cached_baseline : triple I (cached_baseline self) (λ r, ∀ root, r = Some root → baseline_ok root).
Proof.
  unfold cached_baseline. eapply triple_bind.
  { apply (triple_read _ (λ r, ∀ e, r = Some e → baseline_ok (cb_root e))). intros s Hs e. apply (inv_baselines _ Hs). }
  intros [e|] He; [|by apply triple_ret]. eapply triple_bind; [apply triple_external; intros w; apply wk_instant|].
  intros now _. apply triple_ret. intros root Hr. destruct (now <? cb_expires_at e); [|done]. injection Hr as <-. by apply He.
Qed.

Lemma triple_invalidate root : triple I (invalidate_changed self root) (λ _, True).
Proof.
  unfold invalidate_changed. eapply triple_bind; [by apply (triple_read _ (λ _, True))|].
  intros [e|] _; [|by apply triple_ret]. case_bool_decide; [by apply triple_ret|].
  eapply triple_bind; [apply triple_try|]. intros changed _. apply triple_each. intros sid _.
  apply triple_shards. intros s []. by apply map_Forall_delete.
Qed.
Lemma triple_write_backup root : triple I (write_backup self root) (λ _, True).
Proof.
  unfold write_backup. eapply triple_bind; [apply triple_external; intros w; apply wk_create|]. intros _ _.
  eapply triple_bind; [apply triple_try|]. intros [e|bytes] _; [by apply triple_ret|].
  eapply triple_bind; [apply triple_external; intros w; apply wk_write|]. intros _ _. by apply triple_ret.
Qed.

Lemma triple_fetch : triple I (fetch_baseline self) (λ r, ∀ root, r = Some root → baseline_ok root).
Proof.
  unfold fetch_baseline. eapply triple_bind.
  { apply (triple_request _ (λ r, ∀ root d, r = Some (root, d) → baseline_ok root)); [apply keep_get_sharded_root, _|].
    intros w w' [[root d]|] Hg root' d' [= <- <-]. apply get_sharded_root_accepted in Hg as (Hv & Hs & _). by left. }
  intros [e|[[root d]|]] Ha.
  { eapply triple_bind; [apply triple_unreachable|]. intros _ _. by apply triple_ret. }
  - eapply triple_bind; [apply triple_status|]. intros _ _. eapply triple_bind; [apply triple_invalidate|]. intros _ _.
    eapply triple_bind; [apply triple_write_backup|]. intros _ _. apply triple_ret. intros r [= <-]. by eapply Ha.
  - eapply triple_bind; [apply triple_status|]. intros _ _. by apply triple_ret.
Qed.

Lemma validated_baseline_ok root repo registry limits u :
  Index_validate_for root (pc_target_system (ci_config self)) repo registry limits = Ok u → baseline_ok root.
Proof.
  intros Hv. unfold Index_validate_for in Hv. apply bind_ok in Hv as (u1 & Hs & Hv).
  apply bind_ok in Hv as (u2 & Hsys & _). apply ensure_ok, bool_decide_eq_true in Hsys.
  destruct u1. apply Index_validate_ok in Hs. by left.
Qed.

Lemma triple_load_backup : triple I (load_backup self) (λ r, ∀ root, r = Some root → baseline_ok root).
Proof.
  unfold load_backup. eapply triple_bind; [apply triple_external; intros w; apply wk_exists|]. intros ex _.
  destruct ex; [|by apply triple_ret]. cbn [negb]. eapply triple_bind; [apply triple_external; intros w; apply wk_read|].
  intros [bytes|] _; [|by apply triple_ret]. eapply triple_bind; [apply triple_try|]. intros [e|decoded] _; [by apply triple_ret|].
  eapply triple_bind; [apply triple_try|]. intros [e|u] Hv; apply triple_ret; [done|]. intros root [= <-].
  by eapply validated_baseline_ok.
Qed.

Lemma new_baseline_ok system repo registry now root : Index_new system repo registry now = Ok root → baseline_ok root.
Proof.
  intros Hn. right. unfold Index_new in Hn. apply bind_ok in Hn as (shards & Hc & Hn). apply bind_ok in Hn as (mr & _ & [= <-]).
  destruct empty_shards_ok as (shards' & Hc' & _ & _ & Hz). rewrite Hc in Hc'. by injection Hc' as <-.
Qed.

Lemma triple_get_baseline : triple I (get_baseline_data self) baseline_ok.
Proof.
  unfold get_baseline_data. eapply triple_bind; [apply triple_cached_baseline|].
  intros [root|] Hhit; [by apply triple_ret, Hhit|]. eapply triple_bind; [apply triple_fetch|]. intros fetched Hf.
  eapply triple_bind.
  { instantiate (1 := λ r, ∀ root, r = Some root → baseline_ok root). destruct fetched; [by apply triple_ret|apply triple_load_backup]. }
  clear fetched Hf. intros fetched Hf. eapply triple_bind.
  { instantiate (1 := baseline_ok). destruct fetched as [root|]; [by apply triple_ret, Hf|].
    eapply triple_bind; [apply triple_external; intros w; apply wk_utc|]. intros now _. apply triple_raise.
    intros root Hr%map_err_ok. by eapply new_baseline_ok. }
  intros root Hroot. eapply triple_bind; [apply triple_expiry|]. intros t _. eapply triple_bind.
  { apply triple_baselines. intros s []. by apply map_Forall_insert_2. }
  intros _ _. by apply triple_ret.
Qed.

(** *** Lookups *)

(** Where an entry that is served for a hash comes from: it was registered, or it is in a
    payload accepted for the blob that a valid root of the system names for the shard of
    the hash. *)
Definition answers (h : StoreHash) (e : IndexEntry) : Prop :=
  registered h e ∨ ∃ root id d p, index_valid root ∧ ix_system root = pc_target_system (ci_config self) ∧
    calculate_shard_id h = Some id ∧ Index_find_shard_by_id root id = Some d ∧
    accepted_payload id (sd_blob_digest d) p ∧ pl_entries p !! h = Some e.

Lemma triple_lookup s : triple I (CacheIndex_lookup self s)
  (λ r, ∀ e, r = Some e → ∃ h, StoreHash_parse s = Ok h ∧ answers h e).
Proof.
  unfold CacheIndex_lookup. eapply triple_bind; [apply triple_try|]. intros [err|h] Hh; [by apply triple_ret|].
  eapply triple_bind.
  { apply (triple_read _ (λ r, ∀ e, r = Some e → registered h e)). intros st Hs e. apply (inv_hot _ Hs). }
  intros [e|] Hhot.
  { apply triple_ret. intros ? [= <-]. exists h. split; [done|]. left. by apply Hhot. }
  eapply triple_bind; [apply triple_get_baseline|]. intros root Hroot.
  eapply triple_bind; [apply (triple_raise _ _ (λ id, calculate_shard_id h = Some id)); by intros id ?%or_panic_ok|].
  intros id Hid. destruct (Index_find_shard_by_id root id) as [d|] eqn:Hd; [|by apply triple_ret].
  destruct (ShardDescriptor_is_empty d) eqn:Hem; [by apply triple_ret|]. cbn [orb].
  destruct (is_empty (sd_blob_digest d)); [by apply triple_ret|].
  eapply triple_bind; [apply triple_get_shard_data|]. intros r Hr. apply triple_ret. intros e He.
  destruct r as [p|]; [|done]. simpl in He. exists h. split; [done|]. right. exists root, id, d, p.
  destruct Hroot as [[Hv Hs]|Hz].
  - assert (Hi : sd_shard_id d = id).
    { destruct Hv as [_ _ _ _ Hids _ _]. rewrite (ordered_id _ _ _ Hids Hd). apply N2Nat.id. }
    split_and!; try done. rewrite <- Hi. by apply Hr.
  - exfalso. rewrite Forall_forall in Hz. unfold ShardDescriptor_is_empty in Hem.
    rewrite (Hz d) in Hem; [done|]. by eapply list_elem_of_lookup_2.
Qed.

(** Where a NAR digest that is served comes from. *)
Definition nar_answers (name : list N) (digest : NarDigest) : Prop :=
  ∃ h e, nar_digest e = digest ∧
    (answers h e ∨ IndexEntry_nar_basename e = extract_nar_basename name ∧
       ∃ id blob_digest p, accepted_payload id blob_digest p ∧ pl_entries p !! h = Some e).

Lemma scan_shards_ok name st digest : index_inv st → scan_shards (extract_nar_basename name) (shard_cache st) = Some digest →
  nar_answers name digest.
Proof.
  intros Hs Hd. unfold scan_shards in Hd. apply head_Some_elem_of, list_elem_of_omap in Hd as ([id c] & Hc%elem_of_hash_iter & Hd).
  destruct (inv_shards _ Hs id c Hc) as [Hp Hl]. rewrite Hl in Hd.
  apply build_nar_lookup_map_spec in Hd as (_ & h & e & He & Hb & Hdig). exists h, e. split; [done|]. right.
  split; [done|]. by exists id, (sc_blob_digest c), (sc_payload c).
Qed.

Lemma triple_find_nar name : triple I (find_nar_digest self name) (λ r, ∀ digest, r = Some digest → nar_answers name digest).
Proof.
  unfold find_nar_digest. eapply triple_bind.
  { apply (triple_read _ (λ r, ∀ digest, r = Some digest → nar_answers name digest)). intros st Hs digest Hd.
    apply (inv_hot_nar _ Hs) in Hd as (h & e & Hreg & Hb & Hdig). exists h, e. split; [done|]. left. by left. }
  intros [digest|] Hhot; [by apply triple_ret|]. eapply triple_bind; [by apply (triple_raise _ _ (λ _, True))|].
  intros sh _. eapply triple_bind.
  { instantiate (1 := λ r, ∀ e, r = Some e → ∃ h, answers h e). destruct sh as [h|]; [|by apply triple_ret].
    eapply triple_weaken; [apply triple_lookup|]. intros r Hr e (h' & _ & Ha)%Hr. by exists h'. }
  intros [e|] He.
  { apply triple_ret. intros ? [= <-]. destruct (He e eq_refl) as [h Ha]. exists h, e. split; [done|]. by left. }
  apply triple_read. intros st Hs digest. by apply scan_shards_ok.
Qed.

(** *** The other operations *)

Lemma triple_public_key : triple I (get_public_key self) (λ r, ∀ k, r = Some k → ∃ root, baseline_ok root ∧ ix_public_key root = k).
Proof.
  unfold get_public_key. eapply triple_bind; [apply triple_get_baseline|]. intros root Hr. apply triple_ret.
  intros k Hk. destruct (is_empty _); [done|]. injection Hk as <-. by exists root.
Qed.
Lemma triple_entries_at key : triple I (entries_at key) (λ _, True).
Proof.
  unfold entries_at. eapply triple_bind; [by apply (triple_read _ (λ _, True))|]. intros [e|] _; [|by apply triple_ret].
  eapply triple_bind; [by apply (triple_raise _ _ (λ _, True))|]. intros n _. by apply triple_ret.
Qed.
Lemma triple_counts : triple I (get_entry_counts self) (λ _, True).
Proof.
  unfold get_entry_counts. eapply triple_bind; [by apply (triple_read _ (λ _, True))|]. intros hot _.
  eapply triple_bind; [apply triple_entries_at|]. intros n _. eapply triple_bind.
  { instantiate (1 := λ _, True). destruct n; [by apply triple_ret|apply triple_entries_at]. }
  intros m _. eapply triple_bind; [|intros; by apply triple_ret].
  instantiate (1 := λ _, True). destruct (_ <? _); [by apply triple_raise|by apply triple_ret].
Qed.
Lemma triple_refresh : triple I (force_refresh self) (λ _, True).
Proof.
  unfold force_refresh. eapply triple_bind; [apply triple_baselines; intros s []; by apply map_Forall_delete|]. intros _ _.
  eapply triple_bind; [apply triple_baselines; intros s []; by apply map_Forall_delete|]. intros _ _.
  eapply triple_bind; [apply (triple_shards (λ _, ∅)); intros s []; by apply map_Forall_empty|]. intros _ _.
  eapply triple_bind; [apply triple_get_baseline|]. intros root _.
  eapply triple_bind; [by apply (triple_raise _ _ (λ _, True))|]. intros n _. eapply triple_bind.
  { instantiate (1 := λ _, True). destruct (_ =? _); [|by apply triple_ret].
    eapply triple_bind; [by apply (triple_read _ (λ _, True))|]. intros st _. by apply triple_ret. }
  intros errs _. eapply triple_bind; [apply triple_counts|]. intros counts _.
  destruct (_ || _); [by apply triple_ret|by apply triple_raise].
Qed.
End invariant.

(** ** Facts: the backup *)

Lemma Index_deserialize_valid `{Sha2Ok} `{Chrono} `{HashIter} ix : index_valid ix → Index_deserialize ix = Ok ix.
Proof.
  intros Hv. unfold Index_deserialize.
  assert (for_each (λ d, _ ← ShardDescriptor_deserialize d; Ok tt) (ix_shards ix) = Ok ()) as ->.
  { apply for_each_ok. destruct Hv as [_ _ _ _ _ Hd _]. eapply Forall_impl; [exact Hd|]. intros d Hdv.
    unfold ShardDescriptor_deserialize. by rewrite (proj2 (ShardDescriptor_validate_ok d ()) Hdv). }
  cbn [mbind outcome_bind]. by rewrite (proj2 (Index_validate_ok ix ()) Hv).
Qed.

(** A value that decodes and is valid decodes with validation. *)
Lemma decode_zstd_validated `{Zstd} `{SerdeErrors} {T} `{!Serde T} (deserialize : T → outcome CoreError T) frame media_type max x :
  decode_zstd from_json_slice frame media_type max = Ok x → deserialize (di_value x) = Ok (di_value x) →
  decode_zstd (from_slice_validated deserialize) frame media_type max = Ok x.
Proof.
  unfold decode_zstd. intros Hd Hv. apply bind_ok in Hd as (mt & Hmt & Hd). apply bind_ok in Hd as (u & Hu & Hd).
  apply bind_ok in Hd as (p & Hp & Hd). injection Hd as <-. simpl in Hv. rewrite Hmt. cbn [mbind outcome_bind].
  rewrite Hu. cbn [mbind outcome_bind]. unfold from_slice_validated. apply map_err_ok in Hp. rewrite Hp.
  cbn [mbind outcome_bind]. by rewrite Hv.
Qed.

(** ** Properties *)


(** *** The hot tier *)

Section hot.
Context {W : Type} `{!SharedIndex W} `{HashIter} `{Build}.
Context (h : StoreHash) (e : IndexEntry).
Notation hot := (λ w : W, hot_entries (index_state w) !! h = Some e).
Hypothesis Hothers : ∀ w, hot w → hot (others w).

Lemma triple_hot_update f : (∀ s, hot_entries s !! h = Some e → hot_entries (f s) !! h = Some e) →
  triple hot (update f) (λ _, True).
Proof.
  intros Hf w Hw. unfold update, access. simpl. rewrite index_state_set. split; [|done]. by apply Hf, Hothers.
Qed.

(** Once its turn has come the entry stays. *)
Lemma upserted_hot l (w : W) : (h, e) ∈ l → NoDup l.*1 →
  hot (task_each (λ '(key, entry), update (λ s, with_hot_entry s key entry)) l w).1.
Proof.
  revert w. induction l as [|[k e'] l IH]; intros w Hin Hnd; [by apply elem_of_nil in Hin|].
  rewrite fmap_cons in Hnd. apply NoDup_cons in Hnd as [Hk Hnd]. cbn [task_each]. unfold mbind, task_bind, update at 1, access at 1.
  apply elem_of_cons in Hin as [[= <- <-]|Hin]; [|by apply IH].
  eapply triple_each; [|by simpl; rewrite index_state_set; apply lookup_insert_eq].
  intros [k' e''] Hk'. apply triple_hot_update. intros s Hs. simpl. rewrite lookup_insert_ne; [done|].
  intros <-. apply Hk. by apply (list_elem_of_fmap_2 fst _ _ Hk').
Qed.

Lemma register_hot entries (w : W) : entries !! h = Some e → hot (register_hot_entries entries w).1.
Proof.
  intros He. unfold register_hot_entries.
  assert (Hup : hot (task_each (λ '(key, entry), update (λ s, with_hot_entry s key entry)) (hash_iter entries) w).1).
  { apply upserted_hot; [by apply elem_of_hash_iter|apply NoDup_fst_hash_iter]. }
  unfold mbind at 1, task_bind at 1. destruct (task_each _ _ w) as [w1 [[]|err|]]; [|done..].
  refine (proj1 (triple_bind hot _ _ (λ _, True) (λ _, True) _ _ w1 Hup)).
  - apply triple_each. intros [n d] _. by apply triple_hot_update.
  - intros _ _. by apply triple_hot_update.
Qed.
End hot.

(** what is registered is served at once.  After [register_hot_entries] returns, a
    lookup of any of its hashes gives its entry, without a request and whatever else the
    other tasks did meanwhile, as long as none registers another entry for the hash. *)
Theorem registered_entry_served {W : Type} `{HttpHeaders} `{UriLib} `{!TransportOps W} `{!TokenOps W} `{!UtcNow W}
    `{!SharedIndex W} `{!Instants W} `{!BackupFs W} `{Sha2} `{Chrono} `{HashIter} `{Build} `{Zstd} `{ZstdEncoder}
    `{SerdeErrors} `{OciFormat} `{!Serde OciImageIndex} `{!Serde OciImageManifest}
    `{!Serde ShardedArchCacheIndexData} `{!Serde ShardDataPayload}
    (self : CacheIndex) (entries : gmap StoreHash IndexEntry) (h : StoreHash) (e : IndexEntry) (w : W)
    (Hothers : ∀ w : W, hot_entries (index_state w) !! h = Some e → hot_entries (index_state (others w)) !! h = Some e)
    (He : entries !! h = Some e) (Hh : valid_store_hash (StoreHash_as_str h)) :
  let w1 := (register_hot_entries entries w).1 in
  CacheIndex_lookup self (StoreHash_as_str h) w1 = (set_index_state (index_state (others w1)) (others w1), Ok (Some e)).
Proof.
  intros w1. pose proof (register_hot h e Hothers entries w He) as Hw. fold w1 in Hw. apply Hothers in Hw.
  unfold CacheIndex_lookup, mbind, task_bind, try_pure, attempt. rewrite (StoreHash_parse_valid _ Hh).
  unfold read, access. destruct h as [t]. simpl in *. by rewrite Hw.
Qed.

(** ** Divergences *)

(** The root the registry gives carries the canonical name of the repository, and the
    backup of it is compared with the name as configured: with a capital letter in the
    configured name no backup is ever used. *)
Theorem backup_of_capital_repo_rejected `{Sha2Ok} `{Chrono} `{HashIter} (config : CascadingProxyConfig)
    (self : CacheIndex) root u :
  pc_repo config = lit "Owner/Cache" → pc_registry config = lit "ghcr.io" →
  @CacheIndex_with_config sample_uri ascii_case sample_build config = Ok self →
  root_accepted (ci_oci_client self) root (pc_target_system config) →
  Index_validate_for root (pc_target_system config) (pc_repo config) (pc_registry config)
    (index_validation_limits (cl_limits (ci_oci_client self))) ≠ Ok u.
Proof.
  intros Hr Hg Hself (_ & _ & Hrepo & _) Hv. unfold CacheIndex_with_config in Hself. rewrite Hr, Hg in Hself.
  apply bind_ok in Hself as (client & Hc & [= <-]). vm_compute in Hc. injection Hc as <-. simpl in Hrepo.
  unfold Index_validate_for in Hv. apply bind_ok in Hv as (u1 & _ & Hv). apply bind_ok in Hv as (u2 & _ & Hv).
  apply bind_ok in Hv as (u3 & Hb%ensure_ok & _). apply andb_true_iff in Hb as [Hb _].
  apply bool_decide_eq_true in Hb. rewrite Hb, Hr in Hrepo. by vm_compute in Hrepo.
Qed.

(** ** Witnesses and one more divergence *)

Section samples.
#[local] Existing Instance flat_sha2.
#[local] Existing Instance flat_sha2_ok.
#[local] Existing Instance Types.sample_chrono.
#[local] Existing Instance map_order.
#[local] Existing Instance sample_http.
#[local] Existing Instance sample_uri.
#[local] Existing Instance ascii_case.
#[local] Existing Instance sample_build.
#[local] Existing Instance sample_errors.
#[local] Existing Instance sample_format.
#[local] Existing Instance served_zstd.
#[local] Existing Instance sample_encoder.
#[local] Existing Instance sample_index_serde.
#[local] Existing Instance served_manifest_serde.

Lemma served_zstd_roundtrip : ZstdRoundTrip.
Proof.
  intros data frame level [= <-]. split; [done|]. exists data. split; [done|]. intros n. simpl.
  unfold usize_len. f_equal. destruct (N.min_spec n (N.of_nat (length data))) as [[_ ->]|[Hle ->]]; [done|].
  rewrite Nat2N.id, !take_ge; [done|lia|lia].
Qed.
#[local] Existing Instance served_zstd_roundtrip.

(** The world: whether the registry can be reached, and the shared state. *)
Record SampleWorld := { sw_up : bool; sw_state : IndexState }.
#[local] Instance sample_shared : SharedIndex SampleWorld.
Proof.
  refine {| index_state := sw_state; set_index_state := λ s w, {| sw_up := sw_up w; sw_state := s |}; others := id |}. done.
Defined.
#[local] Instance sample_tokens : TokenOps SampleWorld := {|
  tm_cached_token := λ w, (w, None); tm_refresh_token := λ _ w, (w, Ok []) |}.
#[local] Instance sample_transport : TransportOps SampleWorld :=
  let refused {A} (w : SampleWorld) : SampleWorld * outcome TransportError (StatusCode * A) := (w, Err (TransportIo [])) in
  @Build_TransportOps SampleWorld sample_http (λ _ _, refused)
    (λ url _ _ w, (w, if sw_up w
       then Ok (200, [], if contains (lit "/manifests/") url then [109] else ZSTD_MAGIC ++ [114])
       else Err (TransportIo [])))
    (λ _ _ _ w, (w, Err (TransportIo []))) (λ _ _, refused) (λ _ _ _, refused) (λ _ _ _, refused)
    (λ _ _ _ _ w, (w, Err (TransportIo []))) (λ _ _ _, refused) (λ _ _, refused) (λ _ w, w).
#[local] Instance sample_utc_now : UtcNow SampleWorld := {| utc_now := λ w, (w, 29%Z) |}.
#[local] Instance sample_instants : Instants SampleWorld := {| instant_now := λ w, (w, 5); instant_max := 2 ^ 64 |}.
#[local] Instance sample_backup : BackupFs SampleWorld := {|
  fs_create_parent := λ _ w, w; fs_write := λ _ _ w, (w, true); fs_exists := λ _ w, (w, true);
  fs_read := λ _ w, (w, Some (ZSTD_MAGIC ++ [114])) |}.
#[local] Instance sample_payloads : Serde ShardDataPayload := {|
  to_json := λ _, Ok [115]; from_json_str := λ _, Err []; from_json_slice := λ _, Ok sample_payload |}.

#[local] Instance index_data_eq : EqDecision ShardedArchCacheIndexData.
Proof. solve_decision. Defined.
Definition no_root : ShardedArchCacheIndexData := {|
  ix_version := 0; ix_system := X86_64Linux; ix_repo := []; ix_registry := []; ix_generated := []; ix_public_key := [];
  ix_shards := []; ix_merkle_root := []; ix_gc_roots := []; ix_last_promoted_run := None |}.
Definition the_root : ShardedArchCacheIndexData := default no_root (ok served_root).
(** JSON that knows one root. *)
Definition one_root_serde (r : ShardedArchCacheIndexData) : Serde ShardedArchCacheIndexData := {|
  to_json := λ x, if decide (x = r) then Ok [114] else Err [];
  from_json_str := λ s, if decide (s = [114]) then Ok r else Err [];
  from_json_slice := λ s, if decide (s = [114]) then Ok r else Err [] |}.
Lemma one_root_serde_ok r : @SerdeOk ShardedArchCacheIndexData (one_root_serde r).
Proof. intros x s. simpl. case_decide as Hx; [|done]. intros [= <-]. by rewrite Hx. Qed.
Lemma one_root_encoded r : @to_json _ (one_root_serde r) r = Ok [114] ∧
  @encode_zstd _ _ (one_root_serde r) r DEFAULT_ZSTD_COMPRESSION_LEVEL = Ok (ZSTD_MAGIC ++ [114]).
Proof. unfold encode_zstd. simpl. by rewrite decide_True. Qed.
#[local] Instance the_root_serde : Serde ShardedArchCacheIndexData := one_root_serde the_root.
#[local] Instance the_root_serde_ok : SerdeOk ShardedArchCacheIndexData := one_root_serde_ok the_root.

Definition sample_config : CascadingProxyConfig := {|
  pc_repo := lit "owner/cache"; pc_registry := lit "us-docker.pkg.dev"; pc_baseline_tag := lit "cache-index";
  pc_upstream_caches := [lit "https://cache.nixos.org"]; pc_baseline_ttl := 300; pc_index_dir := lit "/tmp";
  pc_target_system := X86_64Linux |}.
Definition sample_proxy : CacheIndex := {|
  ci_config := sample_config;
  ci_oci_client := match create_tokio_reqwest_client (lit "us-docker.pkg.dev") (lit "owner/cache") with
                   | Ok client => client | _ => sample_client end |}.
Definition world_up : SampleWorld := {| sw_up := true; sw_state := initial_index |}.
Definition world_down : SampleWorld := {| sw_up := false; sw_state := initial_index |}.

Lemma sample_root_read : ∃ digest,
  get_sharded_root (ci_oci_client sample_proxy) (lit "cache-index") X86_64Linux world_up = (world_up, Ok (Some (the_root, digest))).
Proof. eexists. by vm_compute. Qed.


Lemma sample_world_keeps registered : WorldKeeps (W := SampleWorld) (inv_kept registered sample_proxy).
Proof.
  split; try (by intros; unfold inv_kept).
  split; [|by intros; unfold inv_kept..]. split; [by intros w; unfold inv_kept|].
  intros w1 w2 w3; unfold inv_kept; auto.
Qed.
Lemma initial_index_sound registered : index_inv registered sample_proxy initial_index.
Proof. split; apply map_Forall_empty. Qed.

Definition sample_registered (h : StoreHash) (e : IndexEntry) : Prop := sample_shard !! h = Some e.
Lemma registered_entry_served_witness :
  (CacheIndex_lookup sample_proxy sample_hash (register_hot_entries sample_shard world_down).1).2
  = Ok (Some (sample_entry sample_hash [] (lit "29"))).
Proof.
  change sample_hash with (StoreHash_as_str sample_key) at 1.
  rewrite (registered_entry_served sample_proxy sample_shard sample_key (sample_entry sample_hash [] (lit "29")) world_down);
    [done|done|reflexivity|split; [reflexivity | by repeat constructor]].
Defined.

(** The counter of the hot tier counts registrations: an entry registered twice is counted
    as two of the "unique" entries. *)
Theorem hot_count_counts_twice :
  let w := (register_hot_entries sample_shard (register_hot_entries sample_shard world_down).1).1 in
  hot_count (index_state w) = 2 ∧ size (hot_entries (index_state w)) = 1%nat.
Proof. by vm_compute. Qed.
End samples.
