(* ===== verification/Proxy.v ===== *)
(** * Proxy: the routes and handlers of the proxy
    (crates/nixcache-proxy/src/proxy.rs)

    The server itself is axum: a request is its method and the decoded segments of its
    path, a response its status, the headers the handler sets and the body.  The client
    of the upstream caches is reqwest, an interface. *)

From S2P Require Import Prelude Machine Str Text Error Types Sharding Index Lookup OciError Transport Endpoint Auth Request Driver Upload Manifest ManifestClient IndexClient Ghcr Discovery Deletion Builder ReadOnly Task ProxyIndex.

Local Open Scope N_scope.

(** [reqwest::Client::get(..).send()] with the status, the length and the two ways to the body. *)
Class Upstream (W : Type) := {
  UpstreamResponse : Type;
  up_get : list N → W → W * option UpstreamResponse;
  up_status : UpstreamResponse → StatusCode;
  up_content_length : UpstreamResponse → option N;
  up_text : UpstreamResponse → W → W * option (list N) }.

Record StatusResponse := {
  st_remote_connected : bool;
  st_remote_error : option (list N);
  st_registry : list N;
  st_repo : list N;
  st_system : list N;
  st_tier0_hot_entries : N;
  st_baseline_entries : N;
  st_total_unique_entries : N;
  st_index_entries : N;
  st_index_ttl : N;
  st_baseline_ttl : N;
  st_upstream : list (list N) }.

Inductive RegisterPayload :=
  | RegisterMap (entries : gmap StoreHash IndexEntry)
  | RegisterList (entries : list IndexEntry)
  | RegisterObject (entries : gmap StoreHash IndexEntry).

Inductive Method := GET | POST | OtherMethod.
Inductive Route :=
  | CacheInfo | PublicKey | Status | Refresh | RegisterSession
  | NarInfoRoute (hash_ext : list N) | NarRoute (nar_name : list N).

(** A path that is routed, but not with this method, is [405], not a file. *)
Definition create_router (method : Method) (segments : list (list N)) : StatusCode + Route :=
  let on (m : Method) (r : Route) : StatusCode + Route :=
    match method, m with GET, GET | POST, POST => inr r | _, _ => inl 405 end in
  match segments with
  | [s] =>
      if bool_decide (s = lit "nix-cache-info") then on GET CacheInfo
      else if bool_decide (s = lit "public-key") then on GET PublicKey
      else if bool_decide (s = lit "_status") then on GET Status
      else if bool_decide (s = lit "_refresh") then on POST Refresh
      else if is_empty s then inl 404
      else on GET (NarInfoRoute s)
  | [s; t] =>
      if bool_decide (s = lit "_session" ∧ t = lit "register") then on POST RegisterSession
      else if bool_decide (s = lit "nar") && negb (is_empty t) then on GET (NarRoute t)
      else inl 404
  | _ => inl 404
  end.

(** [str::trim_end_matches] of a string that is not empty. *)
Fixpoint trim_end_matches (fuel : nat) (p s : list N) : list N :=
  match fuel with
  | O => s
  | S fuel => if ends_with p s then trim_end_matches fuel p (take (length s - length p) s) else s
  end.

Section proxy.
Context {W : Type} `{HttpHeaders} `{UriLib} `{UnicodeCase} `{!TransportOps W} `{!TokenOps W} `{!UtcNow W}.
Context `{!SharedIndex W} `{!Instants W} `{!BackupFs W} `{!Upstream W}.
Context `{Sha2} `{Chrono} `{HashIter} `{Build} `{Zstd} `{ZstdEncoder} `{SerdeErrors} `{OciFormat}.
Context `{!Serde OciImageIndex} `{!Serde OciImageManifest}.
Context `{!Serde ShardedArchCacheIndexData} `{!Serde ShardDataPayload}.
Notation T := (Task ProxyIndexError W).

Inductive Body :=
  | NoBody
  | TextBody (text : list N)
  | StatusBody (status : StatusResponse)
  | RefreshBody (result : list N + N)
  | RegisterBody (registered : N)
  | BlobBody (stream : VerifiedBlobStream)
  | UpstreamBody (response : UpstreamResponse).
Record Response := { res_status : StatusCode; res_headers : HeaderMap; res_body : Body }.
Record AppState := { as_repo : list N; as_index : CacheIndex; as_oci_client : OciClient }.

Definition status_only (status : StatusCode) : Response :=
  {| res_status := status; res_headers := header_new; res_body := NoBody |}.
Definition text_response (content_type text : list N) : Response := {|
  res_status := 200; res_headers := insert_static (lit "content-type") content_type header_new; res_body := TextBody text |}.

Definition serve_cache_info : Response :=
  text_response (lit "text/x-nix-cache-info")
    (lit "StoreDir: /nix/store" ++ 10 :: lit "WantMassQuery: 1" ++ 10 :: lit "Priority: 40" ++ [10]).

Context (state : AppState).
Notation index := (as_index state).

Definition serve_public_key : T Response :=
  key ← get_public_key index;
  mret (match key with
        | Some pubkey => text_response (lit "text/x-nix-public-key") (pubkey ++ [10])
        | None => {| res_status := 404; res_headers := header_new;
                     res_body := TextBody (lit "No public key configured" ++ [10]) |}
        end).

Definition serve_status : T Response :=
  remote ← get_remote_status;
  counts ← get_entry_counts index;
  let config := ci_config index in
  mret {| res_status := 200; res_headers := header_new; res_body := StatusBody {|
    st_remote_connected := remote.1; st_remote_error := remote.2; st_registry := pc_registry config;
    st_repo := as_repo state; st_system := SystemArch_as_str (pc_target_system config);
    st_tier0_hot_entries := tier0_hot_entries counts; st_baseline_entries := baseline_entries counts;
    st_total_unique_entries := total_unique_entries counts; st_index_entries := total_unique_entries counts;
    st_index_ttl := pc_baseline_ttl config / 10 ^ 9; st_baseline_ttl := pc_baseline_ttl config / 10 ^ 9;
    st_upstream := pc_upstream_caches config |} |}.

Definition display_proxy_index_error (e : ProxyIndexError) : list N :=
  match e with
  | ProxyOci e => display_oci_error e
  | ProxyCore e => display_core_error e
  | AggregatedRefreshFailure failures =>
      lit "Force refresh encountered aggregated failures: ["
      ++ join (lit ", ") (fmt_debug_str <$> failures) ++ lit "]"
  end.

Definition handle_refresh : T Response :=
  result ← attempt (force_refresh index);
  mret (match result with
        | inr count => {| res_status := 200; res_headers := header_new; res_body := RefreshBody (inr count) |}
        | inl e => {| res_status := 500; res_headers := header_new;
                      res_body := RefreshBody (inl (display_proxy_index_error e)) |}
        end).

Definition register_map (payload : RegisterPayload) : gmap StoreHash IndexEntry :=
  match payload with
  | RegisterMap m => m
  | RegisterList list =>
      foldl (λ m entry, match IndexEntry_store_hash entry with Some sh => <[sh := entry]> m | None => m end) ∅ list
  | RegisterObject entries => entries
  end.
Definition handle_register_session (payload : RegisterPayload) : T Response :=
  let map := register_map payload in
  _ ← register_hot_entries map;
  mret {| res_status := 200; res_headers := header_new; res_body := RegisterBody (N.of_nat (size map)) |}.

(** The upstream caches in turn: the first response that succeeds and can be used. *)
Fixpoint first_upstream (urls : list (list N)) (use : UpstreamResponse → T (option Response)) : T (option Response) :=
  match urls with
  | [] => mret None
  | url :: urls =>
      resp ← call (up_get url);
      match resp with
      | Some resp =>
          if is_success (up_status resp) then
            used ← use resp;
            match used with
            | Some r => mret (Some r)
            | None => first_upstream urls use
            end
          else first_upstream urls use
      | None => first_upstream urls use
      end
  end.

Definition NARINFO : list N := lit ".narinfo".
Definition serve_narinfo (hash_ext : list N) : T Response :=
  if negb (ends_with NARINFO hash_ext) then mret (status_only 404)
  else
    let store_hash := trim_end_matches (length hash_ext) NARINFO hash_ext in
    entry ← CacheIndex_lookup index store_hash;
    match entry with
    | Some entry => mret (text_response (lit "text/x-nix-narinfo") (IndexEntry_to_narinfo_string entry))
    | None =>
        found ← first_upstream ((λ cache_url, cache_url ++ lit "/" ++ store_hash ++ NARINFO)
                                  <$> pc_upstream_caches (ci_config index))
          (λ resp, text ← call (up_text resp);
                   mret (body ← text; Some (text_response (lit "text/x-nix-narinfo") body)));
        mret (default (status_only 404) found)
    end.

Definition content_length (headers : HeaderMap) : option N :=
  v ← header_get headers (lit "content-length"); s ← header_to_str v; ok (parse_u64 s).
Definition nar_content_type (nar_name : list N) : list N :=
  if ends_with (lit ".xz") nar_name then lit "application/x-xz" else lit "application/x-nix-nar".
Definition with_content_length (len : option N) (headers : HeaderMap) : HeaderMap :=
  match len with Some len => insert_static (lit "content-length") (show_N len) headers | None => headers end.

(** The stream of the blob, or the reason it could not be opened. *)
Definition stream_from_registry (nar_name : list N) (digest : NarDigest) : T (option Response) :=
  result ← attempt (blob_stream (as_oci_client state) (NarDigest_as_str digest));
  let failed reason := _ ← set_remote_status false (Some (lit "Failed to stream blob "
        ++ NarDigest_as_str digest ++ lit ": " ++ reason)); mret None in
  match result with
  | inr (status, headers, stream) =>
      if is_success status then
        _ ← set_remote_status true None;
        mret (Some {| res_status := 200;
          res_headers := with_content_length (content_length headers)
            (insert_static (lit "content-type") (nar_content_type nar_name)
              (insert_static (lit "content-type") (lit "application/octet-stream")
                (insert_static (lit "accept-ranges") (lit "bytes") header_new)));
          res_body := BlobBody stream |})
      else failed (lit "HTTP " ++ fmt_status status)
  | inl e => failed (display_oci_error e)
  end.

Definition serve_nar (nar_name : list N) : T Response :=
  digest ← find_nar_digest index nar_name;
  streamed ← (match digest with Some digest => stream_from_registry nar_name digest | None => mret None end);
  match streamed with
  | Some response => mret response
  | None =>
      found ← first_upstream ((λ cache_url, cache_url ++ lit "/nar/" ++ nar_name) <$> pc_upstream_caches (ci_config index))
        (λ resp, mret (Some {| res_status := 200;
           res_headers := with_content_length (up_content_length resp)
             (insert_static (lit "content-type") (nar_content_type nar_name)
               (insert_static (lit "accept-ranges") (lit "bytes") header_new));
           res_body := UpstreamBody resp |}));
      mret (default (status_only 404) found)
  end.

(** One request; the body is that of a registration. *)
Definition handle (method : Method) (segments : list (list N)) (payload : RegisterPayload) : T Response :=
  match create_router method segments with
  | inl status => mret (status_only status)
  | inr CacheInfo => mret serve_cache_info
  | inr PublicKey => serve_public_key
  | inr Status => serve_status
  | inr Refresh => handle_refresh
  | inr RegisterSession => handle_register_session payload
  | inr (NarInfoRoute hash_ext) => serve_narinfo hash_ext
  | inr (NarRoute nar_name) => serve_nar nar_name
  end.
End proxy.

(** ** Facts *)

Section facts.
Context {W : Type} `{HttpHeaders} `{UriLib} `{!TransportOps W} `{!TokenOps W} `{!UtcNow W}.
Context `{!SharedIndex W} `{!Instants W} `{!BackupFs W} `{!Upstream W}.
Context `{Sha2Ok} `{Chrono} `{HashIter} `{Build} `{Zstd} `{ZstdEncoder} `{SerdeErrors} `{OciFormat}.
Context `{!Serde OciImageIndex} `{!Serde OciImageManifest}.
Context `{!Serde ShardedArchCacheIndexData} `{!Serde ShardDataPayload}.
Context (registered : StoreHash → IndexEntry → Prop) (state : AppState).
Notation kept := (inv_kept registered (as_index state)).
Notation I := (λ w : W, index_inv registered (as_index state) (index_state w)).

(** What else the handlers call. *)
Class ServerKeeps (R : W → W → Prop) : Prop := {
  #[global] sk_world :: WorldKeeps R;
  sk_stream : ∀ url h limit w, R w (tr_stream url h limit w).1;
  sk_up_get : ∀ url w, R w (up_get url w).1;
  sk_up_text : ∀ r w, R w (up_text r w).1 }.
Context `{!ServerKeeps kept}.

(** The responses to a narinfo request. *)
Definition narinfo_response (hash_ext : list N) (r : Response) : Prop :=
  res_status r = 404 ∧ res_body r = NoBody ∨
  res_status r = 200 ∧ ∃ text, res_body r = TextBody text ∧
    ((∃ h e, StoreHash_parse (trim_end_matches (length hash_ext) NARINFO hash_ext) = Ok h ∧
        answers registered (as_index state) h e ∧ text = IndexEntry_to_narinfo_string e) ∨
     (∃ resp w, is_success (up_status resp) = true ∧ (up_text resp w).2 = Some text)).

Lemma triple_first_upstream urls (use : UpstreamResponse → Task ProxyIndexError W (option Response)) (Post : Response → Prop) :
  (∀ resp, is_success (up_status resp) = true → triple I (use resp) (λ r, ∀ x, r = Some x → Post x)) →
  triple I (first_upstream urls use) (λ r, ∀ x, r = Some x → Post x).
Proof.
  intros Huse. induction urls as [|url urls IH]; simpl; [by apply triple_ret|].
  eapply triple_bind; [apply triple_external; intros w; apply sk_up_get|]. intros [resp|] _; [|exact IH].
  destruct (is_success (up_status resp)) eqn:Hs; [|exact IH]. eapply triple_bind; [by apply Huse|].
  intros [r|] Hr; [by apply triple_ret|exact IH].
Qed.

Lemma triple_up_text resp : triple I (call (E := ProxyIndexError) (up_text resp)) (λ r, ∃ w, (up_text resp w).2 = r).
Proof.
  intros w Hw. pose proof ((sk_up_text resp w : kept w (up_text resp w).1) Hw) as Hw'. unfold call. destruct (up_text resp w) as [w1 r] eqn:Hr. simpl in *.
  split; [done|]. intros a [= <-]. exists w. by rewrite Hr.
Qed.

Lemma triple_serve_narinfo hash_ext : triple I (serve_narinfo state hash_ext) (narinfo_response hash_ext).
Proof.
  unfold serve_narinfo. destruct (negb (ends_with NARINFO hash_ext)); [apply triple_ret; by left|].
  eapply triple_bind; [apply triple_lookup, _|]. intros [e|] He.
  - apply triple_ret. right. split; [done|]. eexists. split; [done|]. left. destruct (He e eq_refl) as (h & Hp & Ha).
    by exists h, e.
  - eapply triple_bind.
    { apply (triple_first_upstream _ _ (narinfo_response hash_ext)). intros resp Hs.
      eapply triple_bind; [apply triple_up_text|]. intros text [w Ht]. apply triple_ret. intros x Hx.
      destruct text as [body|]; [|done]. injection Hx as <-. right. split; [done|]. exists body. split; [done|]. right.
      by exists resp, w. }
    intros found Hf. apply triple_ret. destruct found as [r|]; [by apply Hf|by left].
Qed.

(** The responses to a NAR request. *)
Definition nar_response (nar_name : list N) (r : Response) : Prop :=
  res_status r = 404 ∧ res_body r = NoBody ∨
  res_status r = 200 ∧
    ((∃ digest stream inner target headers, nar_answers registered (as_index state) nar_name digest ∧
        res_body r = BlobBody stream ∧
        VerifiedBlobStream_new inner target (NarDigest_as_str digest) headers
          (max_streamed_blob_bytes (cl_limits (as_oci_client state))) = Ok stream) ∨
     (∃ resp, res_body r = UpstreamBody resp ∧ is_success (up_status resp) = true)).

Lemma triple_stream nar_name digest : nar_answers registered (as_index state) nar_name digest →
  triple I (stream_from_registry state nar_name digest) (λ r, ∀ x, r = Some x → nar_response nar_name x).
Proof.
  intros Hd. unfold stream_from_registry. eapply triple_bind.
  { apply (triple_request _ _ _ (λ r, ∃ inner target, VerifiedBlobStream_new inner target (NarDigest_as_str digest) r.1.2
      (max_streamed_blob_bytes (cl_limits (as_oci_client state))) = Ok r.2)); [apply (keep_blob_stream kept), sk_stream|].
    intros w w' [[status headers] stream] Hb. by eapply blob_stream_opened. }
  intros [e|[[status headers] stream]] Hs.
  { eapply triple_bind; [apply triple_status, _|]. intros _ _. by apply triple_ret. }
  destruct (is_success status).
  - eapply triple_bind; [apply triple_status, _|]. intros _ _. apply triple_ret. intros x [= <-]. right. split; [done|]. left.
    destruct Hs as (inner & target & Hv). by exists digest, stream, inner, target, headers.
  - eapply triple_bind; [apply triple_status, _|]. intros _ _. by apply triple_ret.
Qed.

Lemma triple_serve_nar nar_name : triple I (serve_nar state nar_name) (nar_response nar_name).
Proof.
  unfold serve_nar. eapply triple_bind; [apply triple_find_nar, _|]. intros digest Hd. eapply triple_bind.
  { instantiate (1 := λ r, ∀ x, r = Some x → nar_response nar_name x).
    destruct digest as [digest|]; [by apply triple_stream, Hd|by apply triple_ret]. }
  intros [r|] Hr; [by apply triple_ret, Hr|]. eapply triple_bind.
  { apply (triple_first_upstream _ _ (nar_response nar_name)). intros resp Hs. apply triple_ret. intros x [= <-]. right.
    split; [done|]. right. by exists resp. }
  intros found Hf. apply triple_ret. destruct found as [r|]; [by apply Hf|by left].
Qed.

Lemma triple_handle method segments payload : map_Forall registered (register_map payload) →
  triple I (handle state method segments payload) (λ _, True).
Proof.
  intros Hreg. unfold handle. destruct (create_router method segments) as [status|[]]; try by apply triple_ret.
  - unfold serve_public_key. eapply triple_bind; [apply triple_public_key, _|]. intros k _. by apply triple_ret.
  - unfold serve_status. eapply triple_bind; [by apply (triple_read registered (as_index state) _ (λ _, True))|]. intros remote _.
    eapply triple_bind; [apply triple_counts, _|]. intros counts _. by apply triple_ret.
  - unfold handle_refresh. eapply triple_bind; [|intros; by apply triple_ret].
    apply (triple_attempt I _ (λ _, True)); [|done]. intros w Hw. by apply (triple_refresh registered (as_index state)).
  - unfold handle_register_session. eapply triple_bind; [exact (triple_register registered (as_index state) _ Hreg)|]. intros _ _. by apply triple_ret.
  - eapply triple_weaken; [apply triple_serve_narinfo|done].
  - eapply triple_weaken; [apply triple_serve_nar|done].
Qed.
End facts.

(** ** Properties *)



(** The requests that may register entries or drop cached ones are the POSTs of
    [/_session/register] and [/_refresh] and no others, and a file is served for a GET only. *)
Theorem routing_exact (method : Method) (segments : list (list N)) (route : Route) :
  create_router method segments = inr route →
  (route = RegisterSession ↔ method = POST ∧ segments = [lit "_session"; lit "register"]) ∧
  (route = Refresh ↔ method = POST ∧ segments = [lit "_refresh"]) ∧
  (∀ s, route = NarInfoRoute s → method = GET ∧ segments = [s] ∧
     s ∉ [lit "nix-cache-info"; lit "public-key"; lit "_status"; lit "_refresh"]) ∧
  (∀ n, route = NarRoute n → method = GET ∧ segments = [lit "nar"; n]).
Proof.
  unfold create_router. intros Hr.
  repeat (case_match || case_bool_decide); destruct_and?; simplify_eq; try done;
    (split_and!; [split; [intros; simplify_eq|intros [? ?]; simplify_eq]..|intros; simplify_eq|intros; simplify_eq]);
    try done; set_solver.
Qed.

(** ** Witnesses *)

Section samples.
#[local] Existing Instances flat_sha2 flat_sha2_ok Types.sample_chrono map_order sample_http sample_uri sample_build.
#[local] Existing Instances sample_errors sample_format served_zstd sample_encoder sample_index_serde served_manifest_serde.
#[local] Existing Instances sample_shared sample_tokens sample_transport sample_utc_now sample_instants sample_backup.
#[local] Existing Instances sample_payloads the_root_serde.
(** An upstream cache that has everything. *)
#[local] Instance sample_upstream : Upstream SampleWorld := {|
  UpstreamResponse := list N; up_get := λ url w, (w, Some url); up_status := λ _, 200; up_content_length := λ _, None;
  up_text := λ url w, (w, Some url) |}.
Definition sample_app : AppState := {|
  as_repo := lit "owner/cache"; as_index := sample_proxy; as_oci_client := ci_oci_client sample_proxy |}.

Lemma sample_server_keeps registered : ServerKeeps (W := SampleWorld) (inv_kept registered sample_proxy).
Proof. split; [apply sample_world_keeps|by intros; unfold inv_kept..]. Qed.

Definition sample_narinfo : list N := sample_hash ++ NARINFO.
Definition world_registered : SampleWorld := (register_hot_entries sample_shard world_down).1.
Lemma world_registered_sound :
  index_inv sample_registered sample_proxy (index_state world_registered).
Proof.
  pose proof (sample_world_keeps sample_registered) as Hk.
  apply (triple_register (W := SampleWorld) sample_registered sample_proxy sample_shard); [by intros h e|apply initial_index_sound].
Qed.


End samples.
