(* ===== verification/Main.v ===== *)
(** * Main: the programs (crates/nixcache-builder/src/main.rs, crates/nixcache-proxy/src/main.rs)

    The builder turns arguments and environment into the options of a command, runs it, and
    exits; the proxy turns them into the state of its server.  The builder starts the proxy as
    a child, which reads what it is to do from its environment.  [clap] fills the records of
    Args.v; binding the socket, serving and the signal handlers are not modelled. *)

From S2P Require Import Prelude Machine Str Text Error Types Sharding Index Receipt Lookup Filter NixFilter OciError Transport Endpoint Auth Request Driver Upload Manifest ManifestClient IndexClient Ghcr Discovery Deletion Builder Cli Promote ReadOnly Nix PurgeRun Export Capture BuildRun Listing Task Args ProxyIndex Proxy.

Local Open Scope N_scope.

(** ** The builder *)

(** [oci] and [auth] are flattened into the arguments of the last three. *)
Inductive Commands :=
| SessionInit (args : SessionInitArgs)
| SessionCapture (args : SessionCaptureArgs)
| SessionClean (snapshot_path : option (list N))
| BuildCommand (args : BuildArgs)
| PromoteCommand (args : PromoteArgs)
| ListCommand (oci : OciTargetArgs) (auth : AuthTokenArgs) (args : ListArgs)
| GcCommand (oci : OciTargetArgs) (auth : AuthTokenArgs) (args : GcArgs)
| PurgeCommand (oci : OciTargetArgs) (auth : AuthTokenArgs) (args : PurgeArgs).

(** How the process ends; a failure prints the message and the text of the error. *)
Inductive Exit := Success | Failed (message : list N) (e : BuilderError) | Panicked.
Definition exit_code (x : Exit) : N := match x with Success => 0 | Failed _ _ => 1 | Panicked => 101 end.

Section options.
Context `{UnicodeCase} `{Build} (env : list N → option (list N)) (cpus : N).

Definition init_options (args : SessionInitArgs) (active_token : list N) : SessionInitOptions :=
  let '(repo, registry) := OciTarget_resolve env (ia_oci args) DEFAULT_NIXCACHE_REPO in
  let '(listen, port) := ServerBind_resolve env (ia_bind args) DEFAULT_SERVER_LISTEN DEFAULT_SERVER_PORT in
  {| si_repo := repo; si_registry := registry; si_port := port; si_listen := listen;
     si_upstream := resolve_upstream env (ia_cache args);
     si_baseline_ttl := resolve_baseline_ttl env (ia_cache args);
     si_baseline_tag := resolve_baseline_tag env (ia_cache args);
     si_github_token := active_token;
     si_registry_username := resolve_registry_username env (ia_auth args);
     si_signing_key_file := resolve_signing_key env (ia_signing args);
     si_snapshot_path := Some (resolve_snapshot_path env (ca_snapshot_path (ia_cache args))) |}.

Definition capture_options (args : SessionCaptureArgs) : SessionCaptureOptions :=
  let '(repo, registry) := OciTarget_resolve env (sk_oci args) DEFAULT_NIXCACHE_REPO in
  {| so_repo := repo; so_registry := registry;
     so_run_id := default 0 (resolve_run_id env (sk_session args));
     so_job_id := resolve_job_id env (sk_session args) (lit "default-job");
     so_system_opt := resolve_system env (sc_system (sk_session args));
     so_signing_key_file := resolve_signing_key env (sk_signing args);
     so_baseline_tag := resolve_baseline_tag env CachePolicyArgs_default;
     so_output_receipt_path := resolve_output_receipt env (sk_output_receipt args);
     so_proxy_url := Some (resolve_proxy_url env args);
     so_snapshot_before := Some (resolve_snapshot_path env (sk_snapshot_before args));
     so_export_concurrency := resolve_export_concurrency env cpus (sk_export_concurrency args);
     so_explicit_paths := sk_paths args;
     so_out_link_pattern := resolve_out_link env args;
     so_targets_expr := resolve_targets env args;
     so_capture_mode := resolve_capture_mode env args;
     so_strict_closure := resolve_strict_closure env args;
     so_workspace_root := lit "." |}.

Definition build_options (args : BuildArgs) (active_token : list N) (credentials : RegistryCredentials) : BuildWorkerOptions :=
  let '(repo, registry) := OciTarget_resolve env (ba_oci args) DEFAULT_NIXCACHE_REPO in
  let system_name := resolve_system env (ba_system args) in
  {| bo_build_config := {|
       bc_system := system_name; bc_mode := resolve_mode env args; bc_flake_path := build_flake_path env args;
       bc_file := resolve_file env args; bc_attributes := build_attributes env args |};
     bo_repo := repo; bo_registry := registry;
     bo_signing_key_file := resolve_signing_key env (ba_signing args);
     bo_github_token := active_token;
     bo_username := rc_username credentials;
     bo_baseline_tag := resolve_baseline_tag env CachePolicyArgs_default;
     bo_output_receipt_path := build_receipt_path env args system_name;
     bo_strict := strict_or_env env (ba_no_strict args) (ba_strict args);
     bo_export_concurrency := resolve_export_concurrency env cpus (ba_export_concurrency args) |}.
End options.

Section builder.
Context {W : Type} `{HttpHeaders} `{UriLib} `{UnicodeCase} `{UnicodeAlpha} `{!TransportOps W} `{!ClockOps W} `{!DeleteOps W}.
Context `{!Unordered W} `{!JoinAll W} `{!UtcNow W} `{!EnvVars W} `{!Processes W} `{!FsPaths W} `{!Fs W} `{!FsDirs W}.
Context `{!Concurrent W} `{!DuplexPipe W} `{!HotRegister W} `{!ProxyOps W} `{!ListIo W}.
Context `{Sha2} `{Chrono} `{ChronoArith} `{HashIter} `{DebugOrigin} `{Build} `{Zstd} `{ZstdEncoder} `{AsyncZstd}.
Context `{SerdeErrors} `{OciFormat} `{JsonValue} `{!NixJson} `{ListJson}.
Context `{!Serde OciImageIndex} `{!Serde OciImageManifest} `{!Serde BuildReceipt} `{!Serde DiscoveredFlakeOutputs}.
Context `{!Serde (option (list (list N)))} `{!Serde (list GitHubPackageVersion)}.
Context `{!Serde ShardedArchCacheIndexData} `{!Serde ShardDataPayload}.
(** The token manager of a client with the credentials; the platform, the processors, the id
    of the process, and the fuel of the loops. *)
Context (token_ops : RegistryCredentials → TokenOps W).
Context (consts_os consts_arch : list N) (cpus pid : N) (fuel : nat) (env : list N → option (list N)).

Definition run_command (message : list N) (m : BIO W (option unit)) (w : W) : W * option Exit :=
  match m w with
  | (w, Ok (Some _)) => (w, Some Success)
  | (w, Ok None) => (w, None)
  | (w, Err e) => (w, Some (Failed message e))
  | (w, Panic) => (w, Some Panicked)
  end.
Definition returning (m : BIO W unit) : BIO W (option unit) := _ ← m; mret (Some tt).

Definition builder_main (command : Commands) : W → W * option Exit :=
  match command with
  | SessionInit args =>
      run_command (lit "Session init failed") (
        active_token ← resolve_token env (ia_auth args);
        run_session_init fuel (init_options env args active_token))
  | SessionCapture args =>
      run_command (lit "Session capture failed") (
        active_token ← resolve_token env (sk_auth args);
        let _ := token_ops (credentials_from_token env (sk_auth args) active_token) in
        returning (run_session_capture consts_os consts_arch (capture_options env cpus args)))
  | SessionClean snapshot_path =>
      run_command (lit "Session clean failed") (returning (run_session_clean (Some (resolve_snapshot_path env snapshot_path))))
  | BuildCommand args =>
      run_command (lit "Worker build failed") (
        active_token ← resolve_token env (ba_auth args);
        let credentials := credentials_from_token env (ba_auth args) active_token in
        let _ := token_ops credentials in
        returning (run_build_worker (build_options env cpus args active_token credentials)))
  | PromoteCommand args =>
      run_command (lit "Promote failed") (
        credentials ← resolve_credentials env (pr_auth args);
        let _ := token_ops credentials in
        let '(repo, registry) := OciTarget_resolve env (pr_oci args) DEFAULT_NIXCACHE_REPO in
        run_promote consts_os consts_arch fuel (resolve_receipt_paths env args) repo registry (promote_target_tag env args))
  | ListCommand oci auth args =>
      run_command (lit "Cache list failed") (
        credentials ← resolve_credentials env auth;
        let _ := token_ops credentials in
        let '(repo, registry) := OciTarget_resolve env oci DEFAULT_NIXCACHE_REPO in
        returning (run_list consts_os consts_arch env args repo registry))
  | GcCommand oci auth args =>
      run_command (lit "Garbage collection failed") (
        credentials ← resolve_credentials env auth;
        let _ := token_ops credentials in
        let '(repo, registry) := OciTarget_resolve env oci DEFAULT_NIXCACHE_REPO in
        run_gc consts_os consts_arch env args (default [] (secret credentials)) pid fuel repo registry)
  | PurgeCommand oci auth args =>
      run_command (lit "Purge failed") (
        credentials ← resolve_credentials env auth;
        let _ := token_ops credentials in
        let '(repo, registry) := OciTarget_resolve env oci DEFAULT_NIXCACHE_REPO in
        run_purge consts_os consts_arch env args (default [] (secret credentials)) pid fuel repo registry)
  end.

(** The fates of a task: [run_command] adds nothing to what it did. *)
Lemma command_world message m w : (run_command message m w).1 = (m w).1.
Proof. unfold run_command. by destruct (m w) as [w' [[|]|e|]]. Qed.

(** A dry run of the whole program reads only, from the token of [gh] on: [purge] with
    [--dry-run] or NIXCACHE_DRY_RUN, and [gc] the same, keep whatever GET and HEAD requests,
    token requests, the clock and the processes they run keep. *)
Theorem dry_run_command_reads command args (R : W → W → Prop)
    (Hcommand : (∃ oci auth, command = PurgeCommand oci auth args) ∨
                (∃ oci auth gc, command = GcCommand oci auth gc ∧ args = to_purge_args env gc))
    (Hreads : ∀ credentials, ReadsKeep (TokenOps0 := token_ops credentials) R) (Hnow : ∀ w, R w (utc_now w).1)
    (Hprocesses : ProcessesKeep R) (Hdry : resolve_dry_run env args = true) (w : W) :
  R w (builder_main command w).1.
Proof.
  assert (Hpre : PreOrder R) by apply _.
  assert (Htoken : ∀ auth w, R w (resolve_credentials (E := BuilderError) env auth w).1).
  { intros auth w0. unfold resolve_credentials, resolve_token, gh_auth_token, mbind, task_bind, mret, task_ret, attempt.
    destruct (is_empty _); [|done].
    match goal with |- context [process_output ?c w0] => pose proof (pk_output c w0) as Hp; destruct (process_output c w0) as [w1 [o|e|]] end;
      exact Hp. }
  assert (Hrun : ∀ auth (k : RegistryCredentials → BIO W (option unit)) (w : W), (∀ c w, R w (k c w).1) →
    R w ((resolve_credentials env auth ≫= k) w).1).
  { intros auth k w0 Hk. specialize (Htoken auth w0). unfold mbind at 1, task_bind.
    destruct (resolve_credentials env auth w0) as [w1 [c|e|]]; [|done..]. etrans; [exact Htoken|apply Hk]. }
  destruct Hcommand as [(oci & auth & ->)|(oci & auth & gc & -> & ->)]; unfold builder_main; rewrite command_world;
    apply Hrun; intros c w0; destruct (OciTarget_resolve _ _ _) as [repo registry].
  - by apply (keep_dry_run (TokenOps0 := token_ops c)).
  - unfold run_gc. by apply (keep_dry_run (TokenOps0 := token_ops c)).
Qed.
End builder.

(** ** The proxy *)

Record ProxyArgs := {
  px_oci : OciTargetArgs;
  px_bind : ServerBindArgs;
  px_system : option (list N);
  px_auth : AuthTokenArgs;
  px_cache : CachePolicyArgs }.

Inductive ProxyError :=
| ProxyErrorIndex (e : ProxyIndexError)
| ProxyErrorCli (e : CliError)
| ProxyErrorOci (e : OciError)
| ProxyErrorBind (source : list N)
| ProxyErrorAddrParse (source : list N)
| ProxyErrorServer (source : list N).

Section proxy.
Context {W : Type} `{UriLib} `{UnicodeCase} `{Build} `{!Processes W}.
Context (consts_os consts_arch : list N) (env : list N → option (list N)).

(** The time to live in nanoseconds. *)
Definition proxy_config (args : ProxyArgs) : CascadingProxyConfig :=
  let '(repo, registry) := OciTarget_resolve env (px_oci args) [] in
  {| pc_repo := repo; pc_registry := registry;
     pc_baseline_tag := resolve_baseline_tag env (px_cache args);
     pc_upstream_caches := resolve_upstream_list env (px_cache args);
     pc_baseline_ttl := resolve_baseline_ttl env (px_cache args) * 10 ^ 9;
     pc_index_dir := resolve_index_dir env (px_cache args) repo;
     pc_target_system := match resolve_system env (px_system args) with
                         | Some s => SystemArch_from s
                         | None => SystemArch_detect_current consts_os consts_arch
                         end |}.

(** The state of the server, the credentials of its clients, and the address as text. *)
Definition proxy_start (args : ProxyArgs) : Task ProxyError W (AppState * RegistryCredentials * list N) :=
  let config := proxy_config args in
  let '(listen, port) := ServerBind_resolve env (px_bind args) DEFAULT_SERVER_LISTEN DEFAULT_SERVER_PORT in
  credentials ← resolve_credentials env (px_auth args);
  oci ← raise (map_err ProxyErrorOci (create_tokio_reqwest_client (pc_registry config) (pc_repo config)));
  cache_index ← raise (map_err ProxyErrorIndex (CacheIndex_with_config config));
  mret ({| as_repo := pc_repo config; as_index := cache_index; as_oci_client := oci |}, credentials,
        listen ++ lit ":" ++ show_N port).
End proxy.

(** ** Facts: the proxy that a builder starts *)

(** [Command::env] on top of the environment that a child inherits. *)
Definition child_env (env : list N → option (list N)) (envs : list (list N * list N)) : list N → option (list N) :=
  foldl (λ e kv key, if decide (key = kv.1) then Some kv.2 else e key) env envs.
(** The arguments of a child that is started without any; clap reads one of them from the
    environment. *)
Definition child_args (env : list N → option (list N)) : ProxyArgs := {|
  px_oci := {| ot_repo := None; ot_registry := None; ot_registry_kind := None |};
  px_bind := {| sb_listen := None; sb_port := None |};
  px_system := None;
  px_auth := {| au_registry_username := env (lit "REGISTRY_USERNAME"); au_github_token := None; au_gh_token := None |};
  px_cache := CachePolicyArgs_default |}.

(** A value that is neither blank nor has blanks around it. *)
Definition clean_value (s : list N) : Prop := s ≠ [] ∧ trim s = s.

Lemma non_empty_str_clean s t : non_empty_str s = Some t → clean_value t.
Proof.
  unfold non_empty_str. destruct (is_empty (trim s)) eqn:He; [done|]. intros [= <-]. split; [|apply trim_idemp].
  by destruct (trim s).
Qed.
Lemma non_empty_clean s : clean_value s → non_empty_str s = Some s.
Proof. intros [Hne Ht]. unfold non_empty_str. rewrite Ht. by destruct s. Qed.
Lemma Env_get_clean env key v : Env_get env key = Some v → clean_value v.
Proof. unfold Env_get. destruct (env key) as [s|]; [|done]. apply non_empty_str_clean. Qed.
Lemma Env_get_set env key v : env key = Some v → clean_value v → Env_get env key = Some v.
Proof. unfold Env_get. intros -> Hv. apply (non_empty_clean v Hv). Qed.
Lemma Env_get_first_clean env keys v : Env_get_first env keys = Some v → clean_value v.
Proof.
  induction keys as [|key keys IH]; [done|]. simpl. destruct (Env_get env key) as [u|] eqn:Hu; [|done].
  intros [= <-]. by eapply Env_get_clean.
Qed.
Lemma arg_or_env_clean env arg keys v : arg_or_env env arg keys = Some v → clean_value v.
Proof.
  unfold arg_or_env. destruct (arg ≫= non_empty_str) as [u|] eqn:Hu; [|apply Env_get_first_clean].
  intros [= <-]. destruct arg as [s|]; [|done]. by eapply non_empty_str_clean.
Qed.
Lemma default_clean env d arg keys : clean_value d → clean_value (default d (arg_or_env env arg keys)).
Proof. intros Hd. destruct (arg_or_env env arg keys) as [v|] eqn:Hv; [|done]. by eapply arg_or_env_clean. Qed.
Lemma show_N_clean n : clean_value (show_N n).
Proof. split; [by destruct (show_N_spec n)|apply show_N_word]. Qed.

Lemma child_env_other env envs key : key ∉ envs.*1 → child_env env envs key = env key.
Proof.
  unfold child_env. revert env. induction envs as [|[k v] envs IH]; intros env Hk; [done|]. cbn [foldl].
  rewrite IH by set_solver. cbn [fst]. rewrite decide_False; [done|]. set_solver.
Qed.
Lemma child_env_set env envs key v : NoDup envs.*1 → (key, v) ∈ envs → child_env env envs key = Some v.
Proof.
  unfold child_env. revert env. induction envs as [|[k u] envs IH]; intros env Hnd Hin; [by apply elem_of_nil in Hin|].
  rewrite fmap_cons in Hnd. apply NoDup_cons in Hnd as [Hk Hnd]. cbn [foldl].
  apply elem_of_cons in Hin as [[= -> ->]|Hin]; [|by apply IH].
  pose proof (child_env_other (λ key0, if decide (key0 = k) then Some u else env key0) envs k Hk) as Ho.
  unfold child_env in Ho. cbn [fst snd]. rewrite Ho. by rewrite decide_True.
Qed.

Lemma session_keys opts : NoDup (session_envs opts).*1.
Proof.
  unfold session_envs. destruct (si_registry_username opts) as [u|]; cbn [optional_username app fmap list_fmap fst];
    apply (bool_decide_unpack _); by vm_compute.
Qed.

Section session.
Context {W : Type} `{UriLib} `{UnicodeCase} `{Build} `{!Processes W}.
Context (env : list N → option (list N)) (args : SessionInitArgs).

Lemma resolve_token_clean {E} (auth : AuthTokenArgs) (w w' : W) token :
  resolve_token (E := E) env auth w = (w', Ok token) → token = [] ∨ clean_value token.
Proof.
  unfold resolve_token. destruct (is_empty (resolve_token_sync env auth)) eqn:He.
  - unfold gh_auth_token. intros Hr. apply task_bind_ok in Hr as (w1 & r & _ & Hr). apply task_ret_ok in Hr as [_ ->].
    destruct r as [e|output]; [by left|]. destruct (es_success (out_status output)); [|by left].
    destruct (trim (from_utf8_lossy (out_stdout output))) eqn:Ht; [by left|]. right. split; [done|].
    rewrite <- Ht. apply trim_idemp.
  - intros Hr. apply task_ret_ok in Hr as [_ ->]. right. unfold resolve_token_sync in *.
    destruct (au_github_token auth ≫= non_empty_str) as [t|] eqn:Ht.
    { destruct (au_github_token auth); [|done]. by eapply non_empty_str_clean. }
    destruct (arg_or_env env (au_gh_token auth) _) as [t|] eqn:Ht2; [|done]. by eapply arg_or_env_clean.
Qed.

Context (token : list N).
Notation opts := (init_options env args token).
Notation env' := (child_env env (session_envs opts)).

(** A variable that the builder sets reaches the proxy. *)
Lemma child_gets key v : (key, v) ∈ session_envs opts → clean_value v → Env_get env' key = Some v.
Proof. intros Hin Hv. apply Env_get_set; [|done]. apply child_env_set; [apply session_keys|done]. Qed.
Lemma child_inherits key : key ∉ (session_envs opts).*1 → Env_get env' key = Env_get env key.
Proof. intros Hk. unfold Env_get. by rewrite child_env_other. Qed.

Lemma child_username : resolve_registry_username env' (px_auth (child_args env')) = resolve_registry_username env (ia_auth args).
Proof.
  unfold resolve_registry_username at 1. cbn [px_auth child_args au_registry_username].
  destruct (resolve_registry_username env (ia_auth args)) as [u|] eqn:Hu.
  - assert (Hset : env' (lit "REGISTRY_USERNAME") = Some u).
    { apply child_env_set; [apply session_keys|]. unfold session_envs. change (si_registry_username opts) with (resolve_registry_username env (ia_auth args)). rewrite Hu.
      set_solver. }
    unfold arg_or_env. rewrite Hset. cbn [mbind option_bind]. rewrite non_empty_clean; [done|]. by eapply arg_or_env_clean.
  - assert (Hkeys : (session_envs opts).*1 = [lit "NIXCACHE_REPO"; lit "NIXCACHE_REGISTRY"; lit "NIXCACHE_PORT"; lit "NIXCACHE_LISTEN";
      lit "NIXCACHE_UPSTREAM"; lit "NIXCACHE_INDEX_TTL"; lit "NIXCACHE_BASELINE_TAG"; lit "GITHUB_TOKEN"]).
    { unfold session_envs. change (si_registry_username opts) with (resolve_registry_username env (ia_auth args)). rewrite Hu. done. }
    assert (Hin : ∀ k, k ∉ (session_envs opts).*1 → env' k = env k) by (intros k Hk; by apply child_env_other).
    rewrite Hkeys in Hin. unfold resolve_registry_username, arg_or_env in Hu.
    destruct (au_registry_username (ia_auth args) ≫= non_empty_str); [done|].
    assert (Hr : env' (lit "REGISTRY_USERNAME") = env (lit "REGISTRY_USERNAME")) by (apply Hin; apply (bool_decide_unpack _); by vm_compute).
    assert (Ho : env' (lit "OCI_USERNAME") = env (lit "OCI_USERNAME")) by (apply Hin; apply (bool_decide_unpack _); by vm_compute).
    unfold arg_or_env. cbn [Env_get_first] in *. unfold Env_get in *. rewrite Hr, Ho.
    destruct (env (lit "REGISTRY_USERNAME")) as [r|]; cbn [mbind option_bind] in *; [|done].
    unfold non_empty_str. by destruct (is_empty (trim r)).
Qed.

(** What the builder set is what the proxy resolves. *)
Lemma child_resolves key v arg d : (key, v) ∈ session_envs opts → clean_value v → arg = None →
  default d (arg_or_env env' arg [key]) = v.
Proof. intros Hin Hv ->. unfold arg_or_env. cbn [mbind option_bind Env_get_first]. by rewrite (child_gets key v). Qed.
Lemma child_parses {E A} (from_str : list N → outcome E A) key v a : (key, v) ∈ session_envs opts → clean_value v →
  from_str v = Ok a → Env_parse env' from_str key = Some a.
Proof. intros Hin Hv Ha. unfold Env_parse. rewrite (child_gets key v) by done. simpl. by rewrite Ha. Qed.

Lemma child_ttl d : Env_parse env parse_u64 (lit "NIXCACHE_BASELINE_TTL") = None → si_baseline_ttl opts < u64_bound →
  default d (Env_parse_first env' parse_u64 [lit "NIXCACHE_BASELINE_TTL"; lit "NIXCACHE_INDEX_TTL"]) = si_baseline_ttl opts.
Proof.
  intros Hnone Hb. cbn [Env_parse_first].
  assert (Hi : Env_parse env' parse_u64 (lit "NIXCACHE_BASELINE_TTL") = None).
  { rewrite <- Hnone. unfold Env_parse. rewrite child_inherits; [done|]. unfold session_envs.
    destruct (si_registry_username opts); apply (bool_decide_unpack _); by vm_compute. }
  rewrite Hi, (child_parses parse_u64 (lit "NIXCACHE_INDEX_TTL") (show_N (si_baseline_ttl opts)) (si_baseline_ttl opts));
    [done|unfold session_envs; set_solver|apply show_N_clean|by apply parse_u64_show].
Qed.

Lemma options_clean : clean_value (si_repo opts) ∧ clean_value (si_registry opts) ∧ clean_value (si_listen opts) ∧
  clean_value (si_upstream opts) ∧ clean_value (si_baseline_tag opts).
Proof. split_and!; apply default_clean; by split. Qed.

Lemma child_config consts_os consts_arch : Env_parse env parse_u64 (lit "NIXCACHE_BASELINE_TTL") = None →
  si_baseline_ttl opts < u64_bound →
  let config := proxy_config consts_os consts_arch env' (child_args env') in
  pc_repo config = si_repo opts ∧ pc_registry config = si_registry opts ∧
  pc_baseline_tag config = si_baseline_tag opts ∧ pc_upstream_caches config = split_whitespace (si_upstream opts) ∧
  pc_baseline_ttl config = si_baseline_ttl opts * 10 ^ 9.
Proof.
  intros Hnone Hb config. destruct options_clean as (Hrepo & Hreg & _ & Hup & Htag). subst config.
  unfold proxy_config, OciTarget_resolve, resolve_repo, resolve_registry, resolve_baseline_tag, resolve_upstream_list,
    resolve_upstream, resolve_baseline_ttl.
  cbn [pc_repo pc_registry pc_baseline_tag pc_upstream_caches pc_baseline_ttl child_args px_oci px_cache ot_repo ot_registry
    CachePolicyArgs_default ca_baseline_tag ca_upstream ca_baseline_ttl given_or].
  split_and!; [..|by rewrite child_ttl]; try f_equal; apply child_resolves; try done; unfold session_envs; set_solver.
Qed.

Lemma child_bind : si_port opts < u16_bound →
  ServerBind_resolve env' (px_bind (child_args env')) DEFAULT_SERVER_LISTEN DEFAULT_SERVER_PORT = (si_listen opts, si_port opts).
Proof.
  intros Hp. destruct options_clean as (_ & _ & Hl & _ & _). unfold ServerBind_resolve.
  cbn [child_args px_bind sb_listen sb_port given_or].
  rewrite (child_parses parse_u16 (lit "NIXCACHE_PORT") (show_N (si_port opts)) (si_port opts));
    [|unfold session_envs; set_solver|apply show_N_clean|by apply parse_u16_show].
  f_equal. apply child_resolves; [unfold session_envs; set_solver|done|done].
Qed.

Lemma child_credentials {E} (w w1 w2 : W) : resolve_token (E := BuilderError) env (ia_auth args) w = (w1, Ok token) → token ≠ [] →
  resolve_credentials (E := E) env' (px_auth (child_args env')) w2 = (w2, Ok (credentials_from_token env (ia_auth args) token)).
Proof.
  intros Ht Hne. apply resolve_token_clean in Ht as [?|Hc]; [done|].
  assert (Hsync : resolve_token_sync env' (px_auth (child_args env')) = token).
  { unfold resolve_token_sync. cbn [child_args px_auth au_github_token au_gh_token mbind option_bind]. unfold arg_or_env.
    cbn [mbind option_bind Env_get_first]. rewrite (child_gets (lit "GITHUB_TOKEN") token); [done|unfold session_envs|done].
    change (si_github_token opts) with token. set_solver. }
  assert (Hf : is_empty token = false) by by destruct token.
  unfold resolve_credentials, resolve_token. rewrite Hsync, Hf. unfold mbind, task_bind, mret, task_ret.
  unfold credentials_from_token. by rewrite child_username.
Qed.

(** ** Properties *)

End session.

(** ** Witness, and what the environment gets wrong *)

Section samples.
#[local] Existing Instances sample_uri ascii_case sample_build.
(** No process can be run. *)
Definition no_processes : Processes unit := {|
  Child := unit; process_output := λ _ w, (w, Err []); process_status := λ _ w, (w, Err []); process_spawn := λ _ w, (w, Err []);
  child_communicate := λ _ _ w, (w, Err []); child_reads := λ _ w, (w, []); child_wait := λ _ w, (w, Err []);
  child_try_wait := λ _ w, (w, Err []); child_kill := λ _ w, w |}.
#[local] Existing Instance no_processes.

Definition sample_init (ttl : option N) : SessionInitArgs := {|
  ia_oci := {| ot_repo := Some (lit "owner/repo"); ot_registry := None; ot_registry_kind := None |};
  ia_bind := {| sb_listen := None; sb_port := Some 4000 |};
  ia_session := {| sc_run_id := None; sc_branch := None; sc_job_id := None; sc_system := None |};
  ia_auth := {| au_registry_username := None; au_github_token := Some (lit "secret"); au_gh_token := None |};
  ia_signing := None;
  ia_cache := {| ca_upstream := None; ca_baseline_ttl := ttl; ca_baseline_tag := None; ca_snapshot_path := None; ca_index_dir := None |} |}.


(** The variable that the proxy reads first is not the one that the builder sets: a time to
    live given to [session init] is overridden by the one in the environment. *)
Theorem session_ttl_overridden :
  let env := child_env no_env [(lit "NIXCACHE_BASELINE_TTL", lit "300")] in
  let opts := init_options env (sample_init (Some 60)) (lit "secret") in
  let env' := child_env env (session_envs opts) in
  si_baseline_ttl opts = 60 ∧
  pc_baseline_ttl (proxy_config (lit "linux") (lit "x86_64") env' (child_args env')) = 300 * 10 ^ 9.
Proof. by vm_compute. Qed.

(** The empty list of upstream caches that the builder sets for the proxy of a build is read as
    none given: the proxy asks the default upstream. *)
Theorem build_proxy_has_upstream env repo registry tag token username consts_os consts_arch :
  let env' := child_env env (substituter_envs repo registry tag token username) in
  pc_upstream_caches (proxy_config consts_os consts_arch env' (child_args env')) = [DEFAULT_UPSTREAM_CACHE].
Proof.
  intros env'. assert (Hu : env' (lit "NIXCACHE_UPSTREAM") = Some []).
  { apply child_env_set; [|unfold substituter_envs; set_solver].
    destruct username; apply (bool_decide_unpack _); by vm_compute. }
  unfold proxy_config, resolve_upstream_list, resolve_upstream, arg_or_env, OciTarget_resolve.
  cbn [pc_upstream_caches child_args px_cache CachePolicyArgs_default ca_upstream mbind option_bind Env_get_first].
  unfold Env_get. rewrite Hu. by vm_compute.
Qed.
End samples.
