(* ===== verification/Worker.v ===== *)
(** * Worker: the cache store of the edge worker
    (crates/nixcache-worker/src/state.rs, store.rs, error.rs)

    An isolate runs one task at a time, but its tasks interleave at every [await], and all
    of them share one global state.  Three tiers: the memory of the isolate, the KV
    namespace, the registry.  Times are [Date::now()], milliseconds as an [f64]. *)

From S2P Require Import Prelude Machine Str Text Float64 Error Types Sharding Index Lookup OciError Transport Endpoint Auth Request Driver Upload Manifest ManifestClient IndexClient Ghcr Discovery Deletion Builder ReadOnly Task.

Local Open Scope N_scope.

Inductive WorkerStoreError :=
  | KvGetFailed (key message : list N)
  | KvPutFailed (key message : list N)
  | WorkerFetch (details : list N)
  | WorkerHeader (details : list N)
  | WorkerOci (details : list N)
  | WorkerCore (details : list N)
  | AggregatedRefreshFailed (errors : list (list N)).

Definition display_worker_store_error `{OciFormat} (e : WorkerStoreError) : list N :=
  match e with
  | KvGetFailed key message => lit "Cloudflare KV get operation failed on key '" ++ key ++ lit "': " ++ message
  | KvPutFailed key message => lit "Cloudflare KV put operation failed on key '" ++ key ++ lit "': " ++ message
  | WorkerFetch d => lit "Worker Fetch/Network error: " ++ d
  | WorkerHeader d => lit "Worker HTTP Header parse/set error: " ++ d
  | WorkerOci d => lit "OCI registry operation error: " ++ d
  | WorkerCore d => lit "Core format / hash error: " ++ d
  | AggregatedRefreshFailed errors =>
      lit "Aggregated refresh failed for components: [" ++ join (lit ", ") (fmt_debug_str <$> errors) ++ lit "]"
  end.
Definition worker_from_core (e : CoreError) : WorkerStoreError := WorkerCore (display_core_error e).
Definition worker_from_oci `{OciFormat} (e : OciError) : WorkerStoreError := WorkerOci (display_oci_error e).

(** ** State *)

Definition L1_MEM_TTL_MS : f64 := f64_of_N 30000.
Definition REVALIDATE_DEBOUNCE_MS : N := 2000.

Record RemoteHealthState := {
  rh_connected : bool;
  rh_last_error : option (list N);
  rh_last_updated_ms : f64 }.
Definition RemoteHealthState_default : RemoteHealthState := {|
  rh_connected := true; rh_last_error := None; rh_last_updated_ms := f64_of_N 0 |}.
Record MemBaseline := {
  mb_root : ShardedArchCacheIndexData;
  mb_manifest_digest : list N;
  mb_expires_at : f64 }.
Record MemShard := {
  ms_payload : ShardDataPayload;
  ms_nar_lookup : gmap (list N) NarDigest;
  ms_blob_digest : list N;
  ms_expires_at : f64 }.
Record WorkerState := {
  mem_baseline_cache : option MemBaseline;
  mem_shard_cache : gmap N MemShard;
  health : RemoteHealthState;
  last_revalidate_ms : N }.
Definition GLOBAL_STATE : WorkerState := {|
  mem_baseline_cache := None; mem_shard_cache := ∅; health := RemoteHealthState_default; last_revalidate_ms := 0 |}.

Record KVCacheWrapper (T : Type) := { kv_data : T; kv_last_refresh : f64; kv_manifest_digest : list N }.
Arguments kv_data {T}. Arguments kv_last_refresh {T}. Arguments kv_manifest_digest {T}.
Arguments Build_KVCacheWrapper {T}.

Record WorkerProxyConfig := {
  wc_registry : list N;
  wc_repo : list N;
  wc_baseline_tag : list N;
  wc_kv_binding : list N;
  wc_upstream_caches : list (list N);
  wc_baseline_ttl_secs : N;
  wc_target_system : SystemArch }.
Definition WorkerProxyConfig_default : WorkerProxyConfig := {|
  wc_registry := lit "ghcr.io"; wc_repo := []; wc_baseline_tag := lit "cache-index"; wc_kv_binding := lit "NIXCACHE_KV";
  wc_upstream_caches := [lit "https://cache.nixos.org"]; wc_baseline_ttl_secs := 300; wc_target_system := X86_64Linux |}.
Record NarInfoLookupResult := {
  nl_narinfo_content : list N;
  nl_shard_id : option N;
  nl_manifest_digest : option (list N);
  nl_self_healed : bool }.
Record RefreshResult := { rr_total_entries : N; rr_warmed_shards : N }.
Record WorkerStatus := {
  ws_remote_connected : bool;
  ws_remote_error : option (list N);
  ws_registry : list N;
  ws_repo : list N;
  ws_baseline_tag : list N;
  ws_tier0_hot_entries : N;
  ws_baseline_entries : N;
  ws_total_unique_entries : N;
  ws_index_entries : N;
  ws_index_ttl : N;
  ws_baseline_ttl : N;
  ws_upstream : list (list N);
  ws_manifest_digest : list N;
  ws_generated : list N }.
Record CacheStore := { ws_client : OciClient; ws_config : WorkerProxyConfig; baseline_ttl_ms : f64 }.

(** [CacheStore::new]; the product is a [u64]. *)
Definition CacheStore_new `{Build} (client : OciClient) (config : WorkerProxyConfig) : outcome WorkerStoreError CacheStore :=
  ms ← arith u64_bound (wc_baseline_ttl_secs config * 1000);
  Ok {| ws_client := client; ws_config := config; baseline_ttl_ms := f64_of_N ms |}.

(** ** The world *)

Class SharedWorker (W : Type) := {
  worker_state : W → WorkerState;
  set_worker_state : WorkerState → W → W;
  worker_state_set : ∀ s w, worker_state (set_worker_state s w) = s }.
(** [js_sys::Date::now()]. *)
Class DateNow (W : Type) := { date_now : W → W * f64 }.
(** A KV namespace of the Workers runtime: the binding may be missing, a value may be
    missing or not decode, and a put fails when the value cannot be serialized; what
    becomes of the put is not looked at. *)
Class KvNamespace (W : Type) := {
  kv_bound : list N → W → W * outcome (list N) unit;
  kv_get_shard : list N → W → W * option (KVCacheWrapper ShardDataPayload);
  kv_put_shard : list N → KVCacheWrapper ShardDataPayload → W → W * outcome (list N) unit;
  kv_get_root : list N → W → W * option (KVCacheWrapper ShardedArchCacheIndexData);
  kv_put_root : list N → KVCacheWrapper ShardedArchCacheIndexData → W → W * outcome (list N) unit }.
(** [join_all]: the results of the futures, in their order. *)
Class JoinTasks (W : Type) := {
  join_all : ∀ {E A}, list (Task E W A) → W → W * list (outcome E A);
  join_all_keeps : ∀ {E A} (I : W → Prop) (tasks : list (Task E W A)),
    Forall (λ task, triple I task (λ _, True)) tasks → ∀ w, I w → I (join_all tasks w).1 }.

Section worker.
Context {W : Type} `{HttpHeaders} `{UriLib} `{!TransportOps W} `{!TokenOps W} `{!UtcNow W}.
Context `{!SharedWorker W} `{!DateNow W} `{!KvNamespace W} `{!JoinTasks W}.
Context `{Sha2} `{Chrono} `{HashIter} `{Build} `{Zstd} `{SerdeErrors} `{OciFormat}.
Context `{!Serde OciImageIndex} `{!Serde OciImageManifest}.
Context `{!Serde ShardedArchCacheIndexData} `{!Serde ShardDataPayload}.
Notation T := (Task WorkerStoreError W).

Definition with_worker {A} (f : WorkerState → WorkerState * A) : T A := λ w,
  let '(s, a) := f (worker_state w) in (set_worker_state s w, Ok a).
Definition worker_read {A} (f : WorkerState → A) : T A := with_worker (λ s, (s, f s)).

(** [WorkerState::set_remote_status]. *)
Definition worker_set_remote_status (connected : bool) (error : option (list N)) : T unit :=
  now ← call date_now;
  with_worker (λ s, ({| mem_baseline_cache := mem_baseline_cache s; mem_shard_cache := mem_shard_cache s;
    health := {| rh_connected := connected; rh_last_error := error; rh_last_updated_ms := now |};
    last_revalidate_ms := last_revalidate_ms s |}, tt)).
Definition should_revalidate : T bool :=
  ms ← call date_now;
  let now := f64_as_uint u64_bound ms in
  with_worker (λ s,
    if REVALIDATE_DEBOUNCE_MS <=? now - last_revalidate_ms s
    then ({| mem_baseline_cache := mem_baseline_cache s; mem_shard_cache := mem_shard_cache s; health := health s;
             last_revalidate_ms := now |}, true)
    else (s, false)).
Definition store_baseline (b : option MemBaseline) : T unit :=
  with_worker (λ s, ({| mem_baseline_cache := b; mem_shard_cache := mem_shard_cache s; health := health s;
    last_revalidate_ms := last_revalidate_ms s |}, tt)).
Definition change_shards (f : gmap N MemShard → gmap N MemShard) : T unit :=
  with_worker (λ s, ({| mem_baseline_cache := mem_baseline_cache s; mem_shard_cache := f (mem_shard_cache s);
    health := health s; last_revalidate_ms := last_revalidate_ms s |}, tt)).
Definition clear_l1_caches : T unit := _ ← store_baseline None; change_shards (λ _, ∅).

Context (self : CacheStore).
Notation config := (ws_config self).
Notation client := (ws_client self).

Definition validate_root (root : ShardedArchCacheIndexData) : outcome CoreError unit :=
  Index_validate_for root (wc_target_system config) (wc_repo config) (wc_registry config)
    (index_validation_limits (cl_limits client)).
Definition validate_shard (shard : ShardDataPayload) (shard_id : N) : outcome CoreError unit :=
  Payload_validate_for shard shard_id (wc_target_system config) (index_validation_limits (cl_limits client)).

(** [env.kv(binding)] as a test. *)
Definition kv_available : T bool :=
  r ← attempt (kv_bound (wc_kv_binding config));
  mret (match r with inr _ => true | inl _ => false end).
(** [env.kv(binding)?]. *)
Definition kv_required : T unit :=
  convert (λ message, KvGetFailed (wc_kv_binding config) message) (kv_bound (wc_kv_binding config)).

(** *** Shards *)

Definition mem_shard (shard_id : N) (blob_digest : list N) (now : f64) : T (option MemShard) :=
  cached ← worker_read (λ s, mem_shard_cache s !! shard_id);
  mret (match cached with
        | Some c => if bool_decide (ms_blob_digest c = blob_digest) && f64_lt now (ms_expires_at c) then Some c else None
        | None => None
        end).

Definition shard_key (blob_digest : list N) : list N := lit "shard_v8_" ++ blob_digest.

(** The payload under the key, if the namespace is bound and the payload is valid. *)
Definition kv_shard (shard_id : N) (blob_digest : list N) : T (option ShardDataPayload) :=
  bound ← kv_available;
  if negb bound then mret None
  else
    wrapper ← call (kv_get_shard (shard_key blob_digest));
    match wrapper with
    | None => mret None
    | Some wrapper =>
        valid ← try_pure (validate_shard (kv_data wrapper) shard_id);
        mret (match valid with inr _ => Some (kv_data wrapper) | inl _ => None end)
    end.

Definition remember_shard (shard_id : N) (blob_digest : list N) (payload : ShardDataPayload) (now : f64) : T unit :=
  change_shards (insert shard_id {| ms_payload := payload; ms_nar_lookup := build_nar_lookup_map (pl_entries payload);
    ms_blob_digest := blob_digest; ms_expires_at := f64_add now L1_MEM_TTL_MS |}).

Definition Worker_get_shard_data (shard_desc : ShardDescriptor) : T (ShardDataPayload * gmap (list N) NarDigest) :=
  let shard_id := sd_shard_id shard_desc in
  let blob_digest := sd_blob_digest shard_desc in
  if is_empty blob_digest then raise (Err (WorkerCore (lit "Empty blob digest for shard")))
  else
    now ← call date_now;
    cached ← mem_shard shard_id blob_digest now;
    match cached with
    | Some cached => mret (ms_payload cached, ms_nar_lookup cached)
    | None =>
        from_kv ← kv_shard shard_id blob_digest;
        match from_kv with
        | Some payload =>
            _ ← remember_shard shard_id blob_digest payload now;
            mret (payload, build_nar_lookup_map (pl_entries payload))
        | None =>
            fetched ← attempt (get_shard_data client shard_desc (wc_target_system config));
            match fetched with
            | inr payload =>
                _ ← worker_set_remote_status true None;
                bound ← kv_available;
                _ ← (if (bound : bool) then
                       convert (KvPutFailed (shard_key blob_digest))
                         (kv_put_shard (shard_key blob_digest)
                            {| kv_data := payload; kv_last_refresh := now; kv_manifest_digest := blob_digest |})
                     else mret tt);
                _ ← remember_shard shard_id blob_digest payload now;
                mret (payload, build_nar_lookup_map (pl_entries payload))
            | inl e =>
                _ ← worker_set_remote_status false (Some (lit "GHCR shard " ++ blob_digest ++ lit ": " ++ display_oci_error e));
                backup ← kv_shard shard_id blob_digest;
                match backup with
                | Some payload => mret (payload, build_nar_lookup_map (pl_entries payload))
                | None => raise (Err (worker_from_oci e))
                end
            end
        end
    end.

(** *** The baseline *)

Definition baseline_key : list N := lit "baseline_v8_" ++ SystemArch_as_str (wc_target_system config).

Definition invalidate_shards (old_cached : option MemBaseline) (root_data : ShardedArchCacheIndexData) : T unit :=
  match old_cached with
  | Some old_b =>
      if bool_decide (ix_merkle_root (mb_root old_b) = ix_merkle_root root_data) then mret tt
      else
        changed ← raise (map_err worker_from_core (diff_shard_descriptors (ix_shards (mb_root old_b)) (ix_shards root_data)));
        task_each (λ shard_id, change_shards (delete shard_id)) changed
  | None => mret tt
  end.

Definition new_root : T ShardedArchCacheIndexData :=
  now ← call utc_now;
  raise (map_err worker_from_core (Index_new (wc_target_system config) (wc_repo config) (wc_registry config) now)).

Definition refresh_baseline_from_ghcr : T (ShardedArchCacheIndexData * list N) :=
  now ← call date_now;
  old_cached ← worker_read mem_baseline_cache;
  fetch_root ← attempt (get_sharded_root client (wc_baseline_tag config) (wc_target_system config));
  fetched ← (match fetch_root with
             | inr (Some (data, digest)) => _ ← worker_set_remote_status true None; mret (data, digest)
             | inr None => _ ← worker_set_remote_status true None; root ← new_root; mret (root, [])
             | inl e =>
                 _ ← worker_set_remote_status false (Some (lit "GHCR baseline root: " ++ display_oci_error e));
                 raise (Err (worker_from_oci e))
             end);
  let '(root_data, manifest_digest) := fetched in
  _ ← raise (map_err worker_from_core (validate_root root_data));
  _ ← invalidate_shards old_cached root_data;
  _ ← kv_required;
  _ ← convert (KvPutFailed baseline_key)
        (kv_put_root baseline_key {| kv_data := root_data; kv_last_refresh := now; kv_manifest_digest := manifest_digest |});
  _ ← store_baseline (Some {| mb_root := root_data; mb_manifest_digest := manifest_digest;
                              mb_expires_at := f64_add now L1_MEM_TTL_MS |});
  mret (root_data, manifest_digest).

(** The root in the namespace, if it is valid. *)
Definition kv_root : T (option (KVCacheWrapper ShardedArchCacheIndexData)) :=
  wrapper ← call (kv_get_root baseline_key);
  match wrapper with
  | None => mret None
  | Some wrapper =>
      valid ← try_pure (validate_root (kv_data wrapper));
      mret (match valid with inr _ => Some wrapper | inl _ => None end)
  end.
(** The same, unless it is too old to be looked at. *)
Definition fresh_kv_root (now : f64) : T (option (KVCacheWrapper ShardedArchCacheIndexData)) :=
  wrapper ← call (kv_get_root baseline_key);
  match wrapper with
  | Some wrapper =>
      if f64_lt (f64_sub now (kv_last_refresh wrapper)) (baseline_ttl_ms self) then
        valid ← try_pure (validate_root (kv_data wrapper));
        mret (match valid with inr _ => Some wrapper | inl _ => None end)
      else mret None
  | None => mret None
  end.

Definition Worker_get_baseline_data : T (ShardedArchCacheIndexData * list N) :=
  now ← call date_now;
  cached ← worker_read mem_baseline_cache;
  match (match cached with Some c => if f64_lt now (mb_expires_at c) then Some c else None | None => None end) with
  | Some c => mret (mb_root c, mb_manifest_digest c)
  | None =>
      _ ← kv_required;
      from_kv ← fresh_kv_root now;
      match from_kv with
      | Some wrapper =>
          _ ← store_baseline (Some {| mb_root := kv_data wrapper; mb_manifest_digest := kv_manifest_digest wrapper;
                                      mb_expires_at := f64_add now L1_MEM_TTL_MS |});
          mret (kv_data wrapper, kv_manifest_digest wrapper)
      | None =>
          refreshed ← attempt refresh_baseline_from_ghcr;
          match refreshed with
          | inr res => mret res
          | inl e =>
              backup ← kv_root;
              match backup with
              | Some wrapper => mret (kv_data wrapper, kv_manifest_digest wrapper)
              | None => raise (Err e)
              end
          end
      end
  end.

(** *** Lookups *)

(** The shard of a root that may have an entry. *)
Definition live_shard (root : ShardedArchCacheIndexData) (shard_id : N) : option ShardDescriptor :=
  d ← Index_find_shard_by_id root shard_id;
  if ShardDescriptor_is_empty d || is_empty (sd_blob_digest d) then None else Some d.

Definition entry_in (root : ShardedArchCacheIndexData) (shard_id : N) (hash : StoreHash) : T (option IndexEntry) :=
  match live_shard root shard_id with
  | Some d => r ← Worker_get_shard_data d; mret (pl_entries r.1 !! hash)
  | None => mret None
  end.

Definition narinfo_result (entry : IndexEntry) (shard_id : N) (manifest_digest : list N) (healed : bool)
    : option NarInfoLookupResult :=
  Some {| nl_narinfo_content := IndexEntry_to_narinfo_string entry; nl_shard_id := Some shard_id;
          nl_manifest_digest := Some manifest_digest; nl_self_healed := healed |}.

(** The digest the registry now has for the baseline. *)
Definition remote_head : T (option (list N)) :=
  head ← attempt (manifest_head client
                    (wc_baseline_tag config ++ lit "-" ++ SystemArch_as_str (wc_target_system config)));
  match head with
  | inr (Some h) => mret (Some h)
  | inr None =>
      fallback ← attempt (manifest_head client (wc_baseline_tag config));
      mret (match fallback with inr h => h | inl _ => None end)
  | inl _ => mret None
  end.

Definition lookup_narinfo (store_hash : list N) : T (option NarInfoLookupResult) :=
  parsed ← try_pure (StoreHash_parse store_hash);
  match parsed with
  | inl _ => mret None
  | inr parsed_hash =>
      baseline ← Worker_get_baseline_data;
      shard_id ← raise (or_panic (calculate_shard_id parsed_hash));
      entry ← entry_in baseline.1 shard_id parsed_hash;
      match entry with
      | Some entry => mret (narinfo_result entry shard_id baseline.2 false)
      | None =>
          revalidate ← should_revalidate;
          if negb revalidate then mret None
          else
            head ← remote_head;
            match head with
            | Some remote_digest =>
                if is_empty remote_digest || bool_decide (remote_digest = baseline.2) then mret None
                else
                  refreshed ← attempt refresh_baseline_from_ghcr;
                  match refreshed with
                  | inr refreshed =>
                      entry ← entry_in refreshed.1 shard_id parsed_hash;
                      mret (match entry with
                            | Some entry => narinfo_result entry shard_id refreshed.2 true
                            | None => None
                            end)
                  | inl _ => mret None
                  end
            | None => mret None
            end
      end
  end.

(** The scan of the loaded shards that belong to the baseline. *)
Definition scan_current (root : ShardedArchCacheIndexData) (normalized : list N) (m : gmap N MemShard) : option NarDigest :=
  head (omap (λ '(shard_id, entry),
    d ← Index_find_shard_by_id root shard_id;
    if bool_decide (sd_blob_digest d = ms_blob_digest entry) then ms_nar_lookup entry !! normalized else None) (hash_iter m)).

Definition lookup_nar_digest (nar_basename : list N) : T (option NarDigest) :=
  let normalized := extract_nar_basename nar_basename in
  baseline ← Worker_get_baseline_data;
  store_hash ← raise (map_err (λ e, worker_from_core (TypeErr e)) (extract_store_hash nar_basename));
  found ← (match store_hash with
           | Some store_hash =>
               parsed ← try_pure (StoreHash_parse (StoreHash_as_str store_hash));
               match parsed with
               | inr parsed_hash =>
                   shard_id ← raise (or_panic (calculate_shard_id parsed_hash));
                   match live_shard baseline.1 shard_id with
                   | Some d => r ← Worker_get_shard_data d; mret (r.2 !! normalized)
                   | None => mret None
                   end
               | inl _ => mret None
               end
           | None => mret None
           end);
  match found with
  | Some digest => mret (Some digest)
  | None => worker_read (λ s, scan_current baseline.1 normalized (mem_shard_cache s))
  end.

Definition Worker_get_public_key : T (option (list N)) :=
  baseline ← Worker_get_baseline_data;
  mret (if is_empty (ix_public_key baseline.1) then None else Some (ix_public_key baseline.1)).

(** *** Status and refreshing *)

Definition worker_total (root : ShardedArchCacheIndexData) : T N :=
  raise (map_err worker_from_core (Index_total_entries root)).

Definition get_status : T WorkerStatus :=
  baseline_res ← attempt Worker_get_baseline_data;
  counted ← (match baseline_res with
             | inr (b, digest) => n ← worker_total b; mret (n, digest, ix_generated b)
             | inl _ =>
                 bound ← kv_available;
                 wrapper ← (if (bound : bool) then kv_root else mret None);
                 match wrapper with
                 | Some w => n ← worker_total (kv_data w); mret (n, kv_manifest_digest w, ix_generated (kv_data w))
                 | None => mret (0, [], [])
                 end
             end);
  let '(baseline_count, manifest_digest, generated) := counted in
  h ← worker_read health;
  mret {| ws_remote_connected := rh_connected h; ws_remote_error := rh_last_error h; ws_registry := wc_registry config;
    ws_repo := wc_repo config; ws_baseline_tag := wc_baseline_tag config; ws_tier0_hot_entries := 0;
    ws_baseline_entries := baseline_count; ws_total_unique_entries := baseline_count; ws_index_entries := baseline_count;
    ws_index_ttl := wc_baseline_ttl_secs config; ws_baseline_ttl := wc_baseline_ttl_secs config;
    ws_upstream := wc_upstream_caches config; ws_manifest_digest := manifest_digest; ws_generated := generated |}.

(** The descriptors known before the refresh. *)
Definition old_shards : T (list ShardDescriptor) :=
  cached ← worker_read mem_baseline_cache;
  match cached with
  | Some c => mret (ix_shards (mb_root c))
  | None =>
      bound ← kv_available;
      if (bound : bool) then wrapper ← kv_root; mret (match wrapper with Some w => ix_shards (kv_data w) | None => [] end)
      else mret []
  end.

(** The results of the warm-up: how many shards are warm, and what failed. *)
Fixpoint warm_up_results (rs : list (outcome WorkerStoreError (ShardDataPayload * gmap (list N) NarDigest)))
    : outcome WorkerStoreError (N * list (list N)) :=
  match rs with
  | [] => Ok (0, [])
  | Panic :: _ => Panic
  | Ok _ :: rs => r ← warm_up_results rs; Ok (r.1 + 1, r.2)
  | Err e :: rs => r ← warm_up_results rs; Ok (r.1, (lit "Shard warmup failed: " ++ display_worker_store_error e) :: r.2)
  end.

Definition Worker_force_refresh : T RefreshResult :=
  old ← old_shards;
  _ ← clear_l1_caches;
  refreshed ← attempt refresh_baseline_from_ghcr;
  started ← (match refreshed with
             | inr (baseline, _) => mret (baseline, [])
             | inl e => root ← new_root; mret (root, [lit "Baseline: " ++ display_worker_store_error e])
             end);
  let '(baseline, errors) := started in
  changed ← (match old with
             | [] => mret []
             | _ => raise (map_err worker_from_core (diff_shard_descriptors old (ix_shards baseline)))
             end);
  results ← call (join_all (Worker_get_shard_data <$> omap (live_shard baseline) changed));
  warmed ← raise (warm_up_results results);
  let errors := errors ++ warmed.2 in
  status ← get_status;
  some ← (if bool_decide (errors = []) || (0 <? ws_total_unique_entries status) then mret true
          else total ← worker_total baseline; mret (0 <? total));
  if (some : bool) then mret {| rr_total_entries := ws_total_unique_entries status; rr_warmed_shards := warmed.1 |}
  else raise (Err (AggregatedRefreshFailed errors)).
End worker.

(** ** Facts: what the tiers hold *)

Section invariant.
Context {W : Type} `{HttpHeaders} `{UriLib} `{!TransportOps W} `{!TokenOps W} `{!UtcNow W}.
Context `{!SharedWorker W} `{!DateNow W} `{!KvNamespace W} `{!JoinTasks W}.
Context `{Sha2Ok} `{Chrono} `{HashIter} `{Build} `{Zstd} `{SerdeErrors} `{OciFormat}.
Context `{!Serde OciImageIndex} `{!Serde OciImageManifest}.
Context `{!Serde ShardedArchCacheIndexData} `{!Serde ShardDataPayload}.
Context (self : CacheStore).

Definition root_ok (root : ShardedArchCacheIndexData) : Prop :=
  index_valid root ∧ ix_system root = wc_target_system (ws_config self).
Record worker_inv (s : WorkerState) : Prop := {
  wi_baseline : ∀ b, mem_baseline_cache s = Some b → root_ok (mb_root b);
  wi_shards : map_Forall (λ id c, accepted_payload id (ms_blob_digest c) (ms_payload c) ∧
    ms_nar_lookup c = build_nar_lookup_map (pl_entries (ms_payload c))) (mem_shard_cache s) }.

(** What is filed in the KV namespace under a digest was accepted under it. *)
Definition filed_ok (blob_digest : list N) (wrapper : KVCacheWrapper ShardDataPayload) : Prop :=
  ∃ id, accepted_payload id blob_digest (kv_data wrapper).

(** A namespace that only workers write: it gives back what they filed. *)
Class KvSound (K : W → Prop) : Prop := {
  ks_get : ∀ blob_digest w w' wrapper,
    K w → kv_get_shard (shard_key blob_digest) w = (w', Some wrapper) → filed_ok blob_digest wrapper;
  ks_put : ∀ blob_digest wrapper w, K w → filed_ok blob_digest wrapper →
    K (kv_put_shard (shard_key blob_digest) wrapper w).1 ∧
    worker_state (kv_put_shard (shard_key blob_digest) wrapper w).1 = worker_state w;
  ks_state : ∀ s w, K w → K (set_worker_state s w) }.
(** The requests that read, the clocks and the namespace, other tasks running meanwhile. *)
Class WorkerKeeps (R : W → W → Prop) : Prop := {
  #[global] wwk_reads :: ReadsKeep R;
  wwk_date : ∀ w, R w (date_now w).1;
  wwk_utc : ∀ w, R w (utc_now w).1;
  wwk_bound : ∀ b w, R w (kv_bound b w).1;
  wwk_get_shard : ∀ k w, R w (kv_get_shard k w).1;
  wwk_get_root : ∀ k w, R w (kv_get_root k w).1;
  wwk_put_root : ∀ k v w, R w (kv_put_root k v w).1 }.

Context (K : W → Prop) `{!KvSound K}.
Notation I := (λ w : W, K w ∧ worker_inv (worker_state w)).
Definition worker_kept (w w' : W) : Prop := I w → I w'.
Context `{!WorkerKeeps worker_kept}.

Lemma wtriple_external {A} (m : W → W * A) : (∀ w, worker_kept w (m w).1) → triple I (call (E := WorkerStoreError) m) (λ _, True).
Proof. intros Hm. exact (triple_call I m Hm). Qed.
Lemma wtriple_convert {E' A} (f : E' → WorkerStoreError) (m : W → W * outcome E' A) :
  (∀ w, worker_kept w (m w).1) → triple I (convert f m) (λ _, True).
Proof. intros Hm w Hw. specialize (Hm w Hw). unfold convert. destruct (m w). by split. Qed.
Lemma wtriple_request {A} (m : IO W A) (P : A → Prop) : preserves worker_kept m → (∀ w w' a, m w = (w', Ok a) → P a) →
  triple I (attempt (E := WorkerStoreError) m) (λ r, match r with inr a => P a | inl _ => True end).
Proof. intros Hm. exact (triple_attempt I m P Hm). Qed.
Lemma wtriple_state {A} (f : WorkerState → WorkerState * A) (Post : A → Prop) :
  (∀ s, worker_inv s → worker_inv (f s).1 ∧ Post (f s).2) → triple I (with_worker f) Post.
Proof.
  intros Hf w [HK Hw]. unfold with_worker. destruct (Hf _ Hw) as [Hs Ha]. destruct (f (worker_state w)) as [s a]. simpl in *.
  rewrite worker_state_set. split; [split; [by apply ks_state|done]|]. by intros ? [= <-].
Qed.
Lemma wtriple_read {A} (f : WorkerState → A) (Post : A → Prop) :
  (∀ s, worker_inv s → Post (f s)) → triple I (worker_read f) Post.
Proof. intros Hf. apply wtriple_state. intros s Hs. split; [done|]. by apply Hf. Qed.

Lemma wtriple_status c e : triple I (worker_set_remote_status c e) (λ _, True).
Proof.
  unfold worker_set_remote_status. eapply triple_bind; [apply wtriple_external; intros w; apply wwk_date|]. intros now _.
  apply wtriple_state. intros s []. by split; [split|].
Qed.
Lemma wtriple_revalidate : triple I should_revalidate (λ _, True).
Proof.
  unfold should_revalidate. eapply triple_bind; [apply wtriple_external; intros w; apply wwk_date|]. intros now _.
  apply wtriple_state. intros s Hs. destruct (_ <=? _); [|done]. destruct Hs. by split; [split|].
Qed.
Lemma wtriple_store_baseline b : (∀ x, b = Some x → root_ok (mb_root x)) → triple I (store_baseline b) (λ _, True).
Proof. intros Hb. apply wtriple_state. intros s []. by split; [split|]. Qed.
Lemma wtriple_shards f : (∀ m, map_Forall (λ id c, accepted_payload id (ms_blob_digest c) (ms_payload c) ∧
    ms_nar_lookup c = build_nar_lookup_map (pl_entries (ms_payload c))) m →
    map_Forall (λ id c, accepted_payload id (ms_blob_digest c) (ms_payload c) ∧
    ms_nar_lookup c = build_nar_lookup_map (pl_entries (ms_payload c))) (f m)) → triple I (change_shards f) (λ _, True).
Proof. intros Hf. apply wtriple_state. intros s []. split; [split; [done|]|done]. by apply Hf. Qed.
Lemma wtriple_available : triple I (kv_available self) (λ _, True).
Proof.
  unfold kv_available. eapply triple_bind; [|intros; by apply triple_ret].
  apply (triple_attempt I _ (λ _, True)); [|done]. exact (wwk_bound (wc_kv_binding (ws_config self))).
Qed.
Lemma wtriple_required : triple I (kv_required self) (λ _, True).
Proof. apply wtriple_convert. intros w. apply wwk_bound. Qed.

(** *** Shards *)

Lemma wtriple_mem_shard id digest now : triple I (mem_shard id digest now)
  (λ r, ∀ c, r = Some c → accepted_payload id digest (ms_payload c) ∧
    ms_nar_lookup c = build_nar_lookup_map (pl_entries (ms_payload c))).
Proof.
  unfold mem_shard. eapply triple_bind.
  { apply (wtriple_read _ (λ r, ∀ c, r = Some c → accepted_payload id (ms_blob_digest c) (ms_payload c) ∧
      ms_nar_lookup c = build_nar_lookup_map (pl_entries (ms_payload c)))). intros s Hs c. apply (wi_shards _ Hs). }
  intros [c|] Hc; apply triple_ret; [|done]. intros c' Hc'. destruct (bool_decide _) eqn:Hb; [|done]. cbn [andb] in Hc'.
  apply bool_decide_eq_true in Hb. destruct (f64_lt _ _); [|done]. injection Hc' as <-. rewrite <- Hb. by apply Hc.
Qed.

Lemma wtriple_kv_shard id digest : triple I (kv_shard self id digest) (λ r, ∀ p, r = Some p → accepted_payload id digest p).
Proof.
  unfold kv_shard. eapply triple_bind; [apply wtriple_available|]. intros b _. destruct b; [|by apply triple_ret]. cbn [negb].
  eapply (triple_bind I _ _ (λ r, ∀ wr, r = Some wr → filed_ok digest wr)).
  { intros w Hw. pose proof ((wwk_get_shard (shard_key digest) w : worker_kept w _) Hw) as Hw'. unfold call.
    destruct (kv_get_shard (shard_key digest) w) as [w1 r] eqn:Hr. split; [done|]. intros a [= <-] wr ->.
    by eapply ks_get; [apply Hw|]. }
  intros [wr|] Hf; [|by apply triple_ret]. eapply triple_bind; [apply triple_try|]. intros [e|u] Hv; apply triple_ret; [done|].
  intros p [= <-]. destruct (Hf wr eq_refl) as (id' & d & Hid & Hbd & Hau & Hpl).
  assert (Hpid : pl_shard_id (kv_data wr) = id).
  { unfold validate_shard, Payload_validate_for in Hv. apply bind_ok in Hv as (u1 & _ & Hv).
    apply bind_ok in Hv as (u2 & He%ensure_ok & _). apply negb_true_iff, orb_false_iff in He as [_ He].
    apply negb_false_iff, N.eqb_eq in He. done. }
  rewrite (au_shard _ _ Hau) in Hpid. rewrite <- Hid, Hpid in Hpl. by exists d.
Qed.

Lemma wtriple_remember id digest p now : accepted_payload id digest p → triple I (remember_shard id digest p now) (λ _, True).
Proof. intros Hp. apply wtriple_shards. intros m Hm. by apply map_Forall_insert_2. Qed.

Lemma wtriple_put_shard f digest wrapper : filed_ok digest wrapper →
  triple I (convert (E := WorkerStoreError) f (kv_put_shard (shard_key digest) wrapper)) (λ _, True).
Proof.
  intros Hf w [HK Hw]. destruct (ks_put digest wrapper w HK Hf) as [HK' Hs]. unfold convert.
  destruct (kv_put_shard (shard_key digest) wrapper w) as [w1 o]. simpl in *. by rewrite Hs.
Qed.

Lemma wtriple_get_shard_data d : triple I (Worker_get_shard_data self d)
  (λ r, accepted_payload (sd_shard_id d) (sd_blob_digest d) r.1 ∧ r.2 = build_nar_lookup_map (pl_entries r.1)).
Proof.
  unfold Worker_get_shard_data. destruct (is_empty _); [by apply triple_raise|].
  eapply triple_bind; [apply wtriple_external; intros w; apply wwk_date|]. intros now _.
  eapply triple_bind; [apply wtriple_mem_shard|]. intros [c|] Hc; [by apply triple_ret, Hc|]. clear Hc.
  eapply triple_bind; [apply wtriple_kv_shard|]. intros [p|] Hp.
  { eapply triple_bind; [by apply wtriple_remember, Hp|]. intros _ _. apply triple_ret. split; [by apply Hp|done]. }
  clear Hp. eapply triple_bind.
  { apply wtriple_request; [apply keep_get_shard_data, _|]. intros w w' p Hg. by eapply fetched_payload_accepted. }
  intros [e|p] Hp.
  - eapply triple_bind; [apply wtriple_status|]. intros _ _. eapply triple_bind; [apply wtriple_kv_shard|].
    intros [p|] Hp'; [|by apply triple_raise]. apply triple_ret. split; [by apply Hp'|done].
  - eapply triple_bind; [apply wtriple_status|]. intros _ _. eapply triple_bind; [apply wtriple_available|]. intros b _.
    eapply (triple_bind I _ _ (λ _, True)).
    { destruct b; [|by apply triple_ret]. apply wtriple_put_shard. by exists (sd_shard_id d). }
    intros _ _. eapply triple_bind; [by apply wtriple_remember|]. intros _ _. by apply triple_ret.
Qed.

(** *** The baseline *)

Lemma validate_root_ok root u : validate_root self root = Ok u → root_ok root.
Proof.
  intros Hv. unfold validate_root, Index_validate_for in Hv. apply bind_ok in Hv as ([] & Hs%Index_validate_ok & Hv).
  apply bind_ok in Hv as (u2 & Hsys%ensure_ok%bool_decide_eq_true & _). done.
Qed.

Lemma wtriple_new_root : triple I (new_root self) (λ _, True).
Proof.
  unfold new_root. eapply triple_bind; [apply wtriple_external; intros w; apply wwk_utc|]. intros now _. by apply triple_raise.
Qed.

Lemma wtriple_refresh : triple I (refresh_baseline_from_ghcr self) (λ r, root_ok r.1).
Proof.
  unfold refresh_baseline_from_ghcr. eapply triple_bind; [apply wtriple_external; intros w; apply wwk_date|]. intros now _.
  eapply triple_bind; [by apply (wtriple_read _ (λ _, True))|]. intros old _. eapply triple_bind.
  { apply (wtriple_request _ (λ _, True)); [apply keep_get_sharded_root, _|done]. }
  intros fetched _. eapply (triple_bind I _ _ (λ _, True)).
  { destruct fetched as [e|[[data digest]|]]; (eapply triple_bind; [apply wtriple_status|]; intros _ _);
      [by apply triple_raise|by apply triple_ret|].
    eapply triple_bind; [apply wtriple_new_root|]. intros root _. by apply triple_ret. }
  intros [root digest] _. eapply (triple_bind I _ _ (λ _, root_ok root)).
  { apply triple_raise. intros u Hv%map_err_ok. by eapply validate_root_ok. }
  intros _ Hroot. eapply (triple_bind I _ _ (λ _, True)).
  { unfold invalidate_shards. destruct old as [old|]; [|by apply triple_ret]. case_bool_decide; [by apply triple_ret|].
    eapply (triple_bind I _ _ (λ _, True)); [by apply triple_raise|]. intros changed _. apply triple_each. intros id _.
    apply wtriple_shards. intros m Hm. by apply map_Forall_delete. }
  intros _ _. eapply triple_bind; [apply wtriple_required|]. intros _ _.
  eapply triple_bind; [apply wtriple_convert; intros w; apply wwk_put_root|]. intros _ _.
  eapply triple_bind; [apply wtriple_store_baseline; by intros x [= <-]|]. intros _ _. by apply triple_ret.
Qed.

Lemma wtriple_valid_wrapper wrapper : triple I (valid ← try_pure (E := WorkerStoreError) (validate_root self (kv_data wrapper));
    mret (match valid with inr _ => Some wrapper | inl _ => None end)) (λ r, ∀ x, r = Some x → root_ok (kv_data x)).
Proof.
  eapply triple_bind; [apply triple_try|]. intros [e|u] Hv; apply triple_ret; [done|]. intros x [= <-]. by eapply validate_root_ok.
Qed.
Lemma wtriple_kv_root : triple I (kv_root self) (λ r, ∀ x, r = Some x → root_ok (kv_data x)).
Proof.
  unfold kv_root. eapply triple_bind; [apply wtriple_external; intros w; apply wwk_get_root|].
  intros [wrapper|] _; [apply wtriple_valid_wrapper|by apply triple_ret].
Qed.
Lemma wtriple_fresh_root now : triple I (fresh_kv_root self now) (λ r, ∀ x, r = Some x → root_ok (kv_data x)).
Proof.
  unfold fresh_kv_root. eapply triple_bind; [apply wtriple_external; intros w; apply wwk_get_root|].
  intros [wrapper|] _; [|by apply triple_ret]. destruct (f64_lt _ _); [apply wtriple_valid_wrapper|by apply triple_ret].
Qed.

Lemma wtriple_attempt {A} (m : Task WorkerStoreError W A) (P : A → Prop) : triple I m P →
  triple I (attempt (E := WorkerStoreError) m) (λ r, match r with inr a => P a | inl _ => True end).
Proof. apply (triple_attempt_task I). Qed.

Lemma wtriple_get_baseline : triple I (Worker_get_baseline_data self) (λ r, root_ok r.1).
Proof.
  unfold Worker_get_baseline_data. eapply triple_bind; [apply wtriple_external; intros w; apply wwk_date|]. intros now _.
  eapply triple_bind.
  { apply (wtriple_read _ (λ r, ∀ b, r = Some b → root_ok (mb_root b))). intros s Hs. apply (wi_baseline _ Hs). }
  intros cached Hc. destruct (match cached with Some c => _ | None => None end) as [c|] eqn:Hcc.
  { apply triple_ret. apply Hc. destruct cached as [c'|]; [|done]. by destruct (f64_lt _ _). }
  eapply triple_bind; [apply wtriple_required|]. intros _ _. eapply triple_bind; [apply wtriple_fresh_root|].
  intros [wr|] Hwr.
  { eapply triple_bind; [apply wtriple_store_baseline; intros x [= <-]; by apply Hwr|]. intros _ _. by apply triple_ret, Hwr. }
  eapply triple_bind; [apply wtriple_attempt, wtriple_refresh|]. intros [e|r] Hr; [|by apply triple_ret].
  eapply triple_bind; [apply wtriple_kv_root|]. intros [wr'|] Hwr'; [by apply triple_ret, Hwr'|by apply triple_raise].
Qed.

(** *** Lookups *)

(** Where an entry that is served for a hash comes from. *)
Definition worker_answers (h : StoreHash) (e : IndexEntry) : Prop :=
  ∃ root id d p, root_ok root ∧ calculate_shard_id h = Some id ∧ Index_find_shard_by_id root id = Some d ∧
    accepted_payload id (sd_blob_digest d) p ∧ pl_entries p !! h = Some e.

Lemma live_shard_ok root id d : root_ok root → live_shard root id = Some d →
  Index_find_shard_by_id root id = Some d ∧ sd_shard_id d = id.
Proof.
  intros [Hv _] Hl. unfold live_shard in Hl. destruct (Index_find_shard_by_id root id) as [d'|] eqn:Hd; [|done].
  simpl in Hl. destruct (_ || _); [done|]. injection Hl as <-. split; [done|]. destruct Hv as [_ _ _ _ Hids _ _].
  rewrite (ordered_id _ _ _ Hids Hd). apply N2Nat.id.
Qed.

Lemma wtriple_entry_in root id h : root_ok root → calculate_shard_id h = Some id →
  triple I (entry_in self root id h) (λ r, ∀ e, r = Some e → worker_answers h e).
Proof.
  intros Hroot Hid. unfold entry_in. destruct (live_shard root id) as [d|] eqn:Hl; [|by apply triple_ret].
  apply live_shard_ok in Hl as [Hd Hi]; [|done]. eapply triple_bind; [apply wtriple_get_shard_data|]. intros r [Hr _].
  apply triple_ret. intros e He. exists root, id, d, r.1. rewrite <- Hi at 3. by split_and!.
Qed.

Lemma wtriple_head : triple I (remote_head self) (λ _, True).
Proof.
  unfold remote_head. eapply triple_bind; [apply (wtriple_request _ (λ _, True)); [|done]|].
  { apply keep_manifest_head, _. }
  intros [e|[h|]] _; [by apply triple_ret|by apply triple_ret|].
  eapply triple_bind; [apply (wtriple_request _ (λ _, True)); [apply keep_manifest_head, _|done]|]. intros f _. by apply triple_ret.
Qed.

Lemma wtriple_lookup s : triple I (lookup_narinfo self s) (λ r, ∀ x, r = Some x →
  ∃ h e, StoreHash_parse s = Ok h ∧ worker_answers h e ∧ nl_narinfo_content x = IndexEntry_to_narinfo_string e ∧
    nl_shard_id x = calculate_shard_id h).
Proof.
  unfold lookup_narinfo. eapply triple_bind; [apply triple_try|]. intros [e|h] Hh; [by apply triple_ret|].
  eapply triple_bind; [apply wtriple_get_baseline|]. intros baseline Hb.
  eapply triple_bind; [apply (triple_raise _ _ (λ id, calculate_shard_id h = Some id)); by intros id ?%or_panic_ok|].
  intros id Hid. eapply triple_bind; [by apply wtriple_entry_in|]. intros [e|] He.
  { apply triple_ret. intros x [= <-]. exists h, e. simpl. split_and!; [done|by apply He|done|done]. }
  eapply triple_bind; [apply wtriple_revalidate|]. intros b _. destruct b; [|by apply triple_ret]. cbn [negb].
  eapply triple_bind; [apply wtriple_head|]. intros [digest|] _; [|by apply triple_ret].
  destruct (_ || _); [by apply triple_ret|]. eapply triple_bind; [apply wtriple_attempt, wtriple_refresh|].
  intros [err|r] Hr; [by apply triple_ret|]. eapply triple_bind; [by apply wtriple_entry_in|]. intros [e|] He'; apply triple_ret; [|done].
  intros x [= <-]. exists h, e. simpl. split_and!; [done|by apply He'|done|done].
Qed.

(** Where a NAR digest that is served comes from: the entry has the name, and its shard is
    one of a valid root. *)
Definition worker_nar_answers (name : list N) (digest : NarDigest) : Prop :=
  ∃ h e root id d p, nar_digest e = digest ∧ IndexEntry_nar_basename e = extract_nar_basename name ∧
    root_ok root ∧ Index_find_shard_by_id root id = Some d ∧ accepted_payload id (sd_blob_digest d) p ∧
    pl_entries p !! h = Some e.

Lemma nar_lookup_answers name root id d p digest : root_ok root → Index_find_shard_by_id root id = Some d →
  accepted_payload id (sd_blob_digest d) p →
  build_nar_lookup_map (pl_entries p) !! extract_nar_basename name = Some digest → worker_nar_answers name digest.
Proof.
  intros Hroot Hd Hp Hl. apply build_nar_lookup_map_spec in Hl as (_ & h & e & He & Hb & Hdig).
  by exists h, e, root, id, d, p.
Qed.

Lemma wtriple_nar name : triple I (lookup_nar_digest self name) (λ r, ∀ digest, r = Some digest → worker_nar_answers name digest).
Proof.
  unfold lookup_nar_digest. eapply triple_bind; [apply wtriple_get_baseline|]. intros [root mdigest] Hroot. simpl in Hroot |- *.
  eapply triple_bind; [by apply (triple_raise _ _ (λ _, True))|]. intros sh _. eapply triple_bind.
  { instantiate (1 := λ r, ∀ digest, r = Some digest → worker_nar_answers name digest).
    destruct sh as [sh|]; [|by apply triple_ret]. eapply triple_bind; [apply triple_try|].
    intros [e|h] _; [by apply triple_ret|]. eapply triple_bind; [by apply (triple_raise _ _ (λ _, True))|]. intros id _.
    destruct (live_shard root id) as [d|] eqn:Hl; [|by apply triple_ret]. apply live_shard_ok in Hl as [Hd Hi]; [|done].
    eapply triple_bind; [apply wtriple_get_shard_data|]. intros r [Hr Hn]. apply triple_ret. intros digest Hdig.
    rewrite Hn in Hdig. rewrite Hi in Hr. by eapply nar_lookup_answers. }
  intros [digest|] Hf; [by apply triple_ret|]. apply wtriple_read. intros s Hs digest Hdig. unfold scan_current in Hdig.
  apply head_Some_elem_of, list_elem_of_omap in Hdig as ([id c] & Hc%elem_of_hash_iter & Hdig).
  destruct (Index_find_shard_by_id root id) as [d|] eqn:Hd; [|done]. simpl in Hdig. case_bool_decide as Hb; [|done].
  destruct (wi_shards _ Hs id c Hc) as [Hp Hl]. rewrite Hl in Hdig. rewrite <- Hb in Hp. by eapply nar_lookup_answers.
Qed.

(** *** The other operations *)

Lemma wtriple_public_key : triple I (Worker_get_public_key self) (λ _, True).
Proof.
  unfold Worker_get_public_key. eapply triple_bind; [apply wtriple_get_baseline|]. intros r _. by apply triple_ret.
Qed.
Lemma wtriple_total root : triple I (worker_total root) (λ _, True).
Proof. by apply triple_raise. Qed.
Lemma wtriple_get_status : triple I (get_status self) (λ _, True).
Proof.
  unfold get_status. eapply triple_bind; [apply wtriple_attempt, wtriple_get_baseline|]. intros r _.
  eapply (triple_bind I _ _ (λ _, True)).
  { destruct r as [e|[b digest]].
    - eapply triple_bind; [apply wtriple_available|]. intros bound _. eapply (triple_bind I _ _ (λ _, True)).
      { destruct bound; [eapply triple_weaken; [apply wtriple_kv_root|done]|by apply triple_ret]. }
      intros [wr|] _; [|by apply triple_ret]. eapply triple_bind; [apply wtriple_total|]. intros n _. by apply triple_ret.
    - eapply triple_bind; [apply wtriple_total|]. intros n _. by apply triple_ret. }
  intros [[n digest] generated] _. eapply triple_bind; [by apply (wtriple_read _ (λ _, True))|]. intros h _. by apply triple_ret.
Qed.
Lemma wtriple_old_shards : triple I (old_shards self) (λ _, True).
Proof.
  unfold old_shards. eapply triple_bind; [by apply (wtriple_read _ (λ _, True))|]. intros [c|] _; [by apply triple_ret|].
  eapply triple_bind; [apply wtriple_available|]. intros [] _; [|by apply triple_ret].
  eapply triple_bind; [apply wtriple_kv_root|]. intros wr _. by apply triple_ret.
Qed.
Lemma wtriple_join {A B} (f : A → Task WorkerStoreError W B) l : (∀ a, triple I (f a) (λ _, True)) →
  triple I (call (E := WorkerStoreError) (join_all (f <$> l))) (λ _, True).
Proof.
  intros Hf. apply (triple_call I), (join_all_keeps I). apply Forall_fmap, Forall_true. exact Hf.
Qed.
Lemma wtriple_force_refresh : triple I (Worker_force_refresh self) (λ _, True).
Proof.
  unfold Worker_force_refresh. eapply triple_bind; [apply wtriple_old_shards|]. intros old _.
  eapply (triple_bind I _ _ (λ _, True)).
  { unfold clear_l1_caches. eapply triple_bind; [by apply wtriple_store_baseline|]. intros _ _. apply wtriple_shards.
    intros m _. apply map_Forall_empty. }
  intros _ _. eapply triple_bind; [apply wtriple_attempt, wtriple_refresh|]. intros refreshed _.
  eapply (triple_bind I _ _ (λ _, True)).
  { destruct refreshed as [e|[baseline digest]]; [|by apply triple_ret].
    eapply triple_bind; [apply wtriple_new_root|]. intros root _. by apply triple_ret. }
  intros [baseline errors] _. eapply (triple_bind I _ _ (λ _, True)).
  { destruct old; [by apply triple_ret|by apply triple_raise]. }
  intros changed _. eapply triple_bind.
  { apply wtriple_join. intros d. eapply triple_weaken; [apply wtriple_get_shard_data|done]. }
  intros results _. eapply (triple_bind I _ _ (λ _, True)); [by apply triple_raise|]. intros warmed _.
  eapply triple_bind; [apply wtriple_get_status|]. intros status _. eapply (triple_bind I _ _ (λ _, True)).
  { destruct (_ || _); [by apply triple_ret|]. eapply triple_bind; [apply wtriple_total|]. intros n _. by apply triple_ret. }
  intros [] _; [by apply triple_ret|by apply triple_raise].
Qed.
End invariant.

(** ** Divergences *)

(** The root the registry gives carries the canonical name of the repository, and the
    worker then compares it with the name as configured: with a capital letter in the
    configured name a root that the client accepted is always rejected. *)
Theorem worker_rejects_capital_repo `{Sha2Ok} `{Chrono} `{HashIter} (self : CacheStore) root u :
  wc_repo (ws_config self) = lit "Owner/Cache" →
  @OciClient_with_transport sample_uri ascii_case sample_build (lit "ghcr.io") (lit "Owner/Cache") OciReadLimits_default
    = Ok (ws_client self) →
  root_accepted (ws_client self) root (wc_target_system (ws_config self)) →
  validate_root self root ≠ Ok u.
Proof.
  intros Hr Hc (_ & _ & Hrepo & _) Hv. unfold validate_root, Index_validate_for in Hv.
  apply bind_ok in Hv as (u1 & _ & Hv). apply bind_ok in Hv as (u2 & _ & Hv).
  apply bind_ok in Hv as (u3 & Hb%ensure_ok & _). apply andb_true_iff in Hb as [Hb%bool_decide_eq_true _].
  rewrite Hb, Hr in Hrepo. destruct self as [client config ttl]. cbn [ws_client] in *.
  vm_compute in Hc. injection Hc as <-. by vm_compute in Hrepo.
Qed.

(** ** Witnesses, and what the namespace is trusted with *)

Section samples.
#[local] Existing Instances flat_sha2 flat_sha2_ok Types.sample_chrono map_order sample_http sample_uri ascii_case sample_build.
#[local] Existing Instances sample_errors sample_format served_zstd sample_index_serde served_manifest_serde.
#[local] Instance served_root_json : Serde ShardedArchCacheIndexData := {|
  to_json := λ _, Ok [114]; from_json_str := λ _, Err []; from_json_slice := λ _, map_err (λ _, []) served_root |}.
#[local] Instance no_shard_json : Serde ShardDataPayload := {|
  to_json := λ _, Err []; from_json_str := λ _, Err []; from_json_slice := λ _, Err [] |}.

(** The world is the state of the worker; the registry serves one root, the namespace one shard. *)
#[local] Instance sample_shared_worker : SharedWorker WorkerState.
Proof. by refine {| worker_state := id; set_worker_state := λ s _, s |}. Defined.
#[local] Instance worker_tokens : TokenOps WorkerState := {|
  tm_cached_token := λ w, (w, None); tm_refresh_token := λ _ w, (w, Ok []) |}.
#[local] Instance worker_transport : TransportOps WorkerState :=
  let refused {A} (w : WorkerState) : WorkerState * outcome TransportError (StatusCode * A) := (w, Err (TransportIo [])) in
  @Build_TransportOps WorkerState sample_http (λ _ _, refused)
    (λ url _ _ w, (w, Ok (200, [], if contains (lit "/manifests/") url then [109] else ZSTD_MAGIC ++ [114])))
    (λ _ _ _ w, (w, Err (TransportIo []))) (λ _ _, refused) (λ _ _ _, refused) (λ _ _ _, refused)
    (λ _ _ _ _ w, (w, Err (TransportIo []))) (λ _ _ _, refused) (λ _ _, refused) (λ _ w, w).
#[local] Instance worker_utc : UtcNow WorkerState := {| utc_now := λ w, (w, 29%Z) |}.
#[local] Instance worker_date : DateNow WorkerState := {| date_now := λ w, (w, f64_of_N 1000) |}.
#[local] Instance worker_kv : KvNamespace WorkerState := {|
  kv_bound := λ _ w, (w, Ok tt);
  kv_get_shard := λ key w, (w, if decide (key = shard_key flat_digest)
    then Some {| kv_data := sample_payload; kv_last_refresh := f64_of_N 0; kv_manifest_digest := flat_digest |} else None);
  kv_put_shard := λ _ _ w, (w, Ok tt); kv_get_root := λ _ w, (w, None); kv_put_root := λ _ _ w, (w, Ok tt) |}.
Fixpoint join_in_turn {W E A} (tasks : list (Task E W A)) (w : W) : W * list (outcome E A) :=
  match tasks with
  | [] => (w, [])
  | task :: tasks => let '(w, r) := task w in let '(w, rs) := join_in_turn tasks w in (w, r :: rs)
  end.
#[local] Instance worker_join W : JoinTasks W.
Proof.
  refine {| join_all := @join_in_turn W |}. intros E A I tasks Hall. induction Hall as [|task tasks Ht _ IH]; intros w Hw; [done|].
  simpl. destruct (Ht w Hw) as [Hw1 _]. destruct (task w) as [w1 r]. specialize (IH w1 Hw1).
  by destruct (join_in_turn tasks w1).
Defined.

Definition sample_store : CacheStore := {|
  ws_client := match create_tokio_reqwest_client (lit "us-docker.pkg.dev") (lit "owner/cache") with
               | Ok client => client | _ => sample_client end;
  ws_config := {| wc_registry := lit "us-docker.pkg.dev"; wc_repo := lit "owner/cache";
    wc_baseline_tag := lit "cache-index"; wc_kv_binding := lit "NIXCACHE_KV"; wc_upstream_caches := [];
    wc_baseline_ttl_secs := 300; wc_target_system := X86_64Linux |};
  baseline_ttl_ms := f64_of_N 300000 |}.

Lemma sample_kv_sound : KvSound (λ _ : WorkerState, True).
Proof.
  split; [|done|done]. intros digest w w' wrapper _. simpl. case_decide as Hk; [|done]. intros [= _ <-].
  apply (app_inv_head (lit "shard_v8_")) in Hk. subst digest. exists 838, served_shard. split_and!; [done|done| |].
  - split; [done|by vm_compute|by vm_compute].
  - apply map_Forall_singleton. by vm_compute.
Qed.
Lemma sample_worker_keeps : WorkerKeeps (worker_kept sample_store (λ _ : WorkerState, True)).
Proof.
  split; try (by intros; unfold worker_kept). split; [|by intros; unfold worker_kept..].
  split; [by intros w; unfold worker_kept|]. intros w1 w2 w3; unfold worker_kept; auto.
Qed.
Lemma fresh_worker_sound : worker_inv sample_store GLOBAL_STATE.
Proof. split; [done|apply map_Forall_empty]. Qed.

Lemma sample_narinfo_found :
  match lookup_narinfo sample_store sample_hash GLOBAL_STATE with (_, Ok (Some _)) => true | _ => false end = true.
Proof. vm_cast_no_check (eq_refl true). Qed.

(** A payload of the namespace is checked for its structure only: one that the descriptor
    does not authenticate is served all the same. *)
Theorem kv_shard_unauthenticated :
  let d := {| sd_shard_id := 838; sd_prefix := lit "s6"; sd_blob_digest := flat_digest; sd_compressed_size := 5;
              sd_uncompressed_size := 1; sd_entry_count := 2; sd_merkle_hash := flat_digest |} in
  (∃ r, (Worker_get_shard_data sample_store d GLOBAL_STATE).2 = Ok r ∧ r.1 = sample_payload) ∧
  ¬ authenticates d sample_payload.
Proof.
  intros d. split; [eexists (_, _); by vm_compute|]. intros [_ Hc _]. by vm_compute in Hc.
Qed.
End samples.
