(* ===== verification/WorkerTransport.v ===== *)
(** * WorkerTransport: the transport of the edge worker
    (crates/nixcache-worker/src/transport.rs)

    The trait [OciTransport] over the [fetch] of the Workers runtime, an interface.  Redirects
    are followed by hand, at most five, and without the credentials.  Uploads are of the
    methods the trait gives by default: their response headers are dropped. *)

From S2P Require Import Prelude Machine Str Text Error Types OciError Transport Endpoint Auth Request Manifest ManifestClient IndexClient Ghcr Task Reqwest.

Local Open Scope N_scope.

(** The [Headers] of the runtime; [set] refuses names and values that are not headers. *)
Class JsHeaders := {
  Headers : Type;
  headers_new : Headers;
  headers_set : list N → list N → Headers → outcome (list N) Headers;
  headers_get : Headers → list N → option (list N);
  headers_entries : Headers → list (list N * list N) }.
(** [HeaderMap::remove] and [HeaderName::from_bytes] of the http crate. *)
Class HeaderNames `{HttpHeaders} := {
  header_remove : list N → HeaderMap → HeaderMap;
  header_name_from_bytes : list N → option (list N) }.
(** [Request::new_with_init] and [Fetch::Request(..).send()], redirects followed or not; the
    status is a [u16], and [stream] may fail.  [Url::parse(base)?.join(location)]. *)
Class FetchApi (W : Type) `{JsHeaders} := {
  WResponse : Type;
  fetch_request : HttpMethod → list N → Headers → bool → option (list N) → W → W * outcome (list N) WResponse;
  wr_status_code : WResponse → N;
  wr_headers : WResponse → Headers;
  wr_stream : WResponse → outcome (list N) (list (outcome (list N) (list N)));
  wurl_join : list N → list N → option (list N);
  delay : N → W → W }.

Section transport.
Context {W : Type} `{HttpHeaders} `{!HeaderNames} `{JsHeaders} `{!FetchApi W}.
Notation T := (Task TransportError W).

Definition map_worker_error (url err : list N) : TransportError := ConnectionFailed url err.

Definition convert_to_worker_headers (headers : HeaderMap) : outcome TransportError Headers :=
  fold_m (λ worker_headers kv,
    val_str ← ok_or (HeaderParse (lit "worker_header_value")) (header_to_str kv.2);
    map_err (λ _, HeaderParse (lit "worker_header_set")) (headers_set kv.1 val_str worker_headers))
    headers_new (header_iter headers).
Definition convert_from_worker_headers (headers : Headers) : outcome TransportError HeaderMap :=
  fold_m (λ http_headers kv,
    k ← ok_or (HeaderParse (lit "worker_header_name")) (header_name_from_bytes kv.1);
    v ← ok_or (HeaderParse (lit "worker_header_value")) (header_value_from_str kv.2);
    Ok (header_insert k v http_headers)) header_new (headers_entries headers).

Definition MAX_REDIRECTS : nat := 5.
Definition is_redirect_status (code : N) : bool := bool_decide (code ∈ [301; 302; 303; 307; 308]).
Definition resolve_redirect_url (base_url location : list N) : list N :=
  if starts_with (lit "http://") location || starts_with (lit "https://") location then location
  else default location (wurl_join base_url location).

(** [StatusCode::from_u16]. *)
Definition status_from_u16 (code : N) : outcome TransportError StatusCode :=
  _ ← ensure (in_range 100 999 code) (HttpStatus 500 (Some (lit "Invalid status code " ++ show_N code)));
  Ok code.

(** The loop of [head_with_headers], [get] and [stream]: [redirects] more may be followed.
    The answer comes with the URL it is from. *)
Fixpoint follow (redirects : nat) (method : HttpMethod) (current_url : list N) (current_headers : HeaderMap)
    : T (list N * WResponse) :=
  worker_headers ← raise (convert_to_worker_headers current_headers);
  resp ← convert (map_worker_error current_url) (fetch_request method current_url worker_headers true None);
  match redirects, headers_get (wr_headers resp) (lit "Location") with
  | S redirects, Some location =>
      if is_redirect_status (wr_status_code resp)
      then follow redirects method (resolve_redirect_url current_url location) (header_remove (lit "authorization") current_headers)
      else mret (current_url, resp)
  | _, _ => mret (current_url, resp)
  end.

Definition status_and_headers (resp : WResponse) : outcome TransportError (StatusCode * HeaderMap) :=
  status ← status_from_u16 (wr_status_code resp);
  resp_headers ← convert_from_worker_headers (wr_headers resp);
  Ok (status, resp_headers).

Definition worker_head_with_headers (url : list N) (headers : HeaderMap) : T (StatusCode * HeaderMap) :=
  r ← follow MAX_REDIRECTS HttpHead url headers;
  raise (status_and_headers r.2).

(** The stream of the body, its errors those of the URL. *)
Definition byte_stream (url : list N) (resp : WResponse) : outcome TransportError (list (outcome TransportError (list N))) :=
  match wr_stream resp with
  | Ok stream => Ok (map_err (map_worker_error url) <$> stream)
  | Err e => Err (map_worker_error url e)
  | Panic => Panic
  end.

Definition worker_stream (url : list N) (headers : HeaderMap) (max_bytes : N)
    : T (StatusCode * HeaderMap * list (outcome TransportError (list N))) :=
  r ← follow MAX_REDIRECTS HttpGet url headers;
  let '(current_url, resp) := r in
  sh ← raise (status_and_headers resp);
  _ ← raise (check_content_length current_url sh.2 max_bytes);
  stream ← raise (byte_stream current_url resp);
  mret (sh, stream).
Definition worker_get (url : list N) (headers : HeaderMap) (max_bytes : N) : T (StatusCode * HeaderMap * list N) :=
  r ← follow MAX_REDIRECTS HttpGet url headers;
  let '(current_url, resp) := r in
  sh ← raise (status_and_headers resp);
  _ ← raise (check_content_length current_url sh.2 max_bytes);
  stream ← raise (byte_stream current_url resp);
  bytes ← raise (collect_limited current_url max_bytes stream);
  mret (sh, bytes).

(** A request that the runtime follows. *)
Definition fetch_once (method : HttpMethod) (url : list N) (headers : HeaderMap) (body : option (list N)) : T WResponse :=
  worker_headers ← raise (convert_to_worker_headers headers);
  convert (map_worker_error url) (fetch_request method url worker_headers false body).
Definition worker_post (url : list N) (headers : HeaderMap) (body : option (list N)) : T (StatusCode * HeaderMap) :=
  resp ← fetch_once HttpPost url headers body;
  raise (status_and_headers resp).
Definition worker_patch_chunk (url : list N) (headers : HeaderMap) (chunk : list N) (byte_range : N * N)
    : T UploadChunkResponse :=
  resp ← fetch_once HttpPatch url (with_range byte_range headers) (Some chunk);
  sh ← raise (status_and_headers resp);
  raise (chunk_response sh.1 sh.2).
Definition worker_put_bytes (url : list N) (headers : HeaderMap) (body : list N) : T StatusCode :=
  resp ← fetch_once HttpPut url headers (Some body);
  raise (status_from_u16 (wr_status_code resp)).
Definition worker_put_chunk_finish (url : list N) (headers : HeaderMap) (final_chunk : option (list N * (N * N))) : T StatusCode :=
  match final_chunk with
  | Some (bytes, byte_range) => worker_put_bytes url (with_range byte_range headers) bytes
  | None => worker_put_bytes url headers []
  end.
Definition worker_delete (url : list N) (headers : HeaderMap) : T StatusCode :=
  resp ← fetch_once HttpDelete url headers None;
  raise (status_from_u16 (wr_status_code resp)).

(** [try_collect] and [flat_map]: the methods of a stream wait for its end, or stop at its
    first error before anything is sent. *)
Fixpoint collect_stream (stream : list (outcome TransportError (list N))) : outcome TransportError (list N) :=
  match stream with
  | [] => Ok []
  | item :: stream => b ← item; bytes ← collect_stream stream; Ok (b ++ bytes)
  end.
Definition worker_post_stream (url : list N) (headers : HeaderMap) (stream : list (outcome TransportError (list N)))
    (content_len : N) : T (StatusCode * HeaderMap) :=
  bytes ← raise (collect_stream stream); worker_post url headers (Some bytes).
Definition worker_patch_chunk_stream (url : list N) (headers : HeaderMap) (stream : list (outcome TransportError (list N)))
    (byte_range : N * N) : T UploadChunkResponse :=
  bytes ← raise (collect_stream stream); worker_patch_chunk url headers bytes byte_range.
Definition worker_put_stream (url : list N) (headers : HeaderMap) (stream : list (outcome TransportError (list N)))
    (content_len : N) : T StatusCode :=
  bytes ← raise (collect_stream stream); worker_put_bytes url headers bytes.

(** The methods that the trait defines by the ones above. *)
Definition without_headers (m : T StatusCode) : T (StatusCode * HeaderMap) := status ← m; mret (status, header_new).

#[export] Instance worker_fetch_transport : TransportOps W := {|
  tr_head_with_headers := worker_head_with_headers;
  tr_get := worker_get;
  tr_stream := worker_stream;
  tr_post url headers := worker_post url headers None;
  tr_post_bytes url headers body := worker_post url headers (Some body);
  tr_put_bytes_with_headers url headers body := without_headers (worker_put_bytes url headers body);
  tr_patch_chunk := worker_patch_chunk;
  tr_put_chunk_finish_with_headers url headers final_chunk := without_headers (worker_put_chunk_finish url headers final_chunk);
  tr_delete_with_headers url headers := without_headers (worker_delete url headers);
  tr_sleep := delay |}.
#[export] Instance worker_deletes : DeleteOps W := {| tr_delete := worker_delete |}.
End transport.

(** ** Facts *)

(** The http crate: header names are in lower case, and one that is removed is gone. *)
Class HeaderNamesOk `{HeaderNames} : Prop := {
  hn_lower : ∀ h n v, (n, v) ∈ header_iter h → to_ascii_lowercase n = n;
  hn_removed : ∀ name h v, (name, v) ∉ header_iter (header_remove name h) }.
(** The runtime: new headers are empty, and setting one leaves those of other names. *)
Class JsHeadersOk `{JsHeaders} : Prop := {
  jh_new : ∀ k, headers_get headers_new k = None;
  jh_set : ∀ k v h h' k', headers_set k v h = Ok h' → to_ascii_lowercase k ≠ to_ascii_lowercase k' →
    headers_get h' k' = headers_get h k' }.
(** The requests that left the worker, in order. *)
Class FetchTrace {W : Type} `{FetchApi W} (requests : W → list (HttpMethod * list N * Headers)) : Prop := {
  ft_fetch : ∀ method url h manual body w,
    requests (fetch_request method url h manual body w).1 = requests w ++ [(method, url, h)] }.

Section facts.
Context {W : Type} `{HttpHeaders} `{!HeaderNames} `{JsHeaders} `{!FetchApi W}.
Context `{!HeaderNamesOk} `{!JsHeadersOk} (requests : W → list (HttpMethod * list N * Headers)) `{!FetchTrace requests}.

Definition AUTHORIZATION : list N := lit "authorization".
Definition anonymous_request (r : HttpMethod * list N * Headers) : Prop := headers_get r.2 AUTHORIZATION = None.
Definition no_credentials (headers : HeaderMap) : Prop := ∀ v, (AUTHORIZATION, v) ∉ header_iter headers.

Lemma converted_anonymous headers h : no_credentials headers → convert_to_worker_headers headers = Ok h →
  headers_get h AUTHORIZATION = None.
Proof.
  unfold no_credentials, convert_to_worker_headers. intros Hno Hc.
  assert (Hnames : ∀ n v, (n, v) ∈ header_iter headers → to_ascii_lowercase n ≠ AUTHORIZATION).
  { intros n v Hin He. rewrite (hn_lower headers n v Hin) in He. subst n. by eapply Hno. }
  clear Hno. revert Hc Hnames. generalize (header_iter headers) as l. intros l.
  assert (Hgen : ∀ h0, headers_get h0 AUTHORIZATION = None →
    fold_m (λ worker_headers kv, val_str ← ok_or (HeaderParse (lit "worker_header_value")) (header_to_str kv.2);
      map_err (λ _, HeaderParse (lit "worker_header_set")) (headers_set kv.1 val_str worker_headers)) h0 l = Ok h →
    (∀ n v, (n, v) ∈ l → to_ascii_lowercase n ≠ AUTHORIZATION) → headers_get h AUTHORIZATION = None);
    [|apply Hgen, jh_new].
  induction l as [|[k v] l IH]; intros h0 Hnone Hf Hnames; simpl in Hf; [by injection Hf as <-|].
  apply bind_ok in Hf as (h1 & Hs & Hf). apply bind_ok in Hs as (s & _ & Hs%map_err_ok).
  apply (IH h1); [|done|intros n u Hin; apply (Hnames n u); by right].
  rewrite (jh_set _ _ _ _ _ Hs); [done|]. apply (Hnames k v). by left.
Qed.

(** The requests of the loop: as many as it may make, the first to the URL it was given, and
    the first one only with the credentials. *)
Record confined (n : nat) (url : list N) (plain : Prop) (l : list (HttpMethod * list N * Headers)) : Prop := {
  cf_count : (length l ≤ n)%nat;
  cf_first : ∀ r, head l = Some r → r.1.2 = url ∧ (plain → anonymous_request r);
  cf_rest : Forall anonymous_request (tail l) }.

Lemma confined_none n url plain : confined n url plain [].
Proof. split; [simpl; lia|done|constructor]. Qed.
Lemma confined_one n method url headers h : convert_to_worker_headers headers = Ok h →
  confined (S n) url (no_credentials headers) [(method, url, h)].
Proof.
  intros Hh. split; [simpl; lia| |constructor]. intros r [= <-]. split; [done|]. intros Hno. by eapply converted_anonymous.
Qed.
Lemma confined_next n method url headers h url' (plain : Prop) l : convert_to_worker_headers headers = Ok h → plain →
  confined n url' plain l → confined (S n) url (no_credentials headers) ((method, url, h) :: l).
Proof.
  intros Hh Hplain [Hlen Hfirst Hrest]. split; [simpl; lia| |].
  - intros r [= <-]. split; [done|]. intros Hno. by eapply converted_anonymous.
  - simpl. destruct l as [|r l]; [constructor|]. constructor; [by apply (Hfirst r eq_refl)|done].
Qed.

Lemma follow_confined redirects method url headers (w : W) :
  ∃ l, requests (follow redirects method url headers w).1 = requests w ++ l ∧
    confined (S redirects) url (no_credentials headers) l.
Proof.
  revert url headers w. induction redirects as [|redirects IH]; intros url headers w; cbn [follow];
    unfold mbind, task_bind, raise, convert;
    (destruct (convert_to_worker_headers headers) as [h|e|] eqn:Hh;
      [|exists []; rewrite app_nil_r; split; [done|apply confined_none]..]);
    pose proof (ft_fetch method url h true None w) as Htrace;
    destruct (fetch_request method url h true None w) as [w1 [resp|e|]]; cbn [fst map_err] in Htrace |- *;
    try (exists [(method, url, h)]; split; [exact Htrace|by apply confined_one]).
  destruct (headers_get (wr_headers resp) (lit "Location")) as [location|];
    [|exists [(method, url, h)]; split; [exact Htrace|by apply confined_one]].
  destruct (is_redirect_status _); [|exists [(method, url, h)]; split; [exact Htrace|by apply confined_one]].
  destruct (IH (resolve_redirect_url url location) (header_remove (lit "authorization") headers) w1) as (l & Hl & Hc).
  exists ((method, url, h) :: l). rewrite Hl, Htrace, <- app_assoc. split; [done|].
  eapply confined_next; [done| |exact Hc]. intros v. apply hn_removed.
Qed.

(** A task that goes on without a request. *)
Lemma follow_then {A} (k : list N * WResponse → Task TransportError W A) method url headers (w : W) :
  (∀ r w, requests (k r w).1 = requests w) →
  ∃ l, requests ((follow MAX_REDIRECTS method url headers ≫= k) w).1 = requests w ++ l ∧
    confined 6 url (no_credentials headers) l.
Proof.
  intros Hk. destruct (follow_confined MAX_REDIRECTS method url headers w) as (l & Hl & Hc). exists l. split; [|done].
  rewrite <- Hl. unfold mbind, task_bind. destruct (follow _ _ _ _ w) as [w1 [r|e|]]; [|done..]. apply Hk.
Qed.

(** ** Properties *)

End facts.

(** ** Witness *)

(** Header maps whose names are read in lower case, as both crates keep them. *)
Definition lower_names (m : list (list N * list N)) : list (list N * list N) :=
  (λ p, (to_ascii_lowercase p.1, p.2)) <$> m.
Definition lower_http : HttpHeaders := {|
  HeaderMap := list (list N * list N);
  HeaderValue := list N;
  header_new := [];
  header_insert := λ n v m, (n, v) :: filter (λ p, p.1 ≠ n) m;
  header_iter := lower_names;
  header_value_from_str := Some;
  header_get := λ m n, (λ p, p.2.2) <$> list_find (λ p, p.1 = n) m;
  header_get_all := λ m n, snd <$> filter (λ p, p.1 = n) m;
  header_to_str := Some |}.
Definition lower_remove : @HeaderNames lower_http := @Build_HeaderNames lower_http
  (λ name m, filter (λ p, p.1 ≠ name) (lower_names m)) Some.
Definition lower_js : JsHeaders := {|
  Headers := list (list N * list N);
  headers_new := [];
  headers_set := λ k v m, Ok ((k, v) :: m);
  headers_get := λ m k, (λ p, p.2.2) <$> list_find (λ p, to_ascii_lowercase p.1 = to_ascii_lowercase k) m;
  headers_entries := λ m, m |}.
(** A registry that sends every reader to the same store, and the requests made so far. *)
Definition moved : list (list N * list N) := [(lit "Location", lit "https://store.example/blob")].
Definition moved_fetch : @FetchApi (list (HttpMethod * list N * list (list N * list N))) lower_js :=
  @Build_FetchApi _ lower_js (list (list N * list N)) (λ method url h _ _ w, (w ++ [(method, url, h)], Ok moved))
    (λ _, 302) (λ r, r) (λ _, Ok []) (λ _ _, None) (λ _ w, w).

Lemma lower_names_spec n v m : (n, v) ∈ lower_names m → to_ascii_lowercase n = n ∧ ∃ k, (k, v) ∈ m ∧ n = to_ascii_lowercase k.
Proof. intros ([k u] & [= -> ->] & Hin)%list_elem_of_fmap. split; [apply lower_idemp|eauto]. Qed.
Lemma lower_remove_ok : @HeaderNamesOk lower_http lower_remove.
Proof.
  split.
  - intros h n v Hin. by eapply lower_names_spec.
  - intros name h v Hin. apply lower_names_spec in Hin as (_ & k & Hin & ->).
    apply list_elem_of_filter in Hin as [Hne Hin]. apply lower_names_spec in Hin as [Hk _]. by apply Hne.
Qed.
Lemma lower_js_ok : @JsHeadersOk lower_js.
Proof.
  split; [done|]. intros k v h h' k' [= <-] Hne. cbn [headers_get lower_js list_find]. rewrite decide_False by done.
  destruct (list_find _ h) as [[i p]|]; done.
Qed.
Lemma moved_trace : @FetchTrace _ lower_js moved_fetch (λ w, w).
Proof. by split. Qed.

