(* ===== verification/Edge.v ===== *)
(** * Edge: the configuration and the routes of the edge worker
    (crates/nixcache-worker/src/lib.rs)

    The runtime is the worker crate: the environment, the JavaScript headers, [Fetch] and
    the router, which picks the handler and its parameter, are interfaces.  A
    [worker::Error] is its text, and a handler that returns one leaves the answer to the
    runtime.  [Response::ok], [error] with a status from 400 on, [from_json] of these
    values and [from_stream] do not fail. *)

From S2P Require Import Prelude Machine Str Text Float64 Error Types Sharding Index Lookup OciError Transport Endpoint Auth Request Driver Upload Manifest ManifestClient IndexClient Ghcr Discovery Deletion Builder Cli ReadOnly Task Reqwest ProxyIndex Proxy Worker WorkerTransport.

Local Open Scope N_scope.

(** [Env::var] and [Env::secret]. *)
Class WorkerEnv := { we_var : list N → option (list N); we_secret : list N → option (list N) }.
(** [Url::parse], with the text of its error, and [Fetch::Url(..).send()]. *)
Class WorkerFetch (W : Type) `{JsHeaders} := {
  Url : Type;
  url_parse : list N → outcome (list N) Url;
  FetchResponse : Type;
  fetch_send : Url → W → W * option FetchResponse;
  fr_status_code : FetchResponse → N;
  fr_headers : FetchResponse → Headers;
  fr_text : FetchResponse → W → W * option (list N) }.

(** ** Configuration *)

Definition upstream_separator (c : N) : bool := is_whitespace c || (c =? 44).
Definition parse_upstream_list (upstream_str : list N) : list (list N) :=
  filter (λ s, negb (is_empty s)) (trim <$> split_by upstream_separator upstream_str).

Definition PLACEHOLDER_REPO : list N := lit "YOUR_GITHUB_USERNAME_OR_ORG/YOUR_REPO_NAME".

Section config.
Context `{WorkerEnv}.

(** [env.var(a).or_else(|_| env.var(b))]. *)
Definition var_or (a b : list N) : option (list N) :=
  match we_var a with Some v => Some v | None => we_var b end.

Definition get_worker_config : outcome (list N) WorkerProxyConfig :=
  let registry := default (lit "ghcr.io") (we_var (lit "NIXCACHE_REGISTRY")) in
  repo ← match we_var (lit "NIXCACHE_REPO") with
         | Some repo => Ok repo
         | None => Err (lit "NIXCACHE_REPO environment variable must be set")
         end;
  if is_empty repo || bool_decide (repo = PLACEHOLDER_REPO) then
    Err (lit "NIXCACHE_REPO must be configured with your actual GitHub repository (currently using default placeholder)")
  else
    Ok {| wc_registry := registry; wc_repo := repo;
      wc_baseline_tag := default (lit "cache-index") (we_var (lit "NIXCACHE_BASELINE_TAG"));
      wc_kv_binding := match we_var (lit "NIXCACHE_KV_BINDING") with
                       | Some binding => if negb (is_empty binding) then binding else lit "NIXCACHE_KV"
                       | None => lit "NIXCACHE_KV"
                       end;
      wc_upstream_caches := parse_upstream_list
        (default (lit "https://cache.nixos.org") (var_or (lit "NIXCACHE_UPSTREAM_CACHES") (lit "NIXCACHE_UPSTREAM")));
      wc_baseline_ttl_secs := match var_or (lit "NIXCACHE_INDEX_TTL") (lit "NIXCACHE_BASELINE_TTL") with
                              | Some v => match parse_u64 v with Ok n => n | _ => 300 end
                              | None => 300
                              end;
      wc_target_system := match we_var (lit "NIXCACHE_SYSTEM") with
                          | Some v => SystemArch_from v
                          | None => X86_64Linux
                          end |}.

(** The credentials of the client's token manager. *)
Definition store_credentials : RegistryCredentials :=
  let github_token :=
    match we_secret (lit "GITHUB_TOKEN") with
    | Some v => v
    | None =>
        match we_secret (lit "NIXCACHE_AUTH_TOKEN") with
        | Some v => v
        | None => default [] (var_or (lit "GITHUB_TOKEN") (lit "NIXCACHE_AUTH_TOKEN"))
        end
    end in
  match var_or (lit "REGISTRY_USERNAME") (lit "OCI_USERNAME") with
  | Some username => credentials_with_username username github_token
  | None => credentials_new github_token
  end.

Definition get_store `{UriLib} `{UnicodeCase} `{Build} `{OciFormat} : outcome (list N) CacheStore :=
  config ← get_worker_config;
  client ← map_err (λ e, display_worker_store_error (worker_from_oci e))
             (OciClient_with_transport (wc_registry config) (wc_repo config) OciReadLimits_default);
  map_err display_worker_store_error (CacheStore_new client config).
End config.

(** ** Routes *)

(** What the router calls: the handler with [ctx.param]. *)
Inductive EdgeRoute :=
  | EdgeCacheInfo | EdgePublicKey | EdgeStatus | EdgeRefresh
  | EdgeNar (nar_name : option (list N)) | EdgeNarInfo (hash_ext : option (list N)).

Section routes.
Context {W : Type} `{HttpHeaders} `{UriLib} `{UnicodeCase} `{!TransportOps W} `{!TokenOps W} `{!UtcNow W}.
Context `{!SharedWorker W} `{!DateNow W} `{!KvNamespace W} `{!JoinTasks W}.
Context `{JsHeaders} `{!WorkerFetch W} `{WorkerEnv}.
Context `{Sha2} `{Chrono} `{HashIter} `{Build} `{Zstd} `{SerdeErrors} `{OciFormat}.
Context `{!Serde OciImageIndex} `{!Serde OciImageManifest}.
Context `{!Serde ShardedArchCacheIndexData} `{!Serde ShardDataPayload}.
Notation T := (Task (list N) W).

Inductive EdgeBody :=
  | EdgeText (text : list N)
  | EdgeStatusJson (status : WorkerStatus)
  | EdgeRefreshed (entries warmed_shards : N) (manifest_digest : list N)
  | EdgeRefreshFailed (error : list N)
  | EdgeStream (stream : VerifiedBlobStream)
  | EdgeUpstream (response : FetchResponse).
(** The headers are those the handler sets; without, the runtime's. *)
Record EdgeResponse := { er_status : N; er_headers : option Headers; er_body : EdgeBody }.

Definition response_error (message : list N) (status : N) : EdgeResponse :=
  {| er_status := status; er_headers := None; er_body := EdgeText message |}.
Definition with_headers (headers : Headers) (r : EdgeResponse) : EdgeResponse :=
  {| er_status := er_status r; er_headers := Some headers; er_body := er_body r |}.
Definition response_ok (body : EdgeBody) : EdgeResponse :=
  {| er_status := 200; er_headers := None; er_body := body |}.
(** [headers.set(..)?] for each pair in turn. *)
Definition set_all (pairs : list (list N * list N)) (headers : Headers) : T Headers :=
  raise (fold_m (λ h p, headers_set p.1 p.2 h) headers pairs).
Definition store_error {A} (m : Task WorkerStoreError W A) : T A := convert display_worker_store_error m.

Definition cache_info : T EdgeResponse :=
  headers ← set_all [(lit "Content-Type", lit "text/x-nix-cache-info")] headers_new;
  mret (with_headers headers (response_ok (EdgeText
    (lit "StoreDir: /nix/store" ++ 10 :: lit "WantMassQuery: 1" ++ 10 :: lit "Priority: 40" ++ [10])))).

Definition public_key : T EdgeResponse :=
  store ← raise get_store;
  key ← attempt (Worker_get_public_key store);
  match key with
  | inr (Some public_key) =>
      headers ← set_all [(lit "Content-Type", lit "text/x-nix-public-key")] headers_new;
      mret (with_headers headers (response_ok (EdgeText (public_key ++ [10]))))
  | inr None => mret (response_error (lit "No public key configured") 404)
  | inl e => mret (response_error (lit "Failed to load public key: " ++ display_worker_store_error e) 500)
  end.

(** The status of a worker that is not configured. *)
Definition unconfigured_status (error : list N) : WorkerStatus := {|
  ws_remote_connected := false; ws_remote_error := Some error; ws_registry := lit "ghcr.io"; ws_repo := [];
  ws_baseline_tag := []; ws_tier0_hot_entries := 0; ws_baseline_entries := 0; ws_total_unique_entries := 0;
  ws_index_entries := 0; ws_index_ttl := 300; ws_baseline_ttl := 300; ws_upstream := [lit "https://cache.nixos.org"];
  ws_manifest_digest := []; ws_generated := [] |}.
Definition edge_status : T EdgeResponse :=
  store ← try_pure get_store;
  match store with
  | inl e => mret (response_ok (EdgeStatusJson (unconfigured_status e)))
  | inr store => status ← store_error (get_status store); mret (response_ok (EdgeStatusJson status))
  end.

Definition edge_refresh : T EdgeResponse :=
  store ← raise get_store;
  refreshed ← attempt (Worker_force_refresh store);
  match refreshed with
  | inr res =>
      status ← store_error (get_status store);
      mret (response_ok (EdgeRefreshed (rr_total_entries res) (rr_warmed_shards res) (ws_manifest_digest status)))
  | inl e => mret (response_ok (EdgeRefreshFailed (display_worker_store_error e)))
  end.

(** The upstream caches in turn: the first answer with status 200 that can be used; a URL
    that does not parse ends the request. *)
Fixpoint fetch_upstream (urls : list (list N)) (use : FetchResponse → T (option EdgeResponse)) : T (option EdgeResponse) :=
  match urls with
  | [] => mret None
  | url :: urls =>
      url ← raise (url_parse url);
      resp ← call (fetch_send url);
      match resp with
      | Some resp =>
          if fr_status_code resp =? 200 then
            used ← use resp;
            match used with Some r => mret (Some r) | None => fetch_upstream urls use end
          else fetch_upstream urls use
      | None => fetch_upstream urls use
      end
  end.

(** The blob of the digest, if the registry has it. *)
Definition stream_nar (store : CacheStore) (content_type : list N) (digest : NarDigest) : T (option EdgeResponse) :=
  result ← attempt (blob_stream (ws_client store) (NarDigest_as_str digest));
  match result with
  | inr (status, headers, stream) =>
      if is_success status then
        _ ← store_error (worker_set_remote_status true None);
        h ← set_all ([(lit "Content-Type", content_type); (lit "Accept-Ranges", lit "bytes")]
                     ++ match content_length headers with
                        | Some len => [(lit "Content-Length", show_N len)]
                        | None => []
                        end) headers_new;
        mret (Some (with_headers h (response_ok (EdgeStream stream))))
      else
        _ ← store_error (worker_set_remote_status false (Some (lit "GHCR HTTP " ++ fmt_status status)));
        mret None
  | inl e =>
      _ ← store_error (worker_set_remote_status false (Some (lit "Stream failed: " ++ display_oci_error e)));
      mret None
  end.

Definition edge_nar (nar_name : option (list N)) : T EdgeResponse :=
  match nar_name with
  | None => mret (response_error (lit "Missing NAR name") 400)
  | Some nar_name =>
      let content_type := nar_content_type nar_name in
      store ← raise get_store;
      digest ← attempt (lookup_nar_digest store nar_name);
      streamed ← (match digest with
                  | inr (Some digest) => stream_nar store content_type digest
                  | _ => mret None
                  end);
      match streamed with
      | Some response => mret response
      | None =>
          found ← fetch_upstream ((λ cache_url, cache_url ++ lit "/nar/" ++ nar_name) <$> wc_upstream_caches (ws_config store))
            (λ resp, headers ← set_all [(lit "Content-Type", content_type); (lit "Accept-Ranges", lit "bytes")] (fr_headers resp);
                     mret (Some (with_headers headers (response_ok (EdgeUpstream resp)))));
          mret (default (response_error (lit "NAR not found") 404) found)
      end
  end.

Definition narinfo_headers (healed : list N) : list (list N * list N) :=
  [(lit "Content-Type", lit "text/x-nix-narinfo"); (lit "X-NixCache-Version", lit "6");
   (lit "X-NixCache-Self-Healed", healed)].

Definition edge_narinfo (hash_ext : option (list N)) : T EdgeResponse :=
  match hash_ext with
  | None => mret (response_error (lit "Missing parameter") 400)
  | Some hash_ext =>
      if negb (ends_with NARINFO hash_ext) then mret (response_error (lit "Not found") 404)
      else
        let store_hash := trim_end_matches (length hash_ext) NARINFO hash_ext in
        store ← raise get_store;
        found ← attempt (lookup_narinfo store store_hash);
        match found with
        | inr (Some res) =>
            headers ← set_all (narinfo_headers (if nl_self_healed res then lit "1" else lit "0")
                         ++ match nl_shard_id res with Some id => [(lit "X-NixCache-Shard", show_N id)] | None => [] end
                         ++ match nl_manifest_digest res with Some d => [(lit "X-NixCache-Digest", d)] | None => [] end)
                        headers_new;
            mret (with_headers headers (response_ok (EdgeText (nl_narinfo_content res))))
        | inl e => mret (response_error (lit "Failed to query narinfo: " ++ display_worker_store_error e) 500)
        | inr None =>
            upstream ← fetch_upstream ((λ cache_url, cache_url ++ lit "/" ++ store_hash ++ NARINFO)
                                         <$> wc_upstream_caches (ws_config store))
              (λ resp, text ← call (fr_text resp);
                       match text with
                       | Some body =>
                           headers ← set_all (narinfo_headers (lit "0")) (fr_headers resp);
                           mret (Some (with_headers headers (response_ok (EdgeText body))))
                       | None => mret None
                       end);
            match upstream with
            | Some r => mret r
            | None =>
                headers ← set_all [(lit "X-NixCache-Version", lit "6"); (lit "X-NixCache-Self-Healed", lit "0")] headers_new;
                mret (with_headers headers (response_error (lit "narinfo not found") 404))
            end
        end
  end.

(** [main], after the router. *)
Definition edge_main (route : EdgeRoute) : T EdgeResponse :=
  match route with
  | EdgeCacheInfo => cache_info
  | EdgePublicKey => public_key
  | EdgeStatus => edge_status
  | EdgeRefresh => edge_refresh
  | EdgeNar nar_name => edge_nar nar_name
  | EdgeNarInfo hash_ext => edge_narinfo hash_ext
  end.
End routes.

(** ** Facts *)

Lemma get_store_limits `{WorkerEnv} `{UriLib} `{UnicodeCase} `{Build} `{OciFormat} store :
  get_store = Ok store → OciReadLimits_default = cl_limits (ws_client store).
Proof.
  intros Hs. unfold get_store in Hs. apply bind_ok in Hs as (config & _ & Hs).
  apply bind_ok in Hs as (client & Hc%map_err_ok & Hs%map_err_ok). apply bind_ok in Hs as (ms & _ & Hs). injection Hs as <-.
  unfold OciClient_with_transport, OciClient_new in Hc. apply bind_ok in Hc as (u & _ & Hc).
  apply bind_ok in Hc as (endpoint & _ & Hc). by injection Hc as <-.
Qed.

(** What the handlers call besides the store. *)
Class EdgeKeeps {W : Type} `{HttpHeaders} `{!TransportOps W} `{!TokenOps W} `{!UtcNow W} `{!DateNow W} `{!KvNamespace W}
    `{JsHeaders} `{!WorkerFetch W} (R : W → W → Prop) : Prop := {
  #[global] ek_worker :: WorkerKeeps R;
  ek_stream : ∀ url h limit w, R w (tr_stream url h limit w).1;
  ek_fetch : ∀ url w, R w (fetch_send url w).1;
  ek_text : ∀ r w, R w (fr_text r w).1 }.

Section facts.
Context {W : Type} `{HttpHeaders} `{UriLib} `{UnicodeCase} `{!TransportOps W} `{!TokenOps W} `{!UtcNow W}.
Context `{!SharedWorker W} `{!DateNow W} `{!KvNamespace W} `{!JoinTasks W}.
Context `{JsHeaders} `{!WorkerFetch W} `{WorkerEnv}.
Context `{Sha2Ok} `{Chrono} `{HashIter} `{Build} `{Zstd} `{SerdeErrors} `{OciFormat}.
Context `{!Serde OciImageIndex} `{!Serde OciImageManifest}.
Context `{!Serde ShardedArchCacheIndexData} `{!Serde ShardDataPayload}.
Context (store : CacheStore) (Hstore : get_store = Ok store) (K : W → Prop) `{!KvSound K} `{!EdgeKeeps (worker_kept store K)}.
Notation I := (λ w : W, K w ∧ worker_inv store (worker_state w)).

Lemma etriple_set_all pairs headers : triple I (set_all (W := W) pairs headers) (λ _, True).
Proof. by apply triple_raise. Qed.
Lemma etriple_store (Q : EdgeResponse → Prop) (k : CacheStore → Task (list N) W EdgeResponse) :
  triple I (k store) Q → triple I (store ← raise get_store; k store) Q.
Proof.
  intros Hk. eapply (triple_bind I _ _ (λ s, s = store)); [apply triple_raise; intros s Hs; congruence|]. by intros s ->.
Qed.

Lemma etriple_upstream urls (use : FetchResponse → Task (list N) W (option EdgeResponse)) (Post : EdgeResponse → Prop) :
  (∀ resp, fr_status_code resp = 200 → triple I (use resp) (λ r, ∀ x, r = Some x → Post x)) →
  triple I (fetch_upstream urls use) (λ r, ∀ x, r = Some x → Post x).
Proof.
  intros Huse. induction urls as [|url urls IH]; simpl; [by apply triple_ret|].
  eapply (triple_bind I _ _ (λ _, True)); [by apply triple_raise|]. intros u _.
  eapply triple_bind; [apply (triple_call I); exact (ek_fetch u)|]. intros [resp|] _; [|exact IH].
  destruct (fr_status_code resp =? 200) eqn:Hs; [|exact IH]. eapply triple_bind; [by apply Huse, N.eqb_eq|].
  intros [r|] Hr; [by apply triple_ret|exact IH].
Qed.

(** *** Narinfos *)

(** The responses to a narinfo request. *)
Definition edge_narinfo_response (hash_ext : list N) (r : EdgeResponse) : Prop :=
  er_status r ∈ [404; 500] ∨
  er_status r = 200 ∧ ∃ text, er_body r = EdgeText text ∧
    ((∃ h e, StoreHash_parse (trim_end_matches (length hash_ext) NARINFO hash_ext) = Ok h ∧
        worker_answers store h e ∧ text = IndexEntry_to_narinfo_string e) ∨
     (∃ resp w, fr_status_code resp = 200 ∧ (fr_text resp w).2 = Some text)).

Lemma etriple_text resp : triple I (call (E := list N) (fr_text resp)) (λ r, ∃ w, (fr_text resp w).2 = r).
Proof.
  intros w Hw. pose proof ((ek_text resp w : worker_kept store K w _) Hw) as Hw'. unfold call.
  destruct (fr_text resp w) as [w1 r] eqn:Hr. simpl in *. split; [done|]. intros a [= <-]. exists w. by rewrite Hr.
Qed.

Lemma etriple_narinfo hash_ext : triple I (edge_narinfo (Some hash_ext)) (edge_narinfo_response hash_ext).
Proof.
  unfold edge_narinfo. destruct (negb _); [apply triple_ret; left; set_solver|]. apply etriple_store.
  eapply triple_bind; [apply triple_attempt_task, (wtriple_lookup store K)|]. intros [e|[res|]] Hres.
  - apply triple_ret. left. set_solver.
  - eapply triple_bind; [apply etriple_set_all|]. intros headers _. apply triple_ret. right. split; [done|].
    destruct (Hres _ eq_refl) as (h & e & Hp & Ha & Ht & _). eexists. split; [done|]. left. by exists h, e.
  - eapply triple_bind.
    { apply (etriple_upstream _ _ (edge_narinfo_response hash_ext)). intros resp Hs.
      eapply triple_bind; [apply etriple_text|]. intros [body|] [w Ht]; [|by apply triple_ret].
      eapply triple_bind; [apply etriple_set_all|]. intros headers _. apply triple_ret. intros x [= <-]. right.
      split; [done|]. exists body. split; [done|]. right. by exists resp, w. }
    intros [r|] Hr; [by apply triple_ret, Hr|]. eapply triple_bind; [apply etriple_set_all|]. intros headers _.
    apply triple_ret. left. set_solver.
Qed.

(** *** NARs *)

(** The responses to a NAR request. *)
Definition edge_nar_response (nar_name : list N) (r : EdgeResponse) : Prop :=
  er_status r = 404 ∨
  er_status r = 200 ∧
    ((∃ digest stream inner target headers, worker_nar_answers store nar_name digest ∧ er_body r = EdgeStream stream ∧
        VerifiedBlobStream_new inner target (NarDigest_as_str digest) headers
          (max_streamed_blob_bytes (cl_limits (ws_client store))) = Ok stream) ∨
     (∃ resp, er_body r = EdgeUpstream resp ∧ fr_status_code resp = 200)).

Lemma etriple_status c e : triple I (store_error (worker_set_remote_status c e)) (λ _, True).
Proof. apply triple_convert, (wtriple_status store K). Qed.

Lemma etriple_stream nar_name content_type digest : worker_nar_answers store nar_name digest →
  triple I (stream_nar store content_type digest) (λ r, ∀ x, r = Some x → edge_nar_response nar_name x).
Proof.
  intros Hd. unfold stream_nar. eapply triple_bind.
  { apply (triple_attempt I _ (λ r, ∃ inner target, VerifiedBlobStream_new inner target (NarDigest_as_str digest) r.1.2
      (max_streamed_blob_bytes (cl_limits (ws_client store))) = Ok r.2)).
    - exact (keep_blob_stream (worker_kept store K) _ _ ek_stream).
    - intros w w' [[status headers] stream] Hb. by eapply blob_stream_opened. }
  intros [e|[[status headers] stream]] Hs;
    [eapply triple_bind; [apply etriple_status|]; intros _ _; by apply triple_ret|].
  destruct (is_success status); (eapply triple_bind; [apply etriple_status|]; intros _ _); [|by apply triple_ret].
  eapply triple_bind; [apply etriple_set_all|]. intros h _. apply triple_ret. intros x [= <-]. right. split; [done|]. left.
  destruct Hs as (inner & target & Hv). by exists digest, stream, inner, target, headers.
Qed.

Lemma etriple_nar nar_name : triple I (edge_nar (Some nar_name)) (edge_nar_response nar_name).
Proof.
  unfold edge_nar. apply etriple_store. eapply triple_bind; [apply triple_attempt_task, (wtriple_nar store K)|].
  intros digest Hd. eapply triple_bind.
  { instantiate (1 := λ r, ∀ x, r = Some x → edge_nar_response nar_name x).
    destruct digest as [e|[digest|]]; [by apply triple_ret|by apply etriple_stream, Hd|by apply triple_ret]. }
  intros [r|] Hr; [by apply triple_ret, Hr|]. eapply triple_bind.
  { apply (etriple_upstream _ _ (edge_nar_response nar_name)). intros resp Hs.
    eapply triple_bind; [apply etriple_set_all|]. intros headers _. apply triple_ret. intros x [= <-]. right.
    split; [done|]. right. by exists resp. }
  intros found Hf. apply triple_ret. destruct found as [r|]; [by apply Hf|by left].
Qed.

Lemma etriple_main route : triple I (edge_main route) (λ _, True).
Proof.
  destruct route as [| | | |[nar_name|]|[hash_ext|]]; cbn [edge_main].
  - eapply triple_bind; [apply etriple_set_all|]. intros. by apply triple_ret.
  - apply etriple_store. eapply triple_bind; [apply triple_attempt_task, (wtriple_public_key store K)|].
    intros [e|[key|]] _; [by apply triple_ret| |by apply triple_ret].
    eapply triple_bind; [apply etriple_set_all|]. intros. by apply triple_ret.
  - unfold edge_status. rewrite Hstore. eapply triple_bind; [apply triple_try|]. intros [e|s] Hs; [done|]. injection Hs as <-.
    eapply triple_bind; [apply triple_convert, (wtriple_get_status store K)|]. intros. by apply triple_ret.
  - apply etriple_store. eapply triple_bind; [apply triple_attempt_task, (wtriple_force_refresh store K)|].
    intros [e|res] _; [by apply triple_ret|]. eapply triple_bind; [apply triple_convert, (wtriple_get_status store K)|].
    intros. by apply triple_ret.
  - eapply triple_weaken; [apply etriple_nar|done].
  - by apply triple_ret.
  - eapply triple_weaken; [apply etriple_narinfo|done].
  - by apply triple_ret.
Qed.
End facts.

Lemma split_by_clean f u : Forall (λ c, f c = false) u → split_by f u = [u].
Proof. induction 1 as [|c u Hc Hu IH]; [done|]. simpl. by rewrite Hc, IH. Qed.
Lemma split_by_app f u c s : Forall (λ c, f c = false) u → f c = true → split_by f (u ++ c :: s) = u :: split_by f s.
Proof. induction 1 as [|d u Hd Hu IH]; intros Hc; simpl; [by rewrite Hc|]. by rewrite Hd, IH. Qed.
Lemma trim_clean u : Forall (λ c, upstream_separator c = false) u → trim u = u.
Proof.
  intros Hu. assert (Hw : ∀ s, Forall (λ c, upstream_separator c = false) s → trim_start s = s).
  { intros s Hs. destruct Hs as [|c s Hc Hs]; [done|]. unfold trim_start. simpl.
    by apply orb_false_iff in Hc as [-> _]. }
  unfold trim, trim_end. rewrite (Hw u) by done. rewrite Hw by by apply Forall_reverse. apply reverse_involutive.
Qed.

(** ** Properties *)


(** A list of upstream caches is read back from its text, with whatever separators are between. *)
Theorem upstream_list_roundtrip (urls : list (list N)) :
  Forall (λ u, u ≠ [] ∧ Forall (λ c, upstream_separator c = false) u) urls →
  parse_upstream_list (join (lit ", ") urls) = urls.
Proof.
  intros Hall. unfold parse_upstream_list.
  induction Hall as [|u urls [Hne Hu] Hall IH]; [done|]. destruct urls as [|v urls].
  - simpl. rewrite split_by_clean by done. simpl. rewrite trim_clean by done. by destruct u.
  - change (join (lit ", ") (u :: v :: urls)) with (u ++ 44 :: 32 :: join (lit ", ") (v :: urls)).
    rewrite split_by_app by done. cbn [fmap list_fmap]. rewrite trim_clean by done.
    replace (split_by upstream_separator (32 :: join (lit ", ") (v :: urls)))
      with ([] :: split_by upstream_separator (join (lit ", ") (v :: urls))) by done.
    cbn [fmap list_fmap]. rewrite filter_cons_True by (by destruct u). rewrite filter_cons_False by (intros []). by rewrite IH.
Qed.

(** ** Divergences *)

(** The milliseconds of a configured time to live are a product of [u64]: in a release build
    one of 2^64 / 1000 seconds and a little more is 384 milliseconds. *)
Theorem edge_ttl_wraps client config : wc_baseline_ttl_secs config = 18446744073709552 →
  match @CacheStore_new release64 client config with
  | Ok store => baseline_ttl_ms store = f64_of_N 384
  | _ => False
  end.
Proof. intros Httl. unfold CacheStore_new. rewrite Httl. reflexivity. Qed.

(** ** Witnesses *)

Section samples.
#[local] Existing Instances flat_sha2 flat_sha2_ok Types.sample_chrono map_order sample_http sample_uri ascii_case sample_build.
#[local] Existing Instances sample_errors sample_format served_zstd sample_index_serde served_manifest_serde.
#[local] Existing Instances served_root_json no_shard_json sample_shared_worker worker_tokens worker_transport worker_utc.
#[local] Existing Instances worker_date worker_kv worker_join.
#[local] Instance sample_js : JsHeaders := {|
  Headers := list (list N * list N); headers_new := []; headers_set := λ name value h, Ok ((name, value) :: h);
  headers_get := λ h name, (λ p, p.2.2) <$> list_find (λ p, p.1 = name) h; headers_entries := id |}.
#[local] Instance no_upstream : WorkerFetch WorkerState := {|
  Url := list N; url_parse := Ok; FetchResponse := unit; fetch_send := λ _ w, (w, None);
  fr_status_code := λ _, 200; fr_headers := λ _, []; fr_text := λ _ w, (w, None) |}.
#[local] Instance sample_worker_env : WorkerEnv := {|
  we_var := λ key, if decide (key = lit "NIXCACHE_REGISTRY") then Some (lit "us-docker.pkg.dev")
                   else if decide (key = lit "NIXCACHE_REPO") then Some (lit "owner/cache")
                   else if decide (key = lit "NIXCACHE_UPSTREAM") then Some [] else None;
  we_secret := λ _, None |}.

Lemma sample_edge_keeps : EdgeKeeps (worker_kept sample_store (λ _ : WorkerState, True)).
Proof. split; [apply sample_worker_keeps|by intros; unfold worker_kept..]. Qed.

Definition sample_request : EdgeRoute := EdgeNarInfo (Some (sample_hash ++ NARINFO)).
Lemma sample_narinfo_answered :
  match edge_main sample_request GLOBAL_STATE with (_, Ok r) => er_status r =? 200 | _ => false end = true.
Proof. vm_cast_no_check (eq_refl true). Qed.
Lemma sample_store_configured : get_store = Ok sample_store.
Proof. vm_cast_no_check (@eq_refl (outcome (list N) CacheStore) (Ok sample_store)). Qed.

End samples.
